(* ===== verification/_CoqProject ===== *)
-Q . S2P
Prelude.v
GoPath.v
LockTable.v
LockSpec.v
ShareTable.v
StagingTypes.v
DirtyIndex.v
Disk.v
PathState.v
Session.v
SessionSafety.v
StagingManager.v
StagingPressure.v
StagingRename.v
StagingRecovery.v
StagingConflict.v
StagingDurability.v
ObjectStore.v
SyncWorker.v
SyncUpload.v
SyncSafety.v
SyncProperties.v
SyncFindings.v
RenameSafety.v
Lease.v
Breaker.v
ListingFence.v
LRU.v
DataCache.v
DataCacheSafety.v
RangeRead.v
RangeReadCache.v
CosClient.v
Paths.v
Streams.v
Attributes.v
MetadataCache.v
Bucket.v
Namespace.v
NamespaceLookup.v
NamespaceRename.v
NamespaceSafety.v
NamespaceListing.v
ObjectRefresh.v
WriteBuffer.v
BufferSessions.v
AuthGate.v
Runes.v
WindowsNames.v
FoldNames.v
Changes.v
VfsTypes.v
VfsPosix.v
Vfs.v
VfsOps.v
VfsFile.v
VfsMemory.v
VfsSafety.v
VfsFileSafety.v
VfsOpenSafety.v
VfsBuffered.v
VfsFindings.v
GoText.v
ClientRules.v
Config.v
ConfigValidation.v
SmbIdentity.v
GoMatch.v
SmbBackend.v
SmbStreams.v
SmbSafety.v
SmbHandleSafety.v
SmbFindings.v
NfsCache.v
Lockers.v
SmbServer.v
NfsServer.v
StoreAdapter.v
ObjectLocks.v
CosWrites.v
