(* ===== verification/Prelude.v ===== *)
(** * Bluestone: a verification library for the gateway's core

    Bluestone serves one bucket of an S3-like object store as a file system over
    NFS and SMB.  Clients write into a local staging directory; a worker uploads
    what is dirty and removes staged bytes once the bucket has them.  A lease
    object keeps a second gateway away from the bucket, lock and share tables
    arbitrate between clients of both protocols, and caches keep object bytes
    and listings close.  The library follows the Go sources under [src/],
    definition by definition; a definition has the name of the Go function it
    models where Rocq allows it.

    ** Parts and files

    - this file: Go's times, integers and strings, sums over finite maps, the
      tactics ([bool_to_prop], [zcases], [cases]) and lemmas shared by all;
    - [GoPath]: [path.Clean] and its relatives of the standard library;
    - [LockTable], [LockSpec] ([internal/lock/manager.go]): the byte-range lock
      table, and record locks byte by byte as its specification;
    - [ShareTable] ([internal/lock/share.go]): SMB share modes;
    - [StagingTypes], [DirtyIndex] ([internal/staging/metadata.go]): the records
      of staging and the index of dirty files with its generations and claims;
    - [Disk]: the staging directory, with data files and sidecars, what of them a
      power loss keeps, and an oracle that makes any call fail;
    - [PathState] ([path_state.go]): sidecars and how they are replaced;
    - [Session], [SessionSafety] ([session.go], [session_upload.go],
      [session_discard.go], [multipart.go]): write sessions, upload snapshots and
      the copy a write makes while an upload reads;
    - [StagingManager] ([manager.go], [tombstone.go]), [StagingPressure]
      (reservations against the quota), [StagingRename], [RenameSafety]
      ([rename.go]), [StagingRecovery] (conflicts and restart),
      [StagingConflict], [StagingDurability]: the staging manager over the disk;
    - [ObjectStore]: the interface of the object store, with its laws, and a
      store in memory that has them;
    - [SyncWorker], [SyncUpload] ([sync_worker.go]): which files are uploaded,
      single and multipart uploads and their retries;
    - [SyncSafety], [SyncProperties], [SyncFindings]: clients and workers
      together, as a step relation on the whole state;
    - [Lease] ([internal/ha/lease.go]): the bucket lease;
    - [Breaker] ([internal/cos/breaker.go], [quota.go]): the circuit breaker and
      the full-bucket state;
    - [ListingFence] ([internal/posix/listing_fence.go]);
    - [LRU] ([internal/cache/lru.go]), [DataCache], [DataCacheSafety]
      ([data.go]), [MetadataCache] ([metadata.go]): the caches;
    - [RangeRead], [RangeReadCache] ([internal/posix/operations.go], its range
      reads): reads assembled from cached chunks;
    - [CosClient] ([internal/cos/client.go], [multipart.go]): what the client
      makes of the answers of the object store's SDK;
    - [Paths], [Streams], [Attributes] ([path.go], [streams.go],
      [attributes.go]): object keys, named streams and attributes as metadata;
    - [Bucket]: the bucket as the namespace sees it, with its laws and a bucket
      in memory that has them;
    - [Namespace], [NamespaceLookup], [NamespaceRename], [NamespaceSafety],
      [NamespaceListing] ([operations.go], [child_names.go]): files and
      directories over object keys, looked up, listed, renamed and removed;
    - [ObjectRefresh] ([object_refresh.go]): the scan that finds what others
      changed in the bucket;
    - [WriteBuffer], [BufferSessions] ([internal/buffer]): writes buffered in
      memory, for a gateway without staging;
    - [AuthGate] ([internal/smb/authgate.go]): the rationing of password guesses;
    - [Runes], [WindowsNames], [FoldNames] ([internal/vfs/names.go]): UTF-8, names
      as Windows clients see them, and names that differ in case;
    - [Changes] ([changes.go], [dirtimes.go]): the feed of changes and the times of
      directories;
    - [VfsTypes], [Vfs], [VfsOps] ([internal/vfs/filesystem.go] and the files
      beside it): the file system both protocols serve, composed from the staging
      layer and the namespace of the bucket, which is the interface [PosixOps];
      [VfsPosix] implements it with [Namespace], [VfsMemory] with a map;
    - [VfsFile] ([filesystem.go]): open files;
    - [VfsSafety], [VfsFileSafety], [VfsOpenSafety], [VfsBuffered], [VfsFindings]:
      what the file system promises, and where it does not keep it;
    - [GoText], [GoMatch]: text of the standard library, as the configuration, the
      access rules and the search patterns use it;
    - [ClientRules] ([internal/config/client_rules.go],
      [internal/nfs/allowlist.go]): which client addresses may connect;
    - [Config], [ConfigValidation] ([internal/config/config.go],
      [validation.go]): settings, their defaults and their validation;
    - [SmbIdentity] ([internal/smb/identity.go]): Windows accounts and owners, and
      the access lists of shares;
    - [SmbBackend], [SmbStreams] ([internal/smb/backend.go], [streams.go]): SMB
      opens, handles and named streams over the file system and the share table;
      [SmbSafety], [SmbHandleSafety], [SmbFindings]: what they promise and where
      they do not keep it;
    - [Lockers] ([internal/nfs/locker.go], [internal/smb/locker.go]): the locks of
      both protocols in one table;
    - [SmbServer] ([internal/smb/server.go], [notify.go]): which connections are
      served, how a server is put together, started and stopped, and what SMB
      clients are told of changes;
    - [NfsCache] ([internal/nfs/cached_filesystem.go]): the listing cache of the NFS
      export, over the interface [Backing] of the file system below;
    - [NfsServer] ([internal/nfs/server.go], [portmap.go], [fsstat.go],
      [stable_verifier_handler.go], [internal/health/checker.go]): the NFS server,
      its portmapper calls and the health checks;
    - [StoreAdapter] ([internal/staging/cos_adapter.go]), [ObjectLocks]
      ([sync_worker.go]), [CosWrites] ([internal/cos/client.go]): the metadata of
      uploads, the locks that let one sync of a path run at a time, and the writes
      of the object store client.

    ** Modelling

    A method that holds its mutex throughout is one step; a method that lets go
    of it in between is several, and the step relations interleave them with
    every other operation.  Go pointers that are shared (sessions, share handles,
    list elements) are addresses in an explicit heap.  Errors are values of sum
    types; a failing disk or store call is chosen by an oracle in the state, so
    that theorems quantify over every pattern of failures.  JSON documents are
    kept decoded, with a constructor for one that does not decode.  Loops over
    Go maps take the order of iteration as an input wherever it could matter.

    Fuel: the reservation loop of [StagingPressure] is proved to decide within
    the turns its deadline allows; [list_loop] of [CosClient] is proved to end
    with more fuel than the listing has entries.  Elsewhere the fuel is a bound
    the loop cannot pass: the length of the list for [LRU.clean], one more than
    the index for the data cache's [make_room], the length of the input for
    [decode_loop], nine bytes for [put_uvarint], 64 digits for [format_digits],
    one more than the length of the path for [ancestors_loop], three turns a key
    for [each_loop], the length of the string for [Runes.decode_loop], the longest
    case orbit, which the interface states, for [orbit_loop], the length of the
    text for [TrimLeft_loop], [TrimRight_loop] and [ParseDuration], eight groups
    for [ipv6_loop], the length of the key for [changedAncestors_loop], which a key
    shortens at every turn, and the length of the pattern for [GoMatch.match_loop],
    for which more is proved to change nothing.  Every other recursion is structural.

    ** What is shown

    Each claim states the conditions it needs in the comment before it, and where
    the code does not ensure one a lemma shows what happens without it.

    Written data is not lost: [SyncProperties] (no interleaving of writers,
    workers and deletes, under the provisos of [SyncSafety.step], loses an
    accepted write, cleans up or marks clean what is not uploaded),
    [StagingDurability] (committed bytes survive a power loss),
    [StagingConflict], [RenameSafety].  Sessions behave as plain files whether or
    not an upload reads them ([SessionSafety]); uploads put exactly the bytes of
    their snapshot ([SyncUpload]).  Lock, share, dirty and cache tables keep
    their invariants and refine what they stand for ([LockSpec], [ShareTable],
    [DirtyIndex], [LRU]).  Once a gateway's lease is in the bucket the others
    stop serving with their next heartbeat ([Lease]).  Reads return the object's
    bytes, cached or not ([RangeRead], [DataCacheSafety]); lookups and listings
    that are not cached report what the bucket holds, a lookup that raced with a
    change of its path is not cached, and a rename keeps every object under one
    of its two names ([NamespaceLookup], [NamespaceListing], [NamespaceSafety],
    [NamespaceRename]).  Keys, streams and attributes survive being written and
    read back ([Paths], [Streams], [Attributes]).  On a disk that answers, a file
    opened for writing starts from its own bytes, and as long as requests succeed
    its handles are descriptors of one plain file; a removed file is gone, and a
    listing merges the bucket with what is staged ([VfsOpenSafety],
    [VfsFileSafety], [VfsSafety]).  SMB handles and streams are plain files on
    top of that ([SmbHandleSafety]), and the share table holds exactly the
    handles that are open ([SmbSafety]).  A client that guesses passwords is held
    to the configured failures and what it has in flight ([AuthGate]).  A
    validated configuration gives every part settings it can work with, and
    shares that do not overlap ([ConfigValidation]); the allow list and the
    access lists let in exactly whom they name ([ClientRules], [SmbIdentity]).
    Locks hold across the protocols, whatever case SMB writes a name in
    ([Lockers]), the limits on connections hold ([SmbServer]), a cached NFS
    listing is the current one, but for the times of subdirectories and outside
    a window that is made precise ([NfsCache]), one sync of a path runs at a time
    ([ObjectLocks]), and a staged file's attributes reach the object it is
    uploaded to ([StoreAdapter]).
    Lemmas without a claim number record what modelling showed the code not to
    do, each with the run that shows it.

    ** Not modelled

    The protocols themselves ([third_party], the libraries for NFS and SMB), the
    reading of the configuration file, the tracing wrapper of the NFS export, the
    statistics of the sync worker, metrics, logging, the dashboard and [main]: input
    and output around the parts above.  The object store and its SDK, the portmapper
    and the cryptography of sign-in are parameters. *)
From stdpp Require Export base tactics option list gmap sets strings numbers sorting.
From Stdlib Require Export ZArith Lia.

#[global] Set Default Goal Selector "1".
#[global] Open Scope Z_scope.

#[global] Arguments String.append !_ _ / : simpl nomatch.

(** ** Go values

    A [time.Time] is the number of nanoseconds since Go's zero time, so the
    zero time is [0]; a [time.Duration] is a number of nanoseconds.  Fixed
    width integers are [Z] with their wrap-around written out where the code
    can reach it. *)
Declare Scope go_scope.
Delimit Scope go_scope with go.

Abbreviation Time := Z (only parsing).
Abbreviation Duration := Z (only parsing).

Definition Nanosecond : Duration := 1.
Definition Millisecond : Duration := 1000000.
Definition Second : Duration := 1000 * Millisecond.
Definition Minute : Duration := 60 * Second.
Definition Hour : Duration := 60 * Minute.

Definition MaxInt64 : Z := 2 ^ 63 - 1.
Definition MinInt64 : Z := - 2 ^ 63.
Definition MaxUint64 : Z := 2 ^ 64 - 1.

(** [time.Time.Sub] saturates at the ends of the [Duration] range. *)
Definition time_Sub (t u : Time) : Duration := Z.max MinInt64 (Z.min MaxInt64 (t - u)).

(** [time.Time.IsZero], [After] and [Before]. *)
Definition IsZero (t : Time) : bool := bool_decide (t = 0).
Abbreviation After t u := (Z.ltb u t) (only parsing).
Abbreviation Before t u := (Z.ltb t u) (only parsing).

(** Signed 64-bit wrap-around, for the arithmetic that can leave the range. *)
Definition wrap64 (x : Z) : Z := (x + 2 ^ 63) mod 2 ^ 64 - 2 ^ 63.

Lemma wrap64_small x : MinInt64 <= x <= MaxInt64 -> wrap64 x = x.
Proof.
  unfold wrap64, MinInt64, MaxInt64. intros H. rewrite Z.mod_small; lia.
Qed.

(** ** The [strings] package

    A Go string is a sequence of bytes, as [string] is. *)
Section GoStrings.

(** [strings.CutPrefix s p]: what follows [p], when [s] begins with it. *)
Fixpoint CutPrefix (s p : string) {struct p} : option string :=
  match p, s with
  | EmptyString, _ => Some s
  | String a p', String b s' => if decide (a = b) then CutPrefix s' p' else None
  | String _ _, EmptyString => None
  end.

Definition HasPrefix (s p : string) : bool :=
  match CutPrefix s p with Some _ => true | None => false end.

Definition TrimPrefix (s p : string) : string :=
  match CutPrefix s p with Some rest => rest | None => s end.

Fixpoint HasSuffix (s suf : string) : bool :=
  bool_decide (s = suf) ||
  match s with EmptyString => false | String _ s' => HasSuffix s' suf end.

Fixpoint TrimSuffix (s suf : string) : string :=
  if decide (s = suf) then EmptyString
  else match s with EmptyString => EmptyString | String c s' => String c (TrimSuffix s' suf) end.

(** [strings.Contains s sub]. *)
Fixpoint Contains (s sub : string) : bool :=
  HasPrefix s sub ||
  match s with EmptyString => false | String _ s' => Contains s' sub end.

(** Go's [<] on strings: byte-wise lexicographic. *)
Fixpoint string_ltb (a b : string) : bool :=
  match a, b with
  | _, EmptyString => false
  | EmptyString, String _ _ => true
  | String x a', String y b' =>
      let nx := Ascii.N_of_ascii x in
      let ny := Ascii.N_of_ascii y in
      if N.ltb nx ny then true else if N.ltb ny nx then false else string_ltb a' b'
  end.

(** [strings.ToLower] of ASCII text. *)
Definition lower (c : Ascii.ascii) : Ascii.ascii :=
  let n := Z.of_nat (Ascii.nat_of_ascii c) in
  if (65 <=? n) && (n <=? 90) then Ascii.ascii_of_nat (Z.to_nat (n + 32)) else c.
Definition ToLower (s : string) : string := String.string_of_list_ascii (map lower (String.list_ascii_of_string s)).

End GoStrings.

Lemma CutPrefix_Some s p rest : CutPrefix s p = Some rest <-> s = p +:+ rest.
Proof.
  revert s. induction p as [|a p IH]; intros s; simpl; [split; congruence|].
  destruct s as [|b s]; [done|]. case_decide; [subst; rewrite IH|]; split; congruence.
Qed.

Lemma CutPrefix_app p rest : CutPrefix (p +:+ rest) p = Some rest.
Proof. by apply CutPrefix_Some. Qed.

Lemma HasPrefix_spec s p : HasPrefix s p = true <-> exists rest, s = p +:+ rest.
Proof.
  unfold HasPrefix. destruct (CutPrefix s p) as [r|] eqn:E.
  - apply CutPrefix_Some in E. naive_solver.
  - split; [done|]. intros [r ->]. by rewrite CutPrefix_app in E.
Qed.

Lemma HasPrefix_app p rest : HasPrefix (p +:+ rest) p = true.
Proof. apply HasPrefix_spec. eauto. Qed.

Lemma HasPrefix_refl s : HasPrefix s s = true.
Proof. apply HasPrefix_spec. exists "". induction s; simpl; congruence. Qed.

Lemma TrimPrefix_app p rest : TrimPrefix (p +:+ rest) p = rest.
Proof. unfold TrimPrefix. by rewrite CutPrefix_app. Qed.

Lemma TrimPrefix_no s p : HasPrefix s p = false -> TrimPrefix s p = s.
Proof. unfold HasPrefix, TrimPrefix. by destruct (CutPrefix s p). Qed.

Lemma string_app_inj a b c : a +:+ b = a +:+ c -> b = c.
Proof. induction a as [|x a IH]; [done|]. simpl. intros [= H]. auto. Qed.

Lemma string_app_nil_r s : s +:+ "" = s.
Proof. induction s; simpl; congruence. Qed.

Lemma string_app_assoc a b c : (a +:+ b) +:+ c = a +:+ (b +:+ c).
Proof. induction a; simpl; congruence. Qed.

Lemma string_length_app a b : String.length (a +:+ b) = (String.length a + String.length b)%nat.
Proof. induction a; simpl; congruence. Qed.

Lemma string_app_cancel_r a b c : a +:+ c = b +:+ c -> a = b.
Proof.
  revert b. induction a as [|x a IH]; intros [|y b] H; simpl in H; try done.
  - apply (f_equal String.length) in H. simpl in H. rewrite string_length_app in H. lia.
  - apply (f_equal String.length) in H. simpl in H. rewrite string_length_app in H. lia.
  - injection H as -> H. f_equal. by apply IH.
Qed.

Lemma HasSuffix_spec s suf : HasSuffix s suf = true <-> exists pre, s = pre +:+ suf.
Proof.
  induction s as [|c s IH]; simpl; rewrite orb_true_iff, bool_decide_eq_true.
  - split; [intros [->|?]; [by exists ""|done]|].
    intros [pre Hpre]. left. destruct pre; simpl in Hpre; congruence.
  - rewrite IH. split.
    + intros [<-|[pre ->]]; [by exists ""|by exists (String c pre)].
    + intros [[|d pre] Hpre]; simpl in Hpre; [by left|]. right. simplify_eq. eauto.
Qed.

Lemma string_ltb_irrefl s : string_ltb s s = false.
Proof. induction s; simpl; [done|]. by rewrite !N.ltb_irrefl. Qed.

Lemma string_ltb_trans a b c :
  string_ltb a b = true -> string_ltb b c = true -> string_ltb a c = true.
Proof.
  revert b c. induction a as [|x a IH]; intros [|y b] [|z c]; simpl; try done.
  repeat case_match; rewrite ?N.ltb_lt, ?N.ltb_ge in *; try done; try lia.
  by apply IH.
Qed.

Lemma string_ltb_total a b :
  string_ltb a b = false -> string_ltb b a = false -> a = b.
Proof.
  revert b. induction a as [|x a IH]; intros [|y b]; simpl; try done.
  repeat case_match; rewrite ?N.ltb_lt, ?N.ltb_ge in *; try done; try lia.
  intros ??. f_equal; [|by apply IH].
  assert (Ascii.N_of_ascii x = Ascii.N_of_ascii y) as Heq by lia.
  by rewrite <-(Ascii.ascii_N_embedding x), Heq, Ascii.ascii_N_embedding.
Qed.

(** ** Sums over finite maps

    Counters the code keeps next to a map are proved equal to the sum of a
    measure over that map. *)
Section MapSum.
Context `{Countable K} {V : Type}.

Definition map_sum (f : K -> V -> Z) (m : gmap K V) : Z :=
  map_fold (fun k v acc => f k v + acc) 0 m.

Lemma map_sum_empty f : map_sum f ∅ = 0.
Proof. apply map_fold_empty. Qed.

Lemma map_sum_insert_new f m i x :
  m !! i = None -> map_sum f (<[i:=x]> m) = f i x + map_sum f m.
Proof.
  intros Hi. unfold map_sum.
  rewrite (map_fold_insert_L (fun k v acc => f k v + acc)); [done|intros; lia|done].
Qed.

Lemma map_sum_delete f m i :
  map_sum f (delete i m) = map_sum f m - from_option (f i) 0 (m !! i).
Proof.
  destruct (m !! i) as [x|] eqn:Hi; simpl.
  - unfold map_sum at 2. rewrite (map_fold_delete_L (fun k v acc => f k v + acc) _ i x m); [|intros; lia|done].
    unfold map_sum. lia.
  - rewrite delete_id by done. lia.
Qed.

Lemma map_sum_insert f m i x :
  map_sum f (<[i:=x]> m) = map_sum f m + f i x - from_option (f i) 0 (m !! i).
Proof.
  rewrite <-insert_delete_eq, map_sum_insert_new by apply lookup_delete_eq.
  rewrite map_sum_delete. lia.
Qed.

Lemma map_sum_ext f g m :
  (forall k v, m !! k = Some v -> f k v = g k v) -> map_sum f m = map_sum g m.
Proof.
  intros Hext. induction m as [|i x m Hi IH] using map_ind.
  - by rewrite !map_sum_empty.
  - rewrite !map_sum_insert_new by done. rewrite IH, (Hext i x).
    + done.
    + apply lookup_insert_eq.
    + intros k v Hk. apply Hext. rewrite lookup_insert_ne; [done|congruence].
Qed.

Lemma map_sum_zero f m : (forall k v, m !! k = Some v -> f k v = 0) -> map_sum f m = 0.
Proof.
  intros Hz. rewrite (map_sum_ext f (fun _ _ => 0)) by done. clear Hz.
  induction m as [|i x m Hi IH] using map_ind; [apply map_sum_empty|].
  by rewrite map_sum_insert_new.
Qed.

Lemma map_sum_nonneg f m :
  (forall k v, m !! k = Some v -> 0 <= f k v) -> 0 <= map_sum f m.
Proof.
  intros Hpos. induction m as [|i x m Hi IH] using map_ind.
  - by rewrite map_sum_empty.
  - rewrite map_sum_insert_new by done.
    assert (0 <= f i x) by (apply Hpos, lookup_insert_eq).
    enough (0 <= map_sum f m) by lia.
    apply IH. intros k v Hk. apply Hpos. rewrite lookup_insert_ne; [done|congruence].
Qed.

Lemma map_sum_ge f m i x :
  (forall k v, m !! k = Some v -> 0 <= f k v) -> m !! i = Some x -> f i x <= map_sum f m.
Proof.
  intros Hpos Hi. rewrite <-(insert_id m i x) by done.
  rewrite <-insert_delete_eq, map_sum_insert_new by apply lookup_delete_eq.
  enough (0 <= map_sum f (delete i m)) by lia.
  apply map_sum_nonneg. intros k v [_ Hk]%lookup_delete_Some. eauto.
Qed.

End MapSum.

(** ** Automation *)

(** The length of a Go slice, string or map is an [int]. *)
Abbreviation len l := (Z.of_nat (length l)).

(** Turn the boolean tests of the code into propositions. *)
Ltac bool_to_prop :=
  repeat progress rewrite ?andb_true_iff, ?andb_false_iff, ?orb_true_iff, ?orb_false_iff, ?negb_true_iff,
    ?negb_false_iff, ?Z.ltb_lt, ?Z.ltb_ge, ?Z.leb_le, ?Z.leb_gt, ?Z.eqb_eq, ?Z.eqb_neq,
    ?bool_decide_eq_true, ?bool_decide_eq_false in *.

(** Split on every test of the goal and solve what is linear arithmetic. *)
Ltac cases :=
  repeat (case_match || case_decide || case_bool_decide); bool_to_prop; simplify_eq/=.

Ltac cases_lia := cases; try done; try lia.

(** Split on every integer comparison of the goal. *)
Ltac zcases :=
  repeat match goal with
  | |- context [?a <? ?b] => destruct (Z.ltb_spec a b)
  | |- context [?a <=? ?b] => destruct (Z.leb_spec a b)
  | |- context [?a =? ?b] => destruct (Z.eqb_spec a b)
  end; simplify_eq/=; try done; try lia.

Create HintDb bluestone.
