(* ===== verification/GoPath.v ===== *)
(** * The parts of Go's [strings] and [path] packages that paths go through

    [path.Clean], [path.Dir], [path.Base] and [path.Join] as the package
    documents them, on lists of path elements. *)
From Stdlib Require Import Ascii.
From S2P Require Import Prelude.

Definition slash : Ascii.ascii := "/"%char.

(** [strings.Split s "/"]: always at least one element. *)
Fixpoint SplitSlash (s : string) : list string :=
  match s with
  | EmptyString => [""]
  | String c s' =>
      if decide (c = slash) then "" :: SplitSlash s'
      else match SplitSlash s' with
           | [] => [String c ""]
           | e :: es => String c e :: es
           end
  end.

(** [strings.Join elems "/"]. *)
Fixpoint JoinSlash (elems : list string) : string :=
  match elems with
  | [] => ""
  | [e] => e
  | e :: es => e +:+ "/" +:+ JoinSlash es
  end.

(** One element of [path.Clean]'s left to right pass.  [acc] is what has been
    kept so far, last element first. *)
Definition clean_step (rooted : bool) (acc : list string) (e : string) : list string :=
  if decide (e = "" \/ e = ".") then acc
  else if decide (e = "..") then
    match acc with
    | [] => if rooted then [] else [".."]
    | top :: rest => if decide (top = "..") then ".." :: acc else rest
    end
  else e :: acc.

Definition clean_elems (rooted : bool) (elems : list string) : list string :=
  reverse (foldl (clean_step rooted) [] elems).

(** [path.Clean]. *)
Definition Clean (p : string) : string :=
  let rooted := HasPrefix p "/" in
  let kept := clean_elems rooted (SplitSlash p) in
  if rooted then "/" +:+ JoinSlash kept
  else match kept with [] => "." | _ => JoinSlash kept end.

(** An element [path.Clean] keeps in a rooted path: a name. *)
Definition is_name (e : string) : Prop :=
  e <> "" /\ e <> "." /\ e <> ".." /\ slash ∉ String.list_ascii_of_string e.

Definition no_slash (e : string) : Prop := slash ∉ String.list_ascii_of_string e.

(** ** Splitting and joining *)

Lemma SplitSlash_nonempty s : SplitSlash s <> [].
Proof. destruct s; simpl; [done|]. case_decide; [done|]. by case_match. Qed.

Lemma SplitSlash_no_slash s : Forall no_slash (SplitSlash s).
Proof.
  induction s as [|c s IH]; simpl.
  - repeat constructor. apply not_elem_of_nil.
  - case_decide as Hc.
    + constructor; [apply not_elem_of_nil|done].
    + pose proof (SplitSlash_nonempty s). destruct (SplitSlash s) as [|e es]; [done|].
      inversion IH; subst. constructor; [|done].
      unfold no_slash in *. simpl. rewrite not_elem_of_cons. split; [congruence|done].
Qed.

Lemma SplitSlash_no_slash_single e : no_slash e -> SplitSlash e = [e].
Proof.
  unfold no_slash. induction e as [|c e IH]; simpl; [done|].
  rewrite not_elem_of_cons. intros [Hc He]. rewrite decide_False by congruence.
  by rewrite IH.
Qed.

Lemma SplitSlash_app e s : no_slash e -> SplitSlash (e +:+ String slash s) = e :: SplitSlash s.
Proof.
  unfold no_slash. induction e as [|c e IH]; simpl; [done|].
  rewrite not_elem_of_cons. intros [Hc He]. rewrite decide_False by congruence.
  by rewrite IH.
Qed.

Lemma SplitSlash_JoinSlash es :
  es <> [] -> Forall no_slash es -> SplitSlash (JoinSlash es) = es.
Proof.
  induction es as [|e es IH]; [done|]. intros _ Hes. inversion Hes as [|?? He Hes']; subst.
  destruct es as [|e' es]; simpl JoinSlash.
  - by apply SplitSlash_no_slash_single.
  - change (SplitSlash (e +:+ String slash (JoinSlash (e' :: es))) = e :: e' :: es).
    rewrite SplitSlash_app by done. by rewrite IH.
Qed.

Lemma JoinSlash_SplitSlash s : JoinSlash (SplitSlash s) = s.
Proof.
  induction s as [|c s IH]; simpl; [done|]. pose proof (SplitSlash_nonempty s) as Hne.
  case_decide as Hc.
  - destruct (SplitSlash s) as [|e es]; [done|]. subst c. simpl in *. by rewrite IH.
  - destruct (SplitSlash s) as [|e es]; [done|]. destruct es; simpl in *; by f_equal.
Qed.

(** ** [Clean] of a rooted path *)

Lemma clean_step_rooted_names acc e :
  Forall is_name acc -> no_slash e -> Forall is_name (clean_step true acc e).
Proof.
  intros Hacc He. unfold clean_step. repeat case_decide; try done.
  - destruct acc as [|top rest]; [done|]. inversion Hacc as [|?? Htop]; subst.
    case_decide; [subst; by destruct Htop as (?&?&?&?)|done].
  - constructor; [|done]. unfold is_name. naive_solver.
Qed.

Lemma clean_elems_rooted_names es :
  Forall no_slash es -> Forall is_name (clean_elems true es).
Proof.
  intros Hes. unfold clean_elems. apply Forall_reverse.
  assert (forall acc, Forall is_name acc -> Forall is_name (foldl (clean_step true) acc es)) as Hgen.
  { induction Hes as [|e es He Hes IH]; intros acc Hacc; simpl; [done|].
    apply IH. by apply clean_step_rooted_names. }
  by apply Hgen.
Qed.

Lemma clean_step_name rooted acc e : is_name e -> clean_step rooted acc e = e :: acc.
Proof. intros (?&?&?&?). unfold clean_step. rewrite !decide_False by (intros Heq; destruct_or?; congruence). done. Qed.

Lemma foldl_clean_names rooted es acc :
  Forall is_name es -> foldl (clean_step rooted) acc es = reverse es ++ acc.
Proof.
  intros Hes. revert acc. induction Hes as [|e es He Hes IH]; intros acc; simpl; [done|].
  rewrite clean_step_name by done. rewrite IH, reverse_cons, <-app_assoc. done.
Qed.

Lemma clean_elems_names rooted es : Forall is_name es -> clean_elems rooted es = es.
Proof.
  intros. unfold clean_elems. rewrite foldl_clean_names by done.
  by rewrite app_nil_r, reverse_involutive.
Qed.

Lemma is_name_no_slash e : is_name e -> no_slash e.
Proof. by intros (?&?&?&?). Qed.

Lemma is_name_nonempty e : is_name e -> e <> "".
Proof. by intros (?&?&?&?). Qed.

(** A clean rooted path is ["/"] followed by names joined by slashes. *)
Lemma Clean_rooted s :
  exists es, Clean ("/" +:+ s) = "/" +:+ JoinSlash es /\ Forall is_name es.
Proof.
  unfold Clean. rewrite HasPrefix_app. eexists. split; [done|].
  apply clean_elems_rooted_names, SplitSlash_no_slash.
Qed.

Lemma Clean_names es : Forall is_name es -> Clean ("/" +:+ JoinSlash es) = "/" +:+ JoinSlash es.
Proof.
  intros Hes. unfold Clean. rewrite HasPrefix_app. f_equal. f_equal.
  change ("/" +:+ JoinSlash es) with ("" +:+ String slash (JoinSlash es)).
  rewrite SplitSlash_app by apply not_elem_of_nil.
  destruct es as [|e es]; [done|]. rewrite SplitSlash_JoinSlash; [|done|].
  - by apply (clean_elems_names true) in Hes.
  - eapply Forall_impl; [done|]. apply is_name_no_slash.
Qed.

Lemma Clean_rooted_idem s : Clean (Clean ("/" +:+ s)) = Clean ("/" +:+ s).
Proof. destruct (Clean_rooted s) as (es & -> & Hes). by apply Clean_names. Qed.
