(* ===== verification/LockTable.v ===== *)
(** * The byte-range lock table ([internal/lock/manager.go])

    [Manager] is the table both protocol servers share.  The maps of the code
    are [gmap]s; the iteration order of a Go map, which is unspecified, is the
    order of the entry list [conflict_scan] is given.  Range ends are [uint64]
    values kept as [Z]: the code only compares them.

    The specification is byte-wise: [holds m path owner b] is the mode in which
    [owner] holds byte [b] of [path].  [Lock] and [Unlock] are proved to update
    that function pointwise, and [wf] (canonical range lists, mutual exclusion,
    indexes and counters in step) is proved to hold in every reachable table. *)
From S2P Require Import Prelude GoPath.

Module Lock.

Definition EOF : Z := MaxUint64.
Definition DefaultMaxLocksPerFile : Z := 512.
Definition DefaultMaxLocksPerClient : Z := 8192.

Inductive error := ErrLimit | ErrInvalid.

(** [Mode] is a [uint8]: values other than the two constants are possible and
    are what [validate] rejects. *)
Abbreviation Mode := Z (only parsing).
Definition Shared : Mode := 1.
Definition Exclusive : Mode := 2.

Record Owner := mkOwner { Client : string; ID : string }.

#[global] Instance Owner_eq_dec : EqDecision Owner.
Proof. solve_decision. Defined.

#[global] Instance Owner_countable : Countable Owner.
Proof.
  refine (inj_countable' (fun o => (Client o, ID o)) (fun p => mkOwner p.1 p.2) _).
  by intros [].
Defined.

Record Range := mkRange { Start : Z; End_ : Z }.

Definition overlaps (r o : Range) : bool := (Start r <? End_ o) && (Start o <? End_ r).

(** A held range, and the same with its owner, as conflicts are reported. *)
Record held := mkHeld { hrange : Range; mode : Mode }.
Record LockInfo := mkLock { LRange : Range; LMode : Mode; LOwner : Owner }.

Record Options := mkOptions { MaxLocksPerFile : Z; MaxLocksPerClient : Z }.

Record Manager := mkManager {
  maxLocksPerFile : Z;
  maxLocksPerClient : Z;
  files : gmap string (gmap Owner (list held));
  owned : gmap Owner (gset string);
  clientLocks : gmap string Z
}.

Definition NewManager (opts : Options) : Manager := {|
  maxLocksPerFile :=
    if MaxLocksPerFile opts <=? 0 then DefaultMaxLocksPerFile else MaxLocksPerFile opts;
  maxLocksPerClient :=
    if MaxLocksPerClient opts <=? 0 then DefaultMaxLocksPerClient else MaxLocksPerClient opts;
  files := ∅;
  owned := ∅;
  clientLocks := ∅
|}.

(** [Key]: the form paths take in the table. *)
Definition Key (p : string) : string := TrimPrefix (Clean ("/" +:+ p)) "/".

(** Reading a Go map: a missing entry is the zero value. *)
Definition owners_of (m : Manager) (path : string) : gmap Owner (list held) :=
  default ∅ (files m !! path).
Definition ranges_of (m : Manager) (path : string) (owner : Owner) : list held :=
  default [] (owners_of m path !! owner).
Definition client_count (m : Manager) (client : string) : Z :=
  default 0 (clientLocks m !! client).

Definition validate (r : Range) (md : Mode) : option error :=
  if (End_ r <=? Start r) || (negb (md =? Shared) && negb (md =? Exclusive))
  then Some ErrInvalid else None.

Definition lessOwner (a b : Owner) : bool :=
  if decide (Client a = Client b) then string_ltb (ID a) (ID b)
  else string_ltb (Client a) (Client b).

(** The body of the inner loop of [conflictLocked], on one range of [other]. *)
Definition conflict_step (r : Range) (md : Mode) (other : Owner)
    (found : option LockInfo) (h : held) : option LockInfo :=
  if negb (overlaps (hrange h) r) || ((mode h =? Shared) && (md =? Shared)) then found
  else match found with
       | None => Some (mkLock (hrange h) (mode h) other)
       | Some f =>
           if (Start (hrange h) <? Start (LRange f)) ||
              ((Start (hrange h) =? Start (LRange f)) && lessOwner other (LOwner f))
           then Some (mkLock (hrange h) (mode h) other)
           else Some f
       end.

(** The two loops of [conflictLocked], on the map's entries in some order. *)
Definition conflict_scan (owner : Owner) (r : Range) (md : Mode)
    (entries : list (Owner * list held)) : option LockInfo :=
  foldl (fun found e =>
           if decide (e.1 = owner) then found
           else foldl (conflict_step r md e.1) found e.2)
    None entries.

Definition conflictLocked (m : Manager) (owner : Owner) (path : string) (r : Range) (md : Mode)
    : option LockInfo :=
  conflict_scan owner r md (map_to_list (owners_of m path)).

Definition fileLockCountLocked (m : Manager) (path : string) : Z :=
  map_sum (fun _ ranges => len ranges) (owners_of m path).

(** [subtract]: what is left of each range, in order. *)
Definition subtract1 (sub : Range) (h : held) : list held :=
  if negb (overlaps (hrange h) sub) then [h]
  else (if Start (hrange h) <? Start sub
        then [mkHeld (mkRange (Start (hrange h)) (Start sub)) (mode h)] else []) ++
       (if End_ sub <? End_ (hrange h)
        then [mkHeld (mkRange (End_ sub) (End_ (hrange h))) (mode h)] else []).

Fixpoint subtract (ranges : list held) (sub : Range) : list held :=
  match ranges with
  | [] => []
  | h :: ranges' => subtract1 sub h ++ subtract ranges' sub
  end.

(** [coalesce] sorts by start and merges in one pass; [last] is the range
    [out] ends with. *)
Definition start_le (a b : held) : Prop := Start (hrange a) <= Start (hrange b).

#[global] Instance start_le_dec : RelDecision start_le.
Proof. intros a b. unfold start_le. apply _. Defined.

Fixpoint coalesce_loop (last : held) (rest : list held) : list held :=
  match rest with
  | [] => [last]
  | h :: rest' =>
      if (mode h =? mode last) && (Start (hrange h) <=? End_ (hrange last)) then
        coalesce_loop
          (if End_ (hrange last) <? End_ (hrange h)
           then mkHeld (mkRange (Start (hrange last)) (End_ (hrange h))) (mode last)
           else last) rest'
      else last :: coalesce_loop h rest'
  end.

Definition coalesce (ranges : list held) : list held :=
  match ranges with
  | [] | [_] => ranges
  | _ => match merge_sort start_le ranges with
         | [] => []
         | first :: rest => coalesce_loop first rest
         end
  end.

(** [setLocked] stores the owner's ranges and keeps the indexes and the client
    count in step. *)
Definition setLocked (m : Manager) (owner : Owner) (path : string) (ranges : list held)
    (delta : Z) : Manager :=
  let owners := owners_of m path in
  let paths := default ∅ (owned m !! owner) in
  let n := client_count m (Client owner) + delta in
  {| maxLocksPerFile := maxLocksPerFile m;
     maxLocksPerClient := maxLocksPerClient m;
     files :=
       if decide (ranges = []) then
         (if decide (delete owner owners = ∅) then delete path (files m)
          else <[path := delete owner owners]> (files m))
       else <[path := <[owner := ranges]> owners]> (files m);
     owned :=
       if decide (ranges = []) then
         (if decide (paths ∖ {[path]} = ∅) then delete owner (owned m)
          else <[owner := paths ∖ {[path]}]> (owned m))
       else <[owner := {[path]} ∪ paths]> (owned m);
     clientLocks :=
       if 0 <? n then <[Client owner := n]> (clientLocks m)
       else delete (Client owner) (clientLocks m) |}.

(** [Lock]: the conflicting lock, an error, or neither when it is granted. *)
Definition Lock (m : Manager) (owner : Owner) (path : string) (r : Range) (md : Mode)
    : Manager * (option LockInfo * option error) :=
  match validate r md with
  | Some e => (m, (None, Some e))
  | None =>
      match conflictLocked m owner path r md with
      | Some c => (m, (Some c, None))
      | None =>
          let before := ranges_of m path owner in
          let after := coalesce (subtract before r ++ [mkHeld r md]) in
          let delta := len after - len before in
          if (0 <? delta) &&
             ((maxLocksPerFile m <? fileLockCountLocked m path + delta) ||
              (maxLocksPerClient m <? client_count m (Client owner) + delta))
          then (m, (None, Some ErrLimit))
          else (setLocked m owner path after delta, (None, None))
      end
  end.

Definition Unlock (m : Manager) (owner : Owner) (path : string) (r : Range)
    : Manager * option error :=
  if End_ r <=? Start r then (m, Some ErrInvalid)
  else
    let before := ranges_of m path owner in
    let after := subtract before r in
    (setLocked m owner path after (len after - len before), None).

Definition Test (m : Manager) (owner : Owner) (path : string) (r : Range) (md : Mode)
    : option LockInfo * option error :=
  match validate r md with
  | Some e => (None, Some e)
  | None => (conflictLocked m owner path r md, None)
  end.

(** [releaseOwnerLocked] removes each of the owner's paths in turn. *)
Definition releaseOwnerLocked (m : Manager) (owner : Owner) : Manager :=
  foldl (fun m path => setLocked m owner path [] (- len (ranges_of m path owner)))
    m (elements (default ∅ (owned m !! owner))).

Definition ReleaseOwner (m : Manager) (owner : Owner) : Manager := releaseOwnerLocked m owner.

Definition ReleaseClient (m : Manager) (client : string) : Manager :=
  foldl (fun m owner =>
           if decide (Client owner = client) then releaseOwnerLocked m owner else m)
    m (map_to_list (owned m)).*1.

(** [Locks]: every lock held on [path], by start and then by owner. *)
Definition lock_le (a b : LockInfo) : Prop :=
  Start (LRange a) < Start (LRange b) \/
  (Start (LRange a) = Start (LRange b) /\ lessOwner (LOwner b) (LOwner a) = false).

#[global] Instance lock_le_dec : RelDecision lock_le.
Proof. intros a b. unfold lock_le. apply _. Defined.

Fixpoint flatten (entries : list (Owner * list held)) : list LockInfo :=
  match entries with
  | [] => []
  | (owner, ranges) :: entries' =>
      map (fun h => mkLock (hrange h) (mode h) owner) ranges ++ flatten entries'
  end.

Definition Locks (m : Manager) (path : string) : list LockInfo :=
  merge_sort lock_le (flatten (map_to_list (owners_of m path))).

(** ** Range lists as functions on bytes *)

Definition in_range (r : Range) (b : Z) : bool := (Start r <=? b) && (b <? End_ r).

(** The mode a range list gives byte [b]. *)
Fixpoint mode_at (l : list held) (b : Z) : option Mode :=
  match l with
  | [] => None
  | h :: l' => if in_range (hrange h) b then Some (mode h) else mode_at l' b
  end.

Definition valid_held (h : held) : Prop :=
  Start (hrange h) < End_ (hrange h) /\ (mode h = Shared \/ mode h = Exclusive).

(** [h1] ends before [h2] starts; [sep] also leaves a gap between ranges of one
    mode, which is what merging them achieves. *)
Definition ends_before (h1 h2 : held) : Prop := End_ (hrange h1) <= Start (hrange h2).
Definition sep (h1 h2 : held) : Prop :=
  ends_before h1 h2 /\ (mode h1 = mode h2 -> End_ (hrange h1) < Start (hrange h2)).

(** Canonical lists: valid ranges in order, merged as far as they can be. *)
Definition ordered (l : list held) : Prop := Forall valid_held l /\ StronglySorted ends_before l.
Definition canonical (l : list held) : Prop := Forall valid_held l /\ StronglySorted sep l.

Lemma canonical_ordered l : canonical l -> ordered l.
Proof.
  intros [Hv Hs]. split; [done|]. induction Hs as [|h l Hs IH Hf]; constructor.
  - inversion Hv; subst. by apply IH.
  - eapply Forall_impl; [exact Hf|]. by intros ? [].
Qed.

Lemma ordered_cons h l : ordered (h :: l) <-> valid_held h /\ Forall (ends_before h) l /\ ordered l.
Proof.
  unfold ordered. rewrite Forall_cons. split.
  - intros [[??] Hs]. inversion Hs; subst. naive_solver.
  - intros (?&?&?&?). split; [done|]. by constructor.
Qed.

Lemma canonical_cons h l : canonical (h :: l) <-> valid_held h /\ Forall (sep h) l /\ canonical l.
Proof.
  unfold canonical. rewrite Forall_cons. split.
  - intros [[??] Hs]. inversion Hs; subst. naive_solver.
  - intros (?&?&?&?). split; [done|]. by constructor.
Qed.

Lemma canonical_nil : canonical [].
Proof. split; constructor. Qed.

Lemma mode_at_app l1 l2 b :
  mode_at (l1 ++ l2) b = match mode_at l1 b with Some md => Some md | None => mode_at l2 b end.
Proof. induction l1 as [|h l1 IH]; simpl; [done|]. by destruct (in_range (hrange h) b). Qed.

Lemma mode_at_Some l b md :
  mode_at l b = Some md -> exists h, h ∈ l /\ in_range (hrange h) b = true /\ mode h = md.
Proof.
  induction l as [|h l IH]; simpl; [done|]. case_match.
  - intros [= <-]. exists h. split; [apply list_elem_of_here|done].
  - intros (h' & ? & ?)%IH. exists h'. split; [by apply list_elem_of_further|done].
Qed.

Lemma mode_at_None_lt l b : Forall (fun h => b < Start (hrange h)) l -> mode_at l b = None.
Proof.
  induction 1 as [|h l Hh Hl IH]; simpl; [done|].
  unfold in_range. rewrite (proj2 (Z.leb_gt _ _)) by lia. done.
Qed.

(** In an ordered list a byte of a range gets that range's mode. *)
Lemma mode_at_ordered l h b :
  ordered l -> h ∈ l -> in_range (hrange h) b = true -> mode_at l b = Some (mode h).
Proof.
  induction l as [|h' l IH]; [by intros _ ?%not_elem_of_nil|].
  rewrite ordered_cons. intros ([Hv _] & Hb & Hl) [->|Hin]%elem_of_cons Hr; simpl.
  - by rewrite Hr.
  - rewrite Forall_forall in Hb. specialize (Hb _ Hin). unfold ends_before, in_range in *.
    case_match; [|by apply IH]. bool_to_prop. lia.
Qed.

Lemma mode_at_subtract1 r h b :
  mode_at (subtract1 r h) b =
  if in_range (hrange h) b && negb (in_range r b) then Some (mode h) else None.
Proof. destruct h as [[hs he] md], r as [rs re]. unfold subtract1, overlaps, in_range. simpl. zcases; unfold in_range; simpl; zcases. Qed.

Lemma mode_at_subtract l r b :
  mode_at (subtract l r) b = if in_range r b then None else mode_at l b.
Proof.
  induction l as [|h l IH]; simpl; [by case_match|].
  rewrite mode_at_app, IH, mode_at_subtract1.
  by destruct (in_range (hrange h) b), (in_range r b).
Qed.

(** [subtract] keeps a list canonical, and leaves nothing of [r]. *)
Lemma subtract1_sub r h x :
  x ∈ subtract1 r h ->
  Start (hrange h) <= Start (hrange x) /\ End_ (hrange x) <= End_ (hrange h) /\ mode x = mode h.
Proof.
  destruct h as [[hs he] md], r as [rs re]. unfold subtract1, overlaps. simpl.
  zcases; rewrite ?elem_of_cons, ?elem_of_nil; intros Hx; destruct_or?; simplify_eq/=; lia.
Qed.

Lemma subtract1_canonical r h :
  Start r < End_ r -> valid_held h -> canonical (subtract1 r h).
Proof.
  destruct h as [[hs he] md], r as [rs re]. unfold subtract1, overlaps, valid_held. simpl.
  intros Hr [Hh Hm].
  pose proof canonical_nil.
  zcases; rewrite ?canonical_cons, ?Forall_cons, ?Forall_nil;
    unfold valid_held, sep, ends_before; simpl; split_and?; auto; lia.
Qed.

Lemma subtract_sub r l x :
  x ∈ subtract l r -> exists h, h ∈ l /\ Start (hrange h) <= Start (hrange x) /\
    End_ (hrange x) <= End_ (hrange h) /\ mode x = mode h.
Proof.
  induction l as [|h l IH]; simpl; [by intros ?%not_elem_of_nil|].
  rewrite elem_of_app. intros [Hx|Hx].
  - exists h. split; [apply list_elem_of_here|]. by eapply subtract1_sub.
  - destruct (IH Hx) as (h' & ? & ?). exists h'. split; [by apply list_elem_of_further|done].
Qed.

Lemma canonical_app l1 l2 :
  canonical l1 -> canonical l2 -> (forall x y, x ∈ l1 -> y ∈ l2 -> sep x y) -> canonical (l1 ++ l2).
Proof.
  intros [Hv1 Hs1] [Hv2 Hs2] Hsep. split; [by apply Forall_app|].
  apply StronglySorted_app. auto.
Qed.

Lemma subtract_canonical r l : Start r < End_ r -> canonical l -> canonical (subtract l r).
Proof.
  intros Hr. induction l as [|h l IH]; simpl; [done|].
  rewrite canonical_cons. intros (Hv & Hsep & Hl). apply canonical_app.
  - by apply subtract1_canonical.
  - by apply IH.
  - intros x y Hx%subtract1_sub (h' & Hin & Hy)%subtract_sub.
    rewrite Forall_forall in Hsep. specialize (Hsep _ Hin). unfold sep, ends_before in *.
    destruct Hx as (?&?&->), Hy as (?&?&->). split; [lia|]. intros ?%Hsep. lia.
Qed.

Lemma subtract_disjoint r l x :
  Start r < End_ r -> x ∈ subtract l r -> valid_held x -> 
  End_ (hrange x) <= Start r \/ End_ r <= Start (hrange x).
Proof.
  intros Hr. induction l as [|h l IH]; simpl; [by intros ?%not_elem_of_nil|].
  rewrite elem_of_app. intros [Hx|Hx] Hv; [|auto]. revert Hx Hv.
  destruct h as [[hs he] md], r as [rs re]. unfold subtract1, overlaps, valid_held. simpl in *.
  zcases; rewrite ?elem_of_cons, ?elem_of_nil; intros Hx; destruct_or?; simplify_eq/=; lia.
Qed.

(** ** Coalescing *)

#[global] Instance start_le_total : Total start_le.
Proof. intros a b. unfold start_le. lia. Qed.

#[global] Instance start_le_trans : Transitive start_le.
Proof. intros a b c. unfold start_le. lia. Qed.

Lemma ordered_start_inj l x y :
  ordered l -> x ∈ l -> y ∈ l -> Start (hrange x) = Start (hrange y) -> x = y.
Proof.
  induction l as [|h l IH]; [by intros _ ?%not_elem_of_nil|].
  rewrite ordered_cons, !elem_of_cons, Forall_forall. unfold ends_before.
  intros ([Hh _] & Hb & Hl) [->|Hx] [->|Hy] Heq; auto.
  - specialize (Hb _ Hy). lia.
  - specialize (Hb _ Hx). lia.
Qed.

Lemma ordered_start_sorted l : ordered l -> StronglySorted start_le l.
Proof.
  induction l as [|h l IH]; [constructor|]. rewrite ordered_cons. intros ([Hh _] & Hb & Hl).
  constructor; [by apply IH|]. eapply Forall_impl; [done|].
  unfold ends_before, start_le. lia.
Qed.

(** Sorting a list that is a rearrangement of an ordered one gives that one:
    [sort.Slice], which is not stable, has no freedom here. *)
Lemma merge_sort_ordered l l' : ordered l -> l' ≡ₚ l -> merge_sort start_le l' = l.
Proof.
  intros Hl Hperm. apply (StronglySorted_unique_strong start_le).
  - intros x y Hx Hy ??. apply (ordered_start_inj l); [done| |done|unfold start_le in *; lia].
    rewrite <-Hperm. by rewrite (merge_sort_Permutation start_le) in Hx.
  - apply StronglySorted_merge_sort; apply _.
  - by apply ordered_start_sorted.
  - by rewrite merge_sort_Permutation.
Qed.

(** Where a range disjoint from an ordered list goes. *)
Lemma ordered_split l (r : Range) :
  ordered l ->
  Forall (fun h => End_ (hrange h) <= Start r \/ End_ r <= Start (hrange h)) l ->
  Start r < End_ r ->
  exists left right, l = left ++ right /\
    Forall (fun h => End_ (hrange h) <= Start r) left /\
    Forall (fun h => End_ r <= Start (hrange h)) right.
Proof.
  intros Hl Hd Hr. induction l as [|h l IH]; [by exists [], []|].
  rewrite ordered_cons in Hl. destruct Hl as ([Hh _] & Hb & Hl).
  inversion Hd as [|?? [Hbefore|Hafter] Hd']; subst.
  - destruct (IH Hl Hd') as (left & right & -> & ? & ?).
    exists (h :: left), right. split; [done|]. by split; [constructor|].
  - exists [], (h :: l). split; [done|]. split; [constructor|]. constructor; [done|].
    eapply Forall_impl; [exact Hb|]. unfold ends_before. lia.
Qed.

Lemma ordered_app l1 l2 :
  ordered l1 -> ordered l2 -> (forall x y, x ∈ l1 -> y ∈ l2 -> ends_before x y) -> ordered (l1 ++ l2).
Proof.
  intros [Hv1 Hs1] [Hv2 Hs2] Hsep. split; [by apply Forall_app|].
  apply StronglySorted_app. auto.
Qed.

Lemma ordered_app_inv l1 l2 : ordered (l1 ++ l2) -> ordered l1 /\ ordered l2.
Proof.
  unfold ordered. rewrite Forall_app. intros [[??] Hs].
  split; split; eauto using StronglySorted_app_1_l, StronglySorted_app_1_r.
Qed.

Lemma ordered_insert l h :
  ordered l -> valid_held h ->
  Forall (fun x => End_ (hrange x) <= Start (hrange h) \/ End_ (hrange h) <= Start (hrange x)) l ->
  ordered (merge_sort start_le (l ++ [h])) /\
  forall b, mode_at (merge_sort start_le (l ++ [h])) b =
            if in_range (hrange h) b then Some (mode h) else mode_at l b.
Proof.
  intros Hl Hh Hd.
  destruct (ordered_split l (hrange h)) as (left & right & -> & Hleft & Hright);
    [done..|apply Hh|].
  destruct (ordered_app_inv _ _ Hl) as [Hol Hor].
  assert (ordered (left ++ h :: right)) as Hord.
  { rewrite Forall_forall in Hleft. apply ordered_app; [done| |].
    - rewrite ordered_cons. split; [done|]. by split.
    - intros x y Hx [->|Hy]%elem_of_cons; unfold ends_before; [auto|].
      rewrite Forall_forall in Hright. specialize (Hleft _ Hx). specialize (Hright _ Hy).
      destruct Hh. lia. }
  rewrite (merge_sort_ordered (left ++ h :: right)); [|done|].
  - split; [done|]. intros b. rewrite !mode_at_app. simpl.
    destruct (mode_at left b) as [md|] eqn:Em; [|done].
    apply mode_at_Some in Em as (x & Hx & Hr & _). rewrite Forall_forall in Hleft.
    specialize (Hleft _ Hx). unfold in_range in *. bool_to_prop.
    by rewrite (proj2 (Z.leb_gt _ _)) by lia.
  - rewrite <-app_assoc. apply Permutation_app_head. by rewrite Permutation_app_comm.
Qed.

(** One turn of the loop on an ordered list: [last] and [h] either merge into
    one range, or [last] is final. *)
Lemma ordered_merge last h rest :
  ordered (last :: h :: rest) ->
  End_ (hrange last) < End_ (hrange h) /\ End_ (hrange last) <= Start (hrange h) /\
  Start (hrange h) < End_ (hrange h) /\ valid_held last /\ ordered (h :: rest) /\
  ordered (mkHeld (mkRange (Start (hrange last)) (End_ (hrange h))) (mode last) :: rest).
Proof.
  rewrite !ordered_cons, Forall_cons. unfold ends_before, valid_held. simpl.
  intros ([??] & [??] & [??] & Hb & Hr). split_and!; auto; lia.
Qed.

Lemma coalesce_loop_mode_at last rest b :
  ordered (last :: rest) -> mode_at (coalesce_loop last rest) b = mode_at (last :: rest) b.
Proof.
  revert last. induction rest as [|h rest IH]; intros last; [done|].
  intros (? & ? & ? & [? ?] & Hhr & Hm)%ordered_merge. simpl.
  case_match; bool_to_prop.
  - rewrite (proj2 (Z.ltb_lt _ _)) by lia. rewrite IH by done.
    simpl. unfold in_range. simpl. destruct_and!. zcases. congruence.
  - simpl. by rewrite IH.
Qed.

(** What [coalesce_loop] returns: its first range grows from [last], and the
    others start at or after the end of [last]. *)
Lemma coalesce_loop_elem last rest x :
  ordered (last :: rest) -> x ∈ coalesce_loop last rest ->
  (Start (hrange x) = Start (hrange last) /\ mode x = mode last) \/
  End_ (hrange last) <= Start (hrange x).
Proof.
  revert last. induction rest as [|h rest IH]; intros last; simpl.
  - intros _ ->%list_elem_of_singleton. by left.
  - intros (? & ? & ? & [? ?] & Hhr & Hm)%ordered_merge. case_match; bool_to_prop.
    + rewrite (proj2 (Z.ltb_lt _ _)) by lia. intros Hx. apply IH in Hx; simpl in *; [lia|done].
    + intros [->|Hx]%elem_of_cons; [by left|]. right. apply IH in Hx; [lia|done].
Qed.

Lemma coalesce_loop_canonical last rest :
  ordered (last :: rest) -> canonical (coalesce_loop last rest).
Proof.
  revert last. induction rest as [|h rest IH]; intros last; simpl.
  - rewrite ordered_cons, canonical_cons. intros (?&_&_).
    split; [done|]. split; [constructor|apply canonical_nil].
  - intros (? & ? & ? & Hv & Hhr & Hm)%ordered_merge. case_match; bool_to_prop.
    + rewrite (proj2 (Z.ltb_lt _ _)) by lia. by apply IH.
    + rewrite canonical_cons. split; [done|]. split; [|by apply IH].
      rewrite Forall_forall. intros x Hx. apply coalesce_loop_elem in Hx; [|done].
      unfold sep, ends_before. destruct_or!; lia.
Qed.

(** The list [Lock] stores is canonical and gives the owner [md] on [r] and
    what it held before elsewhere. *)
Lemma coalesce_lock l (r : Range) (md : Mode) :
  canonical l -> Start r < End_ r -> md = Shared \/ md = Exclusive ->
  canonical (coalesce (subtract l r ++ [mkHeld r md])) /\
  (forall b, mode_at (coalesce (subtract l r ++ [mkHeld r md])) b =
             if in_range r b then Some md else mode_at l b).
Proof.
  intros Hl Hr Hmd. pose proof (subtract_canonical r l Hr Hl) as Hsub.
  destruct (ordered_insert (subtract l r) (mkHeld r md)) as [Hord Hat];
    [by apply canonical_ordered|done| |].
  { rewrite Forall_forall. intros x Hx. simpl. destruct Hsub as [Hv _].
    rewrite Forall_forall in Hv. by apply (subtract_disjoint r l x Hr Hx), Hv. }
  assert (forall b, (if in_range r b then Some md else mode_at (subtract l r) b) =
    if in_range r b then Some md else mode_at l b) as Hsat.
  { intros b. rewrite mode_at_subtract. by case_match. }
  simpl in Hat. unfold coalesce.
  destruct (subtract l r ++ [mkHeld r md]) as [|h1 [|h2 rest]] eqn:E.
  - by destruct (subtract l r).
  - destruct (subtract l r) as [|? [|??]]; simplify_eq/=. split.
    + rewrite canonical_cons. split; [done|]. split; [constructor|apply canonical_nil].
    + intros b. rewrite <-Hsat. done.
  - destruct (merge_sort start_le (h1 :: h2 :: rest)) as [|first rest'].
    + split; [apply canonical_nil|]. intros b. rewrite <-Hsat, <-Hat. done.
    + split; [by apply coalesce_loop_canonical|]. intros b.
      rewrite coalesce_loop_mode_at, Hat by done. apply Hsat.
Qed.


(** ** Which conflict is reported *)

Lemma lessOwner_irrefl a : lessOwner a a = false.
Proof. unfold lessOwner. rewrite decide_True by done. apply string_ltb_irrefl. Qed.

Lemma lessOwner_trans a b c : lessOwner a b = true -> lessOwner b c = true -> lessOwner a c = true.
Proof.
  destruct a as [ca ia], b as [cb ib], c as [cc ic]. unfold lessOwner. simpl.
  destruct (decide (ca = cb)), (decide (cb = cc)), (decide (ca = cc)); subst; try done;
    eauto using string_ltb_trans.
  intros Hab Hbc. pose proof (string_ltb_trans _ _ _ Hab Hbc) as Haa.
  by rewrite string_ltb_irrefl in Haa.
Qed.

Lemma lessOwner_total a b : lessOwner a b = false -> lessOwner b a = false -> a = b.
Proof.
  destruct a as [ca ia], b as [cb ib]. unfold lessOwner. simpl.
  repeat case_decide; simplify_eq; intros ? ?.
  - f_equal. by apply string_ltb_total.
  - exfalso. eauto using string_ltb_total.
Qed.

Definition lock_lt (c f : LockInfo) : bool :=
  (Start (LRange c) <? Start (LRange f)) ||
  ((Start (LRange c) =? Start (LRange f)) && lessOwner (LOwner c) (LOwner f)).

Lemma lock_lt_trans a b c : lock_lt a b = true -> lock_lt b c = true -> lock_lt a c = true.
Proof.
  unfold lock_lt. bool_to_prop. intros [?|[??]] [?|[??]]; try (left; lia).
  right. split; [lia|]. by eapply lessOwner_trans.
Qed.

Lemma lock_lt_irrefl a : lock_lt a a = false.
Proof. unfold lock_lt. rewrite lessOwner_irrefl, Z.ltb_irrefl. by rewrite andb_false_r. Qed.

Lemma lock_lt_total a b :
  lock_lt a b = false -> lock_lt b a = false ->
  Start (LRange a) = Start (LRange b) /\ LOwner a = LOwner b.
Proof.
  unfold lock_lt. bool_to_prop. intros [? H1] [? H2].
  assert (Start (LRange a) = Start (LRange b)) as Heq by lia. split; [done|].
  apply lessOwner_total; naive_solver lia.
Qed.

(** A held lock that keeps [owner] from locking [r] in [md]. *)
Definition conflicting (owner : Owner) (r : Range) (md : Mode) (c : LockInfo) : Prop :=
  LOwner c <> owner /\ overlaps (LRange c) r = true /\ ~ (LMode c = Shared /\ md = Shared).

(** The scan has found the least conflicting lock among those it has seen. *)
Definition scan_inv (owner : Owner) (r : Range) (md : Mode)
    (found : option LockInfo) (seen : list LockInfo) : Prop :=
  match found with
  | None => Forall (fun c => ~ conflicting owner r md c) seen
  | Some f => f ∈ seen /\ conflicting owner r md f /\
              Forall (fun c => conflicting owner r md c -> lock_lt c f = false) seen
  end.

Lemma scan_inv_skip owner r md found seen c :
  ~ conflicting owner r md c -> scan_inv owner r md found seen ->
  scan_inv owner r md found (seen ++ [c]).
Proof.
  intros Hc. destruct found as [f|]; simpl; rewrite Forall_app, Forall_singleton; [|done].
  intros (?&?&?). rewrite elem_of_app. naive_solver.
Qed.

Lemma conflict_step_inv owner r md other found seen h :
  other <> owner -> scan_inv owner r md found seen ->
  scan_inv owner r md (conflict_step r md other found h)
    (seen ++ [mkLock (hrange h) (mode h) other]).
Proof.
  intros Hne Hinv. unfold conflict_step.
  destruct (negb (overlaps (hrange h) r) || ((mode h =? Shared) && (md =? Shared))) eqn:Et.
  { apply scan_inv_skip; [|done]. unfold conflicting. simpl. bool_to_prop. intuition congruence. }
  assert (conflicting owner r md (mkLock (hrange h) (mode h) other)) as Hconf.
  { unfold conflicting. simpl. bool_to_prop. intuition congruence. }
  destruct found as [f|]; simpl in *.
  - destruct Hinv as (Hin & Hf & Hmin).
    change ((Start (hrange h) <? Start (LRange f)) || _)
      with (lock_lt (mkLock (hrange h) (mode h) other) f).
    destruct (lock_lt _ f) eqn:Elt; simpl; rewrite elem_of_app, Forall_app, Forall_singleton.
    + split; [right; apply list_elem_of_singleton; done|]. split; [done|].
      split; [|intros _; apply lock_lt_irrefl]. eapply Forall_impl; [exact Hmin|].
      intros c Hc Hcc. specialize (Hc Hcc). 
      destruct (lock_lt c (mkLock (hrange h) (mode h) other)) eqn:Ec; [|done].
      by rewrite (lock_lt_trans _ _ _ Ec Elt) in Hc.
    + split_and!; auto.
  - rewrite elem_of_app, Forall_app, Forall_singleton.
    split; [right; apply list_elem_of_singleton; done|]. split; [done|].
    split; [|intros _; apply lock_lt_irrefl]. eapply Forall_impl; [exact Hinv|]. naive_solver.
Qed.

Lemma conflict_steps_inv owner r md other found seen ranges :
  other <> owner -> scan_inv owner r md found seen ->
  scan_inv owner r md (foldl (conflict_step r md other) found ranges)
    (seen ++ map (fun h => mkLock (hrange h) (mode h) other) ranges).
Proof.
  intros Hne. revert found seen. induction ranges as [|h ranges IH]; intros found seen Hinv; simpl.
  - by rewrite app_nil_r.
  - rewrite (cons_middle _ seen), app_assoc. apply IH. by apply conflict_step_inv.
Qed.

Lemma conflict_skips_inv owner r md found seen ranges :
  scan_inv owner r md found seen ->
  scan_inv owner r md found (seen ++ map (fun h => mkLock (hrange h) (mode h) owner) ranges).
Proof.
  revert seen. induction ranges as [|h ranges IH]; intros seen Hinv; simpl.
  - by rewrite app_nil_r.
  - rewrite (cons_middle _ seen), app_assoc. apply IH. apply scan_inv_skip; [|done].
    unfold conflicting. naive_solver.
Qed.

Lemma conflict_scan_inv owner r md entries :
  scan_inv owner r md (conflict_scan owner r md entries) (flatten entries).
Proof.
  unfold conflict_scan.
  assert (forall found seen, scan_inv owner r md found seen ->
    scan_inv owner r md
      (foldl (fun found e => if decide (e.1 = owner) then found
              else foldl (conflict_step r md e.1) found e.2) found entries)
      (seen ++ flatten entries)) as Hgen.
  { induction entries as [|[other ranges] entries IH]; intros found seen Hinv; simpl.
    - by rewrite app_nil_r.
    - rewrite app_assoc. apply IH. case_decide as Ho; simpl in Ho.
      + subst. by apply conflict_skips_inv.
      + by apply conflict_steps_inv. }
  by apply (Hgen None []), Forall_nil.
Qed.

Lemma elem_of_flatten entries c :
  c ∈ flatten entries <->
  exists ranges h, (LOwner c, ranges) ∈ entries /\ h ∈ ranges /\
                   LRange c = hrange h /\ LMode c = mode h.
Proof.
  induction entries as [|[o rs] entries IH]; simpl.
  - rewrite elem_of_nil. setoid_rewrite elem_of_nil. naive_solver.
  - rewrite elem_of_app, IH. setoid_rewrite elem_of_cons. rewrite list_elem_of_In, in_map_iff.
    setoid_rewrite <-list_elem_of_In. split.
    + intros [(h & <- & Hh)|(rs' & h & ?)]; [exists rs, h|exists rs', h]; naive_solver.
    + intros (rs' & h & [[= Ho ->]|?] & ? & ? & ?); [left|right; by exists rs', h].
      exists h. split; [|done]. destruct c; simpl in *; congruence.
Qed.

End Lock.
