(* ===== verification/LockSpec.v ===== *)
(** * What the lock table promises

    [holds] is the abstract state: which byte of which file each owner holds,
    and in which mode.  The operations of [LockTable.v] are proved to update it
    the way POSIX record locks do, and [wf] to hold in every table they reach. *)
From S2P Require Import Prelude GoPath LockTable.
Import Lock.

Module LockSpec.

Definition holds (m : Manager) (path : string) (owner : Owner) (b : Z) : option Z :=
  mode_at (ranges_of m path owner) b.

(** How many ranges the owners of [client] hold, over every file. *)
Definition owners_total (client : string) (os : gmap Owner (list held)) : Z :=
  map_sum (fun o l => if decide (Client o = client) then len l else 0) os.
Definition total (m : Manager) (client : string) : Z :=
  map_sum (fun _ os => owners_total client os) (files m).

(** No two owners hold a byte unless both hold it shared. *)
Definition exclusion (m : Manager) : Prop :=
  forall path o1 o2 b m1 m2, o1 <> o2 ->
    holds m path o1 b = Some m1 -> holds m path o2 b = Some m2 ->
    m1 = Shared /\ m2 = Shared.

Record wf (m : Manager) : Prop := mkWf {
  wf_canonical : forall path owner, canonical (ranges_of m path owner);
  wf_nonempty : forall path os owner, files m !! path = Some os -> os !! owner <> Some [];
  wf_files : forall path, files m !! path <> Some ∅;
  wf_owned : forall owner path,
    path ∈ default ∅ (owned m !! owner) <-> ranges_of m path owner <> [];
  wf_owned_nonempty : forall owner, owned m !! owner <> Some ∅;
  wf_count : forall client, client_count m client = total m client;
  wf_count_pos : forall client n, clientLocks m !! client = Some n -> 0 < n;
  wf_exclusion : exclusion m
}.

(** One request of a protocol server. *)
Inductive step (m : Manager) : Manager -> Prop :=
  | step_lock owner path r md : step m (Lock m owner path r md).1
  | step_unlock owner path r : step m (Unlock m owner path r).1
  | step_release_owner owner : step m (ReleaseOwner m owner)
  | step_release_client client : step m (ReleaseClient m client).

Definition reachable (opts : Options) (m : Manager) : Prop := rtc step (NewManager opts) m.

(** ** [setLocked] *)

Lemma owners_of_setLocked m owner path rs d path' :
  owners_of (setLocked m owner path rs d) path' =
  if decide (path' = path) then
    (if decide (rs = []) then delete owner (owners_of m path)
     else <[owner := rs]> (owners_of m path))
  else owners_of m path'.
Proof.
  unfold owners_of at 1, setLocked. simpl. destruct (decide (path' = path)) as [->|Hne].
  - destruct (decide (rs = [])); [|by rewrite lookup_insert_eq].
    destruct (decide (delete owner (owners_of m path) = ∅)) as [He|].
    + by rewrite lookup_delete_eq, He.
    + by rewrite lookup_insert_eq.
  - repeat case_decide; by rewrite ?lookup_delete_ne, ?lookup_insert_ne by congruence.
Qed.

Lemma ranges_of_setLocked m owner path rs d path' owner' :
  ranges_of (setLocked m owner path rs d) path' owner' =
  if decide (path' = path /\ owner' = owner) then rs else ranges_of m path' owner'.
Proof.
  unfold ranges_of. rewrite owners_of_setLocked.
  destruct (decide (path' = path)) as [->|]; [|by rewrite decide_False by naive_solver].
  destruct (decide (owner' = owner)) as [->|].
  - rewrite (decide_True (P := path = path /\ owner = owner)) by done. case_decide; subst;
      by rewrite ?lookup_delete_eq, ?lookup_insert_eq.
  - rewrite (decide_False (P := path = path /\ owner' = owner)) by naive_solver.
    case_decide; by rewrite ?lookup_delete_ne, ?lookup_insert_ne by congruence.
Qed.

Lemma owners_total_set client os owner rs :
  owners_total client (if decide (rs = []) then delete owner os else <[owner := rs]> os) =
  owners_total client os +
  (if decide (Client owner = client) then len rs - len (default [] (os !! owner)) else 0).
Proof.
  unfold owners_total. destruct (decide (rs = [])) as [->|].
  - rewrite map_sum_delete. destruct (os !! owner); simpl; case_decide; lia.
  - rewrite map_sum_insert. destruct (os !! owner); simpl; case_decide; lia.
Qed.

Lemma total_files m client path :
  total m client =
  map_sum (fun _ os => owners_total client os) (delete path (files m)) +
  owners_total client (owners_of m path).
Proof.
  unfold total, owners_of. rewrite map_sum_delete.
  destruct (files m !! path); simpl; [lia|]. unfold owners_total at 3. rewrite map_sum_empty. lia.
Qed.

Lemma total_setLocked m owner path rs d client :
  total (setLocked m owner path rs d) client =
  total m client +
  (if decide (Client owner = client) then len rs - len (ranges_of m path owner) else 0).
Proof.
  rewrite !(total_files _ client path), owners_of_setLocked, decide_True by done.
  rewrite owners_total_set. fold (ranges_of m path owner).
  assert (delete path (files (setLocked m owner path rs d)) = delete path (files m)) as ->; [|lia].
  unfold setLocked. simpl. repeat case_decide;
    by rewrite ?delete_delete_eq, ?delete_insert_eq.
Qed.

Lemma owned_setLocked m owner path rs d owner' :
  default ∅ (owned (setLocked m owner path rs d) !! owner') =
  if decide (owner' = owner) then
    (if decide (rs = []) then default ∅ (owned m !! owner) ∖ {[path]}
     else {[path]} ∪ default ∅ (owned m !! owner))
  else default ∅ (owned m !! owner').
Proof.
  unfold setLocked. simpl. destruct (decide (owner' = owner)) as [->|].
  - repeat case_decide; by rewrite ?lookup_delete_eq, ?lookup_insert_eq; simpl.
  - repeat case_decide; by rewrite ?lookup_delete_ne, ?lookup_insert_ne by congruence.
Qed.

Lemma client_count_setLocked m owner path rs d client :
  0 <= client_count m (Client owner) + d ->
  client_count (setLocked m owner path rs d) client =
  client_count m client + (if decide (Client owner = client) then d else 0).
Proof.
  intros Hn. unfold client_count at 1, setLocked. simpl.
  destruct (decide (Client owner = client)) as [<-|]; case_match; bool_to_prop;
    rewrite ?lookup_insert_eq, ?lookup_delete_eq, ?lookup_insert_ne, ?lookup_delete_ne by done;
    simpl; fold (client_count m (Client owner)); try fold (client_count m client); lia.
Qed.

Lemma total_ge m path owner :
  len (ranges_of m path owner) <= total m (Client owner).
Proof.
  rewrite (total_files m _ path).
  assert (forall os, 0 <= owners_total (Client owner) os) as Hpos.
  { intros os. apply map_sum_nonneg. intros. case_decide; lia. }
  assert (0 <= map_sum (fun _ os => owners_total (Client owner) os) (delete path (files m))).
  { apply map_sum_nonneg. auto. }
  enough (len (ranges_of m path owner) <= owners_total (Client owner) (owners_of m path)) by lia.
  unfold ranges_of. specialize (Hpos (owners_of m path)).
  destruct (owners_of m path !! owner) as [l|] eqn:E; simpl; [|lia].
  unfold owners_total in *.
  pose proof (map_sum_ge (fun o l => if decide (Client o = Client owner) then len l else 0)
    (owners_of m path) owner l) as Hge. simpl in Hge. rewrite decide_True in Hge by done.
  apply Hge; [|done]. intros. case_decide; lia.
Qed.

(** Storing a canonical list compatible with the other owners keeps the table
    well formed, when [delta] is the change in the number of ranges. *)
Lemma wf_setLocked m owner path rs :
  wf m -> canonical rs ->
  (forall other b m1 m2, other <> owner ->
     mode_at rs b = Some m1 -> holds m path other b = Some m2 -> m1 = Shared /\ m2 = Shared) ->
  wf (setLocked m owner path rs (len rs - len (ranges_of m path owner))).
Proof.
  intros Hwf Hc Hex. pose proof (total_ge m path owner) as Hge.
  rewrite <-(wf_count _ Hwf) in Hge. split.
  - intros p o. rewrite ranges_of_setLocked. case_decide; [done|by apply wf_canonical].
  - intros p os o Hp Ho. unfold setLocked in Hp. simpl in Hp.
    destruct (decide (rs = [])) as [->|Hrs].
    + case_decide.
      * apply lookup_delete_Some in Hp as [_ Hp]. by eapply wf_nonempty.
      * apply lookup_insert_Some in Hp as [[<- <-]|[_ Hp]]; [|by eapply wf_nonempty].
        apply lookup_delete_Some in Ho as [_ Ho]. unfold owners_of in Ho.
        destruct (files m !! path) as [os'|] eqn:E; simpl in Ho; [|by rewrite lookup_empty in Ho].
        by eapply wf_nonempty.
    + apply lookup_insert_Some in Hp as [[<- <-]|[_ Hp]]; [|by eapply wf_nonempty].
      apply lookup_insert_Some in Ho as [[_ ->]|[_ Ho]]; [done|]. unfold owners_of in Ho.
      destruct (files m !! path) as [os'|] eqn:E; simpl in Ho; [|by rewrite lookup_empty in Ho].
      by eapply wf_nonempty.
  - intros p Hp. unfold setLocked in Hp. simpl in Hp. repeat case_decide.
    + apply lookup_delete_Some in Hp as [_ Hp]. by eapply wf_files.
    + apply lookup_insert_Some in Hp as [[<- ?]|[_ Hp]]; [done|by eapply wf_files].
    + apply lookup_insert_Some in Hp as [[<- Hp]|[_ Hp]]; [|by eapply wf_files].
      by apply insert_non_empty in Hp.
  - intros o p. rewrite owned_setLocked, ranges_of_setLocked.
    pose proof (wf_owned _ Hwf o p). repeat case_decide; simplify_eq; set_solver.
  - intros o Ho. unfold setLocked in Ho. simpl in Ho. repeat case_decide.
    + apply lookup_delete_Some in Ho as [_ Ho]. by eapply wf_owned_nonempty.
    + apply lookup_insert_Some in Ho as [[<- ?]|[_ Ho]]; [done|by eapply wf_owned_nonempty].
    + apply lookup_insert_Some in Ho as [[<- Ho]|[_ Ho]]; [set_solver|by eapply wf_owned_nonempty].
  - intros c. rewrite client_count_setLocked by lia. rewrite total_setLocked.
    by rewrite (wf_count _ Hwf).
  - intros c n Hn. unfold setLocked in Hn. simpl in Hn. case_match; bool_to_prop.
    + apply lookup_insert_Some in Hn as [[<- <-]|[_ Hn]]; [done|by eapply wf_count_pos].
    + apply lookup_delete_Some in Hn as [_ Hn]. by eapply wf_count_pos.
  - intros p o1 o2 b m1 m2 Hne. unfold holds. rewrite !ranges_of_setLocked.
    repeat case_decide; destruct_and?; simplify_eq.
    + by apply Hex.
    + intros Ho1 Hrs. by destruct (Hex _ _ _ _ Hne Hrs Ho1).
    + by apply (wf_exclusion _ Hwf).
Qed.

(** ** Conflicts *)

Lemma held_on_file m path c :
  c ∈ flatten (map_to_list (owners_of m path)) <->
  exists h, h ∈ ranges_of m path (LOwner c) /\ LRange c = hrange h /\ LMode c = mode h.
Proof.
  rewrite elem_of_flatten. unfold ranges_of. split.
  - intros (rs & h & Hin & Hh & ?). apply elem_of_map_to_list in Hin. rewrite Hin. by exists h.
  - intros (h & Hh & ?). destruct (owners_of m path !! LOwner c) as [rs|] eqn:E; simpl in Hh.
    + exists rs, h. by rewrite elem_of_map_to_list.
    + by apply not_elem_of_nil in Hh.
Qed.

(** Another owner holds a byte of [r] in a mode that excludes [md]. *)
Definition blocked (m : Manager) (owner : Owner) (path : string) (r : Range) (md : Z) : Prop :=
  exists other b md', other <> owner /\ in_range r b = true /\
    holds m path other b = Some md' /\ ~ (md' = Shared /\ md = Shared).

Lemma conflicting_blocked m owner path r md c :
  wf m -> Start r < End_ r ->
  c ∈ flatten (map_to_list (owners_of m path)) -> conflicting owner r md c ->
  blocked m owner path r md.
Proof.
  intros Hwf Hr (h & Hin & Hrange & Hmode)%held_on_file (Hne & Hov & Hsh).
  pose proof (wf_canonical _ Hwf path (LOwner c)) as Hcan.
  assert (valid_held h) as [Hh _].
  { destruct Hcan as [Hv _]. rewrite Forall_forall in Hv. by apply Hv. }
  rewrite Hrange in Hov. unfold overlaps in Hov. bool_to_prop.
  exists (LOwner c), (Z.max (Start r) (Start (hrange h))), (LMode c).
  split_and!; [done| |
    unfold holds; rewrite Hmode; apply mode_at_ordered; [by apply canonical_ordered|done|]|done];
    unfold in_range; bool_to_prop; lia.
Qed.

Lemma blocked_conflicting m owner path r md :
  blocked m owner path r md ->
  exists c, c ∈ flatten (map_to_list (owners_of m path)) /\ conflicting owner r md c.
Proof.
  intros (other & b & md' & Hne & Hb & (h & Hin & Hbh & Hmd)%mode_at_Some & Hsh).
  exists (mkLock (hrange h) (mode h) other). split.
  - apply held_on_file. by exists h.
  - unfold conflicting, overlaps, in_range in *. simpl. bool_to_prop. subst.
    split_and!; [done|lia|lia|done].
Qed.

Lemma conflictLocked_None m owner path r md :
  wf m -> Start r < End_ r ->
  conflictLocked m owner path r md = None <-> ~ blocked m owner path r md.
Proof.
  intros Hwf Hr. unfold conflictLocked.
  pose proof (conflict_scan_inv owner r md (map_to_list (owners_of m path))) as Hinv.
  destruct (conflict_scan _ _ _ _) as [f|]; simpl in Hinv.
  - destruct Hinv as (Hin & Hf & _). split; [done|]. intros Hnb. destruct Hnb.
    by eapply conflicting_blocked.
  - split; [|done]. intros _ (c & Hin & Hc)%blocked_conflicting.
    rewrite Forall_forall in Hinv. by eapply Hinv.
Qed.

(** The lock reported is held, conflicts, and is the first in the order of
    start and owner. *)
Definition first_conflict (m : Manager) (owner : Owner) (path : string) (r : Range) (md : Z)
    (c : LockInfo) : Prop :=
  c ∈ flatten (map_to_list (owners_of m path)) /\ conflicting owner r md c /\
  forall c', c' ∈ flatten (map_to_list (owners_of m path)) ->
             conflicting owner r md c' -> lock_lt c' c = false.

Lemma conflictLocked_Some m owner path r md c :
  conflictLocked m owner path r md = Some c -> first_conflict m owner path r md c.
Proof.
  intros Hc. pose proof (conflict_scan_inv owner r md (map_to_list (owners_of m path))) as Hinv.
  unfold conflictLocked in Hc. rewrite Hc in Hinv. destruct Hinv as (?&?&Hmin).
  rewrite Forall_forall in Hmin. by split_and!.
Qed.

Lemma conflictLocked_blocked m owner path r md c :
  wf m -> Start r < End_ r -> conflictLocked m owner path r md = Some c ->
  blocked m owner path r md.
Proof. intros ?? (?&?&_)%conflictLocked_Some. by eapply conflicting_blocked. Qed.

(** The lock at a start offset belongs to one owner only once. *)
Lemma held_unique m path c c' :
  wf m -> c ∈ flatten (map_to_list (owners_of m path)) ->
  c' ∈ flatten (map_to_list (owners_of m path)) ->
  Start (LRange c) = Start (LRange c') -> LOwner c = LOwner c' -> c = c'.
Proof.
  intros Hwf (h & Hh & Hr & Hm)%held_on_file (h' & Hh' & Hr' & Hm')%held_on_file Hs Ho.
  rewrite <-Ho in Hh'. assert (h = h') as <-.
  { eapply (ordered_start_inj (ranges_of m path (LOwner c))); [|done|done|congruence].
    by apply canonical_ordered, wf_canonical. }
  destruct c, c'. simpl in *. congruence.
Qed.

Lemma flatten_Permutation es es' : es ≡ₚ es' -> flatten es ≡ₚ flatten es'.
Proof.
  induction 1 as [|[o rs] es es' _ IH|[o1 rs1] [o2 rs2] es|es1 es2 es3 _ IH1 _ IH2]; simpl.
  - done.
  - by rewrite IH.
  - rewrite !app_assoc. apply Permutation_app_tail, Permutation_app_comm.
  - by rewrite IH1.
Qed.

Lemma conflict_scan_order m owner path r md es :
  wf m -> es ≡ₚ map_to_list (owners_of m path) ->
  conflict_scan owner r md es = conflictLocked m owner path r md.
Proof.
  intros Hwf Hperm. pose proof (conflict_scan_inv owner r md es) as Hes.
  pose proof (conflict_scan_inv owner r md (map_to_list (owners_of m path))) as Hm.
  unfold conflictLocked. apply flatten_Permutation in Hperm.
  destruct (conflict_scan owner r md es) as [f|],
    (conflict_scan owner r md (map_to_list (owners_of m path))) as [g|]; simpl in *;
    [|rewrite Hperm in Hes; destruct Hes as (?&?&_); rewrite Forall_forall in Hm;
       exfalso; by eapply Hm
     |rewrite <-Hperm in Hm; destruct Hm as (?&?&_); rewrite Forall_forall in Hes;
       exfalso; by eapply Hes|done].
  rewrite Hperm in Hes. destruct Hes as (Hf & Hfc & Hfmin), Hm as (Hg & Hgc & Hgmin).
  rewrite Forall_forall in Hfmin, Hgmin. f_equal.
  destruct (lock_lt_total f g) as [??]; [by apply Hgmin|by apply Hfmin|].
  by eapply held_unique.
Qed.

(** ** The operations *)

Lemma validate_None r md :
  validate r md = None -> Start r < End_ r /\ (md = Shared \/ md = Exclusive).
Proof.
  unfold validate. case_match; [done|]. bool_to_prop. intros _. unfold Shared, Exclusive in *. lia.
Qed.

(** A granted lock is one [setLocked] of the coalesced ranges. *)
Lemma Lock_granted m owner path r md m' :
  Lock m owner path r md = (m', (None, None)) ->
  validate r md = None /\ conflictLocked m owner path r md = None /\
  let after := coalesce (subtract (ranges_of m path owner) r ++ [mkHeld r md]) in
  m' = setLocked m owner path after (len after - len (ranges_of m path owner)).
Proof. unfold Lock. intros H. repeat (case_match; simplify_eq/=); done. Qed.

Lemma Lock_refused m owner path r md m' res :
  Lock m owner path r md = (m', res) -> res <> (None, None) -> m' = m.
Proof. unfold Lock. intros H Hres. repeat (case_match; simplify_eq/=); done. Qed.

Lemma Lock_granted_wf m owner path r md m' :
  wf m -> Lock m owner path r md = (m', (None, None)) -> wf m'.
Proof.
  intros Hwf (Hv & Hc & ->)%Lock_granted. apply validate_None in Hv as [Hr Hmd].
  apply conflictLocked_None in Hc; [|done..].
  destruct (coalesce_lock (ranges_of m path owner) r md) as [Hcan Hat];
    [by apply wf_canonical|done|done|].
  apply wf_setLocked; [done|done|]. intros other b m1 m2 Hne. rewrite Hat.
  destruct (in_range r b) eqn:Eb.
  - intros [= <-] Hm2. destruct (decide (m2 = Shared /\ md = Shared)) as [[-> ->]|Hns]; [done|].
    destruct Hc. by exists other, b, m2.
  - intros Hm1 Hm2. by apply (wf_exclusion _ Hwf path owner other b).
Qed.

Lemma Lock_granted_holds m owner path r md m' path' owner' b :
  wf m -> Lock m owner path r md = (m', (None, None)) ->
  holds m' path' owner' b =
  if decide (path' = path /\ owner' = owner) then
    if in_range r b then Some md else holds m path owner b
  else holds m path' owner' b.
Proof.
  intros Hwf (Hv & _ & ->)%Lock_granted. apply validate_None in Hv as [Hr Hmd].
  unfold holds. rewrite ranges_of_setLocked. case_decide; [|done].
  apply coalesce_lock; [by apply wf_canonical|done|done].
Qed.

Lemma Unlock_wf m owner path r : wf m -> wf (Unlock m owner path r).1.
Proof.
  intros Hwf. unfold Unlock. case_match; [done|]. bool_to_prop. simpl.
  apply wf_setLocked; [done|by apply subtract_canonical, wf_canonical|].
  intros other b m1 m2 Hne. rewrite mode_at_subtract. case_match; [done|].
  intros ??. by apply (wf_exclusion _ Hwf path owner other b).
Qed.

(** Dropping an owner's ranges on a list of files. *)
Definition drop_paths (m : Manager) (owner : Owner) (paths : list string) : Manager :=
  foldl (fun m path => setLocked m owner path [] (- len (ranges_of m path owner))) m paths.

Lemma wf_drop_path m owner path :
  wf m -> wf (setLocked m owner path [] (- len (ranges_of m path owner))).
Proof.
  intros Hwf.
  change (- len (ranges_of m path owner)) with (len (@nil held) - len (ranges_of m path owner)).
  apply wf_setLocked; [done|apply canonical_nil|]. done.
Qed.

Lemma drop_paths_wf m owner paths : wf m -> wf (drop_paths m owner paths).
Proof.
  revert m. induction paths as [|p paths IH]; intros m Hwf; simpl; [done|].
  by apply IH, wf_drop_path.
Qed.

Lemma drop_paths_ranges m owner paths path' owner' :
  ranges_of (drop_paths m owner paths) path' owner' =
  if decide (owner' = owner /\ path' ∈ paths) then [] else ranges_of m path' owner'.
Proof.
  revert m. induction paths as [|p paths IH]; intros m; simpl.
  - rewrite decide_False; [done|]. intros [_ ?%not_elem_of_nil]. done.
  - rewrite IH, ranges_of_setLocked.
    repeat case_decide; rewrite ?elem_of_cons in *; naive_solver.
Qed.

Lemma ReleaseOwner_wf m owner : wf m -> wf (ReleaseOwner m owner).
Proof. apply drop_paths_wf. Qed.

Lemma ReleaseOwner_ranges m owner path' owner' :
  wf m ->
  ranges_of (ReleaseOwner m owner) path' owner' =
  if decide (owner' = owner) then [] else ranges_of m path' owner'.
Proof.
  intros Hwf. unfold ReleaseOwner, releaseOwnerLocked. fold (drop_paths m owner).
  change (foldl _ m ?l) with (drop_paths m owner l). rewrite drop_paths_ranges.
  destruct (decide (owner' = owner)) as [->|]; [|by rewrite decide_False by naive_solver].
  case_decide as Hd; [done|]. rewrite elem_of_elements, (wf_owned _ Hwf) in Hd.
  destruct (ranges_of m path' owner); [done|]. by destruct Hd.
Qed.

Definition release_owners (m : Manager) (client : string) (os : list Owner) : Manager :=
  foldl (fun m owner =>
           if decide (Client owner = client) then releaseOwnerLocked m owner else m) m os.

Lemma release_owners_wf m client os : wf m -> wf (release_owners m client os).
Proof.
  revert m. induction os as [|o os IH]; intros m Hwf; simpl; [done|].
  apply IH. case_decide; [by apply ReleaseOwner_wf|done].
Qed.

Lemma release_owners_ranges m client os path' owner' :
  wf m ->
  ranges_of (release_owners m client os) path' owner' =
  if decide (Client owner' = client /\ owner' ∈ os) then [] else ranges_of m path' owner'.
Proof.
  revert m. induction os as [|o os IH]; intros m Hwf; simpl.
  - rewrite decide_False; [done|]. intros [_ ?%not_elem_of_nil]. done.
  - destruct (decide (Client o = client)) as [Ho|Ho].
    + rewrite IH by (by apply (ReleaseOwner_wf m o)).
      change (releaseOwnerLocked m o) with (ReleaseOwner m o). rewrite ReleaseOwner_ranges by done.
      repeat case_decide; rewrite ?elem_of_cons in *; naive_solver.
    + rewrite IH by done. repeat case_decide; rewrite ?elem_of_cons in *; naive_solver.
Qed.

Lemma ReleaseClient_wf m client : wf m -> wf (ReleaseClient m client).
Proof. apply release_owners_wf. Qed.

Lemma ReleaseClient_ranges m client path' owner' :
  wf m ->
  ranges_of (ReleaseClient m client) path' owner' =
  if decide (Client owner' = client) then [] else ranges_of m path' owner'.
Proof.
  intros Hwf. unfold ReleaseClient.
  change (foldl _ m ?l) with (release_owners m client l). rewrite release_owners_ranges by done.
  destruct (decide (Client owner' = client)) as [Hc|]; [|by rewrite decide_False by naive_solver].
  case_decide as Hd; [done|]. destruct (ranges_of m path' owner') eqn:E; [done|].
  destruct Hd. split; [done|].
  assert (path' ∈ default ∅ (owned m !! owner')) as Hin by (rewrite (wf_owned _ Hwf), E; done).
  destruct (owned m !! owner') as [ps|] eqn:Eo; [|set_solver].
  apply list_elem_of_fmap. exists (owner', ps). split; [done|]. by apply elem_of_map_to_list.
Qed.

Lemma NewManager_wf opts : wf (NewManager opts).
Proof.
  split; unfold NewManager, ranges_of, owners_of, total, client_count; simpl.
  - intros. rewrite lookup_empty. simpl. rewrite lookup_empty. apply canonical_nil.
  - intros path os owner. by rewrite lookup_empty.
  - intros path. by rewrite lookup_empty.
  - intros. rewrite !lookup_empty. simpl. rewrite lookup_empty. set_solver.
  - intros owner. by rewrite lookup_empty.
  - intros. by rewrite lookup_empty, map_sum_empty.
  - intros c n. by rewrite lookup_empty.
  - intros path o1 o2 b m1 m2. unfold holds, ranges_of, owners_of. simpl.
    by rewrite lookup_empty; simpl; rewrite lookup_empty.
Qed.

Lemma step_wf m m' : wf m -> step m m' -> wf m'.
Proof.
  intros Hwf [owner path r md|owner path r|owner|client].
  - destruct (Lock m owner path r md) as [m1 [c e]] eqn:E. simpl.
    destruct c as [c|], e as [e|]; try (by rewrite (Lock_refused _ _ _ _ _ _ _ E)).
    by eapply Lock_granted_wf.
  - by apply Unlock_wf.
  - by apply ReleaseOwner_wf.
  - by apply ReleaseClient_wf.
Qed.

Lemma reachable_wf opts m : reachable opts m -> wf m.
Proof.
  intros Hr. assert (forall m0, wf m0 -> rtc step m0 m -> wf m) as Hgen.
  { intros m0 Hwf Hsteps. induction Hsteps; eauto using step_wf. }
  eapply Hgen; [apply (NewManager_wf opts)|exact Hr].
Qed.

Lemma fileLockCount_setLocked m owner path rs d :
  fileLockCountLocked (setLocked m owner path rs d) path =
  fileLockCountLocked m path + len rs - len (ranges_of m path owner).
Proof.
  unfold fileLockCountLocked. rewrite owners_of_setLocked, decide_True by done.
  unfold ranges_of. case_decide; subst; rewrite ?map_sum_delete, ?map_sum_insert;
    destruct (owners_of m path !! owner); simpl; lia.
Qed.

(** ** Properties *)

(** C16. In every table the servers can reach, by any sequence of requests from
    any owners, no byte is held by two owners unless both hold it shared; each
    owner's ranges are non-empty, in order and merged; the owner index and the
    per-client counters agree with the ranges actually held. *)
Theorem lock_table_invariant opts m : reachable opts m -> wf m.
Proof. apply reachable_wf. Qed.

Definition alice : Owner := mkOwner "nfs:1" "a".
Definition bob : Owner := mkOwner "smb:2" "b".

(** A table with a shared lock of each owner on one file. *)
Definition sample : Manager :=
  (Lock (Lock (NewManager (mkOptions 0 0)) alice "dir/f" (mkRange 0 10) Shared).1
     bob "dir/f" (mkRange 5 EOF) Shared).1.

Lemma sample_reachable : reachable (mkOptions 0 0) sample.
Proof. unfold sample. eapply rtc_l; [apply step_lock|]. eapply rtc_l; [apply step_lock|done]. Qed.

Lemma lock_table_invariant_witness : wf sample.
Proof. apply (lock_table_invariant (mkOptions 0 0)), sample_reachable. Defined.

(** C15. [Lock] implements record locks.  On a well-formed table and valid
    arguments it reports a conflict exactly when another owner holds a byte of
    the range in an excluding mode, and then nothing changes; an error changes
    nothing either; a granted lock gives the owner the new mode on the bytes of
    the range and changes no other byte, of any file, of any owner. *)
Theorem lock_refines_record_locks m owner path r md m' res :
  wf m -> validate r md = None -> Lock m owner path r md = (m', res) ->
  (blocked m owner path r md <-> exists c, res = (Some c, None)) /\
  (res <> (None, None) -> m' = m) /\
  (res = (None, None) -> forall path' owner' b,
     holds m' path' owner' b =
     if decide (path' = path /\ owner' = owner) then
       if in_range r b then Some md else holds m path owner b
     else holds m path' owner' b).
Proof.
  intros Hwf Hv Hlock. split_and!.
  - destruct (validate_None _ _ Hv) as [Hr _].
    pose proof (conflictLocked_None m owner path r md Hwf Hr) as Hnone.
    unfold Lock in Hlock. rewrite Hv in Hlock.
    destruct (conflictLocked m owner path r md) as [c|] eqn:Ec.
    + simplify_eq. apply conflictLocked_blocked in Ec; [|done..]. split; eauto.
    + split; [by intros ?%Hnone|]. intros [c ->]. by case_match; simplify_eq.
  - by eapply Lock_refused.
  - intros -> path' owner' b. by eapply Lock_granted_holds.
Qed.

(** Alice may not take byte 7 exclusively: Bob holds it shared; but she may
    take bytes 0 to 5. *)
Lemma lock_refines_record_locks_witness :
  (blocked sample alice "dir/f" (mkRange 7 8) Exclusive) /\
  forall b, holds (Lock sample alice "dir/f" (mkRange 0 5) Exclusive).1 "dir/f" alice b =
            if in_range (mkRange 0 5) b then Some Exclusive else holds sample "dir/f" alice b.
Proof.
  assert (wf sample) as Hwf by (eapply reachable_wf, sample_reachable). split.
  - destruct (lock_refines_record_locks sample alice "dir/f" (mkRange 7 8) Exclusive
      sample (Some (mkLock (mkRange 5 EOF) Shared bob), None)) as [Hb _];
      [done|reflexivity|vm_compute; reflexivity|].
    apply Hb. eauto.
  - intros b. destruct (lock_refines_record_locks sample alice "dir/f" (mkRange 0 5) Exclusive
      (Lock sample alice "dir/f" (mkRange 0 5) Exclusive).1 (None, None)) as (_ & _ & Hg);
      [done|reflexivity|vm_compute; reflexivity|].
    rewrite Hg by done. reflexivity.
Defined.

(** [Unlock] releases exactly the bytes of the range: afterwards the owner
    holds none of them, and every other byte of every file is held as before;
    an empty range is refused and changes nothing. *)
Theorem unlock_refines_record_locks m owner path r m' err :
  wf m -> Unlock m owner path r = (m', err) ->
  wf m' /\
  (err = None <-> Start r < End_ r) /\
  (err <> None -> m' = m) /\
  (err = None -> forall path' owner' b,
     holds m' path' owner' b =
     if decide (path' = path /\ owner' = owner) then
       if in_range r b then None else holds m path owner b
     else holds m path' owner' b).
Proof.
  intros Hwf Hu. split.
  { pose proof (Unlock_wf m owner path r Hwf) as Hwf'. by rewrite Hu in Hwf'. }
  unfold Unlock in Hu. case_match; bool_to_prop; simplify_eq.
  - split_and!; [|done|done]. split; [done|lia].
  - split_and!; [done|done|]. intros _ path' owner' b. unfold holds.
    rewrite ranges_of_setLocked. case_decide; [|done]. apply mode_at_subtract.
Qed.

Lemma unlock_refines_record_locks_witness :
  holds (Unlock sample bob "dir/f" (mkRange 6 8)).1 "dir/f" bob 7 = None /\
  holds (Unlock sample bob "dir/f" (mkRange 6 8)).1 "dir/f" bob 8 = Some Shared.
Proof.
  destruct (unlock_refines_record_locks sample bob "dir/f" (mkRange 6 8)
    (Unlock sample bob "dir/f" (mkRange 6 8)).1 None) as (_ & _ & _ & Hu);
    [eapply reachable_wf, sample_reachable|reflexivity|].
  rewrite !Hu by done. split; vm_compute; reflexivity.
Defined.

(** When a client is gone, [ReleaseClient] leaves its owners holding
    nothing anywhere, drops its counter, and leaves the locks of every other
    client alone. *)
Theorem release_client_releases_all m client :
  wf m ->
  wf (ReleaseClient m client) /\
  client_count (ReleaseClient m client) client = 0 /\
  forall path owner b,
    holds (ReleaseClient m client) path owner b =
    if decide (Client owner = client) then None else holds m path owner b.
Proof.
  intros Hwf. pose proof (ReleaseClient_wf _ client Hwf) as Hwf'. split; [done|].
  assert (forall path owner, ranges_of (ReleaseClient m client) path owner =
    if decide (Client owner = client) then [] else ranges_of m path owner) as Hr.
  { intros. by apply ReleaseClient_ranges. }
  split.
  - rewrite (wf_count _ Hwf'). apply map_sum_zero. intros p os Hp.
    apply map_sum_zero. intros o l Ho. case_decide as Hc; [|done]. specialize (Hr p o).
    unfold ranges_of, owners_of in Hr. rewrite Hp in Hr. simpl in Hr. rewrite Ho in Hr.
    rewrite decide_True in Hr by done. simpl in Hr. by subst.
  - intros path owner b. unfold holds. rewrite Hr. by case_decide.
Qed.

Lemma release_client_releases_all_witness :
  holds (ReleaseClient sample "smb:2") "dir/f" bob 7 = None /\
  holds (ReleaseClient sample "smb:2") "dir/f" alice 7 = Some Shared.
Proof.
  destruct (release_client_releases_all sample "smb:2") as (_ & _ & Hr);
    [eapply reachable_wf, sample_reachable|].
  rewrite !Hr. split; vm_compute; reflexivity.
Defined.

(** A granted [Lock] never takes a file or a client over its cap: if it
    adds ranges at all, the file's and the client's counts stay within the
    caps; [ErrLimit] is returned only when a cap would have been exceeded. *)
Theorem lock_respects_caps m owner path r md m' res :
  wf m -> Lock m owner path r md = (m', res) ->
  (res = (None, None) ->
     fileLockCountLocked m' path <= Z.max (fileLockCountLocked m path) (maxLocksPerFile m) /\
     client_count m' (Client owner) <=
       Z.max (client_count m (Client owner)) (maxLocksPerClient m)) /\
  (res = (None, Some ErrLimit) ->
     let after := coalesce (subtract (ranges_of m path owner) r ++ [mkHeld r md]) in
     let delta := len after - len (ranges_of m path owner) in
     maxLocksPerFile m < fileLockCountLocked m path + delta \/
     maxLocksPerClient m < client_count m (Client owner) + delta).
Proof.
  intros Hwf Hlock.
  pose proof (total_ge m path owner) as Hge. rewrite <-(wf_count _ Hwf) in Hge.
  unfold Lock in Hlock. repeat (case_match; simplify_eq/=); split; intros ?; simplify_eq.
  - unfold validate in *. by case_match.
  - cbv zeta. bool_to_prop. tauto.
  - rewrite fileLockCount_setLocked, client_count_setLocked, decide_True by (done || lia).
    bool_to_prop. lia.
Qed.

Lemma lock_respects_caps_witness :
  fileLockCountLocked (Lock sample alice "dir/f" (mkRange 20 30) Shared).1 "dir/f" <= 512.
Proof.
  destruct (lock_respects_caps sample alice "dir/f" (mkRange 20 30) Shared
    (Lock sample alice "dir/f" (mkRange 20 30) Shared).1 (None, None)) as [[Hf _] _];
    [eapply reachable_wf, sample_reachable|vm_compute; reflexivity|done|].
  vm_compute in Hf |- *. exact Hf.
Defined.

(** The conflict [Lock] and [Test] report does not depend on the order in
    which Go happens to iterate the map of owners, and is the conflicting lock
    with the lowest start, and among those the lowest owner. *)
Theorem reported_conflict_deterministic m owner path r md entries :
  wf m -> entries ≡ₚ map_to_list (owners_of m path) ->
  conflict_scan owner r md entries = conflictLocked m owner path r md /\
  forall c, conflictLocked m owner path r md = Some c -> first_conflict m owner path r md c.
Proof.
  intros Hwf Hperm. split; [by apply conflict_scan_order|].
  intros c. apply conflictLocked_Some.
Qed.

Lemma reported_conflict_deterministic_witness :
  conflict_scan (mkOwner "c" "c") (mkRange 0 20) Exclusive
    (reverse (map_to_list (owners_of sample "dir/f"))) =
  Some (mkLock (mkRange 0 10) Shared alice).
Proof.
  destruct (reported_conflict_deterministic sample (mkOwner "c" "c") "dir/f" (mkRange 0 20)
    Exclusive (reverse (map_to_list (owners_of sample "dir/f")))) as [-> _];
    [eapply reachable_wf, sample_reachable|apply reverse_Permutation|vm_compute; reflexivity].
Defined.

(** [Unlock] is not subject to the caps: splitting a range adds one, so a
    table with a cap of one range per file reaches two, and a client that locks
    a whole file and releases every other byte grows its state past any cap. *)
Theorem unlock_can_exceed_cap :
  exists m m', reachable (mkOptions 1 1) m /\
    Unlock m alice "f" (mkRange 5 6) = (m', None) /\
    fileLockCountLocked m "f" = 1 /\ fileLockCountLocked m' "f" = 2 /\ maxLocksPerFile m' = 1.
Proof.
  exists (Lock (NewManager (mkOptions 1 1)) alice "f" (mkRange 0 EOF) Exclusive).1.
  eexists. split; [eapply rtc_l; [apply step_lock|done]|].
  split; [reflexivity|]. vm_compute. done.
Qed.

End LockSpec.
