(* ===== verification/ShareTable.v ===== *)
(** * The share-mode table ([internal/lock/share.go])

    A [*ShareHandle] is an address in [heap], so that [Rename] changing a
    handle's path and a later [Release] through that handle see the same
    object.  The table keeps, per path, the addresses of the opens held. *)
From S2P Require Import Prelude LockTable.

Module Share.

Definition DefaultMaxOpensPerFile : Z := 1024.

Inductive share_error := ErrSharingViolation | ErrOpenLimit.

(** [Access] is a [uint8] bit set. *)
Abbreviation Access := Z (only parsing).
Definition AccessRead : Access := 1.
Definition AccessWrite : Access := 2.
Definition AccessDelete : Access := 4.

Record ShareHandle := mkHandle {
  hpath : string;
  haccess : Access;
  hshare : Access;
  released : bool
}.

Record ShareTable := mkTable {
  maxOpensPerFile : Z;
  opens : gmap string (list positive);
  heap : gmap positive ShareHandle
}.

Definition NewShareTable (maxOpens : Z) : ShareTable := {|
  maxOpensPerFile := if maxOpens <=? 0 then DefaultMaxOpensPerFile else maxOpens;
  opens := ∅;
  heap := ∅
|}.

(** [conflicts]: [x &^ y] clears in [x] the bits of [y]. *)
Definition conflicts (access share otherAccess otherShare : Access) : bool :=
  negb (Z.ldiff access otherShare =? 0) || negb (Z.ldiff otherAccess share =? 0).

Definition opens_of (t : ShareTable) (path : string) : list positive :=
  default [] (opens t !! path).

Definition handle_conflicts (t : ShareTable) (access share : Access) (h : positive) : bool :=
  match heap t !! h with
  | Some open => conflicts access share (haccess open) (hshare open)
  | None => false
  end.

(** [Acquire]: the new table, and the handle's address or an error. *)
Definition Acquire (t : ShareTable) (path : string) (access share : Access)
    : ShareTable * (positive + share_error) :=
  let held := opens_of t path in
  if maxOpensPerFile t <=? len held then (t, inr ErrOpenLimit)
  else if existsb (handle_conflicts t access share) held then (t, inr ErrSharingViolation)
  else
    let h := fresh (dom (heap t)) in
    ({| maxOpensPerFile := maxOpensPerFile t;
        opens := <[path := held ++ [h]]> (opens t);
        heap := <[h := mkHandle path access share false]> (heap t) |}, inl h).

(** The loop of [Release]: drop the first occurrence of [h]. *)
Fixpoint remove_first (h : positive) (l : list positive) : list positive :=
  match l with
  | [] => []
  | x :: l' => if decide (x = h) then l' else x :: remove_first h l'
  end.

Definition Release (t : ShareTable) (h : positive) : ShareTable :=
  match heap t !! h with
  | None => t
  | Some hd =>
      if released hd then t
      else
        let left := remove_first h (opens_of t (hpath hd)) in
        {| maxOpensPerFile := maxOpensPerFile t;
           opens := if decide (left = []) then delete (hpath hd) (opens t)
                    else <[hpath hd := left]> (opens t);
           heap := <[h := mkHandle (hpath hd) (haccess hd) (hshare hd) true]> (heap t) |}
  end.

Definition Opens (t : ShareTable) (path : string) : list (Access * Access) :=
  omap (fun h => (fun hd => (haccess hd, hshare hd)) <$> heap t !! h) (opens_of t path).

Definition Len (t : ShareTable) : Z := map_sum (fun _ l => len l) (opens t).

Definition set_path (newPath : string) (hd : ShareHandle) : ShareHandle :=
  mkHandle newPath (haccess hd) (hshare hd) (released hd).

Definition Rename (t : ShareTable) (oldPath newPath : string) : ShareTable :=
  if decide (oldPath = newPath) then t
  else match opens t !! oldPath with
       | None => t
       | Some moved =>
           {| maxOpensPerFile := maxOpensPerFile t;
              opens := <[newPath := opens_of t newPath ++ moved]> (delete oldPath (opens t));
              heap := foldl (fun hp h => alter (set_path newPath) h hp) (heap t) moved |}
       end.

(** ** Invariants *)

(** The table and the handles agree: a path lists exactly the handles that
    name it and have not been released, each once. *)
Record wf (t : ShareTable) : Prop := mkWf {
  wf_listed : forall path h, h ∈ opens_of t path <->
    exists hd, heap t !! h = Some hd /\ hpath hd = path /\ released hd = false;
  wf_nodup : forall path, NoDup (opens_of t path);
  wf_nonempty : forall path, opens t !! path <> Some []
}.

(** Opens of one file permit each other, and there are no more than the cap. *)
Definition compatible (t : ShareTable) : Prop :=
  forall path h1 h2 d1 d2, h1 ∈ opens_of t path -> h2 ∈ opens_of t path -> h1 <> h2 ->
    heap t !! h1 = Some d1 -> heap t !! h2 = Some d2 ->
    conflicts (haccess d1) (hshare d1) (haccess d2) (hshare d2) = false.
Definition bounded (t : ShareTable) : Prop :=
  forall path, len (opens_of t path) <= maxOpensPerFile t.

(** Requests.  [step] allows every rename; [exclusive_step] only renames onto
    a name nobody has open. *)
Inductive step (t : ShareTable) : ShareTable -> Prop :=
  | step_acquire path access share : step t (Acquire t path access share).1
  | step_release h : step t (Release t h)
  | step_rename oldPath newPath : step t (Rename t oldPath newPath).

Inductive exclusive_step (t : ShareTable) : ShareTable -> Prop :=
  | xstep_acquire path access share : exclusive_step t (Acquire t path access share).1
  | xstep_release h : exclusive_step t (Release t h)
  | xstep_rename oldPath newPath :
      opens t !! newPath = None -> exclusive_step t (Rename t oldPath newPath).

Lemma elem_of_remove_first h x l :
  NoDup l -> x ∈ remove_first h l <-> x ∈ l /\ x <> h.
Proof.
  induction 1 as [|y l Hy Hl IH]; simpl; [rewrite elem_of_nil; tauto|].
  case_decide; subst; rewrite !elem_of_cons, ?IH; naive_solver.
Qed.

Lemma remove_first_sublist h l : remove_first h l `sublist_of` l.
Proof.
  induction l as [|y l IH]; simpl; [done|]. case_decide; [by apply sublist_cons|].
  by apply sublist_skip.
Qed.

Lemma opens_of_insert t path l path' m hp :
  opens_of (mkTable m (<[path := l]> (opens t)) hp) path' =
  if decide (path' = path) then l else opens_of t path'.
Proof.
  unfold opens_of. simpl. case_decide; subst; by rewrite ?lookup_insert_eq, ?lookup_insert_ne.
Qed.

Lemma Acquire_granted t path access share t' h :
  Acquire t path access share = (t', inl h) ->
  h = fresh (dom (heap t)) /\ len (opens_of t path) < maxOpensPerFile t /\
  Forall (fun g => handle_conflicts t access share g = false) (opens_of t path) /\
  t' = mkTable (maxOpensPerFile t) (<[path := opens_of t path ++ [h]]> (opens t))
         (<[h := mkHandle path access share false]> (heap t)).
Proof.
  unfold Acquire. destruct (maxOpensPerFile t <=? _) eqn:El; [done|].
  destruct (existsb _ _) eqn:Ex; [done|]. intros. simplify_eq. bool_to_prop.
  split_and!; [done|lia| |done]. apply Forall_forall. intros g Hg.
  destruct (handle_conflicts t access share g) eqn:Eg; [|done].
  assert (existsb (handle_conflicts t access share) (opens_of t path) = true); [|congruence].
  apply existsb_exists. exists g. by rewrite <-list_elem_of_In.
Qed.

Lemma Acquire_refused t path access share t' e : Acquire t path access share = (t', inr e) -> t' = t.
Proof. unfold Acquire. intros. by cases. Qed.

Lemma fresh_heap t : heap t !! fresh (dom (heap t)) = None.
Proof. apply not_elem_of_dom, is_fresh. Qed.

Lemma Acquire_wf t path access share : wf t -> wf (Acquire t path access share).1.
Proof.
  intros Hwf. destruct (Acquire t path access share) as [t' [h|e]] eqn:E; simpl;
    [|by rewrite (Acquire_refused _ _ _ _ _ _ E)].
  apply Acquire_granted in E as (Hh & _ & _ & ->). pose proof (fresh_heap t) as Hf.
  rewrite <-Hh in Hf. split.
  - intros p g. rewrite opens_of_insert. simpl. rewrite lookup_insert.
    case_decide as Hp.
    + subst p. rewrite elem_of_app, list_elem_of_singleton, (wf_listed _ Hwf). case_decide; naive_solver.
    + rewrite (wf_listed _ Hwf). case_decide; naive_solver.
  - intros p. rewrite opens_of_insert. case_decide; [|apply (wf_nodup _ Hwf)].
    apply NoDup_app. split_and!; [apply (wf_nodup _ Hwf)| |apply NoDup_singleton].
    intros g Hg ->%list_elem_of_singleton. apply (wf_listed _ Hwf) in Hg. naive_solver.
  - intros p Hp. simpl in Hp. apply lookup_insert_Some in Hp as [[_ Hp]|[_ Hp]].
    + by destruct (opens_of t path).
    + by eapply wf_nonempty.
Qed.

Lemma Release_effect t h hd :
  heap t !! h = Some hd -> released hd = false ->
  (forall path, opens_of (Release t h) path =
     if decide (path = hpath hd) then remove_first h (opens_of t path) else opens_of t path) /\
  heap (Release t h) = <[h := mkHandle (hpath hd) (haccess hd) (hshare hd) true]> (heap t).
Proof.
  intros Hh Hr. unfold Release. rewrite Hh, Hr. simpl. split; [|done]. intros path.
  unfold opens_of at 1. simpl.
  destruct (decide (path = hpath hd)) as [->|Hp], (decide (remove_first h _ = [])) as [Hl|Hl].
  - by rewrite lookup_delete_eq, Hl.
  - by rewrite lookup_insert_eq.
  - by rewrite lookup_delete_ne.
  - by rewrite lookup_insert_ne.
Qed.

Lemma Release_noop t h :
  (forall hd, heap t !! h = Some hd -> released hd = true) -> Release t h = t.
Proof. unfold Release. intros Hr. case_match; [|done]. by rewrite Hr. Qed.

Lemma Release_cases t h :
  Release t h = t \/ exists hd, heap t !! h = Some hd /\ released hd = false.
Proof.
  destruct (heap t !! h) as [hd|] eqn:E; [destruct (released hd) eqn:Er|].
  - left. apply Release_noop. naive_solver.
  - right. eauto.
  - left. apply Release_noop. naive_solver.
Qed.

Lemma Release_wf t h : wf t -> wf (Release t h).
Proof.
  intros Hwf. destruct (Release_cases t h) as [->|(hd & Hh & Hr)]; [done|].
  destruct (Release_effect t h hd Hh Hr) as [Ho Hheap]. split.
  - intros p g. rewrite Ho, Hheap, lookup_insert. case_decide as Hp.
    + rewrite elem_of_remove_first by apply (wf_nodup _ Hwf). rewrite (wf_listed _ Hwf).
      case_decide; naive_solver.
    + rewrite (wf_listed _ Hwf). case_decide; naive_solver.
  - intros p. rewrite Ho. case_decide; [|apply (wf_nodup _ Hwf)].
    eapply sublist_NoDup; [apply (wf_nodup _ Hwf)|apply remove_first_sublist].
  - intros p. unfold Release. rewrite Hh, Hr. simpl. case_decide as Hl.
    + intros [_ Hp]%lookup_delete_Some. by eapply wf_nonempty.
    + intros [[_ Hp]|[_ Hp]]%lookup_insert_Some; [done|by eapply wf_nonempty].
Qed.

Lemma lookup_moved (l : list positive) newPath (hp : gmap positive ShareHandle) (h : positive) :
  NoDup l ->
  foldl (fun hp h => alter (set_path newPath) h hp) hp l !! h =
  if decide (h ∈ l) then set_path newPath <$> hp !! h else hp !! h.
Proof.
  intros Hl. revert hp. induction Hl as [|x l Hx Hl IH]; intros hp; cbn [foldl].
  - by rewrite decide_False by apply not_elem_of_nil.
  - rewrite IH, lookup_alter.
    repeat case_decide; rewrite ?elem_of_cons in *; naive_solver.
Qed.

Lemma opens_of_Rename t oldPath newPath moved path :
  oldPath <> newPath -> opens t !! oldPath = Some moved ->
  opens_of (Rename t oldPath newPath) path =
  if decide (path = newPath) then opens_of t newPath ++ moved
  else if decide (path = oldPath) then [] else opens_of t path.
Proof.
  intros Hne Hm. unfold Rename. rewrite decide_False by done. rewrite Hm.
  unfold opens_of. simpl. repeat case_decide; subst;
    by rewrite ?lookup_insert_eq, ?lookup_insert_ne, ?lookup_delete_eq, ?lookup_delete_ne.
Qed.

Lemma Rename_cases t oldPath newPath :
  Rename t oldPath newPath = t \/
  exists moved, oldPath <> newPath /\ opens t !! oldPath = Some moved.
Proof. unfold Rename. repeat case_match; eauto. Qed.

Lemma heap_Rename t oldPath newPath moved h :
  wf t -> oldPath <> newPath -> opens t !! oldPath = Some moved ->
  heap (Rename t oldPath newPath) !! h =
  if decide (h ∈ opens_of t oldPath) then set_path newPath <$> heap t !! h else heap t !! h.
Proof.
  intros Hwf Hne Hm. assert (opens_of t oldPath = moved) as Ho by (unfold opens_of; by rewrite Hm).
  unfold Rename. rewrite decide_False by done. rewrite Hm. simpl. rewrite Ho.
  apply lookup_moved. rewrite <-Ho. apply (wf_nodup _ Hwf).
Qed.

Lemma Rename_wf t oldPath newPath : wf t -> wf (Rename t oldPath newPath).
Proof.
  intros Hwf. destruct (Rename_cases t oldPath newPath) as [->|(moved & Hne & Hm)]; [done|].
  assert (opens_of t oldPath = moved) as Ho by (unfold opens_of; by rewrite Hm).
  pose proof (wf_listed _ Hwf) as Hl. split.
  - intros p g. rewrite (opens_of_Rename _ _ _ moved), (heap_Rename _ _ _ moved) by done.
    rewrite <-Ho. case_decide as Hp; [subst p; rewrite elem_of_app|].
    + destruct (decide (g ∈ opens_of t oldPath)) as [Hg|Hg].
      * pose proof Hg as (hd & -> & Hpath & Hr)%Hl. simpl. split; [|by right].
        intros _. eexists. split; [done|]. split; [done|by simpl].
      * rewrite (Hl newPath). naive_solver.
    + destruct (decide (g ∈ opens_of t oldPath)) as [Hg|Hg].
      * pose proof Hg as (hd & Hhd & Hpath & Hr)%Hl. rewrite Hhd. simpl.
        case_decide; [rewrite elem_of_nil; naive_solver|]. rewrite Hl. naive_solver.
      * case_decide; [subst; rewrite elem_of_nil|rewrite Hl; done].
        split; [done|]. intros Hex. by apply Hg, Hl.
  - intros p. rewrite (opens_of_Rename _ _ _ moved) by done. rewrite <-Ho.
    repeat case_decide; [|apply NoDup_nil; done|apply (wf_nodup _ Hwf)].
    apply NoDup_app. split_and!; [apply (wf_nodup _ Hwf)| |apply (wf_nodup _ Hwf)].
    intros g (hd & Hhd & ? & ?)%Hl (hd' & Hhd' & ? & ?)%Hl. congruence.
  - intros p. unfold Rename. rewrite decide_False by done. rewrite Hm. simpl.
    intros [[_ Hp]|[_ [_ Hp]%lookup_delete_Some]]%lookup_insert_Some; [|by eapply wf_nonempty].
    apply app_eq_nil in Hp as [_ ->]. by eapply wf_nonempty.
Qed.

Lemma share_step_wf t t' : wf t -> step t t' -> wf t'.
Proof. intros Hwf []; auto using Acquire_wf, Release_wf, Rename_wf. Qed.

Lemma exclusive_step_step t t' : exclusive_step t t' -> step t t'.
Proof. intros []; constructor. Qed.

Lemma conflicts_sym a s a' s' : conflicts a s a' s' = conflicts a' s' a s.
Proof. unfold conflicts. apply orb_comm. Qed.

(** [compatible] survives every step that does not rename onto an open name. *)
Lemma Acquire_compatible t path access share :
  wf t -> compatible t -> compatible (Acquire t path access share).1.
Proof.
  intros Hwf Hc. destruct (Acquire t path access share) as [t1 [h|e]] eqn:E; simpl;
    [|by rewrite (Acquire_refused _ _ _ _ _ _ E)].
  apply Acquire_granted in E as (Hh & _ & Hall & ->). rewrite Forall_forall in Hall.
  pose proof (fresh_heap t) as Hf. rewrite <-Hh in Hf.
  assert (forall p g, g ∈ opens_of t p -> h <> g) as Hold.
  { intros p g (hd & Hg & _)%(wf_listed _ Hwf) ->. congruence. }
  intros p h1 h2 d1 d2. rewrite opens_of_insert. simpl.
  case_decide as Hp; [subst p; rewrite !elem_of_app, !list_elem_of_singleton|].
  - intros [H1| ->] [H2| ->] Hne; try done.
    + rewrite !lookup_insert_ne by eauto. exact (Hc _ _ _ _ _ H1 H2 Hne).
    + rewrite lookup_insert_eq, lookup_insert_ne by eauto. intros Hd1 [= <-]. simpl.
      specialize (Hall _ H1). unfold handle_conflicts in Hall.
      rewrite Hd1 in Hall. by rewrite conflicts_sym.
    + rewrite lookup_insert_eq, lookup_insert_ne by eauto. intros [= <-] Hd2. simpl.
      specialize (Hall _ H2). unfold handle_conflicts in Hall. by rewrite Hd2 in Hall.
  - intros H1 H2 Hne. rewrite !lookup_insert_ne by eauto. exact (Hc _ _ _ _ _ H1 H2 Hne).
Qed.

Lemma Release_compatible t h : wf t -> compatible t -> compatible (Release t h).
Proof.
  intros Hwf Hc. destruct (Release_cases t h) as [->|(hd & Hh & Hr)]; [done|].
  destruct (Release_effect t h hd Hh Hr) as [Ho Hheap].
  intros p h1 h2 d1 d2. rewrite Ho, Hheap, !lookup_insert.
  assert (forall g, g ∈ (if decide (p = hpath hd) then remove_first h (opens_of t p)
                         else opens_of t p) -> g ∈ opens_of t p /\ h <> g) as Hin.
  { intros g. case_decide as Hp.
    - rewrite elem_of_remove_first by apply (wf_nodup _ Hwf). naive_solver.
    - intros Hg. split; [done|]. intros <-. apply (wf_listed _ Hwf) in Hg. naive_solver. }
  intros [H1 ?]%Hin [H2 ?]%Hin Hne. rewrite !decide_False by done. exact (Hc _ _ _ _ _ H1 H2 Hne).
Qed.

Lemma Rename_compatible t oldPath newPath :
  wf t -> compatible t -> opens t !! newPath = None -> compatible (Rename t oldPath newPath).
Proof.
  intros Hwf Hc Hfree.
  destruct (Rename_cases t oldPath newPath) as [->|(moved & Hne & Hm)]; [done|].
  assert (opens_of t oldPath = moved) as Ho by (unfold opens_of; by rewrite Hm).
  assert (opens_of t newPath = []) as Hn by (unfold opens_of; by rewrite Hfree).
  assert (forall h d, heap (Rename t oldPath newPath) !! h = Some d -> exists d0,
    heap t !! h = Some d0 /\ haccess d = haccess d0 /\ hshare d = hshare d0) as Hheap.
  { intros h d. rewrite (heap_Rename _ _ _ moved) by done. case_decide; [|by eauto].
    intros (d0 & ? & ->)%fmap_Some. by exists d0. }
  intros p h1 h2 d1 d2 H1 H2 Hneq (d1' & Hd1 & -> & ->)%Hheap (d2' & Hd2 & -> & ->)%Hheap.
  rewrite (opens_of_Rename _ _ _ moved), Hn, <-Ho in H1, H2 by done.
  apply (Hc (if decide (p = newPath) then oldPath else p) h1 h2); [| |done..];
    repeat case_decide; try done; by apply not_elem_of_nil in H1.
Qed.

Lemma exclusive_step_bounded t t' :
  wf t -> bounded t -> exclusive_step t t' ->
  maxOpensPerFile t' = maxOpensPerFile t /\ bounded t'.
Proof.
  intros Hwf Hb [path access share|h|oldPath newPath Hfree].
  - destruct (Acquire t path access share) as [t1 [h|e]] eqn:E; simpl;
      [|by rewrite (Acquire_refused _ _ _ _ _ _ E)].
    apply Acquire_granted in E as (Hh & Hlen & _ & ->). split; [done|].
    intros p. rewrite opens_of_insert. simpl. case_decide; [|apply Hb].
    rewrite length_app. simpl. lia.
  - destruct (Release_cases t h) as [->|(hd & Hh & Hr)]; [done|].
    destruct (Release_effect t h hd Hh Hr) as [Ho _].
    assert (maxOpensPerFile (Release t h) = maxOpensPerFile t) as Hmax.
    { unfold Release. by rewrite Hh, Hr. }
    split; [done|]. intros p. rewrite Ho, Hmax. specialize (Hb p). case_decide; [|done].
    pose proof (sublist_length _ _ (remove_first_sublist h (opens_of t p))). lia.
  - destruct (Rename_cases t oldPath newPath) as [->|(moved & Hne & Hm)]; [done|].
    assert (maxOpensPerFile (Rename t oldPath newPath) = maxOpensPerFile t) as Hmax.
    { unfold Rename. by rewrite decide_False, Hm. }
    split; [done|]. intros p. rewrite (opens_of_Rename _ _ _ moved), Hmax by done.
    pose proof (Hb oldPath) as Hold. pose proof (Hb p). unfold opens_of in Hold at 1.
    rewrite Hm in Hold. simpl in Hold. unfold opens_of at 1. rewrite Hfree. simpl.
    repeat case_decide; simpl; lia.
Qed.

Definition share_safe (t : ShareTable) : Prop := wf t /\ compatible t /\ bounded t.

Lemma exclusive_step_safe t t' : share_safe t -> exclusive_step t t' -> share_safe t'.
Proof.
  intros (Hwf & Hc & Hb) Hs. split_and!.
  - by eapply share_step_wf, exclusive_step_step.
  - destruct Hs; auto using Acquire_compatible, Release_compatible, Rename_compatible.
  - by destruct (exclusive_step_bounded t t' Hwf Hb Hs).
Qed.

Lemma NewShareTable_safe maxOpens : share_safe (NewShareTable maxOpens).
Proof.
  assert (forall p, opens_of (NewShareTable maxOpens) p = []) as Ho.
  { intros p. unfold opens_of. simpl. by rewrite lookup_empty. }
  split_and!; [split| |].
  - intros p h. rewrite Ho, elem_of_nil. simpl. setoid_rewrite lookup_empty. naive_solver.
  - intros p. rewrite Ho. by apply NoDup_nil.
  - intros p. simpl. by rewrite lookup_empty.
  - intros p h1 h2 d1 d2. rewrite Ho. by intros ?%not_elem_of_nil.
  - intros p. rewrite Ho. simpl. unfold DefaultMaxOpensPerFile. cases_lia.
Qed.

(** ** Properties *)

(** C23. However opens, releases (repeated ones included) and renames onto
    unopened names interleave, the opens of one file always permit each other's
    access, there are never more than the cap, and the table lists exactly the
    handles not yet released, under their current name. *)
Theorem share_modes_hold maxOpens t :
  rtc exclusive_step (NewShareTable maxOpens) t -> share_safe t.
Proof.
  intros Hr. assert (forall t0, share_safe t0 -> rtc exclusive_step t0 t -> share_safe t) as Hgen.
  { intros t0 Hs Hsteps. induction Hsteps; eauto using exclusive_step_safe. }
  eapply Hgen; [apply NewShareTable_safe|exact Hr].
Qed.

Definition one_reader : ShareTable :=
  (Acquire (NewShareTable 0) "a" AccessRead (AccessRead + AccessDelete)).1.

Lemma share_modes_hold_witness : share_safe (Rename one_reader "a" "b").
Proof.
  apply (share_modes_hold 0). eapply rtc_l; [apply xstep_acquire|].
  eapply rtc_l; [|done]. apply xstep_rename. reflexivity.
Defined.

(** [Acquire] refuses an open exactly when the file is at its cap or an
    open of the file does not permit the new one, or is not permitted by it;
    a refusal changes nothing, and a grant adds the new open to that file and
    to no other. *)
Theorem acquire_grants_iff_permitted t path access share :
  wf t ->
  ((exists h, (Acquire t path access share).2 = inl h) <->
     len (opens_of t path) < maxOpensPerFile t /\
     forall h hd, h ∈ opens_of t path -> heap t !! h = Some hd ->
       Z.ldiff access (hshare hd) = 0 /\ Z.ldiff (haccess hd) share = 0) /\
  (forall e, (Acquire t path access share).2 = inr e -> (Acquire t path access share).1 = t) /\
  (forall h, (Acquire t path access share).2 = inl h -> forall path',
     opens_of (Acquire t path access share).1 path' =
     if decide (path' = path) then opens_of t path ++ [h] else opens_of t path').
Proof.
  intros Hwf. destruct (Acquire t path access share) as [t' res] eqn:E. simpl. split_and!.
  - split.
    + intros [h ->]. apply Acquire_granted in E as (_ & Hlen & Hall & _). split; [done|].
      intros h' hd Hin Hhd. rewrite Forall_forall in Hall. specialize (Hall _ Hin).
      unfold handle_conflicts, conflicts in Hall. rewrite Hhd in Hall. bool_to_prop. done.
    + intros [Hlen Hall]. unfold Acquire in E.
      rewrite (proj2 (Z.leb_gt _ _)) in E by done.
      destruct (existsb _ _) eqn:Ex; [exfalso; clear E|simplify_eq; by eauto].
      apply existsb_exists in Ex as (h & Hin & Hh). rewrite <-list_elem_of_In in Hin.
      unfold handle_conflicts in Hh. destruct (heap t !! h) as [hd|] eqn:Hhd; [|done].
      destruct (Hall _ _ Hin Hhd) as [Ha Hb]. unfold conflicts in Hh. rewrite Ha, Hb in Hh. done.
  - intros e ->. by eapply Acquire_refused.
  - intros h -> path'. apply Acquire_granted in E as (_ & _ & _ & ->). apply opens_of_insert.
Qed.

(** A second open that only reads is granted, one that writes is refused. *)
Lemma acquire_grants_iff_permitted_witness :
  (exists h, (Acquire one_reader "a" AccessRead AccessRead).2 = inl h) /\
  ~ (exists h, (Acquire one_reader "a" AccessWrite AccessRead).2 = inl h).
Proof.
  assert (wf one_reader) as Hwf by apply Acquire_wf, (NewShareTable_safe 0). split.
  - apply (acquire_grants_iff_permitted one_reader "a" AccessRead AccessRead Hwf).
    split; [reflexivity|]. intros h hd ->%list_elem_of_singleton Hhd.
    vm_compute in Hhd. by simplify_eq.
  - intros [Hl Ha]%(acquire_grants_iff_permitted one_reader "a" AccessWrite AccessRead Hwf).
    destruct (Ha 1%positive (mkHandle "a" AccessRead (AccessRead + AccessDelete) false)) as [Hx _].
    + apply list_elem_of_singleton. reflexivity.
    + reflexivity.
    + by vm_compute in Hx.
Defined.

End Share.
