(* ===== verification/StagingTypes.v ===== *)
(** * Data of the staging area ([internal/staging])

    The records the staging area keeps in memory and on disk, field for field.
    A field is prefixed by the record it belongs to ([p_] for a path's sidecar,
    [d_] for a dirty entry, [c_] for a conflict, [t_] for a tombstone, [a_] for
    attributes).  [error] values are kept as their text. *)
From Stdlib Require Export Strings.Byte.
From S2P Require Import Prelude.

Abbreviation byte := Byte.byte (only parsing).
Abbreviation bytes := (list Byte.byte) (only parsing).

#[global] Instance byte_eq_dec : EqDecision Byte.byte.
Proof. intros x y. destruct (Byte.eqb x y) eqn:E; [left; by apply Byte.byte_dec_bl|right; intros ->].
  by rewrite (Byte.byte_dec_lb eq_refl) in E. Defined.

Definition ConflictStatusNone : string := "none".
Definition ConflictStatusConflicted : string := "conflicted".
Definition pathMetadataVersion : Z := 1.
Definition tombstoneVersion : Z := 1.

(** [types.CloneStreams] copies every stream, so that a map handed over and
    the one kept never share storage; streams are therefore plain values. *)
Record StagedAttributes := mkAttributes {
  a_Mode : Z;
  a_UID : Z;
  a_GID : Z;
  a_Btime : Time;
  a_WindowsAttributes : Z;
  a_Streams : gmap string bytes;
  a_Atime : Time;
  a_Mtime : Time
}.

(** The sidecar kept next to a staged data file. *)
Record PathMetadataState := mkPathState {
  p_Version : Z;
  p_OriginalPath : string;
  p_ObjectKey : string;
  p_ObservedETag : string;
  p_ObservedSize : Z;
  p_ObservedLastModified : Time;
  p_StagedFilePath : string;
  p_ConflictStatus : string;
  p_DirtySince : Time;
  p_Attributes : option StagedAttributes;
  p_Committed : bool
}.

Definition set_p_Version v (s : PathMetadataState) := mkPathState v (p_OriginalPath s)
  (p_ObjectKey s) (p_ObservedETag s) (p_ObservedSize s) (p_ObservedLastModified s)
  (p_StagedFilePath s) (p_ConflictStatus s) (p_DirtySince s) (p_Attributes s) (p_Committed s).
Definition set_p_OriginalPath v (s : PathMetadataState) := mkPathState (p_Version s) v
  (p_ObjectKey s) (p_ObservedETag s) (p_ObservedSize s) (p_ObservedLastModified s)
  (p_StagedFilePath s) (p_ConflictStatus s) (p_DirtySince s) (p_Attributes s) (p_Committed s).
Definition set_p_ObjectKey v (s : PathMetadataState) := mkPathState (p_Version s)
  (p_OriginalPath s) v (p_ObservedETag s) (p_ObservedSize s) (p_ObservedLastModified s)
  (p_StagedFilePath s) (p_ConflictStatus s) (p_DirtySince s) (p_Attributes s) (p_Committed s).
Definition set_p_StagedFilePath v (s : PathMetadataState) := mkPathState (p_Version s)
  (p_OriginalPath s) (p_ObjectKey s) (p_ObservedETag s) (p_ObservedSize s)
  (p_ObservedLastModified s) v (p_ConflictStatus s) (p_DirtySince s) (p_Attributes s) (p_Committed s).
Definition set_p_ConflictStatus v (s : PathMetadataState) := mkPathState (p_Version s)
  (p_OriginalPath s) (p_ObjectKey s) (p_ObservedETag s) (p_ObservedSize s)
  (p_ObservedLastModified s) (p_StagedFilePath s) v (p_DirtySince s) (p_Attributes s) (p_Committed s).
Definition set_p_DirtySince v (s : PathMetadataState) := mkPathState (p_Version s)
  (p_OriginalPath s) (p_ObjectKey s) (p_ObservedETag s) (p_ObservedSize s)
  (p_ObservedLastModified s) (p_StagedFilePath s) (p_ConflictStatus s) v (p_Attributes s) (p_Committed s).
Definition set_p_Attributes v (s : PathMetadataState) := mkPathState (p_Version s)
  (p_OriginalPath s) (p_ObjectKey s) (p_ObservedETag s) (p_ObservedSize s)
  (p_ObservedLastModified s) (p_StagedFilePath s) (p_ConflictStatus s) (p_DirtySince s) v (p_Committed s).
Definition set_p_Committed v (s : PathMetadataState) := mkPathState (p_Version s)
  (p_OriginalPath s) (p_ObjectKey s) (p_ObservedETag s) (p_ObservedSize s)
  (p_ObservedLastModified s) (p_StagedFilePath s) (p_ConflictStatus s) (p_DirtySince s) (p_Attributes s) v.

(** [PathMetadataState{Version: ..., ObjectKey: ...}], every other field zero. *)
Definition blank_state (objectKey conflictStatus : string) : PathMetadataState :=
  mkPathState pathMetadataVersion "" objectKey "" 0 0 "" conflictStatus 0 None false.

(** A dirty file (one not yet synced to the object store). *)
Record DirtyFileMetadata := mkDirty {
  d_Path : string;
  d_ObjectKey : string;
  d_ObservedETag : string;
  d_ObservedSize : Z;
  d_ObservedLastModified : Time;
  d_LocalDirtyGeneration : Z;
  d_StagedPath : string;
  d_ConflictStatus : string;
  d_Size : Z;
  d_DirtySince : Time;
  d_LastModified : Time;
  d_SyncAttempts : Z;
  d_LastSyncError : option string;
  d_recorded : bool
}.

Record ConflictMetadata := mkConflict {
  c_Path : string;
  c_ObjectKey : string;
  c_Size : Z;
  c_PreservedPath : string;
  c_PreservedMetadataPath : string;
  c_DetectedAt : Time;
  c_Reason : string;
  c_LocalDirtyGeneration : Z;
  c_StagedPath : string;
  c_ConflictStatus : string;
  c_ObservedETag : string;
  c_ObservedSize : Z;
  c_ObservedLastModified : Time;
  c_ExternalSize : Z;
  c_ExternalETag : string;
  c_ExternalLastModified : Time;
  c_ExternalDeleted : bool
}.

Record TombstoneState := mkTombstone {
  t_Version : Z;
  t_Path : string;
  t_ObjectKey : string;
  t_CreatedAt : Time
}.

(** [objectKeyFromPath]: keys carry no leading slash. *)
Definition objectKeyFromPath (path : string) : string := TrimPrefix path "/".

(** On the rooted paths the gateway uses, keys identify paths. *)
Lemma objectKeyFromPath_inj p q :
  HasPrefix p "/" = true -> HasPrefix q "/" = true ->
  objectKeyFromPath p = objectKeyFromPath q -> p = q.
Proof.
  intros [p' ->]%HasPrefix_spec [q' ->]%HasPrefix_spec. unfold objectKeyFromPath.
  rewrite !TrimPrefix_app. by intros ->.
Qed.
