(* ===== verification/DirtyIndex.v ===== *)
(** * The dirty file index ([internal/staging/metadata.go])

    Which staged files are waiting to be uploaded, which a sync worker has
    claimed, and which are in conflict.  Every method runs under the index's
    mutex, so each is one atomic step; [time.Now()] is the argument [now].
    [syncing] only ever maps to [true], so it is a set.  The generation counter
    is an [int64] that grows by one per write; its wrap-around, 2^63 writes
    away, is not modelled. *)
From S2P Require Import Prelude StagingTypes.

Module DirtyIndex.

Record DirtyFileIndex := mkIndex {
  dirty : gmap string DirtyFileMetadata;
  syncing : gset string;
  conflicts : gmap string ConflictMetadata;
  generation : Z
}.

Definition NewDirtyFileIndex : DirtyFileIndex := mkIndex ∅ ∅ ∅ 0.

Definition set_dirty (f : gmap string DirtyFileMetadata -> gmap string DirtyFileMetadata)
    (i : DirtyFileIndex) : DirtyFileIndex :=
  mkIndex (f (dirty i)) (syncing i) (conflicts i) (generation i).
Definition set_syncing (f : gset string -> gset string) (i : DirtyFileIndex) : DirtyFileIndex :=
  mkIndex (dirty i) (f (syncing i)) (conflicts i) (generation i).

(** [nextGenerationLocked]: the index with its counter advanced, whose
    [generation] is the value handed out. *)
Definition nextGenerationLocked (i : DirtyFileIndex) : DirtyFileIndex :=
  mkIndex (dirty i) (syncing i) (conflicts i) (generation i + 1).

Definition applyPathStateToDirtyMetadata (meta : DirtyFileMetadata)
    (state : option PathMetadataState) : DirtyFileMetadata :=
  match state with
  | None => meta
  | Some st => {|
      d_Path := d_Path meta;
      d_ObjectKey := if decide (p_ObjectKey st = "") then d_ObjectKey meta else p_ObjectKey st;
      d_ObservedETag := p_ObservedETag st;
      d_ObservedSize := p_ObservedSize st;
      d_ObservedLastModified := p_ObservedLastModified st;
      d_LocalDirtyGeneration := d_LocalDirtyGeneration meta;
      d_StagedPath :=
        if decide (p_StagedFilePath st = "") then d_StagedPath meta else p_StagedFilePath st;
      d_ConflictStatus :=
        if decide (p_ConflictStatus st = "") then d_ConflictStatus meta else p_ConflictStatus st;
      d_Size := d_Size meta;
      d_DirtySince := d_DirtySince meta;
      d_LastModified := d_LastModified meta;
      d_SyncAttempts := d_SyncAttempts meta;
      d_LastSyncError := d_LastSyncError meta;
      d_recorded := d_recorded meta |}
  end.

(** The fields a change to the file sets. *)
Definition touched (meta : DirtyFileMetadata) (size : Z) (now : Time) (gen : Z) (rec : bool)
    : DirtyFileMetadata :=
  mkDirty (d_Path meta) (d_ObjectKey meta) (d_ObservedETag meta) (d_ObservedSize meta)
    (d_ObservedLastModified meta) gen (d_StagedPath meta) (d_ConflictStatus meta) size
    (d_DirtySince meta) now (d_SyncAttempts meta) (d_LastSyncError meta) rec.

Definition set_d_generation (gen : Z) (meta : DirtyFileMetadata) : DirtyFileMetadata :=
  touched meta (d_Size meta) (d_LastModified meta) gen (d_recorded meta).

Definition new_entry (path : string) (now : Time) : DirtyFileMetadata :=
  mkDirty path (objectKeyFromPath path) "" 0 0 0 "" ConflictStatusNone 0 now 0 0 None false.

Definition MarkDirtyWithState (i : DirtyFileIndex) (path : string) (size : Z)
    (state : option PathMetadataState) (now : Time) : DirtyFileIndex :=
  match conflicts i !! path with
  | Some _ => i
  | None =>
      let meta := default (new_entry path now) (dirty i !! path) in
      let i := nextGenerationLocked i in
      let meta := touched meta size now (generation i) (bool_decide (is_Some state)) in
      set_dirty <[path := applyPathStateToDirtyMetadata meta state]> i
  end.

Definition MarkDirty (i : DirtyFileIndex) (path : string) (size : Z) (now : Time) : DirtyFileIndex :=
  MarkDirtyWithState i path size None now.

Definition MarkDirtyAgain (i : DirtyFileIndex) (path : string) (size : Z) (now : Time)
    : DirtyFileIndex * bool :=
  match dirty i !! path with
  | None => (i, false)
  | Some meta =>
      if negb (d_recorded meta) then (i, false)
      else
        let i := nextGenerationLocked i in
        (set_dirty <[path := touched meta size now (generation i) (d_recorded meta)]> i, true)
  end.

Definition set_d_recorded (rec : bool) (meta : DirtyFileMetadata) : DirtyFileMetadata :=
  touched meta (d_Size meta) (d_LastModified meta) (d_LocalDirtyGeneration meta) rec.

Definition MarkUnrecorded (i : DirtyFileIndex) (path : string) : DirtyFileIndex :=
  set_dirty (alter (set_d_recorded false) path) i.

Definition MarkClean (i : DirtyFileIndex) (path : string) : DirtyFileIndex :=
  set_syncing (fun s => s ∖ {[path]}) (set_dirty (delete path) i).

(** [MarkCleanIfUnchanged]: the index, [wasDirty] and [clean]. *)
Definition MarkCleanIfUnchanged (i : DirtyFileIndex) (path : string) (gen : Z)
    : DirtyFileIndex * bool * bool :=
  match dirty i !! path with
  | Some meta =>
      if negb (d_LocalDirtyGeneration meta =? gen) then (i, true, false)
      else (MarkClean i path, true, true)
  | None => (MarkClean i path, false, true)
  end.

Definition MarkConflicted (i : DirtyFileIndex) (meta : ConflictMetadata) : DirtyFileIndex :=
  if decide (c_Path meta = "") then i
  else
    let i := MarkClean i (c_Path meta) in
    mkIndex (dirty i) (syncing i) (<[c_Path meta := meta]> (conflicts i)) (generation i).

Definition RestoreDirty (i : DirtyFileIndex) (meta : DirtyFileMetadata) : DirtyFileIndex :=
  if decide (d_Path meta = "") then i
  else match conflicts i !! d_Path meta with
  | Some _ => i
  | None =>
      let i := nextGenerationLocked i in
      let metaCopy := {|
        d_Path := d_Path meta;
        d_ObjectKey :=
          if decide (d_ObjectKey meta = "") then objectKeyFromPath (d_Path meta) else d_ObjectKey meta;
        d_ObservedETag := d_ObservedETag meta;
        d_ObservedSize := d_ObservedSize meta;
        d_ObservedLastModified := d_ObservedLastModified meta;
        d_LocalDirtyGeneration := generation i;
        d_StagedPath := d_StagedPath meta;
        d_ConflictStatus :=
          if decide (d_ConflictStatus meta = "") then ConflictStatusNone else d_ConflictStatus meta;
        d_Size := d_Size meta;
        d_DirtySince := d_DirtySince meta;
        d_LastModified := d_LastModified meta;
        d_SyncAttempts := d_SyncAttempts meta;
        d_LastSyncError := d_LastSyncError meta;
        d_recorded := true |} in
      set_dirty <[d_Path meta := metaCopy]> i
  end.

Definition Invalidate (i : DirtyFileIndex) (path : string) : DirtyFileIndex :=
  match dirty i !! path with
  | Some meta =>
      let i := nextGenerationLocked i in
      set_dirty <[path := set_d_generation (generation i) meta]> i
  | None => i
  end.

Definition DropEntry (i : DirtyFileIndex) (path : string) : DirtyFileIndex :=
  set_dirty (delete path) i.

(** [Rekey]: the entry of [oldPath], or a new one, becomes the entry of
    [newPath]; neither claims nor conflicts are touched. *)
Definition Rekey (i : DirtyFileIndex) (oldPath newPath stagedPath : string) (now : Time)
    : DirtyFileIndex :=
  let moved := default (mkDirty "" "" "" 0 0 0 "" ConflictStatusNone 0 now 0 0 None false)
                 (dirty i !! oldPath) in
  let i := nextGenerationLocked (set_dirty (delete oldPath) i) in
  let moved := {|
    d_Path := newPath;
    d_ObjectKey := objectKeyFromPath newPath;
    d_ObservedETag := "";
    d_ObservedSize := 0;
    d_ObservedLastModified := 0;
    d_LocalDirtyGeneration := generation i;
    d_StagedPath := stagedPath;
    d_ConflictStatus := d_ConflictStatus moved;
    d_Size := d_Size moved;
    d_DirtySince := d_DirtySince moved;
    d_LastModified := now;
    d_SyncAttempts := 0;
    d_LastSyncError := None;
    d_recorded := true |} in
  set_dirty <[newPath := moved]> i.

Definition LockFile (i : DirtyFileIndex) (path : string) : DirtyFileIndex * bool :=
  if decide (path ∈ syncing i) then (i, false)
  else (set_syncing (fun s => {[path]} ∪ s) i, true).

Definition UnlockFile (i : DirtyFileIndex) (path : string) : DirtyFileIndex :=
  set_syncing (fun s => s ∖ {[path]}) i.

Definition IsSyncing (i : DirtyFileIndex) (path : string) : bool := bool_decide (path ∈ syncing i).
Definition IsDirty (i : DirtyFileIndex) (path : string) : bool :=
  bool_decide (is_Some (dirty i !! path)).
Definition IsConflicted (i : DirtyFileIndex) (path : string) : bool :=
  bool_decide (is_Some (conflicts i !! path)).

Definition GetDirtyFiles (i : DirtyFileIndex) : list DirtyFileMetadata :=
  (map_to_list (dirty i)).*2.
Definition GetConflicts (i : DirtyFileIndex) : list ConflictMetadata :=
  (map_to_list (conflicts i)).*2.
Definition GetMetadata (i : DirtyFileIndex) (path : string) : option DirtyFileMetadata :=
  dirty i !! path.

Definition attempted (err : string) (meta : DirtyFileMetadata) : DirtyFileMetadata :=
  mkDirty (d_Path meta) (d_ObjectKey meta) (d_ObservedETag meta) (d_ObservedSize meta)
    (d_ObservedLastModified meta) (d_LocalDirtyGeneration meta) (d_StagedPath meta)
    (d_ConflictStatus meta) (d_Size meta) (d_DirtySince meta) (d_LastModified meta)
    (d_SyncAttempts meta + 1) (Some err) (d_recorded meta).

Definition IncrementSyncAttempts (i : DirtyFileIndex) (path err : string) : DirtyFileIndex :=
  set_dirty (alter (attempted err) path) i.

Definition Count (i : DirtyFileIndex) : Z := Z.of_nat (size (dirty i)).
Definition ConflictCount (i : DirtyFileIndex) : Z := Z.of_nat (size (conflicts i)).
Definition LastConflictTime (i : DirtyFileIndex) : Time :=
  foldl (fun last meta => if After (c_DetectedAt meta) last then c_DetectedAt meta else last)
    0 (GetConflicts i).
Definition SyncingCount (i : DirtyFileIndex) : Z := Z.of_nat (size (syncing i)).

(** ** The operations as one type, for sequences of them *)

Inductive op :=
  | OMarkDirtyWithState (path : string) (size : Z) (state : option PathMetadataState) (now : Time)
  | OMarkDirtyAgain (path : string) (size : Z) (now : Time)
  | OMarkUnrecorded (path : string)
  | OMarkClean (path : string)
  | OMarkCleanIfUnchanged (path : string) (gen : Z)
  | OMarkConflicted (meta : ConflictMetadata)
  | ORestoreDirty (meta : DirtyFileMetadata)
  | OInvalidate (path : string)
  | ODropEntry (path : string)
  | ORekey (oldPath newPath stagedPath : string) (now : Time)
  | OLockFile (path : string)
  | OUnlockFile (path : string)
  | OIncrementSyncAttempts (path err : string).

Definition exec (i : DirtyFileIndex) (o : op) : DirtyFileIndex :=
  match o with
  | OMarkDirtyWithState path size state now => MarkDirtyWithState i path size state now
  | OMarkDirtyAgain path size now => (MarkDirtyAgain i path size now).1
  | OMarkUnrecorded path => MarkUnrecorded i path
  | OMarkClean path => MarkClean i path
  | OMarkCleanIfUnchanged path gen => (MarkCleanIfUnchanged i path gen).1.1
  | OMarkConflicted meta => MarkConflicted i meta
  | ORestoreDirty meta => RestoreDirty i meta
  | OInvalidate path => Invalidate i path
  | ODropEntry path => DropEntry i path
  | ORekey oldPath newPath stagedPath now => Rekey i oldPath newPath stagedPath now
  | OLockFile path => (LockFile i path).1
  | OUnlockFile path => UnlockFile i path
  | OIncrementSyncAttempts path err => IncrementSyncAttempts i path err
  end.

Definition run (i : DirtyFileIndex) (ops : list op) : DirtyFileIndex := foldl exec i ops.

(** [o], done at [i], records a change of the staged file at [path]. *)
Definition records_change (i : DirtyFileIndex) (o : op) (path : string) : bool :=
  match o with
  | OMarkDirtyWithState p _ _ _ => bool_decide (p = path)
  | OMarkDirtyAgain p size now => bool_decide (p = path) && (MarkDirtyAgain i p size now).2
  | ORestoreDirty meta => bool_decide (d_Path meta = path) && bool_decide (path <> "")
  | OInvalidate p => bool_decide (p = path)
  | ORekey oldPath newPath _ _ => bool_decide (newPath = path) || bool_decide (oldPath = path)
  | _ => false
  end.

(** ** Invariant *)

(** Generations are issued once: no entry is ahead of the counter and no two
    entries share one; every entry sits under its own path. *)
Record wf (i : DirtyFileIndex) : Prop := mkWf {
  wf_generation : 0 <= generation i;
  wf_issued : forall path m, dirty i !! path = Some m ->
    0 < d_LocalDirtyGeneration m <= generation i;
  wf_unique : forall p q m n, dirty i !! p = Some m -> dirty i !! q = Some n ->
    d_LocalDirtyGeneration m = d_LocalDirtyGeneration n -> p = q;
  wf_path : forall path m, dirty i !! path = Some m -> d_Path m = path
}.

(** No path is both queued for upload and in conflict. *)
Definition disjoint_conflicts (i : DirtyFileIndex) : Prop :=
  forall path, is_Some (dirty i !! path) -> conflicts i !! path = None.

(** The part of an entry that describes the staged file. *)
Definition same_file (m n : DirtyFileMetadata) : Prop :=
  d_LocalDirtyGeneration m = d_LocalDirtyGeneration n /\ d_Size m = d_Size n /\
  d_LastModified m = d_LastModified n /\ d_DirtySince m = d_DirtySince n /\
  d_StagedPath m = d_StagedPath n.

(** What one operation does to the entry of one path: it may go, be kept with
    the same description of the file, or be given a generation never used. *)
Record evolves (i i' : DirtyFileIndex) : Prop := mkEvolves {
  ev_counter : generation i <= generation i';
  ev_entry : forall path m', dirty i' !! path = Some m' ->
    (exists m, dirty i !! path = Some m /\ same_file m m' /\ d_Path m' = d_Path m) \/
    (d_LocalDirtyGeneration m' = generation i + 1 /\ generation i' = generation i + 1 /\
     d_Path m' = path);
  ev_fresh_once : forall p q m n, dirty i' !! p = Some m -> dirty i' !! q = Some n ->
    d_LocalDirtyGeneration m = generation i + 1 -> d_LocalDirtyGeneration n = generation i + 1 ->
    wf i -> p = q
}.

Lemma same_file_refl m : same_file m m.
Proof. done. Qed.
Lemma same_file_trans m n o : same_file m n -> same_file n o -> same_file m o.
Proof. unfold same_file. intuition congruence. Qed.
#[local] Hint Resolve same_file_refl : bluestone.

(** Operations that keep the counter and at most drop or annotate entries. *)
Lemma evolves_keep i i' :
  generation i' = generation i ->
  (forall path m', dirty i' !! path = Some m' -> exists m,
     dirty i !! path = Some m /\ same_file m m' /\ d_Path m' = d_Path m) ->
  evolves i i'.
Proof.
  intros Hg Hd. split; [lia|by left; eauto|].
  intros p q m n Hp _ Hm _ Hwf. destruct (Hd _ _ Hp) as (m0 & Hm0 & (Heq & _) & _).
  pose proof (wf_issued _ Hwf _ _ Hm0). lia.
Qed.

(** Operations that write one entry with the next generation, and may drop
    others. *)
Lemma evolves_write i i' path meta :
  generation i' = generation i + 1 ->
  d_LocalDirtyGeneration meta = generation i + 1 ->
  d_Path meta = path ->
  dirty i' !! path = Some meta ->
  (forall q m', q <> path -> dirty i' !! q = Some m' -> dirty i !! q = Some m') ->
  evolves i i'.
Proof.
  intros Hg Hmg Hp Hpath Hother. split; [lia| |].
  - intros q m' Hq. destruct (decide (q = path)) as [->|Hne]; [right; naive_solver|].
    left. eauto with bluestone.
  - intros p q m n Hm Hn Hgm Hgn Hwf.
    assert (forall r x, dirty i' !! r = Some x -> d_LocalDirtyGeneration x = generation i + 1 ->
      r = path) as Honly.
    { intros r x Hr Hx. destruct (decide (r = path)) as [|Hne]; [done|].
      pose proof (wf_issued _ Hwf _ _ (Hother _ _ Hne Hr)). lia. }
    rewrite (Honly p m), (Honly q n); done.
Qed.

Lemma evolves_alter i f path :
  (forall m, same_file m (f m) /\ d_Path (f m) = d_Path m) -> evolves i (set_dirty (alter f path) i).
Proof.
  intros Hf. apply evolves_keep; [done|]. intros q m'. simpl.
  destruct (decide (q = path)) as [->|Hne].
  - rewrite lookup_alter_eq. intros (m & Hm & ->)%fmap_Some. destruct (Hf m). eauto.
  - rewrite lookup_alter_ne by done. eauto with bluestone.
Qed.

Lemma evolves_delete i i' path :
  generation i' = generation i -> dirty i' = delete path (dirty i) -> evolves i i'.
Proof.
  intros Hg Hd. apply evolves_keep; [done|]. intros q m'. rewrite Hd.
  intros [_ Hq]%lookup_delete_Some. eauto with bluestone.
Qed.

Lemma evolves_same i i' : generation i' = generation i -> dirty i' = dirty i -> evolves i i'.
Proof. intros Hg Hd. apply evolves_keep; [done|]. rewrite Hd. eauto with bluestone. Qed.

Lemma evolves_insert i path meta :
  d_LocalDirtyGeneration meta = generation i + 1 -> d_Path meta = path ->
  evolves i (set_dirty <[path := meta]> (nextGenerationLocked i)).
Proof.
  intros Hg Hp. eapply evolves_write; [done|exact Hg|exact Hp|apply lookup_insert_eq|].
  intros q m' Hne. simpl. by rewrite lookup_insert_ne.
Qed.

Lemma applyPathState_generation m st :
  d_LocalDirtyGeneration (applyPathStateToDirtyMetadata m st) = d_LocalDirtyGeneration m.
Proof. by destruct st. Qed.
Lemma applyPathState_path m st : d_Path (applyPathStateToDirtyMetadata m st) = d_Path m.
Proof. by destruct st. Qed.

Lemma exec_evolves i o : wf i -> evolves i (exec i o).
Proof.
  intros Hwf. destruct o as [path size st now|path size now|path|path|path gen|meta|meta|path|path
    |oldPath newPath stagedPath now|path|path|path err]; simpl.
  - unfold MarkDirtyWithState. destruct (conflicts i !! path); [by apply evolves_same|].
    apply evolves_insert; rewrite ?applyPathState_generation, ?applyPathState_path; [done|].
    simpl. destruct (dirty i !! path) eqn:E; simpl; [by eapply wf_path|done].
  - unfold MarkDirtyAgain. destruct (dirty i !! path) as [m|] eqn:E; [|by apply evolves_same].
    destruct (d_recorded m); simpl; [|by apply evolves_same].
    apply evolves_insert; [done|exact (wf_path _ Hwf _ _ E)].
  - by apply evolves_alter.
  - by apply (evolves_delete _ _ path).
  - unfold MarkCleanIfUnchanged. destruct (dirty i !! path) as [m|]; [destruct (_ =? _)|];
      simpl; first [by apply (evolves_delete _ _ path)|by apply evolves_same].
  - unfold MarkConflicted. case_decide; [by apply evolves_same|by apply (evolves_delete _ _ (c_Path meta))].
  - unfold RestoreDirty. case_decide; [by apply evolves_same|].
    destruct (conflicts i !! d_Path meta); [by apply evolves_same|]. by apply evolves_insert.
  - unfold Invalidate. destruct (dirty i !! path) as [m|] eqn:E; [|by apply evolves_same].
    apply evolves_insert; [done|exact (wf_path _ Hwf _ _ E)].
  - by apply (evolves_delete _ _ path).
  - unfold Rekey. eapply evolves_write; [done|..|apply lookup_insert_eq|]; [done..|].
    intros q m' Hne. simpl. rewrite lookup_insert_ne by done. by intros [_ ?]%lookup_delete_Some.
  - unfold LockFile. case_decide; by apply evolves_same.
  - by apply evolves_same.
  - by apply evolves_alter.
Qed.

Lemma evolves_wf i i' : wf i -> evolves i i' -> wf i'.
Proof.
  intros Hwf [Hc He Hf]. pose proof (wf_generation _ Hwf). split.
  - lia.
  - intros path m Hm. destruct (He _ _ Hm) as [(m0 & Hm0 & (Heq & _) & _)|(Heq & Hg & _)]; [|lia].
    pose proof (wf_issued _ Hwf _ _ Hm0). lia.
  - intros p q m n Hm Hn Heq.
    destruct (He _ _ Hm) as [(m0 & Hm0 & (Hm1 & _) & _)|(Hm1 & _ & _)],
             (He _ _ Hn) as [(n0 & Hn0 & (Hn1 & _) & _)|(Hn1 & _ & _)].
    + eapply wf_unique; [done..|congruence].
    + pose proof (wf_issued _ Hwf _ _ Hm0). lia.
    + pose proof (wf_issued _ Hwf _ _ Hn0). lia.
    + eapply Hf; try done; lia.
  - intros path m Hm. destruct (He _ _ Hm) as [(m0 & Hm0 & _ & ->)|(_ & _ & ->)]; [|done].
    by eapply wf_path.
Qed.

Lemma exec_wf i o : wf i -> wf (exec i o).
Proof. intros Hwf. eapply evolves_wf; [done|by apply exec_evolves]. Qed.

Lemma run_wf i ops : wf i -> wf (run i ops).
Proof. revert i. induction ops; simpl; auto using exec_wf. Qed.

Lemma New_wf : wf NewDirtyFileIndex.
Proof. split; simpl; [done|..]; intros; by rewrite lookup_empty in *. Qed.
#[local] Hint Resolve New_wf exec_wf run_wf : bluestone.

Lemma run_counter i ops : wf i -> generation i <= generation (run i ops).
Proof.
  revert i. induction ops as [|o ops IH]; intros i Hwf; simpl; [done|].
  etrans; [apply (ev_counter _ _ (exec_evolves i o Hwf))|]. by apply IH, exec_wf.
Qed.

(** An old generation at the end of a run was there all along. *)
Lemma run_old_entry i ops path m' :
  wf i -> dirty (run i ops) !! path = Some m' -> d_LocalDirtyGeneration m' <= generation i ->
  exists m, dirty i !! path = Some m /\ same_file m m'.
Proof.
  revert i. induction ops as [|o ops IH]; intros i Hwf Hm' Hg; simpl in *; [by eauto with bluestone|].
  pose proof (exec_evolves i o Hwf) as Hev. destruct (IH (exec i o)) as (m & Hm & Hsame).
  { by apply exec_wf. } { done. } { pose proof (ev_counter _ _ Hev). lia. }
  destruct (ev_entry _ _ Hev _ _ Hm) as [(m0 & Hm0 & Hs0 & _)|(Hnew & _ & _)].
  - eauto using same_file_trans.
  - destruct Hsame as [Heq _]. lia.
Qed.

(** Recording a change leaves no entry of the path, or one with a new
    generation. *)
Lemma records_change_fresh i o path m :
  disjoint_conflicts i -> is_Some (dirty i !! path) -> records_change i o path = true ->
  dirty (exec i o) !! path = Some m -> d_LocalDirtyGeneration m = generation i + 1.
Proof.
  intros Hdis Hin Hrec. destruct o as [p size st now|p size now|p|p|p gen|meta|meta|p|p
    |oldPath newPath stagedPath now|p|p|p err]; simpl in *; try discriminate;
    rewrite ?andb_true_iff, ?orb_true_iff, ?bool_decide_eq_true in Hrec.
  - subst p. unfold MarkDirtyWithState. rewrite (Hdis _ Hin). simpl. rewrite lookup_insert_eq.
    intros [= <-]. by rewrite applyPathState_generation.
  - destruct Hrec as [<- Hrec]. unfold MarkDirtyAgain in *.
    destruct (dirty i !! p) as [m0|]; [|done]. destruct (d_recorded m0); [|done]. simpl.
    rewrite lookup_insert_eq. by intros [= <-].
  - destruct Hrec as [<- Hne]. unfold RestoreDirty. rewrite decide_False by done.
    rewrite (Hdis _ Hin). simpl. rewrite lookup_insert_eq. by intros [= <-].
  - subst p. unfold Invalidate. destruct (dirty i !! path); [|by destruct Hin]. simpl.
    rewrite lookup_insert_eq. by intros [= <-].
  - unfold Rekey. simpl. destruct (decide (newPath = path)) as [->|Hne].
    + rewrite lookup_insert_eq. by intros [= <-].
    + destruct Hrec as [?|<-]; [done|]. rewrite lookup_insert_ne, lookup_delete_eq by done. done.
Qed.

(** Every operation keeps conflicts and the upload queue apart; [Rekey], as
    its caller does, needs the new name not to be in conflict. *)
Definition rekey_onto_unconflicted (i : DirtyFileIndex) (o : op) : Prop :=
  match o with ORekey _ newPath _ _ => conflicts i !! newPath = None | _ => True end.

Lemma disjoint_shrink i i' :
  disjoint_conflicts i -> conflicts i' = conflicts i ->
  (forall path, is_Some (dirty i' !! path) -> is_Some (dirty i !! path) \/ conflicts i !! path = None) ->
  disjoint_conflicts i'.
Proof. intros Hd Hc Hsub path Hp. rewrite Hc. destruct (Hsub _ Hp); auto. Qed.

Lemma exec_disjoint i o :
  disjoint_conflicts i -> rekey_onto_unconflicted i o -> disjoint_conflicts (exec i o).
Proof.
  intros Hd Hok.
  assert (forall p f, disjoint_conflicts (set_dirty (alter f p) i)) as Halter.
  { intros p f. apply (disjoint_shrink i); [done..|]. intros q. simpl. rewrite lookup_alter.
    case_decide; subst; rewrite ?fmap_is_Some; by left. }
  assert (forall p s, disjoint_conflicts (set_syncing s (set_dirty (delete p) i))) as Hdel.
  { intros p s. apply (disjoint_shrink i); [done..|]. intros q [m Hm]. simpl in Hm.
    apply lookup_delete_Some in Hm as [_ ?]. eauto. }
  assert (forall p m, conflicts i !! p = None ->
    disjoint_conflicts (set_dirty <[p := m]> (nextGenerationLocked i))) as Hins.
  { intros p m Hp. apply (disjoint_shrink i); [done..|]. intros q. simpl. rewrite lookup_insert.
    case_decide; subst; auto. }
  destruct o as [p size st now|p size now|p|p|p gen|meta|meta|p|p
    |oldPath newPath stagedPath now|p|p|p err]; simpl in *; try exact Hd.
  - unfold MarkDirtyWithState. destruct (conflicts i !! p) eqn:E; auto.
  - unfold MarkDirtyAgain. destruct (dirty i !! p) as [m|] eqn:E; [|done].
    destruct (d_recorded m); [|done]. apply Hins, Hd. by rewrite E.
  - apply Halter.
  - apply Hdel.
  - unfold MarkCleanIfUnchanged. destruct (dirty i !! p) as [m|]; [destruct (_ =? _)|]; simpl; try done; apply Hdel.
  - unfold MarkConflicted. case_decide; [done|]. intros q [m Hm]. simpl in *.
    apply lookup_delete_Some in Hm as [Hne Hm]. rewrite lookup_insert_ne by done. apply Hd. eauto.
  - unfold RestoreDirty. case_decide; [done|]. destruct (conflicts i !! d_Path meta) eqn:E; auto.
  - unfold Invalidate. destruct (dirty i !! p) eqn:E; [|done]. apply Hins, Hd. by rewrite E.
  - apply (Hdel p (fun s => s)).
  - unfold Rekey. apply (disjoint_shrink i); [done..|]. intros q. simpl.
    destruct (decide (q = newPath)) as [->|Hne]; [auto|]. rewrite lookup_insert_ne by done.
    intros [m [_ Hm]%lookup_delete_Some]. eauto.
  - unfold LockFile. by case_decide.
  - apply Halter.
Qed.

(** Runs in which every [Rekey] meets its caller's check. *)
Fixpoint run_ok (i : DirtyFileIndex) (ops : list op) : Prop :=
  match ops with
  | [] => True
  | o :: ops' => rekey_onto_unconflicted i o /\ run_ok (exec i o) ops'
  end.

Lemma run_app i ops1 ops2 : run i (ops1 ++ ops2) = run (run i ops1) ops2.
Proof. apply foldl_app. Qed.

Lemma run_ok_app i ops1 ops2 : run_ok i (ops1 ++ ops2) <-> run_ok i ops1 /\ run_ok (run i ops1) ops2.
Proof. revert i. induction ops1 as [|o ops1 IH]; intros i; simpl; [tauto|]. rewrite IH. tauto. Qed.

Lemma run_disjoint i ops : disjoint_conflicts i -> run_ok i ops -> disjoint_conflicts (run i ops).
Proof.
  revert i. induction ops as [|o ops IH]; intros i Hd; simpl; [done|].
  intros [Ho Hops]. apply IH; [by apply exec_disjoint|done].
Qed.

Lemma New_disjoint : disjoint_conflicts NewDirtyFileIndex.
Proof. intros path. simpl. by rewrite lookup_empty. Qed.

(** The operations that end a sync claim. *)
Definition releases_claim (o : op) (path : string) : bool :=
  match o with
  | OMarkClean p | OUnlockFile p | OMarkCleanIfUnchanged p _ => bool_decide (p = path)
  | OMarkConflicted meta => bool_decide (c_Path meta = path)
  | _ => false
  end.

Lemma exec_keeps_claim i o path :
  path ∈ syncing i -> releases_claim o path = false -> path ∈ syncing (exec i o).
Proof.
  intros Hin Hrel. destruct o as [p size st now|p size now|p|p|p gen|meta|meta|p|p
    |oldPath newPath stagedPath now|p|p|p err]; simpl in *; bool_to_prop; try done.
  - unfold MarkDirtyWithState. by case_match.
  - unfold MarkDirtyAgain. by repeat case_match.
  - set_solver.
  - unfold MarkCleanIfUnchanged. repeat case_match; simpl; set_solver.
  - unfold MarkConflicted. case_decide; [done|]. simpl. set_solver.
  - unfold RestoreDirty. by repeat case_match.
  - unfold Invalidate. by case_match.
  - unfold LockFile. case_decide; simpl; set_solver.
  - set_solver.
Qed.

(** ** Properties *)

(** C24. In every index reachable by any sequence of operations no two current
    dirty entries carry the same generation, none is ahead of the counter, and
    each sits under its own path; and no path is both queued and in conflict if no
    operation rekeyed an entry onto a path in conflict, which the caller checks.
    *)
Theorem dirty_index_invariant ops :
  wf (run NewDirtyFileIndex ops) /\
  (run_ok NewDirtyFileIndex ops -> disjoint_conflicts (run NewDirtyFileIndex ops)).
Proof. split; [apply run_wf, New_wf|]. intros Hok. by apply run_disjoint; [apply New_disjoint|]. Qed.

Lemma dirty_index_invariant_witness :
  let ops := [OMarkDirtyWithState "/a" 1 None 5; ORekey "/a" "/b" "s" 6; OMarkDirtyWithState "/a" 2 None 7] in
  wf (run NewDirtyFileIndex ops) /\ disjoint_conflicts (run NewDirtyFileIndex ops).
Proof. split; apply dirty_index_invariant. repeat split. Defined.

(** The test an upload makes before it marks a file clean is exact.  Take
    the generation an entry carries at some point and let any operations
    happen after it: if [MarkCleanIfUnchanged] then accepts that generation for
    a path still listed, the entry still describes the same file; and if any of
    the operations recorded a change of the path, it does not accept. *)
Theorem mark_clean_exactly_if_unchanged i ops path m :
  wf i -> disjoint_conflicts i -> run_ok i ops ->
  dirty i !! path = Some m ->
  let g := d_LocalDirtyGeneration m in
  let i' := run i ops in
  ((MarkCleanIfUnchanged i' path g).1.2 = true -> (MarkCleanIfUnchanged i' path g).2 = true ->
     exists m', dirty i' !! path = Some m' /\ same_file m m') /\
  (forall pre o post, ops = pre ++ o :: post -> is_Some (dirty (run i pre) !! path) ->
     records_change (run i pre) o path = true ->
     (MarkCleanIfUnchanged i' path g).1.2 = true ->
     MarkCleanIfUnchanged i' path g = (i', true, false)).
Proof.
  intros Hwf Hdis Hok Hm g i'. unfold MarkCleanIfUnchanged. split.
  - destruct (dirty i' !! path) as [m'|] eqn:E; simpl; [|done].
    destruct (d_LocalDirtyGeneration m' =? g) eqn:Eg; simpl; [|done]. intros _ _.
    exists m'. split; [done|]. apply Z.eqb_eq in Eg. pose proof (wf_issued _ Hwf _ _ Hm).
    destruct (run_old_entry i ops path m' Hwf E) as (m0 & Hm0 & Hs); [lia|]. by simplify_eq.
  - intros pre o post -> Hin Hrec. destruct (dirty i' !! path) as [m'|] eqn:E; simpl; [|done].
    destruct (d_LocalDirtyGeneration m' =? g) eqn:Eg; simpl; [|done]. exfalso.
    apply run_ok_app in Hok as [Hok1 [Hok2 _]]. unfold i' in E. rewrite run_app in E. simpl in E.
    assert (wf (exec (run i pre) o)) as Hwf1 by auto with bluestone.
    pose proof (wf_issued _ Hwf _ _ Hm). pose proof (run_counter i pre Hwf).
    pose proof (ev_counter _ _ (exec_evolves (run i pre) o (run_wf _ _ Hwf))).
    apply Z.eqb_eq in Eg.
    destruct (run_old_entry _ _ path m' Hwf1 E) as (m1 & Hm1 & (Hs & _)); [lia|].
    apply (records_change_fresh (run i pre)) in Hm1; [lia| |done|done].
    by apply run_disjoint.
Qed.

(** A write that lands while the upload of generation 1 runs. *)
Lemma mark_clean_exactly_if_unchanged_witness :
  let i := run NewDirtyFileIndex [OMarkDirtyWithState "/a" 1 None 5] in
  let ops := [OLockFile "/a"; OInvalidate "/a"] in
  MarkCleanIfUnchanged (run i ops) "/a" 1 = (run i ops, true, false).
Proof.
  intros i ops. destruct (dirty i !! "/a") as [m|] eqn:Hm; [|by vm_compute in Hm].
  pose proof (mark_clean_exactly_if_unchanged i ops "/a" m) as Hthm. simpl in Hthm.
  assert (d_LocalDirtyGeneration m = 1) as Hg by (vm_compute in Hm; by simplify_eq).
  rewrite Hg in Hthm. apply Hthm with (pre := [OLockFile "/a"]) (o := OInvalidate "/a") (post := []).
  - apply run_wf, New_wf.
  - by apply run_disjoint; [apply New_disjoint|].
  - repeat split.
  - exact Hm.
  - reflexivity.
  - eexists. vm_compute. reflexivity.
  - reflexivity.
  - reflexivity.
Defined.

(** A sync claim is exclusive: between a successful [LockFile] and the
    release of the claim ([UnlockFile], or the marking clean or conflicted of
    that path), whatever else happens, every other [LockFile] of the path is
    refused. *)
Theorem sync_claim_exclusive i path ops :
  (LockFile i path).2 = true -> Forall (fun o => releases_claim o path = false) ops ->
  let i' := run (LockFile i path).1 ops in
  LockFile i' path = (i', false) /\ IsSyncing i' path = true.
Proof.
  intros Hlock Hops i'. assert (path ∈ syncing i') as Hin.
  { unfold i', LockFile in *. destruct (decide (path ∈ syncing i)) as [|Hnot]; [done|]. simpl.
    assert (path ∈ syncing (set_syncing (fun s => {[path]} ∪ s) i)) as Hstart by (simpl; set_solver).
    revert Hstart. generalize (set_syncing (fun s => {[path]} ∪ s) i). clear -Hops.
    induction Hops as [|o ops Ho Hops IH]; intros j Hj; simpl; [done|].
    apply IH. by apply exec_keeps_claim. }
  unfold LockFile, IsSyncing. rewrite decide_True by done. by rewrite bool_decide_eq_true_2.
Qed.

Lemma sync_claim_exclusive_witness :
  let i' := run (LockFile NewDirtyFileIndex "/a").1 [OMarkDirtyWithState "/a" 1 None 5; OUnlockFile "/b"] in
  LockFile i' "/a" = (i', false) /\ IsSyncing i' "/a" = true.
Proof. apply sync_claim_exclusive; [reflexivity|repeat constructor]. Defined.

End DirtyIndex.
