(* ===== verification/Disk.v ===== *)
(** * The staging directory

    The calls the staging code makes on the operating system, as far as their
    results reach it.  Files live in three name spaces that cannot collide
    (staged data [active/*.data], sidecars [*.metadata], and the records below
    [tombstones] and [lost+found]).  A data file is an inode: an open
    descriptor goes on addressing it after its name is gone or names another.
    A sidecar is kept decoded; [None] is one that does not decode.

    Any call can fail.  [outcomes] says how the next calls end: [None] is
    success, [Some n] a failure, for a write after [n] bytes.  An exhausted
    list means success, so the empty list is the disk that never fails.  Calls
    whose result the code discards (closing a file, removing a temporary one)
    take no outcome.

    [flushed], [older_data] and [older_sidecars] say what a power loss leaves:
    the bytes last flushed for an inode, and for each name the entries it has
    had since the directory was last flushed. *)
From S2P Require Import Prelude StagingTypes.

Module Disk.

(** Errors, wrapped ([fmt.Errorf] with [%w]) or not: [os.IsNotExist] does not
    look inside a wrapped error, [errors.Is] does. *)
Inductive error :=
  | ErrNotExist
  | ErrIO
  | ErrBadMetadata
  | ErrClosed
  | ErrEOF
  | ENOSPC
  | ErrPathConflicted
  | ErrActiveSync
  | ErrSnapshotChanged
  | ErrStore (msg : string)
  | Wrap (e : error).

Definition IsNotExist (e : error) : bool := match e with ErrNotExist => true | _ => false end.

Record inode := mkInode { content : bytes; modtime : Time }.
Record sidecar := mkSidecar { sc_state : option PathMetadataState; sc_flushed : bool }.

Record Disk := mkDisk {
  data : gmap string positive;
  inodes : gmap positive inode;
  sidecars : gmap string sidecar;
  tombstone_files : gmap string (option TombstoneState);
  preserved : gmap string bytes;
  conflict_files : gmap string (option ConflictMetadata);
  outcomes : list (option nat);
  flushed : gmap positive bytes;
  older_data : gmap string (list (option positive));
  older_sidecars : gmap string (list (option (option PathMetadataState)))
}.

Definition set_data f (d : Disk) := mkDisk (f (data d)) (inodes d) (sidecars d)
  (tombstone_files d) (preserved d) (conflict_files d) (outcomes d) (flushed d)
  (older_data d) (older_sidecars d).
Definition set_inodes f (d : Disk) := mkDisk (data d) (f (inodes d)) (sidecars d)
  (tombstone_files d) (preserved d) (conflict_files d) (outcomes d) (flushed d)
  (older_data d) (older_sidecars d).
Definition set_sidecars f (d : Disk) := mkDisk (data d) (inodes d) (f (sidecars d))
  (tombstone_files d) (preserved d) (conflict_files d) (outcomes d) (flushed d)
  (older_data d) (older_sidecars d).
Definition set_tombstone_files f (d : Disk) := mkDisk (data d) (inodes d) (sidecars d)
  (f (tombstone_files d)) (preserved d) (conflict_files d) (outcomes d) (flushed d)
  (older_data d) (older_sidecars d).
Definition set_preserved f (d : Disk) := mkDisk (data d) (inodes d) (sidecars d)
  (tombstone_files d) (f (preserved d)) (conflict_files d) (outcomes d) (flushed d)
  (older_data d) (older_sidecars d).
Definition set_conflict_files f (d : Disk) := mkDisk (data d) (inodes d) (sidecars d)
  (tombstone_files d) (preserved d) (f (conflict_files d)) (outcomes d) (flushed d)
  (older_data d) (older_sidecars d).
Definition set_outcomes o (d : Disk) := mkDisk (data d) (inodes d) (sidecars d)
  (tombstone_files d) (preserved d) (conflict_files d) o (flushed d)
  (older_data d) (older_sidecars d).
Definition set_flushed f (d : Disk) := mkDisk (data d) (inodes d) (sidecars d)
  (tombstone_files d) (preserved d) (conflict_files d) (outcomes d) (f (flushed d))
  (older_data d) (older_sidecars d).
Definition set_older fd fs (d : Disk) := mkDisk (data d) (inodes d) (sidecars d)
  (tombstone_files d) (preserved d) (conflict_files d) (outcomes d) (flushed d)
  (fd (older_data d)) (fs (older_sidecars d)).

Definition empty_disk : Disk := mkDisk ∅ ∅ ∅ ∅ ∅ ∅ [] ∅ ∅ ∅.

(** The next call's outcome. *)
Definition os_call (d : Disk) : Disk * option nat :=
  match outcomes d with
  | [] => (d, None)
  | o :: rest => (set_outcomes rest d, o)
  end.

(** A call that changes nothing the model keeps ([MkdirAll], [Close], ...). *)
Definition os_try (d : Disk) : Disk * option error :=
  let '(d, o) := os_call d in (d, match o with None => None | Some _ => Some ErrIO end).

(** Calls in sequence, up to the first that fails. *)
Fixpoint os_tries (n : nat) (d : Disk) : Disk * option error :=
  match n with
  | O => (d, None)
  | S n' => match os_try d with
            | (d, None) => os_tries n' d
            | (d, Some e) => (d, Some e)
            end
  end.

(** ** What a power loss may leave under a name *)

Definition sidecar_outcomes (d : Disk) (name : string) : list (option (option PathMetadataState)) :=
  match sidecars d !! name with
  | None => [None]
  | Some sc => Some (sc_state sc) :: if sc_flushed sc then [] else [Some None]
  end ++ default [] (older_sidecars d !! name).

Definition data_outcomes (d : Disk) (name : string) : list (option positive) :=
  (data d !! name) :: default [] (older_data d !! name).

(** ** Directory entries *)

(** Put [sc] in the place of the sidecar [name], as [os.Rename] does. *)
Definition install_sidecar (d : Disk) (name : string) (sc : option sidecar) : Disk :=
  let before := sidecar_outcomes d name in
  set_older id <[name := before]>
    (set_sidecars (fun m => match sc with Some s => <[name := s]> m | None => delete name m end) d).

Definition remove_sidecar (d : Disk) (name : string) : Disk * option error :=
  match os_try d with
  | (d, Some e) => (d, Some e)
  | (d, None) =>
      match sidecars d !! name with
      | None => (d, Some ErrNotExist)
      | Some _ => (install_sidecar d name None, None)
      end
  end.

Definition link_data (d : Disk) (name : string) (ino : option positive) : Disk :=
  let before := data_outcomes d name in
  set_older <[name := before]> id
    (set_data (fun m => match ino with Some i => <[name := i]> m | None => delete name m end) d).

Definition remove_data (d : Disk) (name : string) : Disk * option error :=
  match os_try d with
  | (d, Some e) => (d, Some e)
  | (d, None) =>
      match data d !! name with
      | None => (d, Some ErrNotExist)
      | Some _ => (link_data d name None, None)
      end
  end.

(** [os.Rename] of a staged data file. *)
Definition rename_data (d : Disk) (oldName newName : string) : Disk * option error :=
  match os_try d with
  | (d, Some e) => (d, Some e)
  | (d, None) =>
      match data d !! oldName with
      | None => (d, Some ErrNotExist)
      | Some ino =>
          if decide (oldName = newName) then (d, None)
          else (link_data (link_data d newName (Some ino)) oldName None, None)
      end
  end.

(** [syncDir] of the directory staged files and sidecars are in. *)
Definition syncDir (d : Disk) : Disk * option error :=
  match os_tries 2 d with
  | (d, Some e) => (d, Some e)
  | (d, None) => (set_older (fun _ => ∅) (fun _ => ∅) d, None)
  end.

(** ** Staged data files *)

Definition bytes_at (d : Disk) (ino : positive) : bytes := from_option content [] (inodes d !! ino).

(** [os.OpenFile] with [O_RDWR|O_CREATE]. *)
Definition open_or_create (d : Disk) (name : string) (now : Time) : Disk * (positive + error) :=
  match os_try d with
  | (d, Some e) => (d, inr e)
  | (d, None) =>
      match data d !! name with
      | Some ino => (d, inl ino)
      | None =>
          let ino := fresh (dom (inodes d)) in
          (link_data (set_inodes <[ino := mkInode [] now]> d) name (Some ino), inl ino)
      end
  end.

(** [os.Open]. *)
Definition open_data (d : Disk) (name : string) : Disk * (positive + error) :=
  match os_try d with
  | (d, Some e) => (d, inr e)
  | (d, None) => (d, match data d !! name with Some ino => inl ino | None => inr ErrNotExist end)
  end.

(** [os.Stat] of a data file, and [os.Lstat] of a sidecar. *)
Definition stat_data (d : Disk) (name : string) : Disk * (inode + error) :=
  match os_try d with
  | (d, Some e) => (d, inr e)
  | (d, None) =>
      (d, match data d !! name with
          | Some ino => match inodes d !! ino with Some i => inl i | None => inr ErrIO end
          | None => inr ErrNotExist
          end)
  end.

Definition lstat_sidecar (d : Disk) (name : string) : Disk * option error :=
  match os_try d with
  | (d, Some e) => (d, Some e)
  | (d, None) => (d, match sidecars d !! name with Some _ => None | None => Some ErrNotExist end)
  end.

(** [n] zero bytes. *)
Definition zeros (n : Z) : bytes := replicate (Z.to_nat n) x00.

(** The bytes after a write of [buf] at [off]: what is between the old end
    and [off] reads as zeros. *)
Definition pwrite (file : bytes) (off : Z) (buf : bytes) : bytes :=
  if decide (buf = []) then file
  else take (Z.to_nat off) file ++ zeros (off - len file) ++ buf ++ drop (Z.to_nat (off + len buf)) file.

Definition ftruncate (file : bytes) (size : Z) : bytes :=
  take (Z.to_nat size) file ++ zeros (size - len file).

Definition pread (file : bytes) (off n : Z) : bytes :=
  take (Z.to_nat n) (drop (Z.to_nat off) file).

Definition set_content (now : Time) (b : bytes) (d : Disk) (ino : positive) : Disk :=
  set_inodes <[ino := mkInode b now]> d.

(** [Seek] then [Write]: the number of bytes written, and the error. *)
Definition file_write (d : Disk) (ino : positive) (off : Z) (buf : bytes) (now : Time)
    : Disk * Z * option error :=
  match os_try d with
  | (d, Some e) => (d, 0, Some (Wrap e))
  | (d, None) =>
      if off <? 0 then (d, 0, Some (Wrap ErrIO))
      else
        let '(d, o) := os_call d in
        match o with
        | None => (set_content now (pwrite (bytes_at d ino) off buf) d ino, len buf, None)
        | Some k =>
            let done := take k buf in
            (set_content now (pwrite (bytes_at d ino) off done) d ino, len done, Some (Wrap ErrIO))
        end
  end.

Definition file_truncate (d : Disk) (ino : positive) (size : Z) (now : Time) : Disk * option error :=
  match os_try d with
  | (d, Some e) => (d, Some e)
  | (d, None) =>
      if size <? 0 then (d, Some ErrIO)
      else (set_content now (ftruncate (bytes_at d ino) size) d ino, None)
  end.

(** [Sync]: what the file holds is on disk. *)
Definition file_sync (d : Disk) (ino : positive) : Disk * option error :=
  match os_try d with
  | (d, Some e) => (d, Some e)
  | (d, None) => (set_flushed <[ino := bytes_at d ino]> d, None)
  end.

(** ** Files as bytes *)

Lemma length_zeros n : 0 <= n -> len (zeros n) = n.
Proof. intros. unfold zeros. rewrite length_replicate. lia. Qed.

Lemma zeros_nonpos n : n <= 0 -> zeros n = [].
Proof. intros. unfold zeros. by replace (Z.to_nat n) with 0%nat by lia. Qed.

Lemma length_pwrite file off buf :
  0 <= off -> buf <> [] -> len (pwrite file off buf) = Z.max (len file) (off + len buf).
Proof.
  intros Ho Hb. unfold pwrite, zeros. rewrite decide_False by done.
  rewrite !length_app, length_take, length_replicate, length_drop. lia.
Qed.

Lemma length_ftruncate file size : 0 <= size -> len (ftruncate file size) = size.
Proof. intros. unfold ftruncate, zeros. rewrite length_app, length_take, length_replicate. lia. Qed.

Lemma lookup_zeros n i : zeros n !! i = if decide (Z.of_nat i < n) then Some x00 else None.
Proof.
  unfold zeros. case_decide.
  - apply lookup_replicate_2. lia.
  - apply lookup_ge_None_2. rewrite length_replicate. lia.
Qed.

(** Byte [i] after a write. *)
Lemma lookup_pwrite file off buf i :
  0 <= off -> buf <> [] ->
  pwrite file off buf !! i =
  if decide (off <= Z.of_nat i < off + len buf) then buf !! (i - Z.to_nat off)%nat
  else if decide (Z.of_nat i < len file) then file !! i
  else if decide (Z.of_nat i < off) then Some x00 else None.
Proof.
  intros Ho Hb. unfold pwrite. rewrite decide_False by done.
  assert (length (take (Z.to_nat off) file) = (Z.to_nat off `min` length file)%nat) as Hlt
    by apply length_take.
  destruct (decide (Z.of_nat i < off)) as [Hlow|Hlow].
  { rewrite decide_False by lia. destruct (decide (Z.of_nat i < len file)) as [Hin|Hin].
    - rewrite lookup_app_l by lia. apply lookup_take_lt. lia.
    - rewrite lookup_app_r, lookup_app_l by (rewrite ?Hlt; unfold zeros; rewrite ?length_replicate; lia).
      rewrite lookup_zeros, Hlt. rewrite decide_True by lia. done. }
  rewrite lookup_app_r by lia. rewrite Hlt, lookup_app_r by (unfold zeros; rewrite length_replicate; lia).
  unfold zeros. rewrite length_replicate.
  replace (i - Z.to_nat off `min` length file - Z.to_nat (off - len file))%nat
    with (i - Z.to_nat off)%nat by lia.
  destruct (decide (off <= Z.of_nat i < off + len buf)) as [Hmid|Hmid].
  - apply lookup_app_l. lia.
  - rewrite lookup_app_r, lookup_drop by lia.
    replace (Z.to_nat (off + len buf) + (i - Z.to_nat off - length buf))%nat with i by lia.
    destruct (decide (Z.of_nat i < len file)); [done|]. apply lookup_ge_None_2. lia.
Qed.

(** Reading back what was written. *)
Lemma pread_pwrite file off buf :
  0 <= off -> pread (pwrite file off buf) off (len buf) = buf.
Proof.
  intros Ho. unfold pread. apply list_eq. intros i.
  destruct (decide (buf = [])) as [->|Hb]; [done|].
  destruct (decide (i < length buf)%nat) as [Hi|Hi].
  - rewrite lookup_take_lt, lookup_drop, lookup_pwrite by (done || lia).
    rewrite decide_True by lia. f_equal. lia.
  - rewrite lookup_take_ge by lia. symmetry. apply lookup_ge_None_2. lia.
Qed.

(** ** What calls leave alone *)

(** Two disks that differ only in how later calls end. *)
Definition same_files (d d' : Disk) : Prop := exists o, d' = set_outcomes o d.

Lemma same_files_refl d : same_files d d.
Proof. exists (outcomes d). by destruct d. Qed.

Lemma same_files_trans d1 d2 d3 : same_files d1 d2 -> same_files d2 d3 -> same_files d1 d3.
Proof. intros [o ->] [o' ->]. by exists o'. Qed.

Lemma os_call_same d d' o : os_call d = (d', o) -> same_files d d'.
Proof.
  unfold os_call. destruct (outcomes d) as [|x r]; intros [= <- <-]; [apply same_files_refl|].
  by exists r.
Qed.

Lemma os_try_same d d' e : os_try d = (d', e) -> same_files d d'.
Proof.
  unfold os_try. destruct (os_call d) as [d1 o] eqn:E. intros [= <- <-]. by eapply os_call_same.
Qed.

Lemma os_tries_same n d d' e : os_tries n d = (d', e) -> same_files d d'.
Proof.
  revert d. induction n as [|n IH]; intros d; simpl.
  - intros [= <- <-]. apply same_files_refl.
  - destruct (os_try d) as [d1 [e1|]] eqn:E; intros H.
    + injection H as <- <-. by eapply os_try_same.
    + eapply same_files_trans; [by eapply os_try_same|by eapply IH].
Qed.

(** A disk on which every call succeeds stays one. *)
Lemma os_call_reliable d : outcomes d = [] -> os_call d = (d, None).
Proof. unfold os_call. by intros ->. Qed.
Lemma os_try_reliable d : outcomes d = [] -> os_try d = (d, None).
Proof. unfold os_try. intros H. by rewrite os_call_reliable. Qed.
Lemma os_tries_reliable n d : outcomes d = [] -> os_tries n d = (d, None).
Proof. intros H. induction n; simpl; [done|]. by rewrite os_try_reliable. Qed.

#[global] Arguments os_tries : simpl never.
#[global] Arguments os_try : simpl never.

End Disk.
