(* ===== verification/PathState.v ===== *)
(** * Sidecars ([internal/staging/path_state.go])

    The durable per-path record kept next to a staged data file: reading it,
    and replacing it so that once a client was told its bytes are on stable
    storage, a power loss cannot leave the file without it. *)
From S2P Require Import Prelude StagingTypes Disk.

Module PathState.
Import Disk.

(** The fields an older or partial record leaves blank. *)
Definition fill_defaults (st : PathMetadataState) : PathMetadataState :=
  mkPathState (if p_Version st =? 0 then pathMetadataVersion else p_Version st)
    (p_OriginalPath st)
    (if decide (p_ObjectKey st = "") then objectKeyFromPath (p_OriginalPath st) else p_ObjectKey st)
    (p_ObservedETag st) (p_ObservedSize st) (p_ObservedLastModified st) (p_StagedFilePath st)
    (if decide (p_ConflictStatus st = "") then ConflictStatusNone else p_ConflictStatus st)
    (p_DirtySince st) (p_Attributes st) (p_Committed st).

Definition readPathMetadataState (d : Disk) (metadataPath : string)
    : Disk * (PathMetadataState + error) :=
  match os_try d with
  | (d, Some e) => (d, inr e)
  | (d, None) =>
      (d, match sidecars d !! metadataPath with
          | None => inr ErrNotExist
          | Some sc =>
              match sc_state sc with
              | None => inr ErrBadMetadata
              | Some state =>
                  if decide (p_OriginalPath state = "") then inr ErrBadMetadata
                  else inl (fill_defaults state)
              end
          end)
  end.

(** [writeSidecarFile]: the file is written under a temporary name nothing
    reads; a durable one is opened, written, flushed and closed. *)
Definition writeSidecarFile (d : Disk) (durable : bool) : Disk * option error :=
  os_tries (if durable then 4 else 1) d.

(** [writePathMetadataState]: the disk, the state as the call leaves it, and
    the error. *)
Definition writePathMetadataState (d : Disk) (metadataPath : string) (state : PathMetadataState)
    : Disk * PathMetadataState * option error :=
  let state := fill_defaults state in
  let '(d, state) :=
    if p_Committed state then (d, state)
    else match readPathMetadataState d metadataPath with
         | (d, inl replaced) =>
             (d, if p_Committed replaced then set_p_Committed true state else state)
         | (d, inr _) => (d, state)
         end in
  match os_try d with
  | (d, Some e) => (d, state, Some e)
  | (d, None) =>
      match writeSidecarFile d (p_Committed state) with
      | (d, Some e) => (d, state, Some e)
      | (d, None) =>
          match os_try d with
          | (d, Some e) => (d, state, Some e)
          | (d, None) =>
              (install_sidecar d metadataPath
                 (Some (mkSidecar (Some state) (p_Committed state))), state, None)
          end
      end
  end.

Definition dirtyMetadataFromPathState (state : PathMetadataState) (size : Z) (modTime : Time)
    : DirtyFileMetadata := {|
  d_Path := p_OriginalPath state;
  d_ObjectKey := if decide (p_ObjectKey state = "")
                 then objectKeyFromPath (p_OriginalPath state) else p_ObjectKey state;
  d_ObservedETag := p_ObservedETag state;
  d_ObservedSize := p_ObservedSize state;
  d_ObservedLastModified := p_ObservedLastModified state;
  d_LocalDirtyGeneration := 0;
  d_StagedPath := p_StagedFilePath state;
  d_ConflictStatus := p_ConflictStatus state;
  d_Size := size;
  d_DirtySince := if IsZero (p_DirtySince state) then modTime else p_DirtySince state;
  d_LastModified := modTime;
  d_SyncAttempts := 0;
  d_LastSyncError := None;
  d_recorded := false |}.

(** ** Lemmas *)

Lemma fill_defaults_idem st : fill_defaults (fill_defaults st) = fill_defaults st.
Proof.
  unfold fill_defaults. f_equal; cbn [p_Version p_OriginalPath p_ObjectKey p_ConflictStatus].
  - by destruct (Z.eqb_spec (p_Version st) 0); [|rewrite (proj2 (Z.eqb_neq _ _))].
  - by destruct (decide (p_ObjectKey st = "")); case_decide.
  - by destruct (decide (p_ConflictStatus st = "")); case_decide.
Qed.

Lemma fill_defaults_committed b st :
  fill_defaults st = st -> fill_defaults (set_p_Committed b st) = set_p_Committed b st.
Proof. destruct st. unfold fill_defaults. simpl. intros [= H1 H2 H3]. by rewrite H1, H2, H3. Qed.

Lemma read_same d mp d' r : readPathMetadataState d mp = (d', r) -> same_files d d'.
Proof.
  unfold readPathMetadataState. destruct (os_try d) as [d1 [e|]] eqn:E; intros [= <- <-];
    by eapply os_try_same.
Qed.

Lemma read_Some d mp d' st :
  readPathMetadataState d mp = (d', inl st) -> exists sc raw,
    sidecars d !! mp = Some sc /\ sc_state sc = Some raw /\ st = fill_defaults raw /\
    p_OriginalPath st <> "".
Proof.
  unfold readPathMetadataState. destruct (os_try d) as [d1 [e|]] eqn:E; [done|].
  apply os_try_same in E as [o ->]. simpl. intros [= <- Hr].
  destruct (sidecars d !! mp) as [sc|]; [|done]. destruct (sc_state sc) as [raw|] eqn:Es; [|done].
  case_decide; [done|]. simplify_eq. by exists sc, raw.
Qed.

Lemma read_installed d mp sc raw :
  outcomes d = [] -> sidecars d !! mp = Some sc -> sc_state sc = Some raw ->
  p_OriginalPath raw <> "" -> readPathMetadataState d mp = (d, inl (fill_defaults raw)).
Proof.
  intros Hr Hs Hst Hp. unfold readPathMetadataState. rewrite os_try_reliable, Hs, Hst by done.
  by rewrite decide_False.
Qed.

(** A write either fails and leaves every file as it was, or installs the
    state it returns, with the fields the caller gave. *)
Definition keeps_fields (st st' : PathMetadataState) : Prop :=
  p_OriginalPath st' = p_OriginalPath st /\ p_StagedFilePath st' = p_StagedFilePath st /\
  p_DirtySince st' = p_DirtySince st /\ p_Attributes st' = p_Attributes st /\
  (p_Committed st = true -> p_Committed st' = true).

Lemma write_cases d mp st d' st' err :
  writePathMetadataState d mp st = (d', st', err) ->
  keeps_fields st st' /\ fill_defaults st' = st' /\
  exists d0, same_files d d0 /\
    ((exists e, err = Some e) /\ d' = d0 \/
     err = None /\ d' = install_sidecar d0 mp (Some (mkSidecar (Some st') (p_Committed st')))).
Proof.
  unfold writePathMetadataState.
  set (st1 := fill_defaults st) in *.
  destruct (if p_Committed st1 then _ else _) as [d1 st2] eqn:E1.
  assert (same_files d d1 /\ (st2 = st1 \/ st2 = set_p_Committed true st1)) as [Hd1 Hst2].
  { destruct (p_Committed st1); [injection E1 as <- <-; split; [apply same_files_refl|by left]|].
    destruct (readPathMetadataState d mp) as [dr [r|e]] eqn:Er; injection E1 as <- <-;
      (split; [by eapply read_same|]); [destruct (p_Committed r)|]; eauto. }
  assert (keeps_fields st st2 /\ fill_defaults st2 = st2) as Hk.
  { destruct Hst2 as [->| ->].
    - split; [done|apply fill_defaults_idem].
    - split; [done|apply fill_defaults_committed, fill_defaults_idem]. }
  destruct (os_try d1) as [d2 [e2|]] eqn:E2.
  { intros [= <- <- <-]. split; [tauto|split; [tauto|]]. exists d2. split; [|left; eauto].
    eapply same_files_trans; [done|by eapply os_try_same]. }
  destruct (writeSidecarFile d2 _) as [d3 [e3|]] eqn:E3.
  { intros [= <- <- <-]. split; [tauto|split; [tauto|]]. exists d3. split; [|left; eauto].
    eapply same_files_trans; [done|]. eapply same_files_trans; [by eapply os_try_same|].
    by eapply os_tries_same. }
  assert (same_files d d3) as Hd3.
  { eapply same_files_trans; [done|]. eapply same_files_trans; [by eapply os_try_same|].
    by eapply os_tries_same. }
  destruct (os_try d3) as [d4 [e4|]] eqn:E4; intros [= <- <- <-]; (split; [tauto|split; [tauto|]]).
  - exists d4. split; [|left; eauto]. eapply same_files_trans; [done|by eapply os_try_same].
  - exists d4. split; [|by right]. eapply same_files_trans; [done|by eapply os_try_same].
Qed.

(** On a disk whose calls succeed, so does a write. *)
Lemma write_reliable d mp st d' st' err :
  outcomes d = [] -> writePathMetadataState d mp st = (d', st', err) ->
  err = None /\ outcomes d' = [].
Proof.
  intros Hr. unfold writePathMetadataState, readPathMetadataState, writeSidecarFile.
  rewrite os_try_reliable by done.
  match goal with |- context [let '(_, _) := ?x in _] => destruct x as [d1 st1] eqn:E1 end.
  assert (d1 = d) as -> by (repeat case_match; by simplify_eq).
  rewrite os_try_reliable, os_tries_reliable, os_try_reliable by done.
  by intros [= <- <- <-].
Qed.

Lemma sidecar_outcomes_same d d' mp :
  same_files d d' -> sidecar_outcomes d' mp = sidecar_outcomes d mp.
Proof. by intros [o ->]. Qed.

Lemma sidecar_outcomes_install d mp sc :
  sidecar_outcomes (install_sidecar d mp (Some sc)) mp =
  (Some (sc_state sc) :: if sc_flushed sc then [] else [Some None]) ++ sidecar_outcomes d mp.
Proof.
  unfold sidecar_outcomes at 1, install_sidecar. simpl. by rewrite !lookup_insert_eq.
Qed.

Lemma sidecar_outcomes_install_ne d mp mp' sc :
  mp' <> mp -> sidecar_outcomes (install_sidecar d mp sc) mp' = sidecar_outcomes d mp'.
Proof.
  intros Hne. unfold sidecar_outcomes, install_sidecar. simpl.
  destruct sc; by rewrite ?lookup_insert_ne, ?lookup_delete_ne by done.
Qed.

(** A sidecar that no power loss can take away or damage: whatever entry is
    found under its name decodes and is committed. *)
Definition survives (d : Disk) (mp : string) : Prop :=
  Forall (fun o => exists st, o = Some (Some st) /\ p_Committed st = true /\ p_OriginalPath st <> "")
    (sidecar_outcomes d mp).

Lemma survives_current d mp :
  survives d mp -> exists sc st, sidecars d !! mp = Some sc /\ sc_state sc = Some st /\
    sc_flushed sc = true /\ p_Committed st = true /\ p_OriginalPath st <> "".
Proof.
  unfold survives, sidecar_outcomes. destruct (sidecars d !! mp) as [sc|].
  - destruct (sc_flushed sc) eqn:Ef; intros H; simpl in H; inversion H as [|? ? (st & Hst & Hc & Hp) Hrest]; subst.
    + exists sc, st. simplify_eq. done.
    + apply Forall_app in Hrest as [Hx _] || idtac. inversion Hrest as [|? ? (? & ? & _)]; done.
  - simpl. intros H. inversion H as [|? ? (st & Hst & _)]; done.
Qed.

(** ** Properties *)

(** Once a sidecar survives a power loss, replacing it keeps that true,
    whichever call fails on the way, provided the replacement is marked
    committed or the sidecar being replaced could be read; and a replacement
    that succeeds is itself marked committed. *)
Theorem committed_sidecar_replaced_durably d mp st d' st' err :
  survives d mp -> p_OriginalPath st <> "" ->
  p_Committed st = true \/ (os_try d).2 = None ->
  writePathMetadataState d mp st = (d', st', err) ->
  survives d' mp /\ p_Committed st' = true.
Proof.
  intros Hs Hp Hread Hw. assert (p_Committed st' = true) as Hc.
  { pose proof (write_cases _ _ _ _ _ _ Hw) as ((_ & _ & _ & _ & Hc) & _).
    destruct (p_Committed st) eqn:E; [by apply Hc|]. destruct Hread as [?|Hok]; [done|].
    destruct (survives_current _ _ Hs) as (sc & old & Hsc & Hst & _ & Hold & Hop).
    unfold writePathMetadataState in Hw.
    change (p_Committed (fill_defaults st)) with (p_Committed st) in Hw. rewrite E in Hw.
    unfold readPathMetadataState in Hw. destruct (os_try d) as [d1 e1] eqn:E1. simpl in Hok. subst e1.
    apply os_try_same in E1 as [o ->]. simpl in Hw. rewrite Hsc, Hst in Hw.
    rewrite decide_False in Hw by done.
    change (p_Committed (fill_defaults old)) with (p_Committed old) in Hw. rewrite Hold in Hw.
    repeat case_match; simplify_eq; done. }
  split; [|done].
  pose proof (write_cases _ _ _ _ _ _ Hw) as ((Ho & _) & _ & d0 & Hd0 & [[_ ->]|[_ ->]]).
  - unfold survives. by rewrite (sidecar_outcomes_same _ _ _ Hd0).
  - unfold survives. rewrite sidecar_outcomes_install, (sidecar_outcomes_same _ _ _ Hd0). simpl.
    rewrite Hc. simpl. constructor; [|done]. exists st'. rewrite Ho. done.
Qed.

Definition committed_state : PathMetadataState :=
  set_p_Committed true (set_p_OriginalPath "/a" (blank_state "a" "none")).
Definition committed_disk : Disk :=
  install_sidecar empty_disk "m" (Some (mkSidecar (Some committed_state) true)).

Lemma committed_sidecar_replaced_durably_witness :
  let d := set_older id (fun _ => ∅) committed_disk in
  let w := writePathMetadataState d "m" (set_p_Committed false committed_state) in
  survives w.1.1 "m" /\ p_Committed w.1.2 = true.
Proof.
  intros d w. apply (committed_sidecar_replaced_durably d "m" (set_p_Committed false committed_state)
    w.1.1 w.1.2 w.2).
  - unfold survives. vm_compute. repeat constructor. eexists. split; [reflexivity|]. done.
  - done.
  - right. reflexivity.
  - reflexivity.
Defined.

(** The proviso is needed: when the read of the sidecar being replaced
    fails, a committed sidecar is replaced by one that was never flushed, and
    after a power loss the file may have none that decodes. *)
Theorem committed_sidecar_lost_when_unreadable :
  exists d st, survives d "m" /\ p_OriginalPath st = "/a" /\
    (writePathMetadataState d "m" st).2 = None /\
    ~ survives (writePathMetadataState d "m" st).1.1 "m" /\
    Some None ∈ sidecar_outcomes (writePathMetadataState d "m" st).1.1 "m".
Proof.
  exists (set_outcomes [Some 0%nat] (set_older id (fun _ => ∅) committed_disk)),
    (set_p_Committed false committed_state).
  assert (Some None ∈ sidecar_outcomes (writePathMetadataState
    (set_outcomes [Some 0%nat] (set_older id (fun _ => ∅) committed_disk)) "m"
    (set_p_Committed false committed_state)).1.1 "m") as Hin.
  { vm_compute. right. left. }
  split_and!.
  - unfold survives. vm_compute. repeat constructor. eexists. split; [reflexivity|]. done.
  - done.
  - reflexivity.
  - intros H. unfold survives in H. rewrite Forall_forall in H. apply H in Hin as (st & ? & _). done.
  - exact Hin.
Qed.

(** What was written is what is read back, with the committed mark of the
    sidecar it replaced. *)
Theorem sidecar_round_trip d mp st :
  outcomes d = [] -> p_OriginalPath st <> "" ->
  let '(d', st', err) := writePathMetadataState d mp st in
  err = None /\ keeps_fields st st' /\ readPathMetadataState d' mp = (d', inl st').
Proof.
  intros Hr Hp. destruct (writePathMetadataState d mp st) as [[d' st'] err] eqn:E.
  pose proof (write_cases _ _ _ _ _ _ E) as (Hk & Hf & d0 & _ & Hcase).
  destruct (write_reliable _ _ _ _ _ _ Hr E) as [-> Hr'].
  split_and!; [done|done|]. destruct Hcase as [[[? ?] _]|[_ ->]]; [done|].
  rewrite (read_installed _ _ (mkSidecar (Some st') (p_Committed st')) st'); try done.
  - by rewrite Hf.
  - simpl. apply lookup_insert_eq.
  - destruct Hk as [-> _]. done.
Qed.

Lemma sidecar_round_trip_witness :
  readPathMetadataState (writePathMetadataState empty_disk "m" committed_state).1.1 "m" =
    ((writePathMetadataState empty_disk "m" committed_state).1.1, inl committed_state).
Proof.
  pose proof (sidecar_round_trip empty_disk "m" committed_state) as H.
  destruct (writePathMetadataState empty_disk "m" committed_state) as [[d' st'] err] eqn:E.
  vm_compute in E. injection E as <- <- <-. apply H; done.
Defined.

End PathState.
