(* ===== verification/Session.v ===== *)
(** * Write sessions ([internal/staging/session.go], [session_upload.go],
      [multipart.go], and the session side of [attributes.go] and
      [session_discard.go])

    A session stages one path: an open descriptor ([w_File], an inode) and what
    is known about the file.  Each operation takes the session's lock, so it is
    one step on the session and the disk; [now] is [time.Now()].  The mode,
    owner, times and streams the code keeps as separate fields are the record
    [w_attrs].

    The point of the component is [detachFromUploadsLocked]: a write that
    arrives while an upload reads the staging file moves the session to a new
    file, so that the upload's bytes never change. *)
From S2P Require Import Prelude StagingTypes Disk PathState.

Module Multipart.

(** A progressive multipart upload. *)
Record S3MultipartState := mkMultipart {
  UploadID : string;
  PartSize : Z;
  NextOffset : Z;
  MinModifiedOffset : Z;
  CompletedParts : list (Z * string);
  Active : bool
}.

Definition NewS3MultipartState (partSizeMB : Z) : S3MultipartState :=
  let partSizeMB := if partSizeMB <? 5 then 20 else partSizeMB in
  mkMultipart "" (partSizeMB * 1024 * 1024) 0 0 [] false.

Definition MarkModified (s : S3MultipartState) (offset : Z) : S3MultipartState :=
  if (offset <? MinModifiedOffset s) || (NextOffset s =? 0)
  then mkMultipart (UploadID s) (PartSize s) (NextOffset s) offset (CompletedParts s) (Active s)
  else s.

Definition IsSequential (s : S3MultipartState) : bool := NextOffset s <=? MinModifiedOffset s.

Definition AddCompletedPart (s : S3MultipartState) (partNumber : Z) (etag : string)
    : S3MultipartState :=
  let next := NextOffset s + PartSize s in
  mkMultipart (UploadID s) (PartSize s) next next (CompletedParts s ++ [(partNumber, etag)]) (Active s).

Definition GetNextUploadRange (s : S3MultipartState) : Z * Z :=
  (NextOffset s, NextOffset s + PartSize s).

Definition Reset (s : S3MultipartState) : S3MultipartState :=
  mkMultipart "" (PartSize s) 0 0 [] false.

End Multipart.

Module Session.
Import Disk PathState Multipart.

Record WriteSession := mkSession {
  w_Path : string;
  w_StagingPath : string;
  w_File : option positive;
  w_Size : Z;
  w_Dirty : bool;
  w_Prefetched : bool;
  w_RefCount : Z;
  w_LastWrite : Time;
  w_LastAccess : Time;
  w_CreatedAt : Time;
  w_Multipart : S3MultipartState;
  w_attrs : StagedAttributes;
  w_attributesSet : bool;
  w_written : bool;
  w_uploadReaders : Z;
  w_fileGeneration : Z;
  w_metadataVersion : Z;
  w_committedMetadataVersion : Z
}.

(** Naming: path, staging path and metadata version. *)
Definition renamed (path stagingPath : string) (w : WriteSession) : WriteSession :=
  mkSession path stagingPath (w_File w) (w_Size w) (w_Dirty w) (w_Prefetched w) (w_RefCount w)
    (w_LastWrite w) (w_LastAccess w) (w_CreatedAt w) (w_Multipart w) (w_attrs w)
    (w_attributesSet w) (w_written w) (w_uploadReaders w) (w_fileGeneration w)
    (w_metadataVersion w + 1) (w_committedMetadataVersion w).

Definition set_file (f : option positive) (w : WriteSession) : WriteSession :=
  mkSession (w_Path w) (w_StagingPath w) f (w_Size w) (w_Dirty w) (w_Prefetched w) (w_RefCount w)
    (w_LastWrite w) (w_LastAccess w) (w_CreatedAt w) (w_Multipart w) (w_attrs w)
    (w_attributesSet w) (w_written w) (w_uploadReaders w) (w_fileGeneration w)
    (w_metadataVersion w) (w_committedMetadataVersion w).

Definition set_size (size : Z) (dirty prefetched : bool) (w : WriteSession) : WriteSession :=
  mkSession (w_Path w) (w_StagingPath w) (w_File w) size dirty prefetched (w_RefCount w)
    (w_LastWrite w) (w_LastAccess w) (w_CreatedAt w) (w_Multipart w) (w_attrs w)
    (w_attributesSet w) (w_written w) (w_uploadReaders w) (w_fileGeneration w)
    (w_metadataVersion w) (w_committedMetadataVersion w).

Definition set_refs (refs : Z) (w : WriteSession) : WriteSession :=
  mkSession (w_Path w) (w_StagingPath w) (w_File w) (w_Size w) (w_Dirty w) (w_Prefetched w) refs
    (w_LastWrite w) (w_LastAccess w) (w_CreatedAt w) (w_Multipart w) (w_attrs w)
    (w_attributesSet w) (w_written w) (w_uploadReaders w) (w_fileGeneration w)
    (w_metadataVersion w) (w_committedMetadataVersion w).

Definition set_times (lastWrite lastAccess : Time) (w : WriteSession) : WriteSession :=
  mkSession (w_Path w) (w_StagingPath w) (w_File w) (w_Size w) (w_Dirty w) (w_Prefetched w)
    (w_RefCount w) lastWrite lastAccess (w_CreatedAt w) (w_Multipart w) (w_attrs w)
    (w_attributesSet w) (w_written w) (w_uploadReaders w) (w_fileGeneration w)
    (w_metadataVersion w) (w_committedMetadataVersion w).

Definition set_attrs (attrs : StagedAttributes) (set : bool) (w : WriteSession) : WriteSession :=
  mkSession (w_Path w) (w_StagingPath w) (w_File w) (w_Size w) (w_Dirty w) (w_Prefetched w)
    (w_RefCount w) (w_LastWrite w) (w_LastAccess w) (w_CreatedAt w) (w_Multipart w) attrs
    set (w_written w) (w_uploadReaders w) (w_fileGeneration w)
    (w_metadataVersion w) (w_committedMetadataVersion w).

Definition set_multipart (m : S3MultipartState) (written : bool) (w : WriteSession) : WriteSession :=
  mkSession (w_Path w) (w_StagingPath w) (w_File w) (w_Size w) (w_Dirty w) (w_Prefetched w)
    (w_RefCount w) (w_LastWrite w) (w_LastAccess w) (w_CreatedAt w) m (w_attrs w)
    (w_attributesSet w) written (w_uploadReaders w) (w_fileGeneration w)
    (w_metadataVersion w) (w_committedMetadataVersion w).

Definition set_readers (readers fileGen : Z) (w : WriteSession) : WriteSession :=
  mkSession (w_Path w) (w_StagingPath w) (w_File w) (w_Size w) (w_Dirty w) (w_Prefetched w)
    (w_RefCount w) (w_LastWrite w) (w_LastAccess w) (w_CreatedAt w) (w_Multipart w) (w_attrs w)
    (w_attributesSet w) (w_written w) readers fileGen
    (w_metadataVersion w) (w_committedMetadataVersion w).

Definition set_versions (version committed : Z) (w : WriteSession) : WriteSession :=
  mkSession (w_Path w) (w_StagingPath w) (w_File w) (w_Size w) (w_Dirty w) (w_Prefetched w)
    (w_RefCount w) (w_LastWrite w) (w_LastAccess w) (w_CreatedAt w) (w_Multipart w) (w_attrs w)
    (w_attributesSet w) (w_written w) (w_uploadReaders w) (w_fileGeneration w) version committed.

Definition default_attributes : StagedAttributes :=
  mkAttributes 384 1000 1000 0 0 ∅ 0 0.

(** The sidecar's name ([pathMetadataPath]). *)
Definition pathMetadataPath (stagingPath : string) : string := stagingPath +:+ ".metadata".

(** [StagingManager.EnsurePathMetadata]. *)
Definition EnsurePathMetadata (d : Disk) (path stagingPath : string) : Disk * option error :=
  let metadataPath := pathMetadataPath stagingPath in
  match readPathMetadataState d metadataPath with
  | (d, inr e) =>
      if IsNotExist e then
        let state := blank_state (objectKeyFromPath path) ConflictStatusNone in
        let '(d, _, err) := writePathMetadataState d metadataPath
          (set_p_StagedFilePath stagingPath (set_p_OriginalPath path state)) in
        (d, err)
      else (d, Some e)
  | (d, inl state) =>
      if decide (p_OriginalPath state = path /\ p_StagedFilePath state = stagingPath) then (d, None)
      else
        let '(d, _, err) := writePathMetadataState d metadataPath
          (set_p_StagedFilePath stagingPath (set_p_OriginalPath path state)) in
        (d, err)
  end.

(** [NewWriteSession].  A sidecar that cannot be written is only reported. *)
Definition NewWriteSession (d : Disk) (path stagingPath : string) (now : Time)
    : Disk * (WriteSession + error) :=
  match open_or_create d stagingPath now with
  | (d, inr e) => (d, inr (Wrap e))
  | (d, inl file) =>
      match os_try d with
      | (d, Some e) => (d, inr (Wrap e))
      | (d, None) =>
          let size := len (bytes_at d file) in
          let '(d, _) := EnsurePathMetadata d path stagingPath in
          (d, inl (mkSession path stagingPath (Some file) size false false 1 now now now
             (NewS3MultipartState 20) default_attributes false (0 <? size) 0 0 1 0))
      end
  end.

(** ** Attributes *)

Definition metadataChanged (w : WriteSession) : WriteSession :=
  set_versions (w_metadataVersion w + 1) (w_committedMetadataVersion w) w.

Definition metadataCommitted (w : WriteSession) (version : Z) : WriteSession :=
  if w_committedMetadataVersion w <? version
  then set_versions (w_metadataVersion w) version w else w.

(** [persistSessionAttributes]: a session without a sidecar is skipped. *)
Definition persistAttributes (d : Disk) (w : WriteSession) : Disk * WriteSession :=
  if negb (w_attributesSet w) then (d, w)
  else
    let metadataPath := pathMetadataPath (w_StagingPath w) in
    match readPathMetadataState d metadataPath with
    | (d, inr _) => (d, w)
    | (d, inl state) =>
        match writePathMetadataState d metadataPath (set_p_Attributes (Some (w_attrs w)) state) with
        | (d, _, Some _) => (d, w)
        | (d, _, None) => (d, metadataChanged w)
        end
    end.

Definition updateAttributes (d : Disk) (w : WriteSession)
    (change : StagedAttributes -> StagedAttributes) : Disk * WriteSession :=
  persistAttributes d (set_attrs (change (w_attrs w)) true w).

Definition SeedAttributes (d : Disk) (w : WriteSession) (attrs : StagedAttributes)
    : Disk * WriteSession :=
  if w_attributesSet w then (d, w) else persistAttributes d (set_attrs attrs true w).

Definition SetMode (d : Disk) (w : WriteSession) (mode : Z) :=
  updateAttributes d w (fun a => mkAttributes mode (a_UID a) (a_GID a) (a_Btime a)
    (a_WindowsAttributes a) (a_Streams a) (a_Atime a) (a_Mtime a)).
Definition SetOwner (d : Disk) (w : WriteSession) (uid gid : Z) :=
  updateAttributes d w (fun a => mkAttributes (a_Mode a) uid gid (a_Btime a)
    (a_WindowsAttributes a) (a_Streams a) (a_Atime a) (a_Mtime a)).
Definition SetBirthTime (d : Disk) (w : WriteSession) (btime : Time) :=
  updateAttributes d w (fun a => mkAttributes (a_Mode a) (a_UID a) (a_GID a) btime
    (a_WindowsAttributes a) (a_Streams a) (a_Atime a) (a_Mtime a)).
Definition SetWindowsAttributes (d : Disk) (w : WriteSession) (flags : Z) :=
  updateAttributes d w (fun a => mkAttributes (a_Mode a) (a_UID a) (a_GID a) (a_Btime a)
    flags (a_Streams a) (a_Atime a) (a_Mtime a)).
Definition SetStreams (d : Disk) (w : WriteSession) (streams : gmap string bytes) :=
  updateAttributes d w (fun a => mkAttributes (a_Mode a) (a_UID a) (a_GID a) (a_Btime a)
    (a_WindowsAttributes a) streams (a_Atime a) (a_Mtime a)).
Definition SetTimes (d : Disk) (w : WriteSession) (atime mtime : Time) :=
  updateAttributes d w (fun a => mkAttributes (a_Mode a) (a_UID a) (a_GID a) (a_Btime a)
    (a_WindowsAttributes a) (a_Streams a)
    (if IsZero atime then a_Atime a else atime) (if IsZero mtime then a_Mtime a else mtime)).

Definition SetCreationIfUnset (d : Disk) (w : WriteSession) (btime : Time) (mode : Z)
    : Disk * WriteSession :=
  if w_attributesSet w then (d, w)
  else
    let a := w_attrs w in
    persistAttributes d (set_attrs (mkAttributes (if mode =? 0 then a_Mode a else mode) (a_UID a)
      (a_GID a) btime (a_WindowsAttributes a) (a_Streams a) (a_Atime a) (a_Mtime a)) true w).

Definition restoreAttributes (w : WriteSession) (attrs : StagedAttributes) : WriteSession :=
  set_attrs attrs true w.

(** [sessionAttributesIfSet] of a session there is. *)
Definition stagedAttributes (w : WriteSession) : option StagedAttributes :=
  if w_attributesSet w then Some (w_attrs w) else None.

(** ** Uploads *)

Record UploadSnapshot := mkSnapshot {
  s_File : positive;
  s_Size : Z;
  s_LastWrite : Time;
  s_PartSize : Z;
  s_generation : Z
}.

(** The copy [detachFromUploadsLocked] makes of the bytes a change keeps,
    flushed before the new file takes the old one's name. *)
Definition copy_kept (d : Disk) (w : WriteSession) (tmp : positive) (keepBytes : Z) (now : Time)
    : Disk * option error :=
  if 0 <? keepBytes then
    match w_File w, os_tries 2 d with
    | None, _ => (d, Some (Wrap ErrClosed))
    | Some _, (d, Some e) => (d, Some (Wrap e))
    | Some file, (d, None) =>
        let old := bytes_at d file in
        if len old <? keepBytes then (d, Some (Wrap ErrEOF))
        else
          match file_sync (set_content now (take (Z.to_nat keepBytes) old) d tmp) tmp with
          | (d, Some e) => (d, Some (Wrap e))
          | (d, None) => (d, None)
          end
    end
  else (d, None).

(** [detachFromUploadsLocked].  The new file gets the first [keepBytes] bytes,
    is flushed, and takes the staging path's name. *)
Definition detachFromUploadsLocked (d : Disk) (w : WriteSession) (keepBytes : Z) (now : Time)
    : Disk * WriteSession * option error :=
  if w_uploadReaders w =? 0 then (d, w, None)
  else
    match os_try d with
    | (d, Some e) => (d, w, Some (Wrap e))
    | (d, None) =>
        let tmp := fresh (dom (inodes d)) in
        match copy_kept (set_content now [] d tmp) w tmp keepBytes now with
        | (d, Some e) => (d, w, Some e)
        | (d, None) =>
            match os_try d with
            | (d, Some e) => (d, w, Some (Wrap e))
            | (d, None) =>
                (link_data d (w_StagingPath w) (Some tmp),
                 metadataChanged (set_readers 0 (w_fileGeneration w + 1) (set_file (Some tmp) w)),
                 None)
            end
        end
    end.

(** [flushThen]: flush the file; [None] is a session that is closed, and
    [Some] the result of the flush, after which the code acts. *)
Definition flush (d : Disk) (w : WriteSession) : Disk * option (option error) :=
  match w_File w with
  | None => (d, None)
  | Some file =>
      match file_sync d file with
      | (d, Some e) => (d, Some (Some (Wrap e)))
      | (d, None) => (d, Some None)
      end
  end.

(** [Sync] and [syncToDisk]. *)
Definition Sync (d : Disk) (w : WriteSession) : Disk * option error :=
  match flush d w with
  | (d, None) => (d, Some (Wrap ErrClosed))
  | (d, Some err) => (d, err)
  end.

Definition syncToDisk (d : Disk) (w : WriteSession) : Disk * (string * Z + error) :=
  match flush d w with
  | (d, None) => (d, inl ("", 0))
  | (d, Some (Some e)) => (d, inr e)
  | (d, Some None) =>
      (d, inl (w_StagingPath w,
               if w_metadataVersion w =? w_committedMetadataVersion w then 0 else w_metadataVersion w))
  end.

Definition OpenUploadSnapshot (d : Disk) (w : WriteSession)
    : Disk * WriteSession * (UploadSnapshot + error) :=
  match flush d w with
  | (d, None) => (d, w, inr ErrClosed)
  | (d, Some (Some e)) => (d, w, inr e)
  | (d, Some None) =>
      match open_data d (w_StagingPath w) with
      | (d, inr e) => (d, w, inr (Wrap e))
      | (d, inl file) =>
          (d, set_readers (w_uploadReaders w + 1) (w_fileGeneration w) w,
           inl (mkSnapshot file (w_Size w) (w_LastWrite w) (PartSize (w_Multipart w))
                  (w_fileGeneration w)))
      end
  end.

(** [UploadSnapshot.Close], the first time it is called. *)
Definition CloseSnapshot (w : WriteSession) (s : UploadSnapshot) : WriteSession :=
  if (w_fileGeneration w =? s_generation s) && (0 <? w_uploadReaders w)
  then set_readers (w_uploadReaders w - 1) (w_fileGeneration w) w else w.

(** ** Reading and changing the staged file *)

(** [write]: bytes written, whether a client's modification time was
    dropped, and the error; [write_at] is what follows the detach. *)
Definition write_at (d : Disk) (w : WriteSession) (buf : bytes) (offset : Z) (now : Time)
    : Disk * WriteSession * (Z * bool * option error) :=
  match w_File w with
  | None => (d, w, (0, false, Some (Wrap ErrClosed)))
  | Some file =>
      let '(d, n, err) := file_write d file offset buf now in
      match err with
      | Some e => (d, w, (n, false, Some e))
      | None =>
          let newSize := offset + n in
          let a := w_attrs w in
          let dropped := negb (IsZero (a_Mtime a)) in
          let w := set_size (if w_Size w <? newSize then newSize else w_Size w) true (w_Prefetched w) w in
          let w := set_multipart (MarkModified (w_Multipart w) offset) true w in
          let w := set_times now now w in
          let w := set_attrs (mkAttributes (a_Mode a) (a_UID a) (a_GID a) (a_Btime a)
            (a_WindowsAttributes a) (a_Streams a) (a_Atime a) 0) (w_attributesSet w) w in
          (d, w, (n, dropped, None))
      end
  end.

Definition write (d : Disk) (w : WriteSession) (buf : bytes) (offset : Z) (now : Time)
    : Disk * WriteSession * (Z * bool * option error) :=
  match detachFromUploadsLocked d w (w_Size w) now with
  | (d, w, Some e) => (d, w, (0, false, Some e))
  | (d, w, None) => write_at d w buf offset now
  end.

(** [Write] after the staging space was reserved (see the manager). *)
Definition write_persisting (d : Disk) (w : WriteSession) (buf : bytes) (offset : Z) (now : Time)
    : Disk * WriteSession * (Z * option error) :=
  let '(d, w, (n, dropped, err)) := write d w buf offset now in
  let '(d, w) := if dropped then persistAttributes d w else (d, w) in
  (d, w, (n, err)).

(** [Read] of up to [n] bytes. *)
Definition Read (d : Disk) (w : WriteSession) (n : Z) (offset : Z) (now : Time)
    : Disk * WriteSession * (bytes + error) :=
  if w_Size w <=? offset then (d, w, inr ErrEOF)
  else
    match w_File w, os_tries 2 d with
    | None, _ => (d, w, inr (Wrap ErrClosed))
    | Some _, (d, Some e) => (d, w, inr (Wrap e))
    | Some file, (d, None) =>
        if offset <? 0 then (d, w, inr (Wrap ErrIO))
        else
          let got := pread (bytes_at d file) offset n in
          let w := set_times (w_LastWrite w) now w in
          (d, w, if (0 <? n) && bool_decide (got = []) then inr ErrEOF else inl got)
    end.

(** [Truncate] after the staging space was reserved. *)
Definition truncate (d : Disk) (w : WriteSession) (size : Z) (now : Time)
    : Disk * WriteSession * option error :=
  match detachFromUploadsLocked d w (Z.min size (w_Size w)) now with
  | (d, w, Some e) => (d, w, Some e)
  | (d, w, None) =>
      match w_File w with
      | None => (d, w, Some (Wrap ErrClosed))
      | Some file =>
          match file_truncate d file size now with
          | (d, Some e) => (d, w, Some (Wrap e))
          | (d, None) =>
              let firstChanged := if w_Size w <? size then w_Size w else size in
              let m := MarkModified (w_Multipart w) firstChanged in
              let w := set_multipart m (if size =? 0 then false else w_written w) w in
              (d, set_times now now (set_size size true (w_Prefetched w) w), None)
          end
      end
  end.

(** [Prefetch]: the fetcher, given as what it does to the disk, runs once. *)
Definition Prefetch (d : Disk) (w : WriteSession) (fetcher : Disk -> Disk * option error) (now : Time)
    : Disk * WriteSession * option error :=
  if w_Prefetched w then (d, w, None)
  else
    match detachFromUploadsLocked d w 0 now with
    | (d, w, Some e) => (d, w, Some e)
    | (d, w, None) =>
        match fetcher d with
        | (d, Some e) =>
            (match w_File w with
             | Some file => (file_truncate d file (w_Size w) now).1
             | None => d
             end, w, Some e)
        | (d, None) =>
            match w_File w, os_try d with
            | Some file, (d, None) => (d, set_size (len (bytes_at d file)) (w_Dirty w) true w, None)
            | _, (d, _) => (d, set_size (w_Size w) (w_Dirty w) true w, None)
            end
        end
    end.

Definition Close (w : WriteSession) : WriteSession := set_file None w.

Definition GetSize (w : WriteSession) : Z := w_Size w.
Definition GetRefCount (w : WriteSession) : Z := w_RefCount w.
Definition IncrementRefCount (w : WriteSession) : WriteSession := set_refs (w_RefCount w + 1) w.
Definition DecrementRefCount (w : WriteSession) : WriteSession :=
  if w_RefCount w <=? 0 then w else set_refs (w_RefCount w - 1) w.

(** [Rekey] and [moveStagingFile]. *)
Definition Rekey (w : WriteSession) (newPath newStagingPath : string) : WriteSession :=
  renamed newPath newStagingPath w.
Definition stagingPathIs (w : WriteSession) (stagingPath : string) : bool :=
  bool_decide (w_StagingPath w = stagingPath).
Definition moveStagingFile (d : Disk) (w : WriteSession) (newStagingPath : string)
    (move : Disk -> Disk * option error) : Disk * WriteSession * option error :=
  match move d with
  | (d, Some e) => (d, w, Some e)
  | (d, None) => (d, renamed (w_Path w) newStagingPath w, None)
  end.

Definition hasNoStagedData (w : WriteSession) : bool :=
  negb (w_Dirty w) && negb (w_Prefetched w) && (w_Size w =? 0).
Definition holdsNoWrittenData (w : WriteSession) : bool :=
  if Active (w_Multipart w) then false
  else (w_Size w =? 0) || (negb (w_written w) && negb (w_Prefetched w)).

End Session.
