(* ===== verification/SessionSafety.v ===== *)
(** * What write sessions guarantee

    The staged file behaves like a plain file whether or not uploads are
    reading it, and an upload's bytes stay as they were when it began. *)
From S2P Require Import Prelude StagingTypes Disk PathState Session.

Module SessionSafety.
Import Disk PathState Multipart Session.

(** The bytes a session stages. *)
Definition staged (d : Disk) (w : WriteSession) : bytes :=
  match w_File w with Some file => bytes_at d file | None => [] end.

(** An open session whose size is its file's. *)
Definition sized (d : Disk) (w : WriteSession) : Prop :=
  exists file, w_File w = Some file /\ file ∈ dom (inodes d) /\ w_Size w = len (bytes_at d file).

(** Every inode of [d] is unchanged in [d']. *)
Definition keeps_inodes (d d' : Disk) : Prop :=
  forall i, i ∈ dom (inodes d) -> inodes d' !! i = inodes d !! i.

Lemma keeps_inodes_refl d : keeps_inodes d d.
Proof. done. Qed.

Lemma keeps_inodes_dom d d' i : keeps_inodes d d' -> i ∈ dom (inodes d) -> i ∈ dom (inodes d').
Proof. intros H Hi. apply elem_of_dom. rewrite H by done. by apply elem_of_dom. Qed.

Lemma keeps_inodes_trans d1 d2 d3 : keeps_inodes d1 d2 -> keeps_inodes d2 d3 -> keeps_inodes d1 d3.
Proof.
  intros H12 H23 i Hi. rewrite <-(H12 i) by done. apply H23. by eapply keeps_inodes_dom.
Qed.

Lemma keeps_inodes_bytes d d' i :
  keeps_inodes d d' -> i ∈ dom (inodes d) -> bytes_at d' i = bytes_at d i.
Proof. intros H Hi. unfold bytes_at. by rewrite H. Qed.

Lemma same_files_keeps d d' : same_files d d' -> keeps_inodes d d'.
Proof. by intros [o ->]. Qed.
Lemma same_files_data d d' : same_files d d' -> data d' = data d.
Proof. by intros [o ->]. Qed.

Lemma bytes_at_set_content now b d i : bytes_at (set_content now b d i) i = b.
Proof. unfold bytes_at, set_content. simpl. by rewrite lookup_insert_eq. Qed.
Lemma bytes_at_set_content_ne now b d i j : i <> j -> bytes_at (set_content now b d i) j = bytes_at d j.
Proof. intros. unfold bytes_at, set_content. simpl. by rewrite lookup_insert_ne. Qed.

Lemma set_content_keeps now b d i : i ∉ dom (inodes d) -> keeps_inodes d (set_content now b d i).
Proof. intros Hi j Hj. simpl. rewrite lookup_insert_ne; [done|]. by intros ->. Qed.

(** The sidecar operations touch no data file. *)
Lemma write_sidecar_data d mp st d' st' err :
  writePathMetadataState d mp st = (d', st', err) -> data d' = data d /\ inodes d' = inodes d.
Proof. intros (_ & _ & d0 & [o ->] & [[_ ->]|[_ ->]])%write_cases; done. Qed.

Lemma persist_data d w d' w' :
  persistAttributes d w = (d', w') ->
  data d' = data d /\ inodes d' = inodes d /\ (w' = w \/ w' = metadataChanged w).
Proof.
  unfold persistAttributes. destruct (w_attributesSet w); simpl; [|intros [= <- <-]; auto].
  destruct (readPathMetadataState d _) as [d1 [st|e]] eqn:Er; apply read_same in Er as [o ->].
  - destruct (writePathMetadataState _ _ _) as [[d2 st2] [e|]] eqn:Ew;
      apply write_sidecar_data in Ew as [Hd Hi]; intros [= <- <-]; auto.
  - intros [= <- <-]. auto.
Qed.

(** ** Moving a session to a new file *)

(** The copy writes nothing but the new file. *)
Lemma copy_kept_frame d w tmp keep now d' err :
  copy_kept d w tmp keep now = (d', err) ->
  data d' = data d /\ dom (inodes d) ⊆ dom (inodes d') /\
  forall i, i <> tmp -> inodes d' !! i = inodes d !! i.
Proof.
  unfold copy_kept. destruct (0 <? keep); [|intros [= <- <-]; done].
  destruct (w_File w) as [file|]; [|intros [= <- <-]; done].
  destruct (os_tries 2 d) as [d1 [e1|]] eqn:E1; apply os_tries_same in E1 as [o ->];
    [intros [= <- <-]; done|].
  destruct (len _ <? keep); [intros [= <- <-]; done|]. unfold file_sync.
  destruct (os_try _) as [d2 [e2|]] eqn:E2; apply os_try_same in E2 as [o2 ->];
    intros [= <- <-]; simpl; (split; [done|split; [set_solver|]]); intros i Hi;
    by rewrite lookup_insert_ne.
Qed.

(** The new file holds the bytes kept. *)
Lemma copy_kept_ok d w tmp keep now d' :
  copy_kept d w tmp keep now = (d', None) -> w_File w <> Some tmp -> bytes_at d tmp = [] ->
  bytes_at d' tmp = take (Z.to_nat keep) (staged d w) /\
  (0 < keep -> exists file, w_File w = Some file /\ keep <= len (bytes_at d file)).
Proof.
  unfold copy_kept, staged. intros Hc Hne Hempty. destruct (0 <? keep) eqn:Ek; bool_to_prop.
  - destruct (w_File w) as [file|]; [|done].
    destruct (os_tries 2 d) as [d1 [e1|]] eqn:E1; [done|]. apply os_tries_same in E1 as [o1 ->].
    change (bytes_at (set_outcomes o1 d) file) with (bytes_at d file) in Hc.
    destruct (len _ <? keep) eqn:El; [done|]. bool_to_prop. unfold file_sync in Hc.
    destruct (os_try _) as [d2 [e2|]] eqn:E2; [done|]. apply os_try_same in E2 as [o2 ->].
    injection Hc as <-. split; [|eauto]. unfold bytes_at at 1. simpl. by rewrite lookup_insert_eq.
  - injection Hc as <-. replace (Z.to_nat keep) with 0%nat by lia. split; [done|lia].
Qed.

Lemma detach_error d w keep now d' w' e :
  detachFromUploadsLocked d w keep now = (d', w', Some e) ->
  w' = w /\ data d' = data d /\ keeps_inodes d d'.
Proof.
  unfold detachFromUploadsLocked. destruct (w_uploadReaders w =? 0); [done|].
  destruct (os_try d) as [d1 [e1|]] eqn:E1; apply os_try_same in E1 as [o ->];
    [intros [= <- <- <-]; done|].
  set (tmp := fresh _). assert (tmp ∉ dom (inodes d)) as Hfresh by apply is_fresh.
  destruct (copy_kept _ w tmp keep now) as [d2 c] eqn:E2.
  apply copy_kept_frame in E2 as (Hd2 & _ & Hi2).
  assert (keeps_inodes d d2) as Hk.
  { intros i Hi. assert (i <> tmp) by (by intros ->). rewrite Hi2 by done. simpl.
    by rewrite lookup_insert_ne. }
  destruct c; [intros [= <- <- <-]; done|].
  destruct (os_try d2) as [d5 [e5|]] eqn:E5; [|done]. apply os_try_same in E5 as [o5 ->].
  by intros [= <- <- <-].
Qed.

(** What a successful detach leaves: the session as it was with no reader, or
    the same session on a new file holding the bytes kept. *)
Lemma detach_ok d w keep now d' w' :
  (forall file, w_File w = Some file -> file ∈ dom (inodes d)) ->
  detachFromUploadsLocked d w keep now = (d', w', None) ->
  w_uploadReaders w = 0 /\ d' = d /\ w' = w \/
  w_uploadReaders w <> 0 /\ exists tmp,
    (tmp ∉ dom (inodes d)) /\ tmp ∈ dom (inodes d') /\ keeps_inodes d d' /\
    data d' = <[w_StagingPath w := tmp]> (data d) /\
    w' = metadataChanged (set_readers 0 (w_fileGeneration w + 1) (set_file (Some tmp) w)) /\
    bytes_at d' tmp = take (Z.to_nat keep) (staged d w) /\
    (0 < keep -> exists file, w_File w = Some file /\ keep <= len (bytes_at d file)).
Proof.
  intros Hfile. unfold detachFromUploadsLocked. destruct (w_uploadReaders w =? 0) eqn:Er; bool_to_prop.
  { intros [= <- <-]. by left. }
  intros H. right. split; [done|]. revert H.
  destruct (os_try d) as [d1 [e1|]] eqn:E1; [done|]. apply os_try_same in E1 as [o1 ->].
  set (tmp := fresh _). assert (tmp ∉ dom (inodes d)) as Hfresh by apply is_fresh.
  destruct (copy_kept _ w tmp keep now) as [d2 [c|]] eqn:E2; [done|].
  destruct (os_try d2) as [d5 [e5|]] eqn:E5; [done|]. apply os_try_same in E5 as [o5 ->].
  intros [= <- <-]. exists tmp.
  assert (forall f, w_File w = Some f -> bytes_at (set_content now [] (set_outcomes o1 d) tmp) f = bytes_at d f) as Hb.
  { intros f Hf. apply (bytes_at_set_content_ne now [] (set_outcomes o1 d)).
    intros <-. by apply Hfresh, Hfile. }
  apply copy_kept_ok in E2 as E3; [|by intros Hf%Hfile|apply bytes_at_set_content].
  destruct E3 as [Hbytes Hlen]. apply copy_kept_frame in E2 as (Hd2 & Hdom & Hi2).
  split_and!; try done.
  - apply Hdom. simpl. set_solver.
  - intros i Hi. simpl. assert (i <> tmp) by (by intros ->). rewrite Hi2 by done. simpl.
    by rewrite lookup_insert_ne.
  - simpl. by rewrite Hd2.
  - change (bytes_at d2 tmp = take (Z.to_nat keep) (staged d w)). rewrite Hbytes.
    unfold staged. destruct (w_File w) eqn:Ef; [|done]. by rewrite Hb.
  - intros Hk. destruct (Hlen Hk) as (f & Hf & Hl). exists f. by rewrite <-Hb.
Qed.

(** ** The staged file as a file *)

Lemma sized_open d w : sized d w -> forall file, w_File w = Some file -> file ∈ dom (inodes d).
Proof. intros (f & Hf & Hd & _) file H. congruence. Qed.

(** Whether or not uploads hold the file, a change starts from a file with
    the bytes it keeps. *)
Lemma detach_sized d w keep now d' w' :
  sized d w -> 0 <= keep <= w_Size w ->
  detachFromUploadsLocked d w keep now = (d', w', None) ->
  w_Size w' = w_Size w /\ w_Multipart w' = w_Multipart w /\ w_attrs w' = w_attrs w /\
  w_StagingPath w' = w_StagingPath w /\
  exists file, w_File w' = Some file /\ file ∈ dom (inodes d') /\
    take (Z.to_nat keep) (bytes_at d' file) = take (Z.to_nat keep) (staged d w) /\
    (bytes_at d' file = staged d w \/ bytes_at d' file = take (Z.to_nat keep) (staged d w)).
Proof.
  intros Hs Hkeep Hd. apply detach_ok in Hd; [|by eapply sized_open].
  destruct Hd as [(_ & -> & ->)|(_ & tmp & _ & Hdom & _ & _ & -> & Hb & _)]; (do 4 (split; [done|])).
  - destruct Hs as (f & Hf & Hd & _). exists f. unfold staged. rewrite Hf. eauto.
  - exists tmp. rewrite Hb. split_and!; [done|done| |by right]. by rewrite take_take, Nat.min_id.
Qed.

Lemma ftruncate_take file size keep :
  0 <= size -> keep = Z.min size (len file) ->
  ftruncate (take (Z.to_nat keep) file) size = ftruncate file size.
Proof.
  intros Hs ->. unfold ftruncate. rewrite take_take, length_take.
  destruct (decide (size <= len file)).
  - rewrite !zeros_nonpos by lia. f_equal. f_equal. lia.
  - f_equal; [|f_equal; lia]. rewrite !take_ge by lia. done.
Qed.

Lemma sized_staged d w : sized d w -> w_Size w = len (staged d w).
Proof. intros (f & Hf & _ & Hs). unfold staged. by rewrite Hf. Qed.

(** A write that succeeds is the write of a plain file. *)
Lemma write_ok d w buf off now d' w' n dropped :
  sized d w -> buf <> [] -> write d w buf off now = (d', w', (n, dropped, None)) ->
  n = len buf /\ 0 <= off /\ staged d' w' = pwrite (staged d w) off buf /\ sized d' w' /\
  w_Dirty w' = true /\ w_LastWrite w' = now /\ a_Mtime (w_attrs w') = 0.
Proof.
  intros Hs Hb. unfold write. pose proof (sized_staged _ _ Hs) as Hsz.
  destruct (detachFromUploadsLocked d w (w_Size w) now) as [[d1 w1] [e|]] eqn:E1; [done|].
  apply detach_sized in E1 as (Hsize & _ & _ & _ & file & Hf & Hdom & _ & Hbytes); [|done|lia].
  rewrite (take_ge (staged d w)) in Hbytes by lia.
  assert (bytes_at d1 file = staged d w) as Hby by tauto. clear Hbytes.
  unfold write_at, file_write. rewrite Hf. destruct (os_try d1) as [d2 [e2|]] eqn:E2; [done|].
  apply os_try_same in E2 as [o2 ->]. destruct (off <? 0) eqn:Eo; [done|]. bool_to_prop.
  destruct (os_call _) as [d3 [k|]] eqn:E3; [done|]. apply os_call_same in E3 as [o3 ->].
  intros [= <- <- <- <-].
  assert (forall b w0, w_File w0 = Some file -> staged (set_content now b
    (set_outcomes o3 (set_outcomes o2 d1)) file) w0 = b) as Hst.
  { intros b w0 H0. unfold staged. rewrite H0. apply bytes_at_set_content. }
  change (bytes_at (set_outcomes o3 (set_outcomes o2 d1)) file) with (bytes_at d1 file).
  rewrite Hby. split_and!; try done.
  - by apply Hst.
  - exists file. split_and!; [done|simpl; set_solver|].
    rewrite bytes_at_set_content, length_pwrite by done. simpl. zcases.
Qed.

(** So is a truncation. *)
Lemma truncate_ok d w size now d' w' :
  sized d w -> 0 <= size -> truncate d w size now = (d', w', None) ->
  staged d' w' = ftruncate (staged d w) size /\ sized d' w' /\ w_Size w' = size.
Proof.
  intros Hs Hpos. unfold truncate. pose proof (sized_staged _ _ Hs) as Hsz.
  destruct (detachFromUploadsLocked d w _ now) as [[d1 w1] [e|]] eqn:E1; [done|].
  apply detach_sized in E1 as (_ & _ & _ & _ & file & Hf & Hdom & _ & Hbytes); [|done|lia].
  rewrite Hf. unfold file_truncate. destruct (os_try d1) as [d2 [e2|]] eqn:E2; [done|].
  apply os_try_same in E2 as [o2 ->]. rewrite (proj2 (Z.ltb_ge size 0)) by done.
  intros [= <- <-].
  change (bytes_at (set_outcomes o2 d1) file) with (bytes_at d1 file).
  assert (ftruncate (bytes_at d1 file) size = ftruncate (staged d w) size) as ->.
  { destruct Hbytes as [->| ->]; [done|]. apply ftruncate_take; [done|lia]. }
  split_and!; [| |done].
  - unfold staged at 1. simpl. rewrite Hf. apply bytes_at_set_content.
  - exists file. split_and!; [done|simpl; set_solver|].
    rewrite bytes_at_set_content, length_ftruncate by done. done.
Qed.

(** ** An upload's bytes

    One session with the snapshots open on it, each paired with the bytes its
    file held when it was opened. *)
Record World := mkWorld {
  disk : Disk;
  session : WriteSession;
  uploads : list (UploadSnapshot * bytes)
}.

(** What the prefetch fetcher ([posix.OperationsHandler.DownloadToFile]) may
    do: rewrite, in place, the file named [name]. *)
Definition rewrites_only (name : string) (fetcher : Disk -> Disk * option error) : Prop :=
  forall d, data (fetcher d).1 = data d /\ dom (inodes d) ⊆ dom (inodes (fetcher d).1) /\
    forall i, data d !! name <> Some i -> inodes (fetcher d).1 !! i = inodes d !! i.

(** Steps of the session, and of everything else in the staging directory,
    which leaves this session's files alone. *)
Inductive step : World -> World -> Prop :=
  | step_write d w u buf off now :
      step (mkWorld d w u)
        (let '(d', w', _) := write_persisting d w buf off now in mkWorld d' w' u)
  | step_truncate d w u size now :
      step (mkWorld d w u) (let '(d', w', _) := truncate d w size now in mkWorld d' w' u)
  | step_read d w u n off now :
      step (mkWorld d w u) (let '(d', w', _) := Read d w n off now in mkWorld d' w' u)
  | step_prefetch d w u fetcher now :
      w_File w <> None -> rewrites_only (w_StagingPath w) fetcher ->
      step (mkWorld d w u) (let '(d', w', _) := Prefetch d w fetcher now in mkWorld d' w' u)
  | step_open d w u d' w' s :
      OpenUploadSnapshot d w = (d', w', inl s) ->
      step (mkWorld d w u) (mkWorld d' w' ((s, staged d w) :: u))
  | step_close_upload d w u1 u2 s b :
      step (mkWorld d w (u1 ++ (s, b) :: u2)) (mkWorld d (CloseSnapshot w s) (u1 ++ u2))
  | step_attributes d w u change :
      step (mkWorld d w u) (let '(d', w') := updateAttributes d w change in mkWorld d' w' u)
  | step_close d w u : step (mkWorld d w u) (mkWorld d (Close w) u)
  | step_rename d w u newPath newStagingPath :
      step (mkWorld d w u)
        (let '(d', w', err) := moveStagingFile d w newStagingPath
                                 (fun d => rename_data d (w_StagingPath w) newStagingPath) in
         mkWorld d' (match err with None => Rekey w' newPath newStagingPath | Some _ => w' end) u)
  | step_environment d d' w u :
      (w_File w <> None -> data d' !! w_StagingPath w = data d !! w_StagingPath w) ->
      dom (inodes d) ⊆ dom (inodes d') ->
      (forall s b, (s, b) ∈ u -> inodes d' !! s_File s = inodes d !! s_File s) ->
      step (mkWorld d w u) (mkWorld d' w u).

Definition current (w : WriteSession) (u : UploadSnapshot * bytes) : bool :=
  s_generation u.1 =? w_fileGeneration w.

Record inv (x : World) : Prop := mkInv {
  inv_named : forall file, w_File (session x) = Some file ->
    data (disk x) !! w_StagingPath (session x) = Some file /\ file ∈ dom (inodes (disk x));
  inv_bytes : forall s b, (s, b) ∈ uploads x ->
    s_File s ∈ dom (inodes (disk x)) /\ bytes_at (disk x) (s_File s) = b;
  inv_current : forall s b, (s, b) ∈ uploads x -> w_File (session x) = Some (s_File s) ->
    s_generation s = w_fileGeneration (session x);
  inv_past : forall s b, (s, b) ∈ uploads x -> s_generation s <= w_fileGeneration (session x);
  inv_readers : w_uploadReaders (session x) =
    len (List.filter (current (session x)) (uploads x))
}.

(** With no reader counted, no upload reads the session's file. *)
Lemma no_reader_no_upload x s b :
  inv x -> w_uploadReaders (session x) = 0 -> (s, b) ∈ uploads x ->
  w_File (session x) <> Some (s_File s).
Proof.
  intros Hinv Hr Hin Hf. pose proof (inv_current _ Hinv _ _ Hin Hf) as Hgen.
  rewrite (inv_readers _ Hinv) in Hr.
  assert ((s, b) ∈ List.filter (current (session x)) (uploads x)) as Hmem.
  { apply list_elem_of_In, filter_In. split; [by apply list_elem_of_In|].
    unfold current. simpl. by apply Z.eqb_eq. }
  destruct (List.filter _ _); [by apply not_elem_of_nil in Hmem|]. simpl in Hr. lia.
Qed.

(** [inv] depends on the disk and the session only through these. *)
Lemma inv_frame d w u d' w' :
  inv (mkWorld d w u) ->
  w_File w' = w_File w -> w_StagingPath w' = w_StagingPath w ->
  w_fileGeneration w' = w_fileGeneration w -> w_uploadReaders w' = w_uploadReaders w ->
  (w_File w <> None -> data d' !! w_StagingPath w = data d !! w_StagingPath w) ->
  dom (inodes d) ⊆ dom (inodes d') ->
  (forall s b, (s, b) ∈ u -> bytes_at d' (s_File s) = bytes_at d (s_File s)) ->
  inv (mkWorld d' w' u).
Proof.
  intros [Hn Hb Hc Hp Hr] Hf Hsp Hg Hu Hd Hdom Hbytes. simpl in *. split; simpl.
  - intros file. rewrite Hf, Hsp. intros Hfile. destruct (Hn _ Hfile).
    rewrite Hd by congruence. auto.
  - intros s b Hin. destruct (Hb _ _ Hin). rewrite (Hbytes _ _ Hin). auto.
  - intros s b Hin. rewrite Hf, Hg. eauto.
  - intros s b Hin. rewrite Hg. eauto.
  - rewrite Hu, Hr. unfold current. by rewrite Hg.
Qed.

Ltac inv_frame := eapply inv_frame; [eassumption|try done..].

(** Changing the session's own file, which no upload reads, keeps [inv]. *)
Lemma inv_modify d w u now b file :
  inv (mkWorld d w u) -> w_uploadReaders w = 0 -> w_File w = Some file ->
  inv (mkWorld (set_content now b d file) w u).
Proof.
  intros Hinv Hr Hf. inv_frame.
  - simpl. set_solver.
  - intros s b' Hin. apply bytes_at_set_content_ne. intros ->.
    by eapply (no_reader_no_upload (mkWorld d w u)).
Qed.

Lemma inv_detach d w u keep now d' w' err :
  inv (mkWorld d w u) -> detachFromUploadsLocked d w keep now = (d', w', err) ->
  inv (mkWorld d' w' u) /\ (err = None -> w_uploadReaders w' = 0).
Proof.
  intros Hinv. destruct err as [e|].
  - intros (-> & Hd & Hk)%detach_error. split; [|done]. inv_frame.
    + by rewrite Hd.
    + intros i Hi. by eapply keeps_inodes_dom.
    + intros s b Hin. apply keeps_inodes_bytes; [done|]. by apply (inv_bytes _ Hinv _ _ Hin).
  - intros H. apply detach_ok in H; [|intros file Hf; by apply (inv_named _ Hinv)].
    destruct H as [(Hr & -> & ->)|(_ & tmp & Hfresh & Hdom & Hk & Hd & -> & _ & _)]; [done|].
    split; [|done]. destruct Hinv as [Hn Hb Hc Hp Hr]. simpl in *. split; simpl.
    + intros file [= <-]. rewrite Hd, lookup_insert_eq. done.
    + intros s b Hin. destruct (Hb _ _ Hin) as [Hin1 <-].
      split; [by eapply keeps_inodes_dom|by apply keeps_inodes_bytes].
    + intros s b Hin [= ->]. by destruct (Hb _ _ Hin).
    + intros s b Hin. pose proof (Hp _ _ Hin). lia.
    + assert (Forall (fun x => current (metadataChanged (set_readers 0 (w_fileGeneration w + 1)
        (set_file (Some tmp) w))) x = false) u) as Hnone.
      { apply Forall_forall. intros [s b] Hin. unfold current. simpl. apply Z.eqb_neq.
        pose proof (Hp _ _ Hin). lia. }
      clear -Hnone. induction Hnone as [|x l Hx Hl IH]; simpl; [done|]. by rewrite Hx.
Qed.

Lemma file_write_inv d w u file off buf now d' n err :
  inv (mkWorld d w u) -> w_uploadReaders w = 0 -> w_File w = Some file ->
  file_write d file off buf now = (d', n, err) -> inv (mkWorld d' w u).
Proof.
  intros Hinv Hr Hf. unfold file_write. destruct (os_try d) as [d1 [e|]] eqn:E1;
    apply os_try_same in E1 as [o1 ->].
  { intros [= <- <- <-]. inv_frame. }
  destruct (off <? 0). { intros [= <- <- <-]. inv_frame. }
  destruct (os_call _) as [d2 [k|]] eqn:E2; apply os_call_same in E2 as [o2 ->]; intros [= <- <- <-];
    apply inv_modify; try done; inv_frame.
Qed.

Lemma file_truncate_inv d w u file size now d' err :
  inv (mkWorld d w u) -> w_uploadReaders w = 0 -> w_File w = Some file ->
  file_truncate d file size now = (d', err) -> inv (mkWorld d' w u).
Proof.
  intros Hinv Hr Hf. unfold file_truncate. destruct (os_try d) as [d1 [e|]] eqn:E1;
    apply os_try_same in E1 as [o1 ->].
  { intros [= <- <-]. inv_frame. }
  destruct (size <? 0); intros [= <- <-]; [inv_frame|]. apply inv_modify; try done. inv_frame.
Qed.

Lemma persist_inv d w u d' w' :
  inv (mkWorld d w u) -> persistAttributes d w = (d', w') -> inv (mkWorld d' w' u).
Proof.
  intros Hinv (Hd & Hi & Hw)%persist_data.
  destruct Hw as [->| ->]; inv_frame; rewrite ?Hd, ?Hi; try done; intros; unfold bytes_at; by rewrite Hi.
Qed.

Lemma write_inv d w u buf off now d' w' r :
  inv (mkWorld d w u) -> write d w buf off now = (d', w', r) -> inv (mkWorld d' w' u).
Proof.
  intros Hinv. unfold write.
  destruct (detachFromUploadsLocked d w _ now) as [[d1 w1] e1] eqn:E1.
  apply (inv_detach _ _ u) in E1 as [Hinv1 Hr1]; [|done]. destruct e1 as [e1|].
  { by intros [= <- <- <-]. }
  unfold write_at. destruct (w_File w1) as [file|] eqn:Ef; [|by intros [= <- <- <-]].
  destruct (file_write d1 file off buf now) as [[d2 n] e2] eqn:E2.
  apply (file_write_inv _ w1 u) in E2; [|auto..]. destruct e2; intros [= <- <- <-]; [done|].
  inv_frame.
Qed.

Lemma truncate_inv d w u size now d' w' r :
  inv (mkWorld d w u) -> truncate d w size now = (d', w', r) -> inv (mkWorld d' w' u).
Proof.
  intros Hinv. unfold truncate.
  destruct (detachFromUploadsLocked d w _ now) as [[d1 w1] e1] eqn:E1.
  apply (inv_detach _ _ u) in E1 as [Hinv1 Hr1]; [|done]. destruct e1 as [e1|].
  { by intros [= <- <- <-]. }
  destruct (w_File w1) as [file|] eqn:Ef; [|by intros [= <- <- <-]].
  destruct (file_truncate d1 file size now) as [d2 e2] eqn:E2.
  apply (file_truncate_inv _ w1 u) in E2; [|auto..]. destruct e2; intros [= <- <- <-]; [done|].
  inv_frame.
Qed.

Lemma prefetch_inv d w u fetcher now d' w' r :
  inv (mkWorld d w u) -> w_File w <> None -> rewrites_only (w_StagingPath w) fetcher ->
  Prefetch d w fetcher now = (d', w', r) -> inv (mkWorld d' w' u).
Proof.
  intros Hinv Hopen Hfetch. unfold Prefetch. destruct (w_Prefetched w); [by intros [= <- <- <-]|].
  destruct (detachFromUploadsLocked d w 0 now) as [[d1 w1] e1] eqn:E1.
  assert (w_StagingPath w1 = w_StagingPath w /\ w_File w1 <> None) as [Hsp Hopen1].
  { destruct e1; [by apply detach_error in E1 as [-> _]|].
    apply detach_ok in E1; [|intros f Hf; by apply (inv_named _ Hinv)].
    by destruct E1 as [(_ & _ & ->)|(_ & tmp & _ & _ & _ & _ & -> & _)]. }
  apply (inv_detach _ _ u) in E1 as [Hinv1 Hr1]; [|done].
  destruct e1 as [e1|]; [by intros [= <- <- <-]|].
  destruct (Hfetch d1) as (Hd & Hdom & Hi). destruct (fetcher d1) as [d2 e2]. simpl in *.
  destruct (w_File w1) as [file|] eqn:Ef; [|done].
  assert (inv (mkWorld d2 w1 u)) as Hinv2.
  { inv_frame; [by rewrite Hd|]. intros s b Hin. unfold bytes_at. rewrite Hi; [done|].
    rewrite <-Hsp. destruct (inv_named _ Hinv1 file Ef) as [Hname _]. simpl in Hname. rewrite Hname.
    intros [= ->]. by eapply (no_reader_no_upload (mkWorld d1 w1 u)); [|auto| |]. }
  destruct e2 as [e2|].
  - intros [= <- <- <-]. destruct (file_truncate d2 file _ now) as [d3 e3] eqn:E3.
    eapply file_truncate_inv; [done|auto|done|exact E3].
  - destruct (os_try d2) as [d3 [e3|]] eqn:E3; apply os_try_same in E3 as [o ->];
      intros [= <- <- <-]; inv_frame.
Qed.

Lemma open_inv d w u d' w' s :
  inv (mkWorld d w u) -> OpenUploadSnapshot d w = (d', w', inl s) ->
  inv (mkWorld d' w' ((s, staged d w) :: u)) /\ w_File w = Some (s_File s) /\
  s_Size s = w_Size w /\ bytes_at d' (s_File s) = staged d w.
Proof.
  intros Hinv. unfold OpenUploadSnapshot, flush. destruct (w_File w) as [file|] eqn:Ef; [|done].
  unfold file_sync. destruct (os_try d) as [d1 [e1|]] eqn:E1; [done|].
  apply os_try_same in E1 as [o1 ->]. unfold open_data.
  destruct (os_try _) as [d2 [e2|]] eqn:E2; [done|]. apply os_try_same in E2 as [o2 ->]. simpl.
  destruct (inv_named _ Hinv file Ef) as [Hname Hdom]. simpl in *. rewrite Hname.
  intros [= <- <- <-]. simpl.
  assert (staged d w = bytes_at d file) as Hst by (unfold staged; by rewrite Ef).
  split_and!; [|done|done|done].
  destruct Hinv as [Hn Hb Hc Hp Hr]. simpl in *. split; simpl.
  - done.
  - intros s b [[= -> ->]|Hin]%elem_of_cons; [|exact (Hb _ _ Hin)]. by rewrite Hst.
  - intros s b [[= -> _]|Hin]%elem_of_cons; [done|exact (Hc _ _ Hin)].
  - intros s b [[= -> _]|Hin]%elem_of_cons; [done|exact (Hp _ _ Hin)].
  - unfold current in *. simpl. rewrite Z.eqb_refl, Hr. simpl. lia.
Qed.

Lemma close_inv d w u1 u2 s b :
  inv (mkWorld d w (u1 ++ (s, b) :: u2)) -> inv (mkWorld d (CloseSnapshot w s) (u1 ++ u2)).
Proof.
  intros [Hn Hb Hc Hp Hr]. simpl in *.
  assert (forall x, x ∈ u1 ++ u2 -> x ∈ u1 ++ (s, b) :: u2) as Hsub by set_solver.
  assert (w_File (CloseSnapshot w s) = w_File w /\
    w_StagingPath (CloseSnapshot w s) = w_StagingPath w /\
    w_fileGeneration (CloseSnapshot w s) = w_fileGeneration w) as (Hf & Hsp & Hg)
    by (unfold CloseSnapshot; by case_match).
  split; simpl; rewrite ?Hf, ?Hsp, ?Hg; eauto.
  rewrite List.filter_app, length_app in Hr. simpl in Hr.
  rewrite List.filter_app, length_app. unfold current in *. rewrite Hg. simpl in *.
  unfold CloseSnapshot. rewrite (Z.eqb_sym (w_fileGeneration w)).
  destruct (s_generation s =? w_fileGeneration w) eqn:E; simpl in *; [|by rewrite Hr].
  destruct (0 <? w_uploadReaders w) eqn:E0; simpl; bool_to_prop; lia.
Qed.

Lemma rename_inv d w u newPath newStagingPath d' w' err :
  inv (mkWorld d w u) ->
  moveStagingFile d w newStagingPath (fun d => rename_data d (w_StagingPath w) newStagingPath)
    = (d', w', err) ->
  inv (mkWorld d' (match err with None => Rekey w' newPath newStagingPath | Some _ => w' end) u).
Proof.
  intros Hinv. unfold moveStagingFile, rename_data.
  destruct (os_try d) as [d1 [e1|]] eqn:E1; apply os_try_same in E1 as [o1 ->]; simpl.
  { intros [= <- <- <-]. inv_frame. }
  destruct (data d !! w_StagingPath w) as [ino|] eqn:Ei; [|intros [= <- <- <-]; inv_frame].
  assert (forall file, w_File w = Some file -> file = ino /\ file ∈ dom (inodes d)) as Hfile.
  { intros file Hf. destruct (inv_named _ Hinv file Hf) as [H1 H2]. simpl in *.
    split; [congruence|done]. }
  destruct Hinv as [Hn Hb Hc Hp Hr]. simpl in *.
  destruct (decide (w_StagingPath w = newStagingPath)) as [Heq|Hne];
    intros [= <- <- <-]; (split; simpl; [|done..]); intros file Hf;
    destruct (Hfile _ Hf) as [-> ?]; [subst newStagingPath; done|].
  by rewrite lookup_delete_ne, lookup_insert_eq by congruence.
Qed.

Lemma step_inv x y : step x y -> inv x -> inv y.
Proof.
  intros [] Hinv.
  - unfold write_persisting. destruct (write d w buf off now) as [[d1 w1] [[n dr] e]] eqn:E.
    apply (write_inv _ _ u) in E; [|done]. destruct dr; [|done].
    destruct (persistAttributes d1 w1) as [d2 w2] eqn:E2. by eapply persist_inv.
  - destruct (truncate d w size now) as [[d1 w1] e] eqn:E. by eapply truncate_inv.
  - unfold Read. destruct (w_Size w <=? off); [done|]. destruct (w_File w); [|done].
    destruct (os_tries 2 d) as [d1 [e|]] eqn:E; apply os_tries_same in E as [o ->]; [inv_frame|].
    destruct (off <? 0); inv_frame.
  - destruct (Prefetch d w fetcher now) as [[d1 w1] e] eqn:E. by eapply prefetch_inv.
  - by eapply open_inv.
  - by eapply close_inv.
  - unfold updateAttributes. destruct (persistAttributes d _) as [d1 w1] eqn:E.
    eapply persist_inv; [|exact E]. inv_frame.
  - destruct Hinv as [Hn Hb Hc Hp Hr]. by split.
  - destruct (moveStagingFile d w _ _) as [[d1 w1] e] eqn:E. by eapply rename_inv.
  - inv_frame. intros s b Hin. unfold bytes_at. by rewrite (H1 s b Hin).
Qed.

(** A session as [NewWriteSession] opens it on an empty directory, and the
    same with one upload reading it. *)
Definition opened : Disk * WriteSession :=
  match NewWriteSession empty_disk "/a" "active/a.data" 1 with
  | (d, inl w) => (d, w)
  | (d, inr _) => (d, mkSession "" "" None 0 false false 0 0 0 0 (NewS3MultipartState 20)
                        default_attributes false false 0 0 0 0)
  end.
Definition opened_file : Disk * WriteSession :=
  (write opened.1 opened.2 [x61; x62; x63] 0 2).1.
Definition uploading : Disk * WriteSession :=
  (OpenUploadSnapshot opened_file.1 opened_file.2).1.

Lemma opened_inv : inv (mkWorld opened.1 opened.2 []).
Proof.
  split; simpl; try (by intros ? ? ?%not_elem_of_nil); [|reflexivity].
  intros file [= <-]. split; [reflexivity|]. apply elem_of_dom. by eexists.
Qed.

Lemma opened_sized : sized opened.1 opened.2.
Proof. exists 1%positive. split_and!; [reflexivity| |reflexivity]. apply elem_of_dom. by eexists. Qed.

Lemma uploading_sized : sized uploading.1 uploading.2.
Proof. exists 1%positive. split_and!; [reflexivity| |reflexivity]. apply elem_of_dom. by eexists. Qed.

(** ** Properties *)

(** C13. An upload never sees its bytes change.  From a freshly opened session,
    whatever writes, truncations, prefetches, renames, closes, other uploads
    and other files' activity follow, and whichever disk calls fail, the file
    of every snapshot still open holds exactly the bytes the session staged
    when the snapshot was opened. *)
Theorem upload_bytes_never_change x y s b :
  inv x -> uploads x = [] -> rtc step x y -> (s, b) ∈ uploads y ->
  bytes_at (disk y) (s_File s) = b.
Proof.
  intros Hinv _ Hsteps Hin. assert (inv y) as Hy.
  { induction Hsteps; eauto using step_inv. }
  by apply (inv_bytes _ Hy) in Hin as [_ ?].
Qed.

(** A write during an upload: the session moves to inode 2, the upload keeps
    inode 1. *)
Lemma upload_bytes_never_change_witness :
  let x := mkWorld uploading.1 uploading.2 [(mkSnapshot 1 3 2 20971520 0, [x61; x62; x63])] in
  let w := write_persisting (disk x) (session x) [x7a] 0 3 in
  bytes_at w.1.1 1 = [x61; x62; x63] /\ staged w.1.1 w.1.2 = [x7a; x62; x63].
Proof.
  intros x w. split; [|vm_compute; reflexivity].
  apply (upload_bytes_never_change (mkWorld opened.1 opened.2 [])
    (mkWorld w.1.1 w.1.2 (uploads x)) (mkSnapshot 1 3 2 20971520 0)).
  - apply opened_inv.
  - reflexivity.
  - eapply rtc_l; [apply (step_write _ _ _ [x61; x62; x63] 0 2)|].
    eapply rtc_l; [eapply step_open; vm_compute; reflexivity|].
    eapply rtc_l; [apply (step_write _ _ _ [x7a] 0 3)|]. vm_compute. apply rtc_refl.
  - left.
Defined.

(** Writing to a session is writing to a plain file, whether or not an
    upload is reading it: a write that succeeds put every byte of the buffer
    at its offset, filled a gap before it with zeros, changed nothing else, and
    reading the same range returns the buffer. *)
Theorem write_refines_file d w buf off now d' w' n dropped now' :
  sized d w -> buf <> [] -> write d w buf off now = (d', w', (n, dropped, None)) ->
  n = len buf /\ staged d' w' = pwrite (staged d w) off buf /\ sized d' w' /\
  w_Dirty w' = true /\
  (outcomes d' = [] -> (Read d' w' (len buf) off now').2 = inl buf).
Proof.
  intros Hs Hb Hw. destruct (write_ok _ _ _ _ _ _ _ _ _ Hs Hb Hw) as (Hn & Ho & Hst & Hs' & Hd & _ & _).
  split_and!; try done. intros Hr. unfold Read. pose proof (sized_staged _ _ Hs') as Hsz.
  rewrite Hst, length_pwrite in Hsz by done.
  assert (0 < len buf) by (destruct buf; simpl in *; [done|lia]).
  rewrite (proj2 (Z.leb_gt _ _)) by lia. destruct Hs' as (f & Hf & _ & _). rewrite Hf.
  rewrite os_tries_reliable by done. rewrite (proj2 (Z.ltb_ge off 0)) by lia. simpl.
  unfold staged in Hst. rewrite Hf in Hst. fold (staged d w) in Hst. rewrite Hst, pread_pwrite by done.
  rewrite bool_decide_eq_false_2 by done. by rewrite andb_false_r.
Qed.

Lemma write_refines_file_witness :
  let r := write uploading.1 uploading.2 [x7a] 5 3 in
  staged r.1.1 r.1.2 = [x61; x62; x63; x00; x00; x7a].
Proof.
  intros r. destruct (write_refines_file uploading.1 uploading.2 [x7a] 5 3 r.1.1 r.1.2 1 false 4)
    as (_ & -> & _).
  - apply uploading_sized.
  - done.
  - vm_compute. reflexivity.
  - vm_compute. reflexivity.
Defined.

(** Truncating a session is truncating a plain file, whether or not an
    upload is reading it. *)
Theorem truncate_refines_file d w size now d' w' :
  sized d w -> 0 <= size -> truncate d w size now = (d', w', None) ->
  staged d' w' = ftruncate (staged d w) size /\ sized d' w' /\ w_Size w' = size.
Proof. apply truncate_ok. Qed.

Lemma truncate_refines_file_witness :
  let r := truncate uploading.1 uploading.2 2 3 in staged r.1.1 r.1.2 = [x61; x62].
Proof.
  intros r. destruct (truncate_refines_file uploading.1 uploading.2 2 3 r.1.1 r.1.2) as (-> & _).
  - apply uploading_sized.
  - done.
  - vm_compute. reflexivity.
  - vm_compute. reflexivity.
Defined.

(** On a disk that does not fail, a write to an open session always
    succeeds. *)
Theorem write_succeeds d w buf off now :
  sized d w -> 0 <= off -> outcomes d = [] ->
  exists d' w' dropped, write d w buf off now = (d', w', (len buf, dropped, None)).
Proof.
  intros (file & Hf & Hdom & Hsz) Ho Hr. unfold write, detachFromUploadsLocked.
  assert (forall d0 w0, outcomes d0 = [] -> w_File w0 <> None -> exists d' w' dropped,
    write_at d0 w0 buf off now = (d', w', (len buf, dropped, None))) as Hwrite.
  { intros d0 w0 Hr0 Hopen. unfold write_at, file_write. destruct (w_File w0); [|done].
    rewrite os_try_reliable, os_call_reliable by done. rewrite (proj2 (Z.ltb_ge off 0)) by done.
    eauto. }
  destruct (w_uploadReaders w =? 0); [apply Hwrite; congruence|].
  rewrite os_try_reliable by done. unfold copy_kept. rewrite Hf.
  rewrite os_tries_reliable by done. destruct (0 <? w_Size w) eqn:Ek.
  - rewrite bytes_at_set_content_ne by (intros <-; by apply (is_fresh (dom (inodes d)))).
    rewrite (proj2 (Z.ltb_ge (len _) _)) by lia. unfold file_sync. rewrite os_try_reliable by done.
    rewrite os_try_reliable by done. apply Hwrite; done.
  - rewrite os_try_reliable by done. apply Hwrite; done.
Qed.

Lemma write_succeeds_witness :
  exists d' w' dropped, write uploading.1 uploading.2 [x7a] 5 3 = (d', w', (1, dropped, None)).
Proof. apply (write_succeeds _ _ [x7a]); [apply uploading_sized|done|reflexivity]. Defined.

(** A write of no bytes past the end of the file moves the session's size
    there without the file growing: the size then promises bytes the staging
    file does not have, and a write that has to move the session away from an
    upload fails from then on. *)
Theorem empty_write_breaks_size d w off now :
  sized d w -> w_uploadReaders w = 0 -> w_Size w < off -> outcomes d = [] ->
  exists d' w' dropped, write d w [] off now = (d', w', (0, dropped, None)) /\
    w_Size w' = off /\ staged d' w' = staged d w /\ ~ sized d' w' /\
    forall buf off' now', (write d' (set_readers 1 (w_fileGeneration w') w') buf off' now').2 =
      (0, false, Some (Wrap ErrEOF)).
Proof.
  intros Hs Hr Hlt Hrel. pose proof (sized_staged _ _ Hs) as Hsz.
  destruct Hs as (file & Hf & Hdom & Hlen).
  unfold write at 1. unfold detachFromUploadsLocked. rewrite Hr. simpl.
  unfold write_at, file_write. rewrite Hf, os_try_reliable, os_call_reliable by done.
  rewrite (proj2 (Z.ltb_ge off 0)) by lia.
  assert (pwrite (bytes_at d file) off [] = bytes_at d file) as -> by done.
  set (d' := set_content now (bytes_at d file) d file).
  assert (bytes_at d' file = bytes_at d file) as Hb by apply bytes_at_set_content.
  eexists d', _, _. split; [reflexivity|]. simpl. rewrite (proj2 (Z.ltb_lt _ _)) by lia.
  split_and!.
  - lia.
  - unfold staged. simpl. by rewrite Hf.
  - intros (f & Hf' & _ & Hl). simpl in *. assert (f = file) as -> by congruence.
    rewrite Hb in Hl. lia.
  - intros buf off' now'. unfold write, detachFromUploadsLocked. simpl.
    rewrite os_try_reliable by done. unfold copy_kept. simpl. rewrite Hf.
    rewrite (proj2 (Z.ltb_lt 0 _)) by lia. rewrite os_tries_reliable by done.
    rewrite bytes_at_set_content_ne by
      (intros Hx; apply (is_fresh (dom (inodes d'))); simpl in Hx |- *; rewrite Hx; set_solver).
    rewrite Hb, (proj2 (Z.ltb_lt (len _) _)) by lia. done.
Qed.

Lemma empty_write_breaks_size_witness :
  exists d' w' dropped, write opened.1 opened.2 [] 100 3 = (d', w', (0, dropped, None)) /\
    w_Size w' = 100 /\ staged d' w' = [].
Proof.
  destruct (empty_write_breaks_size opened.1 opened.2 100 3) as (d' & w' & dr & H1 & H2 & H3 & _).
  - apply opened_sized.
  - reflexivity.
  - reflexivity.
  - reflexivity.
  - exists d', w', dr. by rewrite H3.
Defined.

End SessionSafety.
