(* ===== verification/StagingManager.v ===== *)
(** * The staging manager ([internal/staging/manager.go], [tombstone.go],
      [session_discard.go] and the manager's side of [session.go])

    [Manager] is the whole staging area: the sessions in use, the dirty index,
    the accepted deletes, the reservations and the staging directory.  A
    [*WriteSession] is an address in [heap], since handles, the sessions map and
    uploads share it.  Each definition is one method; it is atomic where the
    code holds a lock throughout and is otherwise a sequence of such steps, which
    the sync worker's model interleaves.  Logging and metrics have no effect on
    the state and are left out; [now] is [time.Now()]. *)
From S2P Require Import Prelude GoPath StagingTypes Disk DirtyIndex PathState Session.

(** [stagingFilePath] names a file by the first sixteen bytes of the SHA-256 of
    its path; the code relies on two paths never sharing a name. *)
Class PathHash := {
  path_hash : string -> string;
  path_hash_inj : Inj (=) (=) path_hash
}.

Module Staging.
Import Disk PathState Session.

Definition PressureLevelNormal : string := "normal".
Definition PressureLevelHigh : string := "high".
Definition PressureLevelCritical : string := "critical".
Definition BackpressureModeBlock : string := "block".
Definition BackpressureModeFailFast : string := "fail_fast".

(** The configuration, durations parsed ([None] is one that does not parse). *)
Record StagingConfig := mkConfig {
  RootDir : string;
  SyncThresholdMB : Z;
  MaxDirtyAge : Duration;
  MaxStagingSizeGB : Z;
  MaxSyncRetries : Z;
  RetryBackoffInit : Duration;
  RetryBackoffMax : Duration;
  CleanAfterSync : bool;
  BackpressureEnabled : bool;
  BackpressureMode : string;
  BackpressureHighWatermarkPct : Z;
  BackpressureCritWatermarkPct : Z;
  BackpressureWaitTimeout : option Duration;
  BackpressureCheckInterval : option Duration
}.

Record Manager := mkManager {
  config : StagingConfig;
  sessions : gmap string positive;
  heap : gmap positive WriteSession;
  index : DirtyIndex.DirtyFileIndex;
  tombstones : gmap string TombstoneState;
  reservedBytes : Z;
  bucketFull : bool;
  renameTargets : gmap string Z;
  disk : Disk
}.

Definition set_sessions f (m : Manager) := mkManager (config m) (f (sessions m)) (heap m) (index m)
  (tombstones m) (reservedBytes m) (bucketFull m) (renameTargets m) (disk m).
Definition set_heap f (m : Manager) := mkManager (config m) (sessions m) (f (heap m)) (index m)
  (tombstones m) (reservedBytes m) (bucketFull m) (renameTargets m) (disk m).
Definition set_index i (m : Manager) := mkManager (config m) (sessions m) (heap m) i
  (tombstones m) (reservedBytes m) (bucketFull m) (renameTargets m) (disk m).
Definition set_tombstones f (m : Manager) := mkManager (config m) (sessions m) (heap m) (index m)
  (f (tombstones m)) (reservedBytes m) (bucketFull m) (renameTargets m) (disk m).
Definition set_reserved r (m : Manager) := mkManager (config m) (sessions m) (heap m) (index m)
  (tombstones m) r (bucketFull m) (renameTargets m) (disk m).
Definition set_renameTargets f (m : Manager) := mkManager (config m) (sessions m) (heap m) (index m)
  (tombstones m) (reservedBytes m) (bucketFull m) (f (renameTargets m)) (disk m).
Definition set_disk d (m : Manager) := mkManager (config m) (sessions m) (heap m) (index m)
  (tombstones m) (reservedBytes m) (bucketFull m) (renameTargets m) d.

(** The session at an address, and a change to it. *)
Definition deref (m : Manager) (a : positive) : option WriteSession := heap m !! a.
Definition update (a : positive) (f : WriteSession -> WriteSession) (m : Manager) : Manager :=
  set_heap (alter f a) m.
Definition put (a : positive) (w : WriteSession) (m : Manager) : Manager :=
  set_heap <[a := w]> m.

Section Manager.
Context `{PathHash}.

Definition stagingFilePath (m : Manager) (path : string) : string :=
  RootDir (config m) +:+ "/active/" +:+ path_hash path +:+ ".data".

Definition tombstoneFilePath (m : Manager) (path : string) : string :=
  RootDir (config m) +:+ "/tombstones/" +:+ path_hash path +:+ ".tombstone.json".

(** [sessionAt]. *)
Definition sessionAt (m : Manager) (path : string) : option positive := sessions m !! path.

(** [sessionAttributesIfSet]. *)
Definition sessionAttributesIfSet (m : Manager) (a : option positive) : option StagedAttributes :=
  a ≫= (fun a => deref m a ≫= stagedAttributes).

(** ** Sidecars *)

(** [recordDirtyPathLocked]. *)
Definition recordDirtyPathLocked (m : Manager) (path : string) (attrs : option StagedAttributes)
    (now : Time) : Manager * (PathMetadataState + error) :=
  let stagingPath := stagingFilePath m path in
  let metadataPath := pathMetadataPath stagingPath in
  let '(d, r) := readPathMetadataState (disk m) metadataPath in
  let m := set_disk d m in
  match match r with
        | inl state => inl state
        | inr e => if IsNotExist e then inl (blank_state (objectKeyFromPath path) "") else inr e
        end with
  | inr e => (m, inr e)
  | inl state =>
      let state := set_p_ConflictStatus ConflictStatusNone
        (set_p_StagedFilePath stagingPath (set_p_OriginalPath path state)) in
      let state := if IsZero (p_DirtySince state) then set_p_DirtySince now state else state in
      let state := match attrs with Some a => set_p_Attributes (Some a) state | None => state end in
      let '(d, state, err) := writePathMetadataState (disk m) metadataPath state in
      (set_disk d m, match err with Some e => inr e | None => inl state end)
  end.

(** [removePathMetadata]. *)
Definition removePathMetadata (m : Manager) (path : string) : Manager * option error :=
  let '(d, err) := remove_sidecar (disk m) (pathMetadataPath (stagingFilePath m path)) in
  (set_disk d m, match err with
                 | Some e => if IsNotExist e then None else Some e
                 | None => None
                 end).

(** [commitPathMetadata]. *)
Definition commitPathMetadata (m : Manager) (path stagingPath : string) (session : positive)
    (now : Time) : Manager * option error :=
  let metadataPath := pathMetadataPath stagingPath in
  let '(d, r) := readPathMetadataState (disk m) metadataPath in
  let m := set_disk d m in
  let commit (m : Manager) (state : PathMetadataState) : Manager * option error :=
    if p_Committed state then (m, None)
    else
      let '(d, _, err) := writePathMetadataState (disk m) metadataPath (set_p_Committed true state) in
      (set_disk d m, err) in
  match r with
  | inl state => commit m state
  | inr e =>
      if IsNotExist e then
        if negb (DirtyIndex.IsDirty (index m) path) then (m, None)
        else
          match recordDirtyPathLocked m path (sessionAttributesIfSet m (Some session)) now with
          | (m, inr e) => (m, Some (Wrap e))
          | (m, inl state) => commit m state
          end
      else (m, Some (Wrap e))
  end.

(** [sidecarMissing]. *)
Definition sidecarMissing (m : Manager) (path stagingPath : string) : Manager * bool :=
  let '(d, err) := lstat_sidecar (disk m) (pathMetadataPath stagingPath) in
  (set_disk d m, match err with
                 | Some e => IsNotExist e && DirtyIndex.IsDirty (index m) path
                 | None => false
                 end).

(** [CommitPath], as one step.  The source lets go of the session's lock around the
    flush: what is written meanwhile is not part of what this commit reports, and
    leaves the session's metadata to be committed again. *)
Definition CommitPath (m : Manager) (path : string) (now : Time) : Manager * option error :=
  match sessionAt m path with
  | None => (m, None)
  | Some a =>
      match deref m a with
      | None => (m, None)
      | Some w =>
          let '(d, r) := syncToDisk (disk m) w in
          let m := set_disk d m in
          match r with
          | inr e => (m, Some e)
          | inl (stagingPath, uncommitted) =>
              if decide (stagingPath = "") then (m, None)
              else
                let '(m, missing) :=
                  if uncommitted =? 0 then sidecarMissing m path stagingPath else (m, true) in
                if (uncommitted =? 0) && negb missing then (m, None)
                else
                  match commitPathMetadata m path stagingPath a now with
                  | (m, Some e) => (m, Some e)
                  | (m, None) =>
                      let '(d, err) := syncDir (disk m) in
                      let m := set_disk d m in
                      match err with
                      | Some e => (m, Some e)
                      | None =>
                          (if uncommitted =? 0 then m
                           else update a (fun w => metadataCommitted w uncommitted) m, None)
                      end
                  end
          end
      end
  end.

(** ** The dirty index and its sidecars, under [sidecarMu] *)

(** [markPathDirty]: the path is listed even when its sidecar could not be
    written. *)
Definition markPathDirty (m : Manager) (path : string) (size : Z) (now : Time)
    : Manager * option error :=
  let session := sessionAt m path in
  let attrs := sessionAttributesIfSet m session in
  match DirtyIndex.MarkDirtyAgain (index m) path size now with
  | (i, true) => (set_index i m, None)
  | (_, false) =>
      match recordDirtyPathLocked m path attrs now with
      | (m, inl state) =>
          let m := match session with Some a => update a metadataChanged m | None => m end in
          (set_index (DirtyIndex.MarkDirtyWithState (index m) path size (Some state) now) m, None)
      | (m, inr e) =>
          (set_index (DirtyIndex.MarkDirtyWithState (index m) path size None now) m, Some e)
      end
  end.

(** [MarkDirty]. *)
Definition MarkDirty (m : Manager) (path : string) (size : Z) (now : Time)
    : Manager * option error :=
  if DirtyIndex.IsConflicted (index m) path then (m, None)
  else
    match DirtyIndex.MarkDirtyAgain (index m) path size now with
    | (i, true) => (set_index i m, None)
    | (_, false) =>
        let '(m, err) := markPathDirty m path size now in
        (m, option_map Wrap err)
    end.

(** [dropDirtyEntry], which [MarkClean] and [ForgetDirty] are too. *)
Definition dropDirtyEntry (m : Manager) (path : string) : Manager :=
  let m := set_index (DirtyIndex.MarkClean (index m) path) m in
  (removePathMetadata m path).1.

Definition MarkClean (m : Manager) (path : string) : Manager := dropDirtyEntry m path.
Definition ForgetDirty (m : Manager) (path : string) : Manager := dropDirtyEntry m path.

(** [markCleanIfUnchanged]. *)
Definition markCleanIfUnchanged (m : Manager) (path : string) (generation : Z) : Manager * bool :=
  let '(i, wasDirty, clean) := DirtyIndex.MarkCleanIfUnchanged (index m) path generation in
  let m := set_index i m in
  let m := if wasDirty && clean then (removePathMetadata m path).1 else m in
  (m, clean).

(** ** Accepted deletes *)

Definition HasPendingDelete (m : Manager) (path : string) : bool :=
  bool_decide (is_Some (tombstones m !! path)).
Definition PendingDeleteCount (m : Manager) : Z := Z.of_nat (size (tombstones m)).
Definition PendingDeletes (m : Manager) : list TombstoneState := (map_to_list (tombstones m)).*2.

(** [addTombstone]: written to disk (directory, file, rename) before it is
    listed. *)
Definition addTombstone (m : Manager) (path : string) (now : Time)
    : Manager * (TombstoneState + error) :=
  let tomb := mkTombstone tombstoneVersion path (objectKeyFromPath path) now in
  match os_tries 3 (disk m) with
  | (d, Some e) => (set_disk d m, inr (Wrap e))
  | (d, None) =>
      let d := set_tombstone_files <[tombstoneFilePath m path := Some tomb]> d in
      (set_tombstones <[path := tomb]> (set_disk d m), inl tomb)
  end.

(** The removal of a tombstone's file, then of its entry, which
    [ResolvePendingDelete] and [CancelPendingDelete] share. *)
Definition removeTombstone (m : Manager) (path : string) : Manager * bool :=
  match tombstones m !! path with
  | None => (m, false)
  | Some _ =>
      match os_try (disk m) with
      | (d, Some _) => (set_disk d m, false)
      | (d, None) =>
          let d := set_tombstone_files (delete (tombstoneFilePath m path)) d in
          (set_tombstones (delete path) (set_disk d m), true)
      end
  end.

Definition ResolvePendingDelete (m : Manager) (path : string) : Manager := (removeTombstone m path).1.
Definition CancelPendingDelete (m : Manager) (path : string) : Manager * bool := removeTombstone m path.

Definition TryLockSync (m : Manager) (path : string) : Manager * bool :=
  let '(i, ok) := DirtyIndex.LockFile (index m) path in (set_index i m, ok).
Definition UnlockSync (m : Manager) (path : string) : Manager :=
  set_index (DirtyIndex.UnlockFile (index m) path) m.

(** ** Sessions *)

(** [GetOrCreateSession]. *)
Definition GetOrCreateSession (m : Manager) (path : string) (now : Time)
    : Manager * (positive + error) :=
  if DirtyIndex.IsConflicted (index m) path then (m, inr (Wrap ErrPathConflicted))
  else
    let '(m, _) := CancelPendingDelete m path in
    match sessions m !! path with
    | Some a => (update a IncrementRefCount m, inl a)
    | None =>
        match NewWriteSession (disk m) path (stagingFilePath m path) now with
        | (d, inr e) => (set_disk d m, inr (Wrap e))
        | (d, inl w) =>
            let a := fresh (dom (heap m)) in
            (set_sessions <[path := a]> (put a w (set_disk d m)), inl a)
        end
    end.

Definition ReleaseSession (m : Manager) (path : string) : Manager :=
  match sessions m !! path with
  | None => m
  | Some a => update a DecrementRefCount m
  end.

Definition GetSession (m : Manager) (path : string) : option positive :=
  if DirtyIndex.IsConflicted (index m) path then None else sessions m !! path.

Definition AcquireSession (m : Manager) (path : string) : Manager * option positive :=
  match GetSession m path with
  | None => (m, None)
  | Some a => (update a IncrementRefCount m, Some a)
  end.

(** [GetSessionsInDirectory]: the sessions of files directly in [dirPath]. *)
Definition GetSessionsInDirectory (m : Manager) (dirPath : string) : list positive :=
  let prefix := if negb (bool_decide (dirPath = "/")) && negb (HasSuffix dirPath "/")
                then dirPath +:+ "/" else dirPath in
  omap (fun '(path, a) =>
    if DirtyIndex.IsConflicted (index m) path then None
    else if HasPrefix path prefix && (Z.of_nat (String.length prefix) <? Z.of_nat (String.length path))
            && negb (Contains (TrimPrefix path prefix) "/")
    then Some a else None) (map_to_list (sessions m)).

(** [RecoverSessionFromStaging]. *)
Definition RecoverSessionFromStaging (m : Manager) (path : string) (now : Time)
    : Manager * (positive + error) :=
  let stagingPath := stagingFilePath m path in
  match stat_data (disk m) stagingPath with
  | (d, inr e) => (set_disk d m, inr e)
  | (d, inl info) =>
      let m := set_disk d m in
      match sessions m !! path with
      | Some a => (m, inl a)
      | None =>
          match NewWriteSession (disk m) path stagingPath now with
          | (d, inr e) => (set_disk d m, inr e)
          | (d, inl w) =>
              let '(d, r) := readPathMetadataState d (pathMetadataPath stagingPath) in
              let w := match r with
                       | inl state => match p_Attributes state with
                                      | Some attrs => restoreAttributes w attrs
                                      | None => w
                                      end
                       | inr _ => w
                       end in
              let w := set_times (modtime info) (modtime info)
                (set_refs 0 (set_size (len (content info)) true (w_Prefetched w) w)) in
              let a := fresh (dom (heap m)) in
              (set_sessions <[path := a]> (put a w (set_disk d m)), inl a)
          end
      end
  end.

Definition GetTotalStagingSize (m : Manager) : Z :=
  map_sum (fun _ a => from_option w_Size 0 (deref m a)) (sessions m).

(** [removeSessionLocked]: the session removed, if any. *)
Definition removeSessionLocked (m : Manager) (path : string) (deleteStagingFile : bool)
    : Manager * option positive * option error :=
  match sessions m !! path with
  | None => (m, None, None)
  | Some a =>
      let stagingPath := stagingFilePath m path in
      if negb (from_option (fun w => stagingPathIs w stagingPath) false (deref m a))
      then (m, None, None)
      else
        let m := set_sessions (delete path) m in
        if negb deleteStagingFile then (m, Some a, None)
        else
          let '(d, err) := remove_data (disk m) stagingPath in
          let m := set_disk d m in
          match err with
          | Some e => if IsNotExist e then (dropDirtyEntry m path, Some a, None)
                      else (m, Some a, Some (Wrap e))
          | None => (dropDirtyEntry m path, Some a, None)
          end
  end.

(** [closeRemovedSession]. *)
Definition closeRemovedSession (m : Manager) (session : option positive) : Manager :=
  match session with Some a => update a Close m | None => m end.

(** [CleanupSession]. *)
Definition CleanupSession (m : Manager) (path : string) (deleteStagingFile : bool)
    : Manager * option error :=
  if deleteStagingFile && DirtyIndex.IsDirty (index m) path && DirtyIndex.IsSyncing (index m) path
  then (m, Some ErrActiveSync)
  else
    let '(m, session, err) := removeSessionLocked m path deleteStagingFile in
    (closeRemovedSession m session, err).

(** [discardDeletedStaging]: false when the path was created again. *)
Definition discardDeletedStaging (m : Manager) (path : string) : Manager * bool * option error :=
  if negb (HasPendingDelete m path) then (m, false, None)
  else
    let m := dropDirtyEntry m path in
    let '(m, session, err) := removeSessionLocked m path true in
    (closeRemovedSession m session, true, err).

(** [RegisterPendingDelete]: [immediate]. *)
Definition RegisterPendingDelete (m : Manager) (path : string) (now : Time)
    : Manager * (bool + error) :=
  match addTombstone m path now with
  | (m, inr e) => (m, inr e)
  | (m, inl _) =>
      let '(i, ok) := DirtyIndex.LockFile (index m) path in
      let m := set_index i m in
      if negb ok then (m, inl false)
      else
        let '(m, _, _) := discardDeletedStaging m path in
        (set_index (DirtyIndex.UnlockFile (index m) path) m, inl true)
  end.

(** [cleanupSyncedSession]. *)
Definition cleanupSyncedSession (m : Manager) (path : string) (session : positive)
    : Manager * bool * option error :=
  let stagingPath := stagingFilePath m path in
  let refs := from_option w_RefCount 0 (deref m session) in
  let moved := negb (from_option (fun w => stagingPathIs w stagingPath) false (deref m session)) in
  if negb (bool_decide (sessions m !! path = Some session)) || (0 <? refs)
     || (0 <? default 0 (renameTargets m !! path))
     || DirtyIndex.IsDirty (index m) path || moved
  then (m, false, None)
  else
    let m := set_sessions (delete path) m in
    let '(d, err) := remove_data (disk m) stagingPath in
    let err := match err with Some e => if IsNotExist e then None else Some e | None => None end in
    let '(d, _) := remove_sidecar d (pathMetadataPath stagingPath) in
    let m := closeRemovedSession (set_disk d m) (Some session) in
    match err with
    | Some e => (m, false, Some (Wrap e))
    | None => (m, true, None)
    end.

Definition beginRenameOnto (m : Manager) (path : string) : Manager :=
  set_renameTargets (fun t => <[path := default 0 (t !! path) + 1]> t) m.
Definition endRenameOnto (m : Manager) (path : string) : Manager :=
  let n := default 0 (renameTargets m !! path) - 1 in
  set_renameTargets (fun t => if n <=? 0 then delete path t else <[path := n]> t) m.

(** [ReleaseSessionDiscardingIfEmpty].  The two removals are of files whose
    absence is no error, and a failure is only logged. *)
Definition removeSessionFiles (m : Manager) (w : WriteSession) : Manager :=
  let '(d, _) := remove_data (disk m) (w_StagingPath w) in
  let '(d, _) := remove_sidecar d (pathMetadataPath (w_StagingPath w)) in
  set_disk d m.

Definition ReleaseSessionDiscardingIfEmpty (m : Manager) (path : string) : Manager :=
  match sessions m !! path with
  | None => m
  | Some a =>
      let m := update a DecrementRefCount m in
      match deref m a with
      | None => m
      | Some w =>
          if (0 <? w_RefCount w) || DirtyIndex.IsDirty (index m) path || negb (hasNoStagedData w)
          then m
          else removeSessionFiles (update a Close (set_sessions (delete path) m)) w
      end
  end.

Record DiscardedSession := mkDiscarded { ds_Size : Z; ds_Attributes : StagedAttributes }.

(** [DiscardUnwrittenSession]: what was discarded, and whether it succeeded. *)
Definition DiscardUnwrittenSession (m : Manager) (path : string)
    : Manager * option DiscardedSession * bool :=
  if DirtyIndex.IsConflicted (index m) path then (m, None, false)
  else
    match sessions m !! path with
    | None => (m, None, negb (DirtyIndex.IsDirty (index m) path))
    | Some a =>
        match deref m a with
        | None => (m, None, false)
        | Some w =>
            if (0 <? w_RefCount w) || negb (holdsNoWrittenData w) then (m, None, false)
            else
              let m := set_sessions (delete path) m in
              let m := set_index (DirtyIndex.DropEntry (index m) path) m in
              let m := removeSessionFiles (update a Close m) w in
              (m, Some (mkDiscarded (w_Size w) (w_attrs w)), true)
        end
    end.

(** [session.persistAttributes] through the manager. *)
Definition persistSession (m : Manager) (a : positive) : Manager :=
  match deref m a with
  | None => m
  | Some w => let '(d, w) := persistAttributes (disk m) w in put a w (set_disk d m)
  end.

(** [RestoreUnwrittenSession]. *)
Definition RestoreUnwrittenSession (m : Manager) (path : string) (discarded : DiscardedSession)
    (now : Time) : Manager * option error :=
  match sessions m !! path with
  | Some _ => (m, None)
  | None =>
      match NewWriteSession (disk m) path (stagingFilePath m path) now with
      | (d, inr e) => (set_disk d m, Some e)
      | (d, inl w) =>
          match w_File w with
          | None => (set_disk d m, Some ErrClosed)
          | Some file =>
              match file_truncate d file (ds_Size discarded) now with
              | (d, Some e) => (set_disk d m, Some e)
              | (d, None) =>
                  let w := restoreAttributes (set_refs 0
                    (set_size (ds_Size discarded) true (w_Prefetched w) w)) (ds_Attributes discarded) in
                  let a := fresh (dom (heap m)) in
                  let m := set_sessions <[path := a]> (put a w (set_disk d m)) in
                  let '(m, err) := MarkDirty m path (ds_Size discarded) now in
                  (persistSession m a, err)
              end
          end
      end
  end.

Definition Shutdown (m : Manager) : Manager :=
  set_sessions (fun _ => ∅) (foldl (fun m a => update a Close m) m (map_to_list (sessions m)).*2).

End Manager.
End Staging.
