(* ===== verification/StagingPressure.v ===== *)
(** * Staging backpressure ([internal/staging/manager.go], [session.go])

    How much may be staged: the pressure calculation, the reservation a write
    makes before it is allowed, and the queries over the queue.  Byte counts are
    [int64]; where the code multiplies or adds them the wrap-around is written
    out. *)
From S2P Require Import Prelude GoPath StagingTypes Disk DirtyIndex PathState Session.
From S2P Require Import SessionSafety StagingManager.

Module Pressure.
Import Disk Session Staging.
Import SessionSafety(staged, sized).

#[local] Arguments Z.of_nat : simpl never.

Definition GiB : Z := 1024 * 1024 * 1024.

(** [normalizeBackpressureConfig]; an empty duration is one the configuration
    does not give, outer [None]. *)
Definition normalizeBackpressureConfig (mode : string) (highPct critPct : Z)
    (timeout interval : option (option Duration)) : string * Z * Z * option Duration * option Duration :=
  (if decide (mode = "") then BackpressureModeBlock else mode,
   if highPct =? 0 then 80 else highPct,
   if critPct =? 0 then 95 else critPct,
   default (Some (30 * Second)) timeout,
   default (Some (250 * Millisecond)) interval).

Record PressureState := mkPressure {
  UsedBytes : Z;
  AvailableBytes : Z;
  QuotaBytes : Z;
  HighWatermarkBytes : Z;
  CriticalWatermarkBytes : Z;
  ProjectedBytes : Z;
  Level : string
}.

(** [pressureStateLocked]; [diskAvailable] is what [statfs] says is free, if it
    answers. *)
Definition pressureStateLocked (m : Manager) (diskAvailable : option Z) (growthBytes : Z) : PressureState :=
  let quotaBytes := wrap64 (MaxStagingSizeGB (config m) * GiB) in
  let usedBytes := wrap64 (GetTotalStagingSize m + reservedBytes m) in
  let projectedBytes := wrap64 (usedBytes + growthBytes) in
  let quotaAvailable := wrap64 (quotaBytes - usedBytes) in
  let quotaAvailable := if quotaAvailable <? 0 then 0 else quotaAvailable in
  let availableBytes := match diskAvailable with
                        | Some avail => if avail <? quotaAvailable then avail else quotaAvailable
                        | None => quotaAvailable
                        end in
  let positive := 0 <? quotaBytes in
  let pct p := Z.quot (wrap64 (quotaBytes * p)) 100 in
  let highBytes := if positive then pct (BackpressureHighWatermarkPct (config m)) else quotaBytes in
  let criticalBytes := if positive then pct (BackpressureCritWatermarkPct (config m)) else quotaBytes in
  let level :=
    if negb positive then PressureLevelNormal
    else if (criticalBytes <=? projectedBytes) || (availableBytes <? growthBytes) then PressureLevelCritical
    else if highBytes <=? projectedBytes then PressureLevelHigh
    else PressureLevelNormal in
  mkPressure usedBytes availableBytes quotaBytes highBytes criticalBytes projectedBytes level.

Definition CurrentPressure (m : Manager) (diskAvailable : option Z) : PressureState :=
  pressureStateLocked m diskAvailable 0.

(** One turn of the loop of [ReserveWrite], under [pressureMu]. *)
Inductive verdict := Allow | Reject | Wait (d : Duration).

Definition reserveTurn (m : Manager) (diskAvailable : option Z) (growthBytes : Z)
    (timeout checkInterval : Duration) (now deadline : Time) : verdict :=
  let state := pressureStateLocked m diskAvailable growthBytes in
  let mode := ToLower (BackpressureMode (config m)) in
  let mode := if decide (mode = "") then BackpressureModeBlock else mode in
  if negb (BackpressureEnabled (config m)) then
    if QuotaBytes state <? ProjectedBytes state then Reject else Allow
  else if bool_decide (Level state = PressureLevelCritical) || (QuotaBytes state <? ProjectedBytes state)
  then Reject
  else if bool_decide (Level state = PressureLevelHigh) && bool_decide (mode = BackpressureModeBlock) then
    if (timeout <=? 0) || After now deadline then Reject
    else
      let remaining := time_Sub deadline now in
      Wait (if remaining <? checkInterval then remaining else checkInterval)
  else Allow.

Definition reserve (m : Manager) (growthBytes : Z) : Manager :=
  set_reserved (wrap64 (reservedBytes m + growthBytes)) m.

(** [releaseReservation]. *)
Definition releaseReservation (m : Manager) (n : Z) : Manager :=
  if n <=? 0 then m
  else if reservedBytes m <? n then set_reserved 0 m
  else set_reserved (reservedBytes m - n) m.

(** What the loop sees at its [k]th turn: the manager, the disk, the clock. *)
Definition view : Type := Manager * option Z * Time.

(** The loop, from turn [k]: the turn it was decided at and whether the write is
    allowed; [None] if [fuel] turns do not decide it. *)
Fixpoint reserveLoop (fuel : nat) (k : nat) (env : nat -> view) (growthBytes : Z)
    (timeout checkInterval : Duration) (deadline : Time) : option (nat * bool) :=
  match fuel with
  | O => None
  | S fuel' =>
      let '(m, diskAvailable, now) := env k in
      match reserveTurn m diskAvailable growthBytes timeout checkInterval now deadline with
      | Allow => Some (k, true)
      | Reject => Some (k, false)
      | Wait _ => reserveLoop fuel' (S k) env growthBytes timeout checkInterval deadline
      end
  end.

Definition waitTimeout (cfg : StagingConfig) : Duration := default 0 (BackpressureWaitTimeout cfg).
Definition checkEvery (cfg : StagingConfig) : Duration :=
  match BackpressureCheckInterval cfg with
  | Some d => if d <=? 0 then 250 * Millisecond else d
  | None => 250 * Millisecond
  end.

(** [ReserveWrite]: the manager the decision was made on, with the reservation,
    and the bytes its release gives back. *)
Definition ReserveWrite (fuel : nat) (env : nat -> view) (requestedBytes growthBytes : Z)
    : option (Manager * (Z + error)) :=
  let requestedBytes := Z.max 0 requestedBytes in
  let growthBytes := Z.max 0 growthBytes in
  let '(m, _, start) := env 0%nat in
  if MaxStagingSizeGB (config m) <=? 0 then Some (m, inl 0)
  else if (0 <? requestedBytes) && bucketFull m then Some (m, inr ENOSPC)
  else
    let timeout := waitTimeout (config m) in
    '(k, allowed) ← reserveLoop fuel 0 env growthBytes timeout (checkEvery (config m)) (start + timeout);
    let m := (env k).1.1 in
    Some (if (allowed : bool) then (reserve m growthBytes, inl growthBytes) else (m, inr ENOSPC)).

(** [WriteSession.Write] of an unlimited or uncontended staging area: reserve,
    write, release.  [Truncate] reserves only what it grows by. *)
Definition growth (w : WriteSession) (newEnd : Z) : Z := wrap64 (newEnd - w_Size w).

Definition Write (m : Manager) (a : positive) (data : bytes) (offset : Z) (diskAvailable : option Z)
    (now : Time) : Manager * (Z * option error) :=
  match deref m a with
  | None => (m, (0, Some (Wrap ErrClosed)))
  | Some w =>
      match ReserveWrite 1 (fun _ => (m, diskAvailable, now)) (len data)
              (growth w (offset + len data)) with
      | Some (m, inl reserved) =>
          let '(d, w, r) := write_persisting (disk m) w data offset now in
          (releaseReservation (put a w (set_disk d m)) reserved, r)
      | Some (m, inr e) => (m, (0, Some e))
      | None => (m, (0, Some ENOSPC))
      end
  end.

Definition Truncate (m : Manager) (a : positive) (size : Z) (diskAvailable : option Z) (now : Time)
    : Manager * option error :=
  match deref m a with
  | None => (m, Some (Wrap ErrClosed))
  | Some w =>
      let run m reserved :=
        let '(d, w, err) := truncate (disk m) w size now in
        (releaseReservation (put a w (set_disk d m)) reserved, err) in
      if w_Size w <? size then
        match ReserveWrite 1 (fun _ => (m, diskAvailable, now)) (growth w size) (growth w size) with
        | Some (m, inl reserved) => run m reserved
        | Some (m, inr e) => (m, Some e)
        | None => (m, Some ENOSPC)
        end
      else run m 0
  end.

(** ** Queries *)

(** [SyncQueueStats]: depth, bytes and the age of the oldest entry. *)
Definition SyncQueueStats (m : Manager) (now : Time) : Z * Z * Duration :=
  foldl (fun '(depth, totalBytes, oldestAge) meta =>
    let age := time_Sub now (d_DirtySince meta) in
    (depth + 1, totalBytes + d_Size meta,
     if IsZero (d_DirtySince meta) then oldestAge else if oldestAge <? age then age else oldestAge))
    (0, 0, 0) (DirtyIndex.GetDirtyFiles (index m)).

(** [sort.Strings]. *)
Fixpoint insert_string (s : string) (l : list string) : list string :=
  match l with
  | [] => [s]
  | t :: l' => if string_ltb t s then t :: insert_string s l' else s :: l
  end.
Definition sort_strings (l : list string) : list string := foldr insert_string [] l.

Definition ConflictStats (m : Manager) : Z * list string * Time :=
  let conflicts := DirtyIndex.GetConflicts (index m) in
  (Z.of_nat (length conflicts), sort_strings (map c_Path conflicts), DirtyIndex.LastConflictTime (index m)).

(** A path as [DirtyPathsUnder] compares it. *)
Definition rooted (path : string) : string :=
  let path := Clean path in if HasPrefix path "/" then path else "/" +:+ path.

Definition DirtyPathsUnder (m : Manager) (path : string) : list string :=
  let path := rooted path in
  let prefix := if negb (bool_decide (path = "/")) && negb (HasSuffix path "/") then path +:+ "/" else path in
  sort_strings (omap (fun meta =>
    let dirtyPath := rooted (d_Path meta) in
    if HasPendingDelete m dirtyPath then None
    else if bool_decide (dirtyPath = path) || bool_decide (path = "/") || HasPrefix dirtyPath prefix
    then Some dirtyPath else None) (DirtyIndex.GetDirtyFiles (index m))).

(** ** Admission *)

Definition quota (m : Manager) : Z := MaxStagingSizeGB (config m) * GiB.
Definition used (m : Manager) : Z := GetTotalStagingSize m + reservedBytes m.

(** Sizes far enough from 2^63 that no sum wraps around. *)
Definition in_range (m : Manager) (growthBytes : Z) : Prop :=
  0 < quota m <= 2 ^ 60 /\ 0 <= used m <= 2 ^ 61 /\ 0 <= growthBytes <= 2 ^ 62.

Lemma pressure_exact m avail g : in_range m g ->
  QuotaBytes (pressureStateLocked m avail g) = quota m /\
  ProjectedBytes (pressureStateLocked m avail g) = used m + g.
Proof.
  unfold in_range, quota, used. intros (Hq & Hu & Hg). unfold pressureStateLocked. simpl.
  rewrite (wrap64_small (MaxStagingSizeGB _ * _)) by (unfold MinInt64, MaxInt64; lia).
  rewrite (wrap64_small (_ + reservedBytes m)) by (unfold MinInt64, MaxInt64; lia).
  rewrite wrap64_small by (unfold MinInt64, MaxInt64; lia). done.
Qed.

(** A write is allowed only within the quota. *)
Lemma reserveTurn_allows m avail g timeout ci now deadline :
  in_range m g -> reserveTurn m avail g timeout ci now deadline = Allow -> used m + g <= quota m.
Proof.
  intros Hr. destruct (pressure_exact m avail g Hr) as [Hq Hp]. unfold reserveTurn. rewrite Hq, Hp.
  destruct (quota m <? used m + g) eqn:E; [|intros _; lia]. rewrite orb_true_r.
  by destruct (BackpressureEnabled (config m)).
Qed.

(** *** The loop ends *)

Lemma reserveLoop_ends env g timeout ci deadline :
  (forall k, (env k).2 < (env (S k)).2) ->
  forall fuel k, deadline - (env k).2 + 1 < Z.of_nat fuel ->
  (fuel <> 0)%nat -> exists r, reserveLoop fuel k env g timeout ci deadline = Some r.
Proof.
  intros Hclock. induction fuel as [|fuel IH]; intros k Hk Hf; [done|]. simpl.
  destruct (env k) as [[m avail] now] eqn:Ek. simpl in Hk.
  destruct (reserveTurn m avail g timeout ci now deadline) as [| |d] eqn:Ea; [by eauto..|].
  pose proof (Hclock k) as Hck. rewrite Ek in Hck. simpl in Hck.
  assert (now <= deadline).
  { unfold reserveTurn in Ea. destruct (BackpressureEnabled _); simpl in Ea; [|by destruct (_ <? _)].
    destruct (_ || _); [done|]. destruct (_ && _); [|done].
    destruct ((timeout <=? 0) || After now deadline) eqn:Et; [done|].
    bool_to_prop. lia. }
  apply IH; lia.
Qed.

(** *** Writers at once *)

(** A write under way: the session, where the write ends, the growth it asks
    for, from the size it read, and how far it is. *)
Inductive stage := Begun | Reserved | Written.
Record writer := mkWriter {
  wr_session : positive; wr_data : bytes; wr_offset : Z; wr_growth : Z; wr_stage : stage
}.
Record area := mkArea { manager : Manager; writers : gmap positive writer }.

Definition at_stage (s : stage) (x : writer) : writer :=
  mkWriter (wr_session x) (wr_data x) (wr_offset x) (wr_growth x) s.

(** The steps of concurrent [Write]s, and the cleanup that removes a session. *)
Inductive step : area -> area -> Prop :=
  | w_begin m ws id a w data offset :
      ws !! id = None -> heap m !! a = Some w ->
      0 <= offset -> offset + len data <= 2 ^ 62 ->
      step (mkArea m ws)
        (mkArea m (<[id := mkWriter a data offset (Z.max 0 (growth w (offset + len data))) Begun]> ws))
  | w_reserve m ws id x avail timeout ci now deadline :
      ws !! id = Some x -> wr_stage x = Begun ->
      reserveTurn m avail (wr_growth x) timeout ci now deadline = Allow ->
      step (mkArea m ws) (mkArea (reserve m (wr_growth x)) (<[id := at_stage Reserved x]> ws))
  | w_refused m ws id x :
      ws !! id = Some x -> wr_stage x = Begun ->
      step (mkArea m ws) (mkArea m (delete id ws))
  | w_write m ws id x w now d' w' r :
      ws !! id = Some x -> wr_stage x = Reserved -> heap m !! wr_session x = Some w ->
      write_persisting (disk m) w (wr_data x) (wr_offset x) now = (d', w', r) ->
      step (mkArea m ws)
        (mkArea (put (wr_session x) w' (set_disk d' m)) (<[id := at_stage Written x]> ws))
  | w_release m ws id x :
      ws !! id = Some x -> wr_stage x = Written ->
      step (mkArea m ws) (mkArea (releaseReservation m (wr_growth x)) (delete id ws))
  | w_cleanup m ws path :
      step (mkArea m ws) (mkArea (set_sessions (delete path) m) ws).

Definition holds (s : stage) : bool := match s with Begun => false | _ => true end.
Definition pending (s : stage) : bool := match s with Reserved => true | _ => false end.
Definition claims (f : stage -> bool) (ws : gmap positive writer) : Z :=
  map_sum (fun _ x => if f (wr_stage x) then wr_growth x else 0) ws.

(** Every session is listed once, sizes are not negative, the reservation is what
    the writers hold, and what is staged and what is still to be written is
    within the quota. *)
Record within (x : area) : Prop := mkWithin {
  wi_quota : 0 < quota (manager x) <= 2 ^ 60;
  wi_once : forall p q a, sessions (manager x) !! p = Some a -> sessions (manager x) !! q = Some a -> p = q;
  wi_sizes : forall a w, heap (manager x) !! a = Some w -> 0 <= w_Size w <= 2 ^ 62;
  wi_listed : forall p a, sessions (manager x) !! p = Some a -> is_Some (heap (manager x) !! a);
  wi_reserved : reservedBytes (manager x) = claims holds (writers x);
  wi_held : claims holds (writers x) <= quota (manager x);
  wi_growth : forall id y, writers x !! id = Some y ->
    0 <= wr_growth y <= 2 ^ 62 /\ 0 <= wr_offset y /\ wr_offset y + len (wr_data y) <= 2 ^ 62;
  wi_enough : forall id y w, writers x !! id = Some y -> wr_stage y <> Written ->
    heap (manager x) !! wr_session y = Some w -> wr_offset y + len (wr_data y) <= w_Size w + wr_growth y;
  wi_total : GetTotalStagingSize (manager x) + claims pending (writers x) <= quota (manager x)
}.

Lemma detach_size d w keep now d' w' err :
  detachFromUploadsLocked d w keep now = (d', w', err) -> w_Size w' = w_Size w.
Proof.
  unfold detachFromUploadsLocked. destruct (_ =? _); [by intros [= <- <- <-]|].
  destruct (os_try d) as [d1 [e1|]]; [by intros [= <- <- <-]|].
  destruct (copy_kept _ _ _ _ _) as [d2 [e2|]]; [by intros [= <- <- <-]|].
  destruct (os_try d2) as [d3 [e3|]]; by intros [= <- <- <-].
Qed.

(** The size of a session after a write, whether or not it succeeded. *)
Lemma write_size d w buf off now d' w' r :
  write_persisting d w buf off now = (d', w', r) ->
  w_Size w' = w_Size w \/ w_Size w' = Z.max (w_Size w) (off + len buf).
Proof.
  unfold write_persisting. destruct (write d w buf off now) as [[d1 w1] [[n dropped] err]] eqn:Ew.
  assert (w_Size w1 = w_Size w \/ w_Size w1 = Z.max (w_Size w) (off + len buf)) as H1.
  { unfold write in Ew. destruct (detachFromUploadsLocked _ _ _ _) as [[d2 w2] e2] eqn:Ed.
    assert (w_Size w2 = w_Size w) as Hs by (by apply detach_size in Ed).
    destruct e2; [injection Ew as <- <- <- <- <-; by left|].
    unfold write_at in Ew. destruct (w_File w2); [|injection Ew as <- <- <- <- <-; by left].
    destruct (file_write _ _ _ _ _) as [[d3 n3] e3] eqn:Ef. destruct e3; [injection Ew as <- <- <- <- <-; by left|].
    injection Ew as <- <- <- <- <-. right. simpl.
    assert (n3 = len buf) as ->; [|rewrite Hs; zcases].
    unfold file_write in Ef. destruct (os_try d2) as [d4 [e4|]]; [congruence|].
    destruct (off <? 0); [congruence|]. destruct (os_call d4) as [d5 [k|]]; congruence. }
  destruct dropped; [|by intros [= <- <- <-]].
  destruct (persistAttributes d1 w1) as [d2 w2] eqn:Ep. intros [= <- <- <-].
  apply SessionSafety.persist_data in Ep as (_ & _ & [->| ->]); done.
Qed.

Lemma map_sum_put (m : Manager) (a : positive) (w w' : WriteSession) :
  (forall p q b, sessions m !! p = Some b -> sessions m !! q = Some b -> p = q) ->
  heap m !! a = Some w -> w_Size w <= w_Size w' ->
  GetTotalStagingSize (put a w' m) <= GetTotalStagingSize m + (w_Size w' - w_Size w).
Proof.
  intros Honce Hw Hle. unfold GetTotalStagingSize, deref. simpl.
  revert Honce. generalize (sessions m) as ss. intros ss.
  induction ss as [|p b ss Hp IH] using map_ind; intros Honce; [rewrite !map_sum_empty; lia|].
  rewrite !map_sum_insert_new by done.
  assert (forall q, ss !! q = Some b -> False) as Hnew.
  { intros q Hq. assert (p <> q) by (intros ->; congruence).
    assert (p = q); [|done]. apply (Honce p q b); [apply lookup_insert_eq|]. by rewrite lookup_insert_ne. }
  destruct (decide (b = a)) as [->|Hne].
  - rewrite lookup_insert_eq, Hw. simpl.
    rewrite (map_sum_ext _ (fun _ a0 => from_option w_Size 0 (heap m !! a0))); [lia|].
    intros q c Hq. destruct (decide (c = a)) as [->|]; [by apply Hnew in Hq|]. by rewrite lookup_insert_ne.
  - rewrite lookup_insert_ne by done.
    assert (forall q r c, ss !! q = Some c -> ss !! r = Some c -> q = r) as Honce'.
    { intros q r c Hq Hr. apply (Honce q r c); rewrite lookup_insert_ne; try done; intros ->; congruence. }
    specialize (IH Honce'). lia.
Qed.

Lemma claims_insert f ws id x :
  claims f (<[id := x]> ws) = claims f ws + (if f (wr_stage x) then wr_growth x else 0)
    - from_option (fun y => if f (wr_stage y) then wr_growth y else 0) 0 (ws !! id).
Proof. apply map_sum_insert. Qed.
Lemma claims_delete f ws id :
  claims f (delete id ws) =
    claims f ws - from_option (fun y => if f (wr_stage y) then wr_growth y else 0) 0 (ws !! id).
Proof. apply map_sum_delete. Qed.

Lemma claims_nonneg f ws :
  (forall id y, ws !! id = Some y -> 0 <= wr_growth y) -> 0 <= claims f ws.
Proof. intros H. apply map_sum_nonneg. intros k v Hk. specialize (H k v Hk). cases_lia. Qed.

Lemma claims_held ws :
  (forall id y, ws !! id = Some y -> 0 <= wr_growth y) -> claims pending ws <= claims holds ws.
Proof.
  intros H. unfold claims. induction ws as [|id y ws Hid IH] using map_ind; [rewrite !map_sum_empty; lia|].
  rewrite !map_sum_insert_new by done.
  assert (0 <= wr_growth y) by (apply (H id); apply lookup_insert_eq).
  assert (map_sum (fun _ x => if pending (wr_stage x) then wr_growth x else 0) ws <=
          map_sum (fun _ x => if holds (wr_stage x) then wr_growth x else 0) ws).
  { apply IH. intros i z Hi. apply (H i). rewrite lookup_insert_ne; [done|]. intros ->. congruence. }
  destruct (wr_stage y); simpl; lia.
Qed.

Lemma GetTotal_nonneg m :
  (forall a w, heap m !! a = Some w -> 0 <= w_Size w <= 2 ^ 62) -> 0 <= GetTotalStagingSize m.
Proof.
  intros H. apply map_sum_nonneg. intros p a _. unfold deref.
  destruct (heap m !! a) as [w|] eqn:E; simpl; [specialize (H _ _ E); lia|lia].
Qed.

Lemma within_begin m ws id a w data offset :
  within (mkArea m ws) -> ws !! id = None -> heap m !! a = Some w ->
  0 <= offset -> offset + len data <= 2 ^ 62 ->
  within (mkArea m (<[id := mkWriter a data offset (Z.max 0 (growth w (offset + len data))) Begun]> ws)).
Proof.
  intros Hw Hid Ha Ho He. pose proof Hw as []. simpl in *.
  assert (growth w (offset + len data) = offset + len data - w_Size w) as Hg.
  { pose proof (wi_sizes0 _ _ Ha). unfold growth. apply wrap64_small. unfold MinInt64, MaxInt64. lia. }
  split; simpl; try done.
  - rewrite claims_insert, Hid. simpl. lia.
  - rewrite claims_insert, Hid. simpl. lia.
  - intros id' y [[<- <-]|[_ Hy]]%lookup_insert_Some; [|by eauto]. simpl. rewrite Hg.
    pose proof (wi_sizes0 _ _ Ha). lia.
  - intros id' y w0 [[<- <-]|[_ Hy]]%lookup_insert_Some; simpl; [|by eauto].
    intros _ Hw0. rewrite Hg. assert (w0 = w) as -> by congruence. lia.
  - rewrite claims_insert, Hid. simpl. lia.
Qed.

Lemma within_reserve m ws id x avail timeout ci now deadline :
  within (mkArea m ws) -> ws !! id = Some x -> wr_stage x = Begun ->
  reserveTurn m avail (wr_growth x) timeout ci now deadline = Allow ->
  within (mkArea (reserve m (wr_growth x)) (<[id := at_stage Reserved x]> ws)).
Proof.
  intros Hw Hid Hs Ha. pose proof Hw as []. simpl in *.
  destruct (wi_growth0 _ _ Hid) as (Hg & _ & _).
  assert (forall i y, ws !! i = Some y -> 0 <= wr_growth y) as Hpos
    by (intros i y Hy; apply wi_growth0 in Hy; lia).
  pose proof (claims_nonneg holds ws Hpos). pose proof (claims_nonneg pending ws Hpos).
  pose proof (claims_held ws Hpos). pose proof (GetTotal_nonneg m wi_sizes0).
  assert (in_range m (wr_growth x)) as Hr by (unfold in_range, used; lia).
  apply reserveTurn_allows in Ha; [|done]. unfold used in Ha. unfold reserve.
  split; simpl; try done.
  - rewrite claims_insert, Hid, wrap64_small by (unfold quota, MinInt64, MaxInt64 in *; lia).
    simpl. rewrite Hs. simpl. lia.
  - rewrite claims_insert, Hid. simpl. rewrite Hs. change (quota _) with (quota m). simpl. lia.
  - intros i y [[<- <-]|[_ Hy]]%lookup_insert_Some; simpl; by eauto.
  - intros i y w [[<- <-]|[_ Hy]]%lookup_insert_Some; simpl; intros ? Hh; [|by eauto].
    by apply (wi_enough0 _ _ _ Hid); [rewrite Hs|].
  - rewrite claims_insert, Hid. simpl. rewrite Hs. simpl.
    change (GetTotalStagingSize _) with (GetTotalStagingSize m). change (quota _) with (quota m). lia.
Qed.

Lemma within_write m ws id x w now d' w' r :
  within (mkArea m ws) -> ws !! id = Some x -> wr_stage x = Reserved ->
  heap m !! wr_session x = Some w ->
  write_persisting (disk m) w (wr_data x) (wr_offset x) now = (d', w', r) ->
  within (mkArea (put (wr_session x) w' (set_disk d' m)) (<[id := at_stage Written x]> ws)).
Proof.
  intros Hw Hid Hs Hh Hwr. pose proof Hw as []. simpl in *. apply write_size in Hwr.
  destruct (wi_growth0 _ _ Hid) as (Hg & Ho & He). pose proof (wi_sizes0 _ _ Hh) as Hsz.
  assert (wr_stage x <> Written) as Hnw by congruence. pose proof (wi_enough0 _ _ _ Hid Hnw Hh) as Hen.
  assert (0 <= w_Size w' - w_Size w <= wr_growth x) as Hgrow by (lia).
  assert (GetTotalStagingSize (put (wr_session x) w' (set_disk d' m)) <=
    GetTotalStagingSize m + (w_Size w' - w_Size w)) as Htot.
  { apply (map_sum_put (set_disk d' m)); simpl; [done|done|lia]. }
  change (quota _) with (quota m) in *. split; simpl; try done.
  - intros a w0 [[<- <-]|[_ Hw0]]%lookup_insert_Some; [lia|by eauto].
  - intros p a Hp. destruct (decide (a = wr_session x)) as [->|];
      [rewrite lookup_insert_eq; by eauto|rewrite lookup_insert_ne by done; by eauto].
  - rewrite claims_insert, Hid. simpl. rewrite Hs. simpl. lia.
  - rewrite claims_insert, Hid. simpl. rewrite Hs. change (quota _) with (quota m). simpl. lia.
  - intros i y [[<- <-]|[_ Hy]]%lookup_insert_Some; simpl; by eauto.
  - intros i y w0 [[<- <-]|[_ Hy]]%lookup_insert_Some; simpl; intros ? Hw0; [done|].
    destruct (decide (wr_session y = wr_session x)) as [Heq|Hne].
    + rewrite Heq, lookup_insert_eq in Hw0. injection Hw0 as <-. rewrite <-Heq in Hh.
      specialize (wi_enough0 _ _ _ Hy H Hh). lia.
    + rewrite lookup_insert_ne in Hw0 by done. by eauto.
  - rewrite claims_insert, Hid. simpl. rewrite Hs. simpl. change (quota _) with (quota m). lia.
Qed.

Lemma within_drop m m' ws id x n :
  within (mkArea m ws) -> ws !! id = Some x -> pending (wr_stage x) = false ->
  m' = set_reserved n m -> n = reservedBytes m - (if holds (wr_stage x) then wr_growth x else 0) ->
  within (mkArea m' (delete id ws)).
Proof.
  intros Hw Hid Hs -> ->. pose proof Hw as []. simpl in *. destruct (wi_growth0 _ _ Hid) as (Hg & _).
  split; simpl; try done.
  - rewrite claims_delete, Hid. simpl. lia.
  - rewrite claims_delete, Hid. change (quota _) with (quota m). simpl. destruct (holds _); lia.
  - intros i y [_ Hy]%lookup_delete_Some. by eauto.
  - intros i y w [_ Hy]%lookup_delete_Some. by eauto.
  - rewrite claims_delete, Hid. change (quota _) with (quota m). simpl. rewrite Hs.
    change (GetTotalStagingSize _) with (GetTotalStagingSize m). lia.
Qed.

Lemma within_cleanup m ws path :
  within (mkArea m ws) -> within (mkArea (set_sessions (delete path) m) ws).
Proof.
  intros Hw. pose proof Hw as []. simpl in *. split; simpl; try done.
  - intros p q a [_ Hp]%lookup_delete_Some [_ Hq]%lookup_delete_Some. by eauto.
  - intros p a [_ Hp]%lookup_delete_Some. by eauto.
  - change (quota _) with (quota m).
    enough (GetTotalStagingSize (set_sessions (delete path) m) <= GetTotalStagingSize m) by lia.
    unfold GetTotalStagingSize. simpl. rewrite map_sum_delete. change (deref (set_sessions _ m)) with (deref m).
    destruct (sessions m !! path) as [a|]; simpl; [|lia]. unfold deref.
    destruct (heap m !! a) as [w|] eqn:E; simpl; [apply wi_sizes0 in E; lia|lia].
Qed.

Lemma step_within x y : step x y -> within x -> within y.
Proof.
  intros [m ws id a w data offset|m ws id w avail t ci now dl Hid Hs Ha|m ws id w Hid Hs
         |m ws id w w0 now d' w' r|m ws id w Hid Hs|m ws path] Hx.
  - by apply (within_begin m ws id a w data offset).
  - by apply (within_reserve m ws id w avail t ci now dl).
  - apply (within_drop m m ws id w (reservedBytes m)); try done; rewrite ?Hs; simpl; [done| |lia].
    by destruct m.
  - by apply (within_write m ws id w w0 now d' w' r).
  - pose proof (wi_growth _ Hx _ _ Hid) as [Hg _]. pose proof (wi_reserved _ Hx) as Hr. simpl in *.
    assert (wr_growth w <= claims holds ws) as Hle.
    { pose proof (map_sum_ge (fun _ x => if holds (wr_stage x) then wr_growth x else 0) ws id w) as Hge.
      simpl in Hge. rewrite Hs in Hge. apply Hge; [|done]. intros k v Hk. apply (wi_growth _ Hx) in Hk. cases_lia. }
    unfold releaseReservation. destruct (wr_growth w <=? 0) eqn:E0; bool_to_prop.
    + apply (within_drop m m ws id w (reservedBytes m)); try done; rewrite ?Hs; simpl; [done|by destruct m|lia].
    + rewrite (proj2 (Z.ltb_ge _ _)) by lia.
      apply (within_drop m _ ws id w (reservedBytes m - wr_growth w)); try done; rewrite ?Hs; simpl; [done|lia].
  - by apply within_cleanup.
Qed.

(** ** Properties *)

(** A staging area in which no write is under way. *)
Record idle (m : Manager) : Prop := mkIdle {
  id_quota : 0 < quota m <= 2 ^ 60;
  id_once : forall p q a, sessions m !! p = Some a -> sessions m !! q = Some a -> p = q;
  id_sizes : forall a w, heap m !! a = Some w -> 0 <= w_Size w <= 2 ^ 62;
  id_listed : forall p a, sessions m !! p = Some a -> is_Some (heap m !! a);
  id_reserved : reservedBytes m = 0;
  id_total : GetTotalStagingSize m <= quota m
}.

(** C17. Concurrent writes never take the staging area over its quota.  However
    the writes of any number of clients interleave (each reads its file's size,
    waits for its reservation, writes, and releases the reservation), whichever
    writes fail and whatever sessions are cleaned up meanwhile, the staged files
    and the growth still to come stay within the quota. *)
Theorem quota_never_exceeded m x :
  idle m -> rtc step (mkArea m ∅) x ->
  GetTotalStagingSize (manager x) + claims pending (writers x) <= quota m.
Proof.
  intros [] Hsteps.
  assert (within (mkArea m ∅)) as H0.
  { assert (forall f, claims f ∅ = 0) as Hc by (intros f; apply map_sum_empty).
    split; simpl; rewrite ?Hc; try done; try lia; intros id y; by rewrite lookup_empty. }
  enough (within x /\ quota (manager x) = quota m) as [Hx <-] by apply (wi_total _ Hx).
  clear -Hsteps H0. change m with (manager (mkArea m ∅)). revert H0. induction Hsteps as [|x y z Hxy _ IH]; [done|].
  intros Hx. destruct (IH (step_within _ _ Hxy Hx)) as [Hz Hq]. split; [done|]. rewrite Hq.
  destruct Hxy; try done. simpl. unfold releaseReservation. cases_lia.
Qed.

(** One session of ten bytes. *)
Definition small : Manager :=
  mkManager (mkConfig "/staging" 64 (60 * Second) 1 3 Second (30 * Second) true true "block" 80 95
               (Some (30 * Second)) (Some (250 * Millisecond)))
    {["/a" := 1%positive]} {[1%positive := set_size 3 true false SessionSafety.opened_file.2]}
    DirtyIndex.NewDirtyFileIndex ∅ 0 false ∅ SessionSafety.opened_file.1.

(** A second writer extends the file while the first one's reservation is still
    held. *)
Lemma quota_never_exceeded_witness :
  let y := mkWriter 1 (repeat x61 10) 0 7 Begun in
  let x := mkArea (reserve small 7) (<[1%positive := at_stage Reserved y]> (<[1%positive := y]> ∅)) in
  GetTotalStagingSize (manager x) + claims pending (writers x) <= quota small.
Proof.
  intros y x. apply (quota_never_exceeded small x).
  - split; [vm_compute; intuition congruence| | | |reflexivity|vm_compute; congruence].
    + intros p q a. unfold small; simpl. intros [-> _]%lookup_singleton_Some [-> _]%lookup_singleton_Some. done.
    + intros a w. unfold small; simpl. intros [_ <-]%lookup_singleton_Some. vm_compute. intuition congruence.
    + intros p a. unfold small; simpl. intros [_ <-]%lookup_singleton_Some. by eexists.
  - eapply rtc_l; [|eapply rtc_l; [|apply rtc_refl]].
    + apply (w_begin small ∅ 1 1 (set_size 3 true false SessionSafety.opened_file.2) (repeat x61 10) 0);
        vm_compute; congruence.
    + replace (Z.max 0 (growth _ _)) with 7 by (vm_compute; reflexivity).
      apply (w_reserve small (<[1%positive := y]> ∅) 1 y None 0 0 0 0); vm_compute; reflexivity.
Defined.

(** A write that has to wait for staging space always gets its answer.  As
    long as the clock moves forward from one look to the next, [ReserveWrite]
    ends, and when it grants the write, the bytes staged, reserved and granted
    were within the quota at the moment it did. *)
Theorem reserve_decides env requested growthBytes :
  (forall k, (env k).2 < (env (S k)).2) ->
  (forall k, in_range (env k).1.1 (Z.max 0 growthBytes)) ->
  exists k r,
    ReserveWrite (Z.to_nat (waitTimeout (config (env 0%nat).1.1)) + 3) env requested growthBytes = Some r /\
    match r.2 with
    | inl reserved =>
        reserved = Z.max 0 growthBytes /\ r.1 = reserve (env k).1.1 reserved /\
        used (env k).1.1 + reserved <= quota (env k).1.1
    | inr e => e = ENOSPC /\ r.1 = (env k).1.1
    end.
Proof.
  intros Hclock Hrange. unfold ReserveWrite.
  destruct (env 0%nat) as [[m0 avail0] start] eqn:E0. simpl.
  pose proof (Hrange 0%nat) as H0. rewrite E0 in H0. simpl in H0.
  assert (0 < MaxStagingSizeGB (config m0)) as Hgb.
  { destruct H0 as (Hq & _). unfold quota, GiB in Hq. lia. }
  rewrite (proj2 (Z.leb_gt _ _)) by done.
  destruct ((0 <? Z.max 0 requested) && bucketFull m0).
  { exists 0%nat, (m0, inr ENOSPC). by rewrite E0. }
  destruct (reserveLoop_ends env (Z.max 0 growthBytes) (waitTimeout (config m0)) (checkEvery (config m0))
    (start + waitTimeout (config m0)) Hclock (Z.to_nat (waitTimeout (config m0)) + 3) 0) as [[k allowed] Hl].
  { rewrite E0. simpl. lia. }
  { lia. }
  rewrite Hl. simpl. exists k. destruct allowed; eexists; (split; [reflexivity|]); simpl; [|done].
  split_and!; [done|done|]. revert Hl. generalize (Z.to_nat (waitTimeout (config m0)) + 3)%nat as fuel.
  generalize 0%nat as j. intros j fuel. revert j. induction fuel as [|fuel IH]; intros j; [done|]. simpl.
  destruct (env j) as [[m avail] now] eqn:Ej.
  destruct (reserveTurn m avail _ _ _ now _) eqn:Ea; [|done|apply IH]. intros [= <-]. rewrite Ej. simpl.
  pose proof (Hrange j) as Hj. rewrite Ej in Hj. by apply (reserveTurn_allows m avail _ _ _ now _ Hj) in Ea.
Qed.

(** The staging area is over its high watermark for two turns; then a cleanup
    makes room. *)
Definition crowded : Manager := set_reserved (900 * 1024 * 1024) small.
Definition waiting (k : nat) : view :=
  (if Nat.ltb k 2 then crowded else small, None, Z.of_nat k * Second).

Lemma reserve_decides_witness :
  exists k r, ReserveWrite (Z.to_nat (30 * Second) + 3) waiting 10 7 = Some r /\
    match r.2 with
    | inl reserved => reserved = 7 /\ r.1 = reserve (waiting k).1.1 reserved /\
        used (waiting k).1.1 + reserved <= quota (waiting k).1.1
    | inr e => e = ENOSPC /\ r.1 = (waiting k).1.1
    end.
Proof.
  apply (reserve_decides waiting 10 7).
  - intros k. unfold waiting. simpl. unfold Second, Millisecond. lia.
  - intros k. unfold waiting. destruct (Nat.ltb k 2); vm_compute; intuition congruence.
Defined.

Example waiting_granted : reserveLoop 3 0 waiting 7 (30 * Second) Second (30 * Second) = Some (2%nat, true).
Proof. vm_compute. reflexivity. Qed.

End Pressure.
