(* ===== verification/StagingRename.v ===== *)
(** * Renaming a staged file ([internal/staging/rename.go])

    The staged bytes, the session and the dirty entry move to the new path; a
    tombstone retires the old object.  The steps run in the order of the code,
    any disk call failing. *)
From S2P Require Import Prelude GoPath StagingTypes Disk DirtyIndex PathState Session.
From S2P Require Import SessionSafety StagingManager.

Module Rename.
Import Disk PathState Session Staging.
Import SessionSafety(staged).

Section Rename.
Context {PH : PathHash}.

(** [sessionAttributes] and [renamedAttributes]. *)
Definition sessionAttributes (m : Manager) (path : string) : option StagedAttributes :=
  sessionAttributesIfSet m (GetSession m path).

Definition renamedAttributes (m : Manager) (oldPath oldStaging : string)
    : Disk * option StagedAttributes :=
  match sessionAttributes m oldPath with
  | Some attrs => (disk m, Some attrs)
  | None =>
      match readPathMetadataState (disk m) (pathMetadataPath oldStaging) with
      | (d, inl state) => (d, p_Attributes state)
      | (d, inr _) => (d, None)
      end
  end.

(** [dropEntryWithoutStagedBytes]. *)
Definition dropEntryWithoutStagedBytes (m : Manager) (path : string) : Manager :=
  (removePathMetadata (set_index (DirtyIndex.DropEntry (index m) path) m) path).1.

(** [restorePathMetadata]. *)
Definition restorePathMetadata (m : Manager) (path metadataPath : string)
    (replaced : option PathMetadataState) (now : Time) : Manager :=
  let session := sessionAt m path in
  let '(d, err) :=
    match replaced with
    | Some state => let '(d, _, err) := writePathMetadataState (disk m) metadataPath state in (d, err)
    | None =>
        match remove_sidecar (disk m) metadataPath with
        | (d, Some e) => (d, if IsNotExist e then None else Some e)
        | (d, None) => (d, None)
        end
    end in
  let m := set_disk d m in
  let m :=
    if (negb (bool_decide (is_Some replaced)) || bool_decide (is_Some err)) &&
       DirtyIndex.IsDirty (index m) path
    then match recordDirtyPathLocked m path (sessionAttributesIfSet m session) now with
         | (m, inl _) => m
         | (m, inr _) => set_index (DirtyIndex.MarkUnrecorded (index m) path) m
         end
    else m in
  match session with Some a => update a metadataChanged m | None => m end.

(** The intent: the sidecar of the destination. *)
Definition rename_state (m : Manager) (oldPath newPath : string) (attrs : option StagedAttributes)
    (wasCommitted : bool) (now : Time) : PathMetadataState :=
  let dirtySince := match DirtyIndex.GetMetadata (index m) oldPath with
                    | Some meta => if IsZero (d_DirtySince meta) then now else d_DirtySince meta
                    | None => now
                    end in
  mkPathState pathMetadataVersion newPath (objectKeyFromPath newPath) "" 0 0 (stagingFilePath m newPath)
    ConflictStatusNone dirtySince attrs wasCommitted.

(** The move itself, with the source session's paths. *)
Definition rename_move (m : Manager) (oldPath newPath : string) : Manager * option error :=
  let oldStaging := stagingFilePath m oldPath in
  let newStaging := stagingFilePath m newPath in
  match sessions m !! oldPath with
  | Some a =>
      match deref m a with
      | Some w =>
          let '(d, w, err) := moveStagingFile (disk m) w newStaging
                                (fun d => rename_data d oldStaging newStaging) in
          (put a w (set_disk d m), err)
      | None => (m, Some ErrClosed)
      end
  | None => let '(d, err) := rename_data (disk m) oldStaging newStaging in (set_disk d m, err)
  end.

(** Re-keying what is in memory. *)
Definition rename_rekey (m : Manager) (oldPath newPath : string) (now : Time) : Manager :=
  let newStaging := stagingFilePath m newPath in
  let m := match sessions m !! newPath with
           | Some dest =>
               update dest (fun w => Close (set_size (w_Size w) false (w_Prefetched w) w))
                 (set_sessions (delete newPath) m)
           | None => m
           end in
  let m := match sessions m !! oldPath with
           | Some session =>
               set_sessions (fun s => <[newPath := session]> (delete oldPath s))
                 (update session (fun w => Rekey w newPath newStaging) m)
           | None => m
           end in
  set_index (DirtyIndex.Rekey (index m) oldPath newPath newStaging now) m.

(** [RenameStagedPath]. *)
Definition RenameStagedPath (m : Manager) (oldPath newPath : string) (now : Time) : Manager * option error :=
  if DirtyIndex.IsConflicted (index m) oldPath || DirtyIndex.IsConflicted (index m) newPath
  then (m, Some (Wrap ErrPathConflicted))
  else
    let oldStaging := stagingFilePath m oldPath in
    let newStaging := stagingFilePath m newPath in
    match stat_data (disk m) oldStaging with
    | (d, inr e) =>
        let m := set_disk d m in
        (if IsNotExist e then dropEntryWithoutStagedBytes m oldPath else m, Some e)
    | (d, inl _) =>
        let m := beginRenameOnto (set_disk d m) newPath in
        let '(m, _) := CancelPendingDelete m newPath in
        let newSidecar := pathMetadataPath newStaging in
        let '(d, attrs) := renamedAttributes m oldPath oldStaging in
        let '(d, old) := readPathMetadataState d (pathMetadataPath oldStaging) in
        let committed := match old with inl state => p_Committed state | inr _ => false end in
        let state := rename_state m oldPath newPath attrs committed now in
        let m := set_index (DirtyIndex.Invalidate (index m) newPath) (set_disk d m) in
        let '(d, r) := readPathMetadataState (disk m) newSidecar in
        let replaced := match r with inl st => Some st | inr _ => None end in
        match writePathMetadataState d newSidecar state with
        | (d, _, Some e) => (endRenameOnto (set_disk d m) newPath, Some (Wrap e))
        | (d, _, None) =>
            match rename_move (set_disk d m) oldPath newPath with
            | (m, Some e) =>
                let m := restorePathMetadata m newPath newSidecar replaced now in
                if IsNotExist e
                then (endRenameOnto (dropEntryWithoutStagedBytes m oldPath) newPath, Some e)
                else (endRenameOnto m newPath, Some (Wrap e))
            | (m, None) =>
                let '(m, _) := addTombstone m oldPath now in
                let '(d, _) := remove_sidecar (disk m) (pathMetadataPath oldStaging) in
                (endRenameOnto (rename_rekey (set_disk d m) oldPath newPath now) newPath, None)
            end
        end
    end.

End Rename.
End Rename.
