(* ===== verification/StagingRecovery.v ===== *)
(** * Conflicts and recovery ([internal/staging/manager.go], [tombstone.go])

    What happens to a staged file whose object was changed by someone else, and
    how a restart rebuilds the staging area from its directory.  A directory is
    listed in the order of its names. *)
From stdpp Require Import pretty.
From S2P Require Import Prelude GoPath StagingTypes Disk DirtyIndex PathState Session.
From S2P Require Import SessionSafety StagingManager StagingPressure.

Module Recovery.
Import Disk PathState Session Staging.
Import Pressure(sort_strings).
Import SessionSafety(staged, sized).

Section Staged.
Context {PH : PathHash}.

(** ** Conflicts *)

Record ExternalChangeSnapshot := mkExternalChange {
  x_ObjectKey : string; x_Size : Z; x_ETag : string; x_LastModified : Time; x_Deleted : bool; x_Reason : string
}.

(** [conflictFilePath]; the time is printed as a number here. *)
Definition conflictFilePath (m : Manager) (path : string) (detectedAt : Time) : string :=
  RootDir (config m) +:+ "/lost+found/" +:+ pretty detectedAt +:+ "_" +:+ path_hash path +:+ ".data".

(** [copyFile] of a staged file into [lost+found]: open, create exclusively,
    copy, flush; what an error leaves is removed. *)
Definition copyFile (d : Disk) (dstPath srcPath : string) : Disk * option error :=
  match open_data d srcPath with
  | (d, inr e) => (d, Some e)
  | (d, inl ino) =>
      match os_try d with
      | (d, Some e) => (d, Some e)
      | (d, None) =>
          match preserved d !! dstPath with
          | Some _ => (d, Some ErrIO)
          | None =>
              match os_tries 2 d with
              | (d, Some e) => (d, Some e)
              | (d, None) => (set_preserved <[dstPath := bytes_at d ino]> d, None)
              end
          end
      end
  end.

(** The record of a conflict, before it is written. *)
Definition conflict_record (m : Manager) (path stagingPath preservedPath : string) (size : Z)
    (change : ExternalChangeSnapshot) (detectedAt : Time) : ConflictMetadata :=
  let dirty := DirtyIndex.GetMetadata (index m) path in
  let key := if decide (x_ObjectKey change = "") then from_option d_ObjectKey "" dirty else x_ObjectKey change in
  let unobserved := bool_decide (x_ETag change = "") && bool_decide (is_Some dirty) in
  let observed {A} (f : DirtyFileMetadata -> A) (x : A) : A :=
    if unobserved then from_option f x dirty else x in
  {| c_Path := path; c_ObjectKey := key; c_Size := size; c_PreservedPath := preservedPath;
     c_PreservedMetadataPath := preservedPath +:+ ".metadata.json"; c_DetectedAt := detectedAt;
     c_Reason := if decide (x_Reason change = "") then "external_object_change" else x_Reason change;
     c_LocalDirtyGeneration := from_option d_LocalDirtyGeneration 0 dirty;
     c_StagedPath := stagingPath; c_ConflictStatus := ConflictStatusConflicted;
     c_ObservedETag := observed d_ObservedETag (x_ETag change);
     c_ObservedSize := observed d_ObservedSize (x_Size change);
     c_ObservedLastModified := observed d_ObservedLastModified (x_LastModified change);
     c_ExternalSize := x_Size change; c_ExternalETag := x_ETag change;
     c_ExternalLastModified := x_LastModified change; c_ExternalDeleted := x_Deleted change |}.

(** [RecordConflict] up to the point where the copy and its record are on disk;
    the inner [None] is a path that is not dirty. *)
Definition conflict_preserve (m : Manager) (path : string) (change : ExternalChangeSnapshot)
    (detectedAt : Time) : Manager * (option ConflictMetadata + error) :=
  if negb (DirtyIndex.IsDirty (index m) path) then (m, inl None)
  else
    let '(d, stagingPath) :=
      match sessions m !! path ≫= deref m with
      | Some w => match Sync (disk m) w with
                  | (d, Some e) => (d, inr (Wrap e))
                  | (d, None) => (d, inl (w_StagingPath w))
                  end
      | None => (disk m, inl (stagingFilePath m path))
      end in
    match stagingPath with
    | inr e => (set_disk d m, inr e)
    | inl stagingPath =>
        match stat_data d stagingPath with
        | (d, inr e) => (set_disk d m, inr (Wrap e))
        | (d, inl info) =>
            let preservedPath := conflictFilePath m path detectedAt in
            match os_try d with
            | (d, Some e) => (set_disk d m, inr (Wrap e))
            | (d, None) =>
                match copyFile d preservedPath stagingPath with
                | (d, Some e) => (set_disk d m, inr (Wrap e))
                | (d, None) =>
                    let conflict := conflict_record m path stagingPath preservedPath
                      (len (content info)) change detectedAt in
                    match writeSidecarFile d true with
                    | (d, Some e) => (set_disk d m, inr (Wrap e))
                    | (d, None) =>
                        let d := set_conflict_files
                          <[c_PreservedMetadataPath conflict := Some conflict]> d in
                        match os_tries 2 d with
                        | (d, Some e) => (set_disk d m, inr (Wrap e))
                        | (d, None) => (set_disk d m, inl (Some conflict))
                        end
                    end
                end
            end
        end
    end.

(** The rest of it: take the session away, remove the staged originals, mark the
    path conflicted. *)
Definition remove_existing (r : Disk * option error) : Disk * option error :=
  match r with
  | (d, Some e) => (d, if IsNotExist e then None else Some (Wrap e))
  | (d, None) => (d, None)
  end.

Definition conflict_finish (m : Manager) (conflict : ConflictMetadata) : Manager * option error :=
  let path := c_Path conflict in
  let session := sessions m !! path in
  let m := set_sessions (delete path) m in
  let m := match session with
           | Some a => update a (fun w => Close (set_size (w_Size w) false (w_Prefetched w) w)) m
           | None => m
           end in
  match remove_existing (remove_data (disk m) (c_StagedPath conflict)) with
  | (d, Some e) => (set_disk d m, Some e)
  | (d, None) =>
      match remove_existing (remove_sidecar d (pathMetadataPath (c_StagedPath conflict))) with
      | (d, Some e) => (set_disk d m, Some e)
      | (d, None) =>
          let m := set_disk d m in
          (set_index (DirtyIndex.MarkConflicted (index m) conflict) m, None)
      end
  end.

Definition RecordConflict (m : Manager) (path : string) (change : ExternalChangeSnapshot)
    (detectedAt : Time) : Manager * (option ConflictMetadata + error) :=
  match conflict_preserve m path change detectedAt with
  | (m, inl (Some conflict)) =>
      match conflict_finish m conflict with
      | (m, Some e) => (m, inr e)
      | (m, None) => (m, inl (Some conflict))
      end
  | r => r
  end.

(** ** Recovery *)

(** [recoverTombstonesFromDisk]: a record that does not decode is removed. *)
Definition recover_tombstone (m : Manager) (name : string) : Manager :=
  match os_try (disk m) with
  | (d, Some _) => set_disk d m
  | (d, None) =>
      let m := set_disk d m in
      match tombstone_files d !! name with
      | None => m
      | Some (Some tomb) =>
          if decide (t_Path tomb = "") then set_disk (set_tombstone_files (delete name) d) m
          else
            let tomb := mkTombstone (t_Version tomb) (t_Path tomb)
              (if decide (t_ObjectKey tomb = "") then objectKeyFromPath (t_Path tomb) else t_ObjectKey tomb)
              (t_CreatedAt tomb) in
            set_tombstones <[t_Path tomb := tomb]> m
      | Some None => set_disk (set_tombstone_files (delete name) d) m
      end
  end.

Definition listing {A} (files : gmap string A) (suffix : string) : list string :=
  sort_strings (filter (fun name => HasSuffix name suffix = true) (map_to_list files).*1).

Definition recoverTombstonesFromDisk (m : Manager) : Manager :=
  match os_try (disk m) with
  | (d, Some _) => set_disk d m
  | (d, None) => foldl recover_tombstone (set_disk d m) (listing (tombstone_files d) ".tombstone.json")
  end.

(** One staged file of [RecoverFromDisk]. *)
Definition recover_file (now : Time) (m : Manager) (filePath : string) : Manager :=
  match stat_data (disk m) filePath with
  | (d, inr _) => set_disk d m
  | (d, inl info) =>
      let metadataPath := pathMetadataPath filePath in
      match readPathMetadataState d metadataPath with
      | (d, inr _) => set_disk d m
      | (d, inl state) =>
          let m := set_disk d m in
          if decide (p_ConflictStatus state = ConflictStatusConflicted) then m
          else if HasPendingDelete m (p_OriginalPath state) then
            let '(d, _) := remove_data (disk m) filePath in
            let '(d, _) := remove_sidecar d metadataPath in
            set_disk d m
          else
            let '(d, state) :=
              if decide (p_StagedFilePath state = filePath) then (disk m, state)
              else let '(d, state, _) := writePathMetadataState (disk m) metadataPath
                     (set_p_StagedFilePath filePath state) in (d, state) in
            match RecoverSessionFromStaging (set_disk d m) (p_OriginalPath state) now with
            | (m, inr _) => m
            | (m, inl a) =>
                let size := len (content info) in
                let m := update a (fun w => set_times (modtime info) (modtime info)
                           (set_size size true (w_Prefetched w) w)) m in
                set_index (DirtyIndex.RestoreDirty (index m)
                  (dirtyMetadataFromPathState state size (modtime info))) m
            end
      end
  end.

(** One sidecar: removed when its data file is gone. *)
Definition recover_sidecar (m : Manager) (metadataPath : string) : Manager :=
  match stat_data (disk m) (TrimSuffix metadataPath ".metadata") with
  | (d, inl _) => set_disk d m
  | (d, inr e) =>
      if IsNotExist e then let '(d, _) := remove_sidecar d metadataPath in set_disk d m
      else set_disk d m
  end.

(** One record of [recoverConflictsFromDisk]. *)
Definition recover_conflict (m : Manager) (metadataPath : string) : Manager :=
  match os_try (disk m) with
  | (d, Some _) => set_disk d m
  | (d, None) =>
      let m := set_disk d m in
      match conflict_files d !! metadataPath with
      | Some (Some c) =>
          if decide (c_Path c = "") then m
          else
            let preservedMetadataPath :=
              if decide (c_PreservedMetadataPath c = "") then metadataPath else c_PreservedMetadataPath c in
            let preservedPath :=
              if decide (c_PreservedPath c = "") then TrimSuffix metadataPath ".metadata.json"
              else c_PreservedPath c in
            match os_try d with
            | (d, Some _) => set_disk d m
            | (d, None) =>
                match preserved d !! preservedPath with
                | None =>
                    match os_try d with
                    | (d, Some _) => set_disk d m
                    | (d, None) => set_disk (set_conflict_files (delete metadataPath) d) m
                    end
                | Some _ =>
                    let unobserved := bool_decide (c_ObservedETag c = "") in
                    let c := {|
                      c_Path := c_Path c;
                      c_ObjectKey := if decide (c_ObjectKey c = "") then objectKeyFromPath (c_Path c)
                                     else c_ObjectKey c;
                      c_Size := c_Size c; c_PreservedPath := preservedPath;
                      c_PreservedMetadataPath := preservedMetadataPath; c_DetectedAt := c_DetectedAt c;
                      c_Reason := c_Reason c; c_LocalDirtyGeneration := c_LocalDirtyGeneration c;
                      c_StagedPath := c_StagedPath c;
                      c_ConflictStatus := if decide (c_ConflictStatus c = "") then ConflictStatusConflicted
                                          else c_ConflictStatus c;
                      c_ObservedETag := if unobserved then c_ExternalETag c else c_ObservedETag c;
                      c_ObservedSize := if unobserved then c_ExternalSize c else c_ObservedSize c;
                      c_ObservedLastModified :=
                        if unobserved then c_ExternalLastModified c else c_ObservedLastModified c;
                      c_ExternalSize := c_ExternalSize c; c_ExternalETag := c_ExternalETag c;
                      c_ExternalLastModified := c_ExternalLastModified c;
                      c_ExternalDeleted := c_ExternalDeleted c |} in
                    let m := set_disk d m in
                    set_index (DirtyIndex.MarkConflicted (index m) c) m
                end
            end
      | _ => m
      end
  end.

Definition recoverConflictsFromDisk (m : Manager) : Manager :=
  match os_try (disk m) with
  | (d, Some _) => set_disk d m
  | (d, None) => foldl recover_conflict (set_disk d m) (listing (conflict_files d) ".metadata.json")
  end.

(** [RecoverFromDisk].  The directory is listed once, before any file is
    looked at. *)
Definition RecoverFromDisk (m : Manager) (now : Time) : Manager * option error :=
  let m := recoverTombstonesFromDisk m in
  let '(d, _) := os_try (disk m) in
  match os_try d with
  | (d, Some e) => (set_disk d m, Some (Wrap e))
  | (d, None) =>
      let files := listing (data d) ".data" in
      let metadata := listing (sidecars d) ".metadata" in
      let m := foldl (recover_file now) (set_disk d m) files in
      let m := foldl recover_sidecar m metadata in
      (recoverConflictsFromDisk m, None)
  end.

(** [NewStagingManager]: two directories, then recovery, whose error is only
    reported.  [cfg] is the configuration as [normalizeBackpressureConfig] leaves
    it ([StagingPressure] has its defaults, which recovery does not look at). *)
Definition NewStagingManager (cfg : StagingConfig) (d : Disk) (now : Time) : Manager + error :=
  match os_tries 2 d with
  | (_, Some e) => inr (Wrap e)
  | (d, None) =>
      inl (RecoverFromDisk
        (mkManager cfg ∅ ∅ DirtyIndex.NewDirtyFileIndex ∅ 0 false ∅ d) now).1
  end.

(** ** What a restart finds *)

Abbreviation SP m p := (stagingFilePath m p).

(** Every sidecar that decodes belongs to the staged file it is next to. *)
Definition consistent (m : Manager) : Prop :=
  forall name d st, readPathMetadataState (disk m) (pathMetadataPath name) = (d, inl st) ->
    is_Some (data (disk m) !! name) -> name = SP m (p_OriginalPath st).

(** A staged file with a sidecar: its inode and the sidecar. *)
Record staged_file (m : Manager) (p : string) (i : inode) : Prop := mkStagedFile {
  sf_data : exists ino, data (disk m) !! SP m p = Some ino /\ inodes (disk m) !! ino = Some i;
  sf_sidecar : exists d st, readPathMetadataState (disk m) (pathMetadataPath (SP m p)) = (d, inl st) /\
    p_OriginalPath st = p /\ p_ConflictStatus st <> ConflictStatusConflicted
}.

(** A file the staging area holds in full again: its session stages the bytes,
    and it is queued. *)
Definition restored (m : Manager) (p : string) (i : inode) : Prop :=
  exists a w ino, sessions m !! p = Some a /\ heap m !! a = Some w /\
    w_File w = Some ino /\ inodes (disk m) !! ino = Some i /\
    w_Size w = len (content i) /\ w_Dirty w = true /\ w_RefCount w = 0 /\
    DirtyIndex.IsDirty (index m) p = true.

Lemma stagingFilePath_inj m p q : SP m p = SP m q -> p = q.
Proof.
  unfold stagingFilePath. intros H%(inj _)%(inj _)%string_app_cancel_r. by apply path_hash_inj in H.
Qed.

Lemma pathMetadataPath_inj p q : pathMetadataPath p = pathMetadataPath q -> p = q.
Proof. apply string_app_cancel_r. Qed.

(** Reading twice, or after a change elsewhere, gives the same. *)
Lemma read_reliable d mp :
  outcomes d = [] -> readPathMetadataState d mp = (d, (readPathMetadataState d mp).2).
Proof. intros H. unfold readPathMetadataState. by rewrite os_try_reliable. Qed.

Lemma read_ext d d' mp :
  outcomes d = [] -> outcomes d' = [] -> sidecars d' !! mp = sidecars d !! mp ->
  (readPathMetadataState d' mp).2 = (readPathMetadataState d mp).2.
Proof. intros H H' Hs. unfold readPathMetadataState. rewrite !os_try_reliable by done. simpl. by rewrite Hs. Qed.

(** What recovering the staged file of [q] changes. *)
Record recovers (q : string) (m m' : Manager) (a : positive) (w : WriteSession) : Prop := mkRecovers {
  rc_config : config m' = config m;
  rc_tombstones : tombstones m' = tombstones m;
  rc_sessions : sessions m' = <[q := a]> (sessions m);
  rc_heap : heap m' = <[a := w]> (heap m);
  rc_fresh : a ∉ dom (heap m);
  rc_dirty : exists meta, DirtyIndex.dirty (index m') = <[q := meta]> (DirtyIndex.dirty (index m));
  rc_conflicts : DirtyIndex.conflicts (index m') = DirtyIndex.conflicts (index m);
  rc_data : data (disk m') = data (disk m);
  rc_inodes : inodes (disk m') = inodes (disk m);
  rc_reliable : outcomes (disk m') = [];
  rc_conflict_files : conflict_files (disk m') = conflict_files (disk m);
  rc_others : forall mp, mp <> pathMetadataPath (SP m q) -> sidecars (disk m') !! mp = sidecars (disk m) !! mp;
  rc_own : exists st, (readPathMetadataState (disk m') (pathMetadataPath (SP m q))).2 = inl st /\
    p_OriginalPath st = q /\ p_ConflictStatus st <> ConflictStatusConflicted
}.

(** The sidecar refreshed for a staging directory that moved. *)
Lemma refresh_reliable d mp st name d' st' e :
  outcomes d = [] -> (readPathMetadataState d mp).2 = inl st ->
  writePathMetadataState d mp (set_p_StagedFilePath name st) = (d', st', e) ->
  data d' = data d /\ inodes d' = inodes d /\ outcomes d' = [] /\ conflict_files d' = conflict_files d /\
  (forall mp', mp' <> mp -> sidecars d' !! mp' = sidecars d !! mp') /\
  (readPathMetadataState d' mp).2 = inl st' /\ p_OriginalPath st' = p_OriginalPath st /\
  p_StagedFilePath st' = name /\ p_ConflictStatus st' = p_ConflictStatus st.
Proof.
  intros Hrel Hread Hw. pose proof (write_reliable _ _ _ _ _ _ Hrel Hw) as [-> Hrel'].
  pose proof (write_cases _ _ _ _ _ _ Hw) as ((Ho & Hs & _) & Hfill & d0 & [o ->] & [[[? ?] _]|[_ ->]]); [done|].
  simpl in Ho, Hs.
  assert (p_OriginalPath st <> "" /\ p_ConflictStatus st <> "") as [Hne Hcs].
  { destruct (read_Some d mp d st) as (sc & raw & _ & _ & -> & Hne).
    - by rewrite read_reliable, Hread.
    - split; [done|]. simpl. by case_decide. }
  split_and!; try done.
  - intros mp' Hmp. simpl. by rewrite lookup_insert_ne.
  - rewrite (read_installed _ _ (mkSidecar (Some st') (p_Committed st')) st'); simpl; try done.
    + by rewrite Hfill.
    + apply lookup_insert_eq.
    + by rewrite Ho.
  - assert (p_ConflictStatus st' = p_ConflictStatus (fill_defaults (set_p_StagedFilePath name st))) as ->.
    { unfold writePathMetadataState in Hw. revert Hw.
      match goal with |- context [let '(_, _) := ?x in _] => destruct x as [d1 st1] eqn:E1 end.
      assert (p_ConflictStatus st1 = p_ConflictStatus (fill_defaults (set_p_StagedFilePath name st))) as <-.
      { repeat case_match; by simplify_eq. }
      intros Hw. repeat case_match; by simplify_eq. }
    simpl. by rewrite decide_False.
Qed.

Lemma set_disk_same m : set_disk (disk m) m = m.
Proof. by destruct m. Qed.

(** The session [RecoverSessionFromStaging] rebuilds around a file whose sidecar
    is in order. *)
Lemma recover_session_reliable m q ino i st now :
  outcomes (disk m) = [] -> sessions m !! q = None ->
  data (disk m) !! SP m q = Some ino -> inodes (disk m) !! ino = Some i ->
  (readPathMetadataState (disk m) (pathMetadataPath (SP m q))).2 = inl st ->
  p_OriginalPath st = q -> p_StagedFilePath st = SP m q ->
  exists w, let a := fresh (dom (heap m)) in
    RecoverSessionFromStaging m q now = (set_sessions <[q := a]> (put a w m), inl a) /\
    w_File w = Some ino /\ w_Size w = len (content i) /\ w_Dirty w = true /\ w_RefCount w = 0.
Proof.
  intros Hrel Hs Hino Hi Hr Ho Hsp. unfold RecoverSessionFromStaging, stat_data.
  rewrite os_try_reliable, Hino, Hi, set_disk_same, Hs by done.
  unfold NewWriteSession, open_or_create. rewrite os_try_reliable, Hino, os_try_reliable by done.
  unfold EnsurePathMetadata. rewrite (read_reliable (disk m)), Hr by done.
  rewrite decide_True by done. rewrite (read_reliable (disk m)), Hr by done.
  eexists. simpl. rewrite set_disk_same. split; [reflexivity|]. by destruct (p_Attributes st).
Qed.

Lemma recover_file_good m q i now :
  outcomes (disk m) = [] -> sessions m !! q = None -> tombstones m !! q = None ->
  DirtyIndex.conflicts (index m) !! q = None -> staged_file m q i ->
  exists a w ino, recovers q m (recover_file now m (SP m q)) a w /\
    data (disk m) !! SP m q = Some ino /\ inodes (disk m) !! ino = Some i /\
    w_File w = Some ino /\ w_Size w = len (content i) /\ w_Dirty w = true /\ w_RefCount w = 0.
Proof.
  intros Hrel Hs Ht Hc [(ino & Hino & Hi) (d0 & st & Hread & Ho & Hcs)].
  rewrite read_reliable in Hread by done. injection Hread as _ Hread.
  assert (q <> "") as Hq.
  { destruct (read_Some (disk m) (pathMetadataPath (SP m q)) (disk m) st) as (_ & _ & _ & _ & _ & Hne).
    - by rewrite read_reliable, Hread.
    - congruence. }
  unfold recover_file, stat_data. rewrite os_try_reliable, Hino, Hi by done.
  rewrite (read_reliable (disk m)), Hread by done. rewrite set_disk_same.
  rewrite decide_False by done. unfold HasPendingDelete. rewrite Ho, Ht.
  rewrite bool_decide_eq_false_2 by (by intros []).
  assert (exists d1 st1, (if decide (p_StagedFilePath st = SP m q) then (disk m, st)
      else let '(d, state, _) := writePathMetadataState (disk m) (pathMetadataPath (SP m q))
             (set_p_StagedFilePath (SP m q) st) in (d, state)) = (d1, st1) /\
    data d1 = data (disk m) /\ inodes d1 = inodes (disk m) /\ outcomes d1 = [] /\
    conflict_files d1 = conflict_files (disk m) /\
    (forall mp, mp <> pathMetadataPath (SP m q) -> sidecars d1 !! mp = sidecars (disk m) !! mp) /\
    (readPathMetadataState d1 (pathMetadataPath (SP m q))).2 = inl st1 /\ p_OriginalPath st1 = q /\
    p_StagedFilePath st1 = SP m q /\ p_ConflictStatus st1 <> ConflictStatusConflicted)
    as (d1 & st1 & -> & Hd1 & Hi1 & Hr1 & Hcf1 & Hs1 & Hread1 & Ho1 & Hsp1 & Hcs1).
  { case_decide; [by exists (disk m), st|].
    destruct (writePathMetadataState _ _ _) as [[d1 st1] e1] eqn:Ew.
    destruct (refresh_reliable _ _ st _ _ _ _ Hrel Hread Ew) as (?&?&?&?&?&?&?&?&?).
    exists d1, st1. split_and!; try done; congruence. }
  destruct (recover_session_reliable (set_disk d1 m) q ino i st1 now) as (w & Hrec & Hf & Hsz & Hdirty & Hrefs);
    simpl; try done; [by rewrite Hd1|by rewrite Hi1|].
  rewrite Ho1, Hrec. simpl. set (a := fresh (dom (heap m))).
  exists a, (set_times (modtime i) (modtime i) (set_size (len (content i)) true (w_Prefetched w) w)), ino.
  split; [|by split_and!].
  unfold DirtyIndex.RestoreDirty. simpl. rewrite Ho1, decide_False, Hc by done.
  split; simpl; try done.
  - apply map_eq. intros b. rewrite lookup_alter, !lookup_insert. by repeat case_decide.
  - apply is_fresh.
  - by eexists.
  - exists st1. done.
Qed.

(** The state recovery starts from and keeps: a disk that answers and no delete
    or conflict. *)
Record recovering (m : Manager) : Prop := mkRecovering {
  rv_reliable : outcomes (disk m) = [];
  rv_tombstones : tombstones m = ∅;
  rv_conflicts : DirtyIndex.conflicts (index m) = ∅;
  rv_consistent : consistent m
}.

Lemma recover_file_cases m n now : recovering m ->
  (recover_file now m n = m /\ forall p i, staged_file m p i -> SP m p <> n) \/
  exists q i, n = SP m q /\ staged_file m q i.
Proof.
  intros [Hrel Ht Hc Hcons]. unfold recover_file, stat_data. rewrite os_try_reliable by done.
  destruct (data (disk m) !! n) as [ino|] eqn:Hino.
  2: { left. rewrite set_disk_same. split; [done|]. intros p i [(ino & Hp & _) _] <-. congruence. }
  destruct (inodes (disk m) !! ino) as [i|] eqn:Hi.
  2: { left. rewrite set_disk_same. split; [done|]. intros p i [(ino' & Hp & Hi') _] <-. congruence. }
  rewrite (read_reliable (disk m)) by done.
  destruct (readPathMetadataState (disk m) (pathMetadataPath n)).2 as [st|e] eqn:Er.
  2: { left. rewrite set_disk_same. split; [done|]. intros p i' [_ (d & st & Hr & _)] <-.
       rewrite read_reliable, Er in Hr by done. congruence. }
  rewrite set_disk_same. case_decide as Hcs.
  { left. split; [done|]. intros p i' [_ (d & st' & Hr & _ & Hne)] <-.
    rewrite read_reliable, Er in Hr by done. congruence. }
  right. assert (n = SP m (p_OriginalPath st)) as Hn.
  { apply (Hcons n (disk m)); [by rewrite read_reliable, Er|by rewrite Hino]. }
  exists (p_OriginalPath st), i. split; [done|]. rewrite <-Hn || idtac. split.
  - exists ino. by rewrite <-Hn.
  - exists (disk m), st. rewrite <-Hn. by rewrite read_reliable, Er.
Qed.

Lemma recovers_keeps q m m' a w : recovering m -> recovers q m m' a w -> recovering m' /\
  (forall p i, p <> q -> staged_file m p i -> staged_file m' p i) /\
  (forall p i, p <> q -> restored m p i -> restored m' p i).
Proof.
  intros [Hrel Ht Hc Hcons] [].
  assert (forall n, n <> SP m q -> (readPathMetadataState (disk m') (pathMetadataPath n)).2 =
    (readPathMetadataState (disk m) (pathMetadataPath n)).2) as Hread.
  { intros n Hn. apply read_ext; [done|done|]. apply rc_others0. by intros ->%pathMetadataPath_inj. }
  assert (forall p, SP m' p = SP m p) as Hsp by (intros p; unfold stagingFilePath; by rewrite rc_config0).
  split_and!.
  - split; [done|congruence|congruence|]. intros n d st Hr Hn. rewrite Hsp.
    rewrite read_reliable in Hr by done. injection Hr as _ Hr. rewrite rc_data0 in Hn.
    destruct (decide (n = SP m q)) as [->|Hne].
    + destruct rc_own0 as (st' & Hr' & <- & _). congruence.
    + rewrite Hread in Hr by done. apply (Hcons n (disk m)); [by rewrite read_reliable, Hr|done].
  - intros p i Hp [(ino & Hino & Hi) (d & st & Hr & Hst)].
    assert (SP m p <> SP m q) by (by intros ?%stagingFilePath_inj). split.
    + exists ino. by rewrite Hsp, rc_data0, rc_inodes0.
    + exists (disk m'), st. rewrite Hsp, read_reliable, Hread by done.
      rewrite read_reliable in Hr by done. split; [congruence|done].
  - intros p i Hp (b & w0 & ino & Hs & Hh & Hf & Hi & Hrest). exists b, w0, ino.
    rewrite rc_sessions0, rc_heap0, rc_inodes0, !lookup_insert_ne by done || idtac.
    assert (a <> b) by (intros ->; apply rc_fresh0; by apply elem_of_dom).
    rewrite !lookup_insert_ne by done. destruct Hrest as (?&?&?&Hd). split_and!; try done.
    destruct rc_dirty0 as [meta Hm]. unfold DirtyIndex.IsDirty in *. by rewrite Hm, lookup_insert_ne.
Qed.

Lemma recover_files now l : forall m, recovering m -> NoDup l ->
  (forall q, SP m q ∈ l -> sessions m !! q = None) ->
  let m' := foldl (recover_file now) m l in
  recovering m' /\ config m' = config m /\ conflict_files (disk m') = conflict_files (disk m) /\
  (forall p i, SP m p ∉ l -> restored m p i -> restored m' p i) /\
  (forall p i, SP m p ∈ l -> staged_file m p i -> restored m' p i).
Proof.
  induction l as [|n l IH]; intros m Hm Hnd Hnew; simpl.
  { split_and!; try done. by intros p i ?%elem_of_nil. }
  apply NoDup_cons in Hnd as [Hn Hnd].
  destruct (recover_file_cases m n now Hm) as [[-> Hskip]|(q & i & -> & Hq)].
  { destruct (IH m Hm Hnd) as (H1 & H2 & H3 & H4 & H5); [set_solver|].
    split_and!; try done.
    - intros p i Hp. apply H4. set_solver.
    - intros p i Hp Hs. apply H5; [|done]. specialize (Hskip p i Hs). set_solver. }
  pose proof Hm as [Hrel Ht Hc _].
  destruct (recover_file_good m q i now) as (a & w & ino & Hrec & Hino & Hi & Hf & Hsz & Hd & Hr); try done.
  { apply Hnew. set_solver. }
  { by rewrite Ht, lookup_empty. }
  { by rewrite Hc, lookup_empty. }
  destruct (recovers_keeps _ _ _ _ _ Hm Hrec) as (Hm' & Hkeep & Hkeep').
  set (m1 := recover_file now m (SP m q)) in *. pose proof Hrec as [].
  assert (forall p, SP m1 p = SP m p) as Hsp by (intros p; unfold stagingFilePath; by rewrite rc_config0).
  assert (restored m1 q i) as Hq1.
  { exists a, w, ino. rewrite rc_sessions0, rc_heap0, rc_inodes0, !lookup_insert_eq. split_and!; try done.
    destruct rc_dirty0 as [meta Hmeta]. unfold DirtyIndex.IsDirty. rewrite Hmeta, lookup_insert_eq.
    by apply bool_decide_eq_true_2. }
  destruct (IH m1 Hm' Hnd) as (H1 & H2 & H3 & H4 & H5).
  { intros p Hp. rewrite Hsp in Hp. rewrite rc_sessions0.
    destruct (decide (p = q)) as [->|]; [done|]. rewrite lookup_insert_ne by done. apply Hnew. set_solver. }
  setoid_rewrite Hsp in H4. setoid_rewrite Hsp in H5. split_and!; [done|congruence|congruence| |].
  - intros p i' Hp Hr'. apply H4; [set_solver|]. apply Hkeep'; [|done]. intros ->. set_solver.
  - intros p i' Hp Hs. destruct (decide (p = q)) as [->|Hne].
    + assert (i' = i) as -> by (destruct Hs as [(ino' & ? & ?) _]; congruence). by apply H4.
    + apply H5; [|by apply Hkeep]. apply elem_of_cons in Hp as [Hp%stagingFilePath_inj|]; done.
Qed.

(** *** The listing *)

Lemma insert_string_perm x l : Pressure.insert_string x l ≡ₚ x :: l.
Proof.
  induction l as [|y l IH]; simpl; [done|]. destruct (string_ltb y x); [|done].
  rewrite IH. apply Permutation_swap.
Qed.
Lemma sort_strings_perm l : sort_strings l ≡ₚ l.
Proof. induction l as [|x l IH]; simpl; [done|]. by rewrite insert_string_perm, IH. Qed.

Lemma elem_of_dir_listing {A} (files : gmap string A) suffix name :
  name ∈ listing files suffix <-> HasSuffix name suffix = true /\ is_Some (files !! name).
Proof.
  unfold listing. rewrite sort_strings_perm, list_elem_of_filter. f_equiv.
  rewrite list_elem_of_fmap. split.
  - intros ([n x] & -> & Hx%elem_of_map_to_list). eauto.
  - intros [x Hx]. exists (name, x). split; [done|]. by apply elem_of_map_to_list.
Qed.

Lemma NoDup_listing {A} (files : gmap string A) suffix : NoDup (listing files suffix).
Proof.
  unfold listing. rewrite sort_strings_perm. apply NoDup_filter, NoDup_fst_map_to_list.
Qed.

(** *** Stale sidecars *)

Lemma recover_sidecar_keeps m mp : outcomes (disk m) = [] ->
  exists d', recover_sidecar m mp = set_disk d' m /\ outcomes d' = [] /\
    inodes d' = inodes (disk m) /\ conflict_files d' = conflict_files (disk m).
Proof.
  intros Hrel. unfold recover_sidecar, stat_data. rewrite os_try_reliable by done.
  destruct (match data (disk m) !! _ with Some _ => _ | None => _ end); [by eauto|].
  destruct (IsNotExist e); [|by eauto]. unfold remove_sidecar. rewrite os_try_reliable by done.
  destruct (sidecars (disk m) !! mp); eauto 6.
Qed.

Lemma recover_sidecars l : forall m, outcomes (disk m) = [] ->
  exists d', foldl recover_sidecar m l = set_disk d' m /\ outcomes d' = [] /\
    inodes d' = inodes (disk m) /\ conflict_files d' = conflict_files (disk m).
Proof.
  induction l as [|mp l IH]; intros m Hrel; simpl; [exists (disk m); by rewrite set_disk_same|].
  destruct (recover_sidecar_keeps m mp Hrel) as (d1 & -> & Hr1 & Hi1 & Hc1).
  destruct (IH (set_disk d1 m) Hr1) as (d2 & -> & Hr2 & Hi2 & Hc2). exists d2.
  split_and!; simpl in *; try done; congruence.
Qed.

Lemma listing_empty {A} suffix : listing (∅ : gmap string A) suffix = [].
Proof. unfold listing. by rewrite map_to_list_empty. Qed.

(** A fresh manager over the directory. *)
Definition blank (cfg : StagingConfig) (d : Disk) : Manager :=
  mkManager cfg ∅ ∅ DirtyIndex.NewDirtyFileIndex ∅ 0 false ∅ d.

Lemma recovery_restores_lemma cfg d now :
  outcomes d = [] -> tombstone_files d = ∅ -> conflict_files d = ∅ -> consistent (blank cfg d) ->
  exists m, NewStagingManager cfg d now = inl m /\
    forall p i, staged_file (blank cfg d) p i -> restored m p i.
Proof.
  intros Hrel Ht Hc Hcons. unfold NewStagingManager. rewrite os_tries_reliable by done.
  change (mkManager cfg ∅ ∅ DirtyIndex.NewDirtyFileIndex ∅ 0 false ∅ d) with (blank cfg d).
  unfold RecoverFromDisk, recoverTombstonesFromDisk. change (disk (blank cfg d)) with d.
  rewrite (os_try_reliable d Hrel), Ht, listing_empty. cbn [foldl].
  change (disk (set_disk d (blank cfg d))) with d. rewrite !(os_try_reliable d Hrel).
  change (set_disk d (set_disk d (blank cfg d))) with (blank cfg d).
  destruct (recover_files now (listing (data d) ".data") (blank cfg d)) as (Hm & Hcfg & Hcf & _ & Hall).
  { by split. }
  { apply NoDup_listing. }
  { intros q _. apply lookup_empty. }
  set (m1 := foldl (recover_file now) (blank cfg d) _) in *.
  destruct (recover_sidecars (listing (sidecars d) ".metadata") m1 (rv_reliable _ Hm)) as (d2 & -> & Hr2 & Hi2 & Hc2).
  unfold recoverConflictsFromDisk. simpl. rewrite os_try_reliable by done.
  rewrite Hc2, Hcf. simpl. rewrite Hc, listing_empty. simpl. eexists. split; [reflexivity|].
  intros p i Hp.
  assert (restored m1 p i) as (a & w & ino & Hs & Hh & Hf & Hi & Hrest).
  { apply Hall; [|done]. apply elem_of_dir_listing. destruct Hp as [(ino & Hino & _) _]. split; [|by exists ino].
    apply HasSuffix_spec. exists (RootDir cfg +:+ "/active/" +:+ path_hash p).
    unfold stagingFilePath. simpl. by rewrite !string_app_assoc. }
  exists a, w, ino. simpl. rewrite Hi2. done.
Qed.

End Staged.
End Recovery.
