(* ===== verification/StagingConflict.v ===== *)
(** * What recording a conflict keeps

    When someone else changed the object of a dirty file, the object wins and
    the staged bytes are preserved ([Recovery.RecordConflict]). *)
From S2P Require Import Prelude GoPath StagingTypes Disk DirtyIndex PathState Session.
From S2P Require Import SessionSafety StagingManager StagingRecovery.

Module Conflict.
Import Disk PathState Session Staging Recovery.
Import SessionSafety(staged).

Section Conflict.
Context {PH : PathHash}.

(** Data files and preserved copies as they were. *)
Record untouched_files (d d' : Disk) : Prop := mkUntouched {
  uf_data : data d' = data d;
  uf_inodes : inodes d' = inodes d;
  uf_preserved : preserved d' = preserved d
}.

Lemma untouched_refl d : untouched_files d d.
Proof. by split. Qed.
Lemma untouched_trans d1 d2 d3 : untouched_files d1 d2 -> untouched_files d2 d3 -> untouched_files d1 d3.
Proof. intros [] []. split; congruence. Qed.
Lemma untouched_same d d' : same_files d d' -> untouched_files d d'.
Proof. by intros [o ->]. Qed.

Lemma untouched_Sync d w d' e : Sync d w = (d', e) -> untouched_files d d'.
Proof.
  unfold Sync, flush, file_sync. destruct (w_File w) as [file|]; [|by intros [= <- <-]].
  destruct (os_try d) as [d1 [e1|]] eqn:E; apply os_try_same in E as [o ->]; by intros [= <- <-].
Qed.

Lemma untouched_stat d name d' r : stat_data d name = (d', r) -> untouched_files d d'.
Proof.
  unfold stat_data. destruct (os_try d) as [d1 [e1|]] eqn:E; apply os_try_same in E as [o ->]; by intros [= <- <-].
Qed.

(** A copy either fails, leaving everything as it was, or holds the bytes. *)
Lemma copyFile_cases d dst src d' err :
  copyFile d dst src = (d', err) ->
  data d' = data d /\ inodes d' = inodes d /\
  (err = None -> exists ino, data d !! src = Some ino /\ preserved d' = <[dst := bytes_at d ino]> (preserved d)).
Proof.
  unfold copyFile, open_data. destruct (os_try d) as [d1 [e1|]] eqn:E1; apply os_try_same in E1 as [o1 ->];
    [by intros [= <- <-]|]. simpl.
  destruct (data d !! src) as [ino|]; [|by intros [= <- <-]].
  destruct (os_try _) as [d2 [e2|]] eqn:E2; apply os_try_same in E2 as [o2 ->]; [by intros [= <- <-]|].
  simpl. destruct (preserved d !! dst); [by intros [= <- <-]|].
  destruct (os_tries 2 _) as [d3 [e3|]] eqn:E3; apply os_tries_same in E3 as [o3 ->]; intros [= <- <-]; [done|].
  split_and!; [done|done|]. intros _. by exists ino.
Qed.

(** Up to the point where the copy is recorded, the staged file stays; from
    there on the copy holds its bytes. *)
Lemma preserve_cases m path a w change t m' r :
  sessions m !! path = Some a -> heap m !! a = Some w ->
  conflict_preserve m path change t = (m', r) ->
  data (disk m') = data (disk m) /\ inodes (disk m') = inodes (disk m) /\
  (forall c, r = inl (Some c) -> c_Path c = path /\ c_StagedPath c = w_StagingPath w /\
     conflict_files (disk m') !! c_PreservedMetadataPath c = Some (Some c) /\
     exists ino, data (disk m) !! w_StagingPath w = Some ino /\
       preserved (disk m') !! c_PreservedPath c = Some (bytes_at (disk m) ino)).
Proof.
  intros Ha Hw. unfold conflict_preserve. destruct (DirtyIndex.IsDirty _ _); simpl; [|by intros [= <- <-]].
  rewrite Ha. simpl. unfold deref. rewrite Hw.
  destruct (Sync (disk m) w) as [d1 [e1|]] eqn:E1; apply untouched_Sync in E1 as [Hd1 Hi1 _];
    [by intros [= <- <-]|].
  destruct (stat_data d1 _) as [d2 [info|e2]] eqn:E2; apply untouched_stat in E2 as [Hd2 Hi2 _];
    [|intros [= <- <-]; simpl; split_and!; try done; congruence].
  destruct (os_try d2) as [d3 [e3|]] eqn:E3; apply os_try_same in E3 as [o3 ->];
    [intros [= <- <-]; simpl; split_and!; try done; congruence|].
  destruct (copyFile _ _ _) as [d4 [e4|]] eqn:E4; apply copyFile_cases in E4 as (Hd4 & Hi4 & Hp4);
    [intros [= <- <-]; simpl in *; split_and!; try done; congruence|].
  destruct (Hp4 eq_refl) as (ino & Hino & Hpres).
  unfold writeSidecarFile. destruct (os_tries 4 d4) as [d5 [e5|]] eqn:E5; apply os_tries_same in E5 as [o5 ->];
    [intros [= <- <-]; simpl in *; split_and!; try done; congruence|].
  destruct (os_tries 2 _) as [d6 [e6|]] eqn:E6; apply os_tries_same in E6 as [o6 ->];
    intros [= <- <-]; simpl in *; (split_and!; [congruence|congruence|]); [done|].
  intros c [= <-]. split_and!; [done|done|apply lookup_insert_eq|]. exists ino.
  rewrite Hd2, Hd1 in Hino. split; [done|]. rewrite Hpres, lookup_insert_eq. f_equal.
  unfold bytes_at. simpl. by rewrite Hi2, Hi1.
Qed.

(** What the rest removes is never a copy or its record. *)
Lemma finish_keeps m c m' err :
  conflict_finish m c = (m', err) ->
  preserved (disk m') = preserved (disk m) /\ conflict_files (disk m') = conflict_files (disk m).
Proof.
  unfold conflict_finish, remove_existing, remove_data, remove_sidecar.
  set (m1 := match sessions m !! c_Path c with Some _ => _ | None => _ end).
  assert (disk m1 = disk m) as -> by (unfold m1; by destruct (sessions m !! c_Path c)).
  destruct (os_try (disk m)) as [d1 [e1|]] eqn:E1; apply os_try_same in E1 as [o1 ->].
  { unfold os_try in *. destruct (IsNotExist e1); [|by intros [= <- <-]].
    destruct (os_call _) as [d2 [n|]] eqn:E2; apply os_call_same in E2 as [o2 ->]; simpl;
      [by intros [= <- <-]|destruct (sidecars _ !! _); by intros [= <- <-]]. }
  destruct (data _ !! _); simpl; destruct (os_try _) as [d2 [e2|]] eqn:E2; apply os_try_same in E2 as [o2 ->];
    repeat case_match; intros; simplify_eq; done.
Qed.

End Conflict.

(** C20. Recording a conflict never loses the staged bytes.  Whichever disk call
    fails, afterwards the staged file is still there, untouched, or the bytes it
    held are preserved, with a record that leads from the path to them. *)
Theorem conflict_never_loses_bytes `{PathHash} m path a w file change t m' r :
  sessions m !! path = Some a -> heap m !! a = Some w -> w_File w = Some file ->
  data (disk m) !! w_StagingPath w = Some file ->
  RecordConflict m path change t = (m', r) ->
  data (disk m') !! w_StagingPath w = Some file /\ bytes_at (disk m') file = staged (disk m) w \/
  exists c, conflict_files (disk m') !! c_PreservedMetadataPath c = Some (Some c) /\ c_Path c = path /\
    preserved (disk m') !! c_PreservedPath c = Some (staged (disk m) w).
Proof.
  intros Ha Hw Hf Hfile. unfold RecordConflict, staged. rewrite Hf.
  destruct (conflict_preserve m path change t) as [m1 r1] eqn:E1.
  destruct (preserve_cases _ _ _ _ _ _ _ _ Ha Hw E1) as (Hd & Hi & Hc).
  destruct r1 as [[c|]|e].
  - destruct (Hc c eq_refl) as (Hp & _ & Hrec & ino & Hino & Hpres).
    assert (ino = file) as -> by congruence.
    destruct (conflict_finish m1 c) as [m2 e2] eqn:E2. apply finish_keeps in E2 as [Hp2 Hc2].
    destruct e2; intros [= <- <-]; right; exists c; by rewrite Hc2, Hp2.
  - intros [= <- <-]. left. unfold bytes_at. by rewrite Hd, Hi.
  - intros [= <- <-]. left. unfold bytes_at. by rewrite Hd, Hi.
Qed.

#[local] Instance hash_by_name : PathHash := {| path_hash := fun s => s; path_hash_inj := fun x y H => H |}.

Definition conflict_config : StagingConfig :=
  mkConfig "/staging" 64 (60 * Second) 1 3 Second (30 * Second) true true "block" 80 95
    (Some (30 * Second)) (Some (250 * Millisecond)).

(** A file of three bytes, dirty. *)
Definition dirty_area : Manager :=
  let '(d, w) := SessionSafety.opened_file in
  let w := renamed "/a" "active/a.data" w in
  mkManager conflict_config {["/a" := 1%positive]} {[1%positive := w]}
    (DirtyIndex.MarkDirty DirtyIndex.NewDirtyFileIndex "/a" 3 5) ∅ 0 false ∅ d.
Definition changed_outside : ExternalChangeSnapshot := mkExternalChange "a" 9 "etag" 7 false "".

(** The staged file is removed, and its bytes preserved. *)
Lemma conflict_never_loses_bytes_witness :
  let m' := (RecordConflict dirty_area "/a" changed_outside 8).1 in
  data (disk m') !! "active/a.data" = None /\
  (data (disk m') !! "active/a.data" = Some 1%positive /\
     bytes_at (disk m') 1 = staged (disk dirty_area) SessionSafety.opened_file.2 \/
   exists c, conflict_files (disk m') !! c_PreservedMetadataPath c = Some (Some c) /\ c_Path c = "/a" /\
     preserved (disk m') !! c_PreservedPath c = Some (staged (disk dirty_area) SessionSafety.opened_file.2)).
Proof.
  intros m'. split; [vm_compute; reflexivity|].
  apply (conflict_never_loses_bytes dirty_area "/a" 1 (renamed "/a" "active/a.data" SessionSafety.opened_file.2)
    1 changed_outside 8 m' (RecordConflict dirty_area "/a" changed_outside 8).2);
    [vm_compute; reflexivity..|apply surjective_pairing].
Defined.

(** A write accepted after the copy was made and before the session is taken
    away. *)
Definition write_between : Manager * option error :=
  match conflict_preserve dirty_area "/a" changed_outside 8 with
  | (m, inl (Some c)) =>
      match heap m !! 1%positive with
      | Some w =>
          let '(d, w, (_, err)) := write_persisting (disk m) w [x4e; x45; x57] 0 9 in
          ((conflict_finish (put 1 w (set_disk d m)) c).1, err)
      | None => (m, Some ErrClosed)
      end
  | (m, _) => (m, Some ErrClosed)
  end.

(** A write can slip between the copy and the removal.  The session takes
    writes until it is closed, which is after the copy was made: such a write
    succeeds, the file and its name are then removed, and the preserved copy
    holds the bytes from before it. *)
Theorem write_during_conflict_lost :
  write_between.2 = None /\
  data (disk write_between.1) !! "active/a.data" = None /\ sessions write_between.1 !! "/a" = None /\
  (map_to_list (preserved (disk write_between.1))).*2 = [[x61; x62; x63]].
Proof. vm_compute. auto. Qed.

End Conflict.
