(* ===== verification/StagingDurability.v ===== *)
(** * Bytes reported as stable survive a power loss

    From the flush a client waits for ([CommitPath]) to the restart that finds
    the file again ([NewStagingManager]), across the loss of everything the disk
    had not been told to keep. *)
From S2P Require Import Prelude GoPath StagingTypes Disk DirtyIndex PathState Session.
From S2P Require Import SessionSafety StagingManager StagingPressure StagingRecovery.

Module Durability.
Import Disk PathState Session Staging Recovery.
Import SessionSafety(staged).

(** ** Power loss *)

(** What may be found after a power loss: under each name one of the entries it
    may have kept, and a file whose bytes were all flushed unchanged. *)
Record power_loss (d d' : Disk) : Prop := mkLoss {
  pl_outcomes : outcomes d' = [];
  pl_data : forall name, data d' !! name ∈ data_outcomes d name;
  pl_sidecars : forall name, exists o, o ∈ sidecar_outcomes d name /\
    sidecars d' !! name = (fun st => mkSidecar st true) <$> o;
  pl_bytes : forall i, flushed d !! i = Some (bytes_at d i) ->
    exists t, inodes d' !! i = Some (mkInode (bytes_at d i) t);
  pl_tombstones : tombstone_files d' = tombstone_files d;
  pl_conflicts : conflict_files d' = conflict_files d
}.

Section Durability.
Context {PH : PathHash}.
Variable p : string.
Hypothesis p_named : p <> "".

(** A sidecar that says the file next to it is [p]'s. *)
Definition names_p (st : PathMetadataState) : Prop :=
  p_OriginalPath st = p /\ p_ConflictStatus st <> ConflictStatusConflicted.

(** Whatever a power loss leaves, the file and a sidecar for it are there. *)
Record lasting (d : Disk) (sp : string) (file : positive) : Prop := mkLasting {
  la_data : Forall (eq (Some file)) (data_outcomes d sp);
  la_sidecar : Forall (fun o => exists st, o = Some (Some st) /\ names_p st)
    (sidecar_outcomes d (pathMetadataPath sp))
}.

(** The sidecar as it is, if it decodes, is [p]'s, and one marked committed was
    flushed. *)
Definition own_sidecar (d : Disk) (sp : string) : Prop :=
  forall sc st, sidecars d !! pathMetadataPath sp = Some sc -> sc_state sc = Some st ->
    names_p st /\ (p_Committed st = true -> sc_flushed sc = true).

Lemma lasting_found cfg d d' file :
  lasting d (stagingFilePath (blank cfg d) p) file -> flushed d !! file = Some (bytes_at d file) ->
  power_loss d d' ->
  exists i, staged_file (blank cfg d') p i /\ content i = bytes_at d file.
Proof.
  intros [Hd Hs] Hf []. destruct (pl_bytes0 _ Hf) as [t Hi]. exists (mkInode (bytes_at d file) t).
  split; [|done]. set (sp := stagingFilePath (blank cfg d) p) in *.
  change (stagingFilePath (blank cfg d') p) with sp. split.
  - exists file. split; [|done]. change (stagingFilePath (blank cfg d') p) with sp.
    change (disk (blank cfg d')) with d'. rewrite Forall_forall in Hd. by rewrite (Hd _ (pl_data0 sp)).
  - change (stagingFilePath (blank cfg d') p) with sp. change (disk (blank cfg d')) with d'.
    destruct (pl_sidecars0 (pathMetadataPath sp)) as (o & Ho & Hsc).
    rewrite Forall_forall in Hs. destruct (Hs _ Ho) as (st & -> & Hp & Hc). simpl in Hsc.
    exists d', (fill_defaults st). rewrite (read_installed d' _ _ st pl_outcomes0 Hsc); simpl; [|done|congruence].
    split_and!; [done|done|]. by case_decide.
Qed.

(** ** Sidecar writes *)

Lemma own_write d sp st d' st' err :
  own_sidecar d sp -> names_p (fill_defaults st) ->
  writePathMetadataState d (pathMetadataPath sp) st = (d', st', err) ->
  own_sidecar d' sp /\ data d' = data d /\ inodes d' = inodes d /\ older_data d' = older_data d /\
  flushed d' = flushed d /\ (err <> None -> same_files d d') /\
  (err = None -> exists d0, same_files d d0 /\ names_p st' /\
    d' = install_sidecar d0 (pathMetadataPath sp) (Some (mkSidecar (Some st') (p_Committed st')))).
Proof.
  intros Hown Hst Hw.
  assert (names_p st') as Hst'.
  { unfold writePathMetadataState in Hw. revert Hw.
    match goal with |- context [let '(_, _) := ?x in _] => destruct x as [d1 st1] eqn:E1 end.
    assert (names_p st1) as Hst1 by (repeat case_match; by simplify_eq).
    intros Hw. repeat case_match; by simplify_eq. }
  pose proof (write_cases _ _ _ _ _ _ Hw) as (_ & _ & d0 & Hd0 & Hcase). pose proof Hd0 as [o ->].
  destruct Hcase as [[[e ->] ->]|[-> ->]]; simpl.
  - split_and!; try done.
  - split_and!; try done; [|intros _; by exists (set_outcomes o d)].
    intros sc st0. simpl. rewrite lookup_insert_eq. by intros [= <-] [= <-].
Qed.

(** A flushed sidecar, once its directory is flushed. *)
Lemma flushed_lasting d sp sc st file d' :
  sidecars d !! pathMetadataPath sp = Some sc -> sc_state sc = Some st -> sc_flushed sc = true ->
  names_p st -> data d !! sp = Some file -> syncDir d = (d', None) -> lasting d' sp file.
Proof.
  intros Hsc Hst Hf Hn Hfile. unfold syncDir. destruct (os_tries 2 d) as [d2 [e2|]] eqn:E2; [done|].
  apply os_tries_same in E2 as [o ->]. intros [= <-]. split.
  - unfold data_outcomes. simpl. rewrite lookup_empty, Hfile. simpl. by repeat constructor.
  - unfold sidecar_outcomes. simpl. rewrite Hsc, Hf, Hst, lookup_empty. simpl. repeat constructor. eauto.
Qed.

Lemma names_p_filled st : names_p st -> names_p (fill_defaults st).
Proof. intros [Ho Hc]. split; [done|]. simpl. by case_decide. Qed.

Lemma read_NotExist d mp d' e :
  readPathMetadataState d mp = (d', inr e) -> IsNotExist e = true -> sidecars d !! mp = None.
Proof.
  unfold readPathMetadataState. destruct (os_try d) as [d1 [e1|]] eqn:E.
  - unfold os_try in E. destruct (os_call d) as [d2 [?|]]; [|done]. injection E as <- <-. by intros [= <- <-].
  - apply os_try_same in E as [o ->]. simpl. destruct (sidecars d !! mp) as [sc|]; [|done].
    destruct (sc_state sc); [case_decide|]; intros [= <- <-]; done.
Qed.

(** ** Marking dirty and committing *)

(** Only the disk has changed, and on it only the sidecar of [p]. *)
Record sidecar_only (m m' : Manager) : Prop := mkSidecarOnly {
  so_manager : m' = set_disk (disk m') m;
  so_data : data (disk m') = data (disk m);
  so_inodes : inodes (disk m') = inodes (disk m);
  so_older : older_data (disk m') = older_data (disk m);
  so_flushed : flushed (disk m') = flushed (disk m);
  so_own : own_sidecar (disk m) (stagingFilePath m p) -> own_sidecar (disk m') (stagingFilePath m p)
}.

Lemma sidecar_only_same m d : same_files (disk m) d -> sidecar_only m (set_disk d m).
Proof. by intros [o ->]. Qed.

Lemma recordDirty_only m attrs now m' r :
  recordDirtyPathLocked m p attrs now = (m', r) -> own_sidecar (disk m) (stagingFilePath m p) ->
  sidecar_only m m' /\
  forall st, r = inl st -> names_p st /\ exists sc,
    sidecars (disk m') !! pathMetadataPath (stagingFilePath m p) = Some sc /\ sc_state sc = Some st /\
    sc_flushed sc = p_Committed st.
Proof.
  unfold recordDirtyPathLocked. set (sp := stagingFilePath m p). intros H Hown. revert H.
  destruct (readPathMetadataState _ _) as [d1 r1] eqn:Er. apply read_same in Er as [o ->].
  destruct (match r1 with inl _ => _ | inr _ => _ end) as [st0|e];
    [|intros [= <- <-]; split; [by apply sidecar_only_same; eexists|done]].
  simpl. match goal with |- context [writePathMetadataState ?d ?mp ?st] =>
    destruct (writePathMetadataState d mp st) as [[d2 st2] e2] eqn:Ew end.
  apply own_write in Ew as (Hown2 & Hd & Hi & Ho & Hf & _ & Hinst); [|done|].
  2: { apply names_p_filled. split; [by destruct (IsZero _), attrs|]. by destruct (IsZero _), attrs. }
  intros [= <- <-]. split; [by split|]. intros st Hst. destruct e2; [done|]. injection Hst as <-.
  destruct (Hinst eq_refl) as (d0 & [o0 ->] & Hn & ->). split; [done|]. eexists. simpl.
  rewrite lookup_insert_eq. done.
Qed.

Lemma commit_state m (state : PathMetadataState) d' st' err sp :
  sp = stagingFilePath m p -> own_sidecar (disk m) sp -> names_p state ->
  writePathMetadataState (disk m) (pathMetadataPath sp) (set_p_Committed true state) = (d', st', err) ->
  sidecar_only m (set_disk d' m) /\
  (err = None -> forall file d'', data (disk m) !! sp = Some file ->
     syncDir d' = (d'', None) -> lasting d'' sp file).
Proof.
  intros -> Hown Hn Hw. pose proof (write_cases _ _ _ _ _ _ Hw) as ((_ & _ & _ & _ & Hc) & _).
  apply own_write in Hw as (Hown' & Hd & Hi & Ho & Hf & _ & Hinst); [|done|by apply names_p_filled].
  split; [by split|]. intros He file d'' Hfile. destruct (Hinst He) as (d0 & [o ->] & Hn' & ->).
  apply (flushed_lasting _ _ (mkSidecar (Some st') (p_Committed st')) st'); simpl; try done.
  - apply lookup_insert_eq.
  - by apply Hc.
Qed.

Lemma commitPathMetadata_lasting m a now m' err sp :
  sp = stagingFilePath m p -> own_sidecar (disk m) sp ->
  commitPathMetadata m p sp a now = (m', err) ->
  sidecar_only m m' /\
  (err = None ->
   sidecars (disk m') !! pathMetadataPath sp = None /\ DirtyIndex.IsDirty (index m) p = false \/
   forall file d'', data (disk m) !! sp = Some file ->
     syncDir (disk m') = (d'', None) -> lasting d'' sp file).
Proof.
  intros -> Hown. unfold commitPathMetadata. set (sp := stagingFilePath m p) in *.
  destruct (readPathMetadataState (disk m) _) as [d1 r] eqn:Er. pose proof (read_same _ _ _ _ Er) as Hsame.
  pose proof (sidecar_only_same m d1 Hsame) as Hso. destruct Hsame as [o ->].
  destruct r as [state|e].
  - apply read_Some in Er as (sc & raw & Hsc & Hraw & -> & _).
    destruct (Hown _ _ Hsc Hraw) as [Hn Hfl]. destruct (p_Committed (fill_defaults raw)) eqn:Ec.
    + intros [= <- <-]. split; [done|]. intros _. right. intros file d'' Hfile Hsync.
      exact (flushed_lasting (set_outcomes o (disk m)) _ sc raw _ _ Hsc Hraw (Hfl Ec) Hn Hfile Hsync).
    + destruct (writePathMetadataState _ _ _) as [[d2 st2] e2] eqn:Ew. intros [= <- <-].
      apply (commit_state (set_disk (set_outcomes o (disk m)) m)) in Ew as [Hso2 Hl]; try done;
        [|by apply names_p_filled]. split; [|intros He; right; exact (Hl He)]. destruct Hso2. by split.
  - destruct (IsNotExist e) eqn:Ene; [|intros [= <- <-]; by split].
    simpl. destruct (DirtyIndex.IsDirty (index m) p) eqn:Hdirty; simpl.
    2: { intros [= <- <-]. split; [done|]. intros _. left. split; [|done]. exact (read_NotExist _ _ _ _ Er Ene). }
    destruct (recordDirtyPathLocked _ p _ now) as [m1 [st|e1]] eqn:Erec;
      apply recordDirty_only in Erec as [Hso1 Hst]; try done.
    2: { intros [= <- <-]. split; [|done]. destruct Hso1. by split. }
    destruct (Hst _ eq_refl) as (Hn & sc & Hsc & Hs & Hf). change (stagingFilePath (set_disk _ m) p) with sp in *.
    assert (own_sidecar (disk m1) sp) as Hown1 by (by apply (so_own _ _ Hso1)).
    destruct Hso1. simpl in *.
    assert (stagingFilePath m1 p = sp) as Hsp1 by (rewrite so_manager0; done).
    destruct (p_Committed st) eqn:Ec.
    + intros [= <- <-]. split; [by split|]. intros _. right. intros file d'' Hfile.
      apply (flushed_lasting _ _ sc st); try done; congruence.
    + destruct (writePathMetadataState _ _ _) as [[d2 st2] e2] eqn:Ew. intros [= <- <-].
      apply (commit_state m1) in Ew as [Hso2 Hl]; try done. destruct Hso2. simpl in *. rewrite Hsp1 in *. split.
      * split; simpl; try congruence; [by rewrite so_manager0|auto].
      * intros He. right. intros file d'' Hfile. apply Hl; [done|congruence].
Qed.

(** ** Sessions *)

(** Names and sidecars untouched. *)
Record frame (d d' : Disk) : Prop := mkFrame {
  fr_data : data d' = data d;
  fr_older : older_data d' = older_data d;
  fr_sidecars : sidecars d' = sidecars d;
  fr_older_sidecars : older_sidecars d' = older_sidecars d;
  fr_inodes : dom (inodes d) ⊆ dom (inodes d')
}.

Lemma frame_refl d : frame d d.
Proof. by split. Qed.
Lemma frame_trans d1 d2 d3 : frame d1 d2 -> frame d2 d3 -> frame d1 d3.
Proof. intros [] []. split; try congruence. by etrans. Qed.
Lemma frame_same d d' : same_files d d' -> frame d d'.
Proof. by intros [o ->]. Qed.
Lemma frame_content now b d i : frame d (set_content now b d i).
Proof. split; simpl; try done. set_solver. Qed.
Lemma frame_lasting d d' sp file : frame d d' -> lasting d sp file -> lasting d' sp file.
Proof.
  intros [] [H1 H2]. split; unfold data_outcomes, sidecar_outcomes in *; by rewrite ?fr_data0, ?fr_older0,
    ?fr_sidecars0, ?fr_older_sidecars0.
Qed.
Lemma frame_own d d' sp : frame d d' -> own_sidecar d sp -> own_sidecar d' sp.
Proof. intros [] H sc st. rewrite fr_sidecars0. apply H. Qed.

Lemma frame_file_sync d i d' e : file_sync d i = (d', e) -> frame d d'.
Proof.
  unfold file_sync. destruct (os_try d) as [d1 [e1|]] eqn:E; apply os_try_same in E as [o ->];
    intros [= <- <-]; by split.
Qed.
Lemma frame_file_write d i off buf now d' n e : file_write d i off buf now = (d', n, e) -> frame d d'.
Proof.
  unfold file_write. destruct (os_try d) as [d1 [e1|]] eqn:E; apply os_try_same in E as [o ->];
    [by intros [= <- <- <-]|].
  destruct (off <? 0); [by intros [= <- <- <-]|]. destruct (os_call _) as [d2 r] eqn:E2.
  apply os_call_same in E2 as [o2 ->]. destruct r; intros [= <- <- <-];
    (eapply frame_trans; [|apply frame_content]); by split.
Qed.
Lemma frame_file_truncate d i size now d' e : file_truncate d i size now = (d', e) -> frame d d'.
Proof.
  unfold file_truncate. destruct (os_try d) as [d1 [e1|]] eqn:E; apply os_try_same in E as [o ->];
    [by intros [= <- <-]|].
  destruct (size <? 0); [by intros [= <- <-]|]. intros [= <- <-].
  eapply frame_trans; [|apply frame_content]. by split.
Qed.

(** The session is open on the file its name leads to. *)
Definition opened (d : Disk) (w : WriteSession) : Prop :=
  exists file, w_File w = Some file /\ data d !! w_StagingPath w = Some file /\ file ∈ dom (inodes d).

(** What an operation on the session may do: leave names and sidecars alone, or
    advance the session's metadata version. *)
Record moves (d : Disk) (w : WriteSession) (d' : Disk) (w' : WriteSession) : Prop := mkMoves {
  mv_staging : w_StagingPath w' = w_StagingPath w;
  mv_committed : w_committedMetadataVersion w' = w_committedMetadataVersion w;
  mv_own : own_sidecar d (w_StagingPath w) -> own_sidecar d' (w_StagingPath w);
  mv_opened : opened d w -> opened d' w';
  mv_version : w_metadataVersion w' = w_metadataVersion w /\ w_File w' = w_File w /\ frame d d' \/
    w_metadataVersion w < w_metadataVersion w'
}.

Lemma moves_frame d w d' w' :
  frame d d' -> w_StagingPath w' = w_StagingPath w -> w_File w' = w_File w ->
  w_metadataVersion w' = w_metadataVersion w ->
  w_committedMetadataVersion w' = w_committedMetadataVersion w -> moves d w d' w'.
Proof.
  intros Hf Hs Hfile Hv Hc. split; try done; [by apply frame_own| |by left].
  intros (file & H1 & H2 & H3). exists file. destruct Hf. rewrite Hfile, Hs, fr_data0. auto.
Qed.

Lemma moves_trans d1 w1 d2 w2 d3 w3 : moves d1 w1 d2 w2 -> moves d2 w2 d3 w3 -> moves d1 w1 d3 w3.
Proof.
  intros [] []. split; try congruence; auto.
  - intros H. rewrite <-mv_staging0. apply mv_own1. rewrite mv_staging0. auto.
  - destruct mv_version0 as [(?&?&?)|?], mv_version1 as [(?&?&?)|?]; [|right; lia..].
    left. split_and!; try congruence. by eapply frame_trans.
Qed.

Lemma moves_detach d w keep now d' w' err :
  detachFromUploadsLocked d w keep now = (d', w', err) -> moves d w d' w'.
Proof.
  unfold detachFromUploadsLocked. destruct (_ =? 0); [intros [= <- <- <-]; by apply moves_frame|].
  destruct (os_try d) as [d1 [e1|]] eqn:E1; apply os_try_same in E1 as [o ->];
    [intros [= <- <- <-]; by apply moves_frame|].
  set (tmp := fresh _). destruct (copy_kept _ w tmp keep now) as [d2 e2] eqn:E2.
  assert (frame (set_content now [] (set_outcomes o d) tmp) d2) as H2.
  { unfold copy_kept in E2. destruct (0 <? keep); [|injection E2 as <- <-; apply frame_refl].
    destruct (w_File w) as [file|]; [|injection E2 as <- <-; apply frame_refl].
    destruct (os_tries 2 _) as [d4 [e4|]] eqn:E4; apply os_tries_same, frame_same in E4;
      [by injection E2 as <- <-|].
    destruct (len _ <? keep); [by injection E2 as <- <-|].
    destruct (file_sync _ tmp) as [d5 e5] eqn:E5. apply frame_file_sync in E5.
    assert (frame d4 d5) as H45 by (eapply frame_trans; [apply frame_content|exact E5]).
    destruct e5; injection E2 as <- <-; by eapply frame_trans. }
  assert (frame d d2 /\ tmp ∈ dom (inodes d2)) as [Hd2 Htmp].
  { split; [|apply (fr_inodes _ _ H2); simpl; set_solver].
    eapply frame_trans; [|exact H2]. eapply frame_trans; [|apply frame_content]. by split. }
  destruct e2; [intros [= <- <- <-]; by apply moves_frame|].
  destruct (os_try d2) as [d3 [e3|]] eqn:E3; apply os_try_same in E3 as [o3 ->];
    intros [= <- <- <-]; [apply moves_frame; try done; by eapply frame_trans|].
  split; simpl; try done; [|intros _|right; lia].
  - intros H sc st. simpl. rewrite (fr_sidecars _ _ Hd2). apply H.
  - exists tmp. simpl. by rewrite lookup_insert_eq.
Qed.

Lemma moves_persist d w d' w' :
  persistAttributes d w = (d', w') -> moves d w d' w'.
Proof.
  unfold persistAttributes. destruct (w_attributesSet w); simpl; [|intros [= <- <-]; by apply moves_frame].
  destruct (readPathMetadataState d _) as [d1 [st|e]] eqn:Er; pose proof (read_same _ _ _ _ Er) as [o ->];
    [|intros [= <- <-]; by apply moves_frame].
  apply read_Some in Er as (sc & raw & Hsc & Hraw & -> & _).
  destruct (writePathMetadataState _ _ _) as [[d2 st2] e2] eqn:Ew.
  assert (own_sidecar d (w_StagingPath w) -> own_sidecar d2 (w_StagingPath w)) as Hown.
  { intros H. apply own_write in Ew as [? _]; [done|done|]. apply names_p_filled.
    destruct (H _ _ Hsc Hraw) as [Hn _]. by apply names_p_filled in Hn. }
  pose proof (write_cases _ _ _ _ _ _ Ew) as (_ & _ & d0 & [o0 ->] & [[[e ->] ->]|[-> ->]]);
    intros [= <- <-]; [by apply moves_frame|].
  split; simpl; try done. right. lia.
Qed.

Lemma moves_write d w buf off now d' w' r :
  write_persisting d w buf off now = (d', w', r) -> moves d w d' w'.
Proof.
  unfold write_persisting, write.
  destruct (detachFromUploadsLocked _ _ _ _) as [[d1 w1] [e1|]] eqn:E1; apply moves_detach in E1.
  { by intros [= <- <- <-]. }
  destruct (write_at d1 w1 buf off now) as [[d2 w2] [[n dropped] err]] eqn:E2.
  assert (moves d1 w1 d2 w2) as H2.
  { unfold write_at in E2. destruct (w_File w1) as [file|] eqn:Ef;
      [|injection E2 as <- <- <- <- <-; by apply moves_frame].
    destruct (file_write _ _ _ _ _) as [[d3 n3] e3] eqn:E3. apply frame_file_write in E3.
    destruct e3; injection E2 as <- <- <- <- <-; by apply moves_frame. }
  destruct dropped; [|intros [= <- <- <-]; by eapply moves_trans].
  destruct (persistAttributes d2 w2) as [d3 w3] eqn:E3. apply moves_persist in E3.
  intros [= <- <- <-]. eapply moves_trans; [done|]. by eapply moves_trans.
Qed.

Lemma moves_truncate d w size now d' w' err :
  truncate d w size now = (d', w', err) -> moves d w d' w'.
Proof.
  unfold truncate. destruct (detachFromUploadsLocked _ _ _ _) as [[d1 w1] [e1|]] eqn:E1; apply moves_detach in E1.
  { by intros [= <- <- <-]. }
  destruct (w_File w1) as [file|] eqn:Ef; [|by intros [= <- <- <-]].
  destruct (file_truncate _ _ _ _) as [d2 [e2|]] eqn:E2; apply frame_file_truncate in E2;
    intros [= <- <- <-]; (eapply moves_trans; [exact E1|]); by apply moves_frame.
Qed.

Lemma moves_attributes d w change d' w' :
  updateAttributes d w change = (d', w') -> moves d w d' w'.
Proof.
  intros H%moves_persist. eapply moves_trans; [|exact H]. by apply moves_frame; [apply frame_refl|..].
Qed.

Lemma moves_snapshot d w d' w' r :
  OpenUploadSnapshot d w = (d', w', r) -> moves d w d' w'.
Proof.
  unfold OpenUploadSnapshot, flush. destruct (w_File w) as [file|] eqn:Ef;
    [|intros [= <- <- <-]; by apply moves_frame; [apply frame_refl|..]].
  destruct (file_sync d file) as [d1 [e1|]] eqn:E1; apply frame_file_sync in E1;
    [intros [= <- <- <-]; by apply moves_frame|].
  unfold open_data. destruct (os_try d1) as [d2 e2] eqn:E2. apply os_try_same, frame_same in E2.
  assert (frame d d2) by (by eapply frame_trans).
  destruct e2; [|destruct (data d2 !! _)]; intros [= <- <- <-]; by apply moves_frame.
Qed.

Lemma moves_close d w s : moves d w d (CloseSnapshot w s).
Proof. unfold CloseSnapshot. apply moves_frame; [apply frame_refl|..]; by destruct (_ && _). Qed.

(** ** Everything that happens to a file while its session lasts *)

(** The operations on the session. *)
Inductive session_op : Disk -> WriteSession -> Disk -> WriteSession -> Prop :=
  | o_write d w buf off now d' w' r : write_persisting d w buf off now = (d', w', r) -> session_op d w d' w'
  | o_truncate d w size now d' w' err : truncate d w size now = (d', w', err) -> session_op d w d' w'
  | o_attributes d w change d' w' : updateAttributes d w change = (d', w') -> session_op d w d' w'
  | o_snapshot d w d' w' r : OpenUploadSnapshot d w = (d', w', r) -> session_op d w d' w'
  | o_close_snapshot d w s : session_op d w d (CloseSnapshot w s).

Lemma session_op_moves d w d' w' : session_op d w d' w' -> moves d w d' w'.
Proof.
  intros []; eauto using moves_write, moves_truncate, moves_attributes, moves_snapshot, moves_close.
Qed.

Variable a : positive.

(** Other paths' activity: [p]'s session, entry and file are left alone, and of
    what a power loss may leave for [p] nothing is added. *)
Record elsewhere (m m' : Manager) : Prop := mkElsewhere {
  el_config : config m' = config m;
  el_session : sessions m' !! p = sessions m !! p;
  el_heap : heap m' !! a = heap m !! a;
  el_dirty : DirtyIndex.IsDirty (index m') p = DirtyIndex.IsDirty (index m) p;
  el_conflicts : DirtyIndex.conflicts (index m') !! p = DirtyIndex.conflicts (index m) !! p;
  el_data : data (disk m') !! stagingFilePath m p = data (disk m) !! stagingFilePath m p;
  el_inodes : forall i, data (disk m) !! stagingFilePath m p = Some i -> inodes (disk m') !! i = inodes (disk m) !! i;
  el_sidecar : sidecars (disk m') !! pathMetadataPath (stagingFilePath m p) =
    sidecars (disk m) !! pathMetadataPath (stagingFilePath m p);
  el_outcomes : forall o, o ∈ data_outcomes (disk m') (stagingFilePath m p) ->
    o ∈ data_outcomes (disk m) (stagingFilePath m p);
  el_sidecar_outcomes : forall o, o ∈ sidecar_outcomes (disk m') (pathMetadataPath (stagingFilePath m p)) ->
    o ∈ sidecar_outcomes (disk m) (pathMetadataPath (stagingFilePath m p))
}.

(** A commit that fails is let through while the session still has its metadata
    to commit; [retried_commit_skips_flush] shows the other case. *)
Inductive step : Manager -> Manager -> Prop :=
  | d_session m w d' w' : heap m !! a = Some w -> session_op (disk m) w d' w' ->
      step m (put a w' (set_disk d' m))
  | d_mark m size now m' err : MarkDirty m p size now = (m', err) -> step m m'
  | d_clean m gen m' b : markCleanIfUnchanged m p gen = (m', b) -> step m m'
  | d_forget m : step m (dropDirtyEntry m p)
  | d_commit m now m' : CommitPath m p now = (m', None) -> step m m'
  | d_commit_failed m w now m' e : heap m !! a = Some w ->
      w_metadataVersion w <> w_committedMetadataVersion w -> CommitPath m p now = (m', Some e) -> step m m'
  | d_elsewhere m m' : elsewhere m m' -> step m m'.

(** What holds in between. *)
Record kept (m : Manager) (w : WriteSession) : Prop := mkKept {
  k_session : sessions m !! p = Some a;
  k_heap : heap m !! a = Some w;
  k_conflicts : DirtyIndex.conflicts (index m) !! p = None;
  k_staging : w_StagingPath w = stagingFilePath m p;
  k_opened : opened (disk m) w;
  k_own : own_sidecar (disk m) (stagingFilePath m p);
  k_versions : 0 <= w_committedMetadataVersion w <= w_metadataVersion w;
  k_lasting : w_metadataVersion w = w_committedMetadataVersion w ->
    sidecars (disk m) !! pathMetadataPath (stagingFilePath m p) = None \/
    forall file, w_File w = Some file -> lasting (disk m) (stagingFilePath m p) file
}.

Lemma kept_session m w d' w' : kept m w -> session_op (disk m) w d' w' ->
  kept (put a w' (set_disk d' m)) w'.
Proof.
  intros [] [Hst Hc Hown Hop Hv]%session_op_moves. rewrite k_staging0 in *. split; simpl; try done.
  - apply lookup_insert_eq.
  - auto.
  - auto.
  - rewrite Hc. destruct Hv as [[-> _]|?]; lia.
  - change (stagingFilePath (put a w' (set_disk d' m)) p) with (stagingFilePath m p).
    intros Heq. destruct Hv as [(Hv & Hf & Hfr)|Hv]; [|lia]. rewrite Hf, (fr_sidecars _ _ Hfr).
    destruct k_lasting0 as [?|Hl]; [lia|by left|right]. intros file Hfile.
    eapply frame_lasting; [exact Hfr|auto].
Qed.

(** The sidecar replaced, and the session told. *)
Lemma kept_index m w i :
  DirtyIndex.conflicts i !! p = None -> kept m w -> kept (set_index i m) w.
Proof. intros Hc []. by split. Qed.

Lemma kept_told m m' w : kept m w -> sidecar_only m m' ->
  kept (update a metadataChanged m') (metadataChanged w).
Proof.
  intros [] []. rewrite so_manager0. split; simpl; try done.
  - by rewrite lookup_alter_eq, k_heap0.
  - destruct k_opened0 as (file & Hf & Hd & Hi). exists file. simpl. by rewrite so_data0, so_inodes0.
  - apply so_own0, k_own0.
  - lia.
  - lia.
Qed.

Lemma kept_same m w d : kept m w -> same_files (disk m) d -> kept (set_disk d m) w.
Proof.
  intros [] [o ->]. split; try done. intros Hv. destruct (k_lasting0 Hv) as [?|Hl]; [by left|right].
  intros file Hf. eapply frame_lasting; [|by apply Hl]. by split.
Qed.

(** A sidecar that could not be recorded is as it was. *)
Lemma recordDirty_failed m attrs now m' e :
  recordDirtyPathLocked m p attrs now = (m', inr e) -> exists d, m' = set_disk d m /\ same_files (disk m) d.
Proof.
  unfold recordDirtyPathLocked. destruct (readPathMetadataState _ _) as [d1 r1] eqn:Er. apply read_same in Er.
  destruct (match r1 with inl _ => _ | inr _ => _ end) as [st0|e0]; [|intros [= <- _]; by eauto].
  simpl. match goal with |- context [writePathMetadataState ?d ?mp ?st] =>
    destruct (writePathMetadataState d mp st) as [[d2 st2] e2] eqn:Ew end.
  apply write_cases in Ew as (_ & _ & d0 & Hd0 & Hcase). destruct e2; [|done]. intros [= <- _].
  destruct Hcase as [[_ ->]|[? _]]; [|done]. exists d0. split; [done|]. by eapply same_files_trans.
Qed.

Lemma MarkDirtyAgain_conflicts i path size now i' b :
  DirtyIndex.MarkDirtyAgain i path size now = (i', b) -> DirtyIndex.conflicts i' = DirtyIndex.conflicts i.
Proof.
  unfold DirtyIndex.MarkDirtyAgain. destruct (DirtyIndex.dirty i !! path) as [e|]; [|by intros [= <- <-]].
  destruct (d_recorded e); by intros [= <- <-].
Qed.

Lemma kept_mark m w size now m' err :
  kept m w -> MarkDirty m p size now = (m', err) -> exists w', kept m' w'.
Proof.
  intros Hk. pose proof Hk as []. unfold MarkDirty, DirtyIndex.IsConflicted.
  rewrite k_conflicts0, bool_decide_eq_false_2 by (by intros []).
  destruct (DirtyIndex.MarkDirtyAgain _ _ _ _) as [i1 [|]] eqn:E1; apply MarkDirtyAgain_conflicts in E1 as Hc1.
  { intros [= <- <-]. exists w. apply kept_index; [congruence|done]. }
  unfold markPathDirty. rewrite E1.
  assert (forall i st, DirtyIndex.conflicts i !! p = None ->
    DirtyIndex.conflicts (DirtyIndex.MarkDirtyWithState i p size st now) !! p = None) as Hmc.
  { intros i st Hi. unfold DirtyIndex.MarkDirtyWithState. by rewrite Hi. }
  destruct (recordDirtyPathLocked m p _ now) as [m1 [st|e]] eqn:Er.
  - apply recordDirty_only in Er as [Hso _]; [|done]. unfold sessionAt. rewrite k_session0.
    intros [= <- <-]. exists (metadataChanged w). apply kept_index; [|by apply kept_told with m].
    apply Hmc. rewrite (so_manager _ _ Hso). done.
  - apply recordDirty_failed in Er as (d & -> & Hs). intros [= <- <-]. exists w.
    apply kept_index; [by apply Hmc|by apply kept_same].
Qed.

Lemma kept_removed m w m' e :
  kept m w -> removePathMetadata m p = (m', e) -> kept m' w.
Proof.
  intros Hk. unfold removePathMetadata, remove_sidecar.
  destruct (os_try (disk m)) as [d1 [e1|]] eqn:E1; apply os_try_same in E1 as [o ->];
    [intros [= <- <-]; apply kept_same; [done|by eexists]|]. simpl.
  destruct (sidecars (disk m) !! _) as [sc|] eqn:Es; intros [= <- <-];
    [|apply kept_same; [done|by eexists]].
  destruct Hk. split; simpl; try done.
  - intros sc0 st. simpl. by rewrite lookup_delete_eq.
  - intros _. left. apply lookup_delete_eq.
Qed.

Lemma kept_drop m w : kept m w -> kept (dropDirtyEntry m p) w.
Proof.
  intros Hk. unfold dropDirtyEntry. destruct (removePathMetadata _ p) as [m1 e1] eqn:E1.
  apply (kept_removed _ w) in E1; [done|]. apply kept_index; [|done]. by destruct Hk.
Qed.

Lemma kept_clean m w gen m' b :
  kept m w -> markCleanIfUnchanged m p gen = (m', b) -> kept m' w.
Proof.
  intros Hk. unfold markCleanIfUnchanged, DirtyIndex.MarkCleanIfUnchanged.
  assert (forall i, DirtyIndex.conflicts i = DirtyIndex.conflicts (index m) -> kept (set_index i m) w) as Hi.
  { intros i Hc. apply kept_index; [|done]. rewrite Hc. by destruct Hk. }
  destruct (DirtyIndex.dirty (index m) !! p) as [e|]; [destruct (negb _)|]; simpl;
    [intros [= <- <-]; by apply Hi| |intros [= <- <-]; by apply Hi].
  destruct (removePathMetadata _ p) as [m1 e1] eqn:E1. intros [= <- <-].
  apply (kept_removed _ w) in E1; [done|]. by apply Hi.
Qed.

Lemma kept_elsewhere m m' w : kept m w -> elsewhere m m' -> kept m' w.
Proof.
  intros [] []. assert (stagingFilePath m' p = stagingFilePath m p) as Hsp
    by (unfold stagingFilePath; by rewrite el_config0).
  split; rewrite ?Hsp; try congruence.
  - destruct k_opened0 as (file & Hf & Hd & Hi). exists file. rewrite k_staging0 in *. split_and!; [done|congruence|].
    apply elem_of_dom. rewrite el_inodes0 by done. by apply elem_of_dom.
  - intros sc st. rewrite el_sidecar0. apply k_own0.
  - intros Hv. rewrite el_sidecar0. destruct (k_lasting0 Hv) as [?|Hl]; [by left|right].
    intros file Hf. destruct (Hl file Hf) as [H1 H2]. rewrite Forall_forall in H1. rewrite Forall_forall in H2.
    split; apply Forall_forall; eauto.
Qed.

(** A successful flush. *)
Lemma flushed_after d i d' :
  file_sync d i = (d', None) -> flushed d' !! i = Some (bytes_at d' i) /\ bytes_at d' i = bytes_at d i /\
    (outcomes d = [] -> outcomes d' = []).
Proof.
  unfold file_sync. destruct (os_try d) as [d1 [e1|]] eqn:E; [done|]. intros [= <-].
  split_and!; [| |intros Hr; rewrite os_try_reliable in E by done; by injection E as <-];
    apply os_try_same in E as [o ->]; simpl; by rewrite ?lookup_insert_eq.
Qed.

Lemma syncDir_frame d d' e : syncDir d = (d', e) ->
  data d' = data d /\ sidecars d' = sidecars d /\ inodes d' = inodes d /\ flushed d' = flushed d /\
  (e <> None -> same_files d d').
Proof.
  unfold syncDir. destruct (os_tries 2 d) as [d1 [e1|]] eqn:E; apply os_tries_same in E as [o ->];
    intros [= <- <-]; split_and!; try done. by eexists.
Qed.

(** The session's part of a commit, up to its sidecar. *)
Lemma kept_flush m w file d : kept m w -> w_File w = Some file -> frame (disk m) d ->
  kept (set_disk d m) w.
Proof.
  intros [] Hf Hfr. split; simpl; try done.
  - destruct k_opened0 as (f & H1 & H2 & H3). exists f. destruct Hfr. rewrite fr_data0. auto.
  - by eapply frame_own.
  - change (stagingFilePath (set_disk d m) p) with (stagingFilePath m p). rewrite (fr_sidecars _ _ Hfr).
    intros Hv. destruct (k_lasting0 Hv) as [?|Hl]; [by left|right]. intros f Hff.
    eapply frame_lasting; [done|auto].
Qed.

(** What a commit guarantees of the file when it succeeds. *)
Definition committed (m m' : Manager) (w : WriteSession) : Prop :=
  forall file, w_File w = Some file ->
    lasting (disk m') (stagingFilePath m p) file /\
    flushed (disk m') !! file = Some (bytes_at (disk m') file) /\
    bytes_at (disk m') file = bytes_at (disk m) file.

(** The branch that has metadata to commit, after the flush. *)
Lemma commit_metadata_branch m w file now m1 e1 d2 e2 u :
  kept m w -> w_File w = Some file -> flushed (disk m) !! file = Some (bytes_at (disk m) file) ->
  commitPathMetadata m p (stagingFilePath m p) a now = (m1, e1) ->
  (e1 = None -> syncDir (disk m1) = (d2, e2)) ->
  (u = 0 \/ u = w_metadataVersion w) ->
  let m2 := match e1, e2 with
            | None, None => (if u =? 0 then set_disk d2 m1
                             else update a (fun w => metadataCommitted w u) (set_disk d2 m1))
            | None, Some _ => set_disk d2 m1
            | Some _, _ => m1
            end in
  (e1 <> None \/ e2 <> None -> w_metadataVersion w <> w_committedMetadataVersion w) ->
  (exists w', kept m2 w') /\
  (e1 = None -> e2 = None -> DirtyIndex.IsDirty (index m) p = true -> committed m m2 w).
Proof.
  intros Hk Hf Hfl Hc Hsync Hu m2 Hfail. pose proof Hk as []. set (sp := stagingFilePath m p) in *.
  apply commitPathMetadata_lasting in Hc as [Hso Hl]; try done. pose proof Hso as [].
  destruct k_opened0 as (f & Hf' & Hfd & Hfi). assert (f = file) as -> by congruence.
  rewrite k_staging0 in Hfd. fold sp in Hfd.
  destruct e1 as [e1|].
  { split; [|done]. exists w. unfold m2. rewrite so_manager0. split; simpl; try done.
    - exists file. rewrite k_staging0, so_data0, so_inodes0. done.
    - apply so_own0, k_own0.
    - intros Hv. exfalso. apply Hfail; [by left|done]. }
  specialize (Hsync eq_refl). apply syncDir_frame in Hsync as Hs. destruct Hs as (Hd2 & Hs2 & Hi2 & Hf2 & Hsame).
  assert (own_sidecar d2 sp) as Hown2.
  { intros sc st. rewrite Hs2. apply so_own0, k_own0. }
  assert (opened d2 w) as Hop2.
  { exists file. rewrite k_staging0, Hd2, Hi2, so_data0, so_inodes0. done. }
  destruct e2 as [e2|].
  { split; [|done]. exists w. unfold m2. rewrite so_manager0. split; simpl; try done.
    intros Hv. exfalso. apply Hfail; [by right|done]. }
  assert (sidecars d2 !! pathMetadataPath sp = None /\ DirtyIndex.IsDirty (index m) p = false \/
    lasting d2 sp file) as Hlast.
  { destruct (Hl eq_refl) as [[? ?]|Hl']; [left; by rewrite Hs2|right]. by apply Hl'. }
  split.
  - unfold m2. destruct (u =? 0) eqn:Eu.
    + exists w. rewrite so_manager0. split; simpl; try done. intros _.
      destruct Hlast as [[? _]|?]; [by left|right]. intros f Hff. by assert (f = file) as -> by congruence.
    + exists (metadataCommitted w u). rewrite so_manager0. bool_to_prop. destruct Hu as [| ->]; [done|].
      assert (metadataCommitted w (w_metadataVersion w) =
        if w_committedMetadataVersion w <? w_metadataVersion w
        then set_versions (w_metadataVersion w) (w_metadataVersion w) w else w) as Hmc by done.
      rewrite Hmc. split; simpl; try done.
      * by rewrite lookup_alter_eq, k_heap0.
      * destruct (_ <? _); done.
      * destruct (_ <? _); done.
      * destruct (_ <? _); simpl; lia.
      * intros _. destruct Hlast as [[? _]|?]; [by left|right]. intros f Hff.
        assert (f = file) as ->; [|done]. destruct (_ <? _); simpl in Hff; congruence.
  - intros _ _ Hdirty f Hff. assert (f = file) as -> by congruence.
    destruct Hlast as [[_ ?]|Hla]; [congruence|].
    assert (disk m2 = d2) as -> by (unfold m2; destruct (u =? 0); done).
    unfold bytes_at. rewrite Hf2, Hi2, so_flushed0, so_inodes0. done.
Qed.

(** The rest of a commit of [m0], once it has metadata to write. *)
Lemma commit_rest m m0 w file now u m2 err :
  kept m w -> w_File w = Some file -> flushed (disk m) !! file = Some (bytes_at (disk m) file) ->
  bytes_at (disk m) file = bytes_at (disk m0) file -> config m = config m0 -> index m = index m0 ->
  (u = 0 \/ u = w_metadataVersion w) ->
  match commitPathMetadata m p (stagingFilePath m p) a now with
  | (m3, Some e) => (m3, Some e)
  | (m3, None) =>
      let '(d3, e3) := syncDir (disk m3) in
      match e3 with
      | Some e => (set_disk d3 m3, Some e)
      | None => (if u =? 0 then set_disk d3 m3
                 else update a (fun w => metadataCommitted w u) (set_disk d3 m3), None)
      end
  end = (m2, err) ->
  (err <> None -> w_metadataVersion w <> w_committedMetadataVersion w) ->
  (exists w', kept m2 w') /\
  (err = None -> DirtyIndex.IsDirty (index m0) p = true -> committed m0 m2 w).
Proof.
  intros Hk Hf Hfl Hb Hcfg Hidx Hu Hrun Hfail.
  destruct (commitPathMetadata _ _ _ _ _) as [m3 e1] eqn:Ec. destruct (syncDir (disk m3)) as [d3 e3] eqn:Es.
  destruct (commit_metadata_branch m w file now m3 e1 d3 e3 u Hk Hf Hfl Ec) as [H1 H2];
    [done|done|intros Hor; apply Hfail; destruct e1, e3; simplify_eq; try done; by destruct Hor|].
  assert (err = None -> e1 = None /\ e3 = None) as Hnone by (destruct e1, e3; simplify_eq; done).
  split; [destruct e1, e3; by simplify_eq|]. intros He Hd f Hff.
  assert (f = file) as -> by congruence. destruct (Hnone He) as [-> ->]. injection Hrun as <- _.
  assert (stagingFilePath m0 p = stagingFilePath m p) as -> by (unfold stagingFilePath; by rewrite Hcfg).
  rewrite <-Hidx in Hd. destruct (H2 eq_refl eq_refl Hd file Hf) as (Ha & Hb3 & Hc3).
  split_and!; [done|done|]. by rewrite Hc3.
Qed.

Lemma kept_commit m w now m' err :
  kept m w -> CommitPath m p now = (m', err) ->
  (err <> None -> w_metadataVersion w <> w_committedMetadataVersion w) ->
  (exists w', kept m' w') /\
  (err = None -> DirtyIndex.IsDirty (index m) p = true ->
   w_metadataVersion w <> w_committedMetadataVersion w \/
   is_Some (sidecars (disk m) !! pathMetadataPath (stagingFilePath m p)) \/ outcomes (disk m) = [] ->
   committed m m' w).
Proof.
  intros Hk. pose proof Hk as []. unfold CommitPath, sessionAt, deref. rewrite k_session0, k_heap0.
  unfold syncToDisk, flush. destruct k_opened0 as (file & Hf & Hfd & Hfi). rewrite Hf.
  destruct (file_sync (disk m) file) as [d1 [e1|]] eqn:E1; pose proof (frame_file_sync _ _ _ _ E1) as Hfr.
  { intros [= <- <-] Hfail. split; [|done]. exists w. by eapply kept_flush. }
  apply flushed_after in E1 as (Hfl & Hb & Hrel). rewrite k_staging0.
  assert (stagingFilePath m p <> "") as Hne.
  { intros Heq%(f_equal String.length). unfold stagingFilePath in Heq. rewrite !string_length_app in Heq.
    simpl in Heq. lia. }
  rewrite decide_False by done. pose proof (kept_flush m w file d1 Hk Hf Hfr) as Hk1.
  set (m1 := set_disk d1 m) in *. change (stagingFilePath m p) with (stagingFilePath m1 p) in *.
  assert (forall d2, same_files d1 d2 -> flushed d2 !! file = Some (bytes_at d2 file) /\
    bytes_at d2 file = bytes_at (disk m) file) as Hbytes by (by intros d2 [o ->]).
  destruct (w_metadataVersion w =? w_committedMetadataVersion w) eqn:Ev; bool_to_prop; simpl.
  - unfold sidecarMissing, lstat_sidecar. change (disk m1) with d1.
    destruct (os_try d1) as [d2 o2] eqn:E2. pose proof (os_try_same _ _ _ E2) as Hs2.
    pose proof (kept_same m1 w d2 Hk1 Hs2) as Hk2.
    destruct (match o2 with Some e => _ | None => _ end) as [d2' missing] eqn:Em.
    assert (d2' = d2) as -> by (destruct o2; by injection Em as <- _).
    destruct (match missing with Some _ => _ | None => _ end) eqn:Emiss; simpl.
    + intros Hrun Hfail. destruct (Hbytes d2 Hs2) as [Hfl2 Hb2].
      destruct (commit_rest (set_disk d2 m1) m w file now 0 m' err Hk2 Hf Hfl2 Hb2 eq_refl eq_refl
        (or_introl eq_refl) Hrun Hfail). tauto.
    + intros [= <- <-] _. split; [by exists w|]. intros _ Hdirty Hsome f Hff.
      assert (f = file) as -> by congruence. split_and!; [|by apply Hbytes..].
      destruct (k_lasting _ _ Hk2 Ev) as [Hnone|Hl]; [exfalso|by apply Hl].
      change (stagingFilePath (set_disk d2 m1) p) with (stagingFilePath m1 p) in Hnone.
      destruct Hs2 as [o ->]. simpl in Hnone. rewrite (fr_sidecars _ _ Hfr) in Hnone.
      destruct Hsome as [?|[[? Hx]|Hr]]; [done|change (disk m) with (disk m) in Hx; congruence|].
      rewrite os_try_reliable in E2 by auto. injection E2 as _ <-. injection Em as <-.
      rewrite (fr_sidecars _ _ Hfr), Hnone in Emiss. simpl in Emiss.
      change (index m1) with (index m) in Emiss. congruence.
  - rewrite (proj2 (Z.eqb_neq (w_metadataVersion w) 0)) by lia. simpl. intros Hrun Hfail.
    destruct (commit_rest m1 m w file now (w_metadataVersion w) m' err Hk1 Hf Hfl Hb eq_refl eq_refl
      (or_intror eq_refl)) as [H1 H2]; [|done|tauto].
    rewrite (proj2 (Z.eqb_neq (w_metadataVersion w) 0)) by lia. exact Hrun.
Qed.

Lemma step_kept m m' w : step m m' -> kept m w -> exists w', kept m' w'.
Proof.
  intros [m0 w0 d' w' Hw0 Ho|m0 size now m1 err Hm|m0 gen m1 b Hm|m0|m0 now m1 Hm|m0 w0 now m1 e Hw0 Hv Hm|m0 m1 Ho] Hk.
  - assert (w0 = w) as -> by (pose proof (k_heap _ _ Hk); congruence). exists w'. by apply kept_session with w.
  - by apply kept_mark with m0 w size now err.
  - exists w. by apply kept_clean with m0 gen b.
  - exists w. by apply kept_drop.
  - by apply (kept_commit m0 w now m1 None).
  - assert (w0 = w) as -> by (pose proof (k_heap _ _ Hk); congruence).
    by apply (kept_commit m0 w now m1 (Some e)).
  - exists w. by apply kept_elsewhere with m0.
Qed.

Lemma steps_kept m m' w : rtc step m m' -> kept m w -> exists w', kept m' w'.
Proof. intros Hs. revert w. induction Hs; [by eauto|]. intros w Hk. by edestruct step_kept as [w' Hw']; eauto. Qed.

(** A session just opened. *)
Lemma ensure_own d sp d' err :
  EnsurePathMetadata d p sp = (d', err) -> own_sidecar d sp ->
  own_sidecar d' sp /\ data d' = data d /\ inodes d' = inodes d.
Proof.
  unfold EnsurePathMetadata. intros H Hown. revert H.
  destruct (readPathMetadataState d _) as [d1 [st|e]] eqn:Er; pose proof (read_same _ _ _ _ Er) as [o ->].
  - apply read_Some in Er as (sc & raw & Hsc & Hraw & -> & _).
    destruct (Hown _ _ Hsc Hraw) as [Hn%names_p_filled _].
    case_decide; [by intros [= <- <-]|].
    destruct (writePathMetadataState _ _ _) as [[d2 st2] e2] eqn:Ew. intros [= <- <-].
    apply own_write in Ew as (? & ? & ? & _); [done|done|]. apply names_p_filled. by destruct Hn.
  - destruct (IsNotExist e); [|by intros [= <- <-]].
    destruct (writePathMetadataState _ _ _) as [[d2 st2] e2] eqn:Ew. intros [= <- <-].
    apply own_write in Ew as (? & ? & ? & _); [done|done|]. by apply names_p_filled.
Qed.

Lemma open_named d name now d' file :
  (forall i, data d !! name = Some i -> i ∈ dom (inodes d)) ->
  open_or_create d name now = (d', inl file) ->
  data d' !! name = Some file /\ file ∈ dom (inodes d') /\ sidecars d' = sidecars d.
Proof.
  intros Hname. unfold open_or_create. destruct (os_try d) as [d1 [e1|]] eqn:E1; [done|].
  apply os_try_same in E1 as [o ->]. simpl. destruct (data d !! name) as [i|] eqn:Ei; intros [= <- <-]; [by auto|].
  simpl. split_and!; [apply lookup_insert_eq|set_solver|done].
Qed.

Lemma opened_kept m now m' :
  sessions m !! p = None -> own_sidecar (disk m) (stagingFilePath m p) ->
  (forall i, data (disk m) !! stagingFilePath m p = Some i -> i ∈ dom (inodes (disk m))) ->
  GetOrCreateSession m p now = (m', inl a) -> exists w, kept m' w.
Proof.
  intros Hs Hown Hname. unfold GetOrCreateSession, DirtyIndex.IsConflicted.
  case_bool_decide as Hc; [done|]. apply eq_None_not_Some in Hc. unfold CancelPendingDelete.
  assert (exists m1 b, removeTombstone m p = (m1, b) /\
    sessions m1 = sessions m /\ heap m1 = heap m /\ index m1 = index m /\ config m1 = config m /\
    data (disk m1) = data (disk m) /\ inodes (disk m1) = inodes (disk m) /\
    sidecars (disk m1) = sidecars (disk m)) as (m1 & b & -> & Hs1 & Hh1 & Hx1 & Hg1 & Hd1 & Hi1 & Hsc1).
  { unfold removeTombstone. destruct (tombstones m !! p); [|by eexists _, _].
    destruct (os_try (disk m)) as [d [e|]] eqn:E; apply os_try_same in E as [o ->]; by eexists _, _. }
  rewrite Hs1, Hs. assert (stagingFilePath m1 p = stagingFilePath m p) as Hsp
    by (unfold stagingFilePath; by rewrite Hg1). rewrite Hsp. set (sp := stagingFilePath m p) in *.
  unfold NewWriteSession. destruct (open_or_create (disk m1) sp now) as [d3 [file|e3]] eqn:E3; [|done].
  apply open_named in E3 as (Hfd & Hfi & Hsc3); [|rewrite Hd1, Hi1; done]. rewrite Hsc1 in Hsc3.
  destruct (os_try d3) as [d4 [e4|]] eqn:E4; [done|]. apply os_try_same in E4 as [o4 ->].
  destruct (EnsurePathMetadata _ p sp) as [d5 e5] eqn:E5.
  apply ensure_own in E5 as (Hown5 & Hd5 & Hi5); [|intros sc st; simpl; rewrite Hsc3; apply Hown].
  intros [= <- Ha]. simpl in *. eexists. split; simpl.
  - by rewrite Ha, lookup_insert_eq.
  - rewrite Ha. apply lookup_insert_eq.
  - by rewrite Hx1.
  - change (stagingFilePath _ p) with (stagingFilePath m1 p). simpl. by rewrite Hsp.
  - exists file. simpl. by rewrite Hd5, Hi5.
  - change (stagingFilePath _ p) with (stagingFilePath m1 p). by rewrite Hsp.
  - done.
  - done.
Qed.

End Durability.

(** ** Properties *)


(** *** A file written, committed, and found again *)

Lemma pair_inl {A B} (x : A * B) b : x.2 = b -> x = (x.1, b).
Proof. by destruct x; simpl; intros ->. Qed.
Lemma triple_parts {A B C} (x : A * B * C) : x = (x.1.1, x.1.2, x.2).
Proof. by destruct x as [[? ?] ?]. Qed.


#[local] Instance plain_hash : PathHash := {| path_hash := fun s => s; path_hash_inj := fun x y H => H |}.

Definition plain_config : StagingConfig :=
  mkConfig "/staging" 64 (60 * Second) 1 3 Second (30 * Second) true true "block" 80 95
    (Some (30 * Second)) (Some (250 * Millisecond)).
Definition file_f : string := "/f".
Definition fresh_area : Manager := blank plain_config empty_disk.
Definition opened_area : Manager := (GetOrCreateSession fresh_area file_f 1).1.
Definition session_in (m : Manager) : WriteSession := default SessionSafety.opened.2 (heap m !! 1%positive).
Definition written_area : Manager :=
  let r := write_persisting (disk opened_area) (session_in opened_area) [x61; x62; x63] 0 2 in
  put 1 r.1.2 (set_disk r.1.1 opened_area).
Definition marked_area : Manager := (MarkDirty written_area file_f 3 3).1.
Definition committed_area : Manager := (CommitPath marked_area file_f 4).1.

(** What the disk kept: what is there, when it is all flushed. *)
Definition remains (d : Disk) : Disk := mkDisk (data d) (inodes d) (sidecars d) ∅ ∅ ∅ [] ∅ ∅ ∅.
Definition after_loss : Disk := remains (disk committed_area).

Definition sp_f : string := stagingFilePath fresh_area file_f.
Definition sidecar_f : PathMetadataState :=
  mkPathState 1 file_f "f" "" 0 0 sp_f "none" 3 None true.

(** A disk with the one file, flushed. *)
Record one_file (d : Disk) : Prop := mkOneFile {
  of_data : data d = {[sp_f := 1%positive]};
  of_inodes : inodes d = {[1%positive := mkInode [x61; x62; x63] 2]};
  of_sidecars : sidecars d = {[pathMetadataPath sp_f := mkSidecar (Some sidecar_f) true]};
  of_older : older_data d = ∅ /\ older_sidecars d = ∅;
  of_flushed : flushed d = {[1%positive := [x61; x62; x63]]};
  of_records : tombstone_files d = ∅ /\ conflict_files d = ∅
}.

Lemma committed_one_file : one_file (disk committed_area).
Proof. split; vm_compute; try split; reflexivity. Qed.

Lemma one_file_loss d : one_file d -> power_loss d (remains d).
Proof.
  intros [Hd Hi Hs [Hod Hos] Hf [Ht Hc]]. split; simpl; try done.
  - intros name. unfold data_outcomes. rewrite Hod, lookup_empty. left.
  - intros name. unfold sidecar_outcomes. rewrite Hs, Hos, lookup_empty.
    destruct (decide (name = pathMetadataPath sp_f)) as [->|Hne].
    + rewrite lookup_singleton_eq. cbn [sc_state sc_flushed app default]. eexists. split; [left|reflexivity].
    + rewrite lookup_singleton_ne by done. eexists. split; [left|reflexivity].
  - intros i. unfold bytes_at. rewrite Hf, Hi. intros [<- _]%lookup_singleton_Some.
    rewrite lookup_singleton_eq. simpl. eauto.
Qed.

Lemma one_file_consistent d : one_file d -> consistent (blank plain_config (remains d)).
Proof.
  intros [Hd _ Hs _ _ _] name d' st. simpl. rewrite Hd.
  intros Hr [i [<- _]%lookup_singleton_Some]. apply read_Some in Hr as (sc & raw & Hsc & Hraw & -> & _).
  simpl in Hsc. rewrite Hs, lookup_singleton_eq in Hsc. injection Hsc as <-. injection Hraw as <-. reflexivity.
Qed.

Lemma opened_eq : GetOrCreateSession fresh_area file_f 1 = (opened_area, inl 1%positive).
Proof.
  unfold opened_area. assert ((GetOrCreateSession fresh_area file_f 1).2 = inl 1%positive) as H
    by (vm_compute; reflexivity). revert H. generalize (GetOrCreateSession fresh_area file_f 1). intros x. apply pair_inl.
Qed.

Lemma committed_eq : CommitPath marked_area file_f 4 = (committed_area, None).
Proof.
  unfold committed_area. assert ((CommitPath marked_area file_f 4).2 = None) as H by (vm_compute; reflexivity).
  revert H. generalize (CommitPath marked_area file_f 4). intros x. apply pair_inl.
Qed.

Lemma marked_steps : rtc (step file_f 1) opened_area marked_area.
Proof.
  eapply rtc_l; [|eapply rtc_l; [|apply rtc_refl]].
  - apply (d_session file_f 1 opened_area (session_in opened_area)
      (write_persisting (disk opened_area) (session_in opened_area) [x61; x62; x63] 0 2).1.1
      (write_persisting (disk opened_area) (session_in opened_area) [x61; x62; x63] 0 2).1.2);
      [vm_compute; reflexivity|]. eapply o_write. apply triple_parts.
  - unfold marked_area, written_area. cbv zeta.
    match goal with |- step _ _ ?x (MarkDirty ?x ?f ?n ?t).1 => generalize x end. intros x.
    eapply d_mark. apply surjective_pairing.
Qed.


Example marked_bytes : staged (disk marked_area) (session_in marked_area) = [x61; x62; x63].
Proof. vm_compute. reflexivity. Qed.

(** *** The commit that is not repeated *)

(** The sidecar of a dirty, committed file goes missing; the commit that writes
    it again fails at the last step, the flush of the directory (the fifteenth
    call on the disk). *)
Definition lost_sidecar : Manager :=
  set_disk (set_older id (fun _ => ∅) (set_sidecars (fun _ => ∅) (disk committed_area))) committed_area.
Definition failed_commit : Manager * option error :=
  CommitPath (set_disk (set_outcomes (replicate 14 None ++ [Some 0%nat]) (disk lost_sidecar)) lost_sidecar) file_f 5.
Definition retried_commit : Manager * option error := CommitPath failed_commit.1 file_f 6.

(** A failed commit can make the next one answer too early.  When the sidecar
    of a dirty file has gone, the commit that writes it again and fails before
    its directory entry is flushed leaves nothing to show that; the client's
    retry finds a sidecar, reports the bytes stable, and a power loss can still
    leave the file without one. *)
Theorem retried_commit_skips_flush :
  DirtyIndex.IsDirty (index lost_sidecar) file_f = true /\
  failed_commit.2 = Some ErrIO /\ retried_commit.2 = None /\
  None ∈ sidecar_outcomes (disk retried_commit.1) (pathMetadataPath sp_f).
Proof. vm_compute. split_and!; try reflexivity. do 3 right. left. Qed.

End Durability.
