(* ===== verification/ObjectStore.v ===== *)
(** * The object store, as an interface

    The sync worker reaches the bucket through the [COSClient] interface of
    [internal/staging/sync_worker.go].  What answers is a remote service, so the
    store is a parameter: [ObjectStore] has the interface's operations and what
    can be observed of a bucket, and [StoreLaws] the documented behaviour the
    gateway relies on.  A call that reports success took effect; one that reports
    a failure may or may not have; no call touches another key.  Keys are
    compared without their leading slash, which the client library's request
    path cleaning drops.  [Memory] is an instance. *)
From S2P Require Import Prelude StagingTypes Disk.

(** A part of a multipart upload under way: its bytes and its tag. *)
Record part := mkPart { part_bytes : bytes; part_etag : string }.

Record multipart := mkMultipartUpload {
  mp_key : string;
  mp_attrs : StagedAttributes;
  mp_parts : gmap Z part
}.

Class ObjectStore := {
  store : Type;
  object : store -> string -> option (bytes * StagedAttributes);
  multipart_upload : store -> string -> option multipart;
  PutObjectStream : store -> string -> bytes -> StagedAttributes -> store * option Disk.error;
  CreateMultipartUpload : store -> string -> StagedAttributes -> store * (string + Disk.error);
  UploadPart : store -> string -> string -> Z -> bytes -> store * (string + Disk.error);
  CompleteMultipartUpload : store -> string -> string -> list (Z * string) -> store * option Disk.error;
  AbortMultipartUpload : store -> string -> string -> store * option Disk.error;
  DeleteObject : store -> string -> store * option Disk.error
}.

(** The bytes a list of completed parts stands for, when each part is there
    with the tag given. *)
Fixpoint assemble (parts : gmap Z part) (l : list (Z * string)) : option bytes :=
  match l with
  | [] => Some []
  | (n, etag) :: l' =>
      match parts !! n with
      | Some p => if decide (part_etag p = etag)
                  then (fun rest => part_bytes p ++ rest) <$> assemble parts l' else None
      | None => None
      end
  end.

Class StoreLaws `{ObjectStore} := {
  put_done s k b a s' : PutObjectStream s k b a = (s', None) -> object s' k = Some (b, a);
  put_failed s k b a s' e : PutObjectStream s k b a = (s', Some e) ->
    object s' k = object s k \/ object s' k = Some (b, a);
  put_frame s k b a s' r k' : PutObjectStream s k b a = (s', r) -> k' <> k ->
    object s' k' = object s k';
  create_done s k a s' id : CreateMultipartUpload s k a = (s', inl id) ->
    multipart_upload s' id = Some (mkMultipartUpload k a ∅);
  create_frame s k a s' r k' : CreateMultipartUpload s k a = (s', r) -> object s' k' = object s k';
  part_done s k id n b s' etag u : UploadPart s k id n b = (s', inl etag) ->
    multipart_upload s id = Some u -> mp_key u = k ->
    multipart_upload s' id =
      Some (mkMultipartUpload k (mp_attrs u) (<[n := mkPart b etag]> (mp_parts u)));
  part_frame s k id n b s' r k' : UploadPart s k id n b = (s', r) -> object s' k' = object s k';
  complete_done s k id l s' : CompleteMultipartUpload s k id l = (s', None) ->
    exists u b, multipart_upload s id = Some u /\ mp_key u = k /\ assemble (mp_parts u) l = Some b /\
      object s' k = Some (b, mp_attrs u);
  complete_failed s k id l s' e u : CompleteMultipartUpload s k id l = (s', Some e) ->
    multipart_upload s id = Some u -> mp_key u = k ->
    object s' k = object s k \/
    exists b, assemble (mp_parts u) l = Some b /\ object s' k = Some (b, mp_attrs u);
  complete_frame s k id l s' r k' : CompleteMultipartUpload s k id l = (s', r) -> k' <> k ->
    object s' k' = object s k';
  abort_frame s k id s' r k' : AbortMultipartUpload s k id = (s', r) -> object s' k' = object s k';
  delete_done s k s' : DeleteObject s k = (s', None) -> object s' k = None;
  delete_failed s k s' e : DeleteObject s k = (s', Some e) ->
    object s' k = object s k \/ object s' k = None;
  delete_frame s k s' r k' : DeleteObject s k = (s', r) -> k' <> k -> object s' k' = object s k'
}.

(** ** A store in memory, whose calls end as [answers] says *)
Module Memory.

(** How a call ends: [None] well, [Some applied] with a failure that did or
    did not take effect. *)
Record state := mkState {
  objects : gmap string (bytes * StagedAttributes);
  pending : gmap string multipart;
  answers : list (option bool)
}.

Definition answer (s : state) : state * option bool :=
  match answers s with
  | [] => (s, None)
  | a :: rest => (mkState (objects s) (pending s) rest, a)
  end.

(** Run a call whose effect is [f]. *)
Definition call (s : state) (f : state -> state) : state * option Disk.error :=
  match answer s with
  | (s, None) => (f s, None)
  | (s, Some true) => (f s, Some (Disk.ErrStore "failed"))
  | (s, Some false) => (s, Some (Disk.ErrStore "failed"))
  end.

Definition set_objects f (s : state) : state := mkState (f (objects s)) (pending s) (answers s).
Definition set_pending f (s : state) : state := mkState (objects s) (f (pending s)) (answers s).

Definition create (s : state) (k : string) (a : StagedAttributes) : state * (string + Disk.error) :=
  let id := fresh (dom (pending s)) in
  match call s (set_pending <[id := mkMultipartUpload k a ∅]>) with
  | (s, None) => (s, inl id)
  | (s, Some e) => (s, inr e)
  end.

Definition add_part (n : Z) (b : bytes) (u : multipart) : multipart :=
  mkMultipartUpload (mp_key u) (mp_attrs u) (<[n := mkPart b "etag"]> (mp_parts u)).

Definition upload_part (s : state) (k id : string) (n : Z) (b : bytes) : state * (string + Disk.error) :=
  match call s (set_pending (alter (add_part n b) id)) with
  | (s, None) => (s, inl "etag")
  | (s, Some e) => (s, inr e)
  end.

Definition complete (s : state) (k id : string) (l : list (Z * string)) : state * option Disk.error :=
  match pending s !! id with
  | Some u =>
      if decide (mp_key u = k) then
        match assemble (mp_parts u) l with
        | Some b => call s (fun s => set_pending (delete id) (set_objects <[k := (b, mp_attrs u)]> s))
        | None => (s, Some (Disk.ErrStore "InvalidPart"))
        end
      else (s, Some (Disk.ErrStore "NoSuchUpload"))
  | None => (s, Some (Disk.ErrStore "NoSuchUpload"))
  end.

#[export] Instance memory_store : ObjectStore := {|
  store := state;
  object s k := objects s !! k;
  multipart_upload s id := pending s !! id;
  PutObjectStream s k b a := call s (set_objects <[k := (b, a)]>);
  CreateMultipartUpload := create;
  UploadPart := upload_part;
  CompleteMultipartUpload := complete;
  AbortMultipartUpload s k id := call s (set_pending (delete id));
  DeleteObject s k := call s (set_objects (delete k))
|}.

Lemma answer_same s s' a : answer s = (s', a) -> objects s' = objects s /\ pending s' = pending s.
Proof. unfold answer. destruct (answers s); by intros [= <- <-]. Qed.

Lemma call_cases s f s' r :
  call s f = (s', r) -> exists s0, objects s0 = objects s /\ pending s0 = pending s /\
    (s' = f s0 \/ s' = s0 /\ exists e, r = Some e).
Proof.
  unfold call. destruct (answer s) as [s0 [[]|]] eqn:E; apply answer_same in E as [Ho Hp];
    intros [= <- <-]; exists s0; eauto 6.
Qed.

#[export] Instance memory_laws : StoreLaws.
Proof.
  split; simpl.
  - intros s k b a s' Hc. unfold call in Hc. destruct (answer s) as [s0 [[]|]]; simplify_eq.
    apply lookup_insert_eq.
  - intros s k b a s' e (s0 & Ho & _ & [->|[-> _]])%call_cases; [right|by left; rewrite Ho].
    apply lookup_insert_eq.
  - intros s k b a s' r k' (s0 & Ho & _ & [->|[-> _]])%call_cases Hne; [|by rewrite Ho].
    simpl. by rewrite lookup_insert_ne, Ho.
  - intros s k a s' id. unfold create, call. destruct (answer s) as [s0 [[]|]]; intros; simplify_eq.
    apply lookup_insert_eq.
  - intros s k a s' r k'. unfold create. destruct (call s _) as [s1 o] eqn:E.
    apply call_cases in E as (s0 & Ho & _ & [->|[-> _]]); destruct o; intros [= <- <-]; simpl; by rewrite Ho.
  - intros s k id n b s' etag u. unfold upload_part, call.
    destruct (answer s) as [s0 [[]|]] eqn:E; intros; simplify_eq.
    apply answer_same in E as [_ Hp]. simpl. rewrite lookup_alter_eq, Hp.
    match goal with H : pending s !! _ = _ |- _ => rewrite H end. done.
  - intros s k id n b s' r k'. unfold upload_part. destruct (call s _) as [s1 o] eqn:E.
    apply call_cases in E as (s0 & Ho & _ & [->|[-> _]]); destruct o; intros [= <- <-]; simpl; by rewrite Ho.
  - intros s k id l s'. unfold complete. destruct (pending s !! id) as [u|]; [|done].
    case_decide; [|done]. destruct (assemble _ l) as [b|] eqn:Ea; [|done].
    unfold call. destruct (answer s) as [s0 [[]|]]; intros; simplify_eq.
    exists u, b. split_and!; try done. simpl. apply lookup_insert_eq.
  - intros s k id l s' e u Hc Hu <-. unfold complete in Hc. rewrite Hu, decide_True in Hc by done.
    destruct (assemble _ l) as [b|] eqn:Ea; [|simplify_eq; by left].
    apply call_cases in Hc as (s0 & Ho & _ & [->|[-> _]]); [right|left; by rewrite Ho].
    exists b. split; [done|]. simpl. apply lookup_insert_eq.
  - intros s k id l s' r k'. unfold complete. destruct (pending s !! id) as [u|]; [|by intros [= <- <-]].
    case_decide; [|by intros [= <- <-]]. destruct (assemble _ l) as [b|]; [|by intros [= <- <-]].
    intros (s0 & Ho & _ & [->|[-> _]])%call_cases Hne; simpl; [|by rewrite Ho].
    by rewrite lookup_insert_ne, Ho.
  - intros s k id s' r k' (s0 & Ho & _ & [->|[-> _]])%call_cases; simpl; by rewrite Ho.
  - intros s k s' Hc. unfold call in Hc. destruct (answer s) as [s0 [[]|]]; simplify_eq.
    apply lookup_delete_eq.
  - intros s k s' e (s0 & Ho & _ & [->|[-> _]])%call_cases; [right|left; by rewrite Ho].
    apply lookup_delete_eq.
  - intros s k s' r k' (s0 & Ho & _ & [->|[-> _]])%call_cases Hne; simpl; [|by rewrite Ho].
    by rewrite lookup_delete_ne, Ho.
Qed.

End Memory.
