(* ===== verification/SyncWorker.v ===== *)
(** * The sync worker ([internal/staging/sync_worker.go])

    Uploading dirty files and completing accepted deletes.  [syncFileLocked] is
    cut into the steps between which other goroutines can run (each takes and
    releases a lock, or is a call to the object store); [SyncSafety] interleaves
    them with clients, and [syncFileLocked] runs them in a row.  [stopped i]
    says whether the worker was stopped while it waited before attempt [i], and
    [current i] what [isSnapshotCurrent] answers at the end of attempt [i]. *)
From S2P Require Import Prelude StagingTypes Disk DirtyIndex PathState Session StagingManager.
From S2P Require Import ObjectStore.

Module Sync.
Import Disk Session Multipart Staging.

Definition syncStabilityDelay : Duration := 5 * Second.

Section Worker.
Context `{PathHash} `{ObjectStore}.

(** [shouldSync].  The comparison with 80% of the quota is done in floating
    point by the code; below 2^53 bytes it is the exact one. *)
Definition shouldSync (m : Manager) (metadata : DirtyFileMetadata) (now : Time) : bool :=
  let path := d_Path metadata in
  if DirtyIndex.IsConflicted (index m) path then false
  else if negb (IsZero (d_LastModified metadata)) &&
          (time_Sub now (d_LastModified metadata) <? syncStabilityDelay) then false
  else
    let session := GetSession m path ≫= deref m in
    if from_option (fun w => (0 <? w_RefCount w) &&
         (time_Sub now (w_LastWrite w) <? syncStabilityDelay)) false session then false
    else
      let totalSize := GetTotalStagingSize m in
      let maxSize := MaxStagingSizeGB (config m) * 1024 * 1024 * 1024 in
      if (0 <? maxSize) && (4 * maxSize <=? 5 * totalSize) then true
      else if SyncThresholdMB (config m) * 1024 * 1024 <=? d_Size metadata then true
      else if MaxDirtyAge (config m) <=? time_Sub now (d_DirtySince metadata) then true
      else from_option (fun w => (w_RefCount w =? 0) &&
             (syncStabilityDelay <=? time_Sub now (w_LastWrite w))) false session.

(** ** Uploads *)

(** The wait before attempt [attempt], counted from 0. *)
Definition backoff (cfg : StagingConfig) (attempt : Z) : Duration :=
  let b := wrap64 (RetryBackoffInit cfg * wrap64 (2 ^ (attempt - 1))) in
  if RetryBackoffMax cfg <? b then RetryBackoffMax cfg else b.

(** [uploadWithRetryStream], with [left] attempts left. *)
Fixpoint uploadAttempts (left : nat) (attempt : Z) (s : store) (key : string) (body : bytes)
    (attrs : StagedAttributes) (stopped : Z -> bool) (lastErr : error) : store * option error :=
  match left with
  | O => (s, Some (Wrap lastErr))
  | S left' =>
      if (0 <? attempt) && stopped attempt then (s, Some ErrClosed)
      else match PutObjectStream s key body attrs with
           | (s, None) => (s, None)
           | (s, Some e) => uploadAttempts left' (attempt + 1) s key body attrs stopped e
           end
  end.

Definition uploadWithRetryStream (cfg : StagingConfig) (s : store) (path : string) (body : bytes)
    (attrs : StagedAttributes) (stopped : Z -> bool) : store * option error :=
  uploadAttempts (Z.to_nat (MaxSyncRetries cfg)) 0 s (objectKeyFromPath path) body attrs stopped
    (ErrStore "no attempt").

(** The part loop of [uploadMultipartOnce]: [left] parts to go. *)
Fixpoint uploadParts (left : nat) (s : store) (key uploadID : string) (file : bytes)
    (size partSize offset partNumber : Z) : store * (list (Z * string) + error) :=
  match left with
  | O => (s, inl [])
  | S left' =>
      let currentPartSize := if size - offset <? partSize then size - offset else partSize in
      match UploadPart s key uploadID partNumber (pread file offset currentPartSize) with
      | (s, inr e) => (s, inr e)
      | (s, inl etag) =>
          match uploadParts left' s key uploadID file size partSize (offset + partSize) (partNumber + 1) with
          | (s, inr e) => (s, inr e)
          | (s, inl completed) => (s, inl ((partNumber, etag) :: completed))
          end
      end
  end.

(** How often [for offset < size] runs. *)
Definition part_count (size partSize : Z) : nat := Z.to_nat ((size + partSize - 1) / partSize).

(** [sort.Slice] by part number. *)
Fixpoint insert_part (p : Z * string) (l : list (Z * string)) : list (Z * string) :=
  match l with
  | [] => [p]
  | q :: l' => if p.1 <=? q.1 then p :: l else q :: insert_part p l'
  end.
Definition sort_parts (l : list (Z * string)) : list (Z * string) := foldr insert_part [] l.

(** [uploadMultipartOnce]: an upload that is not completed is aborted. *)
Definition uploadMultipartOnce (s : store) (path : string) (file : bytes) (size partSize : Z)
    (attrs : StagedAttributes) (current : bool) : store * option error :=
  let key := objectKeyFromPath path in
  match CreateMultipartUpload s key attrs with
  | (s, inr e) => (s, Some e)
  | (s, inl uploadID) =>
      let abort s := (AbortMultipartUpload s key uploadID).1 in
      match uploadParts (part_count size partSize) s key uploadID file size partSize 0 1 with
      | (s, inr e) => (abort s, Some e)
      | (s, inl completed) =>
          if negb current then (abort s, Some ErrSnapshotChanged)
          else match CompleteMultipartUpload s key uploadID (sort_parts completed) with
               | (s, Some e) => (abort s, Some e)
               | (s, None) => (s, None)
               end
      end
  end.

(** [uploadMultipartWithRetry]: a changed snapshot ends it. *)
Fixpoint multipartAttempts (left : nat) (attempt : Z) (s : store) (path : string) (file : bytes)
    (size partSize : Z) (attrs : StagedAttributes) (stopped current : Z -> bool) (lastErr : error)
    : store * option error :=
  match left with
  | O => (s, Some (Wrap lastErr))
  | S left' =>
      if (0 <? attempt) && stopped attempt then (s, Some ErrClosed)
      else match uploadMultipartOnce s path file size partSize attrs (current attempt) with
           | (s, None) => (s, None)
           | (s, Some ErrSnapshotChanged) => (s, Some ErrSnapshotChanged)
           | (s, Some e) =>
               multipartAttempts left' (attempt + 1) s path file size partSize attrs stopped current e
           end
  end.

Definition uploadMultipartWithRetry (cfg : StagingConfig) (s : store) (path : string) (file : bytes)
    (size partSize : Z) (attrs : StagedAttributes) (stopped current : Z -> bool) : store * option error :=
  multipartAttempts (Z.to_nat (MaxSyncRetries cfg)) 0 s path file size partSize attrs stopped current
    (ErrStore "no attempt").

(** ** Syncing one file

    Where a sync of one path is, between its steps. *)
Inductive phase :=
  | PSession (a : positive)
  | PGeneration (a : positive) (gen : Z)
  | PSnapshot (a : positive) (gen : Z) (s : UploadSnapshot)
  | PUploaded (a : positive) (gen : Z) (s : UploadSnapshot)
  | PClean (a : positive) (s : UploadSnapshot).

(** Find the session, or rebuild it around the staging file; [None] is a sync
    that ends here without an error. *)
Definition sync_session (m : Manager) (path : string) (now : Time)
    : Manager * (option positive + error) :=
  if DirtyIndex.IsConflicted (index m) path then (m, inr (Wrap ErrPathConflicted))
  else if HasPendingDelete m path then (m, inl None)
  else match GetSession m path with
  | Some a => (m, inl (Some a))
  | None =>
      match RecoverSessionFromStaging m path now with
      | (m, inl a) => (m, inl (Some a))
      | (m, inr e) => if IsNotExist e then (ForgetDirty m path, inl None) else (m, inr (Wrap e))
      end
  end.

(** Read the generation, before the staged bytes are opened. *)
Definition sync_generation (m : Manager) (path : string) : Z :=
  from_option d_LocalDirtyGeneration 0 (DirtyIndex.GetMetadata (index m) path).

(** Flush the session and open its bytes. *)
Definition sync_snapshot (m : Manager) (a : positive) : Manager * (UploadSnapshot + error) :=
  match deref m a with
  | None => (m, inr (Wrap ErrClosed))
  | Some w =>
      let '(d, w, r) := OpenUploadSnapshot (disk m) w in
      (put a w (set_disk d m), match r with inl s => inl s | inr e => inr (Wrap e) end)
  end.

(** Upload the snapshot's bytes, in parts when there are enough of them. *)
Definition sync_upload (m : Manager) (st : store) (path : string) (a : positive) (s : UploadSnapshot)
    (stopped current : Z -> bool) : Manager * store * option error :=
  let partSize := if s_PartSize s <=? 0 then 20 * 1024 * 1024 else s_PartSize s in
  let attrs := from_option w_attrs default_attributes (deref m a) in
  let file := bytes_at (disk m) (s_File s) in
  let reset := update a (fun w => set_multipart (Reset (w_Multipart w)) (w_written w) w) in
  if partSize <=? s_Size s then
    let '(st, err) := uploadMultipartWithRetry (config m) st path file (s_Size s) partSize attrs
                        stopped current in
    (reset m, st, option_map Wrap err)
  else
    let '(st, err) := uploadWithRetryStream (config m) st path (pread file 0 (s_Size s)) attrs stopped in
    (m, st, option_map Wrap err).

(** The deferred [snapshot.Close]. *)
Definition sync_close (m : Manager) (a : positive) (s : UploadSnapshot) : Manager :=
  update a (fun w => CloseSnapshot w s) m.

(** Remove the session of a file now clean, when so configured. *)
Definition sync_cleanup (m : Manager) (path : string) (a : positive) : Manager * option error :=
  if CleanAfterSync (config m) then
    let '(m, _, err) := cleanupSyncedSession m path a in (m, option_map Wrap err)
  else (m, None).

(** [syncFileLocked]: the steps in a row. *)
Definition syncFileLocked (m : Manager) (st : store) (path : string) (now : Time)
    (stopped current : Z -> bool) : Manager * store * option error :=
  match sync_session m path now with
  | (m, inr e) => (m, st, Some e)
  | (m, inl None) => (m, st, None)
  | (m, inl (Some a)) =>
      let gen := sync_generation m path in
      match sync_snapshot m a with
      | (m, inr e) => (m, st, Some e)
      | (m, inl s) =>
          match sync_upload m st path a s stopped current with
          | (m, st, Some e) => (sync_close m a s, st, Some e)
          | (m, st, None) =>
              let '(m, clean) := markCleanIfUnchanged m path gen in
              if negb clean then (sync_close m a s, st, Some ErrSnapshotChanged)
              else
                let '(m, err) := sync_cleanup m path a in
                (sync_close m a s, st, err)
          end
      end
  end.

(** [TriggerSync]. *)
Definition TriggerSync (m : Manager) (st : store) (path : string) (now : Time)
    (stopped current : Z -> bool) : Manager * store * option error :=
  if DirtyIndex.IsConflicted (index m) path then (m, st, Some (Wrap ErrPathConflicted))
  else if negb (DirtyIndex.IsDirty (index m) path) then (m, st, None)
  else syncFileLocked m st path now stopped current.

(** One file of [processDirtyFiles]. *)
Definition processDirtyFile (m : Manager) (st : store) (metadata : DirtyFileMetadata) (now : Time)
    (stopped current : Z -> bool) : Manager * store :=
  let path := d_Path metadata in
  if negb (shouldSync m metadata now) then (m, st)
  else if DirtyIndex.IsConflicted (index m) path then (m, st)
  else
    let '(i, ok) := DirtyIndex.LockFile (index m) path in
    let m := set_index i m in
    if negb ok then (m, st)
    else if negb (DirtyIndex.IsDirty (index m) path) then (UnlockSync m path, st)
    else
      let '(m, st, err) := syncFileLocked m st path now stopped current in
      let m := match err with
               | Some _ => set_index (DirtyIndex.IncrementSyncAttempts (index m) path "sync failed") m
               | None => m
               end in
      (UnlockSync m path, st).

Definition processDirtyFiles (m : Manager) (st : store) (now : Time) (stopped current : Z -> bool)
    : Manager * store :=
  foldl (fun '(m, st) metadata => processDirtyFile m st metadata now stopped current)
    (m, st) (DirtyIndex.GetDirtyFiles (index m)).

(** ** Completing accepted deletes

    One tombstone of [processPendingDeletes], up to the call that deletes the
    object, and from its answer on. *)
Definition pendingDelete_claim (m : Manager) (path : string) : Manager * bool :=
  let '(i, ok) := DirtyIndex.LockFile (index m) path in
  let m := set_index i m in
  if negb ok then (m, false)
  else if negb (HasPendingDelete m path) then (UnlockSync m path, false)
  else
    let '(m, stillDeleted, _) := discardDeletedStaging m path in
    if negb stillDeleted then (UnlockSync m path, false) else (m, true).

Definition pendingDelete_finish (m : Manager) (path : string) (err : option error) : Manager :=
  match err with
  | Some _ => UnlockSync m path
  | None => UnlockSync (ResolvePendingDelete m path) path
  end.

Definition processPendingDelete (m : Manager) (st : store) (tomb : TombstoneState) : Manager * store :=
  let path := t_Path tomb in
  let '(m, go) := pendingDelete_claim m path in
  if negb go then (m, st)
  else
    let '(st, err) := DeleteObject st (t_ObjectKey tomb) in
    (pendingDelete_finish m path err, st).

Definition processPendingDeletes (m : Manager) (st : store) : Manager * store :=
  foldl (fun '(m, st) tomb => processPendingDelete m st tomb) (m, st) (PendingDeletes m).

End Worker.

(** ** Upload statistics *)

Record uploadAccumulator := mkAccumulator { acc_bytes : Z; acc_duration : Duration }.
Record syncObservation := mkObservation {
  o_Path : string; o_SizeBytes : Z; o_UploadDuration : Duration;
  o_VisibilityLatency : Duration; o_CompletedAt : Time
}.
Record stats := mkStats {
  uploadByPath : gmap string uploadAccumulator;
  totalSyncedFiles : Z;
  totalUploadedBytes : Z;
  lastSync : option syncObservation;
  recentSyncs : list syncObservation
}.

Definition addUploadSample (s : stats) (path : string) (n : Z) (duration : Duration) : stats :=
  if n <=? 0 then s
  else
    let acc := default (mkAccumulator 0 0) (uploadByPath s !! path) in
    mkStats (<[path := mkAccumulator (acc_bytes acc + n) (acc_duration acc + duration)]> (uploadByPath s))
      (totalSyncedFiles s) (totalUploadedBytes s) (lastSync s) (recentSyncs s).

Definition consumeUploadSamples (s : stats) (path : string) : stats * (Z * Duration) :=
  let acc := default (mkAccumulator 0 0) (uploadByPath s !! path) in
  (mkStats (delete path (uploadByPath s)) (totalSyncedFiles s) (totalUploadedBytes s) (lastSync s)
     (recentSyncs s), (acc_bytes acc, acc_duration acc)).

Definition recordSuccessfulSync (s : stats) (path : string) (uploadedBytes : Z) (dirtySince : Time)
    (uploadDuration : Duration) (now : Time) : stats :=
  let observation := mkObservation path uploadedBytes uploadDuration (time_Sub now dirtySince) now in
  mkStats (uploadByPath s) (totalSyncedFiles s + 1) (totalUploadedBytes s + uploadedBytes)
    (Some observation) (take 50 (observation :: recentSyncs s)).

End Sync.
