(* ===== verification/SyncUpload.v ===== *)
(** * What an upload leaves in the object store

    Proved against the [ObjectStore] interface: a file uploaded in one piece or
    in parts ends up as the bytes of its snapshot, and an upload that fails
    leaves the object as it was or, when the store did the work and only its
    answer was lost, as those bytes. *)
From S2P Require Import Prelude StagingTypes Disk DirtyIndex Session StagingManager ObjectStore.
From S2P Require Import SyncWorker.

Module SyncUpload.
Import Disk Session Staging Sync.

(** ** Cutting a file into parts *)

Lemma pread_split file off n k :
  0 <= off -> 0 <= n -> 0 <= k ->
  pread file off n ++ pread file (off + n) k = pread file off (n + k).
Proof.
  intros Ho Hn Hk. unfold pread. rewrite !Z2Nat.inj_add by lia.
  rewrite <-drop_drop. set (l := drop (Z.to_nat off) file).
  apply list_eq. intros i. destruct (decide (i < Z.to_nat n)%nat) as [Hi|Hi].
  - rewrite (lookup_take_lt _ (_ + _)%nat) by lia. destruct (decide (i < length l)%nat) as [Hl|Hl].
    + rewrite lookup_app_l by (rewrite length_take; lia). by apply lookup_take_lt.
    + rewrite (drop_ge l), take_nil, app_nil_r by lia. by apply lookup_take_lt.
  - destruct (decide (Z.to_nat n <= length l)%nat) as [Hl|Hl].
    + rewrite lookup_app_r by (rewrite length_take; lia). rewrite length_take, Nat.min_l by lia.
      destruct (decide (i < Z.to_nat n + Z.to_nat k)%nat).
      * rewrite !lookup_take_lt, lookup_drop by lia. f_equal. lia.
      * by rewrite !lookup_take_ge by lia.
    + rewrite (drop_ge l), take_nil, app_nil_r, !(take_ge l) by lia. done.
Qed.

Lemma part_count_0 size ps : 0 < ps -> size <= 0 -> part_count size ps = 0%nat.
Proof.
  intros Hps Hs. unfold part_count.
  assert ((size + ps - 1) / ps < 1) by (apply Z.div_lt_upper_bound; lia). lia.
Qed.

Lemma part_count_S size ps : 0 < ps -> 0 < size -> part_count size ps = S (part_count (size - ps) ps).
Proof.
  intros Hps Hs. unfold part_count.
  replace (size + ps - 1) with (size - ps + ps - 1 + 1 * ps) by lia. rewrite Z.div_add by lia.
  assert (0 <= (size - ps + ps - 1) / ps) by (apply Z.div_pos; lia). lia.
Qed.

Lemma insert_part_front p l :
  Forall (fun q => p.1 < q.1) l -> insert_part p l = p :: l.
Proof. destruct l as [|q l]; simpl; [done|]. intros Hl. inversion Hl; subst. zcases. Qed.

Lemma sort_parts_ascending l :
  StronglySorted (fun p q : Z * string => p.1 < q.1) l -> sort_parts l = l.
Proof.
  induction 1 as [|p l Hl IH Hp]; simpl; [done|]. unfold sort_parts in *. rewrite IH.
  by apply insert_part_front.
Qed.

Section Uploads.
Context {PH : PathHash} {OS : ObjectStore} {SL : StoreLaws}.

Lemma assemble_irrelevant (parts : gmap Z part) (n : Z) (p : part) l :
  Forall (fun q : Z * string => n < q.1) l -> assemble (<[n := p]> parts) l = assemble parts l.
Proof.
  induction 1 as [|[k e] l Hk Hl IH]; simpl in *; [done|].
  rewrite lookup_insert_ne by lia. by rewrite IH.
Qed.

(** What the part loop has done when it succeeds. *)
Lemma uploadParts_done file size ps key id : forall left s off pn s' l u,
  uploadParts left s key id file size ps off pn = (s', inl l) ->
  multipart_upload s id = Some u -> mp_key u = key ->
  0 < ps -> 0 <= off -> left = part_count (size - off) ps ->
  exists u', multipart_upload s' id = Some u' /\ mp_key u' = key /\ mp_attrs u' = mp_attrs u /\
    (forall n, n < pn -> mp_parts u' !! n = mp_parts u !! n) /\
    assemble (mp_parts u') l = Some (pread file off (size - off)) /\
    StronglySorted (fun p q : Z * string => p.1 < q.1) l /\ Forall (fun q => pn <= q.1) l.
Proof.
  induction left as [|left IH]; intros s off pn s' l u Hrun Hu Hk Hps Hoff Hleft.
  - simpl in Hrun. simplify_eq. exists u. split_and!; try done; try constructor.
    simpl. f_equal. unfold pread.
    destruct (decide (0 < size - off)); [rewrite part_count_S in Hleft by lia; done|].
    by replace (Z.to_nat (size - off)) with 0%nat by lia.
  - assert (0 < size - off) as Hpos.
    { destruct (decide (0 < size - off)); [done|]. rewrite part_count_0 in Hleft by lia. done. }
    simpl in Hrun. destruct (UploadPart _ _ _ _ _) as [s1 [etag|e]] eqn:Ep; [|done].
    pose proof (part_done _ _ _ _ _ _ _ _ Ep Hu Hk) as Hu1.
    destruct (uploadParts left s1 _ _ _ _ _ _ _) as [s2 [l2|e]] eqn:Er; [|done].
    injection Hrun as <- <-.
    destruct (IH _ _ _ _ _ _ Er Hu1 eq_refl Hps) as (u' & Hu' & Hk' & Ha' & Hold & Hasm & Hsort & Hge).
    { lia. }
    { rewrite part_count_S in Hleft by lia. replace (size - (off + ps)) with (size - off - ps) by lia.
      congruence. }
    exists u'. split_and!; try done.
    + intros n Hn. rewrite Hold by lia. simpl. by rewrite lookup_insert_ne by lia.
    + simpl. rewrite Hold by lia. simpl. rewrite lookup_insert_eq. simpl. rewrite decide_True by done.
      rewrite Hasm. simpl. f_equal.
      destruct (size - off <? ps) eqn:Elast; bool_to_prop.
      * replace (pread file (off + ps) (size - (off + ps))) with (@nil byte); [by rewrite app_nil_r|].
        unfold pread. by replace (Z.to_nat (size - (off + ps))) with 0%nat by lia.
      * rewrite pread_split by lia. f_equal. lia.
    + constructor; [done|]. eapply Forall_impl; [exact Hge|]. simpl. lia.
    + constructor; [simpl; lia|]. eapply Forall_impl; [exact Hge|]. simpl. lia.
Qed.

Lemma uploadParts_frame file size ps key id : forall left s off pn s' r k,
  uploadParts left s key id file size ps off pn = (s', r) -> object s' k = object s k.
Proof.
  induction left as [|left IH]; intros s off pn s' r k; simpl; [by intros [= <- <-]|].
  destruct (UploadPart _ _ _ _ _) as [s1 [etag|e]] eqn:Ep; apply (part_frame _ _ _ _ _ _ _ k) in Ep.
  - destruct (uploadParts left s1 _ _ _ _ _ _ _) as [s2 [l2|e]] eqn:Er; apply (IH _ _ _ _ _ k) in Er;
      intros [= <- <-]; congruence.
  - by intros [= <- <-].
Qed.

(** The outcome of an upload of [body] to [key]: the object is [body] when the
    upload succeeds, [body] or unchanged when it fails; no other object moves. *)
Definition uploads_to (s s' : store) (key : string) (body : bytes) (attrs : StagedAttributes)
    (err : option error) : Prop :=
  (err = None -> object s' key = Some (body, attrs)) /\
  (object s' key = object s key \/ object s' key = Some (body, attrs)) /\
  (forall k, k <> key -> object s' k = object s k).

Lemma uploads_to_failed s s1 s' key body attrs e err :
  uploads_to s s1 key body attrs (Some e) -> uploads_to s1 s' key body attrs err ->
  uploads_to s s' key body attrs err.
Proof.
  intros (_ & Hm1 & Hf1) (Hd & Hm & Hf). split_and!; [done| |].
  - destruct Hm as [->|?]; [|by right]. destruct Hm1 as [->|?]; [by left|by right].
  - intros k Hk. by rewrite Hf, Hf1.
Qed.

Lemma uploads_to_none s key body attrs e : uploads_to s s key body attrs (Some e).
Proof. split_and!; [done|by left|done]. Qed.

Lemma uploadAttempts_to key body attrs stopped : forall left attempt s lastErr s' err,
  uploadAttempts left attempt s key body attrs stopped lastErr = (s', err) ->
  uploads_to s s' key body attrs err.
Proof.
  induction left as [|left IH]; intros attempt s lastErr s' err; simpl.
  { intros [= <- <-]. apply uploads_to_none. }
  destruct (_ && _); [intros [= <- <-]; apply uploads_to_none|].
  destruct (PutObjectStream s key body attrs) as [s1 [e|]] eqn:E.
  - intros Hrun%IH. apply (uploads_to_failed _ s1 _ _ _ _ e); [|exact Hrun]. split_and!; [done| |].
    + exact (put_failed _ _ _ _ _ _ E).
    + intros k Hk. exact (put_frame _ _ _ _ _ _ _ E Hk).
  - intros [= <- <-]. split_and!; [| |].
    + intros _. exact (put_done _ _ _ _ _ E).
    + right. exact (put_done _ _ _ _ _ E).
    + intros k Hk. exact (put_frame _ _ _ _ _ _ _ E Hk).
Qed.

Lemma uploadMultipartOnce_to s path file size ps attrs current s' err :
  0 < ps ->
  uploadMultipartOnce s path file size ps attrs current = (s', err) ->
  uploads_to s s' (objectKeyFromPath path) (pread file 0 size) attrs err /\
  (current = false -> err <> None).
Proof.
  intros Hps. unfold uploadMultipartOnce.
  destruct (CreateMultipartUpload s _ attrs) as [s1 [id|e]] eqn:Ec.
  2: { intros [= <- <-]. split; [|done].
       split_and!; [done|left|intros]; exact (create_frame _ _ _ _ _ _ Ec). }
  pose proof (create_done _ _ _ _ _ Ec) as Hu.
  assert (forall k, object s1 k = object s k) as H1 by (intros k; exact (create_frame _ _ _ _ _ _ Ec)).
  destruct (uploadParts _ s1 _ _ _ _ _ _ _) as [s2 [l|e]] eqn:Er.
  2: { assert (forall k, object s2 k = object s k) as H2.
       { intros k. by rewrite (uploadParts_frame _ _ _ _ _ _ _ _ _ _ _ k Er). }
       destruct (AbortMultipartUpload s2 _ id) as [s3 r3] eqn:Ea. intros [= <- <-]. split; [|done].
       assert (forall k, object s3 k = object s k) as H3.
       { intros k. by rewrite (abort_frame _ _ _ _ _ k Ea). }
       split_and!; [done|by left|done]. }
  assert (forall k, object s2 k = object s k) as H2.
  { intros k. by rewrite (uploadParts_frame _ _ _ _ _ _ _ _ _ _ _ k Er). }
  destruct (uploadParts_done _ _ _ _ _ _ _ _ _ _ _ _ Er Hu eq_refl Hps) as
    (u' & Hu' & Hk' & Ha' & _ & Hasm & Hsort & _); [lia|f_equal; lia|].
  rewrite Z.sub_0_r in Hasm. simpl in Ha'.
  destruct current; simpl.
  2: { destruct (AbortMultipartUpload s2 _ id) as [s3 r3] eqn:Ea. intros [= <- <-]. split; [|done].
       split_and!; [done|left|intros]; by rewrite (abort_frame _ _ _ _ _ _ Ea). }
  rewrite sort_parts_ascending by done.
  destruct (CompleteMultipartUpload s2 _ id l) as [s3 [e|]] eqn:Ef.
  - destruct (AbortMultipartUpload s3 _ id) as [s4 r4] eqn:Ea. intros [= <- <-]. split; [|done].
    split_and!; [done| |].
    + rewrite (abort_frame _ _ _ _ _ _ Ea), <-H2.
      destruct (complete_failed _ _ _ _ _ _ _ Ef Hu' Hk') as [->|(b & Hb & ->)]; [by left|right].
      congruence.
    + intros k Hk. rewrite (abort_frame _ _ _ _ _ _ Ea), <-H2. exact (complete_frame _ _ _ _ _ _ _ Ef Hk).
  - intros [= <- <-]. split; [|done].
    destruct (complete_done _ _ _ _ _ Ef) as (u2 & b & Hu2 & _ & Hb & Hob).
    assert (object s3 (objectKeyFromPath path) = Some (pread file 0 size, attrs)) as Hobj by congruence.
    split_and!; [by intros _|by right|].
    intros k Hk. rewrite <-H2. exact (complete_frame _ _ _ _ _ _ _ Ef Hk).
Qed.

Lemma multipartAttempts_to path file size ps attrs stopped current : forall left attempt s lastErr s' err,
  0 < ps ->
  multipartAttempts left attempt s path file size ps attrs stopped current lastErr = (s', err) ->
  uploads_to s s' (objectKeyFromPath path) (pread file 0 size) attrs err.
Proof.
  induction left as [|left IH]; intros attempt s lastErr s' err Hps; simpl.
  { intros [= <- <-]. apply uploads_to_none. }
  destruct (_ && _); [intros [= <- <-]; apply uploads_to_none|].
  destruct (uploadMultipartOnce s _ _ _ _ _ _) as [s1 [e|]] eqn:E;
    apply uploadMultipartOnce_to in E as [E _]; try done.
  - destruct e; intros Hrun;
      first [by injection Hrun as <- <- | eapply uploads_to_failed; [exact E|by eapply IH]].
  - by intros [= <- <-].
Qed.

Lemma sync_upload_to m st path a s stopped current m' st' err :
  0 <= s_Size s ->
  sync_upload m st path a s stopped current = (m', st', err) ->
  uploads_to st st' (objectKeyFromPath path)
    (pread (bytes_at (disk m) (s_File s)) 0 (s_Size s))
    (from_option w_attrs default_attributes (deref m a)) err.
Proof.
  intros Hs. unfold sync_upload.
  destruct (_ <=? s_Size s).
  - destruct (uploadMultipartWithRetry _ _ _ _ _ _ _ _ _) as [st1 e1] eqn:E.
    intros [= <- <- <-]. apply multipartAttempts_to in E; [|cases_lia].
    destruct E as (E1 & E2 & E3). split_and!; [|done|done]. destruct e1; [done|auto].
  - destruct (uploadWithRetryStream _ _ _ _ _ _) as [st1 e1] eqn:E.
    intros [= <- <- <-]. apply uploadAttempts_to in E as (E1 & E2 & E3).
    split_and!; [|done|done]. destruct e1; [done|auto].
Qed.

End Uploads.

(** ** Properties *)

(** C19. An upload in parts is the upload of the whole file: for any part size
    and file, if the multipart upload succeeds the object is exactly the
    snapshot's bytes with its attributes; if it fails, or the snapshot was found
    changed, the object is unchanged or those same bytes; and no other object is
    touched. *)
Theorem multipart_upload_refines_put `{StoreLaws} s path file size ps attrs current s' err :
  0 < ps ->
  uploadMultipartOnce s path file size ps attrs current = (s', err) ->
  uploads_to s s' (objectKeyFromPath path) (pread file 0 size) attrs err /\
  (current = false -> err <> None).
Proof. apply uploadMultipartOnce_to. Qed.

(** Ten bytes in parts of four. *)
Definition ten : bytes := [x30; x31; x32; x33; x34; x35; x36; x37; x38; x39].
Definition empty_store : @store Memory.memory_store := Memory.mkState ∅ ∅ [].
#[local] Existing Instance Memory.memory_laws.

Lemma multipart_upload_refines_put_witness :
  let r := uploadMultipartOnce empty_store "/f" ten 10 4 default_attributes true in
  r.2 = None /\ object r.1 "f" = Some (ten, default_attributes).
Proof.
  intros r. assert (r.2 = None) as Hr by (vm_compute; reflexivity). split; [exact Hr|].
  destruct (multipart_upload_refines_put empty_store "/f" ten 10 4 default_attributes true r.1 r.2)
    as [(Hd & _) _]; [done|apply surjective_pairing|]. specialize (Hd Hr). exact Hd.
Defined.

(** Retrying is safe: however many attempts fail, and whether or not the
    failed ones took effect, an upload that finally succeeds leaves the object
    equal to the body, one that gives up leaves it unchanged or equal to the
    body, and no attempt touches another key. *)
Theorem retried_upload_converges `{StoreLaws} cfg s path body attrs stopped s' err :
  uploadWithRetryStream cfg s path body attrs stopped = (s', err) ->
  uploads_to s s' (objectKeyFromPath path) body attrs err.
Proof. apply uploadAttempts_to. Qed.

Definition three_tries : StagingConfig :=
  mkConfig "/staging" 64 (60 * Second) 1 3 Second (30 * Second) true true "block" 80 95
    (Some (30 * Second)) (Some (250 * Millisecond)).

Lemma retried_upload_converges_witness :
  let s : @store Memory.memory_store := Memory.mkState ∅ ∅ [Some true; Some false] in
  let r := uploadWithRetryStream three_tries s "/f" ten default_attributes (fun _ => false) in
  r.2 = None /\ object r.1 "f" = Some (ten, default_attributes).
Proof.
  intros s r. assert (r.2 = None) as Hr by (vm_compute; reflexivity). split; [exact Hr|].
  destruct (retried_upload_converges three_tries s "/f" ten default_attributes (fun _ => false) r.1 r.2)
    as (Hd & _); [apply surjective_pairing|]. specialize (Hd Hr). exact Hd.
Defined.

(** While nothing overflows, the wait before attempt [n] is the initial
    wait doubled [n - 1] times and capped at the maximum, so it never shrinks
    from one attempt to the next. *)
Theorem backoff_doubles_up_to_cap cfg n :
  1 <= n <= 62 -> 0 < RetryBackoffInit cfg ->
  RetryBackoffInit cfg * 2 ^ n <= MaxInt64 ->
  backoff cfg n = Z.min (RetryBackoffMax cfg) (RetryBackoffInit cfg * 2 ^ (n - 1)) /\
  backoff cfg n <= backoff cfg (n + 1).
Proof.
  intros Hn Hi Hmax.
  assert (forall k, 1 <= k <= n + 1 -> backoff cfg k =
    Z.min (RetryBackoffMax cfg) (RetryBackoffInit cfg * 2 ^ (k - 1))) as Hb.
  { intros k Hk. unfold backoff.
    assert (0 < 2 ^ (k - 1) <= 2 ^ n) by (split; [lia|apply Z.pow_le_mono_r; lia]).
    assert (2 ^ n <= 2 ^ 62) by (apply Z.pow_le_mono_r; lia).
    rewrite (wrap64_small (2 ^ (k - 1))) by (unfold MinInt64, MaxInt64; lia).
    rewrite wrap64_small by (unfold MinInt64 in *; nia). zcases. }
  rewrite !Hb by lia. split; [done|].
  assert (2 ^ (n - 1) <= 2 ^ (n + 1 - 1)) by (apply Z.pow_le_mono_r; lia). nia.
Qed.

Lemma backoff_doubles_up_to_cap_witness :
  backoff three_tries 3 = 4 * Second /\ backoff three_tries 3 <= backoff three_tries 4.
Proof. apply (backoff_doubles_up_to_cap three_tries 3); vm_compute; intuition congruence. Defined.

(** With enough attempts the doubling overflows: the sixty-fifth wait of
    any configuration is zero or less, whatever maximum is set, so from there on
    the upload is retried without waiting. *)
Theorem backoff_overflows cfg :
  0 <= RetryBackoffMax cfg -> backoff cfg 65 <= 0.
Proof. intros Hm. unfold backoff. change (wrap64 (2 ^ (65 - 1))) with 0. rewrite Z.mul_0_r.
  change (wrap64 0) with 0. zcases. Qed.

Lemma backoff_overflows_witness : backoff three_tries 65 <= 0.
Proof. apply backoff_overflows. vm_compute. congruence. Defined.

End SyncUpload.
