(* ===== verification/SyncSafety.v ===== *)
(** * No accepted write is lost

    The life of one path [p] under any interleaving of its clients (open, write,
    truncate, the marking dirty that follows, close), the sync worker's steps
    ([SyncWorker]), accepted deletes, and everything the rest of the gateway does
    to other paths.  Any disk call may fail; so may any call to the store.

    A step is what the code does under one lock, or one call to the store;
    [MarkDirty] is one step.  The steps leave out what the code does not exclude
    and what loses writes, as [SyncFindings] and [SessionSafety] show: a handle
    releases only the session it opened ([stale_close_loses_write]), the path is
    not opened while a delete of it is pending, its object is deleted only while
    its path stays deleted, and a write is not empty.  They also leave out
    renames and conflicts of the path, which [RenameSafety] and [StagingConflict]
    take on their own, and writes that fail with part of their bytes written. *)
From S2P Require Import Prelude StagingTypes Disk DirtyIndex PathState Session SessionSafety.
From S2P Require Import StagingManager ObjectStore SyncWorker SyncUpload.

Module SyncSafety.
Import Disk PathState Session Staging Sync SyncUpload.
Import SessionSafety(staged, sized, sized_staged, write_ok, truncate_ok, inv, inv_frame, mkWorld,
  write_inv, truncate_inv, persist_inv, persist_data, open_inv, close_inv, keeps_inodes).

(** ** Changes that touch no data file and no session but its version *)

Definition same_session (w w' : WriteSession) : Prop := exists v c, w' = set_versions v c w.

Record quiet (m m' : Manager) : Prop := mkQuiet {
  q_config : config m' = config m;
  q_sessions : sessions m' = sessions m;
  q_dom : dom (heap m') = dom (heap m);
  q_heap : forall a w, heap m !! a = Some w -> exists w', heap m' !! a = Some w' /\ same_session w w';
  q_data : data (disk m') = data (disk m);
  q_inodes : inodes (disk m') = inodes (disk m)
}.

Lemma same_session_refl w : same_session w w.
Proof. exists (w_metadataVersion w), (w_committedMetadataVersion w). by destruct w. Qed.
Lemma same_session_changed w w' : same_session w w' -> same_session w (metadataChanged w').
Proof. intros (v & c & ->). by eexists _, _. Qed.
#[export] Hint Resolve same_session_refl : bluestone.

Lemma quiet_refl m : quiet m m.
Proof. split; eauto with bluestone. Qed.

Lemma quiet_disk m m' d' :
  quiet m m' -> data d' = data (disk m') -> inodes d' = inodes (disk m') -> quiet m (set_disk d' m').
Proof. intros [] Hd Hi. split; simpl; auto; congruence. Qed.

Lemma quiet_same m m' d' : quiet m m' -> same_files (disk m') d' -> quiet m (set_disk d' m').
Proof. intros Hq [o ->]. by apply quiet_disk. Qed.

Lemma quiet_index m m' i : quiet m m' -> quiet m (set_index i m').
Proof. intros []. by split. Qed.

Lemma quiet_tombstones m m' f : quiet m m' -> quiet m (set_tombstones f m').
Proof. intros []. by split. Qed.

Lemma write_sidecar_quiet m m' mp st d' st' err :
  quiet m m' -> writePathMetadataState (disk m') mp st = (d', st', err) -> quiet m (set_disk d' m').
Proof.
  intros Hq (_ & _ & d0 & [o ->] & Hc)%write_cases.
  apply quiet_disk; [done|..]; destruct Hc as [[_ ->]|[_ ->]]; done.
Qed.

Lemma quiet_metadataChanged m m' a : quiet m m' -> quiet m (update a metadataChanged m').
Proof.
  intros []. split; try done.
  - simpl. by rewrite dom_alter_L.
  - intros b w Hb. simpl. rewrite lookup_alter. destruct (q_heap0 _ _ Hb) as (w' & Hw' & Hs).
    case_decide; subst; [|by eauto]. rewrite Hw'. simpl. eauto using same_session_changed.
Qed.

Section Ops.
Context {PH : PathHash}.

Lemma recordDirty_quiet m path attrs now m' r :
  recordDirtyPathLocked m path attrs now = (m', r) ->
  quiet m m' /\ index m' = index m /\ tombstones m' = tombstones m.
Proof.
  unfold recordDirtyPathLocked.
  destruct (readPathMetadataState _ _) as [d1 r1] eqn:Er; apply read_same in Er.
  assert (quiet m (set_disk d1 m)) as Hq by (apply quiet_same; [apply quiet_refl|done]).
  destruct (match r1 with inl _ => _ | inr _ => _ end) as [st|e]; [|by intros [= <- <-]].
  match goal with |- context [writePathMetadataState ?d ?mp ?st] =>
    destruct (writePathMetadataState d mp st) as [[d2 st2] e2] eqn:Ew end.
  apply (write_sidecar_quiet m) in Ew; [|done]. by intros [= <- <-].
Qed.

Lemma removePathMetadata_disk m path m' e :
  removePathMetadata m path = (m', e) -> exists d', m' = set_disk d' m /\
    data d' = data (disk m) /\ inodes d' = inodes (disk m).
Proof.
  unfold removePathMetadata, remove_sidecar. destruct (os_try (disk m)) as [d1 [e1|]] eqn:E1;
    apply os_try_same in E1 as [o ->]; [intros [= <- <-]; eauto|].
  simpl. destruct (sidecars (disk m) !! _); intros [= <- <-]; eauto.
Qed.

Lemma dropDirtyEntry_disk m path :
  exists d', dropDirtyEntry m path = set_disk d' (set_index (DirtyIndex.MarkClean (index m) path) m) /\
    data d' = data (disk m) /\ inodes d' = inodes (disk m).
Proof.
  unfold dropDirtyEntry. destruct (removePathMetadata _ path) as [m' e] eqn:E.
  by apply removePathMetadata_disk in E.
Qed.

(** Removing a data file drops at most its name. *)
Lemma remove_data_shrinks d name d' err :
  remove_data d name = (d', err) ->
  inodes d' = inodes d /\ (forall n i, data d' !! n = Some i -> data d !! n = Some i).
Proof.
  unfold remove_data. destruct (os_try d) as [d1 [e|]] eqn:E; apply os_try_same in E as [o ->];
    [by intros [= <- <-]|]. simpl.
  destruct (data d !! name); intros [= <- <-]; [|done]. split; [done|]. intros n i. simpl.
  by intros [_ ?]%lookup_delete_Some.
Qed.

Lemma removeSessionLocked_effect m path a w m' r err :
  sessions m !! path = Some a -> deref m a = Some w -> w_StagingPath w = stagingFilePath m path ->
  removeSessionLocked m path true = (m', r, err) ->
  r = Some a /\ exists d' i', m' = set_disk d' (set_index i' (set_sessions (delete path) m)) /\
    inodes d' = inodes (disk m) /\
    (forall n i, data d' !! n = Some i -> data (disk m) !! n = Some i) /\
    (i' = index m \/ i' = DirtyIndex.MarkClean (index m) path).
Proof.
  intros Ha Hw Hsp. unfold removeSessionLocked. rewrite Ha, Hw. simpl. unfold stagingPathIs.
  rewrite bool_decide_eq_true_2 by done. simpl.
  destruct (remove_data (disk m) _) as [d1 e1] eqn:E1. apply remove_data_shrinks in E1 as [Hi1 Hd1].
  destruct (dropDirtyEntry_disk (set_disk d1 (set_sessions (delete path) m)) path) as (d2 & Hdrop & Hd2 & Hi2).
  simpl in *. assert (forall n i, data d2 !! n = Some i -> data (disk m) !! n = Some i) as Hd3.
  { intros n i. rewrite Hd2. apply Hd1. }
  destruct e1 as [e|]; [destruct (IsNotExist e)|]; rewrite ?Hdrop; intros [= <- <- <-]; (split; [done|]).
  - exists d2, (DirtyIndex.MarkClean (index m) path). split_and!; [done|congruence|done|by right].
  - exists d1, (index m). split_and!; [done|done|done|by left].
  - exists d2, (DirtyIndex.MarkClean (index m) path). split_and!; [done|congruence|done|by right].
Qed.

(** [MarkDirty] lists the path with a generation never used before, whether or
    not its sidecar could be written. *)
Lemma MarkDirty_effect m path size now m' err :
  DirtyIndex.conflicts (index m) !! path = None ->
  MarkDirty m path size now = (m', err) ->
  quiet m m' /\ tombstones m' = tombstones m /\
  exists o, index m' = DirtyIndex.exec (index m) o /\
    DirtyIndex.records_change (index m) o path = true /\
    DirtyIndex.IsDirty (index m') path = true /\
    DirtyIndex.conflicts (index m') = DirtyIndex.conflicts (index m) /\
    forall meta, DirtyIndex.dirty (index m') !! path = Some meta ->
      d_LocalDirtyGeneration meta = DirtyIndex.generation (index m) + 1.
Proof.
  intros Hc. unfold MarkDirty, DirtyIndex.IsConflicted. rewrite Hc.
  rewrite bool_decide_eq_false_2 by (by intros []).
  assert (forall i', DirtyIndex.MarkDirtyAgain (index m) path size now = (i', true) ->
    exists o, i' = DirtyIndex.exec (index m) o /\ DirtyIndex.records_change (index m) o path = true /\
    DirtyIndex.IsDirty i' path = true /\ DirtyIndex.conflicts i' = DirtyIndex.conflicts (index m) /\
    forall meta, DirtyIndex.dirty i' !! path = Some meta ->
      d_LocalDirtyGeneration meta = DirtyIndex.generation (index m) + 1) as Hagain.
  { intros i' Ha. exists (DirtyIndex.OMarkDirtyAgain path size now). simpl. rewrite Ha. simpl.
    rewrite bool_decide_eq_true_2 by done. unfold DirtyIndex.MarkDirtyAgain in Ha.
    destruct (DirtyIndex.dirty (index m) !! path) as [e|]; [|done].
    destruct (d_recorded e); simpl in Ha; [|done]. injection Ha as <-.
    split_and!; try done.
    - unfold DirtyIndex.IsDirty. simpl. rewrite lookup_insert_eq. by apply bool_decide_eq_true_2.
    - intros meta. simpl. rewrite lookup_insert_eq. by intros [= <-]. }
  destruct (DirtyIndex.MarkDirtyAgain (index m) path size now) as [i1 [|]] eqn:Ea.
  { intros [= <- <-]. split_and!; [by apply quiet_index, quiet_refl|done|by apply Hagain]. }
  unfold markPathDirty. rewrite Ea.
  assert (forall m1 st, quiet m m1 -> index m1 = index m -> tombstones m1 = tombstones m ->
    let m2 := set_index (DirtyIndex.MarkDirtyWithState (index m1) path size st now) m1 in
    quiet m m2 /\ tombstones m2 = tombstones m /\
    exists o, index m2 = DirtyIndex.exec (index m) o /\
    DirtyIndex.records_change (index m) o path = true /\
    DirtyIndex.IsDirty (index m2) path = true /\
    DirtyIndex.conflicts (index m2) = DirtyIndex.conflicts (index m) /\
    forall meta, DirtyIndex.dirty (index m2) !! path = Some meta ->
      d_LocalDirtyGeneration meta = DirtyIndex.generation (index m) + 1) as Hstate.
  { intros m1 st Hq Hi Ht m2. split_and!; [by apply quiet_index|done|].
    exists (DirtyIndex.OMarkDirtyWithState path size st now). unfold m2. simpl. rewrite Hi.
    rewrite bool_decide_eq_true_2 by done. unfold DirtyIndex.MarkDirtyWithState. rewrite Hc.
    split_and!; try done.
    - unfold DirtyIndex.IsDirty. simpl. rewrite lookup_insert_eq. by apply bool_decide_eq_true_2.
    - intros meta. simpl. rewrite lookup_insert_eq. intros [= <-]. by destruct st. }
  destruct (recordDirtyPathLocked m path _ now) as [m1 [st|e]] eqn:Er;
    apply recordDirty_quiet in Er as (Hq & Hi & Ht); intros [= <- <-]; [|by apply Hstate].
  destruct (sessionAt m path) as [a|]; [|by apply Hstate].
  apply Hstate; [|done|done]. by apply quiet_metadataChanged.
Qed.

Lemma removeTombstone_quiet m path m' b :
  removeTombstone m path = (m', b) -> quiet m m' /\ index m' = index m.
Proof.
  unfold removeTombstone. destruct (tombstones m !! path); [|intros [= <- <-]; split; [apply quiet_refl|done]].
  destruct (os_try (disk m)) as [d1 [e|]] eqn:E; apply os_try_same in E as [o ->]; intros [= <- <-];
    (split; [|done]); [|apply quiet_tombstones]; by apply quiet_disk; [apply quiet_refl|..].
Qed.

Lemma addTombstone_quiet m path now m' r :
  addTombstone m path now = (m', r) -> quiet m m' /\ index m' = index m.
Proof.
  unfold addTombstone. destruct (os_tries 3 (disk m)) as [d1 [e|]] eqn:E;
    apply os_tries_same in E as [o ->]; intros [= <- <-]; (split; [|done]);
    [|apply quiet_tombstones]; by apply quiet_disk; [apply quiet_refl|..].
Qed.

Lemma Ensure_data d path sp d' err :
  EnsurePathMetadata d path sp = (d', err) -> data d' = data d /\ inodes d' = inodes d.
Proof.
  unfold EnsurePathMetadata. destruct (readPathMetadataState _ _) as [d1 r1] eqn:Er.
  apply read_same in Er as [o ->].
  assert (forall st, let '(d2, _, e2) := writePathMetadataState (set_outcomes o d) (pathMetadataPath sp) st in
    data d2 = data d /\ inodes d2 = inodes d) as Hw.
  { intros st. destruct (writePathMetadataState _ _ _) as [[d2 st2] e2] eqn:Ew.
    by apply SessionSafety.write_sidecar_data in Ew. }
  destruct r1 as [st|e]; [case_decide; [by intros [= <- <-]|]|destruct (IsNotExist e); [|by intros [= <- <-]]];
    match goal with |- context [writePathMetadataState ?d ?mp ?st] =>
      specialize (Hw st); destruct (writePathMetadataState d mp st) as [[d2 st2] e2] end;
    by intros [= <- <-].
Qed.

Lemma open_or_create_ok d name now d' file :
  (forall i, data d !! name = Some i -> i ∈ dom (inodes d)) ->
  open_or_create d name now = (d', inl file) ->
  data d' !! name = Some file /\ file ∈ dom (inodes d') /\ keeps_inodes d d' /\
  (forall i, data d !! name = Some i -> file = i).
Proof.
  intros Hname. unfold open_or_create.
  destruct (os_try d) as [d1 [e1|]] eqn:E1; [done|]. apply os_try_same in E1 as [o1 ->]. simpl.
  destruct (data d !! name) as [i|] eqn:Ei; intros [= <- <-]; simpl.
  - split_and!; auto; [done|]. intros j. congruence.
  - split_and!; [apply lookup_insert_eq|set_solver| |done].
    intros j Hj. simpl. rewrite lookup_insert_ne; [done|]. intros <-. by apply is_fresh in Hj.
Qed.

(** A new session is open on the file its staging path names, and nothing else
    on the disk has moved. *)
Lemma NewWriteSession_ok d path sp now d' w :
  (forall i, data d !! sp = Some i -> i ∈ dom (inodes d)) ->
  NewWriteSession d path sp now = (d', inl w) ->
  w_Path w = path /\ w_StagingPath w = sp /\ w_Dirty w = false /\ w_RefCount w = 1 /\
  sized d' w /\ inv (mkWorld d' w []) /\ keeps_inodes d d' /\
  (forall i, data d' !! sp = Some i -> i ∈ dom (inodes d')) /\
  (forall i, data d !! sp = Some i -> w_File w = Some i).
Proof.
  intros Hname. unfold NewWriteSession.
  destruct (open_or_create d sp now) as [d2 [file|e2]] eqn:E2; [|done].
  apply open_or_create_ok in E2 as (Hfile & Hdom & Hk & Hsame); [|done].
  destruct (os_try d2) as [d3 [e3|]] eqn:E3; [done|]. apply os_try_same in E3 as [o3 ->].
  destruct (EnsurePathMetadata _ path sp) as [d4 e4] eqn:E4. apply Ensure_data in E4 as [Hd4 Hi4].
  intros [= <- <-]. simpl in *.
  assert (bytes_at d4 file = bytes_at d2 file) as Hb by (unfold bytes_at; by rewrite Hi4).
  split_and!; try done.
  - exists file. simpl. rewrite Hi4, Hb. done.
  - split; simpl; try (by intros ? ? ?%not_elem_of_nil); [|done].
    intros f [= <-]. by rewrite Hd4, Hi4.
  - intros i Hi. rewrite Hi4. by apply Hk.
  - intros i. rewrite Hd4, Hi4, Hfile. by intros [= <-].
  - intros i Hi. by rewrite (Hsame i Hi).
Qed.

(** A session that could not be opened may have left its file behind. *)
Lemma NewWriteSession_failed d path sp now d' e :
  (forall i, data d !! sp = Some i -> i ∈ dom (inodes d)) ->
  NewWriteSession d path sp now = (d', inr e) ->
  forall i, data d' !! sp = Some i -> i ∈ dom (inodes d').
Proof.
  intros Hname. unfold NewWriteSession.
  destruct (open_or_create d sp now) as [d2 [file|e2]] eqn:E2.
  - apply open_or_create_ok in E2 as (Hfile & Hdom & _); [|done].
    destruct (os_try d2) as [d3 [e3|]] eqn:E3; apply os_try_same in E3 as [o3 ->].
    + intros [= <- <-] i. simpl. rewrite Hfile. by intros [= <-].
    + by destruct (EnsurePathMetadata _ path sp).
  - intros [= <- <-]. unfold open_or_create in E2. destruct (os_try d) as [d1 [e1|]] eqn:E1.
    + injection E2 as <- _. by apply os_try_same in E1 as [o ->].
    + by destruct (data d1 !! sp).
Qed.

End Ops.

(** ** The system *)

Section System.
Context {PH : PathHash} {OS : ObjectStore} {SL : StoreLaws}.
Variable p : string.

(** [handles]: the open handles of [p], each with the session it was given and
    whether it has written bytes it has not marked dirty yet.  [sync]: the sync
    of [p] under way, if any (the object lock admits one); [taken]: the bytes the
    staging file held when that sync opened its snapshot. *)
Record G := mkG {
  mgr : Manager;
  bucket : store;
  handles : gmap positive (positive * bool);
  sync : option phase;
  taken : bytes
}.

Abbreviation SP m := (stagingFilePath m p).
Abbreviation key := (objectKeyFromPath p).

Definition snapshot_of (ph : phase) : option (positive * UploadSnapshot) :=
  match ph with
  | PSnapshot a _ s | PUploaded a _ s | PClean a s => Some (a, s)
  | _ => None
  end.

Definition address_of (ph : phase) : positive :=
  match ph with
  | PSession a | PGeneration a _ | PSnapshot a _ _ | PUploaded a _ _ | PClean a _ => a
  end.

(** What other paths' activity leaves alone. *)
Record leaves_alone (g g' : G) : Prop := mkAlone {
  al_handles : handles g' = handles g;
  al_sync : sync g' = sync g;
  al_taken : taken g' = taken g;
  al_config : config (mgr g') = config (mgr g);
  al_session : sessions (mgr g') !! p = sessions (mgr g) !! p;
  al_dom : dom (heap (mgr g)) ⊆ dom (heap (mgr g'));
  al_heap : forall a, sessions (mgr g) !! p = Some a \/ (exists ph, sync g = Some ph /\ address_of ph = a) ->
    heap (mgr g') !! a = heap (mgr g) !! a;
  al_dirty : DirtyIndex.dirty (index (mgr g')) !! p = DirtyIndex.dirty (index (mgr g)) !! p;
  al_conflicts : DirtyIndex.conflicts (index (mgr g')) !! p = DirtyIndex.conflicts (index (mgr g)) !! p;
  al_generation : DirtyIndex.generation (index (mgr g)) <= DirtyIndex.generation (index (mgr g'));
  al_wf : DirtyIndex.wf (index (mgr g'));
  al_data : data (disk (mgr g')) !! SP (mgr g) = data (disk (mgr g)) !! SP (mgr g);
  al_inodes : dom (inodes (disk (mgr g))) ⊆ dom (inodes (disk (mgr g')));
  al_file : forall i, data (disk (mgr g)) !! SP (mgr g) = Some i \/
    (exists ph a s, sync g = Some ph /\ snapshot_of ph = Some (a, s) /\ s_File s = i) ->
    inodes (disk (mgr g')) !! i = inodes (disk (mgr g)) !! i;
  al_object : object (bucket g') key = object (bucket g) key
}.

(** A handle's write or truncation: the session is still the listed one, and a
    failed call left the staged bytes as they were. *)
Inductive change := CWrite (buf : bytes) (off : Z) | CTruncate (size : Z).

Definition apply_change (d : Disk) (w : WriteSession) (c : change) (now : Time)
    : Disk * WriteSession * option error :=
  match c with
  | CWrite buf off => let '(d, w, (_, err)) := write_persisting d w buf off now in (d, w, err)
  | CTruncate size => truncate d w size now
  end.

Definition change_ok (c : change) : Prop :=
  match c with CWrite buf _ => buf <> [] | CTruncate size => 0 <= size end.

(** The steps, with those provisos as premises: [HasPendingDelete m p = false] of an
    open, [change_ok] and the last premise of a change, the session listed (or none)
    of a close, the pending delete of [s_delete_object]. *)
Inductive step : G -> G -> Prop :=
  | s_open g h now m a :
      handles g !! h = None ->
      GetOrCreateSession (mgr g) p now = (m, inl a) -> HasPendingDelete m p = false ->
      step g (mkG m (bucket g) (<[h := (a, false)]> (handles g)) (sync g) (taken g))
  | s_open_failed g now m e :
      GetOrCreateSession (mgr g) p now = (m, inr e) ->
      step g (mkG m (bucket g) (handles g) (sync g) (taken g))
  | s_change g h a pending w c now d' w' err :
      handles g !! h = Some (a, pending) -> sessions (mgr g) !! p = Some a ->
      heap (mgr g) !! a = Some w -> change_ok c ->
      apply_change (disk (mgr g)) w c now = (d', w', err) ->
      (err <> None -> staged d' w' = staged (disk (mgr g)) w /\ sized d' w') ->
      step g (mkG (put a w' (set_disk d' (mgr g))) (bucket g)
               (<[h := (a, match err with None => true | Some _ => pending end)]> (handles g))
               (sync g) (taken g))
  | s_mark g h a size now m err :
      handles g !! h = Some (a, true) ->
      MarkDirty (mgr g) p size now = (m, err) ->
      step g (mkG m (bucket g) (<[h := (a, false)]> (handles g)) (sync g) (taken g))
  | s_close g h a :
      handles g !! h = Some (a, false) ->
      sessions (mgr g) !! p = Some a \/ sessions (mgr g) !! p = None ->
      step g (mkG (ReleaseSession (mgr g) p) (bucket g) (delete h (handles g)) (sync g) (taken g))
  | s_sync_start g now m r :
      sync g = None -> DirtyIndex.IsDirty (index (mgr g)) p = true ->
      sync_session (mgr g) p now = (m, r) ->
      step g (mkG m (bucket g) (handles g)
               (match r with inl (Some a) => Some (PSession a) | _ => None end) (taken g))
  | s_sync_generation g a :
      sync g = Some (PSession a) ->
      step g (mkG (mgr g) (bucket g) (handles g)
               (Some (PGeneration a (sync_generation (mgr g) p))) (taken g))
  | s_sync_snapshot g a gen m r :
      sync g = Some (PGeneration a gen) -> sync_snapshot (mgr g) a = (m, r) ->
      step g (mkG m (bucket g) (handles g)
               (match r with inl s => Some (PSnapshot a gen s) | inr _ => None end)
               (match r with inl s => bytes_at (disk m) (s_File s) | inr _ => taken g end))
  | s_sync_upload g a gen s stopped current m st err :
      sync g = Some (PSnapshot a gen s) ->
      sync_upload (mgr g) (bucket g) p a s stopped current = (m, st, err) ->
      step g (mkG (match err with None => m | Some _ => sync_close m a s end) st (handles g)
               (match err with None => Some (PUploaded a gen s) | Some _ => None end) (taken g))
  | s_sync_mark g a gen s m clean :
      sync g = Some (PUploaded a gen s) ->
      markCleanIfUnchanged (mgr g) p gen = (m, clean) ->
      step g (mkG (if clean then m else sync_close m a s) (bucket g) (handles g)
               (if clean then Some (PClean a s) else None) (taken g))
  | s_sync_done g a s m err :
      sync g = Some (PClean a s) -> sync_cleanup (mgr g) p a = (m, err) ->
      step g (mkG (sync_close m a s) (bucket g) (handles g) None (taken g))
  | s_claim g o :
      (exists q, o = DirtyIndex.OLockFile q \/ o = DirtyIndex.OUnlockFile q \/
                 exists err, o = DirtyIndex.OIncrementSyncAttempts q err) ->
      step g (mkG (set_index (DirtyIndex.exec (index (mgr g)) o) (mgr g)) (bucket g) (handles g)
               (sync g) (taken g))
  | s_tombstone g now m r :
      addTombstone (mgr g) p now = (m, r) ->
      step g (mkG m (bucket g) (handles g) (sync g) (taken g))
  | s_discard g m b err :
      discardDeletedStaging (mgr g) p = (m, b, err) ->
      step g (mkG m (bucket g) (handles g) (sync g) (taken g))
  | s_delete_object g st err :
      HasPendingDelete (mgr g) p = true -> sessions (mgr g) !! p = None ->
      DeleteObject (bucket g) key = (st, err) ->
      step g (mkG (mgr g) st (handles g) (sync g) (taken g))
  | s_resolve g :
      step g (mkG (ResolvePendingDelete (mgr g) p) (bucket g) (handles g) (sync g) (taken g))
  | s_others g g' : leaves_alone g g' -> step g g'.

(** ** The invariant *)

Definition generation_of (m : Manager) : option Z :=
  d_LocalDirtyGeneration <$> DirtyIndex.dirty (index m) !! p.

Definition snapshots (g : G) (a : positive) : list (UploadSnapshot * bytes) :=
  match sync g ≫= snapshot_of with
  | Some (a', s) => if decide (a' = a) then [(s, taken g)] else []
  | None => []
  end.

Definition refs_in (hs : gmap positive (positive * bool)) (a : positive) : Z :=
  map_sum (fun (_ : positive) (x : positive * bool) => if decide (x.1 = a) then 1 else 0) hs.
Definition references (g : G) (a : positive) : Z := refs_in (handles g) a.

Definition unmarked (g : G) (a : positive) : Prop := exists h, handles g !! h = Some (a, true).

(** Where the bytes of a session that was written are accounted for. *)
Definition accounted (g : G) (a : positive) (w : WriteSession) : Prop :=
  w_Dirty w = false \/
  is_Some (DirtyIndex.dirty (index (mgr g)) !! p) \/
  unmarked g a \/
  exists attrs, object (bucket g) key = Some (staged (disk (mgr g)) w, attrs).

(** Accounted for without relying on the object store. *)
Definition uncleaned (g : G) : Prop :=
  forall a w, sessions (mgr g) !! p = Some a -> heap (mgr g) !! a = Some w ->
    w_Dirty w = false \/ is_Some (DirtyIndex.dirty (index (mgr g)) !! p) \/ unmarked g a.

Record listed (g : G) (a : positive) (w : WriteSession) : Prop := mkListed {
  l_path : w_Path w = p;
  l_staging : w_StagingPath w = SP (mgr g);
  l_sized : sized (disk (mgr g)) w;
  l_inv : inv (mkWorld (disk (mgr g)) w (snapshots g a));
  l_refs : references g a <= w_RefCount w;
  l_accounted : accounted g a w
}.

(** While the entry carries the generation the sync read, the session is still
    the one it found and, but for writes not marked yet, its bytes are the
    snapshot's. *)
Definition still_current (g : G) (a : positive) (gen : Z) : Prop :=
  generation_of (mgr g) = Some gen ->
  sessions (mgr g) !! p = Some a /\
  forall w, heap (mgr g) !! a = Some w -> staged (disk (mgr g)) w = taken g \/ unmarked g a.

Definition phase_ok (g : G) (ph : phase) : Prop :=
  (exists w, heap (mgr g) !! address_of ph = Some w /\ w_Path w = p /\
     (sessions (mgr g) !! p = Some (address_of ph) \/ w_File w = None)) /\
  (match ph with PClean _ _ => True | _ => uncleaned g end) /\
  match ph with
  | PSession a => True
  | PGeneration a gen => gen <= DirtyIndex.generation (index (mgr g))
  | PSnapshot a gen s =>
      gen <= DirtyIndex.generation (index (mgr g)) /\ s_Size s = len (taken g) /\ still_current g a gen
  | PUploaded a gen s =>
      gen <= DirtyIndex.generation (index (mgr g)) /\ still_current g a gen /\
      (generation_of (mgr g) = Some gen ->
       exists attrs, object (bucket g) key = Some (taken g, attrs))
  | PClean a s => True
  end.

Record ginv (g : G) : Prop := mkGinv {
  gi_wf : DirtyIndex.wf (index (mgr g));
  gi_unconflicted : DirtyIndex.conflicts (index (mgr g)) !! p = None;
  gi_handles : forall h a b, handles g !! h = Some (a, b) -> a ∈ dom (heap (mgr g));
  gi_session : forall a, sessions (mgr g) !! p = Some a ->
    exists w, heap (mgr g) !! a = Some w /\ listed g a w;
  gi_name : forall i, data (disk (mgr g)) !! SP (mgr g) = Some i -> i ∈ dom (inodes (disk (mgr g)));
  gi_phase : forall ph, sync g = Some ph -> phase_ok g ph
}.

(** ** Steps that leave the session and its bytes alone *)

Lemma staged_quiet m m' w w' :
  quiet m m' -> same_session w w' -> staged (disk m') w' = staged (disk m) w.
Proof. intros [_ _ _ _ _ Hi] (v & c & ->). unfold staged, bytes_at. simpl. by rewrite Hi. Qed.

Lemma sized_quiet m m' w w' :
  quiet m m' -> same_session w w' -> sized (disk m) w -> sized (disk m') w'.
Proof.
  intros [_ _ _ _ _ Hi] (v & c & ->) (f & Hf & Hd & Hs). exists f. unfold bytes_at in *. simpl.
  by rewrite Hi.
Qed.

Lemma inv_quiet m m' w w' u :
  quiet m m' -> same_session w w' -> inv (mkWorld (disk m) w u) -> inv (mkWorld (disk m') w' u).
Proof.
  intros [_ _ _ _ Hd Hi] (v & c & ->) Hinv. eapply inv_frame; try done.
  - by rewrite Hd.
  - by rewrite Hi.
  - intros. unfold bytes_at. by rewrite Hi.
Qed.

(** What happened to the dirty entry and the unmarked writes. *)
Definition entry_kept (g g' : G) : Prop :=
  generation_of (mgr g') = generation_of (mgr g) /\ (forall a, unmarked g a -> unmarked g' a).
Definition entry_renewed (g g' : G) : Prop :=
  exists n, generation_of (mgr g') = Some n /\ DirtyIndex.generation (index (mgr g)) < n.
Definition entry_gone (g g' : G) : Prop :=
  generation_of (mgr g') = None /\ sessions (mgr g) !! p = None.

Lemma generation_is_Some m :
  is_Some (generation_of m) <-> is_Some (DirtyIndex.dirty (index m) !! p).
Proof. unfold generation_of. by rewrite fmap_is_Some. Qed.

Lemma ginv_transfer g g' :
  ginv g -> quiet (mgr g) (mgr g') -> DirtyIndex.wf (index (mgr g')) ->
  DirtyIndex.conflicts (index (mgr g')) !! p = None ->
  DirtyIndex.generation (index (mgr g)) <= DirtyIndex.generation (index (mgr g')) ->
  sync g' = sync g -> taken g' = taken g ->
  object (bucket g') key = object (bucket g) key ->
  (forall h a b, handles g' !! h = Some (a, b) -> exists b0, handles g !! h = Some (a, b0)) ->
  (forall a, references g' a <= references g a) ->
  entry_kept g g' \/ entry_renewed g g' \/ entry_gone g g' ->
  ginv g'.
Proof.
  intros Hg Hq Hwf Hnc Hgen Hsync Htaken Hobj Hh Hrefs Hentry.
  pose proof Hq as [Qc Qs Qd Qh Qdata Qi].
  assert (SP (mgr g') = SP (mgr g)) as HSP by (unfold stagingFilePath; by rewrite Qc).
  split; try done.
  - intros h a b Hha. destruct (Hh _ _ _ Hha) as [b0 Hb0]. rewrite Qd. by eapply gi_handles.
  - intros a Ha. rewrite Qs in Ha. destruct (gi_session _ Hg a Ha) as (w & Hw & []).
    destruct (Qh _ _ Hw) as (w' & Hw' & Hs). exists w'. split; [done|].
    pose proof Hs as (v & c & ->). split; try done.
    + by rewrite HSP.
    + by eapply sized_quiet.
    + unfold snapshots in *. rewrite Hsync, Htaken. by eapply inv_quiet.
    + simpl. etrans; [apply Hrefs|done].
    + destruct Hentry as [[Hk Hu]|[(n & Hn & _)|[_ Hno]]].
      * destruct l_accounted0 as [?|[Hd|[Hun|[attrs Ho]]]]; [by left|..].
        -- right; left. apply generation_is_Some. rewrite Hk. by apply generation_is_Some.
        -- right; right; left. auto.
        -- right; right; right. exists attrs. by rewrite Hobj, (staged_quiet _ _ _ _ Hq Hs).
      * right; left. apply generation_is_Some. by rewrite Hn.
      * congruence.
  - intros i. rewrite Qdata, HSP, Qi. apply (gi_name _ Hg).
  - intros ph Hph. rewrite Hsync in Hph.
    destruct (gi_phase _ Hg ph Hph) as [(w & Hw & Hp & Hl) [Huncl Hrest]].
    split.
    { destruct (Qh _ _ Hw) as (w' & Hw' & (v & c & ->)). eexists. split; [done|]. by rewrite Qs. }
    assert (uncleaned g -> uncleaned g') as Hun.
    { intros Hu a w' Ha Hw'. rewrite Qs in Ha. destruct (gi_session _ Hg a Ha) as (w0 & Hw0 & _).
      destruct (Qh _ _ Hw0) as (w1 & Hw1 & (v & c & ->)). assert (w' = set_versions v c w0) as -> by congruence.
      destruct Hentry as [[Hk Hum]|[(n & Hn & _)|[_ Hno]]]; [|right; left; apply generation_is_Some; by rewrite Hn|congruence].
      destruct (Hu _ _ Ha Hw0) as [?|[?|?]]; [by left|right; left|by right; right; auto].
      apply generation_is_Some. rewrite Hk. by apply generation_is_Some. }
    split; [destruct ph; auto|].
    assert (forall a gen, gen <= DirtyIndex.generation (index (mgr g)) -> still_current g a gen ->
      still_current g' a gen) as Hcur.
    { intros a gen Hle Hc Hg'. destruct Hentry as [[Hk Hu]|[(n & Hn & Hlt)|[Hno _]]].
      - rewrite Hk in Hg'. destruct (Hc Hg') as [Ha Hst]. rewrite Qs. split; [done|].
        intros w' Hw'. destruct (gi_session _ Hg a Ha) as (w0 & Hw0 & _).
        destruct (Qh _ _ Hw0) as (w1 & Hw1 & Hs1). simplify_eq.
        rewrite Htaken, (staged_quiet _ _ _ _ Hq Hs1). destruct (Hst _ Hw0); auto.
      - rewrite Hn in Hg'. simplify_eq. lia.
      - congruence. }
    destruct ph as [a|a gen|a gen s|a gen s|a s]; try done; simpl in *.
    + lia.
    + destruct Hrest as (? & ? & ?). rewrite Htaken. split_and!; [lia|done|by apply Hcur].
    + destruct Hrest as (? & ? & Ho). split_and!; [lia|by apply Hcur|].
      intros Hg'. rewrite Hobj, Htaken. destruct Hentry as [[Hk Hu]|[(n & Hn & Hlt)|[Hno _]]].
      * rewrite Hk in Hg'. auto.
      * rewrite Hn in Hg'. simplify_eq. lia.
      * congruence.
Qed.

Lemma refs_in_update (hs : gmap positive (positive * bool)) (h a : positive) (b0 b1 : bool) a' :
  hs !! h = Some (a, b0) -> refs_in (<[h := (a, b1)]> hs) a' = refs_in hs a'.
Proof. intros Hh. unfold refs_in. rewrite map_sum_insert, Hh. simpl. lia. Qed.

Lemma refs_in_nonneg hs a : 0 <= refs_in hs a.
Proof. apply map_sum_nonneg. intros k x _. cases_lia. Qed.

Lemma refs_in_zero (hs : gmap positive (positive * bool)) (a : positive) :
  (forall h b, hs !! h <> Some (a, b)) -> refs_in hs a = 0.
Proof.
  intros Hno. apply map_sum_zero. intros h [x b] Hh. simpl. case_decide; [|done]. subst.
  by apply Hno in Hh.
Qed.

Lemma step_quiet g o :
  ginv g ->
  (exists q, o = DirtyIndex.OLockFile q \/ o = DirtyIndex.OUnlockFile q \/
             exists err, o = DirtyIndex.OIncrementSyncAttempts q err) ->
  ginv (mkG (set_index (DirtyIndex.exec (index (mgr g)) o) (mgr g)) (bucket g) (handles g)
         (sync g) (taken g)).
Proof.
  intros Hg Ho. apply (ginv_transfer g); simpl; try done.
  - apply quiet_index, quiet_refl.
  - apply DirtyIndex.exec_wf, Hg.
  - pose proof (gi_unconflicted _ Hg). destruct Ho as [q [->|[->|[e ->]]]]; simpl; try done.
    unfold DirtyIndex.LockFile. by case_decide.
  - apply (DirtyIndex.ev_counter _ _ (DirtyIndex.exec_evolves _ o (gi_wf _ Hg))).
  - eauto.
  - left. split; [|done]. unfold generation_of. simpl. destruct Ho as [q [->|[->|[e ->]]]]; simpl; try done.
    + unfold DirtyIndex.LockFile. by case_decide.
    + rewrite lookup_alter. case_decide; [|done]. subst.
      by destruct (DirtyIndex.dirty (index (mgr g)) !! p).
Qed.

Lemma step_mark g h a size now m err :
  ginv g -> handles g !! h = Some (a, true) -> MarkDirty (mgr g) p size now = (m, err) ->
  ginv (mkG m (bucket g) (<[h := (a, false)]> (handles g)) (sync g) (taken g)).
Proof.
  intros Hg Hh Hm. apply MarkDirty_effect in Hm as (Hq & _ & o & Hi & _ & Hd & Hc & Hgen);
    [|apply Hg]. apply (ginv_transfer g); simpl; try done.
  - rewrite Hi. apply DirtyIndex.exec_wf, Hg.
  - rewrite Hc. apply Hg.
  - rewrite Hi. apply (DirtyIndex.ev_counter _ _ (DirtyIndex.exec_evolves _ o (gi_wf _ Hg))).
  - intros h' a' b. rewrite lookup_insert. case_decide; [|by eauto]. intros [= <- <-]. subst. eauto.
  - intros a'. unfold references. simpl. by rewrite (refs_in_update _ _ _ _ _ _ Hh).
  - right; left. unfold DirtyIndex.IsDirty in Hd. apply bool_decide_eq_true in Hd as [meta Hmeta].
    exists (DirtyIndex.generation (index (mgr g)) + 1). split; [|lia].
    unfold generation_of. simpl. rewrite Hmeta. simpl. by rewrite (Hgen _ Hmeta).
Qed.

Lemma step_tombstone g m :
  ginv g -> quiet (mgr g) m -> index m = index (mgr g) ->
  ginv (mkG m (bucket g) (handles g) (sync g) (taken g)).
Proof.
  intros Hg Hq Hi. apply (ginv_transfer g); simpl; rewrite ?Hi; try done.
  - apply Hg.
  - apply Hg.
  - eauto.
  - left. split; [|done]. unfold generation_of. simpl. by rewrite Hi.
Qed.

(** ** Opening and closing *)

(** Listing a new session of [p], which nobody refers to yet. *)
Lemma ginv_list g m d' a w hs :
  ginv g -> quiet (mgr g) m -> index m = index (mgr g) -> sessions m !! p = None ->
  a ∉ dom (heap m) ->
  w_Path w = p -> w_StagingPath w = SP m -> sized d' w -> inv (mkWorld d' w []) ->
  keeps_inodes (disk m) d' -> (forall i, data d' !! SP m = Some i -> i ∈ dom (inodes d')) ->
  (forall h x b, hs !! h = Some (x, b) -> x = a \/ exists b0, handles g !! h = Some (x, b0)) ->
  (references (mkG m (bucket g) hs (sync g) (taken g)) a <= w_RefCount w) ->
  w_Dirty w = false \/ sync g = None /\ is_Some (DirtyIndex.dirty (index m) !! p) ->
  ginv (mkG (set_sessions <[p := a]> (put a w (set_disk d' m))) (bucket g) hs (sync g) (taken g)).
Proof.
  intros Hg Hq Hi Hnone Hfresh Hp Hsp Hsz Hinv Hk Hname Hhs Hrefs Hacc.
  pose proof Hq as [Qc Qs Qd Qh Qdata Qi]. split; simpl.
  - rewrite Hi. apply Hg.
  - rewrite Hi. apply Hg.
  - intros h x b Hx. destruct (Hhs _ _ _ Hx) as [->|[b0 Hb0]]; [set_solver|].
    apply (gi_handles _ Hg) in Hb0. rewrite dom_insert_L, Qd. set_solver.
  - intros a'. rewrite lookup_insert_eq. intros [= <-]. exists w. rewrite lookup_insert_eq.
    split; [done|]. split; try done;
      [|destruct Hacc as [?|[_ ?]]; [by left|right; by left]].
    unfold snapshots. simpl.
    destruct (sync g) as [ph|] eqn:Es; simpl; [|done].
    destruct (snapshot_of ph) as [[a0 s]|] eqn:Eph; simpl; [|done].
    rewrite decide_False; [done|]. intros ->. apply Hfresh. rewrite Qd.
    destruct (gi_phase _ Hg ph Es) as [(w0 & Hw0 & _) _].
    assert (address_of ph = a) as <- by (destruct ph; simpl in *; by simplify_eq).
    by apply elem_of_dom.
  - done.
  - intros ph Hph. destruct (gi_phase _ Hg ph Hph) as [(w0 & Hw0 & Hp0 & Hl) [_ Hrest]].
    assert (address_of ph <> a) as Hne.
    { intros <-. apply Hfresh. rewrite Qd. by apply elem_of_dom. }
    destruct (Qh _ _ Hw0) as (w1 & Hw1 & (v & c & ->)).
    assert (forall x gen, still_current g x gen -> forall y : Prop, generation_of m = Some gen -> y) as Hno.
    { intros x gen Hc y Hgen. unfold generation_of in *. rewrite Hi in Hgen. destruct (Hc Hgen) as [Hx _].
      rewrite <-Qs in Hx. congruence. }
    split.
    { exists (set_versions v c w0). simpl. rewrite lookup_insert_ne by done. split; [done|].
      split; [done|right].
      destruct Hl as [Hl|Hl]; [rewrite <-Qs in Hl; congruence|done]. }
    split.
    { assert (uncleaned (mkG (set_sessions <[p := a]> (put a w (set_disk d' m))) (bucket g) hs (sync g)
        (taken g))); [|by destruct ph].
      intros a' w'. simpl. rewrite lookup_insert_eq. intros [= <-]. rewrite lookup_insert_eq.
      intros [= <-]. destruct Hacc as [?|[? _]]; [by left|congruence]. }
    destruct ph as [x|x gen|x gen s|x gen s|x s]; try done; simpl in *.
    + by rewrite Hi.
    + rewrite Hi. destruct Hrest as (? & ? & Hc). split_and!; [done|done|]. intros Hgen. by eapply Hno.
    + rewrite Hi. destruct Hrest as (? & Hc & _). split_and!; [done|intros Hgen..]; by eapply Hno.
Qed.

Lemma update_put a f (m : Manager) w : heap m !! a = Some w -> update a f m = put a (f w) m.
Proof.
  intros Hw. unfold update, put, set_heap. f_equal. apply map_eq. intros b.
  rewrite lookup_alter, lookup_insert. case_decide; subst; [by rewrite Hw|done].
Qed.

(** A session changed in nothing the invariant looks at but its references. *)
Definition benign (w w' : WriteSession) : Prop :=
  w_Path w' = w_Path w /\ w_StagingPath w' = w_StagingPath w /\ w_File w' = w_File w /\
  w_Size w' = w_Size w /\ w_Dirty w' = w_Dirty w /\ w_uploadReaders w' = w_uploadReaders w /\
  w_fileGeneration w' = w_fileGeneration w.

Lemma benign_staged d w w' : benign w w' -> staged d w' = staged d w.
Proof. intros (_ & _ & Hf & _). unfold staged. by rewrite Hf. Qed.

Lemma ginv_benign g a w w' hs :
  ginv g -> heap (mgr g) !! a = Some w -> benign w w' ->
  (sessions (mgr g) !! p = Some a -> refs_in hs a <= w_RefCount w') ->
  (forall x, sessions (mgr g) !! p = Some x -> x <> a -> refs_in hs x <= refs_in (handles g) x) ->
  (forall h x b, hs !! h = Some (x, b) -> x ∈ dom (heap (mgr g))) ->
  (forall x, unmarked g x -> exists h, hs !! h = Some (x, true)) ->
  ginv (mkG (put a w' (mgr g)) (bucket g) hs (sync g) (taken g)).
Proof.
  intros [Gwf Gnc Gh Gs Gn Gp] Hw Hben Hr Hr' Hhs Hun. pose proof Hben as (B1 & B2 & B3 & B4 & B5 & B6 & B7).
  assert (forall x w0, heap (mgr g) !! x = Some w0 -> exists w1,
    <[a := w']> (heap (mgr g)) !! x = Some w1 /\ benign w0 w1) as Hheap.
  { intros x w0 Hx. rewrite lookup_insert. case_decide; subst; [|by exists w0].
    exists w'. rewrite Hw in Hx. by simplify_eq. }
  set (g' := mkG _ _ _ _ _). split; simpl; try done.
  - intros h x b Hx. apply Hhs in Hx. set_solver.
  - intros x Hx. destruct (Gs x Hx) as (w0 & Hw0 & []). destruct (Hheap _ _ Hw0) as (w1 & Hw1 & Hb1).
    exists w1. split; [done|]. pose proof Hb1 as (C1 & C2 & C3 & C4 & C5 & C6 & C7). split; simpl.
    + congruence.
    + by rewrite C2.
    + destruct l_sized0 as (f & Hf & Hd & Hs). exists f. by rewrite C3, C4.
    + eapply inv_frame; [exact l_inv0|done..].
    + unfold references, g'. cbn [handles]. destruct (decide (x = a)) as [->|Hne].
      * rewrite lookup_insert_eq in Hw1. simplify_eq. auto.
      * rewrite lookup_insert_ne in Hw1 by done. etrans; [by apply Hr'|]. simplify_eq. done.
    + unfold accounted. simpl. rewrite C5, (benign_staged _ _ _ Hb1).
      destruct l_accounted0 as [?|[?|[?|?]]]; auto. right; right; left. by apply Hun.
  - intros ph Hph. destruct (Gp ph Hph) as [(w0 & Hw0 & Hp0 & Hl) [Huncl Hrest]]. split.
    { destruct (Hheap _ _ Hw0) as (w1 & Hw1 & (C1 & _ & C3 & _)). exists w1.
      rewrite C1, C3. done. }
    split.
    { assert (uncleaned g -> uncleaned g') as Hu; [|destruct ph; auto].
      intros Hu x w1 Hx. simpl in *. destruct (Gs x Hx) as (w2 & Hw2 & _).
      destruct (Hheap _ _ Hw2) as (w3 & Hw3 & (_ & _ & _ & _ & C5 & _)). rewrite Hw3. intros [= <-].
      rewrite C5. destruct (Hu _ _ Hx Hw2) as [?|[?|?]]; auto. right; right. by apply Hun. }
    assert (forall x gen, still_current g x gen -> still_current g' x gen) as Hcur.
    { intros x gen Hc Hgen. destruct (Hc Hgen) as [Hx Hst]. split; [done|]. simpl.
      destruct (Gs x Hx) as (w2 & Hw2 & _). destruct (Hheap _ _ Hw2) as (w3 & Hw3 & Hb3).
      intros w1. rewrite Hw3. intros [= <-]. rewrite (benign_staged _ _ _ Hb3).
      destruct (Hst _ Hw2) as [Heq|Hum]; [left; exact Heq|right; by apply Hun]. }
    destruct ph as [x|x gen|x gen s|x gen s|x s]; try done; simpl in *.
    + destruct Hrest as (? & ? & ?). auto.
    + destruct Hrest as (? & ? & ?). auto.
Qed.

Lemma step_open g h now m a :
  ginv g -> handles g !! h = None ->
  GetOrCreateSession (mgr g) p now = (m, inl a) ->
  ginv (mkG m (bucket g) (<[h := (a, false)]> (handles g)) (sync g) (taken g)).
Proof.
  intros Hg Hh. unfold GetOrCreateSession. destruct (DirtyIndex.IsConflicted _ p); [done|].
  destruct (CancelPendingDelete (mgr g) p) as [m1 b1] eqn:E1.
  apply removeTombstone_quiet in E1 as [Hq Hi].
  assert (forall x, unmarked g x -> exists h', <[h := (a, false)]> (handles g) !! h' = Some (x, true)) as Hun.
  { intros x [h' Hx]. exists h'. rewrite lookup_insert_ne; congruence. }
  assert (forall x, refs_in (<[h := (a, false)]> (handles g)) x =
    refs_in (handles g) x + if decide (a = x) then 1 else 0) as Hrefs.
  { intros x. unfold refs_in. rewrite map_sum_insert_new by done. simpl. lia. }
  destruct (sessions m1 !! p) as [a0|] eqn:Ea.
  - intros [= <- <-]. pose proof (step_tombstone _ _ Hg Hq Hi) as Hg1.
    destruct (gi_session _ Hg1 a0 Ea) as (w & Hw & Hl). simpl in *.
    rewrite (update_put _ _ _ w) by done.
    apply (ginv_benign _ a0 w _ _ Hg1); try done.
    + intros _. simpl. rewrite Hrefs, decide_True by done. pose proof (l_refs _ _ _ Hl). unfold references in *.
      simpl in *. lia.
    + simpl. intros x Hx Hne. congruence.
    + simpl. intros h' x b. rewrite lookup_insert. case_decide; intros Hx; simplify_eq.
      * by apply elem_of_dom.
      * by apply (gi_handles _ Hg1) in Hx.
  - destruct (NewWriteSession (disk m1) p (SP m1) now) as [d' [w|e]] eqn:En; [|done].
    intros [= <- <-]. pose proof (step_tombstone _ _ Hg Hq Hi) as Hg1.
    apply NewWriteSession_ok in En as (Hp & Hsp & Hd & Hr & Hsz & Hinv & Hk & Hname & _);
      [|apply (gi_name _ Hg1)].
    assert (fresh (dom (heap m1)) ∉ dom (heap m1)) as Hfresh by apply is_fresh.
    apply ginv_list; try done.
    + intros h' x b. rewrite lookup_insert. case_decide; intros Hx; simplify_eq; eauto.
    + unfold references. simpl. rewrite Hrefs, decide_True, Hr by done.
      rewrite refs_in_zero; [done|]. intros h' b Hx. apply Hfresh. by apply (gi_handles _ Hg1) in Hx.
    + by left.
Qed.

Lemma step_close g h a :
  ginv g -> handles g !! h = Some (a, false) ->
  sessions (mgr g) !! p = Some a \/ sessions (mgr g) !! p = None ->
  ginv (mkG (ReleaseSession (mgr g) p) (bucket g) (delete h (handles g)) (sync g) (taken g)).
Proof.
  intros Hg Hh Hs.
  assert (forall x, unmarked g x -> exists h', delete h (handles g) !! h' = Some (x, true)) as Hun.
  { intros x [h' Hx]. exists h'. rewrite lookup_delete_ne; congruence. }
  assert (forall x, refs_in (delete h (handles g)) x =
    refs_in (handles g) x - if decide (a = x) then 1 else 0) as Hrefs.
  { intros x. unfold refs_in. rewrite map_sum_delete, Hh. simpl. lia. }
  unfold ReleaseSession. destruct (sessions (mgr g) !! p) as [a0|] eqn:Ea.
  - assert (a0 = a) as -> by (destruct Hs; congruence).
    destruct (gi_session _ Hg a Ea) as (w & Hw & Hl). rewrite (update_put _ _ _ w) by done.
    pose proof (l_refs _ _ _ Hl) as Hle. unfold references in Hle.
    assert (1 <= refs_in (handles g) a) as Hone.
    { pose proof (Hrefs a) as Hx. rewrite decide_True in Hx by done.
      pose proof (refs_in_nonneg (delete h (handles g)) a). lia. }
    unfold DecrementRefCount. rewrite (proj2 (Z.leb_gt _ _)) by lia.
    apply (ginv_benign _ a w _ _ Hg); try done.
    + intros _. simpl. rewrite Hrefs, decide_True by done. lia.
    + intros x Hx Hne. congruence.
    + intros h' x b [_ Hx]%lookup_delete_Some. by apply (gi_handles _ Hg) in Hx.
  - apply (ginv_transfer g); simpl; try done; try apply Hg.
    + apply quiet_refl.
    + intros h' x b [_ Hx]%lookup_delete_Some. eauto.
    + intros x. unfold references. simpl. rewrite Hrefs. cases_lia.
    + left. by split.
Qed.

(** ** Changing the staged file *)

(** Neither a write nor a truncation renames the session or counts its
    references, and one that fails does not mark it written. *)
Definition same_identity (w w' : WriteSession) (err : option error) : Prop :=
  w_Path w' = w_Path w /\ w_StagingPath w' = w_StagingPath w /\ w_RefCount w' = w_RefCount w /\
  (err <> None -> w_Dirty w' = w_Dirty w).

Lemma detach_identity d w keep now d' w' err :
  (forall file, w_File w = Some file -> file ∈ dom (inodes d)) ->
  detachFromUploadsLocked d w keep now = (d', w', err) ->
  same_identity w w' (Some ErrIO).
Proof.
  intros Hf. destruct err; [by intros (-> & _)%SessionSafety.detach_error|].
  intros [(_ & _ & ->)|(_ & tmp & _ & _ & _ & _ & -> & _)]%SessionSafety.detach_ok; done.
Qed.

Lemma apply_change_identity d w c now d' w' err :
  (forall file, w_File w = Some file -> file ∈ dom (inodes d)) ->
  apply_change d w c now = (d', w', err) -> same_identity w w' err.
Proof.
  intros Hf. destruct c as [buf off|size]; simpl.
  - unfold write_persisting, write.
    destruct (detachFromUploadsLocked d w _ now) as [[d1 w1] [e1|]] eqn:E1;
      apply detach_identity in E1 as (H1 & H2 & H3 & H4); [|done| |done].
    { intros [= <- <- <-]. by split_and!; auto. }
    unfold write_at. destruct (w_File w1) as [file|]; [|intros [= <- <- <-]; by split_and!; auto].
    destruct (file_write _ _ _ _ _) as [[d2 n] [e2|]]; [intros [= <- <- <-]; by split_and!; auto|].
    destruct (negb (IsZero _)); [|intros [= <- <- <-]; by split_and!; auto].
    destruct (persistAttributes _ _) as [d3 w3] eqn:E3.
    apply persist_data in E3 as (_ & _ & [->| ->]); intros [= <- <- <-]; by split_and!; auto.
  - unfold truncate.
    destruct (detachFromUploadsLocked d w _ now) as [[d1 w1] [e1|]] eqn:E1;
      apply detach_identity in E1 as (H1 & H2 & H3 & H4); [|done| |done].
    { intros [= <- <- <-]. by split_and!; auto. }
    destruct (w_File w1) as [file|]; [|intros [= <- <- <-]; by split_and!; auto].
    destruct (file_truncate _ _ _ _) as [d2 [e2|]]; intros [= <- <- <-]; by split_and!; auto.
Qed.

Lemma apply_change_inv d w u c now d' w' err :
  inv (mkWorld d w u) -> apply_change d w c now = (d', w', err) -> inv (mkWorld d' w' u).
Proof.
  intros Hinv. destruct c as [buf off|size]; simpl; [|by eapply truncate_inv].
  unfold write_persisting. destruct (write d w buf off now) as [[d1 w1] [[n dr] e]] eqn:E.
  apply (write_inv _ _ u) in E; [|done]. destruct dr; [|by intros [= <- <- <-]].
  destruct (persistAttributes d1 w1) as [d2 w2] eqn:E2. intros [= <- <- <-]. by eapply persist_inv.
Qed.

Lemma apply_change_sized d w c now d' w' :
  sized d w -> change_ok c -> apply_change d w c now = (d', w', None) -> sized d' w'.
Proof.
  intros Hs. destruct c as [buf off|size]; simpl; intros Hok.
  - unfold write_persisting. destruct (write d w buf off now) as [[d1 w1] [[n dr] e]] eqn:E.
    intros Hrun. assert (e = None) as -> by (destruct dr; [destruct (persistAttributes _ _)|]; congruence).
    apply write_ok in E as (_ & _ & _ & Hs1 & _); [|done..].
    destruct dr; [|injection Hrun as <- <-; done].
    destruct (persistAttributes d1 w1) as [d2 w2] eqn:E2. injection Hrun as <- <-.
    apply persist_data in E2 as (_ & Hi & Hw). destruct Hs1 as (f & Hf & Hd & Hsz).
    exists f. unfold bytes_at in *. rewrite Hi. destruct Hw as [->| ->]; done.
  - intros H. by apply truncate_ok in H as (_ & ? & _).
Qed.

Lemma step_change g h a pending w c now d' w' err :
  ginv g -> handles g !! h = Some (a, pending) -> sessions (mgr g) !! p = Some a ->
  heap (mgr g) !! a = Some w -> change_ok c ->
  apply_change (disk (mgr g)) w c now = (d', w', err) ->
  (err <> None -> staged d' w' = staged (disk (mgr g)) w /\ sized d' w') ->
  ginv (mkG (put a w' (set_disk d' (mgr g))) (bucket g)
         (<[h := (a, match err with None => true | Some _ => pending end)]> (handles g))
         (sync g) (taken g)).
Proof.
  intros Hg Hh Ha Hw Hok Hrun Hfail. pose proof Hg as [Gwf Gnc Gh Gs Gn Gp].
  destruct (Gs a Ha) as (w0 & Hw0 & [Lp Ls Lsz Linv Lr Lacc]).
  assert (w0 = w) as -> by congruence. clear Hw0.
  destruct (apply_change_identity _ _ _ _ _ _ _ (SessionSafety.sized_open _ _ Lsz) Hrun) as (I1 & I2 & I3 & I4).
  pose proof (apply_change_inv _ _ _ _ _ _ _ _ Linv Hrun) as Hinv'.
  assert (sized d' w') as Hsz'.
  { destruct err; [by apply Hfail|by eapply apply_change_sized]. }
  set (g' := mkG _ _ _ _ _).
  assert (err = None /\ unmarked g' a \/
    staged d' w' = staged (disk (mgr g)) w /\ w_Dirty w' = w_Dirty w /\
    (unmarked g a -> unmarked g' a)) as Hcase.
  { destruct err as [e|]; [right|left].
    - destruct (Hfail ltac:(done)) as [? _]. split_and!; [done|by apply I4|].
      intros [h' Hh']. destruct (decide (h' = h)) as [->|Hne].
      + exists h. simpl. rewrite lookup_insert_eq. congruence.
      + exists h'. simpl. by rewrite lookup_insert_ne.
    - split; [done|]. exists h. simpl. by rewrite lookup_insert_eq. }
  split; simpl; try done.
  - intros h' x b. rewrite lookup_insert. case_decide; intros Hx; simplify_eq; [set_solver|].
    apply Gh in Hx. set_solver.
  - intros a' Ha'. assert (a' = a) as -> by congruence. exists w'. rewrite lookup_insert_eq.
    split; [done|]. split; simpl; try congruence; try done.
    + by rewrite I2, Ls.
    + unfold references, g'. cbn [handles]. rewrite (refs_in_update _ _ _ _ _ _ Hh), I3. exact Lr.
    + destruct Hcase as [[_ Hu]|(Hst & Hdirty & Hu)]; [right; right; by left|].
      unfold accounted in *. simpl. rewrite Hst, Hdirty.
      destruct Lacc as [?|[?|[?|?]]]; auto.
  - intros i Hi. destruct Hsz' as (f & Hf & Hdom & _). destruct (SessionSafety.inv_named _ Hinv' f Hf) as [Hn Hin].
    simpl in *. rewrite I2, Ls in Hn. change (SP (put a w' (set_disk d' (mgr g)))) with (SP (mgr g)) in Hi.
    congruence.
  - intros ph Hph. destruct (Gp ph Hph) as [(w1 & Hw1 & Hp1 & Hl) [Huncl Hrest]]. split.
    { simpl. rewrite lookup_insert. case_decide as Heq.
      - exists w'. split_and!; [done|congruence|left; congruence].
      - eauto. }
    assert (uncleaned g -> uncleaned g') as Hun.
    { intros Hu a' w2 Ha'. simpl in *. assert (a' = a) as -> by congruence. rewrite lookup_insert_eq.
      intros [= <-]. destruct Hcase as [[_ ?]|(_ & Hdirty & Hum)]; [by right; right|].
      rewrite Hdirty. destruct (Hu _ _ Ha Hw) as [?|[?|?]]; auto. }
    split; [destruct ph; auto|].
    assert (forall x gen, still_current g x gen -> still_current g' x gen) as Hcur.
    { intros x gen Hc Hgen. destruct (Hc Hgen) as [Hx Hst]. split; [done|]. simpl.
      assert (x = a) as -> by congruence. intros w2. rewrite lookup_insert_eq. intros [= <-].
      destruct Hcase as [[_ Hu]|(Heq & _ & Hu)]; [by right|]. rewrite Heq.
      destruct (Hst _ Hw); auto. }
    destruct ph as [x|x gen|x gen s|x gen s|x s]; try done; simpl in *.
    + destruct Hrest as (? & ? & ?). auto.
    + destruct Hrest as (? & ? & ?). auto.
Qed.

(** ** Removing the session *)

Lemma generation_MarkClean m : generation_of (set_index (DirtyIndex.MarkClean (index m) p) m) = None.
Proof. unfold generation_of. simpl. by rewrite lookup_delete_eq. Qed.

Lemma MarkClean_wf i : DirtyIndex.wf i -> DirtyIndex.wf (DirtyIndex.MarkClean i p).
Proof. apply (DirtyIndex.exec_wf i (DirtyIndex.OMarkClean p)). Qed.

(** A session taken out of the manager and closed, with its entry gone. *)
Lemma ginv_unlist g m a :
  ginv g -> sessions (mgr g) !! p = Some a ->
  config m = config (mgr g) -> sessions m !! p = None ->
  heap m = alter Close a (heap (mgr g)) ->
  DirtyIndex.wf (index m) -> DirtyIndex.conflicts (index m) !! p = None ->
  DirtyIndex.generation (index m) = DirtyIndex.generation (index (mgr g)) ->
  generation_of m = None -> inodes (disk m) = inodes (disk (mgr g)) ->
  (forall i, data (disk m) !! SP (mgr g) = Some i -> data (disk (mgr g)) !! SP (mgr g) = Some i) ->
  ginv (mkG m (bucket g) (handles g) (sync g) (taken g)).
Proof.
  intros [Gwf Gnc Gh Gs Gn Gp] Ha Hc Hs Hheap Hwf Hnc Hgen Hno Hi Hd.
  assert (SP m = SP (mgr g)) as HSP by (unfold stagingFilePath; by rewrite Hc).
  split; simpl; try done.
  - intros h x b Hx. rewrite Hheap, dom_alter_L. by eapply Gh.
  - intros x. by rewrite Hs.
  - intros i. rewrite HSP, Hi. intros Hx. by apply Gn, Hd.
  - intros ph Hph. destruct (Gp ph Hph) as [(w & Hw & Hp & Hl) [_ Hrest]]. split.
    { simpl. rewrite Hheap, lookup_alter. case_decide as Heq.
      - exists (Close w). subst a. rewrite Hw. split_and!; [done|done|by right].
      - exists w. split_and!; [done|done|]. right. destruct Hl as [Hl|?]; [congruence|done]. }
    split.
    { assert (uncleaned (mkG m (bucket g) (handles g) (sync g) (taken g))); [|by destruct ph].
      intros x w'. simpl. by rewrite Hs. }
    destruct ph as [x|x gen|x gen s|x gen s|x s]; try done; simpl in *.
    + lia.
    + destruct Hrest as (? & ? & ?). split_and!; [lia|done|]. intros Hx. simpl in Hx. congruence.
    + destruct Hrest as (? & ? & ?). split_and!; [lia|intros Hx; simpl in Hx; congruence..].
Qed.

Lemma step_discard g m b err :
  ginv g -> discardDeletedStaging (mgr g) p = (m, b, err) ->
  ginv (mkG m (bucket g) (handles g) (sync g) (taken g)).
Proof.
  intros Hg. unfold discardDeletedStaging. destruct (HasPendingDelete (mgr g) p); simpl.
  2: { intros [= <- <- <-]. apply step_tombstone; [done|apply quiet_refl|done]. }
  destruct (dropDirtyEntry_disk (mgr g) p) as (d1 & -> & Hd1 & Hi1).
  destruct (sessions (mgr g) !! p) as [a|] eqn:Ea.
  2: { unfold removeSessionLocked. simpl. rewrite Ea. intros [= <- <- <-]. simpl. apply (ginv_transfer g); simpl; try done.
       - by apply quiet_disk; [apply quiet_index, quiet_refl|..].
       - apply MarkClean_wf, Hg.
       - apply Hg.
       - eauto.
       - right; right. split; [apply generation_MarkClean|done]. }
  destruct (gi_session _ Hg a Ea) as (w & Hw & Hl).
  destruct (removeSessionLocked _ p true) as [[m2 r2] e2] eqn:E2.
  apply (removeSessionLocked_effect _ _ a w) in E2 as (-> & d2 & i2 & -> & Hi2 & Hd2 & Hidx);
    [|done|done|exact (l_staging _ _ _ Hl)].
  intros [= <- <- <-]. simpl in *.
  assert (DirtyIndex.wf i2 /\ DirtyIndex.conflicts i2 !! p = None /\
    DirtyIndex.generation i2 = DirtyIndex.generation (index (mgr g)) /\
    DirtyIndex.dirty i2 !! p = None) as (Hwf & Hnc & Hgen & Hno).
  { pose proof (MarkClean_wf _ (gi_wf _ Hg)) as Hw1. pose proof (gi_unconflicted _ Hg).
    destruct Hidx as [->| ->]; split_and!; try done; try (by apply MarkClean_wf); simpl;
      by rewrite lookup_delete_eq. }
  apply (ginv_unlist g _ a); simpl; try done.
  - apply lookup_delete_eq.
  - unfold generation_of. simpl. by rewrite Hno.
  - congruence.
  - intros i Hi. rewrite <-Hd1. by apply Hd2.
Qed.

Lemma cleanup_effect m path a w m' b err :
  deref m a = Some w -> cleanupSyncedSession m path a = (m', b, err) ->
  m' = m \/
  sessions m !! path = Some a /\ w_RefCount w <= 0 /\ DirtyIndex.IsDirty (index m) path = false /\
  exists d', m' = update a Close (set_disk d' (set_sessions (delete path) m)) /\
    inodes d' = inodes (disk m) /\
    (forall n i, data d' !! n = Some i -> data (disk m) !! n = Some i).
Proof.
  intros Hw. unfold cleanupSyncedSession. rewrite Hw. simpl.
  destruct (negb (bool_decide (sessions m !! path = Some a)) || (0 <? w_RefCount w) || _ || _ || _) eqn:E;
    [intros [= <- <- <-]; by left|]. bool_to_prop. destruct E as [[[[Ha Hr] _] Hd] _].
  destruct (remove_data (disk m) _) as [d1 e1] eqn:E1. apply remove_data_shrinks in E1 as [Hi1 Hd1].
  destruct (remove_sidecar d1 _) as [d2 e2] eqn:E2.
  assert (data d2 = data d1 /\ inodes d2 = inodes d1) as [Hd2 Hi2].
  { unfold remove_sidecar in E2. destruct (os_try d1) as [d3 [e3|]] eqn:E3;
      apply os_try_same in E3 as [o ->]; [by injection E2 as <- <-|]. simpl in E2.
    destruct (sidecars d1 !! _); by injection E2 as <- <-. }
  intros Hrun. right. split_and!; try done. exists d2. split_and!.
  - destruct e1 as [e|]; [destruct (IsNotExist e)|]; by injection Hrun as <- <- <-.
  - congruence.
  - intros n i. rewrite Hd2. apply Hd1.
Qed.

Lemma step_cleanup g a m b err :
  ginv g -> (exists w, heap (mgr g) !! a = Some w) ->
  cleanupSyncedSession (mgr g) p a = (m, b, err) ->
  ginv (mkG m (bucket g) (handles g) (sync g) (taken g)).
Proof.
  intros Hg [w Hw] [->|(Ha & _ & Hd & d' & -> & Hi & Hdata)]%(cleanup_effect _ _ _ _ _ _ _ Hw).
  { apply step_tombstone; [done|apply quiet_refl|done]. }
  apply (ginv_unlist g _ a); simpl; try done; try apply Hg.
  - apply lookup_delete_eq.
  - unfold generation_of. simpl. unfold DirtyIndex.IsDirty in Hd. apply bool_decide_eq_false in Hd.
    destruct (DirtyIndex.dirty (index (mgr g)) !! p); [|done]. destruct Hd. eauto.
  - intros i. apply Hdata.
Qed.

(** ** The sync's own steps *)

(** Moving a sync between phases that hold the same snapshot. *)
Lemma ginv_phase g ph t :
  ginv g ->
  (sync g ≫= snapshot_of = ph ≫= snapshot_of /\ taken g = t \/
   sync g ≫= snapshot_of = None /\ ph ≫= snapshot_of = None) ->
  (forall ph', ph = Some ph' -> phase_ok (mkG (mgr g) (bucket g) (handles g) ph t) ph') ->
  ginv (mkG (mgr g) (bucket g) (handles g) ph t).
Proof.
  intros [Gwf Gnc Gh Gs Gn Gp] Hsame Hph. split; simpl; try done.
  intros a Ha. destruct (Gs a Ha) as (w & Hw & []). exists w. split; [done|]. split; try done.
  simpl. assert (snapshots (mkG (mgr g) (bucket g) (handles g) ph t) a = snapshots g a) as ->; [|done].
  unfold snapshots. simpl. by destruct Hsame as [[-> ->]|[-> ->]].
Qed.

(** The end of a sync: its snapshot is closed. *)
Lemma ginv_close g ph a s :
  ginv g -> sync g = Some ph -> snapshot_of ph = Some (a, s) ->
  ginv (mkG (sync_close (mgr g) a s) (bucket g) (handles g) None (taken g)).
Proof.
  intros [Gwf Gnc Gh Gs Gn Gp] Hsync Hsnap. unfold sync_close.
  assert (forall x, heap (update a (fun w => CloseSnapshot w s) (mgr g)) !! x =
    if decide (x = a) then (fun w => CloseSnapshot w s) <$> heap (mgr g) !! x else heap (mgr g) !! x) as Hheap.
  { intros x. simpl. rewrite lookup_alter. repeat case_decide; subst; done. }
  split; simpl; try done.
  - intros h x b Hx. rewrite dom_alter_L. by eapply Gh.
  - intros x Hx. destruct (Gs x Hx) as (w & Hw & [L1 L2 L3 L4 L5 L6]).
    unfold snapshots in L4. rewrite Hsync in L4. simpl in L4. rewrite Hsnap in L4.
    change (alter (fun w => CloseSnapshot w s) a (heap (mgr g)) !! x)
      with (heap (update a (fun w => CloseSnapshot w s) (mgr g)) !! x).
    rewrite Hheap, Hw. destruct (decide (x = a)) as [->|Hne].
    + rewrite decide_True in L4 by done.
      apply (SessionSafety.close_inv _ _ [] []) in L4. simpl in L4.
      exists (CloseSnapshot w s). split; [done|].
      assert (w_File (CloseSnapshot w s) = w_File w /\ w_Path (CloseSnapshot w s) = w_Path w /\
        w_StagingPath (CloseSnapshot w s) = w_StagingPath w /\ w_Size (CloseSnapshot w s) = w_Size w /\
        w_RefCount (CloseSnapshot w s) = w_RefCount w /\ w_Dirty (CloseSnapshot w s) = w_Dirty w)
        as (E1 & E2 & E3 & E4 & E5 & E6) by (unfold CloseSnapshot; by case_match).
      split; simpl.
      * congruence.
      * by rewrite E3.
      * destruct L3 as (f & Hf & Hd & Hs). exists f. by rewrite E1, E4.
      * exact L4.
      * by rewrite E5.
      * unfold accounted, staged in *. simpl. by rewrite E6, E1.
    + rewrite decide_False in L4 by congruence. exists w. split; [done|]. by split.
Qed.

Lemma step_generation g a :
  ginv g -> sync g = Some (PSession a) ->
  ginv (mkG (mgr g) (bucket g) (handles g) (Some (PGeneration a (sync_generation (mgr g) p))) (taken g)).
Proof.
  intros Hg Hs. apply ginv_phase; [done|right; by rewrite Hs|]. intros ph [= <-].
  destruct (gi_phase _ Hg _ Hs) as (Haddr & Hun & _). split; [done|]. split; [done|]. simpl.
  unfold sync_generation, DirtyIndex.GetMetadata. pose proof (DirtyIndex.wf_generation _ (gi_wf _ Hg)).
  destruct (DirtyIndex.dirty _ !! p) as [meta|] eqn:E; simpl; [|done].
  by apply (DirtyIndex.wf_issued _ (gi_wf _ Hg)) in E as [_ ?].
Qed.

Lemma snapshot_quiet d w d' w' e :
  OpenUploadSnapshot d w = (d', w', inr e) -> w' = w /\ data d' = data d /\ inodes d' = inodes d.
Proof.
  unfold OpenUploadSnapshot, flush, file_sync. destruct (w_File w) as [f|]; [|by intros [= <- <- <-]].
  destruct (os_try d) as [d1 [e1|]] eqn:E1; apply os_try_same in E1 as [o1 ->]; [by intros [= <- <- <-]|].
  unfold open_data. destruct (os_try _) as [d2 [e2|]] eqn:E2; apply os_try_same in E2 as [o2 ->];
    [by intros [= <- <- <-]|]. simpl. destruct (data d !! _); [done|]. by intros [= <- <- <-].
Qed.

Lemma snapshot_opened d w d' w' s :
  OpenUploadSnapshot d w = (d', w', inl s) ->
  w' = set_readers (w_uploadReaders w + 1) (w_fileGeneration w) w /\
  data d' = data d /\ inodes d' = inodes d.
Proof.
  unfold OpenUploadSnapshot, flush, file_sync. destruct (w_File w) as [f|]; [|done].
  destruct (os_try d) as [d1 [e1|]] eqn:E1; apply os_try_same in E1 as [o1 ->]; [done|].
  unfold open_data. destruct (os_try _) as [d2 [e2|]] eqn:E2; apply os_try_same in E2 as [o2 ->];
    [done|]. simpl. destruct (data d !! _); [|done]. by intros [= <- <- <-].
Qed.

Lemma put_same a w (m : Manager) : heap m !! a = Some w -> put a w m = m.
Proof. intros Hw. unfold put, set_heap. rewrite insert_id by done. by destruct m. Qed.

Lemma step_snapshot g a gen m r :
  ginv g -> sync g = Some (PGeneration a gen) -> sync_snapshot (mgr g) a = (m, r) ->
  ginv (mkG m (bucket g) (handles g)
         (match r with inl s => Some (PSnapshot a gen s) | inr _ => None end)
         (match r with inl s => bytes_at (disk m) (s_File s) | inr _ => taken g end)).
Proof.
  intros Hg Hs. pose proof (gi_phase _ Hg _ Hs) as [(w & Hw & Hp & Hl) [Hun Hgen]]. simpl in *.
  unfold sync_snapshot, deref. rewrite Hw.
  destruct (OpenUploadSnapshot (disk (mgr g)) w) as [[d' w'] [s|e]] eqn:E; intros [= <- <-].
  2: { apply snapshot_quiet in E as (-> & Hd & Hi). rewrite put_same by done.
       apply (ginv_phase (mkG (set_disk d' (mgr g)) (bucket g) (handles g) (sync g) (taken g))).
       - apply step_tombstone; [done|by apply quiet_disk; [apply quiet_refl|..]|done].
       - right. simpl. by rewrite Hs.
       - done. }
  pose proof E as (Hw' & Hd & Hi)%snapshot_opened.
  assert (sessions (mgr g) !! p = Some a) as Ha.
  { destruct Hl as [?|Hclosed]; [done|]. unfold OpenUploadSnapshot, flush in E. by rewrite Hclosed in E. }
  destruct (gi_session _ Hg a Ha) as (w0 & Hw0 & [L1 L2 L3 L4 L5 L6]). assert (w0 = w) as -> by congruence.
  unfold snapshots in L4. rewrite Hs in L4. simpl in L4.
  apply (open_inv _ _ []) in E as (Hinv' & Hfile & Hsize & Hbytes); [|done]. simpl. rewrite Hbytes.
  assert (forall x, <[a := w']> (heap (mgr g)) !! x = Some w' \/
    <[a := w']> (heap (mgr g)) !! x = heap (mgr g) !! x) as Hheap.
  { intros x. rewrite lookup_insert. case_decide; auto. }
  assert (staged d' w' = staged (disk (mgr g)) w) as Hst.
  { subst w'. unfold staged, bytes_at. simpl. by rewrite Hi. }
  destruct Hg as [Gwf Gnc Gh Gs Gn Gp]. split; simpl; try done.
  - intros h x b Hx. apply Gh in Hx. set_solver.
  - intros x Hx. assert (x = a) as -> by congruence. exists w'. rewrite lookup_insert_eq.
    split; [done|]. split; simpl; try (subst w'; done).
    + destruct L3 as (f & Hf & Hdom & Hsz). exists f. unfold bytes_at in *. subst w'. simpl. by rewrite Hi.
    + unfold snapshots. simpl. by rewrite decide_True.
    + unfold accounted in *. simpl. rewrite Hst. by subst w'.
  - intros i. rewrite Hd, Hi. apply Gn.
  - intros ph [= <-]. split; [|split].
    + simpl. exists w'. rewrite lookup_insert_eq. split_and!; [done|by subst w'|by left].
    + intros x w1 Hx. simpl in *. assert (x = a) as -> by congruence. rewrite lookup_insert_eq.
      intros [= <-]. destruct (Hun _ _ Ha Hw) as [?|[?|?]]; [left; by subst w'|auto..].
    + simpl. split_and!; [done|rewrite Hsize; by apply sized_staged|].
      intros _. split; [done|]. intros w1. simpl. rewrite lookup_insert_eq. intros [= <-]. by left.
Qed.

(** Uploads and deletes change the object only where the invariant does not
    rely on it. *)
Lemma ginv_bucket g st ph :
  ginv g -> uncleaned g ->
  sync g ≫= snapshot_of = ph ≫= snapshot_of ->
  (forall ph', ph = Some ph' -> phase_ok (mkG (mgr g) st (handles g) ph (taken g)) ph') ->
  ginv (mkG (mgr g) st (handles g) ph (taken g)).
Proof.
  intros [Gwf Gnc Gh Gs Gn Gp] Hun Hsame Hph. split; simpl; try done.
  intros a Ha. destruct (Gs a Ha) as (w & Hw & [L1 L2 L3 L4 L5 L6]). exists w. split; [done|].
  split; try done.
  - simpl. unfold snapshots in *. simpl. by rewrite <-Hsame.
  - destruct (Hun _ _ Ha Hw) as [?|[?|?]]; [by left|right; by left|right; right; by left].
Qed.

Lemma pread_all (b : bytes) : pread b 0 (len b) = b.
Proof. unfold pread. simpl. apply take_ge. lia. Qed.

(** The snapshot's bytes, as long as its session is listed. *)
Lemma snapshot_bytes g a ph s :
  ginv g -> sync g = Some ph -> snapshot_of ph = Some (a, s) -> sessions (mgr g) !! p = Some a ->
  bytes_at (disk (mgr g)) (s_File s) = taken g.
Proof.
  intros Hg Hs Hph Ha. destruct (gi_session _ Hg a Ha) as (w & Hw & [_ _ _ L4 _ _]).
  unfold snapshots in L4. rewrite Hs in L4. simpl in L4. rewrite Hph, decide_True in L4 by done.
  destruct (SessionSafety.inv_bytes _ L4 s (taken g)) as [_ ?]; [by left|done].
Qed.

Lemma sync_upload_manager m st a s stopped current m' st' err :
  sync_upload m st p a s stopped current = (m', st', err) ->
  m' = m \/ m' = update a (fun w => set_multipart (Multipart.Reset (w_Multipart w)) (w_written w) w) m.
Proof.
  unfold sync_upload. destruct (_ <=? s_Size s).
  - destruct (uploadMultipartWithRetry _ _ _ _ _ _ _ _ _). intros [= <- <- <-]. auto.
  - destruct (uploadWithRetryStream _ _ _ _ _ _). intros [= <- <- <-]. auto.
Qed.

Lemma step_upload g a gen s stopped current m st err :
  ginv g -> sync g = Some (PSnapshot a gen s) ->
  sync_upload (mgr g) (bucket g) p a s stopped current = (m, st, err) ->
  ginv (mkG (match err with None => m | Some _ => sync_close m a s end) st (handles g)
         (match err with None => Some (PUploaded a gen s) | Some _ => None end) (taken g)).
Proof.
  intros Hg Hs Hup. pose proof (gi_phase _ Hg _ Hs) as [(w & Hw & Hp & Hl) [Hun (Hgen & Hsize & Hcur)]].
  simpl in *. pose proof Hup as Hmgr%sync_upload_manager.
  apply sync_upload_to in Hup as (Hdone & _ & _); [|lia].
  assert (ginv (mkG m (bucket g) (handles g) (sync g) (taken g)) /\
    (exists w, heap m !! a = Some w /\ w_Path w = p /\ (sessions m !! p = Some a \/ w_File w = None)) /\
    uncleaned (mkG m (bucket g) (handles g) (sync g) (taken g)) /\
    DirtyIndex.generation (index m) = DirtyIndex.generation (index (mgr g)) /\
    still_current (mkG m (bucket g) (handles g) (sync g) (taken g)) a gen) as (Hg1 & Haddr & Hun1 & Hgen1 & Hcur1).
  { assert (ginv (mkG m (bucket g) (handles g) (sync g) (taken g))) as Hg1.
    { destruct Hmgr as [->| ->]; [by destruct g|]. rewrite (update_put _ _ _ w) by done.
      apply (ginv_benign _ a w); try done; [|by intros h x b Hx; apply (gi_handles _ Hg) in Hx].
      intros Ha. destruct (gi_session _ Hg a Ha) as (w0 & Hw0 & Hl0).
      assert (w0 = w) as -> by congruence. exact (l_refs _ _ _ Hl0). }
    pose proof (gi_phase _ Hg1 _ Hs) as [Haddr [Hun1 (_ & _ & Hcur1)]]. split_and!; try done.
    by destruct Hmgr as [->| ->]. }
  assert (ginv (mkG m st (handles g) (Some (PUploaded a gen s)) (taken g)) \/ err <> None) as Hok.
  { destruct err as [e|]; [by right|left].
    apply (ginv_bucket (mkG m (bucket g) (handles g) (sync g) (taken g))); try done.
    { simpl. by rewrite Hs. }
    intros ph [= <-]. split; [done|]. split; [exact Hun1|]. simpl.
    split_and!; [by rewrite Hgen1|exact Hcur1|]. intros Hcurgen.
    destruct (Hcur1 Hcurgen) as [Ha _]. simpl in Ha.
    assert (sessions (mgr g) !! p = Some a) as Ha0 by (by destruct Hmgr as [Hm|Hm]; rewrite Hm in Ha).
    rewrite (Hdone eq_refl), (snapshot_bytes g a (PSnapshot a gen s)) by done.
    rewrite Hsize, pread_all. eauto. }
  destruct err as [e|]; [|by destruct Hok].
  apply (ginv_close (mkG m st (handles g) (sync g) (taken g)) (PSnapshot a gen s)); [|done|done].
  apply (ginv_bucket (mkG m (bucket g) (handles g) (sync g) (taken g))); try done.
  intros ph Hph. simpl in Hph. rewrite Hs in Hph. injection Hph as <-.
  split; [done|]. split; [exact Hun1|]. simpl. rewrite Hgen1. done.
Qed.

Lemma step_clean g a gen s m clean :
  ginv g -> sync g = Some (PUploaded a gen s) ->
  markCleanIfUnchanged (mgr g) p gen = (m, clean) ->
  ginv (mkG (if clean then m else sync_close m a s) (bucket g) (handles g)
         (if clean then Some (PClean a s) else None) (taken g)).
Proof.
  intros Hg Hs. pose proof (gi_phase _ Hg _ Hs) as [Haddr [Hun (Hgen & Hcur & Hobj)]]. simpl in *.
  unfold markCleanIfUnchanged, DirtyIndex.MarkCleanIfUnchanged.
  assert (forall m1, quiet (mgr g) m1 -> index m1 = DirtyIndex.MarkClean (index (mgr g)) p ->
    (forall a0 w0, sessions (mgr g) !! p = Some a0 -> heap (mgr g) !! a0 = Some w0 ->
       w_Dirty w0 = false \/ unmarked g a0 \/
       exists attrs, object (bucket g) key = Some (staged (disk (mgr g)) w0, attrs)) ->
    ginv (mkG m1 (bucket g) (handles g) (Some (PClean a s)) (taken g))) as Hclean.
  { intros m1 Hq Hi Hacc. pose proof Hq as [Qc Qs Qd Qh Qdata Qi]. destruct Hg as [Gwf Gnc Gh Gs Gn Gp].
    assert (SP m1 = SP (mgr g)) as HSP by (unfold stagingFilePath; by rewrite Qc).
    split; simpl.
    - rewrite Hi. by apply MarkClean_wf.
    - by rewrite Hi.
    - intros h x b Hx. rewrite Qd. by eapply Gh.
    - intros x Hx. rewrite Qs in Hx. destruct (Gs x Hx) as (w & Hw & [L1 L2 L3 L4 L5 L6]).
      destruct (Qh _ _ Hw) as (w' & Hw' & Hss). exists w'. split; [done|].
      pose proof Hss as (v & c & ->). split; simpl; try done.
      + by rewrite HSP.
      + by eapply sized_quiet.
      + unfold snapshots in *. rewrite Hs in L4. simpl in *. by eapply inv_quiet.
      + destruct (Hacc x w Hx Hw) as [?|[?|[attrs Ho]]]; [by left|right; right; by left|].
        right; right; right. exists attrs. simpl. by rewrite (staged_quiet _ _ _ _ Hq Hss).
    - intros i. rewrite Qdata, HSP, Qi. apply Gn.
    - intros ph [= <-]. split; [|done]. destruct Haddr as (w & Hw & Hp & Hl).
      destruct (Qh _ _ Hw) as (w' & Hw' & (v & c & ->)). eexists. simpl. split; [done|]. by rewrite Qs. }
  destruct (DirtyIndex.dirty (index (mgr g)) !! p) as [meta|] eqn:Ed.
  - destruct (d_LocalDirtyGeneration meta =? gen) eqn:Eg; simpl.
    + apply Z.eqb_eq in Eg. destruct (removePathMetadata _ p) as [m1 e1] eqn:E1.
      apply removePathMetadata_disk in E1 as (d1 & -> & Hd1 & Hi1). intros [= <- <-].
      assert (generation_of (mgr g) = Some gen) as Hcg by (unfold generation_of; rewrite Ed; simpl; by rewrite Eg).
      apply Hclean; [by apply quiet_disk; [apply quiet_index, quiet_refl|..]|done|].
      intros a0 w0 Ha0 Hw0. destruct (Hcur Hcg) as [Ha Hst]. assert (a0 = a) as -> by congruence.
      destruct (Hst _ Hw0) as [Heq|Hum]; [|by right; left]. right; right. rewrite Heq. auto.
    + intros [= <- <-].
      apply (ginv_close (mkG (set_index (index (mgr g)) (mgr g)) (bucket g) (handles g) (sync g) (taken g))
        (PUploaded a gen s)); [|done|done].
      apply step_tombstone; [done|by apply quiet_index, quiet_refl|done].
  - intros [= <- <-]. apply Hclean; [by apply quiet_index, quiet_refl|done|].
    intros a0 w0 Ha0 Hw0. destruct (Hun _ _ Ha0 Hw0) as [?|[[? ?]|?]]; [by left|congruence|by right; left].
Qed.

Lemma step_done g a s m err :
  ginv g -> sync g = Some (PClean a s) -> sync_cleanup (mgr g) p a = (m, err) ->
  ginv (mkG (sync_close m a s) (bucket g) (handles g) None (taken g)).
Proof.
  intros Hg Hs. pose proof (gi_phase _ Hg _ Hs) as [(w & Hw & _) _]. unfold sync_cleanup.
  assert (ginv (mkG m (bucket g) (handles g) (sync g) (taken g)) ->
    ginv (mkG (sync_close m a s) (bucket g) (handles g) None (taken g))) as Hfin.
  { intros Hg1. by apply (ginv_close _ (PClean a s) a s) in Hg1. }
  destruct (CleanAfterSync _).
  - destruct (cleanupSyncedSession (mgr g) p a) as [[m1 b] e1] eqn:E. intros [= <- <-].
    apply Hfin. eapply step_cleanup; [done|by eauto|done].
  - intros [= <- <-]. apply Hfin. by destruct g.
Qed.

(** With no session listed, the staging file may come and go. *)
Lemma ginv_unstaged g d' :
  ginv g -> sessions (mgr g) !! p = None ->
  (forall i, data d' !! SP (mgr g) = Some i -> i ∈ dom (inodes d')) ->
  ginv (mkG (set_disk d' (mgr g)) (bucket g) (handles g) (sync g) (taken g)).
Proof.
  intros [Gwf Gnc Gh Gs Gn Gp] Hnone Hname. split; simpl; try done.
  - intros a. by rewrite Hnone.
  - intros ph Hph. destruct (Gp ph Hph) as (Haddr & Hun & Hrest). split; [done|]. split; [done|].
    assert (forall x gen, still_current g x gen ->
      still_current (mkG (set_disk d' (mgr g)) (bucket g) (handles g) (sync g) (taken g)) x gen) as Hcur.
    { intros x gen Hc Hgen. destruct (Hc Hgen) as [Hx _]. congruence. }
    destruct ph as [x|x gen|x gen s|x gen s|x s]; try done; simpl in *.
    + destruct Hrest as (? & ? & ?). auto.
    + destruct Hrest as (? & ? & ?). auto.
Qed.

(** Rebuilding a session around the staging file of a dirty path. *)
Lemma step_recover g now m r :
  ginv g -> sync g = None -> is_Some (DirtyIndex.dirty (index (mgr g)) !! p) ->
  sessions (mgr g) !! p = None ->
  RecoverSessionFromStaging (mgr g) p now = (m, r) ->
  ginv (mkG m (bucket g) (handles g) None (taken g)) /\ index m = index (mgr g) /\
  match r with inl a => sessions m !! p = Some a | inr _ => sessions m !! p = None end.
Proof.
  intros Hg Hs Hd Hnone. unfold RecoverSessionFromStaging, stat_data.
  destruct (os_try (disk (mgr g))) as [d1 e1] eqn:E1. apply os_try_same in E1.
  assert (ginv (mkG (set_disk d1 (mgr g)) (bucket g) (handles g) None (taken g))) as Hg1.
  { rewrite <-Hs. apply step_tombstone; [done|by apply quiet_same; [apply quiet_refl|]|done]. }
  destruct E1 as [o ->]. destruct e1 as [e1|]; [by intros [= <- <-]|]. simpl.
  destruct (data (disk (mgr g)) !! SP (mgr g)) as [ino|] eqn:Eino; [|by intros [= <- <-]].
  destruct (inodes (disk (mgr g)) !! ino) as [info|] eqn:Einfo; [|by intros [= <- <-]].
  simpl. rewrite Hnone.
  destruct (NewWriteSession _ p _ now) as [d2 [w|e]] eqn:E2.
  2: { intros [= <- <-]. split_and!; [|done|done]. rewrite <-Hs.
       apply (ginv_unstaged g); [done|done|].
       eapply NewWriteSession_failed; [|exact E2]. apply (gi_name _ Hg1). }
  apply NewWriteSession_ok in E2 as (Hp & Hsp & _ & _ & Hsz & Hinv & Hk & Hname & Hfile);
    [|apply (gi_name _ Hg1)]. specialize (Hfile ino Eino).
  destruct (readPathMetadataState d2 _) as [d3 r3] eqn:E3. apply read_same in E3 as [o3 ->].
  intros [= <- <-]. split_and!; [|done|apply lookup_insert_eq]. rewrite <-Hs.
  set (w1 := match r3 with inl _ => _ | inr _ => _ end).
  assert (w_Path w1 = p /\ w_StagingPath w1 = SP (mgr g) /\ w_File w1 = Some ino /\
    w_uploadReaders w1 = w_uploadReaders w /\ w_fileGeneration w1 = w_fileGeneration w)
    as (W1 & W2 & W3 & W4 & W5).
  { unfold w1. destruct r3 as [st|]; [destruct (p_Attributes st)|]; done. }
  apply (ginv_list g (mgr g) (set_outcomes o3 d2)); try done.
  - apply quiet_refl.
  - apply is_fresh.
  - exists ino. destruct Hsz as (f & Hf & Hdom & _). assert (f = ino) as -> by congruence.
    split_and!; [done|done|]. unfold bytes_at. simpl.
    rewrite (Hk ino) by (simpl; apply elem_of_dom; eauto). simpl. by rewrite Einfo.
  - eapply inv_frame; [exact Hinv|simpl; congruence..|done|done|done].
  - eauto.
  - unfold references. simpl. rewrite refs_in_zero; [done|]. intros h b Hx.
    apply (is_fresh (dom (heap (mgr g)))). by eapply gi_handles.
  - right. split; [done|exact Hd].
Qed.

Lemma step_start g now m r :
  ginv g -> sync g = None -> DirtyIndex.IsDirty (index (mgr g)) p = true ->
  sync_session (mgr g) p now = (m, r) ->
  ginv (mkG m (bucket g) (handles g)
         (match r with inl (Some a) => Some (PSession a) | _ => None end) (taken g)).
Proof.
  intros Hg Hs Hd. unfold DirtyIndex.IsDirty in Hd. apply bool_decide_eq_true in Hd.
  assert (ginv (mkG (mgr g) (bucket g) (handles g) None (taken g))) as Hg0 by (rewrite <-Hs; by destruct g).
  (* a session found or rebuilt *)
  assert (forall m1 a, ginv (mkG m1 (bucket g) (handles g) None (taken g)) ->
    index m1 = index (mgr g) -> sessions m1 !! p = Some a ->
    ginv (mkG m1 (bucket g) (handles g) (Some (PSession a)) (taken g))) as Hfound.
  { intros m1 a Hg1 Hi Ha. apply (ginv_phase _ (Some (PSession a)) _ Hg1); [by right|].
    intros ph [= <-]. destruct (gi_session _ Hg1 a Ha) as (w & Hw & Hl). simpl in *.
    split; [exists w; split_and!; [done|exact (l_path _ _ _ Hl)|by left]|]. split; [|done].
    intros a' w' _ _. right; left. simpl. by rewrite Hi. }
  unfold sync_session, GetSession.
  destruct (DirtyIndex.IsConflicted (index (mgr g)) p) eqn:Ec; [by intros [= <- <-]|].
  destruct (HasPendingDelete (mgr g) p); [by intros [= <- <-]|].
  destruct (sessions (mgr g) !! p) as [a|] eqn:Ea; [intros [= <- <-]; by apply Hfound|].
  destruct (RecoverSessionFromStaging (mgr g) p now) as [m1 r1] eqn:Er.
  apply step_recover in Er as (Hg1 & Hi & Hsess); try done.
  destruct r1 as [a|e]; [intros [= <- <-]; by apply Hfound|].
  destruct (IsNotExist e); intros [= <- <-]; [|done].
  destruct (dropDirtyEntry_disk m1 p) as (d2 & Hdrop & Hd2 & Hi2). unfold ForgetDirty. rewrite Hdrop.
  apply (ginv_transfer _ _ Hg1); simpl; try done.
  - by apply quiet_disk; [apply quiet_index, quiet_refl|..].
  - apply MarkClean_wf. rewrite Hi. apply Hg.
  - rewrite Hi. apply Hg.
  - eauto.
  - right; right. split; [apply generation_MarkClean|done].
Qed.

Lemma step_open_failed g now m e :
  ginv g -> GetOrCreateSession (mgr g) p now = (m, inr e) ->
  ginv (mkG m (bucket g) (handles g) (sync g) (taken g)).
Proof.
  intros Hg. unfold GetOrCreateSession.
  destruct (DirtyIndex.IsConflicted _ p); [intros [= <- <-]; by destruct g|].
  destruct (CancelPendingDelete (mgr g) p) as [m1 b1] eqn:E1.
  apply removeTombstone_quiet in E1 as [Hq Hi]. pose proof (step_tombstone _ _ Hg Hq Hi) as Hg1.
  destruct (sessions m1 !! p) eqn:Ea; [done|].
  destruct (NewWriteSession _ p _ now) as [d2 [w|e2]] eqn:E2; [done|]. intros [= <- <-].
  apply (ginv_unstaged _ d2 Hg1); [done|].
  eapply NewWriteSession_failed; [|exact E2]. apply (gi_name _ Hg1).
Qed.

Lemma step_others g g' : ginv g -> leaves_alone g g' -> ginv g'.
Proof.
  intros [Gwf Gnc Gh Gs Gn Gp] [A1 A2 A3 A4 A5 A6 A7 A8 A9 A10 A11 A12 A13 A14 A15].
  assert (SP (mgr g') = SP (mgr g)) as HSP by (unfold stagingFilePath; by rewrite A4).
  assert (generation_of (mgr g') = generation_of (mgr g)) as Hgen by (unfold generation_of; by rewrite A8).
  assert (forall a, unmarked g a -> unmarked g' a) as Hum by (unfold unmarked; by rewrite A1).
  assert (forall a w, sessions (mgr g) !! p = Some a -> heap (mgr g) !! a = Some w ->
    staged (disk (mgr g')) w = staged (disk (mgr g)) w) as Hst.
  { intros a w Ha Hw. destruct (Gs a Ha) as (w0 & Hw0 & []). assert (w0 = w) as -> by congruence.
    destruct l_sized0 as (f & Hf & _). destruct (SessionSafety.inv_named _ l_inv0 f Hf) as [Hn _].
    simpl in Hn. rewrite l_staging0 in Hn.
    unfold staged, bytes_at. rewrite Hf, (A14 f); [done|by left]. }
  split.
  - done.
  - by rewrite A9.
  - intros h a b. rewrite A1. intros Hx. apply A6. by eapply Gh.
  - intros a. rewrite A5. intros Ha. destruct (Gs a Ha) as (w & Hw & Hl). exists w.
    rewrite (A7 a) by (by left). split; [done|]. pose proof Hl as [L1 L2 L3 L4 L5 L6]. split; try done.
    + by rewrite HSP.
    + destruct L3 as (f & Hf & Hdom & Hsz). exists f. pose proof (Hst a w Ha Hw) as Hb.
      unfold staged in Hb. rewrite Hf in Hb. rewrite Hb. auto.
    + assert (snapshots g' a = snapshots g a) as -> by (unfold snapshots; by rewrite A2, A3).
      eapply inv_frame; [exact L4|try done..].
      * intros _. by rewrite L2, A12.
      * intros s b Hin. unfold bytes_at. rewrite (A14 (s_File s)); [done|right].
        unfold snapshots in Hin. destruct (sync g) as [ph|] eqn:Eph; simpl in Hin; [|by apply not_elem_of_nil in Hin].
        destruct (snapshot_of ph) as [[a0 s0]|] eqn:Es; simpl in Hin; [|by apply not_elem_of_nil in Hin].
        case_decide; [|by apply not_elem_of_nil in Hin]. apply list_elem_of_singleton in Hin. simplify_eq.
        eexists _, _, _. split_and!; done.
    + unfold references in *. by rewrite A1.
    + unfold accounted. rewrite (Hst a w Ha Hw), A8, A15. destruct L6 as [?|[?|[?|?]]]; auto.
  - intros i. rewrite HSP, A12. intros Hi. apply A13. by apply Gn.
  - intros ph. rewrite A2. intros Hph. destruct (Gp ph Hph) as [(w & Hw & Hp & Hl) [Hun Hrest]].
    split; [exists w; rewrite (A7 (address_of ph)), A5 by eauto; done|]. split.
    { assert (uncleaned g -> uncleaned g') as Hu; [|destruct ph; auto].
      intros Hu a w'. rewrite A5, A8. intros Ha. rewrite (A7 a) by (by left). intros Hw'.
      destruct (Hu _ _ Ha Hw') as [?|[?|?]]; auto. }
    assert (forall a gen, still_current g a gen -> still_current g' a gen) as Hcur.
    { intros a gen Hc Hg'. rewrite Hgen in Hg'. destruct (Hc Hg') as [Ha Hs]. rewrite A5, A3. split; [done|].
      intros w'. rewrite (A7 a) by (by left). intros Hw'. rewrite (Hst _ _ Ha Hw').
      destruct (Hs _ Hw'); auto. }
    destruct ph as [x|x gen|x gen s|x gen s|x s]; try done; simpl in *.
    + lia.
    + destruct Hrest as (? & ? & ?). rewrite A3. split_and!; [lia|done|auto].
    + destruct Hrest as (? & ? & ?). rewrite A3, A15, Hgen. split_and!; [lia|auto|done].
Qed.

Lemma step_delete g st err :
  ginv g -> sessions (mgr g) !! p = None -> DeleteObject (bucket g) key = (st, err) ->
  ginv (mkG (mgr g) st (handles g) (sync g) (taken g)).
Proof.
  intros Hg Hnone _. assert (uncleaned g) as Hun by (intros a w; by rewrite Hnone).
  apply ginv_bucket; try done. intros ph Hph.
  destruct (gi_phase _ Hg ph Hph) as (Haddr & Hu & Hrest). split; [done|]. split; [done|].
  destruct ph as [x|x gen|x gen s|x gen s|x s]; try done; simpl in *.
  destruct Hrest as (? & Hc & ?). split_and!; [done|done|]. intros Hgen.
  destruct (Hc Hgen) as [Ha _]. congruence.
Qed.

Lemma step_ginv g g' : step g g' -> ginv g -> ginv g'.
Proof.
  intros [] Hg.
  - by apply step_open with now.
  - by apply step_open_failed with now e.
  - by apply step_change with w c now.
  - by apply step_mark with size now err.
  - by apply step_close with a.
  - by apply step_start with now.
  - by apply step_generation.
  - by apply step_snapshot.
  - by apply step_upload with stopped current.
  - by apply step_clean with gen.
  - by apply step_done with err.
  - by apply step_quiet.
  - match goal with H : addTombstone _ _ _ = _ |- _ => apply addTombstone_quiet in H as [Hq Hi] end.
    by apply step_tombstone.
  - by apply step_discard with b err.
  - by apply step_delete with err.
  - unfold ResolvePendingDelete. destruct (removeTombstone (mgr g0) p) as [m b] eqn:E.
    apply removeTombstone_quiet in E as [Hq Hi]. by apply step_tombstone.
  - by apply step_others with g0.
Qed.

(** A path nobody has touched: no session, no handle, no sync, no conflict. *)
Definition untouched (g : G) : Prop :=
  DirtyIndex.wf (index (mgr g)) /\ DirtyIndex.conflicts (index (mgr g)) !! p = None /\
  handles g = ∅ /\ sync g = None /\ sessions (mgr g) !! p = None /\
  (forall i, data (disk (mgr g)) !! SP (mgr g) = Some i -> i ∈ dom (inodes (disk (mgr g)))).

Lemma untouched_ginv g : untouched g -> ginv g.
Proof.
  intros (H1 & H2 & H3 & H4 & H5 & H6). split; try done.
  - intros h a b. by rewrite H3, lookup_empty.
  - intros a. by rewrite H5.
  - intros ph. by rewrite H4.
Qed.

Lemma reachable_ginv g g' : ginv g -> rtc step g g' -> ginv g'.
Proof. intros Hg Hsteps. induction Hsteps; eauto using step_ginv. Qed.

End System.
End SyncSafety.
