(* ===== verification/SyncProperties.v ===== *)
(** * Write-back is safe and makes progress

    The properties of the staging area as a whole, from the invariant of
    [SyncSafety]. *)
From S2P Require Import Prelude StagingTypes Disk DirtyIndex PathState Session SessionSafety.
From S2P Require Import StagingManager ObjectStore SyncWorker SyncUpload SyncSafety.

Module SyncProperties.
Import Disk Session Staging Sync SyncUpload SyncSafety.
Import SessionSafety(staged, sized, mkWorld, inv).

Section Properties.
Context {PH : PathHash} {OS : ObjectStore} {SL : StoreLaws}.

Lemma unmarked_referenced (g : G) a : unmarked g a -> 1 <= references g a.
Proof.
  intros [h Hh]. unfold references, refs_in.
  pose proof (map_sum_ge (fun (_ : positive) (x : positive * bool) => if decide (x.1 = a) then 1 else 0)
    (handles g) h (a, true)) as Hge. simpl in Hge. rewrite decide_True in Hge by done.
  apply Hge; [|done]. intros k x _. cases_lia.
Qed.

(** On a disk that answers, marking the generation just read clean succeeds. *)
Lemma markClean_same_generation m p :
  outcomes (disk m) = [] ->
  exists m', markCleanIfUnchanged m p (sync_generation m p) = (m', true) /\ DirtyIndex.IsDirty (index m') p = false /\ outcomes (disk m') = [].
Proof.
  intros Hrel. unfold markCleanIfUnchanged, DirtyIndex.MarkCleanIfUnchanged, sync_generation,
    DirtyIndex.GetMetadata.
  assert (DirtyIndex.IsDirty (DirtyIndex.MarkClean (index m) p) p = false) as Hc.
  { unfold DirtyIndex.IsDirty. simpl. rewrite lookup_delete_eq. apply bool_decide_eq_false_2. by intros []. }
  destruct (DirtyIndex.dirty (index m) !! p) as [e|]; simpl; [rewrite Z.eqb_refl|]; simpl; [|by eauto].
  unfold removePathMetadata, remove_sidecar. simpl. rewrite os_try_reliable by done.
  destruct (sidecars (disk m) !! _); simpl; eauto.
Qed.

Lemma sync_cleanup_reliable m p a m' err :
  outcomes (disk m) = [] -> sync_cleanup m p a = (m', err) -> err = None /\ index m' = index m.
Proof.
  intros Hrel. unfold sync_cleanup, cleanupSyncedSession.
  destruct (CleanAfterSync (config m)); [|by intros [= <- <-]].
  destruct (_ || _ || _ || _ || _); [by intros [= <- <-]|].
  unfold remove_data. simpl. rewrite os_try_reliable by done.
  destruct (data (disk m) !! _); simpl; destruct (remove_sidecar _ _) as [d2 e2]; by intros [= <- <-].
Qed.

(** C1. No accepted write is lost. Start from a path nobody has touched and let
    its clients (open, write, truncate, mark dirty, close), the sync worker,
    deletes and what the gateway does to other paths interleave. The steps are
    those of SyncSafety.step: each is what the code does under one lock or one
    call to the store, any of which may fail; a handle releases only the session
    it opened, a write is not empty and leaves the staged bytes alone when it
    fails, marking dirty is one step, the path is not opened over a pending
    delete, its object is deleted only while the delete is pending and no session
    is listed, and the path is neither renamed nor in conflict. At every moment a
    listed session that was written is queued for upload, or one of its handles
    has still to report its write, or the object store holds exactly the bytes
    staged. *)
Theorem accepted_writes_never_lost p (g0 g : G) a w :
  untouched p g0 -> rtc (step p) g0 g ->
  sessions (mgr g) !! p = Some a -> heap (mgr g) !! a = Some w -> w_Dirty w = true ->
  DirtyIndex.IsDirty (index (mgr g)) p = true \/ unmarked g a \/
  exists attrs, object (bucket g) (objectKeyFromPath p) = Some (staged (disk (mgr g)) w, attrs).
Proof.
  intros Hu Hsteps Ha Hw Hd. pose proof (reachable_ginv p _ _ (untouched_ginv p _ Hu) Hsteps) as Hg.
  destruct (gi_session _ _ Hg a Ha) as (w0 & Hw0 & Hl). assert (w0 = w) as -> by congruence.
  destruct (l_accounted _ _ _ _ Hl) as [?|[?|[?|?]]]; [congruence|left|by right; left|by right; right].
  by apply bool_decide_eq_true_2.
Qed.

(** C11. Staged bytes are removed only once they are in the bucket. From a path
    nobody has touched, under the steps of SyncSafety.step (handles close only
    sessions they opened, no empty or partly failing write, no open over a pending
    delete, no rename or conflict of the path): whenever the cleanup that follows
    a sync takes the session of a file that was written out of the staging area,
    no handle holds it and the object store has exactly the bytes removed. *)
Theorem cleanup_only_after_upload p (g0 g : G) a w m err :
  untouched p g0 -> rtc (step p) g0 g ->
  heap (mgr g) !! a = Some w -> w_Dirty w = true ->
  cleanupSyncedSession (mgr g) p a = (m, true, err) ->
  references g a = 0 /\
  exists attrs, object (bucket g) (objectKeyFromPath p) = Some (staged (disk (mgr g)) w, attrs).
Proof.
  intros Hu Hsteps Hw Hd Hc. pose proof (reachable_ginv p _ _ (untouched_ginv p _ Hu) Hsteps) as Hg.
  assert (sessions (mgr g) !! p = Some a /\ w_RefCount w <= 0 /\
    DirtyIndex.IsDirty (index (mgr g)) p = false) as (Ha & Hr & Hnd).
  { unfold cleanupSyncedSession, deref in Hc. rewrite Hw in Hc. simpl in Hc.
    destruct (negb (bool_decide (sessions (mgr g) !! p = Some a)) || (0 <? w_RefCount w) || _ || _ || _)
      eqn:E; [congruence|]. bool_to_prop. tauto. }
  destruct (gi_session _ _ Hg a Ha) as (w0 & Hw0 & Hl). assert (w0 = w) as -> by congruence.
  pose proof (l_refs _ _ _ _ Hl) as Hle. pose proof (refs_in_nonneg (handles g) a).
  assert (references g a = 0) as Hz by (unfold references in *; lia). split; [done|].
  destruct (l_accounted _ _ _ _ Hl) as [?|[Hdirty|[Hun|?]]]; [congruence| |..|done].
  - unfold DirtyIndex.IsDirty in Hnd. apply bool_decide_eq_false in Hnd. done.
  - apply unmarked_referenced in Hun. lia.
Qed.

(** C12. A file is marked clean only for bytes the bucket has. From a path nobody
    has touched, under the steps of SyncSafety.step (handles close only sessions
    they opened, no empty or partly failing write, marking dirty in one step, no
    open over a pending delete, no rename or conflict of the path): when the
    upload of a path's generation has finished and the entry still carries it, so
    that the file is marked clean, the object is the staged file, unless a handle
    has still to report a write, which queues the file again. *)
Theorem marked_clean_means_uploaded p (g0 g : G) a gen s w m :
  untouched p g0 -> rtc (step p) g0 g ->
  sync g = Some (PUploaded a gen s) -> generation_of p (mgr g) = Some gen ->
  markCleanIfUnchanged (mgr g) p gen = (m, true) ->
  heap (mgr g) !! a = Some w ->
  DirtyIndex.IsDirty (index m) p = false /\
  (unmarked g a \/
   exists attrs, object (bucket g) (objectKeyFromPath p) = Some (staged (disk (mgr g)) w, attrs)).
Proof.
  intros Hu Hsteps Hs Hgen Hm Hw.
  pose proof (reachable_ginv p _ _ (untouched_ginv p _ Hu) Hsteps) as Hg.
  pose proof (gi_phase _ _ Hg _ Hs) as [_ [_ (_ & Hcur & Hobj)]]. split.
  - unfold markCleanIfUnchanged, DirtyIndex.MarkCleanIfUnchanged in Hm. unfold generation_of in Hgen.
    destruct (DirtyIndex.dirty (index (mgr g)) !! p) as [meta|]; [|done]. simpl in Hgen.
    injection Hgen as Hgen. rewrite (proj2 (Z.eqb_eq _ _) Hgen) in Hm. simpl in Hm.
    destruct (removePathMetadata _ p) as [m1 e1] eqn:E1. apply removePathMetadata_disk in E1 as (d & -> & _ & _).
    injection Hm as <-. unfold DirtyIndex.IsDirty. simpl. rewrite lookup_delete_eq.
    apply bool_decide_eq_false_2. by intros [].
  - destruct (Hcur Hgen) as [_ Hst]. destruct (Hst _ Hw) as [Heq|?]; [right|by left].
    rewrite Heq. auto.
Qed.

(** C21. A sync makes progress on a file smaller than one part: for a path with a
    session, neither in conflict nor deleted, with at least one retry configured,
    a disk that answers every call and a store that takes the put, syncing it
    uploads exactly its staged bytes in a single put, with its attributes, and
    leaves it clean without an error. Larger files go through a multipart upload,
    which this does not cover. *)
Theorem sync_uploads_dirty_file m st p a w now stopped current :
  outcomes (disk m) = [] ->
  (PutObjectStream st (objectKeyFromPath p) (staged (disk m) w) (w_attrs w)).2 = None ->
  0 < MaxSyncRetries (config m) ->
  DirtyIndex.conflicts (index m) !! p = None -> tombstones m !! p = None ->
  sessions m !! p = Some a -> heap m !! a = Some w -> sized (disk m) w ->
  inv (mkWorld (disk m) w []) ->
  w_StagingPath w = stagingFilePath m p -> w_Size w < Multipart.PartSize (w_Multipart w) ->
  let '(m', st', err) := syncFileLocked m st p now stopped current in
  err = None /\ object st' (objectKeyFromPath p) = Some (staged (disk m) w, w_attrs w) /\
  DirtyIndex.IsDirty (index m') p = false.
Proof.
  intros Hrel Hput Hretry Hnc Hnt Ha Hw Hsz Hinv Hsp Hpart. unfold syncFileLocked, sync_session.
  unfold GetSession, DirtyIndex.IsConflicted, HasPendingDelete. rewrite Hnc, Hnt, Ha.
  rewrite !bool_decide_eq_false_2 by (by intros []). unfold sync_snapshot, deref. rewrite Hw.
  destruct Hsz as (file & Hf & Hdom & Hsize).
  destruct (SessionSafety.inv_named _ Hinv file Hf) as [Hname _]. simpl in Hname.
  unfold OpenUploadSnapshot, flush, file_sync. rewrite Hf, os_try_reliable by done.
  unfold open_data. rewrite os_try_reliable by done. simpl. rewrite Hname.
  unfold sync_upload. simpl. rewrite (proj2 (Z.leb_gt (Multipart.PartSize _) 0)) by lia.
  rewrite (proj2 (Z.leb_gt (Multipart.PartSize _) _)) by done.
  unfold deref. simpl. rewrite lookup_insert_eq. simpl.
  unfold uploadWithRetryStream. destruct (Z.to_nat (MaxSyncRetries (config m))) as [|n] eqn:En; [lia|].
  simpl. set (body := pread _ 0 (w_Size w)).
  assert (body = staged (disk m) w) as Hbody.
  { unfold body, staged. rewrite Hf, Hsize. unfold bytes_at. simpl. apply pread_all. }
  rewrite Hbody. clear body Hbody.
  destruct (PutObjectStream st _ _ (w_attrs w)) as [st' e] eqn:Ep. simpl in Hput. subst e.
  pose proof (put_done _ _ _ _ _ Ep) as Hobj. simpl.
  match goal with |- context [markCleanIfUnchanged ?m1 p _] =>
    destruct (markClean_same_generation m1 p) as (m2 & Hm2 & Hnd & Hrel2); [done|];
    change (sync_generation m p) with (sync_generation m1 p) end.
  rewrite Hm2. simpl. destruct (sync_cleanup m2 p a) as [m3 e3] eqn:E3.
  apply sync_cleanup_reliable in E3 as [-> Hi3]; [|done]. split_and!; [done|done|]. simpl. by rewrite Hi3.
Qed.

End Properties.

(** ** Runs of the system

    The steps of [SyncSafety.step] as a function, for concrete runs; a change
    that fails is left out. *)
Inductive event :=
  | EOpen (h : positive) (now : Time)
  | EChange (h : positive) (c : change) (now : Time)
  | EMark (h : positive) (size : Z) (now : Time)
  | EClose (h : positive)
  | ESync (now : Time).

Section Runs.
Context {PH : PathHash} {OS : ObjectStore} {SL : StoreLaws}.
Variable p : string.

(** One step of the sync worker, which never stops and finds every snapshot
    current. *)
Definition play_sync (g : G) (now : Time) : option G :=
  match sync g with
  | None =>
      if DirtyIndex.IsDirty (index (mgr g)) p then
        let '(m, r) := sync_session (mgr g) p now in
        Some (mkG m (bucket g) (handles g)
          (match r with inl (Some a) => Some (PSession a) | _ => None end) (taken g))
      else None
  | Some (PSession a) =>
      Some (mkG (mgr g) (bucket g) (handles g) (Some (PGeneration a (sync_generation (mgr g) p))) (taken g))
  | Some (PGeneration a gen) =>
      let '(m, r) := sync_snapshot (mgr g) a in
      Some (mkG m (bucket g) (handles g)
        (match r with inl s => Some (PSnapshot a gen s) | inr _ => None end)
        (match r with inl s => bytes_at (disk m) (s_File s) | inr _ => taken g end))
  | Some (PSnapshot a gen s) =>
      let '(m, st, err) := sync_upload (mgr g) (bucket g) p a s (fun _ => false) (fun _ => true) in
      Some (mkG (match err with None => m | Some _ => sync_close m a s end) st (handles g)
        (match err with None => Some (PUploaded a gen s) | Some _ => None end) (taken g))
  | Some (PUploaded a gen s) =>
      let '(m, clean) := markCleanIfUnchanged (mgr g) p gen in
      Some (mkG (if clean then m else sync_close m a s) (bucket g) (handles g)
        (if clean then Some (PClean a s) else None) (taken g))
  | Some (PClean a s) =>
      let '(m, err) := sync_cleanup (mgr g) p a in
      Some (mkG (sync_close m a s) (bucket g) (handles g) None (taken g))
  end.

Definition valid_change (c : change) : bool :=
  match c with CWrite buf _ => negb (bool_decide (buf = [])) | CTruncate size => 0 <=? size end.

Definition play_change (g : G) (h : positive) (c : change) (now : Time) : option G :=
  match handles g !! h with
  | None => None
  | Some (a, pending) =>
      match heap (mgr g) !! a with
      | None => None
      | Some w =>
          if bool_decide (sessions (mgr g) !! p = Some a) && valid_change c then
            match apply_change (disk (mgr g)) w c now with
            | (d', w', None) => Some (mkG (put a w' (set_disk d' (mgr g))) (bucket g)
                                  (<[h := (a, true)]> (handles g)) (sync g) (taken g))
            | _ => None
            end
          else None
      end
  end.

Definition play (g : G) (e : event) : option G :=
  match e with
  | EOpen h now =>
      match handles g !! h, GetOrCreateSession (mgr g) p now with
      | None, (m, inl a) =>
          if HasPendingDelete m p then None
          else Some (mkG m (bucket g) (<[h := (a, false)]> (handles g)) (sync g) (taken g))
      | _, _ => None
      end
  | EChange h c now => play_change g h c now
  | EMark h size now =>
      match handles g !! h with
      | Some (a, true) =>
          let '(m, err) := MarkDirty (mgr g) p size now in
          Some (mkG m (bucket g) (<[h := (a, false)]> (handles g)) (sync g) (taken g))
      | _ => None
      end
  | EClose h =>
      match handles g !! h with
      | Some (a, false) =>
          if bool_decide (sessions (mgr g) !! p = Some a) then
            Some (mkG (ReleaseSession (mgr g) p) (bucket g) (delete h (handles g)) (sync g) (taken g))
          else None
      | _ => None
      end
  | ESync now => play_sync g now
  end.

Definition play_all (g : G) (es : list event) : option G :=
  foldl (fun o e => o ≫= (fun g => play g e)) (Some g) es.

Lemma play_sync_step g now g' : play_sync g now = Some g' -> step p g g'.
Proof.
  unfold play_sync. destruct (sync g) as [[a|a gen|a gen s|a gen s|a s]|] eqn:Es.
  - intros [= <-]. by apply s_sync_generation.
  - destruct (sync_snapshot _ _) as [m r] eqn:E. intros [= <-]. by eapply s_sync_snapshot.
  - destruct (sync_upload _ _ _ _ _ _ _) as [[m st] err] eqn:E. intros [= <-]. by eapply s_sync_upload.
  - destruct (markCleanIfUnchanged _ _ _) as [m clean] eqn:E. intros [= <-]. by eapply s_sync_mark.
  - destruct (sync_cleanup _ _ _) as [m err] eqn:E. intros [= <-]. by eapply s_sync_done.
  - destruct (DirtyIndex.IsDirty _ _) eqn:Ed; [|done].
    destruct (sync_session _ _ _) as [m r] eqn:E. intros [= <-]. by eapply s_sync_start.
Qed.

Lemma play_change_step g h c now g' : play_change g h c now = Some g' -> step p g g'.
Proof.
  unfold play_change. destruct (handles g !! h) as [[a pending]|] eqn:Eh; [|done].
  destruct (heap (mgr g) !! a) as [w|] eqn:Ew; [|done].
  destruct (bool_decide _ && valid_change c) eqn:Ev; [|done].
  apply andb_prop in Ev as [Hs%bool_decide_eq_true Hv].
  assert (change_ok c) as Hok.
  { destruct c; simpl in *; [|lia]. by case_bool_decide. }
  destruct (apply_change _ w c now) as [[d' w'] [e|]] eqn:Ec; [done|]. intros [= <-].
  exact (s_change _ g h a pending w c now d' w' None Eh Hs Ew Hok Ec (fun H => False_ind _ (H eq_refl))).
Qed.

Lemma play_step g e g' : play g e = Some g' -> step p g g'.
Proof.
  destruct e as [h now|h c now|h size now|h|now]; simpl; [| |destruct (handles g !! h) as [[a []]|] eqn:Eh..|].
  - destruct (handles g !! h) eqn:Eh; [done|].
    destruct (GetOrCreateSession _ _ _) as [m [a|e]] eqn:E; [|done].
    destruct (HasPendingDelete m p) eqn:Ep; [done|]. intros [= <-]. by eapply s_open.
  - apply play_change_step.
  - destruct (MarkDirty _ _ _ _) as [m err] eqn:E. intros [= <-]. by eapply s_mark.
  - done.
  - done.
  - done.
  - case_bool_decide; [|done]. intros [= <-]. eapply s_close; [done|by left].
  - done.
  - apply play_sync_step.
Qed.

Lemma play_all_steps es : forall g g', play_all g es = Some g' -> rtc (step p) g g'.
Proof.
  unfold play_all. induction es as [|e es IH]; intros g g'; simpl; [by intros [= <-]|].
  destruct (play g e) as [g1|] eqn:E.
  - intros H. eapply rtc_l; [by eapply play_step|by apply IH].
  - intros H. exfalso. revert H. clear. by induction es.
Qed.

End Runs.

(** ** One file, opened, written, uploaded *)

#[local] Instance plain_names : PathHash := {| path_hash := fun s => s; path_hash_inj := fun x y H => H |}.
#[local] Existing Instance Memory.memory_store.
#[local] Existing Instance Memory.memory_laws.

Definition empty_manager (cfg : StagingConfig) (d : Disk) : Manager :=
  mkManager cfg ∅ ∅ DirtyIndex.NewDirtyFileIndex ∅ 0 false ∅ d.
Definition start : G := mkG (empty_manager three_tries empty_disk) empty_store ∅ None [].

Lemma start_untouched : untouched "/f" start.
Proof.
  split; [apply DirtyIndex.New_wf|]. split_and!; try reflexivity. intros i. simpl. by rewrite lookup_empty.
Qed.

(** The file is written and marked, its sync uploads it, and it is written
    again before the sync marks it clean. *)
Definition written_twice : list event :=
  [EOpen 1 1; EChange 1 (CWrite ten 0) 2; EMark 1 10 3; ESync 4; ESync 4; ESync 4; ESync 4;
   EChange 1 (CWrite [x7a] 0) 5; EMark 1 10 6; ESync 7].
(** The file is written, uploaded, marked clean and closed. *)
Definition written_once : list event :=
  [EOpen 1 1; EChange 1 (CWrite ten 0) 2; EMark 1 10 3; EClose 1;
   ESync 4; ESync 4; ESync 4; ESync 4].

Definition reached (es : list event) : G := default start (play_all "/f" start es).
Definition session_of (g : G) : WriteSession :=
  default SessionSafety.opened.2 (heap (mgr g) !! 1%positive).

Lemma reached_steps es :
  bool_decide (is_Some (play_all "/f" start es)) = true -> rtc (step "/f") start (reached es).
Proof.
  intros [g Hg]%bool_decide_eq_true. unfold reached. rewrite Hg. by apply play_all_steps with es.
Qed.

(** A triple from its parts. *)
Lemma triple_eq {A B C} (x : A * B * C) b c : x.1.2 = b -> x.2 = c -> x = (x.1.1, b, c).
Proof. by destruct x as [[? ?] ?]; simpl; intros -> ->. Qed.
Lemma pair_eq {A B} (x : A * B) b : x.2 = b -> x = (x.1, b).
Proof. by destruct x; simpl; intros ->. Qed.

Lemma accepted_writes_never_lost_witness :
  let g := reached written_twice in
  staged (disk (mgr g)) (session_of g) = x7a :: drop 1 ten /\
  (DirtyIndex.IsDirty (index (mgr g)) "/f" = true \/ unmarked g 1 \/
   exists attrs, object (bucket g) (objectKeyFromPath "/f") =
     Some (staged (disk (mgr g)) (session_of g), attrs)).
Proof.
  intros g. split; [vm_compute; reflexivity|].
  apply (accepted_writes_never_lost "/f" start g 1 (session_of g)).
  - apply start_untouched.
  - apply reached_steps. vm_compute. reflexivity.
  - vm_compute. reflexivity.
  - vm_compute. reflexivity.
  - vm_compute. reflexivity.
Defined.

Lemma cleanup_only_after_upload_witness :
  let g := reached (written_once ++ [ESync 5]) in
  references g 1 = 0 /\
  exists attrs, object (bucket g) (objectKeyFromPath "/f") =
    Some (staged (disk (mgr g)) (session_of g), attrs).
Proof.
  intros g. apply (cleanup_only_after_upload "/f" start g 1 (session_of g)
    (cleanupSyncedSession (mgr g) "/f" 1).1.1 None).
  - apply start_untouched.
  - apply reached_steps. vm_compute. reflexivity.
  - vm_compute. reflexivity.
  - vm_compute. reflexivity.
  - apply triple_eq; vm_compute; reflexivity.
Defined.

Lemma marked_clean_means_uploaded_witness :
  let g := reached written_once in
  DirtyIndex.IsDirty (index (markCleanIfUnchanged (mgr g) "/f" 1).1) "/f" = false /\
  (unmarked g 1 \/ exists attrs, object (bucket g) (objectKeyFromPath "/f") =
     Some (staged (disk (mgr g)) (session_of g), attrs)).
Proof.
  intros g. apply (marked_clean_means_uploaded "/f" start g 1 1
    (mkSnapshot 1 10 2 20971520 0) (session_of g) (markCleanIfUnchanged (mgr g) "/f" 1).1).
  - apply start_untouched.
  - apply reached_steps. vm_compute. reflexivity.
  - vm_compute. reflexivity.
  - vm_compute. reflexivity.
  - apply pair_eq. vm_compute. reflexivity.
  - vm_compute. reflexivity.
Defined.

Lemma sync_uploads_dirty_file_witness :
  let g := reached (take 3 written_once) in
  let '(m', st', err) := syncFileLocked (mgr g) (bucket g) "/f" 4 (fun _ => false) (fun _ => true) in
  err = None /\ object st' (objectKeyFromPath "/f") = Some (ten, default_attributes) /\
  DirtyIndex.IsDirty (index m') "/f" = false.
Proof.
  intros g.
  apply (sync_uploads_dirty_file (mgr g) (bucket g) "/f" 1 (session_of g) 4 (fun _ => false) (fun _ => true)).
  1-7, 10-11: vm_compute; reflexivity.
  - exists 1%positive. split_and!; [vm_compute; reflexivity| |vm_compute; reflexivity].
    apply elem_of_dom. vm_compute. by eexists.
  - split; simpl; try (by intros ? ? ?%not_elem_of_nil); [|vm_compute; reflexivity].
    intros file Hf. vm_compute in Hf. injection Hf as <-. split; [vm_compute; reflexivity|].
    apply elem_of_dom. vm_compute. by eexists.
Defined.
End SyncProperties.
