(* ===== verification/SyncFindings.v ===== *)
(** * Interleavings the staging area does not survive

    Two provisos of [SyncSafety.step] and one ignored error, each shown to
    matter by a run of the operations on a store that always answers. *)
From S2P Require Import Prelude StagingTypes Disk DirtyIndex Session SessionSafety.
From S2P Require Import StagingManager ObjectStore SyncWorker SyncUpload SyncSafety.
From S2P Require Import SyncProperties.

Module SyncFindings.
Import Disk Session Staging Sync SyncUpload SyncProperties.

#[local] Instance named_by_path : PathHash :=
  {| path_hash := fun s => s; path_hash_inj := fun x y H => H |}.
#[local] Existing Instance Memory.memory_store.
#[local] Existing Instance Memory.memory_laws.

Definition f : string := "/f".
Definition quiet_worker (m : Manager) (st : store) : Manager * store * option error :=
  syncFileLocked m st f 100 (fun _ => false) (fun _ => true).

(** A handle opened, written through and reported: the manager and the session
    the handle holds. *)
Definition opened_by (m : Manager) : Manager * positive :=
  match GetOrCreateSession m f 1 with (m, inl a) => (m, a) | (m, inr _) => (m, 1%positive) end.
Definition writes (m : Manager) (a : positive) (buf : bytes) : Manager * option error :=
  match deref m a with
  | None => (m, Some ErrClosed)
  | Some w => let '(d, w, (_, err)) := write_persisting (disk m) w buf 0 2 in
              (put a w (set_disk d m), err)
  end.
Definition created (m : Manager) (buf : bytes) : Manager * positive :=
  let '(m, a) := opened_by m in
  ((MarkDirty (writes m a buf).1 f (len buf) 3).1, a).

(** What is left of [f]: its session, whether it is queued, and its object. *)
Definition left_of (m : Manager) (st : store) : option positive * bool * option bytes :=
  (sessions m !! f, DirtyIndex.IsDirty (index m) f, fst <$> object st (objectKeyFromPath f)).

Definition fresh_manager : Manager := empty_manager three_tries empty_disk.

(** *** The delete that outlives its path *)

(** [f] is written and deleted while a sync claims it, so the sync worker is to
    complete the delete. *)
Definition deleted : Manager :=
  let m := (TryLockSync (created fresh_manager ten).1 f).1 in
  UnlockSync (RegisterPendingDelete m f 4).1 f.

(** The worker claims the path, drops what is staged and sends the delete; the
    path is created again, written, synced and closed before the delete takes
    effect. *)
Definition delayed_delete : Manager * store * option error * bool :=
  let '(m, go) := pendingDelete_claim deleted f in
  let '(m, a) := created m [x6e; x65; x77] in
  let m := ReleaseSession m f in
  let '(m, claimed) := TryLockSync m f in
  let '(m, st, err) := quiet_worker m empty_store in
  let st := (DeleteObject st (objectKeyFromPath f)).1 in
  (pendingDelete_finish m f None, st, err, go && claimed).

(** The claim that [processPendingDeletes] takes does not hold off
    uploads: dropping the staged bytes releases it.  A path created again after
    that is claimed, uploaded, marked clean and removed from the staging area by
    another worker without any error, and the delete, when it takes effect,
    removes the new file's object: nothing is left of a write that succeeded. *)
Theorem delayed_delete_loses_recreated_file :
  let '(m, st, err, both_claimed) := delayed_delete in
  both_claimed = true /\ err = None /\ left_of m st = (None, false, None).
Proof. vm_compute. auto. Qed.

(** *** The handle that outlives its file *)

(** A first handle is open when [f] is deleted; a second one creates it again,
    writes, and is synced up to the upload.  The second handle then writes once
    more, the first one is closed, the sync ends, and the second handle reports
    its write. *)
Definition stale_close : Manager * store * option error * option error :=
  let m := (created fresh_manager ten).1 in
  let m := ResolvePendingDelete (RegisterPendingDelete m f 4).1 f in
  let '(m, a) := created m [x6e; x65; x77] in
  let gen := sync_generation m f in
  match sync_snapshot m a with
  | (m, inr e) => (m, empty_store, None, Some e)
  | (m, inl s) =>
      let '(m, st, uploaded) := sync_upload m empty_store f a s (fun _ => false) (fun _ => true) in
      let '(m, written) := writes m a [x4e] in
      let m := ReleaseSession m f in
      let m := (markCleanIfUnchanged m f gen).1 in
      let m := sync_close (sync_cleanup m f a).1 a s in
      ((MarkDirty m f 3 9).1, st, written, uploaded)
  end.

(** Closing a handle releases whatever session its path has now.  When the
    file was deleted and created again since the handle was opened, that is the
    session of the new file's writer, which then counts as unused: the cleanup
    after a sync removes it under the writer, the write it accepted last is
    nowhere, and the next sync forgets the file. *)
Theorem stale_close_loses_write :
  let '(m, st, written, uploaded) := stale_close in
  written = None /\ uploaded = None /\
  left_of m st = (None, true, Some [x6e; x65; x77]) /\
  let '(m', st', err) := quiet_worker m st in
  err = None /\ left_of m' st' = (None, false, Some [x6e; x65; x77]).
Proof. vm_compute. auto 6. Qed.

(** *** The cancellation that failed *)

(** Opening [f] again cannot remove the tombstone's file: the first call on the
    disk fails and all others succeed. *)
Definition recreated : Manager * option error :=
  let '(m, a) := opened_by (set_disk (set_outcomes [Some 0%nat] (disk deleted)) deleted) in
  let '(m, err) := writes m a ten in
  ((MarkDirty m f 10 6).1, err).

(** [GetOrCreateSession] ignores that an accepted delete could not be
    withdrawn.  The path is opened, written and reported without error, and the
    worker's next pass over the accepted deletes discards the new file. *)
Theorem ignored_cancellation_discards_file :
  let '(m, written) := recreated in
  written = None /\ DirtyIndex.IsDirty (index m) f = true /\
  let '(m', st') := processPendingDeletes m empty_store in
  left_of m' st' = (None, false, None).
Proof. vm_compute. auto. Qed.

(** *** The claim released twice *)

(** A worker syncs [f] while it is open, which releases its claim; a second
    worker claims [f]; the first one, done, unlocks it. *)
Definition second_claim : bool * bool * bool :=
  let '(m, first) := TryLockSync (created fresh_manager ten).1 f in
  let m := (quiet_worker m empty_store).1.1 in
  let '(m, second) := TryLockSync m f in
  let m := UnlockSync m f in
  (first, second, DirtyIndex.IsSyncing (index m) f).

(** The claim on a path is not its holder's: marking a file clean releases
    it before its worker does, and the worker's own release then takes away the
    claim of whoever claimed the path in between. *)
Theorem claim_released_for_another : second_claim = (true, true, false).
Proof. vm_compute. reflexivity. Qed.

End SyncFindings.
