(* ===== verification/RenameSafety.v ===== *)
(** * A rename of a staged file happens or does not

    What [Rename.RenameStagedPath] leaves, whichever disk call fails. *)
From S2P Require Import Prelude GoPath StagingTypes Disk DirtyIndex PathState Session.
From S2P Require Import SessionSafety StagingManager StagingRename StagingRecovery ObjectStore.
From S2P Require Import SyncWorker SyncUpload SyncSafety.

Module RenameSafety.
Import Disk PathState Session Staging Rename SyncSafety.
Import SessionSafety(staged).
Import Recovery(stagingFilePath_inj).

Section Safety.
Context {PH : PathHash}.
Variables oldPath newPath : string.
Hypothesis distinct : oldPath <> newPath.

(** Nothing has moved: sessions and data files as they were, and the source's
    dirty entry with them. *)
Definition unmoved (m m' : Manager) : Prop :=
  quiet m m' /\ DirtyIndex.dirty (index m') !! oldPath = DirtyIndex.dirty (index m) !! oldPath.

Lemma quiet_trans m1 m2 m3 : quiet m1 m2 -> quiet m2 m3 -> quiet m1 m3.
Proof.
  intros [] []. split; try congruence. intros a w Ha. destruct (q_heap0 _ _ Ha) as (w2 & H2 & v & c & ->).
  destruct (q_heap1 _ _ H2) as (w3 & H3 & v' & c' & ->). exists (set_versions v' c' w). split; [done|].
  by exists v', c'.
Qed.

Lemma unmoved_refl m : unmoved m m.
Proof. split; [apply quiet_refl|done]. Qed.
Lemma unmoved_trans m1 m2 m3 : unmoved m1 m2 -> unmoved m2 m3 -> unmoved m1 m3.
Proof. intros [? ?] [? ?]. split; [by eapply quiet_trans|congruence]. Qed.
Lemma unmoved_quiet m m' : quiet m m' -> index m' = index m -> unmoved m m'.
Proof. intros Hq Hi. split; [done|by rewrite Hi]. Qed.
Lemma unmoved_disk m d : same_files (disk m) d -> unmoved m (set_disk d m).
Proof. intros [o ->]. apply unmoved_quiet; [by apply quiet_disk; [apply quiet_refl|..]|done]. Qed.
Lemma unmoved_targets m f : unmoved m (set_renameTargets f m).
Proof. split; [|done]. split; try done. intros a w Ha. exists w. split; [done|apply same_session_refl]. Qed.
Lemma unmoved_sidecar m mp st d' st' err :
  writePathMetadataState (disk m) mp st = (d', st', err) -> unmoved m (set_disk d' m).
Proof. intros Hw. apply unmoved_quiet; [|done]. by eapply write_sidecar_quiet; [apply quiet_refl|]. Qed.
Lemma unmoved_remove_sidecar m mp d' err : remove_sidecar (disk m) mp = (d', err) -> unmoved m (set_disk d' m).
Proof.
  unfold remove_sidecar. destruct (os_try (disk m)) as [d1 [e1|]] eqn:E; apply os_try_same in E as [o ->].
  - intros [= <- <-]. apply unmoved_disk. by eexists.
  - simpl. destruct (sidecars (disk m) !! mp); intros [= <- <-]; apply unmoved_quiet; try done;
      by apply quiet_disk; [apply quiet_refl|..].
Qed.
Lemma unmoved_told m a : unmoved m (update a metadataChanged m).
Proof. split; [|done]. apply quiet_metadataChanged, quiet_refl. Qed.
Lemma unmoved_index m i :
  DirtyIndex.dirty i !! oldPath = DirtyIndex.dirty (index m) !! oldPath -> unmoved m (set_index i m).
Proof. intros Hd. split; [apply quiet_index, quiet_refl|done]. Qed.
Lemma unmoved_invalidate m : unmoved m (set_index (DirtyIndex.Invalidate (index m) newPath) m).
Proof.
  apply unmoved_index. unfold DirtyIndex.Invalidate. destruct (DirtyIndex.dirty (index m) !! newPath); [|done].
  simpl. by rewrite lookup_insert_ne.
Qed.
Lemma unmoved_unrecorded m : unmoved m (set_index (DirtyIndex.MarkUnrecorded (index m) newPath) m).
Proof. apply unmoved_index. simpl. by rewrite lookup_alter_ne. Qed.
Lemma unmoved_end m : unmoved m (endRenameOnto m newPath).
Proof. apply unmoved_targets. Qed.

Lemma unmoved_restore m mp replaced now :
  unmoved m (restorePathMetadata m newPath mp replaced now).
Proof.
  unfold restorePathMetadata.
  match goal with |- context [let '(_, _) := ?x in _] => destruct x as [d err] eqn:E end.
  assert (unmoved m (set_disk d m)) as H1.
  { destruct replaced as [st|].
    - destruct (writePathMetadataState _ _ _) as [[d2 st2] e2] eqn:Ew. injection E as <- <-.
      by eapply unmoved_sidecar.
    - destruct (remove_sidecar _ _) as [d2 e2] eqn:Er. apply unmoved_remove_sidecar in Er.
      destruct e2; by injection E as <- <-. }
  set (m1 := if _ && _ then _ else _).
  assert (unmoved m m1) as H2.
  { unfold m1. destruct (_ && _); [|done]. destruct (recordDirtyPathLocked _ _ _ _) as [m2 r2] eqn:Er.
    apply recordDirty_quiet in Er as (Hq & Hi & _).
    assert (unmoved m m2) by (eapply unmoved_trans; [exact H1|by apply unmoved_quiet]).
    destruct r2; [done|]. eapply unmoved_trans; [done|apply unmoved_unrecorded]. }
  destruct (sessionAt m newPath); [|done]. eapply unmoved_trans; [exact H2|apply unmoved_told].
Qed.

Lemma attributes_same m oldStaging d attrs :
  renamedAttributes m oldPath oldStaging = (d, attrs) -> same_files (disk m) d.
Proof.
  unfold renamedAttributes. destruct (sessionAttributes m oldPath); [intros [= <- <-]; apply same_files_refl|].
  destruct (readPathMetadataState _ _) as [d1 [st|e]] eqn:Er; intros [= <- <-]; by eapply read_same.
Qed.

(** The source as the rename finds it. *)
Record source (m : Manager) (a : positive) (w : WriteSession) (file : positive) : Prop := mkSource {
  sr_session : sessions m !! oldPath = Some a;
  sr_heap : heap m !! a = Some w;
  sr_staging : w_StagingPath w = stagingFilePath m oldPath;
  sr_file : w_File w = Some file;
  sr_data : data (disk m) !! stagingFilePath m oldPath = Some file;
  sr_inode : is_Some (inodes (disk m) !! file);
  sr_other : sessions m !! newPath <> Some a
}.

Lemma source_unmoved m m' a w file :
  source m a w file -> unmoved m m' -> exists w', source m' a w' file /\ same_session w w'.
Proof.
  intros [] [[] _]. destruct (q_heap0 _ _ sr_heap0) as (w' & Hw' & Hs). exists w'. split; [|done].
  assert (forall p, stagingFilePath m' p = stagingFilePath m p) as Hsp
    by (intros q; unfold stagingFilePath; by rewrite q_config0).
  destruct Hs as (v & c & ->). split; rewrite ?Hsp; simpl; try congruence.
Qed.

(** The move: refused, or the bytes are under the new name. *)
Lemma move_cases m a w file m' err :
  source m a w file -> rename_move m oldPath newPath = (m', err) ->
  (exists e, err = Some e /\ IsNotExist e = false /\ unmoved m m') \/
  err = None /\ config m' = config m /\ sessions m' = sessions m /\ index m' = index m /\
    heap m' = <[a := renamed (w_Path w) (stagingFilePath m newPath) w]> (heap m) /\
    inodes (disk m') = inodes (disk m) /\
    data (disk m') = delete (stagingFilePath m oldPath)
      (<[stagingFilePath m newPath := file]> (data (disk m))).
Proof.
  intros []. unfold rename_move, moveStagingFile, rename_data, deref. rewrite sr_session0, sr_heap0.
  assert (stagingFilePath m oldPath <> stagingFilePath m newPath) as Hne
    by (by intros ?%stagingFilePath_inj).
  destruct (os_try (disk m)) as [d1 [e1|]] eqn:E1.
  - unfold os_try in E1. destruct (os_call (disk m)) as [d2 [n|]] eqn:E2; [|done]. injection E1 as <- <-.
    intros [= <- <-]. left. eexists. split_and!; [done|done|]. apply os_call_same in E2.
    eapply unmoved_trans; [by apply unmoved_disk|]. split; [|done]. rewrite put_same by done. apply quiet_refl.
  - apply os_try_same in E1 as [o ->]. simpl. rewrite sr_data0, decide_False by done.
    intros [= <- <-]. right. by split_and!.
Qed.

(** The destination as the rename leaves it: the source's session, file and
    entry, under the new path. *)
Record destination (m : Manager) (a file : positive) : Prop := mkDestination {
  ds_session : sessions m !! newPath = Some a /\ sessions m !! oldPath = None;
  ds_heap : exists w, heap m !! a = Some w /\ w_Path w = newPath /\
    w_StagingPath w = stagingFilePath m newPath /\ w_File w = Some file;
  ds_data : data (disk m) !! stagingFilePath m newPath = Some file /\
    data (disk m) !! stagingFilePath m oldPath = None;
  ds_dirty : DirtyIndex.IsDirty (index m) newPath = true /\ DirtyIndex.IsDirty (index m) oldPath = false
}.

Lemma rekey_destination m a w file now :
  sessions m !! oldPath = Some a -> sessions m !! newPath <> Some a -> heap m !! a = Some w ->
  w_File w = Some file -> data (disk m) !! stagingFilePath m newPath = Some file ->
  data (disk m) !! stagingFilePath m oldPath = None ->
  destination (rename_rekey m oldPath newPath now) a file.
Proof.
  intros Hs Hne Hw Hf Hd Ho. unfold rename_rekey.
  set (m1 := match sessions m !! newPath with Some _ => _ | None => m end).
  assert (sessions m1 !! oldPath = Some a /\ heap m1 !! a = Some w /\ disk m1 = disk m /\
    config m1 = config m) as (Hs1 & Hw1 & Hd1 & Hc1).
  { unfold m1. destruct (sessions m !! newPath) as [dest|]; [|done]. simpl.
    rewrite lookup_delete_ne, lookup_alter_ne by congruence. done. }
  assert (forall q, stagingFilePath m1 q = stagingFilePath m q) as Hsp
    by (intros q; unfold stagingFilePath; by rewrite Hc1).
  rewrite Hs1. split; simpl.
  - by rewrite lookup_insert_eq, lookup_insert_ne, lookup_delete_eq.
  - exists (renamed newPath (stagingFilePath m newPath) w). rewrite lookup_alter_eq, Hw1. split_and!; try done.
    simpl. by rewrite <-Hsp.
  - rewrite Hd1. by rewrite <-!Hsp in Hd, Ho.
  - unfold DirtyIndex.IsDirty. simpl. rewrite lookup_insert_eq, lookup_insert_ne, lookup_delete_eq by done.
    split; [by apply bool_decide_eq_true_2|]. apply bool_decide_eq_false_2. by intros [].
Qed.

(** From the move on. *)
Lemma finish_destination m a w file m1 now :
  source m a w file -> rename_move m oldPath newPath = (m1, None) ->
  let '(m2, _) := addTombstone m1 oldPath now in
  let '(d, _) := remove_sidecar (disk m2) (pathMetadataPath (stagingFilePath m oldPath)) in
  destination (endRenameOnto (rename_rekey (set_disk d m2) oldPath newPath now) newPath) a file /\
  inodes d = inodes (disk m).
Proof.
  intros Hsrc Hm. destruct (move_cases _ _ _ _ _ _ Hsrc Hm) as [(e & ? & _)|(_ & Hc & Hs & Hi & Hh & Hin & Hd)]; [done|].
  destruct (addTombstone m1 oldPath now) as [m2 t] eqn:Et. apply addTombstone_quiet in Et as [Hq2 _].
  destruct (remove_sidecar (disk m2) _) as [d e] eqn:Er. apply unmoved_remove_sidecar in Er as [Hq3 _].
  pose proof (quiet_trans _ _ _ Hq2 Hq3) as [Hc4 Hs4 _ Hh4 Hd4 Hi4]. pose proof Hsrc as [].
  assert (stagingFilePath m oldPath <> stagingFilePath m newPath) as Hne by (by intros ?%stagingFilePath_inj).
  destruct (Hh4 a (renamed (w_Path w) (stagingFilePath m newPath) w)) as (w4 & Hw4 & v & c & ->).
  { by rewrite Hh, lookup_insert_eq. }
  assert (forall q, stagingFilePath (set_disk d m2) q = stagingFilePath m q) as Hsp
    by (intros q; unfold stagingFilePath; by rewrite Hc4, Hc).
  split; [|simpl in Hi4; congruence].
  destruct (rekey_destination (set_disk d m2) a
    (set_versions v c (renamed (w_Path w) (stagingFilePath m newPath) w)) file now) as [H1 H2 H3 H4].
  - by rewrite Hs4, Hs.
  - by rewrite Hs4, Hs.
  - done.
  - done.
  - rewrite Hd4, Hd, Hsp, lookup_delete_ne, lookup_insert_eq by done. done.
  - rewrite Hd4, Hd, Hsp. apply lookup_delete_eq.
  - by split.
Qed.

Lemma rename_cases m a w file now m' err :
  source m a w file -> RenameStagedPath m oldPath newPath now = (m', err) ->
  err <> None /\ unmoved m m' \/
  err = None /\ destination m' a file /\ inodes (disk m') = inodes (disk m).
Proof.
  intros Hsrc. unfold RenameStagedPath. destruct (_ || _); [intros [= <- <-]; left; split; [done|apply unmoved_refl]|].
  pose proof Hsrc as [_ _ _ _ Hfile [i Hi] _]. unfold stat_data.
  destruct (os_try (disk m)) as [d1 [e1|]] eqn:E1.
  { unfold os_try in E1. destruct (os_call (disk m)) as [d2 [n|]] eqn:E2; [|done]. injection E1 as <- <-.
    apply os_call_same in E2. intros [= <- <-]. left. split; [done|by apply unmoved_disk]. }
  pose proof (unmoved_disk m d1 (os_try_same _ _ _ E1)) as H1. apply os_try_same in E1 as [o ->]. simpl.
  rewrite Hfile, Hi. set (m2 := beginRenameOnto _ newPath).
  assert (unmoved m m2) as H2 by (eapply unmoved_trans; [exact H1|apply unmoved_targets]).
  destruct (CancelPendingDelete m2 newPath) as [m3 b3] eqn:E3. apply removeTombstone_quiet in E3 as [Hq3 Hi3].
  assert (unmoved m m3) as H3 by (eapply unmoved_trans; [exact H2|by apply unmoved_quiet]).
  destruct (renamedAttributes m3 oldPath _) as [d4 attrs] eqn:E4. apply attributes_same in E4.
  destruct (readPathMetadataState d4 _) as [d5 old] eqn:E5. apply read_same in E5.
  set (m6 := set_index _ (set_disk d5 m3)).
  assert (unmoved m m6) as H6.
  { eapply unmoved_trans; [exact H3|]. eapply unmoved_trans; [apply unmoved_disk; by eapply same_files_trans|].
    apply (unmoved_invalidate (set_disk d5 m3)). }
  match goal with |- context [readPathMetadataState ?d ?mp] =>
    destruct (readPathMetadataState d mp) as [d7 r7] eqn:E7 end. apply read_same in E7.
  assert (unmoved m (set_disk d7 m6)) as H7 by (eapply unmoved_trans; [exact H6|by apply unmoved_disk]).
  destruct (writePathMetadataState d7 _ _) as [[d8 st8] e8] eqn:E8.
  apply (unmoved_sidecar (set_disk d7 m6)) in E8.
  assert (unmoved m (set_disk d8 m6)) as H8 by (eapply unmoved_trans; [exact H7|exact E8]).
  destruct e8 as [e8|].
  { intros [= <- <-]. left. split; [done|]. eapply unmoved_trans; [exact H8|apply unmoved_end]. }
  destruct (source_unmoved _ _ _ _ _ Hsrc H8) as (w8 & Hsrc8 & _).
  destruct (rename_move (set_disk d8 m6) oldPath newPath) as [m9 e9] eqn:E9. destruct e9 as [e9|].
  - destruct (move_cases _ _ _ _ _ _ Hsrc8 E9) as [(e & [= <-] & Hne & H9)|[? _]]; [|done].
    rewrite Hne. intros [= <- <-]. left. split; [done|].
    eapply unmoved_trans; [exact H8|]. eapply unmoved_trans; [exact H9|].
    eapply unmoved_trans; [apply unmoved_restore|apply unmoved_end].
  - pose proof (finish_destination _ _ _ _ _ now Hsrc8 E9) as Hfin.
    assert (stagingFilePath (set_disk d8 m6) oldPath = stagingFilePath m oldPath) as Hsp.
    { unfold stagingFilePath. by rewrite (q_config _ _ (proj1 H8)). }
    rewrite Hsp in Hfin. destruct (addTombstone m9 oldPath now) as [m10 t].
    destruct (remove_sidecar (disk m10) _) as [d11 e11]. intros [= <- <-]. right.
    destruct Hfin as [Hd Hin]. split_and!; [done|done|]. destruct H8 as [[_ _ _ _ _ Hi8] _].
    transitivity (inodes d11); [|by rewrite Hin]. unfold rename_rekey, endRenameOnto. simpl.
    by repeat case_match.
Qed.

End Safety.

(** C18. A rename of a dirty file happens entirely or not at all.  Whichever disk
    call fails: when it reports success, the session, the staged bytes and the
    dirty entry are the destination's and nothing of them is the source's any
    more; when it reports an error, sessions, staged files and the source's dirty
    entry are what they were.  No staged byte changes either way. *)
Theorem rename_all_or_nothing `{PathHash} oldPath newPath m a w file now m' err :
  oldPath <> newPath -> source oldPath newPath m a w file ->
  RenameStagedPath m oldPath newPath now = (m', err) ->
  inodes (disk m') = inodes (disk m) /\
  match err with
  | None => destination oldPath newPath m' a file
  | Some _ => unmoved oldPath m m'
  end.
Proof.
  intros Hne Hsrc Hr. destruct (rename_cases _ _ Hne _ _ _ _ _ _ _ Hsrc Hr) as [[He [Hq Hd]]|(-> & Hd & Hi)].
  - destruct err; [|done]. split; [apply (q_inodes _ _ Hq)|by split].
  - done.
Qed.

#[local] Instance name_hash : PathHash := {| path_hash := fun s => s; path_hash_inj := fun x y H => H |}.

(** Two files, both written and dirty. *)
Definition wrote (m : Manager) (path : string) (b : bytes) : Manager :=
  match GetOrCreateSession m path 1 with
  | (m, inl a) =>
      match heap m !! a with
      | Some w => let r := write_persisting (disk m) w b 0 2 in
                  (MarkDirty (put a r.1.2 (set_disk r.1.1 m)) path (len b) 3).1
      | None => m
      end
  | (m, inr _) => m
  end.
Definition two_files : Manager :=
  wrote (wrote (mkManager SyncUpload.three_tries ∅ ∅ DirtyIndex.NewDirtyFileIndex ∅ 0 false ∅ empty_disk)
           "/old" [x6f; x6c; x64]) "/new" [x6e; x65; x77].
Definition old_session : WriteSession := default SessionSafety.opened.2 (heap two_files !! 1%positive).

Lemma two_files_source : source "/old" "/new" two_files 1 old_session 1.
Proof.
  split; [vm_compute; reflexivity..| |vm_compute; congruence]. vm_compute. by eexists.
Qed.

(** Renamed over the other file, whose bytes are replaced. *)
Lemma rename_all_or_nothing_witness :
  let r := RenameStagedPath two_files "/old" "/new" 4 in
  r.2 = None /\ inodes (disk r.1) = inodes (disk two_files) /\
  match r.2 with
  | None => destination "/old" "/new" r.1 1 1
  | Some _ => unmoved "/old" two_files r.1
  end.
Proof.
  intros r. split; [vm_compute; reflexivity|].
  apply (rename_all_or_nothing "/old" "/new" two_files 1 old_session 1 4 r.1 r.2).
  - done.
  - apply two_files_source.
  - apply surjective_pairing.
Defined.

End RenameSafety.
