(* ===== verification/Lease.v ===== *)
(** * The bucket lease ([internal/ha/lease.go])

    One gateway owns one bucket: it keeps a lease object renewed, refuses to
    start while another gateway's lease is fresh, and stops serving once it can
    no longer prove it holds the lease.  Calls to the object store are steps of
    their own; each says how it ends.  The lease is kept decoded ([None] is one
    that does not decode). *)
From S2P Require Import Prelude.

Module Lease.

Record lease := mkLease {
  HolderID : string;
  Hostname : string;
  Epoch : Z;
  AcquiredAt : Time;
  RenewedAt : Time
}.
#[global] Instance lease_eq_dec : EqDecision lease.
Proof. solve_decision. Defined.

Inductive lease_error := NotExist | Unreachable | QuotaExceeded | LeaseHeld (by_lease : lease) | Unverified.

(** The lease object: absent, or there and maybe undecodable. *)
Definition bucket : Type := option (option lease).

(** How a call to the store ends; a write that fails may have taken effect. *)
Inductive call := Done | Lost (applied : bool) | OverQuota.

Inductive loss := Taken (by_lease : lease) | Failing (since : Duration).

Record Manager := mkManager {
  holderID : string;
  hostname : string;
  heartbeatInterval : Duration;
  leaseTimeout : Duration;
  lastRenewed : Time;
  current : lease;
  lost : option loss
}.

(** [readLease]. *)
Definition readLease (b : bucket) (reachable : bool) : lease + lease_error :=
  if negb reachable then inr Unreachable
  else match b with
       | Some (Some l) => inl l
       | Some None | None => inr NotExist
       end.

Definition renewed (now : Time) (l : lease) : lease :=
  mkLease (HolderID l) (Hostname l) (Epoch l) (AcquiredAt l) now.

Definition set_current (l : lease) (m : Manager) : Manager :=
  mkManager (holderID m) (hostname m) (heartbeatInterval m) (leaseTimeout m) (lastRenewed m) l (lost m).
Definition set_lastRenewed (t : Time) (m : Manager) : Manager :=
  mkManager (holderID m) (hostname m) (heartbeatInterval m) (leaseTimeout m) t (current m) (lost m).

(** [writeLease] at [now]. *)
Definition writeLease (m : Manager) (b : bucket) (now : Time) (c : call)
    : Manager * bucket * option lease_error :=
  let l := renewed now (current m) in
  let m := set_current l m in
  match c with
  | Done => (set_lastRenewed now m, Some (Some l), None)
  | Lost applied => (m, if applied then Some (Some l) else b, Some Unreachable)
  | OverQuota => (m, b, Some QuotaExceeded)
  end.

(** [reportLoss]: once. *)
Definition reportLoss (m : Manager) (l : loss) : Manager :=
  mkManager (holderID m) (hostname m) (heartbeatInterval m) (leaseTimeout m) (lastRenewed m) (current m)
    (match lost m with None => Some l | Some x => Some x end).

(** [takenBy]. *)
Definition takenBy (m : Manager) (c : lease) : bool :=
  if decide (HolderID c = holderID m) then false
  else negb (bool_decide (Hostname c = hostname m) && (Epoch c <? Epoch (current m))).

(** [renewFailingFor]. *)
Definition renewFailingFor (m : Manager) (now : Time) : Duration :=
  if IsZero (lastRenewed m) then 0 else time_Sub now (lastRenewed m).

(** [leaseFromSameHost]. *)
Definition leaseFromSameHost (holder host : string) : bool :=
  (Z.of_nat (String.length host) <? Z.of_nat (String.length holder)) && HasPrefix holder host.

(** The marker: the host name it holds, if it can be read. *)
Definition localMarkerPresent (m : Manager) (marker : option string) : bool :=
  bool_decide (marker = Some (hostname m)).
Definition localMarkerMatches (m : Manager) (marker : option string) (holder : string) : bool :=
  bool_decide (marker = Some (hostname m)) && negb (bool_decide (holder = "")) &&
  leaseFromSameHost holder (hostname m).

(** The manager [Acquire] starts from. *)
Definition new_manager (host holder : string) (interval timeout : Duration) : Manager :=
  mkManager holder host (if interval <=? 0 then 15 * Second else interval)
    (if timeout <=? 0 then 60 * Second else timeout) 0 (mkLease "" "" 0 0 0) None.

(** Whether [Acquire] may go on after its first read, and from which epoch. *)
Definition may_acquire (m : Manager) (marker : option string) (force : bool) (now : Time)
    (r : lease + lease_error) : Z + lease_error :=
  match r with
  | inr NotExist => inl 0
  | inr _ => if negb (localMarkerPresent m marker) && negb force then inr Unverified else inl 0
  | inl c =>
      let fresh := time_Sub now (RenewedAt c) <? leaseTimeout m in
      if fresh && negb force && negb (localMarkerMatches m marker (HolderID c)) then inr (LeaseHeld c)
      else inl (Epoch c)
  end.

(** [lostAcquireRace]. *)
Definition lostAcquireRace (m : Manager) (b : bucket) (reachable : bool) : option lease :=
  match readLease b reachable with
  | inl c => if decide (HolderID c = holderID m) then None else Some c
  | inr _ => None
  end.

(** How writing the marker ends: a failed write may leave anything in the file. *)
Inductive marker_call := Written | DirFailed | FileFailed (kept : option string).

(** [writeLocalMarker]. *)
Definition writeLocalMarker (m : Manager) (marker : option string) (c : marker_call) : option string :=
  match c with Written => Some (hostname m) | DirFailed => marker | FileFailed kept => kept end.

(** The second half of [Acquire]: write the lease and read it back.  [between]
    is what other gateways do to the bucket between the write and the read. *)
Definition finish_acquire (m : Manager) (b : bucket) (marker : option string) (force : bool) (now : Time)
    (epoch : Z) (w : call) (between : bucket -> bucket) (reachable : bool) (mc : marker_call)
    : bucket * option string * (Manager + lease_error) :=
  let m := set_lastRenewed now
    (set_current (mkLease (holderID m) (hostname m) ((epoch + 1) mod 2 ^ 64) now now) m) in
  match writeLease m b now w with
  | (m, b, Some e) =>
      if negb (localMarkerPresent m marker) && negb force then (b, marker, inr e)
      else (b, writeLocalMarker m marker mc, inl m)
  | (m, b, None) =>
      let b := between b in
      match lostAcquireRace m b reachable with
      | Some winner => (b, marker, inr (LeaseHeld winner))
      | None => (b, writeLocalMarker m marker mc, inl m)
      end
  end.

(** What [Acquire] meets: the clock, the marker, how its calls end. *)
Record start := mkStart {
  s_host : string; s_holder : string; s_interval : Duration; s_timeout : Duration; s_force : bool;
  s_marker : option string; s_now : Time; s_read : bool; s_write : call;
  s_between : bucket -> bucket; s_readback : bool; s_mark : marker_call
}.

(** [Acquire]. *)
Definition Acquire (s : start) (b : bucket) : bucket * option string * (Manager + lease_error) :=
  let m := new_manager (s_host s) (s_holder s) (s_interval s) (s_timeout s) in
  match may_acquire m (s_marker s) (s_force s) (s_now s) (readLease b (s_read s)) with
  | inr e => (b, s_marker s, inr e)
  | inl epoch => finish_acquire m b (s_marker s) (s_force s) (s_now s) epoch (s_write s) (s_between s)
                   (s_readback s) (s_mark s)
  end.

Definition quotaRecheckInterval : Duration := 2 * Second.

(** The renewal of a heartbeat; [untaken]: the read showed that the lease is not
    another's.  The duration is when the loop looks again. *)
Definition renew (m : Manager) (b : bucket) (untaken : bool) (now : Time) (w : call)
    : Manager * bucket * Duration :=
  match writeLease m b now w with
  | (m, b, None) => (m, b, heartbeatInterval m)
  | (m, b, Some err) =>
      if match err with QuotaExceeded => true | _ => false end && untaken
      then (set_lastRenewed now m, b, Z.min quotaRecheckInterval (heartbeatInterval m))
      else
        let failingFor := renewFailingFor m now in
        (if leaseTimeout m <? failingFor then reportLoss m (Failing failingFor) else m,
         b, heartbeatInterval m)
  end.

(** One heartbeat after its read, which may be out of date by now. *)
Definition heartbeat_write (m : Manager) (b : bucket) (r : lease + lease_error) (now : Time) (w : call)
    : Manager * bucket * Duration :=
  match r with
  | inl c => if takenBy m c then (reportLoss m (Taken c), b, heartbeatInterval m) else renew m b true now w
  | inr NotExist => renew m b true now w
  | inr _ => renew m b false now w
  end.

Definition heartbeat (m : Manager) (b : bucket) (now : Time) (reachable : bool) (w : call)
    : Manager * bucket * Duration :=
  heartbeat_write m b (readLease b reachable) now w.

(** [Release], after the heartbeat has stopped. *)
Definition Release (m : Manager) (b : bucket) (reachable : bool) (deleted : call) : bucket :=
  let delete (b : bucket) := match deleted with Done => None | Lost true => None | _ => b end in
  match readLease b reachable with
  | inl c => if decide (HolderID c = holderID m) then delete b else b
  | inr _ => delete b
  end.

(** Name the manager a start returns. *)
Ltac pick_result :=
  match goal with
  | |- exists _, (_, _, inl ?m) = _ /\ _ => by exists m
  | |- exists _, inl ?m = _ /\ _ => by exists m
  end.

(** ** Starting *)

(** The default and configured timeouts are positive. *)
Lemma new_manager_timeout host holder interval timeout :
  0 < leaseTimeout (new_manager host holder interval timeout).
Proof. unfold new_manager. simpl. zcases; unfold Second, Millisecond; lia. Qed.

(** The timeout a gateway is started with. *)
Definition started_timeout (s : start) : Duration := if s_timeout s <=? 0 then 60 * Second else s_timeout s.

(** The lease was left by a process of the host the marker names. *)
Definition own_lease (s : start) (c : lease) : Prop :=
  s_marker s = Some (s_host s) /\ HolderID c <> "" /\ leaseFromSameHost (HolderID c) (s_host s) = true.

(** When a gateway may take the bucket without being forced to: it reads no fresh
    lease of another, or cannot read and has held the bucket before. *)
Definition entitled (s : start) (b : bucket) : Prop :=
  if s_read s
  then forall c, b = Some (Some c) ->
         started_timeout s <= time_Sub (s_now s) (RenewedAt c) \/ own_lease s c
  else s_marker s = Some (s_host s).

Definition started_from (s : start) (b : bucket) : Z + lease_error :=
  may_acquire (new_manager (s_host s) (s_holder s) (s_interval s) (s_timeout s)) (s_marker s) (s_force s)
    (s_now s) (readLease b (s_read s)).

(** The epoch the next lease follows. *)
Definition previous_epoch (s : start) (b : bucket) : Z :=
  match readLease b (s_read s) with inl c => Epoch c | inr _ => 0 end.

Lemma localMarkerMatches_own s c :
  localMarkerMatches (new_manager (s_host s) (s_holder s) (s_interval s) (s_timeout s)) (s_marker s)
    (HolderID c) = true <-> own_lease s c.
Proof. unfold localMarkerMatches, own_lease, new_manager. simpl. bool_to_prop. tauto. Qed.

Lemma may_acquire_entitled s b :
  s_force s = false -> (entitled s b <-> started_from s b = inl (previous_epoch s b)).
Proof.
  intros Hf. unfold entitled, started_from, previous_epoch, may_acquire, readLease, localMarkerPresent.
  rewrite Hf. destruct (s_read s); simpl.
  2: { rewrite andb_true_r. case_bool_decide; simpl; naive_solver. }
  destruct b as [[c|]|]; [|naive_solver..].
  rewrite andb_true_r. fold (started_timeout s). pose proof (localMarkerMatches_own s c) as Hown.
  destruct (_ <? _) eqn:E, (localMarkerMatches _ _ _); simpl; bool_to_prop;
    split; intros H; try done; try intros c' [= <-]; auto; try tauto.
  - destruct (H c eq_refl) as [?|?%Hown]; [lia|done].
Qed.

Lemma started_from_shape s b e : started_from s b = inl e -> e = previous_epoch s b.
Proof.
  unfold started_from, may_acquire, previous_epoch.
  destruct (readLease b (s_read s)) as [c|[]]; simpl; repeat case_match; naive_solver.
Qed.

(** A gateway that has not been told to stop. *)
Definition serving (m : Manager) : bool := match lost m with None => true | Some _ => false end.

(** [Acquire] without force starts a gateway exactly when the bucket's lease
    allows it.  Refused, it leaves the bucket and the marker as they were;
    entitled, and with a store that takes the write, it serves with a lease of
    the next epoch that is in the bucket. *)
Theorem acquire_respects_lease (s : start) (b : bucket) (Hf : s_force s = false) :
  (~ entitled s b -> exists e, Acquire s b = (b, s_marker s, inr e)) /\
  (entitled s b -> s_write s = Done -> s_between s = id ->
   exists m, Acquire s b = (Some (Some (current m)), writeLocalMarker m (s_marker s) (s_mark s), inl m) /\
     current m = mkLease (s_holder s) (s_host s) ((previous_epoch s b + 1) mod 2 ^ 64) (s_now s) (s_now s) /\
     lastRenewed m = s_now s /\ leaseTimeout m = started_timeout s /\ serving m = true).
Proof.
  pose proof (may_acquire_entitled s b Hf) as He. unfold Acquire. fold (started_from s b). split.
  - intros Hn. destruct (started_from s b) as [e|e] eqn:E; [|eauto].
    exfalso. apply Hn, He. by rewrite <-(started_from_shape _ _ _ E).
  - intros ->%He Hw Hb. unfold finish_acquire, lostAcquireRace, readLease. rewrite Hw, Hb. simpl.
    destruct (s_readback s); simpl; [rewrite decide_True by done|];
      pick_result.
Qed.

(** ** Heartbeats *)

Lemma renew_identity m b u now w m' b' d :
  renew m b u now w = (m', b', d) ->
  holderID m' = holderID m /\ hostname m' = hostname m /\ leaseTimeout m' = leaseTimeout m /\
  HolderID (current m') = HolderID (current m) /\ Hostname (current m') = Hostname (current m) /\
  Epoch (current m') = Epoch (current m).
Proof.
  unfold renew, writeLease. destruct w as [|[]|]; simpl; [by intros [= <- <- <-]|..];
    repeat case_match; by intros [= <- <- <-].
Qed.

(** Whoever goes on serving after a heartbeat has renewed its lease in it, was
    refused only for the bucket's quota, or renewed it within the timeout. *)
Lemma renew_serving m b u now w m' b' d :
  renew m b u now w = (m', b', d) -> serving m' = true ->
  serving m = true /\
  (w = Done /\ b' = Some (Some (current m')) /\ lastRenewed m' = now \/
   w = OverQuota /\ u = true /\ b' = b /\ lastRenewed m' = now \/
   w <> Done /\ lastRenewed m' = lastRenewed m /\ renewFailingFor m now <= leaseTimeout m).
Proof.
  unfold renew, writeLease, serving. destruct w as [|applied|]; simpl.
  - intros [= <- <- <-]. simpl. auto.
  - destruct (leaseTimeout m <? _) eqn:E; intros [= <- <- <-]; simpl.
    + by destruct (lost m).
    + bool_to_prop. intros ->. split; [done|]. right. right. done.
  - destruct u; simpl.
    + intros [= <- <- <-]. simpl. intros ->. split; [done|]. by right; left.
    + destruct (leaseTimeout m <? _) eqn:E; intros [= <- <- <-]; simpl.
      * by destruct (lost m).
      * bool_to_prop. intros ->. split; [done|]. right. right. done.
Qed.

Lemma heartbeat_identity m b now reachable w m' b' d :
  heartbeat m b now reachable w = (m', b', d) ->
  holderID m' = holderID m /\ hostname m' = hostname m /\ leaseTimeout m' = leaseTimeout m /\
  HolderID (current m') = HolderID (current m) /\ Hostname (current m') = Hostname (current m) /\
  Epoch (current m') = Epoch (current m).
Proof.
  unfold heartbeat, heartbeat_write. destruct (readLease b reachable) as [c|[]]; [|eauto using renew_identity..].
  destruct (takenBy m c); [|eauto using renew_identity]. by intros [= <- <- <-].
Qed.

(** A heartbeat never makes a fenced gateway serve again. *)
Lemma heartbeat_serving m b now reachable w m' b' d :
  heartbeat m b now reachable w = (m', b', d) -> serving m' = true ->
  exists u, renew m b u now w = (m', b', d) /\
    (u = true -> reachable = true) /\
    (forall c, reachable = true -> b = Some (Some c) -> takenBy m c = false).
Proof.
  unfold heartbeat, heartbeat_write, readLease. destruct reachable; simpl.
  - destruct b as [[c|]|]; [|intros H _; exists true; by repeat split; try intros ? _ ?..].
    destruct (takenBy m c) eqn:E.
    + intros [= <- <- <-]. unfold serving. simpl. by destruct (lost m).
    + intros H _. exists true. split; [done|]. split; [done|]. by intros ? _ [= <-].
  - intros H _. by exists false.
Qed.

(** *** Losing touch with the store *)

(** One turn of the heartbeat loop: what it finds and how its calls end. *)
Record turn := mkTurn { t_bucket : bucket; t_now : Time; t_read : bool; t_write : call }.

Definition take_turn (m : Manager) (t : turn) : Manager :=
  (heartbeat m (t_bucket t) (t_now t) (t_read t) (t_write t)).1.1.

(** The turn proves nothing: its write fails, and not for a quota that a lease
    just read would outlast. *)
Definition unproven (t : turn) : Prop :=
  match t_write t with Done => False | Lost _ => True | OverQuota => t_read t = false end.

Lemma take_turn_unproven m t :
  unproven t -> serving (take_turn m t) = true ->
  serving m = true /\ lastRenewed (take_turn m t) = lastRenewed m /\
  leaseTimeout (take_turn m t) = leaseTimeout m /\ renewFailingFor m (t_now t) <= leaseTimeout m.
Proof.
  unfold take_turn, unproven. intros Hu Hs.
  destruct (heartbeat _ _ _ _ _) as [[m' b'] d] eqn:E. simpl in *.
  destruct (heartbeat_identity _ _ _ _ _ _ _ _ E) as (_ & _ & Ht & _).
  destruct (heartbeat_serving _ _ _ _ _ _ _ _ E Hs) as (u & Hr & Hread & _).
  destruct (renew_serving _ _ _ _ _ _ _ _ Hr Hs) as (Hm & [(Hw & _)|[(Hw & Hut & _)|(_ & Hl & Hf)]]).
  - by rewrite Hw in Hu.
  - rewrite Hw in Hu. apply Hread in Hut. congruence.
  - done.
Qed.

(** A gateway that cannot prove it still holds its lease stops: whatever it
    finds in the bucket, if none of its turns proves anything and one of them
    comes more than the lease timeout after its last renewal, it is fenced. *)
Theorem silent_gateway_is_fenced (m : Manager) (turns : list turn)
    (Hstart : lastRenewed m <> 0) (Hsilent : Forall unproven turns)
    (Hlate : Exists (fun t => leaseTimeout m < time_Sub (t_now t) (lastRenewed m)) turns) :
  serving (foldl take_turn m turns) = false.
Proof.
  assert (Hdead : forall ts m, Forall unproven ts -> serving m = false -> serving (foldl take_turn m ts) = false).
  { induction ts as [|t ts IH]; [done|]. intros m0 [Hu Hus]%Forall_cons Hm. simpl. apply IH; [done|].
    destruct (serving (take_turn m0 t)) eqn:E; [|done].
    destruct (take_turn_unproven _ _ Hu E). congruence. }
  revert m Hstart Hlate. induction turns as [|t ts IH]; intros m Hz Hlate; [by apply Exists_nil in Hlate|].
  apply Forall_cons in Hsilent as [Hu Hus]. simpl. destruct (serving (take_turn m t)) eqn:E; [|eauto].
  destruct (take_turn_unproven _ _ Hu E) as (_ & Hl & Ht & Hf).
  apply Exists_cons in Hlate as [Hlate|Hlate].
  - exfalso. unfold renewFailingFor, IsZero in Hf. rewrite bool_decide_false in Hf by done. lia.
  - apply IH; [done|congruence|]. by rewrite Hl, Ht.
Qed.

(** *** Gateways of one bucket *)

(** A gateway between two heartbeats, or between the read and the rest of one,
    with what the read returned. *)
Abbreviation gateway := (Manager * option (lease + lease_error))%type.

(** A heartbeat is two steps, its read and what follows it; those of the gateways
    of a bucket come in any order. *)
Inductive half := Reads (i : nat) (reachable : bool) | Writes (i : nat) (now : Time) (w : call).

Definition half_beat (g : list gateway * bucket) (h : half) : list gateway * bucket :=
  let '(gs, b) := g in
  match h with
  | Reads i reachable =>
      (match gs !! i with Some (m, None) => <[i := (m, Some (readLease b reachable))]> gs | _ => gs end, b)
  | Writes i now w =>
      match gs !! i with
      | Some (m, Some r) => let '(m, b, _) := heartbeat_write m b r now w in (<[i := (m, None)]> gs, b)
      | _ => (gs, b)
      end
  end.

Definition half_of (h : half) : nat := match h with Reads i _ | Writes i _ _ => i end.

(** Gateways on different hosts, with holder identities of their own. *)
Definition apart (m1 m2 : Manager) : Prop := holderID m1 <> holderID m2 /\ hostname m1 <> hostname m2.

(** The lease a manager writes names it. *)
Definition own_identity (m : Manager) : Prop := HolderID (current m) = holderID m /\ Hostname (current m) = hostname m.

Definition names (c : lease) (m : Manager) : Prop := HolderID c = holderID m /\ Hostname c = hostname m.

Definition held_by (b : bucket) (m : Manager) : Prop := exists c, b = Some (Some c) /\ names c m.

(** A gateway other than the holder [mx]: of another host, and if it is in a
    heartbeat it has read the holder's lease. *)
Definition outsider (mx : Manager) (p : gateway) : Prop :=
  apart mx (p.1) /\ (p.2 = None \/ exists c, p.2 = Some (inl c) /\ names c mx).

(** Gateway [x] holds the bucket: the lease there names it, and no gateway is in
    a heartbeat whose read was of another's. *)
Definition holds_bucket (x : nat) (mx : Manager) (g : list gateway * bucket) : Prop :=
  own_identity mx /\ held_by g.2 mx /\
  (exists r, g.1 !! x = Some (mx, r) /\ (forall c, r = Some (inl c) -> names c mx)) /\
  (forall j p, j <> x -> g.1 !! j = Some p -> outsider mx p).

Lemma reportLoss_serving m l : serving (reportLoss m l) = false.
Proof. unfold serving, reportLoss. simpl. by destruct (lost m). Qed.

Lemma foreign_taken mx m c : names c mx -> apart mx m -> takenBy m c = true.
Proof.
  intros [H1 H2] [H3 H4]. unfold takenBy. rewrite decide_False, bool_decide_false by congruence. done.
Qed.

Lemma own_not_taken m c : names c m -> takenBy m c = false.
Proof. intros [H1 _]. unfold takenBy. by rewrite decide_True. Qed.

(** The rest of a heartbeat that read the gateway's own lease, or none. *)
Lemma own_half_write m b r now w m' b' d :
  own_identity m -> held_by b m -> (forall c, r = inl c -> names c m) ->
  heartbeat_write m b r now w = (m', b', d) ->
  held_by b' m' /\ own_identity m' /\ holderID m' = holderID m /\ hostname m' = hostname m /\
  (lost m' = lost m \/ exists t, lost m' = Some (Failing t)) /\ (w = Done -> serving m' = serving m).
Proof.
  intros [Hh Ho] Hb Hr E. assert (exists u, renew m b u now w = (m', b', d)) as [u Hu].
  { unfold heartbeat_write in E. destruct r as [c|[]]; [rewrite own_not_taken in E by auto|..]; eauto. }
  destruct Hb as (c & -> & Hc & Hch). unfold held_by, own_identity, names, serving.
  unfold renew, writeLease, reportLoss in Hu. destruct w as [|applied|]; simpl in Hu.
  - injection Hu as <- <- <-. simpl. split_and!; auto. by eexists.
  - destruct applied, (leaseTimeout m <? _); injection Hu as <- <- <-; simpl; split_and!; auto; try done;
      try (by eexists); destruct (lost m); eauto.
  - destruct u; simpl in Hu; [|destruct (leaseTimeout m <? _)]; injection Hu as <- <- <-; simpl; split_and!; auto; try done;
      try (by eexists); destruct (lost m); eauto.
Qed.

Lemma holds_insert_other x mx gs b i p :
  holds_bucket x mx (gs, b) -> i <> x -> outsider mx p -> holds_bucket x mx (<[i := p]> gs, b).
Proof.
  intros (Hown & Hb & (r & Hx & Hr) & Hother) Hix Hp. split_and!; [done..| |]; simpl in *.
  - exists r. by rewrite list_lookup_insert_ne by done.
  - intros j q Hj Hq. apply list_lookup_insert_Some in Hq as [(_ & <- & _)|[_ Hq]]; eauto.
Qed.

Lemma holds_insert_own x mx gs b mx' b' r :
  holds_bucket x mx (gs, b) -> own_identity mx' -> holderID mx' = holderID mx -> hostname mx' = hostname mx ->
  held_by b' mx' -> (forall c, r = Some (inl c) -> names c mx') -> holds_bucket x mx' (<[x := (mx', r)]> gs, b').
Proof.
  intros (_ & _ & (r0 & Hx & _) & Hother) Hown H1 H2 Hb Hr. split_and!; [done..| |]; simpl in *.
  - exists r. split; [|done]. apply list_lookup_insert_eq. by eapply lookup_lt_Some.
  - intros j q Hj Hq. rewrite list_lookup_insert_ne in Hq by done.
    unfold outsider, apart, names in *. rewrite H1, H2. eauto.
Qed.

Lemma outsider_write mx p r b now w :
  outsider mx p -> p.2 = Some r ->
  exists c d, heartbeat_write p.1 b r now w = (reportLoss p.1 (Taken c), b, d).
Proof.
  intros [Ha [?|(c & Hc & Hn)]] Hr; [congruence|]. rewrite Hr in Hc. injection Hc as ->.
  unfold heartbeat_write. rewrite (foreign_taken _ _ _ Hn Ha). eauto.
Qed.

(** A step of any gateway keeps it that way, as long as others' reads are
    answered.  The holder is never told that its lease was taken. *)
Lemma holds_bucket_half x mx g h :
  holds_bucket x mx g -> (forall i, h = Reads i false -> i = x) ->
  exists mx', holds_bucket x mx' (half_beat g h) /\
    (lost mx' = lost mx \/ exists t, lost mx' = Some (Failing t)) /\
    ((forall now w, h = Writes x now w -> w = Done) -> serving mx' = serving mx).
Proof.
  destruct g as [gs b]. intros Hg Hread.
  assert (Hsame : exists mx', holds_bucket x mx' (gs, b) /\ (lost mx' = lost mx \/ exists t, lost mx' = Some (Failing t)) /\
    ((forall now w, h = Writes x now w -> w = Done) -> serving mx' = serving mx)) by eauto.
  pose proof Hg as (Hown & Hb & (rx & Hx & Hrx) & Hother). simpl in *.
  destruct h as [i reachable|i now w]; simpl.
  - destruct (gs !! i) as [[m [r|]]|] eqn:Ei; [done| |done]. exists mx. split; [|auto].
    pose proof Hb as (c & -> & Hc). destruct (decide (i = x)) as [->|Hix].
    + rewrite Hx in Ei. simplify_eq. eapply holds_insert_own; eauto.
      intros c' [= Hc']. unfold readLease in Hc'. destruct reachable; simpl in Hc'; [|done]. by injection Hc' as <-.
    + apply holds_insert_other; [done..|]. destruct (Hother _ _ Hix Ei) as [Ha _]. split; [done|]. right.
      exists c. destruct reachable; [done|]. by destruct Hix; apply Hread.
  - destruct (gs !! i) as [[m [r|]]|] eqn:Ei; [|done..]. destruct (decide (i = x)) as [->|Hix].
    + rewrite Hx in Ei. injection Ei as -> ->. destruct (heartbeat_write m b r now w) as [[m' b'] d] eqn:E.
      apply own_half_write in E as (Hb' & Hown' & H1 & H2 & Hl & Hs); [|done..|intros c ->; auto].
      exists m'. split; [by eapply holds_insert_own|]. eauto.
    + destruct (outsider_write _ _ r b now w (Hother _ _ Hix Ei) eq_refl) as (c & d & E). simpl in E. rewrite E.
      exists mx. split; [|auto]. apply holds_insert_other; [done..|]. destruct (Hother _ _ Hix Ei) as [Ha _].
      by split; [|left].
Qed.

(** Gateway [j] does not serve, or is in a heartbeat at the end of which it does not. *)
Definition fencing (j : nat) (g : list gateway * bucket) : Prop :=
  forall m r, g.1 !! j = Some (m, r) -> serving m = true -> r <> None.
Definition fenced (j : nat) (g : list gateway * bucket) : Prop :=
  forall m r, g.1 !! j = Some (m, r) -> serving m = false.

Lemma half_other x mx g h j p :
  holds_bucket x mx g -> j <> x -> (half_beat g h).1 !! j = Some p ->
  exists q, g.1 !! j = Some q /\
    (p = q \/ serving p.1 = false /\ (exists now w, h = Writes j now w) \/
     q.2 = None /\ p.1 = q.1 /\ p.2 <> None /\ exists r, h = Reads j r).
Proof.
  destruct g as [gs b]. intros (_ & _ & _ & Hother) Hjx. simpl in *.
  destruct h as [i reachable|i now w]; simpl.
  - destruct (gs !! i) as [[m [r|]]|] eqn:Ei; [by eauto| |by eauto].
    intros [(-> & <- & _)|[_ Hj]]%list_lookup_insert_Some; [|by eauto].
    exists (m, None). split; [done|]. right; right. simpl. eauto.
  - destruct (gs !! i) as [[m [r|]]|] eqn:Ei; [|by eauto..].
    destruct (decide (i = j)) as [->|Hij].
    + destruct (outsider_write _ _ r b now w (Hother _ _ Hjx Ei) eq_refl) as (c & d & E). simpl in E. rewrite E. simpl.
      intros [(_ & <- & _)|[? Hj]]%list_lookup_insert_Some; [|done].
      exists (m, Some r). split; [done|]. right; left. split; [apply reportLoss_serving|eauto].
    + destruct (heartbeat_write m b r now w) as [[m' b'] d]. simpl. rewrite list_lookup_insert_ne by done. eauto.
Qed.

Lemma fencing_half x mx g h j :
  holds_bucket x mx g -> j <> x -> fencing j g \/ h = Reads j true -> fencing j (half_beat g h).
Proof.
  intros Hg Hj Hf m r Hm Hs. destruct (half_other _ _ _ _ _ _ Hg Hj Hm) as (q & Hq & [<-|[[Hd _]|(_ & _ & Hr & _)]]);
    simpl in *; [|congruence|done].
  destruct Hf as [Hf| ->]; [by eapply Hf|]. destruct g as [gs b]. simpl in *. rewrite Hq in Hm.
  destruct r as [r|]; [done|]. rewrite list_lookup_insert_eq in Hm by (by eapply lookup_lt_Some). congruence.
Qed.

Lemma fenced_half x mx g h j :
  holds_bucket x mx g -> j <> x -> fenced j g \/ (fencing j g /\ exists now w, h = Writes j now w) ->
  fenced j (half_beat g h).
Proof.
  intros Hg Hj Hf m r Hm. destruct (half_other _ _ _ _ _ _ Hg Hj Hm) as (q & Hq & [<-|[[Hd _]|(_ & H1 & _ & w & ->)]]);
    simpl in *; [|done|].
  - destruct Hf as [Hf|(Hf & now & w & ->)]; [by eapply Hf|]. destruct (serving m) eqn:Hs; [|done].
    destruct r as [r|]; [|by destruct (Hf _ _ Hq Hs)]. destruct g as [gs b]. simpl in *. rewrite Hq in Hm.
    destruct Hg as (_ & _ & _ & Hother).
    destruct (outsider_write _ _ r b now w (Hother _ _ Hj Hq) eq_refl) as (c & d & E). simpl in E. rewrite E in Hm. simpl in Hm.
    rewrite list_lookup_insert_eq in Hm by (by eapply lookup_lt_Some). congruence.
  - destruct Hf as [Hf|(_ & ? & ? & ?)]; [|done]. destruct q as [q rq]. simpl in *. subst. by eapply Hf.
Qed.

Definition reads_answered (x : nat) (h : half) : Prop := forall i, h = Reads i false -> i = x.

Lemma holds_bucket_run x mx g hs :
  holds_bucket x mx g -> Forall (reads_answered x) hs ->
  exists mx', holds_bucket x mx' (foldl half_beat g hs) /\
    (lost mx' = lost mx \/ exists t, lost mx' = Some (Failing t)) /\
    (Forall (fun h => forall now w, h = Writes x now w -> w = Done) hs -> serving mx' = serving mx).
Proof.
  intros Hg Hhs. induction Hhs as [|h hs Hh _ IH] in mx, g, Hg |- *; [by eauto|]. simpl.
  destruct (holds_bucket_half _ _ _ _ Hg Hh) as (m1 & Hg1 & Hl1 & Hs1).
  destruct (IH _ _ Hg1) as (m2 & Hg2 & Hl2 & Hs2). exists m2. split_and!; [done|destruct Hl2 as [->|?]; auto|].
  intros [H1 H2]%Forall_cons. rewrite Hs2 by done. auto.
Qed.

(** What a step keeps, a run keeps. *)
Lemma half_run_keeps (P : list gateway * bucket -> Prop) x mx g hs :
  (forall mx g h, holds_bucket x mx g -> P g -> P (half_beat g h)) ->
  holds_bucket x mx g -> Forall (reads_answered x) hs -> P g -> P (foldl half_beat g hs).
Proof.
  intros HP Hg Hhs. induction Hhs as [|h hs Hh _ IH] in mx, g, Hg |- *; [done|]. simpl. intros H.
  destruct (holds_bucket_half _ _ _ _ Hg Hh) as (m1 & Hg1 & _). eapply IH; eauto.
Qed.

Lemma heartbeat_fences x mx g hs j hs1 hs2 hs3 now w :
  holds_bucket x mx g -> Forall (reads_answered x) hs -> j <> x ->
  hs = hs1 ++ Reads j true :: hs2 ++ Writes j now w :: hs3 -> fenced j (foldl half_beat g hs).
Proof.
  intros Hg Hhs Hj ->. rewrite !Forall_app, !Forall_cons, !Forall_app, !Forall_cons in Hhs.
  destruct Hhs as (H1 & Hr & H2 & Hw & H3). rewrite foldl_app. simpl. rewrite foldl_app. simpl.
  destruct (holds_bucket_run _ _ _ _ Hg H1) as (m1 & Hg1 & _).
  destruct (holds_bucket_half _ _ _ _ Hg1 Hr) as (m2 & Hg2 & _).
  destruct (holds_bucket_run _ _ _ _ Hg2 H2) as (m3 & Hg3 & _).
  destruct (holds_bucket_half _ _ _ _ Hg3 Hw) as (m4 & Hg4 & _).
  eapply half_run_keeps; [|exact Hg4|done|]; [intros; eapply fenced_half; eauto|].
  eapply fenced_half; [exact Hg3|done|]. right. split; [|eauto].
  eapply half_run_keeps; [|exact Hg2|done|]; [intros; eapply fencing_half; eauto|].
  eapply fencing_half; [exact Hg1|done|]. by right.
Qed.

(** C14. Heartbeats are two steps, the read of the lease and what follows it,
    interleaved in any way among gateways of different hosts. From a state in
    which the lease in the bucket is a gateway's own and no other gateway is in a
    heartbeat that read anything else, and as long as the reads of the others are
    answered: the lease stays that gateway's, it is never told that its lease was
    taken and serves on while its writes succeed, and every other gateway has
    stopped serving by the end of its next heartbeat. *)
Theorem heartbeats_leave_one_gateway (x : nat) (mx : Manager) (g : list gateway * bucket) (hs : list half)
    (Hx : holds_bucket x mx g) (Hreads : Forall (reads_answered x) hs) :
  let g' := foldl half_beat g hs in
  (exists mx', holds_bucket x mx' g' /\
     (lost mx' = lost mx \/ exists t, lost mx' = Some (Failing t)) /\
     (Forall (fun h => forall now w, h = Writes x now w -> w = Done) hs -> serving mx' = serving mx)) /\
  (forall j hs1 hs2 hs3 now w, j <> x -> hs = hs1 ++ Reads j true :: hs2 ++ Writes j now w :: hs3 ->
     forall m r, g'.1 !! j = Some (m, r) -> serving m = false).
Proof.
  split; [by apply holds_bucket_run|]. intros j hs1 hs2 hs3 now w Hj E. by eapply heartbeat_fences.
Qed.

(** *** The lease of another gateway *)

(** What the gateways of a bucket do to it. *)
Inductive op :=
  | Starts (s : start)
  | Beats (m : Manager) (now : Time) (reachable : bool) (w : call)
  | Releases (m : Manager) (reachable : bool) (deleted : call).

Definition perform (b : bucket) (o : op) : bucket :=
  match o with
  | Starts s => (Acquire s b).1.1
  | Beats m now reachable w => (heartbeat m b now reachable w).1.2
  | Releases m reachable deleted => Release m b reachable deleted
  end.

(** An operation of a gateway that is not the holder of [c]: its reads succeed,
    and a gateway that starts finds [c] fresh and is not forced. *)
Definition of_another (c : lease) (o : op) : Prop :=
  match o with
  | Starts s => s_force s = false /\ s_read s = true /\
      time_Sub (s_now s) (RenewedAt c) < started_timeout s /\ ~ own_lease s c
  | Beats m _ reachable _ => reachable = true /\ holderID m <> HolderID c /\ hostname m <> Hostname c
  | Releases m reachable _ => reachable = true /\ holderID m <> HolderID c
  end.

(** The epochs of refused starts do not matter: the bucket is not written. *)
Lemma refused_start_keeps s c :
  of_another c (Starts s) -> (Acquire s (Some (Some c))).1.1 = Some (Some c).
Proof.
  intros (Hf & Hr & Hfresh & Hown). unfold Acquire. fold (started_from s (Some (Some c))).
  destruct (started_from s (Some (Some c))) as [e|e] eqn:E; [exfalso|done].
  rewrite (started_from_shape _ _ _ E) in E. apply may_acquire_entitled in E; [|done].
  unfold entitled in E. rewrite Hr in E. destruct (E c eq_refl) as [?|?]; [lia|done].
Qed.

(** While a lease is fresh no other gateway that can read it replaces or
    removes it: not by starting, by its heartbeats or by shutting down. *)
Theorem fresh_lease_kept (c : lease) (ops : list op) (H : Forall (of_another c) ops) :
  foldl perform (Some (Some c)) ops = Some (Some c).
Proof.
  induction H as [|o ops Ho _ IH]; [done|]. simpl. rewrite <-IH at 2. f_equal.
  destruct o as [s|m now r w|m r d]; simpl in *.
  - by apply refused_start_keeps.
  - destruct Ho as (-> & H1 & H2). unfold heartbeat, heartbeat_write, takenBy. simpl.
    by rewrite decide_False, bool_decide_false by congruence.
  - destruct Ho as (-> & H1). unfold Release. simpl. by rewrite decide_False by congruence.
Qed.

(** ** Examples *)

Definition at_second (n : Z) : Time := 1000 * Minute + n * Second.

Definition alpha_lease (n : Z) : lease := mkLease "alpha-7-c0ffee00" "alpha" 4 (at_second 0) (at_second n).

(** A gateway of [alpha] that last renewed at second [n]. *)
Definition alpha (n : Z) : Manager :=
  mkManager "alpha-7-c0ffee00" "alpha" (15 * Second) (60 * Second) (at_second n) (alpha_lease n) None.

Definition beta (n : Z) : Manager :=
  mkManager "beta-9-00000001" "beta" (15 * Second) (60 * Second) (at_second n)
    (mkLease "beta-9-00000001" "beta" 5 (at_second n) (at_second n)) None.

(** A plain start of [host] at second [n]. *)
Definition start_at (host holder : string) (marker : option string) (n : Z) : start :=
  mkStart host holder 0 0 false marker (at_second n) true Done id true Written.

Lemma acquire_respects_lease_witness :
  let s := start_at "beta" "beta-9-00000001" None in
  (exists e, Acquire (s 30) (Some (Some (alpha_lease 0))) = (Some (Some (alpha_lease 0)), None, inr e)) /\
  exists m, (Acquire (s 60) (Some (Some (alpha_lease 0)))).2 = inl m /\ Epoch (current m) = 5.
Proof.
  intros s. split.
  - apply (acquire_respects_lease (s 30) _ eq_refl). unfold entitled. simpl. intros H.
    destruct (H _ eq_refl) as [Hc|(Hc & _)]; [by vm_compute in Hc|done].
  - destruct (proj2 (acquire_respects_lease (s 60) (Some (Some (alpha_lease 0))) eq_refl)) as (m & Hm & Hc & _);
      [|done|done|].
    + intros c [= <-]. left. by vm_compute.
    + exists m. rewrite Hm, Hc. by split.
Defined.

Lemma silent_gateway_is_fenced_witness :
  serving (foldl take_turn (alpha 0)
    [mkTurn None (at_second 45) false (Lost false); mkTurn (Some (Some (alpha_lease 0))) (at_second 61) true (Lost true)])
  = false.
Proof.
  apply silent_gateway_is_fenced; [done|by repeat constructor|].
  apply Exists_cons_tl, Exists_cons_hd. by vm_compute.
Defined.

(** [alpha] holds the bucket while [beta] reads, [alpha] renews and [beta] goes on. *)
Lemma heartbeats_leave_one_gateway_witness :
  let hs := [Reads 0 true; Reads 1 true; Writes 0 (at_second 2) Done; Writes 1 (at_second 3) Done] in
  let g' := foldl half_beat ([(beta 0, None); (alpha 0, None)], Some (Some (alpha_lease 0))) hs in
  (exists ma, holds_bucket 1 ma g' /\ serving ma = true) /\
  forall m r, g'.1 !! 0%nat = Some (m, r) -> serving m = false.
Proof.
  destruct (heartbeats_leave_one_gateway 1 (alpha 0) ([(beta 0, None); (alpha 0, None)], Some (Some (alpha_lease 0)))
    [Reads 0 true; Reads 1 true; Writes 0 (at_second 2) Done; Writes 1 (at_second 3) Done]) as [(ma & H1 & _ & H2) H3].
  - split; [done|]. split; [by exists (alpha_lease 0)|]. split; [by exists None|].
    intros [|[|j]] p Hj Hp; [|done|by destruct j]. injection Hp as <-. by split; [|left].
  - by repeat constructor; intros i.
  - split; [exists ma; split; [done|]; apply H2; repeat constructor; by intros now w [= <- <-]|].
    by apply (H3 0%nat [] [Reads 1 true] [Writes 1 (at_second 3) Done] (at_second 2) Done).
Defined.

Lemma fresh_lease_kept_witness :
  foldl perform (Some (Some (alpha_lease 0)))
    [Starts (start_at "beta" "beta-9-00000001" (Some "beta") 30); Beats (beta 0) (at_second 40) true Done;
     Releases (beta 0) true Done] = Some (Some (alpha_lease 0)).
Proof.
  apply fresh_lease_kept. repeat constructor; try (by vm_compute).
  intros (_ & _ & Hc). by vm_compute in Hc.
Defined.

(** ** What the lease does not prevent *)

(** A host whose name is a prefix of another's takes that host's fresh lease for
    its own: [leaseFromSameHost] does not look at the separator. *)
Lemma prefix_host_steals_fresh_lease :
  let c := mkLease "node10-33-deadbeef" "node10" 8 (at_second 0) (at_second 29) in
  let s := start_at "node1" "node1-44-0badcafe" (Some "node1") 30 in
  exists m, Acquire s (Some (Some c)) = (Some (Some (current m)), Some "node1", inl m) /\
    HolderID (current m) = "node1-44-0badcafe" /\ Epoch (current m) = 9.
Proof. vm_compute. pick_result. Qed.

(** A gateway restarted while the store is unreachable counts its epochs from
    one, so that it takes its own older lease for a takeover once it is back. *)
Lemma restart_in_outage_fences_itself :
  let s := mkStart "alpha" "alpha-8-11111111" 0 0 false (Some "alpha") (at_second 20) false (Lost false)
             id false Written in
  exists m, (Acquire s (Some (Some (alpha_lease 0)))).2 = inl m /\ serving m = true /\
    Hostname (alpha_lease 0) = hostname m /\
    serving (heartbeat m (Some (Some (alpha_lease 0))) (at_second 35) true Done).1.1 = false.
Proof. vm_compute. pick_result. Qed.

(** A heartbeat whose read failed still writes: a gateway that was away for an
    hour replaces the lease of the one that took over, and goes on serving. *)
Lemma blind_heartbeat_overwrites_lease :
  let b := Some (Some (mkLease "beta-9-00000001" "beta" 5 (at_second 3000) (at_second 3590))) in
  let '(m, b', _) := heartbeat (alpha 0) b (at_second 3600) false Done in
  serving m = true /\ held_by b' (alpha 0) /\
  serving (heartbeat (beta 3590) b' (at_second 3605) true Done).1.1 = false.
Proof. vm_compute. repeat split. by eexists. Qed.

(** Two gateways whose heartbeats both read before either writes both go on
    serving; the one whose write was overwritten finds out in its next heartbeat. *)
Lemma racing_heartbeats_both_serve :
  let hs := [Reads 0 true; Reads 1 true; Writes 0 (at_second 2) Done; Writes 1 (at_second 3) Done] in
  let g := foldl half_beat ([(alpha 0, None); (beta 0, None)], None) hs in
  map (fun p => serving p.1) g.1 = [true; true] /\ map (fun p => serving p.1) (foldl half_beat g hs).1 = [false; true].
Proof. by vm_compute. Qed.

End Lease.
