(* ===== verification/Breaker.v ===== *)
(** * The circuit breaker and the quota state ([internal/cos/breaker.go], [quota.go])

    [Breaker]: the transport that fails requests at once while the object store
    is known to be unreachable.  A request is two steps, its start and its end,
    which the steps of other requests interleave with.
    [Quota]: what the client remembers of a bucket that refused a write. *)
From S2P Require Import Prelude.

Module Breaker.

Definition breakerFailureThreshold : Z := 5.
Definition breakerProbeInterval : Duration := 5 * Second.

Record breakerTransport := mkBreaker {
  consecutiveFails : Z;
  open : bool;
  lastProbe : Time
}.

Definition newBreakerTransport : breakerTransport := mkBreaker 0 false 0.

(** [admit] at [now]: whether the request may proceed. *)
Definition admit_request (b : breakerTransport) (now : Time) : breakerTransport * bool :=
  if negb (open b) then (b, true)
  else if breakerProbeInterval <=? time_Sub now (lastProbe b)
  then (mkBreaker (consecutiveFails b) (open b) now, true)
  else (b, false).

Definition recordSuccess (b : breakerTransport) : breakerTransport := mkBreaker 0 false (lastProbe b).

Definition recordFailure (b : breakerTransport) (now : Time) : breakerTransport :=
  let fails := wrap64 (consecutiveFails b + 1) in
  if negb (open b) && (breakerFailureThreshold <=? fails) then mkBreaker fails true now
  else mkBreaker fails (open b) (lastProbe b).

(** How the inner transport answers a request that was let through. *)
Inductive answer := Responded | Failed | Canceled.

(** The end of [RoundTrip]. *)
Definition finish (b : breakerTransport) (now : Time) (a : answer) : breakerTransport :=
  match a with
  | Responded => recordSuccess b
  | Failed => recordFailure b now
  | Canceled => b
  end.

(** [RoundTrip] with no other request in between. *)
Definition RoundTrip (b : breakerTransport) (now later : Time) (a : answer) : breakerTransport * option answer :=
  match admit_request b now with
  | (b, false) => (b, None)
  | (b, true) => (finish b later a, Some a)
  end.

Definition Open (b : breakerTransport) : bool := open b.

(** The steps of concurrent requests, in the order they take the mutex. *)
Inductive event := Start (now : Time) | Finish (now : Time) (a : answer).

Definition event_time (e : event) : Time := match e with Start t => t | Finish t _ => t end.

Definition step (b : breakerTransport) (e : event) : breakerTransport :=
  match e with Start now => (admit_request b now).1 | Finish now a => finish b now a end.

(** ** When the circuit is open *)

(** Failures since the store last answered. *)
Definition failures_since_answer (history : list event) : Z :=
  foldl (fun n e => match e with
                    | Finish _ Responded => 0
                    | Finish _ Failed => n + 1
                    | _ => n
                    end) 0 history.

Lemma failures_bounds history : 0 <= failures_since_answer history <= len history.
Proof.
  induction history as [|e h IH] using rev_ind; [done|].
  unfold failures_since_answer in *. rewrite foldl_app, length_app. simpl.
  destruct e as [|? []]; lia.
Qed.

(** The breaker counts exactly those failures, and is open exactly when there
    are enough of them. *)
Lemma breaker_counts history :
  len history <= MaxInt64 ->
  let b := foldl step newBreakerTransport history in
  consecutiveFails b = failures_since_answer history /\
  open b = (breakerFailureThreshold <=? failures_since_answer history).
Proof.
  simpl. induction history as [|e h IH] using rev_ind; [done|].
  rewrite length_app. simpl. intros Hlen. specialize (IH ltac:(lia)) as [IHc IHo].
  pose proof (failures_bounds h) as Hb.
  assert (Hn : failures_since_answer (h ++ [e]) =
    match e with Finish _ Responded => 0 | Finish _ Failed => failures_since_answer h + 1
               | _ => failures_since_answer h end).
  { unfold failures_since_answer. by rewrite foldl_app. }
  rewrite foldl_app, Hn. simpl. set (b := foldl step newBreakerTransport h) in *.
  destruct e as [now|now []]; simpl.
  - unfold admit_request. destruct (negb (open b)); [done|]. by destruct (breakerProbeInterval <=? _).
  - done.
  - unfold recordFailure. rewrite IHc, wrap64_small by (unfold MinInt64, MaxInt64 in *; lia).
    rewrite IHo. unfold breakerFailureThreshold in *. zcases; simpl; split; try done; lia.
  - done.
Qed.

(** The circuit is open exactly when the last five or more requests that
    ended with a verdict on the store all failed, however the requests overlap;
    one answer closes it. *)
Theorem circuit_open_iff_failing (history : list event) (Hlen : len history <= MaxInt64) :
  Open (foldl step newBreakerTransport history) = true <->
  breakerFailureThreshold <= failures_since_answer history.
Proof.
  destruct (breaker_counts history Hlen) as [_ Ho]. unfold Open. rewrite Ho. apply Z.leb_le.
Qed.

Definition failed_at (n : Z) : event := Finish (n * Second) Failed.

Lemma circuit_open_iff_failing_witness :
  Open (foldl step newBreakerTransport (failed_at <$> [1; 2; 3; 4; 5])) = true.
Proof. apply circuit_open_iff_failing; by vm_compute. Defined.

(** ** What an open circuit lets through *)

(** The requests let through by an open circuit. *)
Fixpoint probes (b : breakerTransport) (events : list event) : list Time :=
  match events with
  | [] => []
  | e :: es =>
      match e with
      | Start now => if open b && (admit_request b now).2 then [now] else []
      | Finish _ _ => []
      end ++ probes (step b e) es
  end.

Definition not_answered (e : event) : Prop := match e with Finish _ Responded => False | _ => True end.

(** While the store does not answer, an open circuit stays open and moves its
    probe clock only for the requests it lets through. *)
Lemma open_step b e :
  open b = true -> not_answered e ->
  open (step b e) = true /\
  (lastProbe (step b e) = lastProbe b /\ (forall es, probes b (e :: es) = probes (step b e) es) \/
   exists now, e = Start now /\ breakerProbeInterval <= now - lastProbe b /\ lastProbe (step b e) = now /\
     forall es, probes b (e :: es) = now :: probes (step b e) es).
Proof.
  intros Ho Hn. destruct e as [now|now []]; simpl in *; try done.
  - unfold admit_request. rewrite Ho. simpl. destruct (_ <=? _) eqn:E; simpl.
    + split; [done|]. right. exists now. repeat split; try done.
      bool_to_prop. unfold time_Sub, breakerProbeInterval, Second, Millisecond, MaxInt64, MinInt64 in *. lia.
    + auto.
  - unfold recordFailure. rewrite Ho. simpl. auto.
  - auto.
Qed.

(** During an outage an open circuit lets at most one request in every probe
    interval reach the store: [n] probes take at least [n] intervals since the
    circuit opened or was last probed. *)
Theorem open_circuit_rations_probes (b : breakerTransport) (events : list event) (until : Time)
    (Hopen : Open b = true) (Hdown : Forall not_answered events)
    (Htimes : Forall (fun e => event_time e <= until) events) (Hstart : lastProbe b <= until) :
  len (probes b events) * breakerProbeInterval <= until - lastProbe b.
Proof.
  unfold Open in *. revert b Hopen Hstart.
  induction events as [|e es IH]; intros b Hopen Hstart; [simpl; lia|].
  apply Forall_cons in Hdown as [Hn Hdown]. apply Forall_cons in Htimes as [Ht Htimes].
  destruct (open_step b e Hopen Hn) as [Ho [[Hl Hp]|(now & -> & Hsp & Hl & Hp)]].
  - rewrite Hp, <-Hl. apply IH; [done..|by rewrite Hl].
  - rewrite Hp. simpl in Ht. specialize (IH Hdown Htimes _ Ho ltac:(lia)). rewrite Hl in IH.
    cbn [length]. lia.
Qed.

Lemma open_circuit_rations_probes_witness :
  let b := mkBreaker 5 true (100 * Second) in
  let events := [Start (101 * Second); Start (105 * Second); Start (106 * Second);
                 Finish (107 * Second) Failed; Start (111 * Second)] in
  probes b events = [105 * Second; 111 * Second] /\
  2 * breakerProbeInterval <= 111 * Second - 100 * Second.
Proof.
  intros b events. split; [by vm_compute|].
  apply (open_circuit_rations_probes b events (111 * Second)); [done|by repeat constructor| |by vm_compute].
  repeat (constructor; [by vm_compute|]). constructor.
Defined.

(** The circuit recovers: while it is open the first request a probe interval
    after the last probe is let through, and if the store answers it every
    request after it passes. *)
Theorem circuit_recovers (b : breakerTransport) (now later next : Time)
    (Hopen : Open b = true) (Hdue : lastProbe b + breakerProbeInterval <= now) :
  exists b', RoundTrip b now later Responded = (b', Some Responded) /\ Open b' = false /\
    (admit_request b' next).2 = true.
Proof.
  unfold Open, RoundTrip, admit_request in *. rewrite Hopen. simpl.
  rewrite (proj2 (Z.leb_le _ _)).
  - eexists. by repeat split.
  - unfold time_Sub, breakerProbeInterval, Second, Millisecond, MaxInt64, MinInt64 in *. lia.
Qed.

Lemma circuit_recovers_witness :
  exists b', RoundTrip (mkBreaker 7 true (100 * Second)) (105 * Second) (106 * Second) Responded
    = (b', Some Responded) /\ Open b' = false /\ (admit_request b' (106 * Second)).2 = true.
Proof. apply circuit_recovers; by vm_compute. Defined.

End Breaker.

Module Quota.

(** What [errors.As] finds in the SDK's error: its code and HTTP status. *)
Record sdk_error := mkSdkError { code : option string; status : option Z }.

Inductive write_error := Other (e : sdk_error) | QuotaError (e : sdk_error).

Definition bucketFullFor : Duration := 2 * Minute.
Definition StatusUnprocessableEntity : Z := 422.

(** [isQuotaExceeded]. *)
Definition isQuotaExceeded (e : sdk_error) : bool :=
  match code e with
  | None => false
  | Some c =>
      if bool_decide (c = "BucketQuotaExceeded") || bool_decide (c = "QuotaExceeded") then true
      else bool_decide (status e = Some StatusUnprocessableEntity) && bool_decide (c = "BucketQuotaExceeded")
  end.

(** [c.fullUntil], 0 when the bucket has room. *)
Definition setBucketFull (fullUntil : Z) (full : bool) (now : Time) : Z :=
  if full then now + bucketFullFor else 0.

Definition BucketFull (fullUntil : Z) (now : Time) : bool := negb (fullUntil =? 0) && (now <? fullUntil).

(** [noteWrite] at [now]. *)
Definition noteWrite (fullUntil : Z) (err : option sdk_error) (now : Time) : Z * option write_error :=
  match err with
  | None => (setBucketFull fullUntil false now, None)
  | Some e =>
      if isQuotaExceeded e then (setBucketFull fullUntil true now, Some (QuotaError e))
      else (fullUntil, Some (Other e))
  end.

(** The verdict on the bucket a write gives, if any: refused for the quota, or not. *)
Definition verdict (w : option sdk_error) : option bool :=
  match w with
  | None => Some false
  | Some e => if isQuotaExceeded e then Some true else None
  end.

(** The last verdict of a history of writes, latest first, and when it came. *)
Fixpoint last_verdict (history : list (option sdk_error * Time)) : option (bool * Time) :=
  match history with
  | [] => None
  | (w, t) :: h => match verdict w with Some v => Some (v, t) | None => last_verdict h end
  end.

Definition after_writes (history : list (option sdk_error * Time)) : Z :=
  foldr (fun w u => (noteWrite u (w.1) (w.2)).1) 0 history.

(** The bucket counts as full exactly for two minutes after the last write that
    says anything about its quota was refused for it; writes that fail for
    other reasons change nothing. *)
Theorem bucket_full_iff_refused (history : list (option sdk_error * Time)) (now : Time)
    (Hpos : Forall (fun w => 0 <= w.2) history) :
  BucketFull (after_writes history) now = true <->
  exists t, last_verdict history = Some (true, t) /\ now < t + bucketFullFor.
Proof.
  unfold BucketFull. induction Hpos as [|[w t] h Ht _ IH]; simpl in *.
  - split; [done|]. by intros (? & ? & _).
  - destruct w as [e|]; simpl; [destruct (isQuotaExceeded e)|]; simpl; [|done|].
    + bool_to_prop. unfold bucketFullFor, Minute, Second, Millisecond in *. split.
      * intros [_ ?]. by exists t.
      * intros (? & [= <-] & ?). lia.
    + split; [done|]. by intros (? & ? & _).
Qed.

Definition refusal : sdk_error := mkSdkError (Some "BucketQuotaExceeded") (Some 422).

Lemma bucket_full_iff_refused_witness :
  BucketFull (after_writes [(Some (mkSdkError (Some "SlowDown") (Some 503)), 90 * Second);
                            (Some refusal, 60 * Second)]) (100 * Second) = true.
Proof.
  apply bucket_full_iff_refused; [by repeat constructor|]. exists (60 * Second). by vm_compute.
Defined.

End Quota.
