(* ===== verification/ListingFence.v ===== *)
(** * The listing fence ([internal/posix/listing_fence.go])

    A directory listing taken from the object store is cached only if the
    directory was left alone while the listing was in flight.  Every method is
    one step under the fence's mutex. *)
From S2P Require Import Prelude.

Module ListingFence.

Record listingFenceEntry := mkEntry { listings : Z; generation : Z }.

(** [f.inflight]; a nil map is an empty one. *)
Abbreviation listingFence := (gmap string listingFenceEntry).

Definition bump (e : listingFenceEntry) : listingFenceEntry :=
  mkEntry (listings e) ((generation e + 1) mod 2 ^ 64).

(** [begin]. *)
Definition begin (f : listingFence) (dir : string) : listingFence * Z :=
  let e := default (mkEntry 0 0) (f !! dir) in
  let e := mkEntry (wrap64 (listings e + 1)) (generation e) in
  (<[dir := e]> f, generation e).

(** [end]. *)
Definition end_ (f : listingFence) (dir : string) (gen : Z) : listingFence * bool :=
  match f !! dir with
  | None => (f, false)
  | Some e =>
      let unchanged := generation e =? gen in
      let e := mkEntry (wrap64 (listings e - 1)) (generation e) in
      (if listings e =? 0 then delete dir f else <[dir := e]> f, unchanged)
  end.

(** [invalidate]. *)
Definition invalidate (f : listingFence) (dir : string) : listingFence :=
  match f !! dir with None => f | Some e => <[dir := bump e]> f end.

(** [invalidatePrefix]: every entry is its own, so the order does not matter. *)
Definition invalidatePrefix (f : listingFence) (prefix : string) : listingFence :=
  map_imap (fun path e => Some (if HasPrefix path prefix then bump e else e)) f.

(** ** Runs *)

Inductive op :=
  | Begin (dir : string)
  | End_ (dir : string) (gen : Z)
  | Invalidate (dir : string)
  | InvalidatePrefix (prefix : string).

Definition step (f : listingFence) (o : op) : listingFence :=
  match o with
  | Begin dir => (begin f dir).1
  | End_ dir gen => (end_ f dir gen).1
  | Invalidate dir => invalidate f dir
  | InvalidatePrefix prefix => invalidatePrefix f prefix
  end.

(** Listings of [dir] in flight. *)
Definition in_flight (f : listingFence) (dir : string) : Z := from_option listings 0 (f !! dir).

(** How many listings of [dir] other than ours are in flight after [ops], when
    [n] were before: [None] if one ends that was never begun. *)
Fixpoint others (dir : string) (n : Z) (ops : list op) : option Z :=
  match ops with
  | [] => Some n
  | Begin d :: ops => others dir (if decide (d = dir) then n + 1 else n) ops
  | End_ d _ :: ops =>
      if decide (d = dir) then if 0 <? n then others dir (n - 1) ops else None else others dir n ops
  | _ :: ops => others dir n ops
  end.

(** The invalidations of [dir] among [ops]. *)
Fixpoint invalidations (dir : string) (ops : list op) : Z :=
  match ops with
  | [] => 0
  | Invalidate d :: ops => (if decide (d = dir) then 1 else 0) + invalidations dir ops
  | InvalidatePrefix p :: ops => (if HasPrefix dir p then 1 else 0) + invalidations dir ops
  | _ :: ops => invalidations dir ops
  end.

Lemma invalidations_nonneg dir ops : 0 <= invalidations dir ops.
Proof. induction ops as [|[] ops IH]; simpl; repeat case_match; lia. Qed.

(** Our listing keeps the entry of the directory alive, whatever the others do,
    and the generation counts the invalidations. *)
Lemma entry_survives dir ops : forall n n' (f : listingFence) gen,
  f !! dir = Some (mkEntry (n + 1) gen) -> 0 <= n -> n + len ops < MaxInt64 -> 0 <= gen < 2 ^ 64 ->
  others dir n ops = Some n' ->
  foldl step f ops !! dir = Some (mkEntry (n' + 1) ((gen + invalidations dir ops) mod 2 ^ 64)) /\
  0 <= n' <= n + len ops.
Proof.
  induction ops as [|o ops IH]; intros n n' f gen Hf Hn Hlen Hgen Ho; simpl in *.
  { injection Ho as <-. rewrite Z.add_0_r, Z.mod_small by done. split; [done|lia]. }
  assert (Hgen' : 0 <= (gen + 1) mod 2 ^ 64 < 2 ^ 64) by (apply Z.mod_pos_bound; lia).
  assert (Hplus : forall k, ((gen + 1) mod 2 ^ 64 + k) mod 2 ^ 64 = (gen + (1 + k)) mod 2 ^ 64).
  { intros k. rewrite Z.add_mod_idemp_l by lia. f_equal. lia. }
  destruct o as [d|d g|d|p]; simpl.
  - case_decide as Hd.
    + subst d. destruct (IH (n + 1) n' (begin f dir).1 gen) as [IH1 IH2]; [|lia|lia|done|done|].
      { unfold begin. rewrite Hf. simpl. rewrite lookup_insert_eq, wrap64_small; [done|].
        unfold MaxInt64, MinInt64 in *. lia. }
      split; [done|lia].
    + destruct (IH n n' (begin f d).1 gen) as [IH1 IH2]; [|lia|lia|done|done|split; [done|lia]].
      unfold begin. simpl. by rewrite lookup_insert_ne.
  - unfold end_. case_decide as Hd.
    + subst d. destruct (0 <? n) eqn:E; [|done]. bool_to_prop. rewrite Hf. simpl.
      rewrite wrap64_small by (unfold MaxInt64, MinInt64 in *; lia).
      rewrite (proj2 (Z.eqb_neq _ _)) by lia.
      destruct (IH (n - 1) n' (<[dir:=mkEntry (n + 1 - 1) gen]> f) gen) as [IH1 IH2];
        [|lia|lia|done|done|split; [done|lia]].
      rewrite lookup_insert_eq. do 2 f_equal. lia.
    + destruct (IH n n' (end_ f d g).1 gen) as [IH1 IH2]; [|lia|lia|done|done|split; [done|lia]].
      unfold end_. destruct (f !! d) as [e|]; [|done]. simpl.
      case_match; [by rewrite lookup_delete_ne|by rewrite lookup_insert_ne].
  - case_decide as Hd.
    + subst d. destruct (IH n n' (invalidate f dir) ((gen + 1) mod 2 ^ 64)) as [IH1 IH2];
        [|lia|lia|done|done|rewrite IH1, Hplus; split; [done|lia]].
      unfold invalidate. rewrite Hf. by rewrite lookup_insert_eq.
    + destruct (IH n n' (invalidate f d) gen) as [IH1 IH2]; [|lia|lia|done|done|split; [done|lia]].
      unfold invalidate. destruct (f !! d); [|done]. by rewrite lookup_insert_ne.
  - destruct (HasPrefix dir p) eqn:Hp.
    + destruct (IH n n' (invalidatePrefix f p) ((gen + 1) mod 2 ^ 64)) as [IH1 IH2];
        [|lia|lia|done|done|rewrite IH1, Hplus; split; [done|lia]].
      unfold invalidatePrefix. rewrite map_lookup_imap, Hf. simpl. by rewrite Hp.
    + destruct (IH n n' (invalidatePrefix f p) gen) as [IH1 IH2]; [|lia|lia|done|done|split; [done|lia]].
      unfold invalidatePrefix. rewrite map_lookup_imap, Hf. simpl. by rewrite Hp.
Qed.

(** The fence lets a listing into the cache exactly when nothing invalidated
    its directory between [begin] and [end], whatever other listings begin and
    end meanwhile; and the fence forgets the directory exactly when no other
    listing of it is in flight. *)
Theorem fence_detects_invalidation (f : listingFence) (dir : string) (ops : list op) (n : Z)
    (Hn : 0 <= in_flight f dir) (Hlen : in_flight f dir + len ops < MaxInt64)
    (Hgen : 0 <= (begin f dir).2 < 2 ^ 64)
    (Hothers : others dir (in_flight f dir) ops = Some n) (Hfew : invalidations dir ops < 2 ^ 64) :
  let '(f1, gen) := begin f dir in
  let '(f2, unchanged) := end_ (foldl step f1 ops) dir gen in
  (unchanged = true <-> invalidations dir ops = 0) /\ (f2 !! dir = None <-> n = 0).
Proof.
  pose proof (invalidations_nonneg dir ops) as Hpos.
  destruct (begin f dir) as [f1 gen] eqn:Eb. simpl in Hgen.
  destruct (entry_survives dir ops (in_flight f dir) n f1 gen) as [He Hbound]; [|done..|].
  { unfold begin in Eb. injection Eb as <- <-. rewrite lookup_insert_eq. do 2 f_equal.
    unfold in_flight in *. destruct (f !! dir); simpl in *; rewrite wrap64_small; try done;
      unfold MaxInt64, MinInt64 in *; lia. }
  unfold end_. rewrite He. simpl. split.
  - bool_to_prop. destruct (Z.eq_dec (invalidations dir ops) 0) as [->|Hne].
    + rewrite Z.add_0_r, Z.mod_small by done. done.
    + split; [|lia]. intros Hm. exfalso. rewrite Z.mod_eq in Hm by lia.
      assert (gen + invalidations dir ops - gen = 2 ^ 64 * ((gen + invalidations dir ops) / 2 ^ 64)) as Hd by lia.
      replace (gen + invalidations dir ops - gen) with (invalidations dir ops) in Hd by lia. nia.
  - rewrite wrap64_small by (unfold MaxInt64, MinInt64 in *; lia).
    destruct (_ =? 0) eqn:E; bool_to_prop.
    + rewrite lookup_delete_eq. split; [lia|done].
    + rewrite lookup_insert_eq. split; [done|lia].
Qed.

Lemma fence_detects_invalidation_witness :
  let '(f1, gen) := begin ∅ "/a" in
  let '(f2, unchanged) :=
    end_ (foldl step f1 [Begin "/a"; InvalidatePrefix "/b"; End_ "/a" 0; Begin "/b"]) "/a" gen in
  (unchanged = true <-> 0 = 0) /\ (f2 !! "/a" = None <-> 0 = 0).
Proof.
  apply (fence_detects_invalidation ∅ "/a" [Begin "/a"; InvalidatePrefix "/b"; End_ "/a" 0; Begin "/b"] 0);
    by vm_compute.
Defined.

End ListingFence.
