(* ===== verification/LRU.v ===== *)
(** * The LRU cache ([internal/cache/lru.go])

    The cache is a map from keys to elements of a doubly linked list, whose
    elements are shared between the two; the list runs from the most to the
    least recently used.  The theorems relate it to a plain list of entries. *)
From S2P Require Import Prelude.

Module LRU.

Section LRU.
Context {V : Type}.

Record entry := mkEntry { key : string; value : V; expiresAt : Time }.

(** An element of the list, by the address of its node. *)
Abbreviation element := nat.

Record LRUCache := mkLRU {
  maxSize : Z;
  ttl : Duration;
  items : gmap string element;
  evictList : list element;  (* front first *)
  heap : gmap element entry;
  next : element;            (* the address of the next node *)
  hits : Z;
  misses : Z;
  evictions : Z
}.

Definition NewLRUCache (max : Z) (t : Duration) : LRUCache := mkLRU max t ∅ [] ∅ 0 0 0 0.

(** What the eviction callback is called with, in order. *)
Abbreviation evicted := (list (string * V)).

Definition incr64 (n : Z) : Z := (n + 1) mod 2 ^ 64.

Definition set_list (l : list element) (c : LRUCache) : LRUCache :=
  mkLRU (maxSize c) (ttl c) (items c) l (heap c) (next c) (hits c) (misses c) (evictions c).
Definition set_heap (h : gmap element entry) (c : LRUCache) : LRUCache :=
  mkLRU (maxSize c) (ttl c) (items c) (evictList c) h (next c) (hits c) (misses c) (evictions c).
Definition set_stats (h m e : Z) (c : LRUCache) : LRUCache :=
  mkLRU (maxSize c) (ttl c) (items c) (evictList c) (heap c) (next c) h m e.

(** [list.MoveToFront] and [list.Remove]. *)
Definition Remove (e : element) (l : list element) : list element := filter (fun x => x <> e) l.
Definition MoveToFront (e : element) (l : list element) : list element := e :: Remove e l.

(** [Get]. *)
Definition Get (c : LRUCache) (k : string) (now : Time) : LRUCache * option V :=
  match items c !! k with
  | None => (set_stats (hits c) (incr64 (misses c)) (evictions c) c, None)
  | Some e =>
      match heap c !! e with
      | None => (c, None)
      | Some ent =>
          if After now (expiresAt ent)
          then (set_stats (hits c) (incr64 (misses c)) (evictions c) c, None)
          else (set_stats (incr64 (hits c)) (misses c) (evictions c)
                  (set_list (MoveToFront e (evictList c)) c), Some (value ent))
      end
  end.

(** [GetStale]. *)
Definition GetStale (c : LRUCache) (k : string) : option V :=
  e ← items c !! k; value <$> heap c !! e.

(** [removeElement]. *)
Definition removeElement (c : LRUCache) (e : element) : LRUCache * evicted :=
  match heap c !! e with
  | None => (c, [])
  | Some ent =>
      (mkLRU (maxSize c) (ttl c) (delete (key ent) (items c)) (Remove e (evictList c)) (heap c) (next c)
         (hits c) (misses c) (evictions c), [(key ent, value ent)])
  end.

(** [evictOldest]. *)
Definition evictOldest (c : LRUCache) : LRUCache * evicted :=
  match last (evictList c) with
  | None => (c, [])
  | Some e =>
      let '(c, out) := removeElement c e in
      (set_stats (hits c) (misses c) (incr64 (evictions c)) c, out)
  end.

(** [Set] at [now]. *)
Definition Set_ (c : LRUCache) (k : string) (v : V) (now : Time) : LRUCache * evicted :=
  match items c !! k with
  | Some e =>
      (set_heap (<[e := mkEntry k v (now + ttl c)]> (heap c)) (set_list (MoveToFront e (evictList c)) c), [])
  | None =>
      let e := next c in
      let c := mkLRU (maxSize c) (ttl c) (<[k := e]> (items c)) (e :: evictList c)
                 (<[e := mkEntry k v (now + ttl c)]> (heap c)) (S e) (hits c) (misses c) (evictions c) in
      if maxSize c <? len (evictList c) then evictOldest c else (c, [])
  end.

(** [Delete]. *)
Definition Delete (c : LRUCache) (k : string) : LRUCache * evicted * bool :=
  match items c !! k with
  | Some e => (removeElement c e, true)
  | None => (c, [], false)
  end.

(** [DeletePrefix]: the keys in the order the map is iterated in. *)
Fixpoint delete_keys (prefix : string) (keys : list string) (c : LRUCache) (out : evicted) (count : Z)
    : LRUCache * evicted * Z :=
  match keys with
  | [] => (c, out, count)
  | k :: keys =>
      match items c !! k with
      | Some e =>
          if HasPrefix k prefix
          then let '(c, o) := removeElement c e in delete_keys prefix keys c (out ++ o) (count + 1)
          else delete_keys prefix keys c out count
      | None => delete_keys prefix keys c out count
      end
  end.

Definition DeletePrefix (c : LRUCache) (prefix : string) (iteration : list string) : LRUCache * evicted * Z :=
  delete_keys prefix iteration c [] 0.

(** [Clear], again in the order of the map. *)
Definition Clear (c : LRUCache) (iteration : list string) : LRUCache * evicted :=
  (mkLRU (maxSize c) (ttl c) ∅ [] (heap c) (next c) (hits c) (misses c) (evictions c),
   omap (fun k => v ← GetStale c k; Some (k, v)) iteration).

Definition Len (c : LRUCache) : Z := len (evictList c).

Definition ResetStats (c : LRUCache) : LRUCache := set_stats 0 0 0 c.

Definition staleRetention : Duration := 24 * Hour.

(** [CleanExpired]: from the back, as far as the loop goes; [n] bounds it. *)
Fixpoint clean (n : nat) (c : LRUCache) (now : Time) (out : evicted) (count : Z) : LRUCache * evicted * Z :=
  match n, last (evictList c) with
  | S n, Some e =>
      match heap c !! e with
      | Some ent =>
          if After now (expiresAt ent + staleRetention)
          then let '(c, o) := removeElement c e in clean n c now (out ++ o) (count + 1)
          else (c, out, count)
      | None => (c, out, count)
      end
  | _, _ => (c, out, count)
  end.

Definition CleanExpired (c : LRUCache) (now : Time) : LRUCache * evicted * Z :=
  clean (length (evictList c)) c now [] 0.

(** [EvictOldest]. *)
Definition EvictOldest (c : LRUCache) : LRUCache * evicted * bool :=
  if Len c =? 0 then (c, [], false) else (evictOldest c, true).

(** ** Well-formedness

    The map and the list hold the same elements, each under its own key. *)
Record wf (c : LRUCache) : Prop := mkWf {
  wf_nodup : NoDup (evictList c);
  wf_items k e : items c !! k = Some e -> e ∈ evictList c /\ exists ent, heap c !! e = Some ent /\ key ent = k;
  wf_list e : e ∈ evictList c -> exists ent, heap c !! e = Some ent /\ items c !! (key ent) = Some e;
  wf_next e : e ∈ evictList c -> (e < next c)%nat
}.

(** The entries, most recently used first. *)
Fixpoint entries_of (h : gmap element entry) (l : list element) : list entry :=
  match l with
  | [] => []
  | e :: l => match h !! e with Some ent => ent :: entries_of h l | None => entries_of h l end
  end.
Definition view (c : LRUCache) : list entry := entries_of (heap c) (evictList c).

Lemma wf_new max t : wf (NewLRUCache max t).
Proof. split; [constructor|done|intros ? ?%elem_of_nil; done|intros ? ?%elem_of_nil; done]. Qed.

Lemma entries_of_ext h1 h2 l :
  (forall e, e ∈ l -> h1 !! e = h2 !! e) -> entries_of h1 l = entries_of h2 l.
Proof.
  induction l as [|e l IH]; [done|]. intros H. simpl.
  rewrite (H e) by set_solver. rewrite IH by set_solver. done.
Qed.

Lemma entries_of_remove h l e k :
  (forall x, x ∈ l -> exists ent, h !! x = Some ent /\ (key ent = k <-> x = e)) ->
  entries_of h (Remove e l) = filter (fun ent => key ent <> k) (entries_of h l).
Proof.
  unfold Remove. induction l as [|x l IH]; [done|]. intros H.
  destruct (H x) as (ent & Hx & Hk); [set_solver|]. specialize (IH ltac:(set_solver)).
  rewrite filter_cons. simpl. rewrite Hx, filter_cons. case_decide as H1; case_decide as H2; try tauto.
  simpl. by rewrite Hx, IH.
Qed.

Lemma wf_same_key c k e :
  wf c -> items c !! k = Some e ->
  forall x, x ∈ evictList c -> exists ent, heap c !! x = Some ent /\ (key ent = k <-> x = e).
Proof.
  intros W Hk x Hx. destruct (wf_list c W x Hx) as (ent & Hh & Hi). exists ent. split; [done|]. split.
  - intros <-. congruence.
  - intros ->. destruct (wf_items c W _ _ Hk) as (_ & ent' & Hh' & <-). congruence.
Qed.

(** [removeElement] of the element of [k] removes the entry of [k]. *)
Lemma removeElement_spec c k e :
  wf c -> items c !! k = Some e ->
  exists ent, heap c !! e = Some ent /\ key ent = k /\
    let '(c', out) := removeElement c e in
    wf c' /\ view c' = filter (fun x => key x <> k) (view c) /\ out = [(k, value ent)] /\
    items c' = delete k (items c) /\ heap c' = heap c /\ maxSize c' = maxSize c /\ ttl c' = ttl c /\
    evictList c' = Remove e (evictList c).
Proof.
  intros W Hk. destruct (wf_items c W _ _ Hk) as (He & ent & Hh & Hkey). exists ent.
  split; [done|]. split; [done|]. unfold removeElement. rewrite Hh, Hkey.
  split; [|by unfold view; rewrite <-(entries_of_remove _ _ e k (wf_same_key c k e W Hk))].
  split; simpl.
  - apply NoDup_filter, W.
  - intros k' e' [Hne Hk']%lookup_delete_Some. destruct (wf_items c W _ _ Hk') as (He' & ent' & Hh' & Hkey').
    split; [|eauto]. unfold Remove. apply list_elem_of_filter. split; [|done]. intros ->. congruence.
  - intros x [Hne Hx]%list_elem_of_filter. destruct (wf_list c W x Hx) as (ent' & Hh' & Hi').
    exists ent'. split; [done|]. apply lookup_delete_Some. split; [|done]. intros Heq. congruence.
  - intros x [_ Hx]%list_elem_of_filter. by apply W.
Qed.

(** ** The reference: a list of entries *)

Fixpoint find_entry (k : string) (l : list entry) : option entry :=
  match l with
  | [] => None
  | ent :: l => if decide (key ent = k) then Some ent else find_entry k l
  end.

Abbreviation without k l := (filter (fun ent => key ent <> k) l).

Lemma find_view c k :
  wf c -> find_entry k (view c) = e ← items c !! k; heap c !! e.
Proof.
  intros W. destruct (items c !! k) as [e|] eqn:Hk; simpl.
  - pose proof (wf_same_key c k e W Hk) as Hsame. destruct (wf_items c W _ _ Hk) as (He & ent & Hh & Hkey).
    rewrite Hh. unfold view. clear W Hk. induction (evictList c) as [|x l IH]; [by apply elem_of_nil in He|].
    destruct (Hsame x) as (entx & Hx & Hkx); [set_solver|]. simpl. rewrite Hx. simpl. case_decide as Hd.
    + apply Hkx in Hd as ->. congruence.
    + apply IH; [set_solver|]. apply elem_of_cons in He as [->|He]; [tauto|done].
  - assert (Hn : forall x, x ∈ evictList c -> exists ent, heap c !! x = Some ent /\ key ent <> k).
    { intros x Hx. destruct (wf_list c W x Hx) as (ent & Hh & Hi). exists ent. split; [done|]. congruence. }
    unfold view. clear W Hk. induction (evictList c) as [|x l IH]; [done|].
    destruct (Hn x) as (entx & Hx & Hkx); [set_solver|]. simpl. rewrite Hx. simpl.
    rewrite decide_False by done. apply IH. set_solver.
Qed.

Lemma without_absent k l : find_entry k l = None -> without k l = l.
Proof.
  induction l as [|ent l IH]; [done|]. simpl. intros H. rewrite filter_cons.
  case_decide; [done|]. rewrite decide_True by done. f_equal. auto.
Qed.

Lemma view_length c : wf c -> length (view c) = length (evictList c).
Proof.
  intros W. pose proof (wf_list c W) as Hl. unfold view. clear W.
  induction (evictList c) as [|x l IH]; [done|]. destruct (Hl x) as (ent & Hx & _); [set_solver|].
  simpl. rewrite Hx. simpl. f_equal. apply IH. set_solver.
Qed.

Lemma entries_of_snoc h l e :
  entries_of h (l ++ [e]) = entries_of h l ++ (match h !! e with Some ent => [ent] | None => [] end).
Proof. induction l as [|x l IH]; simpl; [done|]. rewrite IH. by destruct (h !! x). Qed.

Lemma list_filter_all {A} (P : A -> Prop) `{!forall x, Decision (P x)} (l : list A) :
  Forall P l -> filter P l = l.
Proof.
  induction 1 as [|x l Hx _ IH]; [done|]. by rewrite filter_cons_True, IH.
Qed.

Lemma Remove_last e l : NoDup (l ++ [e]) -> Remove e (l ++ [e]) = l.
Proof.
  intros (_ & Hd & _)%NoDup_app. unfold Remove. rewrite filter_app, filter_cons, decide_False by naive_solver.
  rewrite filter_nil, app_nil_r. apply list_filter_all. apply Forall_forall. intros x Hx ->.
  apply (Hd e Hx). set_solver.
Qed.

Definition callback (ent : entry) : string * V := (key ent, value ent).

(** Evicting removes the last entry. *)
Lemma evict_last c e l :
  wf c -> evictList c = l ++ [e] ->
  exists ent, heap c !! e = Some ent /\ view c = entries_of (heap c) l ++ [ent] /\
    let '(c', out) := removeElement c e in
    wf c' /\ view c' = entries_of (heap c) l /\ out = [callback ent] /\ evictList c' = l /\
    maxSize c' = maxSize c /\ ttl c' = ttl c.
Proof.
  intros W Hl. destruct (wf_list c W e) as (ent & Hh & Hi); [rewrite Hl; set_solver|].
  destruct (removeElement_spec c _ e W Hi) as (ent' & Hh' & Hk & Hr). simplify_eq.
  exists ent. split; [done|]. split; [unfold view; by rewrite Hl, entries_of_snoc, Hh|].
  destruct (removeElement c e) as [c' out]. destruct Hr as (W' & Hv & -> & _ & Hheap & Hm & Ht & Hel).
  rewrite Hl, Remove_last in Hel by (rewrite <-Hl; apply W).
  split_and!; try done. unfold view. by rewrite Hheap, Hel.
Qed.

Definition dead (now : Time) (ent : entry) : bool := After now (expiresAt ent + staleRetention).

(** The entries [CleanExpired] takes from a list given from the back, and the rest. *)
Fixpoint expired_run (now : Time) (r : list entry) : list entry * list entry :=
  match r with
  | ent :: r' =>
      if dead now ent then let '(out, kept) := expired_run now r' in (ent :: out, kept) else ([], r)
  | [] => ([], [])
  end.

Inductive op :=
  | OGet (k : string) (now : Time)
  | OSet (k : string) (v : V) (now : Time)
  | ODelete (k : string)
  | ODeletePrefix (prefix : string) (iteration : list string)
  | OClear (iteration : list string)
  | OCleanExpired (now : Time)
  | OEvictOldest
  | OResetStats.

Definition perform (c : LRUCache) (o : op) : LRUCache * evicted * option V :=
  match o with
  | OGet k now => let '(c, v) := Get c k now in (c, [], v)
  | OSet k v now => (Set_ c k v now, None)
  | ODelete k => ((Delete c k).1, None)
  | ODeletePrefix prefix iteration => ((DeletePrefix c prefix iteration).1, None)
  | OClear iteration => (Clear c iteration, None)
  | OCleanExpired now => ((CleanExpired c now).1, None)
  | OEvictOldest => ((EvictOldest c).1, None)
  | OResetStats => (ResetStats c, [], None)
  end.

(** The same on the list of entries, front first: what is left, what the
    callback is given, what is returned. *)
Definition list_op (max : Z) (t : Duration) (l : list entry) (o : op) : list entry * list entry * option V :=
  match o with
  | OGet k now =>
      match find_entry k l with
      | Some ent => if After now (expiresAt ent) then (l, [], None) else (ent :: without k l, [], Some (value ent))
      | None => (l, [], None)
      end
  | OSet k v now =>
      let l' := mkEntry k v (now + t) :: without k l in
      match find_entry k l with
      | Some _ => (l', [], None)
      | None => if max <? len l' then (removelast l', option_list (last l'), None) else (l', [], None)
      end
  | ODelete k => (without k l, filter (fun ent => key ent = k) l, None)
  | ODeletePrefix p _ =>
      (filter (fun ent => HasPrefix (key ent) p = false) l, filter (fun ent => HasPrefix (key ent) p = true) l, None)
  | OClear _ => ([], l, None)
  | OCleanExpired now => let '(out, kept) := expired_run now (reverse l) in (reverse kept, out, None)
  | OEvictOldest => (removelast l, option_list (last l), None)
  | OResetStats => (l, [], None)
  end.

(** A map is iterated in any order. *)
Definition iterates (c : LRUCache) (o : op) : Prop :=
  match o with
  | ODeletePrefix _ ks | OClear ks => ks ≡ₚ (map_to_list (items c)).*1
  | _ => True
  end.

(** ** Each operation *)

Lemma wf_set_stats c h m e : wf c -> wf (set_stats h m e c).
Proof. intros []. by split. Qed.

Lemma wf_front c k e :
  wf c -> items c !! k = Some e -> wf (set_list (MoveToFront e (evictList c)) c).
Proof.
  intros W Hk. destruct (wf_items c W _ _ Hk) as [He _].
  assert (Hel : forall x, x ∈ MoveToFront e (evictList c) <-> x ∈ evictList c).
  { intros x. unfold MoveToFront, Remove. rewrite elem_of_cons, list_elem_of_filter.
    destruct (decide (x = e)) as [->|]; naive_solver. }
  split; simpl.
  - constructor; [unfold Remove; rewrite list_elem_of_filter; naive_solver|apply NoDup_filter, W].
  - intros k' e' Hk'. destruct (wf_items c W _ _ Hk') as [He' Hh]. by rewrite Hel.
  - intros x Hx%Hel. by apply W.
  - intros x Hx%Hel. by apply W.
Qed.

Lemma view_front c k e ent :
  wf c -> items c !! k = Some e -> heap c !! e = Some ent ->
  view (set_list (MoveToFront e (evictList c)) c) = ent :: without k (view c).
Proof.
  intros W Hk Hh. unfold view. simpl. rewrite Hh.
  by rewrite (entries_of_remove _ _ e k (wf_same_key c k e W Hk)).
Qed.

Lemma Get_refines c k now :
  wf c ->
  let '(c', v) := Get c k now in
  wf c' /\ list_op (maxSize c) (ttl c) (view c) (OGet k now) = (view c', [], v).
Proof.
  intros W. unfold Get, list_op. rewrite (find_view c k W).
  destruct (items c !! k) as [e|] eqn:Hk; simpl; [|by split; [apply wf_set_stats|]].
  destruct (wf_items c W _ _ Hk) as (_ & ent & Hh & _). rewrite Hh.
  destruct (expiresAt ent <? now); [by split; [apply wf_set_stats|]|].
  split; [by eapply wf_set_stats, wf_front|]. by rewrite <-(view_front c k e ent W Hk Hh).
Qed.

Lemma evictOldest_refines c :
  wf c ->
  let '(c', out) := evictOldest c in
  wf c' /\ view c' = removelast (view c) /\ out = callback <$> option_list (last (view c)).
Proof.
  intros W. unfold evictOldest. destruct (evictList c) as [|e l _] eqn:Hl using rev_ind.
  - simpl. unfold view. rewrite Hl. by split.
  - rewrite last_snoc. destruct (evict_last c e l W Hl) as (ent & Hh & Hv & Hr).
    destruct (removeElement c e) as [c' out]. destruct Hr as (W' & Hv' & -> & _).
    split; [by apply wf_set_stats|]. rewrite Hv, last_snoc, removelast_last. by split.
Qed.

(** Adding an entry of a new key. *)
Lemma wf_push c k ent :
  wf c -> items c !! k = None -> key ent = k ->
  wf (mkLRU (maxSize c) (ttl c) (<[k := next c]> (items c)) (next c :: evictList c)
        (<[next c := ent]> (heap c)) (S (next c)) (hits c) (misses c) (evictions c)).
Proof.
  intros W Hk Hkey.
  assert (Hfresh : next c ∉ evictList c) by (intros H%(wf_next c W); lia).
  split; simpl.
  - constructor; [done|apply W].
  - intros k' e' [[<- <-]|[Hne Hk']]%lookup_insert_Some.
    + split; [set_solver|]. exists ent. by rewrite lookup_insert_eq.
    + destruct (wf_items c W _ _ Hk') as (He' & ent' & Hh' & Hkey'). split; [set_solver|].
      exists ent'. rewrite lookup_insert_ne; [done|]. intros <-. done.
  - intros x [->|Hx]%elem_of_cons.
    + exists ent. rewrite lookup_insert_eq, Hkey, lookup_insert_eq. done.
    + destruct (wf_list c W x Hx) as (ent' & Hh' & Hi'). exists ent'.
      rewrite !lookup_insert_ne; [done| |]; intros Heq; subst; [congruence|done].
  - intros x [->|Hx]%elem_of_cons; [lia|]. specialize (wf_next c W x Hx). lia.
Qed.

Lemma Set_refines c k v now :
  wf c ->
  let '(c', out) := Set_ c k v now in
  wf c' /\ exists gone, list_op (maxSize c) (ttl c) (view c) (OSet k v now) = (view c', gone, None) /\
    out = callback <$> gone.
Proof.
  intros W. unfold Set_, list_op. rewrite (find_view c k W).
  destruct (items c !! k) as [e|] eqn:Hk; simpl.
  - destruct (wf_items c W _ _ Hk) as (He & ent & Hh & Hkey). rewrite Hh.
    set (ent' := mkEntry k v (now + ttl c)).
    pose proof (wf_front c k e W Hk) as Wf.
    assert (Hsame : forall x, x <> e -> <[e:=ent']> (heap c) !! x = heap c !! x).
    { intros x Hx. by rewrite lookup_insert_ne. }
    split.
    + split; simpl; [apply Wf| |intros x Hx|apply Wf].
      * intros k' e' Hk'. destruct (wf_items _ Wf _ _ Hk') as (He' & ent1 & Hh' & Hkey'). simpl in *.
        split; [done|]. destruct (decide (e' = e)) as [->|Hne].
        -- exists ent'. rewrite lookup_insert_eq. split; [done|]. simplify_eq. done.
        -- exists ent1. by rewrite Hsame.
      * destruct (wf_list _ Wf x Hx) as (ent1 & Hh' & Hi'). simpl in *.
        destruct (decide (x = e)) as [->|Hne]; [|exists ent1; by rewrite Hsame].
        exists ent'. by rewrite lookup_insert_eq.
    + exists []. split; [|done]. f_equal. f_equal. unfold view. simpl. rewrite lookup_insert_eq. f_equal.
      rewrite <-(entries_of_remove _ _ e k (wf_same_key c k e W Hk)).
      apply entries_of_ext. unfold Remove. intros x [Hx _]%list_elem_of_filter. by rewrite Hsame.
  - rewrite without_absent by by rewrite (find_view c k W), Hk.
    pose proof (wf_push c k (mkEntry k v (now + ttl c)) W Hk eq_refl) as Wp.
    set (cp := mkLRU _ _ _ _ _ _ _ _ _) in *.
    assert (Hv : view cp = mkEntry k v (now + ttl c) :: view c).
    { unfold view. simpl. rewrite lookup_insert_eq. f_equal. apply entries_of_ext.
      intros x Hx. rewrite lookup_insert_ne; [done|]. intros <-. specialize (wf_next c W _ Hx). lia. }
    pose proof (view_length cp Wp) as Hlen. rewrite Hv in Hlen. simpl in Hlen.
    injection Hlen as Hlen. rewrite Hlen.
    destruct (maxSize c <? _).
    + pose proof (evictOldest_refines cp Wp) as He. destruct (evictOldest cp) as [c' out].
      destruct He as (W' & Hv' & ->). split; [done|]. eexists. rewrite Hv', Hv. by split.
    + split; [done|]. exists []. by rewrite Hv.
Qed.

(** Every key has one entry. *)
Lemma view_keys c : wf c -> NoDup (key <$> view c).
Proof.
  intros W. pose proof (wf_list c W) as Hl. pose proof (wf_nodup c W) as Hnd. unfold view. clear W.
  induction (evictList c) as [|x l IH]; [constructor|]. apply NoDup_cons in Hnd as [Hx Hnd].
  destruct (Hl x) as (ent & Hh & Hi); [set_solver|]. simpl. rewrite Hh, fmap_cons.
  constructor; [|apply IH; [set_solver|done]]. clear IH Hnd.
  induction l as [|y l IH]; [apply not_elem_of_nil|]. destruct (Hl y) as (ent' & Hh' & Hi'); [set_solver|].
  simpl. rewrite Hh', fmap_cons, not_elem_of_cons. split; [intros Heq; rewrite Heq in Hi; set_solver|].
  apply IH; set_solver.
Qed.

Lemma filter_absent k l : k ∉ (key <$> l) -> filter (fun ent => key ent = k) l = [].
Proof.
  induction l as [|ent l IH]; [done|]. rewrite fmap_cons, not_elem_of_cons. intros [H1 H2].
  rewrite filter_cons_False by done. auto.
Qed.

Lemma filter_key k l : NoDup (key <$> l) -> filter (fun ent => key ent = k) l = option_list (find_entry k l).
Proof.
  induction l as [|ent l IH]; [done|]. rewrite fmap_cons, NoDup_cons. intros [Hn Hnd]. simpl.
  rewrite filter_cons. case_decide as Hk; [|auto]. simpl. f_equal. apply filter_absent. by rewrite <-Hk.
Qed.

Lemma Delete_refines c k :
  wf c ->
  let '(c', out, found) := Delete c k in
  wf c' /\ exists gone, list_op (maxSize c) (ttl c) (view c) (ODelete k) = (view c', gone, None) /\
    out = callback <$> gone /\ found = bool_decide (is_Some (find_entry k (view c))).
Proof.
  intros W. unfold Delete, list_op. pose proof (find_view c k W) as Hf.
  rewrite (filter_key k (view c) (view_keys c W)).
  destruct (items c !! k) as [e|] eqn:Hk; simpl in Hf.
  - destruct (removeElement_spec c k e W Hk) as (ent & Hh & <- & Hr).
    destruct (removeElement c e) as [c' out]. destruct Hr as (W' & Hv & -> & _). rewrite Hh in Hf.
    split; [done|]. eexists. rewrite Hv, Hf. split; [done|]. split; [done|by rewrite bool_decide_true].
  - split; [done|]. rewrite Hf, without_absent by done. exists [].
    split; [done|]. split; [done|]. rewrite bool_decide_false; [done|by intros []].
Qed.

(** The entries an iteration over [ks] takes. *)
Definition taken (prefix : string) (ks : list string) (ent : entry) : bool :=
  bool_decide (key ent ∈ ks) && HasPrefix (key ent) prefix.

Lemma find_without k x l : x <> k -> find_entry x (without k l) = find_entry x l.
Proof.
  intros Hne. induction l as [|y l IH]; [done|]. rewrite filter_cons. simpl.
  case_decide; simpl; repeat case_decide; congruence.
Qed.

Lemma find_entry_None k l : find_entry k l = None -> forall ent, ent ∈ l -> key ent <> k.
Proof.
  induction l as [|x l IH]; [by intros _ ? ?%elem_of_nil|]. simpl. case_decide; [done|].
  intros Hn ent [->|He]%elem_of_cons; auto.
Qed.

(** A key that is absent or without the prefix takes nothing. *)
Lemma taken_skip prefix k ks l :
  find_entry k l = None \/ HasPrefix k prefix = false ->
  filter (fun ent => taken prefix (k :: ks) ent = false) l = filter (fun ent => taken prefix ks ent = false) l.
Proof.
  intros Hor. assert (Heq : forall ent, ent ∈ l -> taken prefix (k :: ks) ent = taken prefix ks ent).
  { intros ent He. unfold taken. destruct (decide (key ent = k)) as [Hk|Hk].
    - destruct Hor as [Hn|Hp]; [by destruct (find_entry_None k l Hn ent He)|].
      by rewrite Hk, Hp, !andb_false_r.
    - f_equal. apply bool_decide_ext. rewrite elem_of_cons. naive_solver. }
  clear Hor. induction l as [|ent l IH]; [done|]. rewrite !filter_cons, (Heq ent), IH by set_solver. done.
Qed.

(** Removing the keys of an iteration one by one. *)
Lemma delete_keys_refines prefix ks : forall c out n,
  wf c -> NoDup ks ->
  let '(c', out', n') := delete_keys prefix ks c out n in
  wf c' /\ maxSize c' = maxSize c /\ ttl c' = ttl c /\
  view c' = filter (fun ent => taken prefix ks ent = false) (view c) /\
  out' = out ++ omap (fun k => if HasPrefix k prefix then callback <$> find_entry k (view c) else None) ks.
Proof.
  induction ks as [|k ks IH]; intros c out n W Hnd; simpl.
  { split_and!; try done; [|by rewrite app_nil_r]. symmetry. by apply list_filter_all, Forall_forall. }
  apply NoDup_cons in Hnd as [Hk Hnd]. pose proof (find_view c k W) as Hf.
  destruct (items c !! k) as [e|] eqn:Hki; simpl in Hf.
  - destruct (HasPrefix k prefix) eqn:Hp.
    + destruct (removeElement_spec c k e W Hki) as (ent & Hh & Hkey & Hr).
      destruct (removeElement c e) as [c1 o]. destruct Hr as (W1 & Hv1 & -> & _ & _ & Hm1 & Ht1 & _).
      specialize (IH c1 (out ++ [(k, value ent)]) (n + 1) W1 Hnd).
      destruct (delete_keys _ _ _ _ _) as [[c' out'] n']. destruct IH as (W' & Hm & Ht & Hv & ->).
      split_and!; [done|congruence|congruence| |].
      * rewrite Hv, Hv1, list_filter_filter. apply list_filter_iff. intros x. unfold taken.
        destruct (decide (key x = k)) as [->|Hne].
        -- rewrite Hp, (bool_decide_true (k ∈ k :: ks)) by set_solver. naive_solver.
        -- rewrite (bool_decide_ext (key x ∈ k :: ks) (key x ∈ ks)) by set_solver. tauto.
      * rewrite Hf, Hh. simpl. unfold callback at 2. rewrite Hkey, <-app_assoc. simpl. do 2 f_equal.
        apply list_omap_ext. apply Forall_Forall2_diag, Forall_forall. intros x Hx.
        destruct (HasPrefix x prefix); [|done]. rewrite Hv1, find_without; [done|]. by intros ->.
    + specialize (IH c out n W Hnd). destruct (delete_keys _ _ _ _ _) as [[c' out'] n'].
      rewrite taken_skip by auto. done.
  - specialize (IH c out n W Hnd). destruct (delete_keys _ _ _ _ _) as [[c' out'] n'].
    rewrite taken_skip by auto. destruct IH as (W' & Hm & Ht & Hv & ->). split_and!; try done.
    rewrite Hf. by destruct (HasPrefix k prefix).
Qed.

Lemma find_own l ent : NoDup (key <$> l) -> ent ∈ l -> find_entry (key ent) l = Some ent.
Proof.
  induction l as [|x l IH]; [by intros _ ?%elem_of_nil|]. rewrite fmap_cons, NoDup_cons.
  intros [Hn Hnd] [->|He]%elem_of_cons; simpl; [by rewrite decide_True|].
  rewrite decide_False; [auto|]. intros Heq. apply Hn. rewrite Heq. by apply list_elem_of_fmap_2.
Qed.

(** Looking up every key of the list in turn gives its entries. *)
Lemma omap_keys {B} (f : entry -> option B) l :
  NoDup (key <$> l) -> omap (fun k => ent ← find_entry k l; f ent) (key <$> l) = omap f l.
Proof.
  intros Hnd. apply list_omap_ext, Forall2_fmap_l, Forall_Forall2_diag, Forall_forall.
  intros ent He. simpl. by rewrite find_own.
Qed.

(** The keys of the map, in any order, are those of the list. *)
Lemma iteration_keys c ks :
  wf c -> ks ≡ₚ (map_to_list (items c)).*1 -> NoDup ks /\ ks ≡ₚ key <$> view c.
Proof.
  intros W Hks. assert (Hnd : NoDup ks) by (rewrite Hks; apply NoDup_fst_map_to_list).
  split; [done|]. apply NoDup_Permutation; [done|by apply view_keys|]. intros k. rewrite Hks. split.
  - intros ([k' e] & -> & Hm)%list_elem_of_fmap. apply elem_of_map_to_list in Hm. simpl.
    pose proof (find_view c k' W) as Hf. destruct (wf_items c W _ _ Hm) as (He & ent & Hh & <-).
    apply list_elem_of_fmap. exists ent. split; [done|]. rewrite Hm in Hf. simpl in Hf. rewrite Hh in Hf.
    clear -Hf. induction (view c) as [|x l IH]; [done|]. simpl in Hf. case_decide; [simplify_eq|]; set_solver.
  - intros (ent & -> & He)%list_elem_of_fmap. pose proof (find_view c (key ent) W) as Hf.
    rewrite (find_own _ ent (view_keys c W) He) in Hf.
    destruct (items c !! key ent) as [e|] eqn:Hi; [|done]. apply list_elem_of_fmap.
    exists (key ent, e). split; [done|]. by apply elem_of_map_to_list.
Qed.

Lemma DeletePrefix_refines c prefix ks :
  wf c -> ks ≡ₚ (map_to_list (items c)).*1 ->
  let '(c', out, _) := DeletePrefix c prefix ks in
  wf c' /\ exists gone, list_op (maxSize c) (ttl c) (view c) (ODeletePrefix prefix ks) = (view c', gone, None) /\
    out ≡ₚ callback <$> gone.
Proof.
  intros W Hks. destruct (iteration_keys c ks W Hks) as [Hnd Hperm]. unfold DeletePrefix.
  pose proof (delete_keys_refines prefix ks c [] 0 W Hnd) as Hd.
  destruct (delete_keys prefix ks c [] 0) as [[c' out] n]. destruct Hd as (W' & _ & _ & Hv & ->).
  split; [done|]. eexists. split.
  - unfold list_op. do 2 f_equal. rewrite Hv. pose proof (view_keys c W) as Hvk. symmetry.
    assert (Hin : forall ent, ent ∈ view c -> key ent ∈ ks).
    { intros ent He. rewrite Hperm. by apply list_elem_of_fmap_2. }
    clear -Hin. induction (view c) as [|ent l IH]; [done|]. rewrite !filter_cons, IH by set_solver.
    assert (taken prefix ks ent = HasPrefix (key ent) prefix) as ->; [|done].
    unfold taken. rewrite bool_decide_true; [done|]. apply Hin. set_solver.
  - simpl. rewrite Hperm.
    transitivity (omap (fun k => ent ← find_entry k (view c);
      if HasPrefix (key ent) prefix then Some (callback ent) else None) (key <$> view c)).
    + apply reflexive_eq, list_omap_ext, Forall_Forall2_diag, Forall_forall.
      intros k (ent & -> & He)%list_elem_of_fmap. rewrite (find_own _ ent (view_keys c W) He). simpl.
      by destruct (HasPrefix (key ent) prefix).
    + rewrite omap_keys by by apply view_keys. apply reflexive_eq. clear.
      induction (view c) as [|ent l IH]; [done|]. rewrite filter_cons. csimpl.
      destruct (HasPrefix (key ent) prefix); csimpl; by rewrite IH.
Qed.

Lemma wf_Clear c ks : wf (Clear c ks).1.
Proof. split; simpl; [constructor|done|by intros ? ?%elem_of_nil|by intros ? ?%elem_of_nil]. Qed.

Lemma Clear_refines c ks :
  wf c -> ks ≡ₚ (map_to_list (items c)).*1 -> (Clear c ks).2 ≡ₚ callback <$> view c.
Proof.
  intros W Hks. destruct (iteration_keys c ks W Hks) as [Hnd Hperm]. simpl. rewrite Hperm.
  transitivity (omap (fun k => ent ← find_entry k (view c); Some (callback ent)) (key <$> view c)).
  - apply reflexive_eq, list_omap_ext, Forall_Forall2_diag, Forall_forall.
    intros k (ent & -> & He)%list_elem_of_fmap. unfold GetStale.
    pose proof (find_view c (key ent) W) as Hf. rewrite (find_own _ ent (view_keys c W) He) in *.
    destruct (items c !! key ent) as [e|]; [|done]. simpl in *. by rewrite <-Hf.
  - rewrite omap_keys by by apply view_keys. apply reflexive_eq. clear.
    induction (view c) as [|ent l IH]; [done|]. csimpl. by rewrite IH.
Qed.

Lemma clean_refines now n : forall c out count,
  wf c -> n = length (evictList c) ->
  let '(c', out', count') := clean n c now out count in
  let '(gone, kept) := expired_run now (reverse (view c)) in
  wf c' /\ view c' = reverse kept /\ out' = out ++ (callback <$> gone) /\ count' = count + len gone.
Proof.
  induction n as [|n IH]; intros c out count W Hn.
  - pose proof (view_length c W) as Hl. rewrite <-Hn in Hl. simpl.
    destruct (view c) eqn:Hv; [|done]. simpl. rewrite app_nil_r. split_and!; try done. lia.
  - destruct (evictList c) as [|e l _] eqn:Hl using rev_ind; [done|]. simpl. rewrite Hl, last_snoc.
    destruct (evict_last c e l W Hl) as (ent & Hh & Hv & Hr). rewrite Hh, Hv, reverse_snoc. simpl.
    unfold dead. destruct (expiresAt ent + staleRetention <? now).
    + destruct (removeElement c e) as [c1 o]. destruct Hr as (W1 & Hv1 & -> & Hl1 & _).
      specialize (IH c1 (out ++ [callback ent]) (count + 1) W1). rewrite Hl1 in IH.
      rewrite length_app in Hn. simpl in Hn. specialize (IH ltac:(lia)). rewrite Hv1 in IH.
      destruct (clean n c1 now _ _) as [[c' out'] count']. destruct (expired_run _ _) as [gone kept].
      destruct IH as (W' & Hv' & -> & ->). split_and!; try done; [|simpl; lia]. by rewrite <-app_assoc.
    + rewrite app_nil_r, Hv. split_and!; try done; [|simpl; lia].
      by rewrite reverse_cons, reverse_involutive.
Qed.

(** *** Capacity *)

Definition limits (c : LRUCache) : Z * Duration := (maxSize c, ttl c).

Lemma limits_remove c e : limits (removeElement c e).1 = limits c.
Proof. unfold removeElement. by destruct (heap c !! e). Qed.

Lemma limits_evict c : limits (evictOldest c).1 = limits c.
Proof.
  unfold evictOldest. destruct (last _) as [e|]; [|done]. pose proof (limits_remove c e) as H.
  by destruct (removeElement c e).
Qed.

Lemma limits_delete_keys p ks c out n : limits (delete_keys p ks c out n).1.1 = limits c.
Proof.
  revert c out n. induction ks as [|k ks IH]; intros c out n; [done|]. simpl.
  destruct (items c !! k) as [e|]; [|apply IH]. destruct (HasPrefix k p); [|apply IH].
  pose proof (limits_remove c e) as H. destruct (removeElement c e) as [c1 o]. by rewrite IH.
Qed.

Lemma limits_clean fuel c now out n : limits (clean fuel c now out n).1.1 = limits c.
Proof.
  revert c out n. induction fuel as [|fuel IH]; intros c out n; [done|]. simpl.
  destruct (last _) as [e|]; [|done]. destruct (heap c !! e) as [ent|]; [|done].
  destruct (_ <? _); [|done]. pose proof (limits_remove c e) as H. destruct (removeElement c e) as [c1 o].
  by rewrite IH.
Qed.

Lemma limits_perform c o : limits (perform c o).1.1 = limits c.
Proof.
  destruct o as [k now|k v now|k|p ks|ks|now| |]; simpl; try done.
  - unfold Get. destruct (items c !! k) as [e|]; [|done]. destruct (heap c !! e) as [ent|]; [|done].
    by destruct (expiresAt ent <? now).
  - unfold Set_. destruct (items c !! k) as [e|]; [done|]. destruct (_ <? _); [|done]. by rewrite limits_evict.
  - unfold Delete. destruct (items c !! k); [apply limits_remove|done].
  - apply limits_delete_keys.
  - apply limits_clean.
  - unfold EvictOldest. destruct (_ =? 0); [done|apply limits_evict].
Qed.

Lemma perform_refines c o :
  wf c -> iterates c o ->
  let '(c', out, v) := perform c o in
  wf c' /\ exists gone, list_op (maxSize c) (ttl c) (view c) o = (view c', gone, v) /\ out ≡ₚ callback <$> gone.
Proof.
  intros W Hit. destruct o as [k now|k v now|k|p ks|ks|now| |]; simpl perform; simpl iterates in Hit.
  - pose proof (Get_refines c k now W) as H. destruct (Get c k now) as [c' v]. naive_solver.
  - pose proof (Set_refines c k v now W) as H. destruct (Set_ c k v now) as [c' out].
    destruct H as (W' & gone & Hl & ->). eauto.
  - pose proof (Delete_refines c k W) as H. destruct (Delete c k) as [[c' out] found].
    destruct H as (W' & gone & Hl & -> & _). simpl. eauto.
  - pose proof (DeletePrefix_refines c p ks W Hit) as H. by destruct (DeletePrefix c p ks) as [[c' out] n].
  - pose proof (Clear_refines c ks W Hit) as H. pose proof (wf_Clear c ks) as W'.
    destruct (Clear c ks) as [c' out] eqn:E. split; [done|]. exists (view c). injection E as <- <-. done.
  - unfold CleanExpired. pose proof (clean_refines now _ c [] 0 W eq_refl) as H.
    destruct (clean _ _ _ _ _) as [[c' out] n]. simpl in *. destruct (expired_run _ _) as [gone kept].
    destruct H as (W' & -> & -> & _). eauto.
  - unfold EvictOldest, Len. destruct (_ =? 0) eqn:E; simpl.
    + bool_to_prop. pose proof (view_length c W) as Hl. destruct (view c) eqn:Hv; [|simpl in Hl; lia].
      split; [done|]. by exists [].
    + pose proof (evictOldest_refines c W) as H. destruct (evictOldest c) as [c' out].
      destruct H as (W' & -> & ->). eauto.
  - split; [by apply wf_set_stats|]. by exists [].
Qed.

(** The cache, with its map and its linked list of shared elements, behaves as
    the list of its entries does: every operation leaves the same entries in
    the same order, returns the same value and evicts the same entries,
    whatever order the map is iterated in. *)
Theorem lru_refines_list (c : LRUCache) (o : op) (W : wf c) (Hit : iterates c o) :
  let '(c', out, v) := perform c o in
  wf c' /\ exists gone, list_op (maxSize c) (ttl c) (view c) o = (view c', gone, v) /\ out ≡ₚ callback <$> gone.
Proof. exact (perform_refines c o W Hit). Qed.

Lemma length_filter_key (P : entry -> Prop) `{!forall x, Decision (P x)} l : len (filter P l) <= len l.
Proof. pose proof (length_filter P l). lia. Qed.

Lemma length_removelast (l : list entry) : len (removelast l) = Z.max 0 (len l - 1).
Proof.
  destruct l as [|x l _] using rev_ind; [done|]. rewrite removelast_last, length_app. simpl. lia.
Qed.

Lemma expired_run_length now (r : list entry) : len (expired_run now r).2 <= len r.
Proof.
  induction r as [|ent r IH]; [done|]. simpl. destruct (dead now ent); [|done].
  destruct (expired_run now r). simpl in *. lia.
Qed.

(** On a list with one entry per key, removing a present key shortens it. *)
Lemma without_present k l ent : find_entry k l = Some ent -> len (without k l) < len l.
Proof.
  intros Hf. assert (ent ∈ l /\ key ent = k) as [He Hk].
  { induction l as [|x l IH]; [done|]. simpl in Hf. case_decide; [simplify_eq; split; [left|done]|].
    destruct (IH Hf). split; [by right|done]. }
  pose proof (length_filter_lt (fun x => key x <> k) l ent He ltac:(tauto)). lia.
Qed.

Lemma list_op_bounded max t l o :
  0 <= max -> len l <= max -> len (list_op max t l o).1.1 <= max.
Proof.
  intros Hmax Hl. destruct o as [k now|k v now|k|p ks|ks|now| |]; simpl; try lia.
  - destruct (find_entry k l) as [ent|] eqn:E; [|done]. destruct (_ <? _); [done|].
    pose proof (without_present k l ent E). simpl. lia.
  - destruct (find_entry k l) as [ent|] eqn:E.
    + pose proof (without_present k l ent E). simpl. lia.
    + rewrite without_absent by done. destruct (_ <? _) eqn:E2; bool_to_prop; [|done].
      pose proof (length_removelast (mkEntry k v (now + t) :: l)). simpl in *. lia.
  - pose proof (length_filter_key (fun ent => key ent <> k) l). lia.
  - pose proof (length_filter_key (fun ent => HasPrefix (key ent) p = false) l). lia.
  - pose proof (expired_run_length now (reverse l)) as H. rewrite length_reverse in H.
    destruct (expired_run _ _). simpl in *. rewrite length_reverse. lia.
  - rewrite length_removelast. lia.
Qed.

(** Runs of operations, each iterating over the map as it finds it. *)
Inductive runs : LRUCache -> LRUCache -> Prop :=
  | runs_refl c : runs c c
  | runs_step c o c' : iterates c o -> runs (perform c o).1.1 c' -> runs c c'.

(** One step of a run, for the proofs below. *)
Lemma perform_invariant c o :
  wf c -> iterates c o -> 0 <= maxSize c -> Len c <= maxSize c ->
  wf (perform c o).1.1 /\ 0 <= maxSize (perform c o).1.1 /\ Len (perform c o).1.1 <= maxSize (perform c o).1.1.
Proof.
  intros W Hit Hm Hl.
  assert (Href : wf (perform c o).1.1 /\ view (perform c o).1.1 = (list_op (maxSize c) (ttl c) (view c) o).1.1).
  { pose proof (perform_refines c o W Hit) as H. destruct (perform c o) as [[c' out] v].
    destruct H as (W' & gone & -> & _). done. }
  destruct Href as [W' Hv]. pose proof (limits_perform c o) as Hlim. unfold limits in Hlim.
  injection Hlim as Hmax Httl. split; [done|]. rewrite Hmax. split; [done|].
  unfold Len in *. rewrite <-view_length, Hv by done. apply list_op_bounded; [done|].
  by rewrite view_length.
Qed.

(** However it is used, the cache never holds more entries than its capacity,
    and its map and its list keep the same elements, one per key. *)
Theorem lru_within_capacity (max : Z) (t : Duration) (c : LRUCache)
    (Hmax : 0 <= max) (Hrun : runs (NewLRUCache max t) c) :
  Len c <= max /\ wf c /\ NoDup (key <$> view c).
Proof.
  assert (Hgen : forall c0, runs c0 c -> wf c0 -> 0 <= maxSize c0 -> Len c0 <= maxSize c0 ->
    wf c /\ Len c <= maxSize c /\ maxSize c = maxSize c0).
  { induction 1 as [c0|c0 o c' Hit Hr IH]; intros W Hm Hl; [done|].
    destruct (perform_invariant c0 o W Hit Hm Hl) as (W' & Hm' & Hl').
    destruct (IH Hrun W' Hm' Hl') as (? & ? & Heq). pose proof (limits_perform c0 o) as Hlim.
    injection Hlim as Hmax' _. split_and!; [done|done|congruence]. }
  destruct (Hgen _ Hrun) as (W & Hl & Heq); [apply wf_new|done|done|].
  simpl in Heq. split; [lia|]. split; [done|by apply view_keys].
Qed.

(** ** What an operation does to the entries, for clients of the cache *)

Lemma removelast_all (l : list entry) : removelast l ++ option_list (last l) = l.
Proof. destruct l as [|y l _] using rev_ind; [done|]. by rewrite removelast_last, last_snoc. Qed.

Lemma expired_run_all now (r : list entry) : (expired_run now r).1 ++ (expired_run now r).2 = r.
Proof.
  induction r as [|y r IH]; [done|]. simpl. destruct (dead now y); [|done].
  destruct (expired_run now r). simpl in *. by rewrite IH.
Qed.

Lemma find_entry_elem k l ent : find_entry k l = Some ent -> ent ∈ l /\ key ent = k.
Proof.
  induction l as [|x l IH]; [done|]. simpl. case_decide; [intros [= ->]; split; [by left|done]|].
  intros H1. destruct (IH H1). split; [by right|done].
Qed.

(** Parts of a list with one entry per key have no key in common. *)
Lemma parts_disjoint l l1 l2 e g :
  NoDup (key <$> l) -> l1 ++ l2 ≡ₚ l -> e ∈ l1 -> g ∈ l2 -> key e <> key g.
Proof.
  intros Hnd Hp He Hg Heq. rewrite <-Hp, fmap_app in Hnd. apply NoDup_app in Hnd as (_ & Hd & _).
  apply (Hd (key e)); [by apply list_elem_of_fmap_2|rewrite Heq; by apply list_elem_of_fmap_2].
Qed.

(** The entries a [Set] starts from. *)
Lemma push_keys k v x l :
  NoDup (key <$> l) -> find_entry k l = None -> NoDup (key <$> mkEntry k v x :: l).
Proof.
  intros Hnd Hf. rewrite fmap_cons. constructor; [|done]. intros (ent & Hk & He)%list_elem_of_fmap.
  by destruct (find_entry_None k l Hf ent He).
Qed.

(** Whatever an operation keeps or evicts was there before or is what it sets,
    and it evicts no key that it keeps. *)
Lemma list_op_entries max t l o l' gone v :
  NoDup (key <$> l) -> list_op max t l o = (l', gone, v) ->
  (forall e, e ∈ l' \/ e ∈ gone -> e ∈ l \/ exists k x now, o = OSet k x now /\ e = mkEntry k x (now + t)) /\
  (forall e g, e ∈ l' -> g ∈ gone -> key e <> key g).
Proof.
  intros Hnd Hop.
  assert (Hp : l' ++ gone ≡ₚ l -> (forall e, e ∈ l' \/ e ∈ gone -> e ∈ l \/ exists k x now, o = OSet k x now /\
    e = mkEntry k x (now + t)) /\ (forall e g, e ∈ l' -> g ∈ gone -> key e <> key g)).
  { intros Hp. split; [|intros e g; by eapply parts_disjoint]. intros e He. left. rewrite <-Hp. set_solver. }
  destruct o as [k now|k x now|k|p ks|ks|now| |]; simpl in Hop.
  - destruct (find_entry k l) as [ent|] eqn:Hf; [destruct (expiresAt ent <? now)|]; simplify_eq;
      [apply Hp; by rewrite app_nil_r| |apply Hp; by rewrite app_nil_r].
    split; [|by intros ? ? _ ?%elem_of_nil]. intros e [He|He%elem_of_nil]; [left|done].
    apply elem_of_cons in He as [->|He]; [by eapply find_entry_elem|].
    by apply list_elem_of_filter in He as [_ He].
  - assert (Hnew : forall e, e ∈ mkEntry k x (now + t) :: without k l ->
      e ∈ l \/ exists k' x' now', OSet k x now = OSet k' x' now' /\ e = mkEntry k' x' (now' + t)).
    { intros e [->|[_ He]%list_elem_of_filter]%elem_of_cons; [right; eauto|by left]. }
    destruct (find_entry k l) as [ent|] eqn:Hf; simplify_eq.
    { split; [|by intros ? ? _ ?%elem_of_nil]. intros e [He|He%elem_of_nil]; auto. done. }
    rewrite (without_absent k l Hf) in *. pose proof (push_keys k x (now + t) l Hnd Hf) as Hnd'.
    destruct (max <? _); simplify_eq.
    + split; [|intros e g; eapply (parts_disjoint _ _ _ e g Hnd');
        exact (reflexive_eq _ _ (removelast_all (mkEntry k x (now + t) :: l)))].
      intros e He. apply Hnew. rewrite <-(removelast_all (mkEntry k x (now + t) :: l)). apply elem_of_app, He.
    + split; [|by intros ? ? _ ?%elem_of_nil]. intros e [He|He%elem_of_nil]; auto. done.
  - simplify_eq. apply Hp. rewrite Permutation_app_comm. apply filter_app_complement.
  - simplify_eq. apply Hp.
    etransitivity; [|apply (filter_app_complement (fun ent => HasPrefix (key ent) p = false) l)]. f_equiv.
    apply reflexive_eq, list_filter_iff. intros ent. by destruct (HasPrefix (key ent) p).
  - simplify_eq. by apply Hp.
  - pose proof (expired_run_all now (reverse l)) as Hall. destruct (expired_run now (reverse l)) as [out kept].
    simplify_eq/=. apply Hp. rewrite (reverse_Permutation kept), Permutation_app_comm, Hall.
    apply reverse_Permutation.
  - simplify_eq. apply Hp. by rewrite removelast_all.
  - simplify_eq. apply Hp. by rewrite app_nil_r.
Qed.

(** The same of the cache itself. *)
Lemma perform_entries c o :
  wf c -> iterates c o ->
  let '(c', out, v) := perform c o in
  wf c' /\ maxSize c' = maxSize c /\ ttl c' = ttl c /\
  (forall e, e ∈ view c' -> e ∈ view c \/ exists k x now, o = OSet k x now /\ e = mkEntry k x (now + ttl c)) /\
  (forall p, p ∈ out -> exists g, p = callback g /\
     (g ∈ view c \/ exists k x now, o = OSet k x now /\ g = mkEntry k x (now + ttl c)) /\
     forall e, e ∈ view c' -> key e <> key g).
Proof.
  intros W Hit. pose proof (perform_refines c o W Hit) as Hr. pose proof (limits_perform c o) as Hl.
  destruct (perform c o) as [[c' out] v]. destruct Hr as (W' & gone & Hop & Hout).
  unfold limits in Hl. injection Hl as Hm Ht.
  destruct (list_op_entries _ _ _ _ _ _ _ (view_keys c W) Hop) as [H1 H2].
  split_and!; try done.
  - intros e He. apply H1. by left.
  - intros p. rewrite Hout. intros (g & -> & Hg)%list_elem_of_fmap. exists g. split; [done|].
    split; [apply H1; by right|]. intros e He. by apply H2.
Qed.

End LRU.

Arguments LRUCache : clear implicits.
Arguments entry : clear implicits.
Arguments op : clear implicits.

(** ** Examples *)

Definition small : LRUCache Z :=
  (perform (perform (NewLRUCache 2 Hour) (OSet "a" 1 0)).1.1 (OSet "b" 2 1)).1.1.

Lemma small_wf : runs (NewLRUCache 2 Hour) small /\ wf small.
Proof.
  split.
  - apply (runs_step _ (OSet "a" 1 0)); [done|]. apply (runs_step _ (OSet "b" 2 1)); [done|]. apply runs_refl.
  - assert (H0 : 0 <= maxSize (NewLRUCache (V:=Z) 2 Hour) /\ Len (NewLRUCache (V:=Z) 2 Hour) <= maxSize (NewLRUCache (V:=Z) 2 Hour)) by done.
    destruct (perform_invariant (NewLRUCache 2 Hour) (OSet "a" 1 0)) as (W1 & M1 & L1); [apply wf_new|done|apply H0..|].
    by destruct (perform_invariant _ (OSet "b" 2 1) W1 I M1 L1).
Qed.

Lemma lru_refines_list_witness :
  let '(c', out, v) := perform small (OSet "c" 3 2) in
  wf c' /\ exists gone, list_op 2 Hour [mkEntry "b" 2 (1 + Hour); mkEntry "a" 1 Hour] (OSet "c" 3 2)
    = (view c', gone, v) /\ out ≡ₚ callback <$> gone.
Proof. apply (lru_refines_list small (OSet "c" 3 2)); [apply small_wf|done]. Defined.

Lemma lru_within_capacity_witness : Len small <= 2 /\ wf small /\ NoDup (key <$> view small).
Proof. apply (lru_within_capacity 2 Hour small); [lia|apply small_wf]. Defined.

(** [CleanExpired] stops at the first entry from the back that is not expired,
    and misses an older entry that was read since: reading does not renew it. *)
Lemma clean_misses_read_entry :
  let day := staleRetention + Hour in
  let c := (perform small (OGet "a" 2)).1.1 in
  let c := (perform c (OSet "b" 2 (10 * Hour))).1.1 in
  let c := (perform c (OGet "a" 3)).1.1 in
  (CleanExpired c (day + 1)).2 = 0 /\
  exists ent, find_entry "a" (view c) = Some ent /\ dead (day + 1) ent = true.
Proof. split; [by vm_compute|]. eexists. split; [by vm_compute|by vm_compute]. Qed.

End LRU.
