(* ===== verification/DataCache.v ===== *)
(** * The data cache ([internal/cache/data.go])

    Object bytes kept in files on disk under an LRU index.  Evicted entries go
    through the index's callback, which removes their file.  [outcomes] says how
    the next calls on the operating system end; an exhausted list is a disk that
    never fails.  The methods hold the cache's mutex throughout, but for [Read],
    which lets go of it between the lookup and the file. *)
From stdpp Require Import pretty.
From S2P Require Import Prelude StagingTypes Disk LRU.

(** The hash of a key, as hexadecimal ([sha256.Sum256], [hex.EncodeToString]). *)
Class KeyHash := {
  key_hash : string -> string;
  key_hash_inj k1 k2 : key_hash k1 = key_hash k2 -> k1 = k2;
  key_hash_long k : (2 <= String.length (key_hash k))%nat
}.

Module DataCache.
Import LRU.

Section DataCache.
Context {KH : KeyHash}.

(** The fields that are only written are left out. *)
Record CacheEntry := mkCacheEntry { FilePath : string; Size : Z }.

Inductive outcome := Ok | Fail | Partial (n : nat).

Record DataCache := mkDataCache {
  basePath : string;
  maxBytes : Z;
  currentSize : Z;
  chunkSize : Z;
  enabled : bool;
  index : LRUCache CacheEntry;
  files : gmap string bytes;
  outcomes : list outcome
}.

Definition set_index i (c : DataCache) :=
  mkDataCache (basePath c) (maxBytes c) (currentSize c) (chunkSize c) (enabled c) i (files c) (outcomes c).
Definition set_size n (c : DataCache) :=
  mkDataCache (basePath c) (maxBytes c) n (chunkSize c) (enabled c) (index c) (files c) (outcomes c).
Definition set_files f (c : DataCache) :=
  mkDataCache (basePath c) (maxBytes c) (currentSize c) (chunkSize c) (enabled c) (index c) (f (files c)) (outcomes c).
Definition set_outcomes o (c : DataCache) :=
  mkDataCache (basePath c) (maxBytes c) (currentSize c) (chunkSize c) (enabled c) (index c) (files c) o.

(** How the next call ends. *)
Definition pop (c : DataCache) : DataCache * outcome :=
  match outcomes c with
  | [] => (c, Ok)
  | o :: rest => (set_outcomes rest c, o)
  end.

Definition is_ok (o : outcome) : bool := match o with Ok => true | _ => false end.

(** [getCacheFilePath]; the parts are clean, so that joining them is putting
    slashes between them. *)
Definition getCacheFilePath (base k : string) : string :=
  let h := key_hash k in
  base +:+ "/" +:+ String.substring 0 2 h +:+ "/" +:+ String.substring 2 (String.length h - 2) h.

(** [deleteFile]. *)
Definition deleteFile (c : DataCache) (path : string) : DataCache :=
  let '(c, stat) := pop c in
  let c := match files c !! path with
           | Some data => if is_ok stat then set_size (currentSize c - len data) c else c
           | None => c
           end in
  let '(c, rm) := pop c in
  if is_ok rm then set_files (delete path) c else c.

(** The eviction callback, for everything an operation of the index evicts. *)
Definition on_evict (c : DataCache) (out : list (string * CacheEntry)) : DataCache :=
  foldl (fun c p => deleteFile c (FilePath p.2)) c out.

(** An operation of the index, and the callbacks it makes. *)
Definition on_index (c : DataCache) (o : op CacheEntry) : DataCache :=
  let '(i, out, _) := perform (index c) o in on_evict (set_index i c) out.

(** [Read] looks its entry up with the mutex held, and lets go of it before it
    opens the file: two steps, which other calls come between. *)
Definition Read_lookup (c : DataCache) (key : string) (now : Time) : DataCache * option CacheEntry :=
  if negb (enabled c) then (c, None)
  else let '(i, v) := Get (index c) key now in (set_index i c, v).

Definition Read_file (c : DataCache) (key : string) (entry : CacheEntry) (offset length : Z) : DataCache * option bytes :=
  let '(c, open) := pop c in
  match files c !! FilePath entry, is_ok open with
  | Some file, true =>
      if offset <? 0 then (c, None)
      else
        let '(c, seek) := pop c in
        if negb (is_ok seek) then (c, None)
        else if length <=? 0 then
          let '(c, stat) := pop c in
          if negb (is_ok stat) then (c, None)
          else
            let remaining := if len file - offset <? 0 then 0 else len file - offset in
            let '(c, rd) := pop c in
            (c, if is_ok rd then Some (Disk.pread file offset remaining) else None)
        else
          let '(c, rd) := pop c in
          (c, if is_ok rd then Some (Disk.pread file offset length) else None)
  | _, _ => (on_index c (ODelete key), None)
  end.

(** [Read] with nothing in between: [None] is an error or a miss. *)
Definition Read (c : DataCache) (key : string) (offset length : Z) (now : Time) : DataCache * option bytes :=
  match Read_lookup c key now with
  | (c, None) => (c, None)
  | (c, Some entry) => Read_file c key entry offset length
  end.

(** [evictOldest]. *)
Definition evictOldest (c : DataCache) (now : Time) : DataCache * bool :=
  if Len (index c) =? 0 then (c, false)
  else if 0 <? (CleanExpired (index c) now).2 then (on_index c (OCleanExpired now), true)
  else (on_index c OEvictOldest, (EvictOldest (index c)).2).

(** The loop of [Write] that makes room. *)
Fixpoint make_room (fuel : nat) (c : DataCache) (size : Z) (now : Time) : DataCache :=
  match fuel with
  | O => c
  | S fuel =>
      if currentSize c + size <=? maxBytes c then c
      else match evictOldest c now with
           | (c, false) => c
           | (c, true) => make_room fuel c size now
           end
  end.

(** [Write]; [false] is an error. *)
Definition Write (c : DataCache) (key : string) (data : bytes) (now : Time) : DataCache * bool :=
  if negb (enabled c) then (c, true)
  else
    let size := len data in
    if maxBytes c <? size then (c, true)
    else
      let '(i, v) := Get (index c) key now in
      let c := set_index i c in
      let c := match v with
               | Some entry => on_index (deleteFile c (FilePath entry)) (ODelete key)
               | None => c
               end in
      let c := make_room (S (Z.to_nat (Len (index c)))) c size now in
      let path := getCacheFilePath (basePath c) key in
      let '(c, mk) := pop c in
      if negb (is_ok mk) then (c, false)
      else
        match pop c with
        | (c, Fail) => (c, false)
        | (c, Partial n) => (set_files <[path := take n data]> c, false)
        | (c, Ok) =>
            let c := set_files <[path := data]> c in
            let c := on_index c (OSet key (mkCacheEntry path size) now) in
            (set_size (currentSize c + size) c, true)
        end.

Definition chunkPrefix (objectKey : string) : string := "chunk:" +:+ objectKey +:+ ":".

(** [%d] of an [int64]. *)
Definition decimal (n : Z) : string := pretty n.

Definition chunkKey (objectKey : string) (chunkStart size : Z) : string :=
  chunkPrefix objectKey +:+ decimal chunkStart +:+ ":" +:+ decimal size.

Definition ReadChunk (c : DataCache) (objectKey : string) (chunkStart size : Z) (now : Time) :=
  Read c (chunkKey objectKey chunkStart size) 0 0 now.

Definition ReadChunkRange (c : DataCache) (objectKey : string) (chunkStart size offsetInChunk length : Z)
    (now : Time) :=
  Read c (chunkKey objectKey chunkStart size) offsetInChunk length now.

(** [ContainsChunk] takes part in the LRU order, as every [Get] does. *)
Definition ContainsChunk (c : DataCache) (objectKey : string) (chunkStart size : Z) (now : Time)
    : DataCache * bool :=
  if negb (enabled c) then (c, false)
  else let '(i, v) := Get (index c) (chunkKey objectKey chunkStart size) now in
       (set_index i c, bool_decide (is_Some v)).

Definition WriteChunk (c : DataCache) (objectKey : string) (chunkStart size : Z) (data : bytes) (now : Time) :=
  Write c (chunkKey objectKey chunkStart size) data now.

(** [Delete]. *)
Definition Delete (c : DataCache) (key : string) (now : Time) : DataCache :=
  if negb (enabled c) then c
  else
    let '(i, v) := Get (index c) key now in
    let c := set_index i c in
    match v with
    | None => c
    | Some entry =>
        let c := on_index (deleteFile c (FilePath entry)) (ODelete key) in
        set_size (currentSize c - Size entry) c
    end.

(** The keys of the index in the order a loop over its map visits them. *)
Definition iteration (order : list string -> list string) (c : DataCache) : list string :=
  order (map_to_list (items (index c))).*1.

(** [DeleteObject]. *)
Definition DeleteObject (order : list string -> list string) (c : DataCache) (objectKey : string) (now : Time)
    : DataCache :=
  if negb (enabled c) then c
  else
    let c := Delete c objectKey now in
    on_index c (ODeletePrefix (chunkPrefix objectKey) (iteration order c)).

(** [DeleteObjectPrefix]. *)
Definition with_slash (prefix : string) : string :=
  if negb (bool_decide (prefix = "/")) && negb (HasSuffix prefix "/") then prefix +:+ "/" else prefix.

Definition DeleteObjectPrefix (order : list string -> list string) (c : DataCache) (objectPrefix : string)
    : DataCache :=
  if negb (enabled c) then c
  else
    let objectPrefix := with_slash objectPrefix in
    let c := on_index c (ODeletePrefix objectPrefix (iteration order c)) in
    on_index c (ODeletePrefix (chunkPrefix objectPrefix) (iteration order c)).

Definition ChunkSize (c : DataCache) : Z := if negb (enabled c) || (chunkSize c <=? 0) then 0 else chunkSize c.

(** [Clear]; [false] is an error.  Everything below the cache's directory goes,
    or, when removing it fails, all but what [survives]. *)
Definition Clear (order : list string -> list string) (survives : string -> bool) (c : DataCache)
    : DataCache * bool :=
  if negb (enabled c) then (c, true)
  else
    let '(c, rm) := pop c in
    match rm with
    | Ok =>
        let c := set_files (fun _ => ∅) c in
        let '(c, mk) := pop c in
        if negb (is_ok mk) then (c, false)
        else (set_size 0 (on_index c (OClear (iteration order c))), true)
    | Fail | Partial _ => (set_files (filter (fun p => survives (p.1) = true)) c, false)
    end.

(** [calculateSize]. *)
Definition calculateSize (fs : gmap string bytes) : Z := map_sum (fun _ (b : bytes) => len b) fs.

(** [NewDataCache] over the files its directory holds. *)
Definition NewDataCache (path : string) (sizeGB chunkKB : Z) (fs : gmap string bytes) : DataCache :=
  mkDataCache path (sizeGB * 1024 * 1024 * 1024) (calculateSize fs) (chunkKB * 1024) true
    (NewLRUCache 10000 (24 * Hour)) fs [].

Definition IsChunkKey (key : string) : bool := HasPrefix key "chunk:".

End DataCache.
End DataCache.
