(* ===== verification/DataCacheSafety.v ===== *)
(** * What the data cache serves

    Whatever fails on disk, the cache never serves bytes other than those last
    written under a key, and none of an object that was invalidated.  Then what
    its accounting of bytes and its invalidation by prefix do not do. *)
From stdpp Require Import pretty.
From S2P Require Import Prelude StagingTypes Disk LRU DataCache.

Module DataCacheSafety.
Import LRU DataCache.

(** ** File names *)

Lemma substring_all s : String.substring 0 (String.length s) s = s.
Proof. induction s as [|a s IH]; [done|]. simpl. by rewrite IH. Qed.

Lemma substring_none s : String.substring 0 0 s = "".
Proof. by destruct s. Qed.

Section Coherence.
Context {KH : KeyHash}.

Lemma getCacheFilePath_inj base k1 k2 :
  getCacheFilePath base k1 = getCacheFilePath base k2 -> k1 = k2.
Proof.
  unfold getCacheFilePath. pose proof (key_hash_long k1) as H1. pose proof (key_hash_long k2) as H2.
  intros H. apply key_hash_inj. do 2 apply string_app_inj in H. revert H H1 H2.
  destruct (key_hash k1) as [|a1 [|b1 r1]], (key_hash k2) as [|a2 [|b2 r2]]; simpl; try (intros; lia).
  rewrite !substring_none, !Nat.sub_0_r, (substring_all r1), (substring_all r2). by intros [= -> -> ->] _ _.
Qed.

(** ** Frames *)

Lemma pop_frame c c' o :
  pop c = (c', o) -> index c' = index c /\ files c' = files c /\ basePath c' = basePath c /\
  maxBytes c' = maxBytes c /\ enabled c' = enabled c /\ currentSize c' = currentSize c.
Proof. unfold pop. destruct (outcomes c); by intros [= <- <-]. Qed.

Lemma deleteFile_frame c path :
  let c' := deleteFile c path in
  index c' = index c /\ basePath c' = basePath c /\ maxBytes c' = maxBytes c /\ enabled c' = enabled c /\
  forall p, p <> path -> files c' !! p = files c !! p.
Proof.
  unfold deleteFile. destruct (pop c) as [c1 o1] eqn:E1.
  destruct (pop_frame _ _ _ E1) as (H1 & H2 & H3 & H4 & H5 & _).
  set (c2 := match files c1 !! path with Some _ => _ | None => _ end).
  assert (Hc2 : index c2 = index c1 /\ basePath c2 = basePath c1 /\ maxBytes c2 = maxBytes c1 /\
    enabled c2 = enabled c1 /\ files c2 = files c1).
  { unfold c2. destruct (files c1 !! path); [|done]. by destruct (is_ok o1). }
  destruct Hc2 as (K1 & K2 & K3 & K4 & K5). destruct (pop c2) as [c3 o3] eqn:E3.
  destruct (pop_frame _ _ _ E3) as (J1 & J2 & J3 & J4 & J5 & _).
  destruct (is_ok o3); simpl; (split_and!; [congruence..|]); intros p Hp;
    [rewrite lookup_delete_ne by done|]; congruence.
Qed.

Lemma on_evict_frame out : forall c,
  let c' := on_evict c out in
  index c' = index c /\ basePath c' = basePath c /\ maxBytes c' = maxBytes c /\ enabled c' = enabled c /\
  forall p, (forall g, g ∈ out -> p <> FilePath (g.2)) -> files c' !! p = files c !! p.
Proof.
  induction out as [|g out IH]; intros c; [done|]. simpl.
  destruct (IH (deleteFile c (FilePath g.2))) as (H1 & H2 & H3 & H4 & H5).
  destruct (deleteFile_frame c (FilePath g.2)) as (K1 & K2 & K3 & K4 & K5).
  split_and!; [congruence..|]. intros p Hp. rewrite H5, K5; [done|apply Hp; set_solver|].
  intros g' Hg'. apply Hp. set_solver.
Qed.

(** ** Coherence

    Every entry of the index names its own file, and the file of one that has
    not expired by [T], if it is there, holds what was stored last under its
    key; the keys in [P] are exempt. *)
Record coherent (P : string -> Prop) (T : Time) (c : DataCache) (stored : gmap string bytes) : Prop := mkCoherent {
  co_wf : wf (index c);
  co_path ent : ent ∈ view (index c) -> FilePath (value ent) = getCacheFilePath (basePath c) (key ent);
  co_live ent : ent ∈ view (index c) -> T <= expiresAt ent -> ~ P (key ent) ->
    exists d, stored !! key ent = Some d /\
      forall f, files c !! getCacheFilePath (basePath c) (key ent) = Some f -> f = d
}.

Abbreviation all_keys := (fun _ : string => False).

Lemma coherent_later P T T' c s : T <= T' -> coherent P T c s -> coherent P T' c s.
Proof. intros HT [H1 H2 H3]. split; [done|done|]. intros ent He Hl. apply H3; [done|lia]. Qed.

Lemma coherent_same P T c c' s :
  index c' = index c -> files c' = files c -> basePath c' = basePath c ->
  coherent P T c s -> coherent P T c' s.
Proof. intros E1 E2 E3 [H1 H2 H3]. split; rewrite ?E1, ?E2, ?E3; done. Qed.

Lemma coherent_pop P T c c' o s : pop c = (c', o) -> coherent P T c s -> coherent P T c' s.
Proof. intros H. destruct (pop_frame _ _ _ H) as (? & ? & ? & _). by apply coherent_same. Qed.

(** Whatever happens to the file of a key, only that key is concerned. *)
Lemma coherent_file P T c c' s k :
  index c' = index c -> basePath c' = basePath c ->
  (forall p, p <> getCacheFilePath (basePath c) k -> files c' !! p = files c !! p) ->
  coherent P T c s -> coherent (fun x => P x \/ x = k) T c' s.
Proof.
  intros E1 E2 E3 [H1 H2 H3]. split; rewrite ?E1, ?E2; [done|done|]. intros ent He Hl Hp.
  destruct (H3 ent He Hl) as (d & Hs & Hf); [tauto|]. exists d. split; [done|].
  rewrite E3; [done|]. intros Heq%getCacheFilePath_inj. tauto.
Qed.

(** Operations of the index other than [Set]. *)
Definition no_set (o : op CacheEntry) : Prop := match o with OSet _ _ _ => False | _ => True end.

Lemma on_index_view c o :
  wf (index c) -> iterates (index c) o -> no_set o ->
  basePath (on_index c o) = basePath c /\ enabled (on_index c o) = enabled c /\
  maxBytes (on_index c o) = maxBytes c /\
  index (on_index c o) = (perform (index c) o).1.1 /\
  (forall e, e ∈ view (index (on_index c o)) -> e ∈ view (index c)).
Proof.
  intros W Hit Hno. unfold on_index. pose proof (perform_entries (index c) o W Hit) as He.
  destruct (perform (index c) o) as [[i out] v]. destruct He as (W' & _ & _ & Hin & _).
  destruct (on_evict_frame out (set_index i c)) as (H1 & H2 & H3 & H4 & _).
  split_and!; [done..|]. intros e. rewrite H1. simpl. intros [?|(k & x & now & -> & _)]%Hin; done.
Qed.

Lemma on_index_coherent P T c o s :
  iterates (index c) o -> no_set o -> coherent P T c s -> coherent P T (on_index c o) s.
Proof.
  intros Hit Hno [W Hpath Hlive]. pose proof (perform_entries (index c) o W Hit) as He.
  unfold on_index. destruct (perform (index c) o) as [[i out] v]. destruct He as (W' & _ & _ & Hin & Hout).
  destruct (on_evict_frame out (set_index i c)) as (H1 & H2 & _ & _ & H5). simpl in *.
  assert (Hsub : forall e, e ∈ view i -> e ∈ view (index c)).
  { intros e [?|(k & x & now & -> & _)]%Hin; done. }
  split; rewrite ?H1, ?H2; [done|auto|]. intros ent He Hl Hp.
  destruct (Hlive ent (Hsub _ He) Hl Hp) as (d & Hs & Hf). exists d. split; [done|].
  rewrite H5; [done|]. intros p Hpo. destruct (Hout p Hpo) as (g & -> & Hg & Hne). simpl.
  destruct Hg as [Hg|(k & x & now & -> & _)]; [|done]. rewrite (Hpath g Hg).
  intros Heq%getCacheFilePath_inj. by apply (Hne ent).
Qed.

(** A key that the index does not serve at [now]. *)
Definition unserved (k : string) (now : Time) (c : DataCache) : Prop :=
  forall e, e ∈ view (index c) -> key e = k -> expiresAt e < now.

Lemma unserved_exempt P k now c s :
  unserved k now c -> coherent (fun x => P x \/ x = k) now c s -> coherent P now c s.
Proof.
  intros Hu [H1 H2 H3]. split; [done|done|]. intros ent He Hl Hp. apply H3; [done..|].
  intros [?|Hk]; [done|]. specialize (Hu ent He Hk). lia.
Qed.

(** Deleting a key from the index leaves nothing of it. *)
Lemma on_index_delete_unserved c k now :
  wf (index c) -> unserved k now (on_index c (ODelete k)).
Proof.
  intros W e. destruct (on_index_view c (ODelete k) W I I) as (_ & _ & _ & Hi & _). rewrite Hi.
  pose proof (perform_refines (index c) (ODelete k) W I) as Hr.
  destruct (perform (index c) (ODelete k)) as [[i out] v]. destruct Hr as (_ & gone & Hop & _).
  simpl in *. injection Hop as Hv _. rewrite <-Hv. intros [? _]%list_elem_of_filter. done.
Qed.

(** What a lookup of the index tells. *)
Lemma Get_cases c k now i v :
  wf (index c) -> Get (index c) k now = (i, v) ->
  wf i /\ (forall e, e ∈ view i -> e ∈ view (index c)) /\
  match v with
  | Some x => exists ent, ent ∈ view (index c) /\ key ent = k /\ value ent = x /\ now <= expiresAt ent
  | None => forall e, e ∈ view (index c) -> key e = k -> expiresAt e < now
  end.
Proof.
  intros W Hg. pose proof (Get_refines (index c) k now W) as Hr. pose proof (perform_entries (index c) (OGet k now) W I) as He.
  simpl in He. rewrite Hg in Hr, He. destruct Hr as [Wi Hop]. destruct He as (_ & _ & _ & Hin & _).
  split; [done|]. split; [intros e [?|(? & ? & ? & [=] & _)]%Hin; done|]. simpl in Hop.
  destruct (find_entry k (view (index c))) as [ent|] eqn:Hf.
  - destruct (find_entry_elem _ _ _ Hf) as [Hent Hk]. destruct (expiresAt ent <? now) eqn:E; injection Hop as _ <-.
    + bool_to_prop. intros e He Hke. rewrite <-Hke, (find_own _ e (view_keys _ W) He) in Hf. congruence.
    + bool_to_prop. by exists ent.
  - injection Hop as _ <-. intros e He Hke. by destruct (find_entry_None _ _ Hf e He).
Qed.

Lemma coherent_lookup P T c k now i v s :
  Get (index c) k now = (i, v) -> coherent P T c s -> coherent P T (set_index i c) s.
Proof.
  intros Hg [W Hp Hl]. destruct (Get_cases c k now i v W Hg) as (Wi & Hsub & _).
  split; simpl; [done|auto|]. intros ent He. apply Hl. auto.
Qed.

(** ** The operations *)

Lemma evictOldest_coherent P T c now s c' b :
  evictOldest c now = (c', b) -> coherent P T c s ->
  coherent P T c' s /\ basePath c' = basePath c /\ (forall e, e ∈ view (index c') -> e ∈ view (index c)).
Proof.
  unfold evictOldest. intros H Hc. pose proof (co_wf _ _ _ _ Hc) as W.
  destruct (Len (index c) =? 0); [by injection H as <- <-|].
  destruct (0 <? _); injection H as <- _;
    [destruct (on_index_view c (OCleanExpired now) W I I) as (Hb & _ & _ & _ & Hv)
    |destruct (on_index_view c OEvictOldest W I I) as (Hb & _ & _ & _ & Hv)];
    (split; [by apply on_index_coherent|done]).
Qed.

Lemma make_room_coherent P T fuel size now s : forall c,
  coherent P T c s ->
  let c' := make_room fuel c size now in
  coherent P T c' s /\ basePath c' = basePath c /\ (forall e, e ∈ view (index c') -> e ∈ view (index c)).
Proof.
  induction fuel as [|fuel IH]; intros c Hc; [done|]. simpl.
  destruct (_ <=? _); [done|]. destruct (evictOldest c now) as [c1 b] eqn:E.
  destruct (evictOldest_coherent _ _ _ _ _ _ _ E Hc) as (Hc1 & Hb1 & Hv1). destruct b; [|done].
  destruct (IH c1 Hc1) as (Hc' & Hb' & Hv'). split; [done|]. split; [congruence|auto].
Qed.

(** Storing a file and setting its entry. *)
Lemma set_coherent T c s k d size now :
  T <= now -> coherent (fun x => x = k) T c s -> files c !! getCacheFilePath (basePath c) k = Some d ->
  coherent all_keys T (on_index c (OSet k (mkCacheEntry (getCacheFilePath (basePath c) k) size) now)) (<[k := d]> s).
Proof.
  intros HT [W Hpath Hlive] Hd. set (x := mkCacheEntry _ _).
  pose proof (perform_entries (index c) (OSet k x now) W I) as He.
  pose proof (perform_refines (index c) (OSet k x now) W I) as Hr.
  unfold on_index. destruct (perform (index c) (OSet k x now)) as [[i out] v].
  destruct He as (W' & _ & _ & Hin & Hout). destruct Hr as (_ & gone & Hop & _).
  destruct (on_evict_frame out (set_index i c)) as (H1 & H2 & _ & _ & H5). simpl in H1, H2, H5.
  assert (Hsub : forall e, e ∈ view i -> e = mkEntry k x (now + ttl (index c)) \/ e ∈ view (index c) /\ key e <> k).
  { intros e He. assert (Hl : e ∈ mkEntry k x (now + ttl (index c)) :: filter (fun ent => key ent <> k) (view (index c))).
    { simpl in Hop. destruct (find_entry k _); [by injection Hop as -> _ _|].
      destruct (_ <? _); [|by injection Hop as -> _ _].
      injection Hop as Hv _ _. rewrite <-(removelast_all (_ :: _)). apply elem_of_app. left. rewrite <-Hv in He. exact He. }
    apply elem_of_cons in Hl as [->|[? ?]%list_elem_of_filter]; auto. }
  assert (Hfile : forall e, e ∈ view i ->
    files (on_evict (set_index i c) out) !! getCacheFilePath (basePath c) (key e) =
    files c !! getCacheFilePath (basePath c) (key e)).
  { intros e He. rewrite H5; [done|]. intros p Hp. destruct (Hout p Hp) as (g & -> & Hg & Hne). simpl.
    destruct Hg as [Hg|(k' & x' & now' & [= <- <- <-] & ->)].
    - rewrite (Hpath g Hg). intros Heq%getCacheFilePath_inj. by apply (Hne e).
    - simpl. intros Heq%getCacheFilePath_inj. by apply (Hne e). }
  split; rewrite ?H1, ?H2; [done| |].
  - intros ent He. destruct (Hsub ent He) as [->|[? _]]; [done|auto].
  - intros ent He Hl _. rewrite (Hfile ent He). destruct (Hsub ent He) as [->|[Hv Hk]]; simpl.
    + exists d. rewrite lookup_insert_eq. split; [done|]. rewrite Hd. by intros f [= <-].
    + rewrite lookup_insert_ne by done. by apply Hlive.
Qed.

#[local] Arguments make_room : simpl never.

(** What [Write] leaves under the keys, when it stores. *)
Definition accepts (c : DataCache) (data : bytes) : bool := enabled c && (len data <=? maxBytes c).

Lemma Write_coherent T c s k d now :
  T <= now -> coherent all_keys T c s ->
  let '(c', ok) := Write c k d now in
  coherent all_keys now c' (if accepts c d && ok then <[k := d]> s else s).
Proof.
  intros HT Hc0. pose proof (coherent_later _ T now c s HT Hc0) as Hc. unfold Write, accepts.
  destruct (enabled c); simpl; [|done].
  destruct (maxBytes c <? len d) eqn:Em; bool_to_prop.
  { rewrite (proj2 (Z.leb_gt _ _) Em). done. }
  rewrite (proj2 (Z.leb_le _ _) Em). simpl.
  destruct (Get (index c) k now) as [i v] eqn:Hg.
  pose proof (co_wf _ _ _ _ Hc) as W. destruct (Get_cases c k now i v W Hg) as (Wi & Hsub & Hv).
  pose proof (coherent_lookup _ _ _ _ _ _ _ _ Hg Hc) as Hci.
  set (c1 := match v with Some _ => _ | None => _ end).
  assert (Hc1 : coherent all_keys now c1 s /\ unserved k now c1).
  { unfold c1. destruct v as [x|].
    - destruct Hv as (ent & Hent & Hk & Hx & _). subst x k.
      pose proof (co_path _ _ _ _ Hc ent Hent) as Hpe.
      destruct (deleteFile_frame (set_index i c) (FilePath (value ent))) as (F1 & F2 & _ & _ & F5).
      assert (Hd : coherent (fun x => False \/ x = key ent) now (deleteFile (set_index i c) (FilePath (value ent))) s).
      { apply (coherent_file all_keys now (set_index i c)); [done..| |done]. simpl. by rewrite <-Hpe. }
      assert (Hu : unserved (key ent) now (on_index (deleteFile (set_index i c) (FilePath (value ent))) (ODelete (key ent)))).
      { apply on_index_delete_unserved. by rewrite F1. }
      split; [|done]. apply (unserved_exempt _ (key ent)); [done|]. by apply on_index_coherent.
    - split; [done|]. intros e He. apply Hv. auto. }
  destruct Hc1 as [Hc1 Hu1].
  destruct (make_room_coherent all_keys now (S (Z.to_nat (Len (index c1)))) (len d) now s c1 Hc1) as (Hc2 & _ & Hsub2).
  set (c2 := make_room _ _ _ _) in *.
  assert (Hu2 : unserved k now c2) by (intros e He; apply Hu1; auto).
  destruct (pop c2) as [c3 o3] eqn:E3. pose proof (coherent_pop _ _ _ _ _ _ E3 Hc2) as Hc3.
  destruct (pop_frame _ _ _ E3) as (F1 & _ & F3 & _).
  destruct (is_ok o3); simpl; [|done]. destruct (pop c3) as [c4 o4] eqn:E4.
  pose proof (coherent_pop _ _ _ _ _ _ E4 Hc3) as Hc4. destruct (pop_frame _ _ _ E4) as (G1 & _ & G3 & _).
  assert (Hput : forall x, coherent (fun y => False \/ y = k) now (set_files <[getCacheFilePath (basePath c2) k := x]> c4) s).
  { intros x. apply (coherent_file all_keys now c4); [done..| |done]. intros p Hp. simpl.
    rewrite lookup_insert_ne; [done|]. rewrite <-F3, <-G3. congruence. }
  destruct o4 as [| |n].
  - apply (coherent_same _ _ (on_index (set_files <[getCacheFilePath (basePath c2) k := d]> c4)
      (OSet k (mkCacheEntry (getCacheFilePath (basePath c2) k) (len d)) now))); [done..|].
    replace (basePath c2) with (basePath (set_files <[getCacheFilePath (basePath c2) k := d]> c4)) at 2
      by (simpl; congruence).
    apply set_coherent; [lia| |].
    + destruct (Hput d) as [A B C]. split; [done|done|]. intros e He Hl Hne. apply C; [done..|tauto].
    + simpl. rewrite G3, F3. apply lookup_insert_eq.
  - done.
  - simpl. apply (unserved_exempt _ k); [|done]. intros e. simpl. rewrite G1, F1. apply Hu2.
Qed.

(** The bytes a read of stored data gives. *)
Definition slice (d : bytes) (offset length : Z) : bytes :=
  if length <=? 0 then drop (Z.to_nat offset) d else Disk.pread d offset length.

Lemma pread_rest (d : bytes) off :
  0 <= off -> Disk.pread d off (if len d - off <? 0 then 0 else len d - off) = drop (Z.to_nat off) d.
Proof.
  intros Ho. unfold Disk.pread. destruct (_ <? _) eqn:E; bool_to_prop.
  - rewrite (drop_ge d) by lia. done.
  - apply take_ge. rewrite length_drop. lia.
Qed.

(** What the two steps of a read find. *)
Lemma Read_lookup_coherent T c s k now :
  T <= now -> coherent all_keys T c s ->
  let '(c', v) := Read_lookup c k now in
  coherent all_keys now c' s /\
  forall x, v = Some x -> FilePath x = getCacheFilePath (basePath c') k /\
    exists d, s !! k = Some d /\ forall f, files c' !! FilePath x = Some f -> f = d.
Proof.
  intros HT Hc0. pose proof (coherent_later _ T now c s HT Hc0) as Hc. unfold Read_lookup.
  destruct (enabled c); simpl; [|by split]. destruct (Get (index c) k now) as [i v] eqn:Hg.
  destruct (Get_cases c k now i v (co_wf _ _ _ _ Hc) Hg) as (_ & _ & Hv).
  split; [by apply (coherent_lookup _ _ _ _ _ _ _ _ Hg)|]. intros x ->.
  destruct Hv as (ent & Hent & <- & <- & Hlive). simpl. rewrite (co_path _ _ _ _ Hc ent Hent). split; [done|].
  apply (co_live _ _ _ _ Hc ent Hent Hlive). tauto.
Qed.

Lemma Read_file_bytes c k x off n b :
  (Read_file c k x off n).2 = Some b -> exists f, files c !! FilePath x = Some f /\ b = slice f off n.
Proof.
  unfold Read_file, slice. destruct (pop c) as [c1 o1] eqn:E1.
  destruct (pop_frame _ _ _ E1) as (_ & F2 & _). rewrite F2.
  destruct (files c !! FilePath x) as [file|], (is_ok o1); try done.
  destruct (off <? 0) eqn:Eo; [done|]. bool_to_prop. destruct (pop c1) as [c2 o2]. destruct (is_ok o2); [simpl|done].
  destruct (n <=? 0).
  - destruct (pop c2) as [c3 o3]. destruct (is_ok o3); [simpl|done]. destruct (pop c3) as [c4 o4].
    destruct (is_ok o4); [simpl|done]. intros [= <-]. exists file. by rewrite pread_rest.
  - destruct (pop c2) as [c3 o3]. destruct (is_ok o3); [simpl|done]. intros [= <-]. by exists file.
Qed.

Lemma Read_file_coherent T c s k x off n :
  coherent all_keys T c s -> coherent all_keys T (Read_file c k x off n).1 s.
Proof.
  intros Hc. unfold Read_file. destruct (pop c) as [c1 o1] eqn:E1. pose proof (coherent_pop _ _ _ _ _ _ E1 Hc) as Hc1.
  destruct (files c1 !! FilePath x) as [file|]; [|by apply on_index_coherent].
  destruct (is_ok o1); [|by apply on_index_coherent]. destruct (off <? 0); [done|].
  destruct (pop c1) as [c2 o2] eqn:E2. pose proof (coherent_pop _ _ _ _ _ _ E2 Hc1) as Hc2.
  destruct (is_ok o2); simpl; [|done]. destruct (n <=? 0); destruct (pop c2) as [c3 o3] eqn:E3;
    pose proof (coherent_pop _ _ _ _ _ _ E3 Hc2) as Hc3; [|done].
  destruct (is_ok o3); simpl; [|done]. destruct (pop c3) as [c4 o4] eqn:E4. by eapply coherent_pop.
Qed.

Lemma Read_coherent T c s k off n now :
  T <= now -> coherent all_keys T c s ->
  let '(c', r) := Read c k off n now in
  coherent all_keys now c' s /\
  forall b, r = Some b -> exists d, s !! k = Some d /\ b = slice d off n.
Proof.
  intros HT Hc. unfold Read. pose proof (Read_lookup_coherent T c s k now HT Hc) as Hl.
  destruct (Read_lookup c k now) as [c1 [x|]]; [|destruct Hl; by split]. destruct Hl as [Hc1 Hx].
  destruct (Hx x eq_refl) as (_ & d & Hs & Hd). pose proof (Read_file_coherent now c1 s k x off n Hc1) as Hf.
  pose proof (Read_file_bytes c1 k x off n) as Hb. destruct (Read_file c1 k x off n) as [c2 r]. split; [done|].
  intros b Hr. destruct (Hb b Hr) as (f & Hff & ->). exists d. by rewrite (Hd f Hff).
Qed.

(** ** What may happen to the file of a key *)

(** The file at [p] is as it was, or gone. *)
Definition only_loses (p : string) (c c' : DataCache) : Prop :=
  basePath c' = basePath c /\ forall f, files c' !! p = Some f -> files c !! p = Some f.

#[local] Instance only_loses_preorder p : PreOrder (only_loses p).
Proof. split; [done|]. intros c1 c2 c3 [E1 H1] [E2 H2]. split; [congruence|auto]. Qed.

Lemma pop_loses p c c' o : pop c = (c', o) -> only_loses p c c'.
Proof. intros H. destruct (pop_frame _ _ _ H) as (_ & H2 & H3 & _). split; [done|]. by rewrite H2. Qed.

Lemma deleteFile_loses p c path : only_loses p c (deleteFile c path).
Proof.
  unfold deleteFile. destruct (pop c) as [c1 o1] eqn:E1. etrans; [apply (pop_loses _ _ _ _ E1)|].
  set (c2 := match files c1 !! path with Some _ => _ | None => _ end).
  transitivity c2; [unfold c2; destruct (files c1 !! path); [destruct (is_ok o1)|]; by split|].
  destruct (pop c2) as [c3 o3] eqn:E3. etrans; [apply (pop_loses _ _ _ _ E3)|].
  destruct (is_ok o3); [|done]. split; [done|]. simpl. by intros f [_ ?]%lookup_delete_Some.
Qed.

Lemma on_evict_loses p out : forall c, only_loses p c (on_evict c out).
Proof. induction out as [|g out IH]; intros c; [done|]. etrans; [apply deleteFile_loses|apply IH]. Qed.

Lemma on_index_loses p c o : only_loses p c (on_index c o).
Proof. unfold on_index. destruct (perform _ _) as [[i out] v]. by rewrite <-on_evict_loses. Qed.

Lemma make_room_loses p fuel size now : forall c, only_loses p c (make_room fuel c size now).
Proof.
  induction fuel as [|fuel IH]; intros c; [done|]. unfold make_room. fold make_room. destruct (currentSize c + size <=? maxBytes c); [done|].
  destruct (evictOldest c now) as [c1 b] eqn:E. transitivity c1; [|by destruct b].
  unfold evictOldest in E. repeat case_match; injection E as <- _; first [done|apply on_index_loses].
Qed.

Lemma Write_loses c k k' d now :
  k' <> k -> only_loses (getCacheFilePath (basePath c) k) c (Write c k' d now).1.
Proof.
  intros Hk. set (p := getCacheFilePath (basePath c) k). unfold Write.
  destruct (negb (enabled c)); [done|]. destruct (_ <? _); [done|].
  destruct (Get (index c) k' now) as [i v]. set (c1 := match v with Some _ => _ | None => _ end).
  assert (H1 : only_loses p c c1).
  { unfold c1. destruct v; [|done]. transitivity (set_index i c); [done|]. etrans; [apply deleteFile_loses|apply on_index_loses]. }
  set (c2 := make_room _ _ _ _). assert (H2 : only_loses p c c2) by (etrans; [exact H1|apply make_room_loses]).
  destruct (pop c2) as [c3 o3] eqn:E3. assert (H3 : only_loses p c c3) by (etrans; [exact H2|apply (pop_loses _ _ _ _ E3)]).
  destruct (negb (is_ok o3)); [done|]. destruct (pop c3) as [c4 o4] eqn:E4.
  assert (H4 : only_loses p c c4) by (etrans; [exact H3|apply (pop_loses _ _ _ _ E4)]).
  assert (Hput : forall x, only_loses p c (set_files <[getCacheFilePath (basePath c2) k' := x]> c4)).
  { intros x. destruct H4 as [Eb H4]. split; [done|]. simpl. intros f. rewrite lookup_insert_ne; [apply H4|].
    rewrite (proj1 H2). unfold p. by intros ?%getCacheFilePath_inj. }
  destruct o4 as [| |n]; [|done|apply Hput]. simpl.
  set (c5 := on_index _ _). assert (H5 : only_loses p c c5) by (etrans; [apply Hput|apply on_index_loses]).
  exact H5.
Qed.

Lemma Delete_loses p c k now : only_loses p c (Delete c k now).
Proof.
  unfold Delete. destruct (negb (enabled c)); [done|]. destruct (Get (index c) k now) as [i [x|]]; [|done].
  set (c1 := on_index _ _). assert (H1 : only_loses p c c1); [|exact H1].
  transitivity (set_index i c); [done|]. etrans; [apply deleteFile_loses|apply on_index_loses].
Qed.

Lemma Read_file_loses p c k x off n : only_loses p c (Read_file c k x off n).1.
Proof.
  unfold Read_file. destruct (pop c) as [c1 o1] eqn:E1. etrans; [apply (pop_loses _ _ _ _ E1)|].
  destruct (files c1 !! FilePath x), (is_ok o1); simpl; try apply on_index_loses.
  destruct (off <? 0); [done|]. destruct (pop c1) as [c2 o2] eqn:E2. etrans; [apply (pop_loses _ _ _ _ E2)|].
  destruct (negb (is_ok o2)); [done|]. destruct (n <=? 0); destruct (pop c2) as [c3 o3] eqn:E3; (etrans; [apply (pop_loses _ _ _ _ E3)|]); [|done].
  destruct (negb (is_ok o3)); [done|]. destruct (pop c3) as [c4 o4] eqn:E4. apply (pop_loses _ _ _ _ E4).
Qed.

Lemma Clear_loses p order survives c : only_loses p c (Clear order survives c).1.
Proof.
  unfold Clear. destruct (negb (enabled c)); [done|]. destruct (pop c) as [c1 o1] eqn:E1. etrans; [apply (pop_loses _ _ _ _ E1)|].
  destruct o1; [|split; [done|]; simpl; by intros f [? _]%map_lookup_filter_Some..].
  destruct (pop (set_files _ c1)) as [c2 o2] eqn:E2. transitivity c2.
  { transitivity (set_files (fun _ => ∅) c1); [by split|apply (pop_loses _ _ _ _ E2)]. }
  destruct (negb (is_ok o2)); [done|]. simpl. set (c3 := on_index _ _). assert (H3 : only_loses p c2 c3) by apply on_index_loses. exact H3.
Qed.

(** Forgetting stored keys the index does not serve. *)
Lemma coherent_forget P now c s s' :
  (forall e, e ∈ view (index c) -> now <= expiresAt e -> s' !! key e = s !! key e) ->
  coherent P now c s -> coherent P now c s'.
Proof.
  intros Hs [H1 H2 H3]. split; [done|done|]. intros e He Hl Hp. rewrite (Hs e He Hl). by apply H3.
Qed.

Lemma Delete_coherent T c s k now :
  T <= now -> coherent all_keys T c s ->
  coherent all_keys now (Delete c k now) s /\ (enabled c = true -> unserved k now (Delete c k now)) /\
  basePath (Delete c k now) = basePath c /\ enabled (Delete c k now) = enabled c.
Proof.
  intros HT Hc0. pose proof (coherent_later _ T now c s HT Hc0) as Hc. unfold Delete.
  destruct (enabled c) eqn:Een; simpl; [|by split]. destruct (Get (index c) k now) as [i v] eqn:Hg.
  pose proof (co_wf _ _ _ _ Hc) as W. destruct (Get_cases c k now i v W Hg) as (Wi & Hsub & Hv).
  pose proof (coherent_lookup _ _ _ _ _ _ _ _ Hg Hc) as Hci. destruct v as [x|].
  - destruct Hv as (ent & Hent & Hk & Hx & _). subst x k. pose proof (co_path _ _ _ _ Hc ent Hent) as Hpe.
    set (c1 := deleteFile (set_index i c) (FilePath (value ent))).
    destruct (deleteFile_frame (set_index i c) (FilePath (value ent))) as (F1 & F2 & _ & F4 & F5). fold c1 in F1, F2, F4, F5.
    assert (Hd : coherent (fun x => False \/ x = key ent) now c1 s).
    { apply (coherent_file all_keys now (set_index i c)); [done..| |done]. simpl. by rewrite <-Hpe. }
    pose proof (co_wf _ _ _ _ Hd) as Wd. pose proof (on_index_delete_unserved c1 (key ent) now Wd) as Hu.
    destruct (on_index_view c1 (ODelete (key ent)) Wd I I) as (Hb & He & _).
    simpl in F2, F4. split_and!; simpl; [|by intros _|congruence|congruence].
    apply (coherent_same _ _ (on_index c1 (ODelete (key ent)))); [done..|].
    apply (unserved_exempt _ (key ent)); [done|]. by apply on_index_coherent.
  - split_and!; try done. intros _ e He. apply Hv. auto.
Qed.

(** Invalidation by prefix. *)
Lemma prefix_coherent now c s p ks :
  ks ≡ₚ (map_to_list (items (index c))).*1 -> coherent all_keys now c s ->
  let c' := on_index c (ODeletePrefix p ks) in
  coherent all_keys now c' s /\ basePath c' = basePath c /\ enabled c' = enabled c /\
  (forall e, e ∈ view (index c') -> e ∈ view (index c) /\ HasPrefix (key e) p = false).
Proof.
  intros Hks Hc. pose proof (co_wf _ _ _ _ Hc) as W. simpl.
  destruct (on_index_view c (ODeletePrefix p ks) W Hks I) as (Hb & He & _ & Hi & Hv).
  split_and!; [by apply on_index_coherent|done|done|]. intros e Hev. split; [auto|].
  rewrite Hi in Hev. pose proof (perform_refines (index c) (ODeletePrefix p ks) W Hks) as Hr.
  destruct (perform (index c) (ODeletePrefix p ks)) as [[i out] v]. destruct Hr as (_ & gone & Hop & _).
  simpl in *. injection Hop as Hv' _ _. rewrite <-Hv' in Hev. by apply list_elem_of_filter in Hev as [? _].
Qed.

(** ** Histories *)

(** The calls, each a step; a read is its two. *)
Inductive act :=
  | ALookup (k : string) (now : Time)
  | AFile (k : string) (x : CacheEntry) (off n : Z) (now : Time)
  | AContains (objectKey : string) (start size : Z) (now : Time)
  | AWrite (k : string) (d : bytes) (now : Time)
  | ADelete (k : string) (now : Time)
  | ADeleteObject (objectKey : string) (now : Time)
  | ADeleteObjectPrefix (prefix : string) (now : Time)
  | AClear (survives : string -> bool) (now : Time).

Definition act_time (a : act) : Time :=
  match a with
  | ALookup _ t | AFile _ _ _ _ t | AContains _ _ _ t | AWrite _ _ t | ADelete _ t
  | ADeleteObject _ t | ADeleteObjectPrefix _ t | AClear _ t => t
  end.

Context (order : list string -> list string) (order_perm : forall l, order l ≡ₚ l).

Definition do_act (c : DataCache) (a : act) : DataCache :=
  match a with
  | ALookup k now => (Read_lookup c k now).1
  | AFile k x off n _ => (Read_file c k x off n).1
  | AContains o st sz now => (ContainsChunk c o st sz now).1
  | AWrite k d now => (Write c k d now).1
  | ADelete k now => Delete c k now
  | ADeleteObject o now => DeleteObject order c o now
  | ADeleteObjectPrefix p _ => DeleteObjectPrefix order c p
  | AClear survives _ => (Clear order survives c).1
  end.

(** The keys an invalidation is about: those of the object and its chunks, or of
    every object under a prefix and their chunks. *)
Definition of_object (o k : string) : bool := bool_decide (k = o) || HasPrefix k (chunkPrefix o).
Definition under_prefix (p k : string) : bool :=
  HasPrefix k (with_slash p) || HasPrefix k ("chunk:" +:+ with_slash p).

(** The keys that the code's invalidation by prefix removes. *)
Definition prefix_removes (p k : string) : bool :=
  HasPrefix k (with_slash p) || HasPrefix k (chunkPrefix (with_slash p)).

Section Stored.
Context (under : string -> string -> bool).

(** What is stored under each key: the last write that was not invalidated. *)
Definition store_act (c : DataCache) (s : gmap string bytes) (a : act) : gmap string bytes :=
  match a with
  | ALookup _ _ | AFile _ _ _ _ _ | AContains _ _ _ _ => s
  | AWrite k d now => if accepts c d && (Write c k d now).2 then <[k := d]> s else s
  | ADelete k _ => if enabled c then delete k s else s
  | ADeleteObject o _ => if enabled c then filter (fun p => of_object o (p.1) = false) s else s
  | ADeleteObjectPrefix p _ => if enabled c then filter (fun x => under p (x.1) = false) s else s
  | AClear survives _ => if enabled c && (Clear order survives c).2 then ∅ else s
  end.

Fixpoint history (c : DataCache) (s : gmap string bytes) (acts : list act) : DataCache * gmap string bytes :=
  match acts with
  | [] => (c, s)
  | a :: acts => history (do_act c a) (store_act c s a) acts
  end.
End Stored.

(** A read of [k] is not concerned by what invalidation by prefix leaves behind:
    there is none, or [k] is not of a chunk. *)
Definition prefix_safe (k : string) (acts : list act) : Prop :=
  IsChunkKey k = false \/ Forall (fun a => match a with ADeleteObjectPrefix _ _ => False | _ => True end) acts.

Lemma filter_lookup_agree (f g : string -> bool) (s s' : gmap string bytes) k :
  f k = g k -> s !! k = s' !! k ->
  filter (fun x => f (x.1) = false) s !! k = filter (fun x => g (x.1) = false) s' !! k.
Proof. intros Hf Hs. rewrite !map_lookup_filter, Hs. destruct (s' !! k); [|done]. simpl. by rewrite Hf. Qed.

Lemma HasPrefix_chunk k rest : IsChunkKey k = false -> HasPrefix k ("chunk:" +:+ rest) = false.
Proof.
  intros Hk. destruct (HasPrefix k ("chunk:" +:+ rest)) eqn:E; [|done]. apply HasPrefix_spec in E as [r ->].
  rewrite string_app_assoc in Hk. unfold IsChunkKey in Hk. by rewrite HasPrefix_app in Hk.
Qed.

Lemma history_agrees k acts : forall c s s',
  prefix_safe k acts -> s !! k = s' !! k ->
  (history under_prefix c s acts).1 = (history prefix_removes c s' acts).1 /\
  (history under_prefix c s acts).2 !! k = (history prefix_removes c s' acts).2 !! k.
Proof.
  induction acts as [|a acts IH]; intros c s s' Hp Hs; [done|]. cbn [history]. apply IH.
  - destruct Hp as [?|[_ ?]%Forall_cons]; [by left|by right].
  - destruct a as [| | |k' d now|k' now|o now|p now|sv now]; simpl; try done; try (destruct (enabled c); [|done]).
    + case_match; [|done]. destruct (decide (k' = k)) as [->|]; [by rewrite !lookup_insert_eq|by rewrite !lookup_insert_ne].
    + destruct (decide (k' = k)) as [->|]; [by rewrite !lookup_delete_eq|by rewrite !lookup_delete_ne].
    + by apply filter_lookup_agree.
    + apply (filter_lookup_agree (under_prefix p) (prefix_removes p)); [|done].
      destruct Hp as [Hk|[[] _]%Forall_cons]. unfold under_prefix, prefix_removes, chunkPrefix.
      by rewrite !HasPrefix_chunk.
    + simpl. by case_match.
Qed.

(** Between the two steps of a read, nobody writes its key. *)
Definition writes_other (k : string) (a : act) : Prop := match a with AWrite k' _ _ => k' <> k | _ => True end.

Lemma do_act_loses c a k : writes_other k a -> only_loses (getCacheFilePath (basePath c) k) c (do_act c a).
Proof.
  destruct a as [k' now|k' x off n now|o st sz now|k' d now|k' now|o now|p now|sv now]; simpl; intros Hw.
  - unfold Read_lookup. destruct (negb (enabled c)); [done|]. by destruct (Get _ _ _).
  - apply Read_file_loses.
  - unfold ContainsChunk. destruct (negb (enabled c)); [done|]. by destruct (Get _ _ _).
  - by apply Write_loses.
  - apply Delete_loses.
  - unfold DeleteObject. destruct (negb (enabled c)); [done|]. etrans; [apply Delete_loses|apply on_index_loses].
  - unfold DeleteObjectPrefix. destruct (negb (enabled c)); [done|]. etrans; apply on_index_loses.
  - apply Clear_loses.
Qed.

Lemma run_loses k acts : forall c,
  Forall (writes_other k) acts -> only_loses (getCacheFilePath (basePath c) k) c (foldl do_act c acts).
Proof.
  induction acts as [|a acts IH]; intros c Hw; [done|]. apply Forall_cons in Hw as [Ha Hw].
  pose proof (do_act_loses c a k Ha) as Hl. simpl. etrans; [exact Hl|].
  rewrite <-(proj1 Hl). by apply IH.
Qed.

Lemma iteration_perm c : iteration order c ≡ₚ (map_to_list (items (index c))).*1.
Proof. apply order_perm. Qed.

Lemma DeleteObject_coherent T c s o now :
  T <= now -> enabled c = true -> coherent all_keys T c s ->
  coherent all_keys now (DeleteObject order c o now) (filter (fun p => of_object o (p.1) = false) s).
Proof.
  intros HT Hen Hc. unfold DeleteObject. rewrite Hen. simpl.
  destruct (Delete_coherent T c s o now HT Hc) as (Hc1 & Hu & _ & Hen1). specialize (Hu Hen).
  set (c1 := Delete c o now) in *.
  destruct (prefix_coherent now c1 s (chunkPrefix o) _ (iteration_perm c1) Hc1) as (Hc2 & _ & _ & Hv).
  apply (coherent_forget _ now _ s); [|done]. intros e He Hl. destruct (Hv e He) as [He1 Hp].
  destruct (s !! key e) as [d|] eqn:Es.
  - apply map_lookup_filter_Some. split; [done|]. unfold of_object. simpl. rewrite Hp, orb_false_r.
    apply bool_decide_eq_false. intros Hk. specialize (Hu e He1 Hk). lia.
  - apply map_lookup_filter_None. by left.
Qed.

Lemma DeleteObjectPrefix_coherent T c s p now :
  T <= now -> enabled c = true -> coherent all_keys T c s ->
  coherent all_keys now (DeleteObjectPrefix order c p) (filter (fun x => prefix_removes p (x.1) = false) s).
Proof.
  intros HT Hen Hc0. pose proof (coherent_later _ T now c s HT Hc0) as Hc. unfold DeleteObjectPrefix. rewrite Hen. simpl.
  destruct (prefix_coherent now c s (with_slash p) _ (iteration_perm c) Hc) as (Hc1 & _ & _ & Hv1).
  set (c1 := on_index c _) in *.
  destruct (prefix_coherent now c1 s (chunkPrefix (with_slash p)) _ (iteration_perm c1) Hc1) as (Hc2 & _ & _ & Hv2).
  apply (coherent_forget _ now _ s); [|done]. intros e He Hl. destruct (Hv2 e He) as [He1 Hp2].
  destruct (Hv1 e He1) as [_ Hp1]. destruct (s !! key e) as [d|] eqn:Es.
  - apply map_lookup_filter_Some. split; [done|]. unfold prefix_removes. simpl. by rewrite Hp1, Hp2.
  - apply map_lookup_filter_None. by left.
Qed.

Lemma Clear_coherent T c s survives now :
  T <= now -> enabled c = true -> coherent all_keys T c s ->
  coherent all_keys now (Clear order survives c).1 (if (Clear order survives c).2 then ∅ else s).
Proof.
  intros HT Hen Hc0. pose proof (coherent_later _ T now c s HT Hc0) as Hc. unfold Clear. rewrite Hen. simpl.
  destruct (pop c) as [c1 o1] eqn:E1. pose proof (coherent_pop _ _ _ _ _ _ E1 Hc) as [A B C].
  assert (Hlost : forall f, (forall fs p (x : bytes), f fs !! p = Some x -> fs !! p = Some x) ->
    coherent all_keys now (set_files f c1) s).
  { intros f Hf. split; simpl; [done|done|]. intros e He Hl Hp. destruct (C e He Hl Hp) as (d & Hs & Hd).
    exists d. split; [done|]. intros x Hx. apply Hd. by apply Hf. }
  destruct o1; [|apply Hlost; by intros fs p x [? _]%map_lookup_filter_Some..].
  destruct (pop (set_files _ c1)) as [c2 o2] eqn:E2. pose proof (pop_frame _ _ _ E2) as (G1 & _). simpl in G1.
  assert (Hc2 : coherent all_keys now c2 s) by (eapply coherent_pop; [exact E2|by apply Hlost]).
  destruct (is_ok o2); simpl; [|done]. pose proof (co_wf _ _ _ _ Hc2) as W.
  destruct (on_index_view c2 (OClear (iteration order c2)) W (iteration_perm c2) I) as (_ & _ & _ & Hi & _).
  assert (Hempty : view (index (on_index c2 (OClear (iteration order c2)))) = []) by by rewrite Hi.
  split; simpl; [rewrite Hi; apply wf_Clear|intros ent; rewrite Hempty; by intros ?%elem_of_nil..].
Qed.

Lemma do_act_coherent T c s a :
  T <= act_time a -> coherent all_keys T c s -> coherent all_keys (act_time a) (do_act c a) (store_act prefix_removes c s a).
Proof.
  intros HT Hc. destruct a as [k now|k x off n now|o st sz now|k d now|k now|o now|p now|sv now]; simpl in *.
  - pose proof (Read_lookup_coherent T c s k now HT Hc) as H. destruct (Read_lookup c k now). apply H.
  - pose proof (Read_file_coherent now c s k x off n (coherent_later _ T now c s HT Hc)) as H.
    exact H.
  - unfold ContainsChunk. pose proof (coherent_later _ T now c s HT Hc) as Hc'. destruct (negb (enabled c)); [done|].
    destruct (Get (index c) (chunkKey o st sz) now) as [i v] eqn:Hg. by apply (coherent_lookup _ _ _ _ _ _ _ _ Hg).
  - pose proof (Write_coherent T c s k d now HT Hc) as H. by destruct (Write c k d now).
  - destruct (Delete_coherent T c s k now HT Hc) as (H1 & Hu & _). destruct (enabled c); [|done].
    apply (coherent_forget _ now _ s); [|done]. intros e He Hl. rewrite lookup_delete_ne; [done|].
    intros Hk. specialize (Hu eq_refl e He (eq_sym Hk)). lia.
  - destruct (enabled c) eqn:E; [by apply (DeleteObject_coherent T)|]. unfold DeleteObject. rewrite E. simpl.
    by apply (coherent_later _ T).
  - destruct (enabled c) eqn:E; [by apply (DeleteObjectPrefix_coherent T)|]. unfold DeleteObjectPrefix. rewrite E.
    by apply (coherent_later _ T).
  - pose proof (Clear_coherent T c s sv now HT) as H. destruct (enabled c) eqn:E; simpl; [by apply H|].
    unfold Clear. rewrite E. by apply (coherent_later _ T).
Qed.

(** The clock does not go back. *)
Fixpoint ordered (T : Time) (acts : list act) : Prop :=
  match acts with
  | [] => True
  | a :: acts => T <= act_time a /\ ordered (act_time a) acts
  end.

Definition last_time (T : Time) (acts : list act) : Time := foldl (fun _ a => act_time a) T acts.

Lemma history_coherent acts : forall T c s c' s',
  ordered T acts -> coherent all_keys T c s -> history prefix_removes c s acts = (c', s') ->
  coherent all_keys (last_time T acts) c' s'.
Proof.
  induction acts as [|a acts IH]; intros T c s c' s' Ho Hc Hh; simpl in *; [by injection Hh as <- <-|].
  destruct Ho as [Ht Ho]. eapply (IH (act_time a)); [done| |done]. by eapply do_act_coherent.
Qed.

Lemma new_coherent base gb kb fs T : coherent all_keys T (NewDataCache base gb kb fs) ∅.
Proof. split; simpl; [apply wf_new|by intros ? ?%elem_of_nil|by intros ? ?%elem_of_nil]. Qed.

End Coherence.

(** C22. Calls of the data cache come in any order, each a step but for a read,
    which is two: the lookup of its entry and the reading of its file. Whatever is
    written, deleted, invalidated, evicted or cleared before the lookup and
    between the two, by other readers too, whichever calls on the disk fail and
    whatever files an earlier process left: a read that finds anything gives the
    bytes last written under the key before its lookup and not invalidated by
    then. Nobody may write the same key between the two steps, and if the key is
    of a chunk no invalidation by prefix came before, which leaves chunks behind.
    *)
Theorem cache_serves_last_write `{KeyHash} (order : list string -> list string) (base : string) (gb kb : Z)
    (fs : gmap string bytes) (faults : list outcome) (acts between : list act) (T : Time) (c c1 : DataCache)
    (s : gmap string bytes) (k : string) (x : CacheEntry) (off n : Z) (now : Time) (b : bytes)
    (Horder : forall l, order l ≡ₚ l) (Hordered : ordered T acts) (Hprefix : prefix_safe k acts)
    (Hrun : history order under_prefix (set_outcomes faults (NewDataCache base gb kb fs)) ∅ acts = (c, s))
    (Hnow : last_time T acts <= now) (Hlookup : Read_lookup c k now = (c1, Some x))
    (Hbetween : Forall (writes_other k) between)
    (Hread : (Read_file (foldl (do_act order) c1 between) k x off n).2 = Some b) :
  exists d, s !! k = Some d /\ b = slice d off n.
Proof.
  destruct (history_agrees order k acts (set_outcomes faults (NewDataCache base gb kb fs)) ∅ ∅ Hprefix eq_refl) as [E1 E2].
  rewrite Hrun in E1, E2. simpl in E1, E2.
  destruct (history order prefix_removes _ ∅ acts) as [c' s'] eqn:Hrun'. simpl in E1, E2. subst c'. rewrite E2.
  assert (Hc : coherent (fun _ => False) (last_time T acts) c s').
  { eapply history_coherent; [done|done| |done].
    apply (coherent_same _ _ (NewDataCache base gb kb fs)); [done..|]. apply new_coherent. }
  pose proof (Read_lookup_coherent _ c s' k now Hnow Hc) as Hl. rewrite Hlookup in Hl. destruct Hl as [_ Hl].
  destruct (Hl x eq_refl) as (Hp & d & Hs & Hd). exists d. split; [done|].
  destruct (Read_file_bytes _ _ _ _ _ _ Hread) as (f & Hf & ->). f_equal. apply Hd.
  rewrite Hp in Hf |- *. by apply (run_loses order k between c1 Hbetween).
Qed.

(** ** Examples *)

#[local] Instance named_files : KeyHash.
Proof.
  refine {| key_hash := fun k => "00" +:+ k |}; [by intros k1 k2 [= H]|].
  abstract (intros k; simpl; lia).
Defined.

Definition some_bytes (n : nat) : bytes := replicate n Byte.x41.

Lemma order_id (l : list string) : id l ≡ₚ l.
Proof. done. Qed.

(** A chunk is written, its file survives a failed removal, and it is written again. *)
Definition demo : list act :=
  [AWrite (chunkKey "/a" 0 4) (some_bytes 4) 1; ADeleteObject "/a" 2; AWrite (chunkKey "/a" 0 4) (some_bytes 3) 3].

Definition demo_faults : list outcome := [Ok; Ok; Fail; Fail; Ok; Ok; Ok; Fail].

Definition demo_run : DataCache * gmap string bytes :=
  history id under_prefix (set_outcomes demo_faults (NewDataCache "/cache" 1 1024 ∅)) ∅ demo.

Definition demo_entry : CacheEntry := mkCacheEntry (getCacheFilePath "/cache" (chunkKey "/a" 0 4)) 3.

(** The chunk is looked up, invalidated, and read from the file that stayed. *)
Lemma cache_serves_last_write_witness :
  (Read_lookup demo_run.1 (chunkKey "/a" 0 4) 4).2 = Some demo_entry /\
  exists d, demo_run.2 !! chunkKey "/a" 0 4 = Some d /\ some_bytes 2 = slice d 1 5.
Proof.
  assert (Hl : (Read_lookup demo_run.1 (chunkKey "/a" 0 4) 4).2 = Some demo_entry) by (vm_compute; reflexivity).
  split; [exact Hl|].
  apply (cache_serves_last_write id "/cache" 1 1024 ∅ demo_faults demo [ADeleteObject "/a" 5] 0
    demo_run.1 (Read_lookup demo_run.1 (chunkKey "/a" 0 4) 4).1 demo_run.2 (chunkKey "/a" 0 4) demo_entry 1 5 4 (some_bytes 2)).
  - exact order_id.
  - repeat split; discriminate.
  - right. repeat constructor.
  - apply surjective_pairing.
  - vm_compute. discriminate.
  - rewrite <-Hl. apply surjective_pairing.
  - repeat constructor.
  - vm_compute. reflexivity.
Defined.

(** ** What the cache does not do *)

(** A cache of [max] bytes over the files of its directory. *)
Definition cache_over (max : Z) (fs : gmap string bytes) : DataCache :=
  mkDataCache "/cache" max (calculateSize fs) 1024 true (NewLRUCache 10000 (24 * Hour)) fs [].

(** Invalidating a directory leaves the chunks of the files in it: the prefix it
    removes has a colon after the directory's slash. *)
Lemma prefix_invalidation_keeps_chunks :
  let c := (WriteChunk (cache_over 100 ∅) "/dir/f" 0 1024 (some_bytes 5) 1).1 in
  let c := DeleteObjectPrefix id c "/dir" in
  (ReadChunk c "/dir/f" 0 1024 2).2 = Some (some_bytes 5).
Proof. by vm_compute. Qed.

(** Deleting an entry takes its size off twice, so that the files on disk then
    exceed the cache's limit. *)
Lemma delete_counts_twice :
  let c := (Write (cache_over 10 ∅) "/a" (some_bytes 10) 1).1 in
  let c := Delete c "/a" 2 in
  let c := (Write (Write c "/b" (some_bytes 10) 3).1 "/c" (some_bytes 10) 4).1 in
  calculateSize (files c) = 20 /\ currentSize c = 10 /\ maxBytes c = 10.
Proof. by vm_compute. Qed.

(** The files a crashed process left count against the limit for ever, and no
    eviction removes them: two entries no longer fit together. *)
Lemma leftover_files_fill_cache :
  let old := {[ "/cache/00/old" := some_bytes 10 ]} : gmap string bytes in
  let c := (Write (Write (cache_over 10 old) "/a" (some_bytes 1) 1).1 "/b" (some_bytes 1) 2).1 in
  files c !! "/cache/00/old" = Some (some_bytes 10) /\
  (Read c "/a" 0 0 3).2 = None /\ calculateSize (files c) = 11.
Proof. by vm_compute. Qed.

(** Between the lookup of a read and its opening of the file the entry can be
    invalidated and written again: a reader that opens the file while it is
    being written takes what is there for the whole chunk. *)
Definition read_found (c : DataCache) (path : string) : option bytes := files c !! path.

Lemma read_of_file_being_written :
  let c0 := (Write (cache_over 100 ∅) "/a" (some_bytes 8) 1).1 in
  let path := from_option FilePath "" (LRU.Get (index c0) "/a" 2).2 in
  let c1 := DeleteObject id c0 "/a" 3 in
  let c2 := (Write (set_outcomes [Ok; Partial 3] c1) "/a" (some_bytes 8) 4).1 in
  read_found c0 path = Some (some_bytes 8) /\ read_found c2 path = Some (some_bytes 3).
Proof. by vm_compute. Qed.

End DataCacheSafety.
