(* ===== verification/RangeRead.v ===== *)
(** * Reading objects through the chunk cache ([internal/posix/operations.go])

    [ReadFile] serves a byte range from chunks of the object, cached or fetched.
    What it needs of the cache is the interface [ChunkCache] with the laws of
    [CoherentCache]; [RangeReadCache] shows that the data cache has them.  The
    object store's answers are an input: [fetch] for ranges, [whole] for the
    object.  Offsets are below the size of an object, so that no sum here leaves
    [int64]. *)
From S2P Require Import Prelude StagingTypes Disk.

(** The cache as [ReadFile] uses it, for one object. *)
Class ChunkCache := {
  cache_state : Type;
  ReadRange : cache_state -> Z -> Z -> Z -> Z -> cache_state * option bytes;
  Contains : cache_state -> Z -> Z -> cache_state * bool;
  WriteChunk : cache_state -> Z -> Z -> bytes -> cache_state;
  ReadFull : cache_state -> cache_state * option bytes;
  WriteFull : cache_state -> bytes -> cache_state
}.

(** What a cached part is read as: a length of zero asks for all of it. *)
Definition part (d : bytes) (off n : Z) : bytes :=
  if n <=? 0 then drop (Z.to_nat off) d else Disk.pread d off n.

(** A cache that holds nothing but the bytes of [obj]. *)
Class CoherentCache `{ChunkCache} (obj : bytes) := {
  cache_ok : cache_state -> Prop;
  ReadRange_ok c start size off n c' r :
    cache_ok c -> 0 <= off -> ReadRange c start size off n = (c', r) ->
    cache_ok c' /\ forall b, r = Some b -> b = part (Disk.pread obj start size) off n;
  Contains_ok c start size c' b : cache_ok c -> Contains c start size = (c', b) -> cache_ok c';
  WriteChunk_ok c start size : cache_ok c -> cache_ok (WriteChunk c start size (Disk.pread obj start size));
  ReadFull_ok c c' r : cache_ok c -> ReadFull c = (c', r) -> cache_ok c' /\ forall b, r = Some b -> b = obj;
  WriteFull_ok c : cache_ok c -> cache_ok (WriteFull c obj)
}.

Module RangeRead.

Section RangeRead.
Context {CC : ChunkCache}.

(** The values of [for chunkStart := first; chunkStart <= last; chunkStart += size]. *)
Definition chunk_starts (first last size : Z) : list Z :=
  (fun i => first + size * i) <$> seqZ 0 ((last - first) / size + 1).

(** [readWarmChunks], from the chunks [starts] on. *)
Fixpoint warm_loop (c : cache_state) (starts : list Z) (offset requestEnd size : Z) (out : bytes)
    : cache_state * option bytes :=
  match starts with
  | [] => (c, Some out)
  | chunkStart :: rest =>
      let readStart := if chunkStart <? offset then offset - chunkStart else 0 in
      let readEnd := if requestEnd <? chunkStart + size then requestEnd - chunkStart else size in
      match ReadRange c chunkStart size readStart (readEnd - readStart) with
      | (c, None) => (c, None)
      | (c, Some data) =>
          let out := out ++ data in
          if len data <? readEnd - readStart then (c, Some out)
          else warm_loop c rest offset requestEnd size out
      end
  end.

Definition readWarmChunks (c : cache_state) (offset length size first last : Z) : cache_state * option bytes :=
  warm_loop c (chunk_starts first last size) offset (offset + length) size [].

(** The chunks the request needs: those cached, and those missing. *)
Fixpoint gather (c : cache_state) (starts : list Z) (size : Z) (chunks : gmap Z bytes) (missing : list Z)
    : cache_state * gmap Z bytes * list Z :=
  match starts with
  | [] => (c, chunks, missing)
  | chunkStart :: rest =>
      match ReadRange c chunkStart size 0 0 with
      | (c, Some cached) => gather c rest size (<[chunkStart := cached]> chunks) missing
      | (c, None) => gather c rest size chunks (missing ++ [chunkStart])
      end
  end.

(** The chunks of the read-ahead window that are not cached. *)
Fixpoint read_ahead (c : cache_state) (starts : list Z) (size : Z) (missing : list Z) : cache_state * list Z :=
  match starts with
  | [] => (c, missing)
  | chunkStart :: rest =>
      let '(c, present) := Contains c chunkStart size in
      read_ahead c rest size (if present then missing else missing ++ [chunkStart])
  end.

(** [fetchChunkSingleflight]: requests for the same chunk share one call. *)
Definition fetchChunkSingleflight (c : cache_state) (fetch : Z -> option bytes) (chunkStart size : Z)
    : cache_state * option bytes :=
  match ReadRange c chunkStart size 0 0 with
  | (c, Some cached) => (c, Some cached)
  | (c, None) =>
      match fetch chunkStart with
      | None => (c, None)
      | Some data => (if 0 <? len data then WriteChunk c chunkStart size data else c, Some data)
      end
  end.

(** [fetchMissingChunks]: the chunks in the order their fetches end; [false] when
    one that the request needs could not be fetched. *)
Fixpoint fetchMissingChunks (c : cache_state) (fetch : Z -> option bytes) (missing : list Z) (size lastRequired : Z)
    (fetched : gmap Z bytes) (good : bool) : cache_state * gmap Z bytes * bool :=
  match missing with
  | [] => (c, fetched, good)
  | chunkStart :: rest =>
      match fetchChunkSingleflight c fetch chunkStart size with
      | (c, Some data) => fetchMissingChunks c fetch rest size lastRequired (<[chunkStart := data]> fetched) good
      | (c, None) => fetchMissingChunks c fetch rest size lastRequired fetched
                       (good && negb (chunkStart <=? lastRequired))
      end
  end.

(** The final loop: the requested part of each chunk. *)
Fixpoint assemble (starts : list Z) (chunks : gmap Z bytes) (offset requestEnd : Z) (out : bytes) : bytes :=
  match starts with
  | [] => out
  | chunkStart :: rest =>
      if negb (len out <? requestEnd - offset) then out
      else
        let chunk := default [] (chunks !! chunkStart) in
        let out :=
          if len chunk =? 0 then out
          else
            let startInChunk := if chunkStart <? offset then offset - chunkStart else 0 in
            let endInChunk := if requestEnd <? chunkStart + len chunk then requestEnd - chunkStart else len chunk in
            let startInChunk := if startInChunk <? 0 then 0 else startInChunk in
            let endInChunk := if len chunk <? endInChunk then len chunk else endInChunk in
            if startInChunk <? endInChunk
            then out ++ take (Z.to_nat (endInChunk - startInChunk)) (drop (Z.to_nat startInChunk) chunk)
            else out in
        assemble rest chunks offset requestEnd out
  end.

(** What a request is given: the configured chunk size and read-ahead, the
    object's size if its metadata is cached, the order fetches end in. *)
Record request := mkRequest {
  configured : Z;
  readAheadBytes : Z;
  cachedObjectSize : option Z;
  completion : list Z -> list Z
}.

(** How far the read-ahead goes. *)
Definition fetch_end (q : request) (offset length : Z) : Z :=
  let requestEnd := offset + length in
  let fetchLength := if readAheadBytes q <? length then length else readAheadBytes q in
  let fetchEnd := offset + fetchLength in
  let fetchEnd := match cachedObjectSize q with
                  | Some size => if size <? fetchEnd then size else fetchEnd
                  | None => fetchEnd
                  end in
  if fetchEnd <? requestEnd then requestEnd else fetchEnd.

(** [readRangeWithCache]. *)
Definition readRangeWithCache (q : request) (fetch : Z -> option bytes) (c : cache_state) (offset length : Z)
    : cache_state * option bytes :=
  if (offset <? 0) || (length <? 0) then (c, None)
  else
    let requestEnd := offset + length in
    let size := if configured q <=? 0 then 1024 * 1024 else configured q in
    let firstChunk := Z.quot offset size * size in
    let lastRequired := Z.quot (requestEnd - 1) size * size in
    let starts := chunk_starts firstChunk lastRequired size in
    match readWarmChunks c offset length size firstChunk lastRequired with
    | (c, Some data) => (c, Some data)
    | (c, None) =>
        let '(c, chunks, missing) := gather c starts size ∅ [] in
        if (0 <? len missing) then
          let readAheadLast := Z.quot (fetch_end q offset length - 1) size * size in
          let '(c, missing) := read_ahead c (chunk_starts (lastRequired + size) readAheadLast size) size missing in
          match fetchMissingChunks c fetch (completion q missing) size lastRequired ∅ true with
          | (c, _, false) => (c, None)
          | (c, fetched, true) => (c, Some (assemble starts (fetched ∪ chunks) offset requestEnd []))
          end
        else (c, Some (assemble starts chunks offset requestEnd []))
    end.

(** [ReadFile]: [enabled] says whether there is a data cache, [allowed] whether
    a read of the whole object is, [direct] answers a range without the cache. *)
Definition ReadFile (q : request) (enabled allowed : bool) (fetch : Z -> option bytes)
    (direct : Z -> Z -> option bytes) (whole : option bytes) (c : cache_state) (offset length : Z)
    : cache_state * option bytes :=
  if (length <=? 0) && negb allowed then (c, None)
  else
    let '(c, hit) := if enabled && (offset =? 0) && (length =? 0) then ReadFull c else (c, None) in
    match hit with
    | Some data => (c, Some data)
    | None =>
        let '(c, data) :=
          if 0 <? length
          then if enabled then readRangeWithCache q fetch c offset length else (c, direct offset length)
          else (c, whole) in
        match data with
        | None => (c, None)
        | Some data =>
            (if enabled && (0 <? len data) && (offset =? 0) && (length =? 0) then WriteFull c data else c,
             Some data)
        end
    end.

(** ** Segments of the object *)

Abbreviation seg obj a b := (Disk.pread obj a (b - a)).

Lemma pread_lookup (d : bytes) off n (i : nat) :
  0 <= off -> Disk.pread d off n !! i = if Z.of_nat i <? n then d !! Z.to_nat (off + Z.of_nat i) else None.
Proof.
  intros Ho. unfold Disk.pread. destruct (_ <? _) eqn:E; bool_to_prop.
  - rewrite lookup_take_lt by lia. rewrite lookup_drop. f_equal. lia.
  - apply lookup_ge_None. rewrite length_take. lia.
Qed.

Lemma pread_length (d : bytes) off n : 0 <= off -> 0 <= n -> len (Disk.pread d off n) = Z.max 0 (Z.min n (len d - off)).
Proof. intros. unfold Disk.pread. rewrite length_take, length_drop. lia. Qed.

Lemma seg_app (obj : bytes) a b c : 0 <= a -> a <= b -> b <= c -> seg obj a b ++ seg obj b c = seg obj a c.
Proof.
  intros H0 H1 H2. unfold Disk.pread.
  replace (Z.to_nat (c - a)) with (Z.to_nat (b - a) + Z.to_nat (c - b))%nat by lia.
  rewrite <-take_take_drop, drop_drop. do 3 f_equal. lia.
Qed.

(** Reading inside a chunk reads the object. *)
Lemma pread_pread (obj : bytes) s size off n :
  0 <= s -> 0 <= off -> off + n <= size ->
  Disk.pread (Disk.pread obj s size) off n = Disk.pread obj (s + off) n.
Proof.
  intros Hs Ho Hn. apply list_eq. intros i. rewrite !pread_lookup by lia.
  destruct (_ <? n) eqn:E; [|done]. bool_to_prop.
  rewrite (proj2 (Z.ltb_lt _ _)) by lia. f_equal. lia.
Qed.

(** Past the end there is nothing more to read. *)
Lemma seg_past_end (obj : bytes) a b c : 0 <= a -> a <= b <= c -> len obj <= b -> seg obj a b = seg obj a c.
Proof.
  intros H0 H1 Hb. apply list_eq. intros i. rewrite !pread_lookup by lia.
  destruct (_ <? b - a) eqn:E1, (_ <? c - a) eqn:E2; bool_to_prop; try done; try lia.
  symmetry. apply lookup_ge_None. lia.
Qed.

(** What the final loop takes of a chunk. *)
Lemma assemble_piece (obj : bytes) s size offset requestEnd :
  0 <= s -> 0 < size -> 0 <= offset -> s < requestEnd -> offset < s + size ->
  let chunk := Disk.pread obj s size in
  let a := if s <? offset then offset - s else 0 in
  let e := if requestEnd <? s + len chunk then requestEnd - s else len chunk in
  take (Z.to_nat (e - a)) (drop (Z.to_nat a) chunk) =
  seg obj (Z.max offset s) (Z.min requestEnd (s + size)).
Proof.
  intros Hs Hsize Ho Hr Hos chunk a e.
  assert (Hlen : len chunk = Z.max 0 (Z.min size (len obj - s))) by (apply pread_length; lia).
  assert (Ha : a = Z.max 0 (offset - s)) by (unfold a; zcases).
  assert (He : e = Z.min (requestEnd - s) (len chunk)) by (unfold e; zcases).
  clearbody a e. fold (Disk.pread chunk a (e - a)). apply list_eq. intros i.
  unfold chunk at 1. rewrite (pread_lookup (Disk.pread obj s size) a) by lia.
  rewrite !pread_lookup by lia.
  assert (Hgone : forall j, len obj <= j -> obj !! Z.to_nat j = None).
  { intros j Hj. apply lookup_ge_None. lia. }
  zcases; try (f_equal; lia); try (symmetry; apply Hgone; lia); try (apply Hgone; lia).
Qed.

(** ** The loops over chunks *)

(** [s], [s + size], ... up to [last]. *)
Inductive steps (size last : Z) : Z -> list Z -> Prop :=
  | steps_end s : last < s -> steps size last s []
  | steps_next s l : s <= last -> steps size last (s + size) l -> steps size last s (s :: l).

Lemma chunk_starts_steps size last s :
  0 < size -> steps size last s (chunk_starts s last size).
Proof.
  intros Hsize. unfold chunk_starts. remember (Z.to_nat ((last - s) / size + 1)) as n eqn:Hn.
  revert s Hn. induction n as [|n IH]; intros s Hn.
  - assert ((last - s) / size < 0) by lia. assert (last < s) by (apply Z.lt_nge; intros ?; pose proof (Z.div_pos (last - s) size); lia).
    rewrite (seqZ_nil 0) by lia. by constructor.
  - assert (Hs : s <= last).
    { apply Z.nlt_ge. intros ?. pose proof (Z.div_lt_upper_bound (last - s) size 0 Hsize). lia. }
    assert (Hd : (last - (s + size)) / size = (last - s) / size - 1).
    { replace (last - (s + size)) with (last - s + -1 * size) by lia. rewrite Z.div_add by lia. lia. }
    rewrite seqZ_cons by lia. rewrite fmap_cons, Z.mul_0_r, Z.add_0_r. constructor; [done|].
    specialize (IH (s + size)). rewrite Hd in IH. specialize (IH ltac:(lia)).
    replace (fmap (fun i => s + size * i) (seqZ (Z.succ 0) (Z.pred ((last - s) / size + 1))))
      with ((fun i => s + size + size * i) <$> seqZ 0 ((last - s) / size - 1 + 1)); [done|].
    replace (Z.pred ((last - s) / size + 1)) with ((last - s) / size - 1 + 1) by lia.
    rewrite <-(fmap_add_seqZ 1 0), <-list_fmap_compose. apply list_fmap_ext. intros i x _. simpl. lia.
Qed.

Section Loops.
Context (obj : bytes) (size offset requestEnd last : Z).
Hypothesis Hsize : 0 < size.
Hypothesis Hoffset : 0 <= offset < requestEnd.
Hypothesis Hlast : last < requestEnd <= last + size.

(** The next chunk to look at, when everything before it is done. *)
Definition next_ok (s : Z) : Prop := 0 <= s /\ offset < s + size /\ (size | last - s).

Lemma next_ok_step s : next_ok s -> next_ok (s + size).
Proof.
  intros (H1 & H2 & [k Hk]). unfold next_ok. split; [lia|]. split; [lia|]. exists (k - 1). nia.
Qed.

Lemma next_ok_end s : next_ok s -> last < s -> requestEnd <= s.
Proof. intros (_ & _ & [k Hk]) Hls. assert (k <= -1) by nia. assert (k * size <= -1 * size) by nia. lia. Qed.

(** What is read when [s] is next. *)
Abbreviation done_upto s := (seg obj offset (Z.max offset (Z.min requestEnd s))).

Lemma done_step s :
  next_ok s -> s <= last ->
  done_upto s ++ seg obj (Z.max offset s) (Z.min requestEnd (s + size)) = done_upto (s + size).
Proof.
  intros (H1 & H2 & _) Hs. replace (Z.max offset (Z.min requestEnd s)) with (Z.max offset s) by lia.
  rewrite seg_app by lia. f_equal. lia.
Qed.

Lemma done_all s : next_ok s -> last < s -> done_upto s = seg obj offset requestEnd.
Proof. intros Hn Hs. pose proof (next_ok_end s Hn Hs). f_equal. lia. Qed.

Lemma assemble_spec s l chunks :
  steps size last s l -> next_ok s -> (forall x, x ∈ l -> chunks !! x = Some (Disk.pread obj x size)) ->
  assemble l chunks offset requestEnd (done_upto s) = seg obj offset requestEnd.
Proof.
  induction 1 as [s Hs|s l Hs Hl IH]; intros Hn Hc; [by apply done_all|].
  simpl. pose proof Hn as (H1 & H2 & _).
  rewrite (proj2 (Z.ltb_lt _ _)) by (rewrite pread_length by lia; lia). simpl.
  rewrite (Hc s) by set_solver. simpl.
  specialize (IH (next_ok_step s Hn) ltac:(set_solver)). rewrite <-IH. f_equal.
  rewrite <-(done_step s Hn Hs).
  pose proof (assemble_piece obj s size offset requestEnd H1 Hsize ltac:(lia) ltac:(lia) H2) as Hp. simpl in Hp.
  set (chunk := Disk.pread obj s size) in *.
  set (a := if s <? offset then offset - s else 0) in *.
  assert (Ha : 0 <= a) by (unfold a; zcases).
  set (e := if requestEnd <? s + len chunk then requestEnd - s else len chunk) in *.
  assert (He : e <= len chunk) by (unfold e; zcases).
  rewrite (proj2 (Z.ltb_ge a 0)) by lia. rewrite (proj2 (Z.ltb_ge (len chunk) e)) by lia.
  destruct (len chunk =? 0) eqn:E0; bool_to_prop.
  { rewrite <-Hp. replace (Z.to_nat (e - a)) with 0%nat by lia. by rewrite take_0, app_nil_r. }
  destruct (a <? e) eqn:Eae; bool_to_prop; [by rewrite Hp|].
  rewrite <-Hp. replace (Z.to_nat (e - a)) with 0%nat by lia. by rewrite take_0, app_nil_r.
Qed.

Context `{!CoherentCache obj}.

Lemma warm_loop_spec s l : steps size last s l -> next_ok s -> forall c c' r,
  cache_ok c -> warm_loop c l offset requestEnd size (done_upto s) = (c', r) ->
  cache_ok c' /\ forall out, r = Some out -> out = seg obj offset requestEnd.
Proof.
  induction 1 as [s Hs|s l Hs Hl IH]; intros Hn c c' r Hc Hw; simpl in Hw.
  { injection Hw as <- <-. split; [done|]. intros out [= <-]. by apply done_all. }
  pose proof Hn as (H1 & H2 & _).
  set (a := if s <? offset then offset - s else 0) in *.
  assert (Ha : a = Z.max 0 (offset - s)) by (unfold a; zcases).
  set (e := if requestEnd <? s + size then requestEnd - s else size) in *.
  assert (He : e = Z.min (requestEnd - s) size) by (unfold e; zcases). clearbody a e.
  destruct (ReadRange c s size a (e - a)) as [c1 [data|]] eqn:Er.
  - destruct (ReadRange_ok c s size a (e - a) c1 _ Hc ltac:(lia) Er) as [Hc1 Hd].
    specialize (Hd data eq_refl). unfold part in Hd. rewrite (proj2 (Z.leb_gt _ _)) in Hd by lia.
    rewrite pread_pread in Hd by lia.
    replace (s + a) with (Z.max offset s) in Hd by lia.
    replace (e - a) with (Z.min requestEnd (s + size) - Z.max offset s) in Hd, Hw by lia.
    assert (Hout : done_upto s ++ data = done_upto (s + size)) by (rewrite Hd; by apply done_step).
    rewrite Hout in Hw. destruct (len data <? _) eqn:Es; bool_to_prop.
    + injection Hw as <- <-. split; [done|]. intros out [= <-].
      rewrite Hd, pread_length in Es by lia.
      apply seg_past_end; [lia|lia|]. lia.
    + apply (IH (next_ok_step s Hn) c1 c' r Hc1 Hw).
  - injection Hw as <- <-. destruct (ReadRange_ok c s size a (e - a) c1 _ Hc ltac:(lia) Er). by split.
Qed.

End Loops.

(** ** Fetching *)

Section Fetching.
Context (obj : bytes) `{!CoherentCache obj} (size : Z).

(** Chunks that are those of the object. *)
Definition of_obj (chunks : gmap Z bytes) : Prop :=
  forall x d, chunks !! x = Some d -> d = Disk.pread obj x size.

Lemma of_obj_empty : of_obj ∅.
Proof. by intros x d. Qed.

Lemma of_obj_insert chunks x : of_obj chunks -> of_obj (<[x := Disk.pread obj x size]> chunks).
Proof. intros H y d [[<- <-]|[_ Hy]]%lookup_insert_Some; auto. Qed.

Lemma part_all (d : bytes) : part d 0 0 = d.
Proof. done. Qed.

Lemma gather_spec starts : forall c chunks missing c' chunks' missing',
  cache_ok c -> of_obj chunks -> gather c starts size chunks missing = (c', chunks', missing') ->
  cache_ok c' /\ of_obj chunks' /\
  (forall x, x ∈ missing \/ is_Some (chunks !! x) -> x ∈ missing' \/ is_Some (chunks' !! x)) /\
  (forall x, x ∈ starts -> x ∈ missing' \/ is_Some (chunks' !! x)) /\
  (forall x, x ∈ missing' -> x ∈ missing \/ x ∈ starts).
Proof.
  induction starts as [|s starts IH]; intros c chunks missing c' chunks' missing' Hc Ho Hg; simpl in Hg.
  { injection Hg as <- <- <-. split_and!; try done; [by intros x ?%elem_of_nil|by left]. }
  destruct (ReadRange c s size 0 0) as [c1 [d|]] eqn:Er;
    destruct (ReadRange_ok c s size 0 0 c1 _ Hc ltac:(lia) Er) as [Hc1 Hd].
  - specialize (Hd d eq_refl). rewrite part_all in Hd. subst d.
    destruct (IH _ _ _ _ _ _ Hc1 (of_obj_insert _ s Ho) Hg) as (A & B & C & D & E).
    split_and!; [done|done| | |].
    + intros x [Hx|Hx]; apply C; [by left|right]. rewrite lookup_insert. by case_decide.
    + intros x [->|Hx]%elem_of_cons; [apply C; right; by rewrite lookup_insert_eq|by apply D].
    + intros x Hx. destruct (E x Hx); [by left|right; by right].
  - destruct (IH _ _ _ _ _ _ Hc1 Ho Hg) as (A & B & C & D & E). split_and!; [done|done| | |].
    + intros x [Hx|Hx]; apply C; [left; set_solver|by right].
    + intros x [->|Hx]%elem_of_cons; [apply C; left; set_solver|by apply D].
    + intros x Hx. destruct (E x Hx) as [Hx'|Hx']; [|right; by right]. set_solver.
Qed.

Lemma read_ahead_spec starts : forall c missing c' missing',
  cache_ok c -> read_ahead c starts size missing = (c', missing') ->
  cache_ok c' /\ (forall x, x ∈ missing -> x ∈ missing') /\ (forall x, x ∈ missing' -> x ∈ missing \/ x ∈ starts).
Proof.
  induction starts as [|s starts IH]; intros c missing c' missing' Hc Hr; simpl in Hr.
  { injection Hr as <- <-. split_and!; try done. by left. }
  destruct (Contains c s size) as [c1 b] eqn:E. pose proof (Contains_ok c s size c1 b Hc E) as Hc1.
  destruct (IH _ _ _ _ Hc1 Hr) as (A & B & C). split; [done|]. split.
  - intros x Hx. apply B. destruct b; set_solver.
  - intros x Hx. destruct (C x Hx) as [Hx'|Hx']; [|right; by right]. destruct b; set_solver.
Qed.

Context (fetch : Z -> option bytes).
Hypothesis Hfetch : forall s d, fetch s = Some d -> d = Disk.pread obj s size.

Lemma fetchChunk_spec c s c' r :
  cache_ok c -> fetchChunkSingleflight c fetch s size = (c', r) ->
  cache_ok c' /\ (forall d, r = Some d -> d = Disk.pread obj s size) /\ (is_Some (fetch s) -> is_Some r).
Proof.
  intros Hc. unfold fetchChunkSingleflight. destruct (ReadRange c s size 0 0) as [c1 [d|]] eqn:Er;
    destruct (ReadRange_ok c s size 0 0 c1 _ Hc ltac:(lia) Er) as [Hc1 Hd].
  - intros [= <- <-]. split; [done|]. split; [|done]. intros x [= <-]. by apply Hd.
  - destruct (fetch s) as [d|] eqn:Ef.
    + pose proof (Hfetch s d Ef) as ->. intros [= <- <-]. split; [|split; [by intros x [= <-]|done]].
      destruct (0 <? _); [by apply WriteChunk_ok|done].
    + intros [= <- <-]. split; [done|]. split; [done|]. by intros [].
Qed.

Lemma fetchMissing_spec lastRequired missing : forall c fetched good c' fetched' good',
  cache_ok c -> of_obj fetched ->
  fetchMissingChunks c fetch missing size lastRequired fetched good = (c', fetched', good') ->
  cache_ok c' /\ of_obj fetched' /\
  (forall x, is_Some (fetched !! x) -> is_Some (fetched' !! x)) /\
  (good' = true -> good = true /\ forall x, x ∈ missing -> x <= lastRequired -> is_Some (fetched' !! x)) /\
  (good = true -> (forall x, x ∈ missing -> x <= lastRequired -> is_Some (fetch x)) -> good' = true).
Proof.
  induction missing as [|s missing IH]; intros c fetched good c' fetched' good' Hc Ho Hf; simpl in Hf.
  { injection Hf as <- <- <-. split_and!; try done. intros ->. split; [done|]. by intros x ?%elem_of_nil. }
  destruct (fetchChunkSingleflight c fetch s size) as [c1 [d|]] eqn:E;
    destruct (fetchChunk_spec c s c1 _ Hc E) as (Hc1 & Hd & Hs).
  - specialize (Hd d eq_refl). subst d.
    destruct (IH _ _ _ _ _ _ Hc1 (of_obj_insert _ s Ho) Hf) as (A & B & C & D & F). split_and!; [done|done| | |].
    + intros x Hx. apply C. rewrite lookup_insert. by case_decide.
    + intros Hg. destruct (D Hg) as [Hg' Hall]. split; [done|].
      intros x [->|Hx]%elem_of_cons Hle; [apply C; by rewrite lookup_insert_eq|by apply Hall].
    + intros Hg Hall. apply F; [done|]. intros x Hx. apply Hall. by right.
  - destruct (IH _ _ _ _ _ _ Hc1 Ho Hf) as (A & B & C & D & F). split_and!; [done|done|done| |].
    + intros Hg. destruct (D Hg) as [Hg' Hall]. bool_to_prop. destruct Hg' as [-> Hg']. split; [done|].
      intros x [->|Hx]%elem_of_cons Hle; [lia|by apply Hall].
    + intros -> Hall. apply F; [|intros x Hx; apply Hall; by right]. simpl. bool_to_prop.
      destruct (Z.le_gt_cases s lastRequired) as [Hle|?]; [|done]. exfalso.
      destruct (Hs (Hall s ltac:(set_solver) Hle)) as [? [=]].
Qed.

End Fetching.

(** The chunks of a request. *)
Lemma request_starts size offset requestEnd :
  0 < size -> 0 <= offset < requestEnd ->
  let first := Z.quot offset size * size in
  let last := Z.quot (requestEnd - 1) size * size in
  next_ok size offset last first /\ last < requestEnd <= last + size /\ first <= offset /\ 0 <= last.
Proof.
  intros Hsize Ho. simpl. rewrite !Z.quot_div_nonneg by lia. unfold next_ok.
  pose proof (Z.div_mod offset size ltac:(lia)). pose proof (Z.mod_pos_bound offset size Hsize).
  pose proof (Z.div_mod (requestEnd - 1) size ltac:(lia)). pose proof (Z.mod_pos_bound (requestEnd - 1) size Hsize).
  pose proof (Z.div_pos offset size). pose proof (Z.div_pos (requestEnd - 1) size).
  split_and!; try nia. exists ((requestEnd - 1) / size - offset / size). lia.
Qed.

Lemma steps_le size last s l : steps size last s l -> forall x, x ∈ l -> x <= last.
Proof.
  induction 1 as [|s l Hs _ IH]; [by intros x ?%elem_of_nil|]. intros x [->|Hx]%elem_of_cons; auto.
Qed.

Definition chunk_size (q : request) : Z := if configured q <=? 0 then 1024 * 1024 else configured q.

Lemma chunk_size_pos q : 0 < chunk_size q.
Proof. unfold chunk_size. zcases. Qed.

(** The chunks a request for a range needs. *)
Definition required (q : request) (offset length : Z) : list Z :=
  chunk_starts (Z.quot offset (chunk_size q) * chunk_size q)
    (Z.quot (offset + length - 1) (chunk_size q) * chunk_size q) (chunk_size q).

Lemma readRange_spec obj `{!CoherentCache obj} q fetch c offset length c' r :
  (forall s d, fetch s = Some d -> d = Disk.pread obj s (chunk_size q)) ->
  (forall l, completion q l ≡ₚ l) -> 0 <= offset -> 0 < length -> cache_ok c ->
  readRangeWithCache q fetch c offset length = (c', r) ->
  cache_ok c' /\ (forall out, r = Some out -> out = Disk.pread obj offset length) /\
  ((forall s, s ∈ required q offset length -> is_Some (fetch s)) -> is_Some r).
Proof.
  intros Hfetch Hperm Ho Hl Hc. unfold readRangeWithCache. fold (chunk_size q).
  rewrite (proj2 (Z.ltb_ge offset 0)), (proj2 (Z.ltb_ge length 0)) by lia. simpl.
  pose proof (chunk_size_pos q) as Hsize. unfold required. set (size := chunk_size q) in *.
  destruct (request_starts size offset (offset + length) Hsize ltac:(lia)) as (Hn & Hlast & Hfirst & Hpos).
  set (first := Z.quot offset size * size) in *. set (last := Z.quot (offset + length - 1) size * size) in *.
  pose proof (chunk_starts_steps size last first Hsize) as Hst.
  assert (Hseg : Disk.pread obj offset length = seg obj offset (offset + length)) by (f_equal; lia).
  assert (Hinit : [] = seg obj offset (Z.max offset (Z.min (offset + length) first))).
  { unfold Disk.pread. replace (Z.to_nat _) with 0%nat by lia. done. }
  assert (Hasm : forall chunks, of_obj obj size chunks ->
    (forall x, x ∈ chunk_starts first last size -> is_Some (chunks !! x)) ->
    assemble (chunk_starts first last size) chunks offset (offset + length) [] = Disk.pread obj offset length).
  { intros chunks Hof Hall. rewrite Hseg, Hinit.
    apply (assemble_spec obj size offset (offset + length) last Hsize ltac:(lia) Hlast first); [done..|].
    intros x Hx. destruct (Hall x Hx) as [d Hd]. by rewrite Hd, (Hof x d Hd). }
  unfold readWarmChunks. rewrite Hinit.
  destruct (warm_loop c _ _ _ _ _) as [c1 r1] eqn:Ew.
  destruct (warm_loop_spec obj size offset (offset + length) last Hsize ltac:(lia) Hlast first _ Hst Hn _ _ _ Hc Ew)
    as [Hc1 Hw].
  destruct r1 as [data|].
  { intros [= <- <-]. split; [done|]. split; [|done]. intros out [= <-]. rewrite Hseg. by apply Hw. }
  rewrite <-Hinit. destruct (gather c1 _ _ _ _) as [[c2 chunks] missing] eqn:Eg.
  destruct (gather_spec obj size _ _ _ _ _ _ _ Hc1 (of_obj_empty obj size) Eg) as (Hc2 & Hof & _ & Hall & Hmis).
  destruct (0 <? _) eqn:Em; bool_to_prop.
  - destruct (read_ahead c2 _ _ _) as [c3 missing'] eqn:Ea.
    destruct (read_ahead_spec obj size _ _ _ _ _ Hc2 Ea) as (Hc3 & Hin & Hout).
    destruct (fetchMissingChunks c3 _ _ _ _ _ _) as [[c4 fetched] good] eqn:Ef.
    destruct (fetchMissing_spec obj size fetch Hfetch last _ _ _ _ _ _ _ Hc3 (of_obj_empty obj size) Ef)
      as (Hc4 & Hof' & _ & Hgood & Hlive).
    assert (Hr : forall x, x ∈ completion q missing' -> x <= last -> x ∈ chunk_starts first last size).
    { intros x Hx Hle. rewrite Hperm in Hx. destruct (Hout x Hx) as [Hx'|Hx'].
      - destruct (Hmis x Hx') as [?%elem_of_nil|?]; done.
      - exfalso. pose proof (chunk_starts_steps size (Z.quot (fetch_end q offset length - 1) size * size) (last + size) Hsize) as Hs2.
        assert (Hge : last + size <= x); [|lia]. clear -Hs2 Hx' Hsize. induction Hs2 as [|s l ? _ IH]; [by apply elem_of_nil in Hx'|].
        apply elem_of_cons in Hx' as [->|Hx']; [lia|]. specialize (IH Hx'). lia. }
    destruct good; intros [= <- <-]; (split; [done|]); (split; [|]); try done.
    + intros out [= <-]. apply Hasm.
      * intros x d [Hd|[_ Hd]]%lookup_union_Some_raw; [by apply Hof'|by apply Hof].
      * intros x Hx. destruct (Hgood eq_refl) as [_ Hg]. destruct (Hall x Hx) as [Hm|[d Hd]].
        -- destruct (Hg x) as [d Hd]; [rewrite Hperm; auto|by eapply steps_le|]. exists d. by apply lookup_union_Some_l.
        -- destruct (fetched !! x) as [d'|] eqn:E; [exists d'; by apply lookup_union_Some_l|].
           exists d. by rewrite lookup_union_r.
    + intros Hfs. exfalso. assert (false = true); [|done]. apply Hlive; [done|]. intros x Hx Hle. by apply Hfs, Hr.
  - intros [= <- <-]. split; [done|]. split; [|done]. intros out [= <-]. apply Hasm; [done|].
    intros x Hx. destruct (Hall x Hx) as [Hm|]; [|done]. destruct missing; [by apply elem_of_nil in Hm|simpl in Em; lia].
Qed.

End RangeRead.

(** C6. A read returns exactly the bytes of the object: a range, the object's bytes
    in it up to the end of the object, wherever chunk boundaries fall, whichever
    chunks are cached and in whatever order fetches end; otherwise the whole
    object.  The cache stays coherent, and a range read whose chunks the
    store has does not fail. *)
Theorem read_file_exact `{CoherentCache} (q : request) (enabled allowed : bool) (fetch : Z -> option bytes)
    (direct : Z -> Z -> option bytes) (whole : option bytes) (c c' : cache_state) (offset length : Z)
    (r : option bytes)
    (Hfetch : forall s d, fetch s = Some d -> d = Disk.pread obj s (chunk_size q))
    (Hdirect : forall o n d, direct o n = Some d -> d = Disk.pread obj o n)
    (Hwhole : forall d, whole = Some d -> d = obj)
    (Hperm : forall l, completion q l ≡ₚ l) (Hoffset : 0 <= offset) (Hc : cache_ok c)
    (Hread : ReadFile q enabled allowed fetch direct whole c offset length = (c', r)) :
  cache_ok c' /\
  (forall out, r = Some out -> out = if 0 <? length then Disk.pread obj offset length else obj) /\
  (enabled = true -> 0 < length -> (forall s, s ∈ required q offset length -> is_Some (fetch s)) -> is_Some r).
Proof.
  unfold ReadFile in Hread. destruct (0 <? length) eqn:El; bool_to_prop.
  - rewrite (proj2 (Z.leb_gt length 0)), (proj2 (Z.eqb_neq length 0)), andb_false_r in Hread by lia. simpl in Hread.
    destruct enabled; simpl in Hread.
    + destruct (readRangeWithCache q fetch c offset length) as [c1 r1] eqn:Er.
      destruct (readRange_spec obj q fetch c offset length c1 r1 Hfetch Hperm Hoffset El Hc Er) as (H1 & H2 & H3).
      destruct r1 as [d|]; simpl in Hread; rewrite ?andb_false_r in Hread; injection Hread as <- <-; by split_and!.
    + destruct (direct offset length) as [d|] eqn:Ed; injection Hread as <- <-; split_and!; try done.
      intros out [= <-]. by apply Hdirect.
  - destruct ((length <=? 0) && negb allowed); [injection Hread as <- <-; split_and!; try done; lia|].
    destruct (enabled && (offset =? 0) && (length =? 0)) eqn:Ef.
    + destruct (ReadFull c) as [c1 [d|]] eqn:Er; destruct (ReadFull_ok c c1 _ Hc Er) as [Hc1 Hd].
      * injection Hread as <- <-. split_and!; [done| |lia]. intros out [= <-]. by apply Hd.
      * destruct whole as [d|]; injection Hread as <- <-; (split_and!; [| |lia]); try done.
        rewrite (Hwhole d eq_refl). case_match; [by apply WriteFull_ok|done].
    + destruct whole as [d|]; injection Hread as <- <-; (split_and!; [| |lia]); try done.
      rewrite (Hwhole d eq_refl). case_match; [by apply WriteFull_ok|done].
Qed.

End RangeRead.
