(* ===== verification/RangeReadCache.v ===== *)
(** * The data cache behind range reads

    The data cache implements the interface of [RangeRead]: the chunks and the
    whole of one object, whatever else the cache holds and whichever calls on
    the disk fail.  The client's theorem then holds of the two together. *)
From stdpp Require Import pretty.
From Stdlib Require Import Ascii.
From S2P Require Import Prelude StagingTypes Disk LRU DataCache DataCacheSafety RangeRead.

Module RangeReadCache.
Import DataCache DataCacheSafety RangeRead.

(** ** Chunk keys *)

Definition colon : ascii := ":"%char.

Fixpoint no_colon (s : string) : Prop :=
  match s with EmptyString => True | String c s => c <> colon /\ no_colon s end.

Lemma no_colon_app a b : no_colon a -> no_colon b -> no_colon (a +:+ b).
Proof. induction a as [|c a IH]; [done|]. simpl. intros [? ?] ?. auto. Qed.

Lemma pretty_N_go_no_colon x s : no_colon s -> no_colon (pretty_N_go x s).
Proof.
  revert s. induction (N.lt_wf_0 x) as [x _ IH]; intros s Hs.
  destruct (decide (x = 0)%N) as [->|Hx]; [by rewrite pretty_N_go_0|].
  rewrite pretty_N_go_step by lia. apply IH; [apply N.div_lt; lia|]. simpl. split; [|done].
  unfold pretty_N_char. by repeat case_match.
Qed.

Lemma decimal_no_colon n : no_colon (decimal n).
Proof.
  assert (HN : forall x : N, no_colon (pretty x)).
  { intros x. unfold pretty, pretty_N. case_decide; [done|]. by apply pretty_N_go_no_colon. }
  unfold decimal. destruct n as [|p|p]; [done|apply (HN (Npos p))|].
  change (pretty (Zneg p)) with ("-" +:+ pretty (Npos p)). by apply no_colon_app.
Qed.

(** A field is read off up to the first colon. *)
Lemma field_inj a b x y : no_colon a -> no_colon b -> a +:+ String colon x = b +:+ String colon y -> a = b /\ x = y.
Proof.
  revert b. induction a as [|c a IH]; intros [|d b] Ha Hb; simpl in *.
  - by intros [= ->].
  - intros [= <- _]. by destruct Hb.
  - intros [= -> _]. by destruct Ha.
  - intros [= -> H]. destruct (IH b) as [-> ->]; tauto.
Qed.

Lemma chunkKey_inj o s1 z1 s2 z2 : chunkKey o s1 z1 = chunkKey o s2 z2 -> s1 = s2 /\ z1 = z2.
Proof.
  unfold chunkKey. intros H%string_app_inj.
  destruct (field_inj _ _ _ _ (decimal_no_colon s1) (decimal_no_colon s2) H) as [H1 H2].
  split; [by apply (inj pretty)|by apply (inj pretty)].
Qed.

Lemma chunkKey_not_path o s z : HasPrefix o "/" = true -> chunkKey o s z <> o.
Proof. intros [rest ->]%HasPrefix_spec. done. Qed.

(** ** The instance *)

Section Instance.
Context {KH : KeyHash} (path : string) (path_rooted : HasPrefix path "/" = true).

(** The cache, the clock, and how much it advances before each call. *)
Definition timed : Type := DataCache * Time * list nat.

Definition tick (c : timed) : DataCache * Time * list nat :=
  let '(c, now, ts) := c in
  match ts with [] => (c, now, []) | t :: ts => (c, now + Z.of_nat t, ts) end.

#[global] Instance data_chunk_cache : ChunkCache := {|
  cache_state := timed;
  ReadRange c start size off n :=
    let '(c, now, ts) := tick c in
    let '(c, r) := ReadChunkRange c path start size off n now in ((c, now, ts), r);
  Contains c start size :=
    let '(c, now, ts) := tick c in
    let '(c, b) := ContainsChunk c path start size now in ((c, now, ts), b);
  RangeRead.WriteChunk c start size d :=
    let '(c, now, ts) := tick c in ((DataCache.WriteChunk c path start size d now).1, now, ts);
  ReadFull c := let '(c, now, ts) := tick c in let '(c, r) := Read c path 0 0 now in ((c, now, ts), r);
  WriteFull c d := let '(c, now, ts) := tick c in ((Write c path d now).1, now, ts)
|}.

(** What is stored of the object is the object's. *)
Definition stored_of (obj : bytes) (s : gmap string bytes) : Prop :=
  (forall start size d, s !! chunkKey path start size = Some d -> d = Disk.pread obj start size) /\
  (forall d, s !! path = Some d -> d = obj).

Definition holds_object (obj : bytes) (c : timed) : Prop :=
  let '(c, now, _) := c in exists s, coherent (fun _ => False) now c s /\ stored_of obj s.

Lemma tick_holds obj c c' now ts : holds_object obj c -> tick c = (c', now, ts) -> holds_object obj (c', now, ts).
Proof.
  destruct c as [[c t] l]. unfold tick, holds_object. destruct l as [|n l]; intros (s & Hc & Hs) [= <- <- <-]; [eauto|].
  exists s. split; [|done]. by apply (coherent_later _ t); [lia|].
Qed.

Lemma stored_chunk obj s start size :
  stored_of obj s -> stored_of obj (<[chunkKey path start size := Disk.pread obj start size]> s).
Proof.
  intros [H1 H2]. split.
  - intros st sz d [[Hk <-]|[_ ?]]%lookup_insert_Some; [|eauto]. by apply chunkKey_inj in Hk as [-> ->].
  - intros d [[Hk _]|[_ ?]]%lookup_insert_Some; [|auto]. by apply chunkKey_not_path in Hk.
Qed.

Lemma stored_full obj s : stored_of obj s -> stored_of obj (<[path := obj]> s).
Proof.
  intros [H1 H2]. split.
  - intros st sz d [[Hk _]|[_ ?]]%lookup_insert_Some; [|eauto]. symmetry in Hk. by apply chunkKey_not_path in Hk.
  - intros d [[_ <-]|[_ ?]]%lookup_insert_Some; auto.
Qed.

Lemma write_holds obj c now ts k d :
  holds_object obj (c, now, ts) -> (forall s, stored_of obj s -> stored_of obj (<[k := d]> s)) ->
  holds_object obj ((Write c k d now).1, now, ts).
Proof.
  intros (s & Hc & Hs) Hput. pose proof (Write_coherent now c s k d now ltac:(lia) Hc) as Hw.
  destruct (Write c k d now) as [c' ok]. simpl. exists (if accepts c d && ok then <[k := d]> s else s).
  split; [done|]. destruct (_ && _); auto.
Qed.

Lemma ReadRange_holds obj c start size off n c' r :
  holds_object obj c -> 0 <= off -> ReadRange c start size off n = (c', r) ->
  holds_object obj c' /\ forall b, r = Some b -> b = part (Disk.pread obj start size) off n.
Proof.
  intros Hok Hoff Hr. unfold ReadRange, data_chunk_cache in Hr.
  destruct (tick c) as [[c1 now] ts] eqn:Et. destruct (tick_holds _ _ _ _ _ Hok Et) as (s & Hc & Hs).
  unfold ReadChunkRange in Hr.
  pose proof (Read_coherent now c1 s (chunkKey path start size) off n now ltac:(lia) Hc) as Hrd.
  destruct (Read c1 _ off n now) as [c2 r2]. injection Hr as <- <-. destruct Hrd as [Hc2 Hrd].
  split; [by exists s|]. intros b Hb. destruct (Hrd b Hb) as (d & Hd & ->). by rewrite (proj1 Hs _ _ _ Hd).
Qed.

Lemma Contains_holds obj c start size c' b : holds_object obj c -> Contains c start size = (c', b) -> holds_object obj c'.
Proof.
  intros Hok Hr. unfold Contains, data_chunk_cache in Hr.
  destruct (tick c) as [[c1 now] ts] eqn:Et. destruct (tick_holds _ _ _ _ _ Hok Et) as (s & Hc & Hs).
  unfold ContainsChunk in Hr. destruct (negb (enabled c1)); [injection Hr as <- _; by exists s|].
  destruct (LRU.Get (index c1) _ now) as [i v] eqn:Hg. injection Hr as <- _. exists s. split; [|done].
  by apply (coherent_lookup _ _ _ _ _ _ _ _ Hg).
Qed.

Lemma WriteChunk_holds obj c start size :
  holds_object obj c -> holds_object obj (RangeRead.WriteChunk c start size (Disk.pread obj start size)).
Proof.
  intros Hok. unfold RangeRead.WriteChunk, data_chunk_cache.
  destruct (tick c) as [[c1 now] ts] eqn:Et. apply write_holds; [by eapply tick_holds|].
  intros s. apply stored_chunk.
Qed.

Lemma ReadFull_holds obj c c' r :
  holds_object obj c -> ReadFull c = (c', r) -> holds_object obj c' /\ forall b, r = Some b -> b = obj.
Proof.
  intros Hok Hr. unfold ReadFull, data_chunk_cache in Hr.
  destruct (tick c) as [[c1 now] ts] eqn:Et. destruct (tick_holds _ _ _ _ _ Hok Et) as (s & Hc & Hs).
  pose proof (Read_coherent now c1 s path 0 0 now ltac:(lia) Hc) as Hrd.
  destruct (Read c1 path 0 0 now) as [c2 r2]. injection Hr as <- <-. destruct Hrd as [Hc2 Hrd].
  split; [by exists s|]. intros b Hb. destruct (Hrd b Hb) as (d & Hd & ->). by rewrite (proj2 Hs _ Hd).
Qed.

Lemma WriteFull_holds obj c : holds_object obj c -> holds_object obj (WriteFull c obj).
Proof.
  intros Hok. unfold WriteFull, data_chunk_cache. destruct (tick c) as [[c1 now] ts] eqn:Et.
  apply write_holds; [by eapply tick_holds|]. intros s. apply stored_full.
Qed.

#[global] Instance data_cache_coherent (obj : bytes) : CoherentCache obj := {|
  cache_ok := holds_object obj;
  ReadRange_ok := ReadRange_holds obj;
  Contains_ok := Contains_holds obj;
  WriteChunk_ok := WriteChunk_holds obj;
  ReadFull_ok := ReadFull_holds obj;
  WriteFull_ok := WriteFull_holds obj
|}.

(** An empty cache holds no object's bytes wrongly. *)
Lemma new_holds obj base gb kb fs faults now ts :
  holds_object obj (set_outcomes faults (NewDataCache base gb kb fs), now, ts).
Proof.
  exists ∅. split; [|by split].
  apply (coherent_same _ _ (NewDataCache base gb kb fs)); [done..|]. apply new_coherent.
Qed.

End Instance.

(** ** Examples *)

#[local] Instance plain_files : KeyHash.
Proof.
  refine {| key_hash := fun k => "00" +:+ k |}; [by intros k1 k2 [= H]|].
  abstract (intros k; simpl; lia).
Defined.

Definition ten_bytes : bytes := Byte.x30 :: Byte.x31 :: Byte.x32 :: Byte.x33 :: Byte.x34 ::
  Byte.x35 :: Byte.x36 :: Byte.x37 :: Byte.x38 :: [Byte.x39].

(** A store that answers ranges as S3 does: past the end is an error. *)
Definition s3_range (obj : bytes) (size start : Z) : option bytes :=
  if start <? len obj then Some (Disk.pread obj start size) else None.

Definition demo_request : request := mkRequest 4 8 None (fun l => l).

Definition demo_cache : timed :=
  (set_outcomes [Ok; Fail] (NewDataCache "/cache" 1 4 ∅), 0, [1%nat; 2%nat]).

Definition demo_read (offset length : Z) : timed * option bytes :=
  ReadFile (CC := data_chunk_cache "/f") demo_request true true (s3_range ten_bytes 4)
    (fun o n => Some (Disk.pread ten_bytes o n)) (Some ten_bytes) demo_cache offset length.

Lemma read_file_exact_witness : exists out, (demo_read 3 6).2 = Some out /\ out = Disk.pread ten_bytes 3 6.
Proof.
  exists [Byte.x33; Byte.x34; Byte.x35; Byte.x36; Byte.x37; Byte.x38]. split; [vm_compute; reflexivity|].
  apply (read_file_exact (H := data_chunk_cache "/f") (obj := ten_bytes) (H0 := data_cache_coherent "/f" eq_refl ten_bytes)
    demo_request true true (s3_range ten_bytes 4) (fun o n => Some (Disk.pread ten_bytes o n)) (Some ten_bytes)
    demo_cache (demo_read 3 6).1 3 6 (demo_read 3 6).2); [| | | | | | |vm_compute; reflexivity].
  - intros s d. unfold s3_range. destruct (_ <? _); [|done]. by intros [= <-].
  - by intros o n d [= <-].
  - by intros d [= <-].
  - done.
  - lia.
  - apply new_holds.
  - apply surjective_pairing.
Defined.

(** The read of the example is answered, across a failed write of the cache. *)
Lemma demo_read_answers : (demo_read 3 6).2 = Some (Disk.pread ten_bytes 3 6).
Proof. vm_compute. reflexivity. Qed.

(** A read across the end of an object whose size is a multiple of the chunk
    size asks the store for a chunk past the end, which S3 refuses: the read
    fails although the bytes up to the end are there. *)
Lemma read_across_end_fails :
  let obj := take 8 ten_bytes in
  (ReadFile (CC := data_chunk_cache "/f") demo_request true true (s3_range obj 4)
     (fun o n => Some (Disk.pread obj o n)) (Some obj) demo_cache 6 6).2 = None /\
  Disk.pread obj 6 6 = drop 6 obj /\ drop 6 obj <> [].
Proof. vm_compute. done. Qed.

End RangeReadCache.
