(* ===== verification/CosClient.v ===== *)
(** * The object store client ([internal/cos/client.go], [internal/cos/multipart.go])

    The client turns the calls of the gateway into requests of the SDK: it
    classifies errors, retries whole-object reads, and collects listings from
    their pages.  The service is a parameter; [ListService] states what its
    documentation says of listings. *)
From S2P Require Import Prelude StagingTypes.

(** ** Errors *)

(** The errors that reach the client: the two sentinels, an error wrapped with
    [%w], and an error of the SDK, which holds its cause outside Go's chain of
    wrapped errors. *)
Inductive goerr :=
  | ErrNotExist
  | ErrCircuitOpen
  | Text (text : string)
  | Wrap (msg : string) (e : goerr)
  | Aws (code text : string)
  | AwsFrom (code text : string) (orig : goerr).

(** [types.ObjectMetadata]. *)
Record ObjectMetadata := mkObject {
  Key : string;
  Size : Z;
  LastModified : Time;
  ETag : string;
  ContentType : string;
  Metadata : gmap string string
}.

Module CosClient.

(** [err.Error()]. *)
Fixpoint Error (e : goerr) : string :=
  match e with
  | ErrNotExist => "file does not exist"
  | ErrCircuitOpen => "object store circuit breaker open"
  | Text t => t
  | Wrap msg e => msg +:+ ": " +:+ Error e
  | Aws _ t | AwsFrom _ t _ => t
  end.

(** [errors.Is] of a sentinel. *)
Fixpoint Is_NotExist (e : goerr) : bool :=
  match e with ErrNotExist => true | Wrap _ e => Is_NotExist e | _ => false end.
Fixpoint Is_CircuitOpen (e : goerr) : bool :=
  match e with ErrCircuitOpen => true | Wrap _ e => Is_CircuitOpen e | _ => false end.

(** [errors.As] to an error of the SDK: its code and its cause. *)
Fixpoint As_aws (e : goerr) : option (string * option goerr) :=
  match e with Aws code _ => Some (code, None) | AwsFrom code _ orig => Some (code, Some orig) | Wrap _ e => As_aws e | _ => None end.

Definition isNotFoundError (e : goerr) : bool :=
  match As_aws e with
  | Some (code, _) => bool_decide (code = "NotFound") || bool_decide (code = "NoSuchKey") || Contains code "404"
  | None => Is_NotExist e
  end.

(** How many errors a chain has. *)
Fixpoint depth (e : goerr) : nat :=
  match e with Wrap _ e => S (depth e) | AwsFrom _ _ e => S (depth e) | _ => 1%nat end.

(** [isCircuitOpenError]; the chain gets shorter with every turn. *)
Fixpoint circuit_loop (fuel : nat) (e : goerr) : bool :=
  match fuel with
  | O => false
  | S fuel =>
      if Is_CircuitOpen e then true
      else
        match As_aws e with
        | None | Some (_, None) => false
        | Some (_, Some orig) => circuit_loop fuel orig
        end
  end.

Definition isCircuitOpenError (e : goerr) : bool := circuit_loop (depth e) e.

(** ** Reading objects *)

(** One [Read] of a body: the bytes it gave, and how it ended. *)
Inductive read_end := More | EOF | Broken (e : goerr).

(** The read loop; a body ends with [EOF] or an error, as [io.Reader] says. *)
Fixpoint read_body (reads : list (bytes * read_end)) (data : bytes) : bytes + goerr :=
  match reads with
  | [] => inl data
  | (b, r) :: reads =>
      match r with
      | EOF => inl (data ++ b)
      | Broken e => inr (Wrap "failed to read object body" e)
      | More => read_body reads (data ++ b)
      end
  end.

Record response := mkResponse { ContentLength : option Z; Body : list (bytes * read_end) }.

Definition maxSingleRead : Z := 5 * 1024 * 1024 * 1024.

Definition getObjectAttempt (answer : response + goerr) : bytes + goerr :=
  match answer with
  | inr e => inr (Wrap "failed to get object" e)
  | inl r =>
      let size := default 0 (ContentLength r) in
      if maxSingleRead <? size then inr (Text "object too large: bytes (max 5GB)")
      else read_body (Body r) []
  end.

(** The attempts of [GetObject] from [attempt] on; the outcome and how many were
    made. *)
Fixpoint get_attempts (remaining : nat) (attempt : nat) (answer : nat -> response + goerr) : (bytes + goerr) * nat :=
  match getObjectAttempt (answer attempt) with
  | inl data => (inl data, S attempt)
  | inr e =>
      if isCircuitOpenError e || isNotFoundError e || Contains (Error e) "too large" then (inr e, S attempt)
      else
        match remaining with
        | O => (inr e, S attempt)
        | S remaining => get_attempts remaining (S attempt) answer
        end
  end.

(** [GetObject]; with a negative limit nothing is tried and nothing reported. *)
Definition GetObject (MaxRetries : Z) (key : string) (answer : nat -> response + goerr) : (bytes + goerr) * nat :=
  let maxRetries := if MaxRetries =? 0 then 3 else MaxRetries in
  if maxRetries <? 0 then (inl [], O)
  else match get_attempts (Z.to_nat maxRetries) 0 answer with
  | (inl data, n) => (inl data, n)
  | (inr e, n) =>
      if isNotFoundError e then (inr (Wrap ("object " +:+ key) ErrNotExist), n) else (inr e, n)
  end.

(** [GetObjectRange]: the bytes of the range that is asked for, first to last. *)
Definition range_of (offset length : Z) : Z * Z := (offset, wrap64 (wrap64 (offset + length) - 1)).

Definition GetObjectRange (offset length : Z) (answer : Z -> Z -> response + goerr) : bytes + goerr :=
  let '(first, last) := range_of offset length in
  match answer first last with
  | inr e => inr (Wrap "failed to get object range" e)
  | inl r => read_body (Body r) []
  end.

(** [HeadObject]: keys of the metadata are lowered; [iteration] is the order in
    which the SDK's map is walked, which decides between spellings. *)
Definition lowered (iteration : list (string * option string)) : gmap string string :=
  foldl (fun m kv => match kv.2 with Some v => <[ToLower kv.1 := v]> m | None => m end) ∅ iteration.

Definition HeadObject (key : string) (answer : (ObjectMetadata * list (string * option string)) + goerr)
    : ObjectMetadata + goerr :=
  match answer with
  | inr e => if isNotFoundError e then inr (Wrap ("object " +:+ key) ErrNotExist)
             else inr (Wrap "failed to get object metadata" e)
  | inl (o, meta) => inl (mkObject key (Size o) (LastModified o) (ETag o) (ContentType o) (lowered meta))
  end.

(** [ObjectExists]. *)
Definition ObjectExists (key : string) (answer : (ObjectMetadata * list (string * option string)) + goerr) : bool + goerr :=
  match HeadObject key answer with
  | inr e => if isNotFoundError e then inl false else inr e
  | inl _ => inl true
  end.

(** How [copyObject] reports an answer. *)
Definition copyObject (sourceKey : string) (answer : option goerr) : option goerr :=
  (fun e => if isNotFoundError e then Wrap ("failed to copy object " +:+ sourceKey) ErrNotExist
            else Wrap "failed to copy object" e) <$> answer.

(** ** Listings *)

(** One page of [ListObjectsV2]. *)
Record page := mkPage {
  Contents : list ObjectMetadata;
  CommonPrefixes : list string;
  IsTruncated : bool;
  NextContinuationToken : option string
}.

Section List.
(** The service's answer to a request for [MaxKeys] keys from a token on. *)
Context (request : Z -> option string -> page + goerr).

(** What a listing keeps of an object. *)
Definition listed (o : ObjectMetadata) : ObjectMetadata :=
  mkObject (Key o) (Size o) (LastModified o) (ETag o) "" ∅.

(** The loop over the objects of a page: [true] when the limit is reached. *)
Fixpoint take_contents (maxKeys : Z) (objects contents : list ObjectMetadata) : list ObjectMetadata * bool :=
  match contents with
  | [] => (objects, false)
  | o :: contents =>
      let objects := objects ++ [listed o] in
      if (0 <? maxKeys) && (maxKeys <=? len objects) then (objects, true)
      else take_contents maxKeys objects contents
  end.

Fixpoint list_loop (fuel : nat) (maxKeys reqMaxKeys : Z) (token : option string) (objects : list ObjectMetadata)
    : option (list ObjectMetadata + goerr) :=
  match fuel with
  | O => None
  | S fuel =>
      match request reqMaxKeys token with
      | inr e => Some (inr (Wrap "failed to list objects" e))
      | inl p =>
          match take_contents maxKeys objects (Contents p) with
          | (objects, true) => Some (inl objects)
          | (objects, false) =>
              if IsTruncated p then
                let reqMaxKeys :=
                  if 0 <? maxKeys then Z.min (maxKeys - len objects) reqMaxKeys else reqMaxKeys in
                list_loop fuel maxKeys reqMaxKeys (NextContinuationToken p) objects
              else Some (inl objects)
          end
      end
  end.

Definition ListObjects (fuel : nat) (maxKeys : Z) : option (list ObjectMetadata + goerr) :=
  list_loop fuel maxKeys (if (0 <? maxKeys) && (maxKeys <? 1000) then maxKeys else 1000) None [].

(** [ListChildren]: the objects and then the prefixes of a page, until both
    together are [maxKeys]. *)
Fixpoint take_children (maxKeys : Z) (objects : list ObjectMetadata) (prefixes : list string)
    (contents : list ObjectMetadata) (commons : list string) : list ObjectMetadata * list string * bool :=
  match contents with
  | o :: contents =>
      let objects := objects ++ [listed o] in
      if (0 <? maxKeys) && (maxKeys <=? len objects + len prefixes) then (objects, prefixes, true)
      else take_children maxKeys objects prefixes contents commons
  | [] =>
      (fix take_prefixes prefixes commons :=
         match commons with
         | [] => (objects, prefixes, false)
         | c :: commons =>
             let prefixes := prefixes ++ [c] in
             if (0 <? maxKeys) && (maxKeys <=? len objects + len prefixes) then (objects, prefixes, true)
             else take_prefixes prefixes commons
         end) prefixes commons
  end.

Fixpoint children_loop (fuel : nat) (maxKeys reqMaxKeys : Z) (token : option string)
    (objects : list ObjectMetadata) (prefixes : list string) : option (list ObjectMetadata * list string + goerr) :=
  match fuel with
  | O => None
  | S fuel =>
      match request reqMaxKeys token with
      | inr e => Some (inr (Wrap "failed to list children" e))
      | inl p =>
          match take_children maxKeys objects prefixes (Contents p) (CommonPrefixes p) with
          | (objects, prefixes, true) => Some (inl (objects, prefixes))
          | (objects, prefixes, false) =>
              if IsTruncated p then children_loop fuel maxKeys reqMaxKeys (NextContinuationToken p) objects prefixes
              else Some (inl (objects, prefixes))
          end
      end
  end.

Definition ListChildren (fuel : nat) (maxKeys : Z) : option (list ObjectMetadata * list string + goerr) :=
  children_loop fuel maxKeys (if (0 <? maxKeys) && (maxKeys <? 1000) then maxKeys else 1000) None [] [].

End List.
(** ** Errors are told apart *)

(** The circuit breaker's error anywhere in an error's causes. *)
Fixpoint caused_by_open (e : goerr) : bool :=
  match e with
  | ErrCircuitOpen => true
  | Wrap _ e | AwsFrom _ _ e => caused_by_open e
  | _ => false
  end.

Lemma As_aws_cause e code orig :
  As_aws e = Some (code, Some orig) -> (depth orig < depth e)%nat /\ caused_by_open orig = caused_by_open e.
Proof.
  induction e as [| | |msg e IH| |c t o _]; simpl; try done.
  - intros H. destruct (IH H) as [Hd Ho]. split; [lia|done].
  - intros [= <- <-]. split; [lia|done].
Qed.

Lemma no_aws_cause e : Is_CircuitOpen e = false ->
  (forall code orig, As_aws e <> Some (code, Some orig)) -> caused_by_open e = false.
Proof.
  induction e as [| | |msg e IH| |c t o _]; simpl; try done.
  intros _ H. by destruct (H c o).
Qed.

Lemma Is_CircuitOpen_cause e : Is_CircuitOpen e = true -> caused_by_open e = true.
Proof. by induction e. Qed.

Lemma circuit_loop_spec fuel : forall e, (depth e <= fuel)%nat -> circuit_loop fuel e = caused_by_open e.
Proof.
  induction fuel as [|fuel IH]; intros e Hd; [by destruct e; simpl in Hd; lia|]. simpl.
  destruct (Is_CircuitOpen e) eqn:Ho; [by rewrite Is_CircuitOpen_cause|].
  destruct (As_aws e) as [[code [orig|]]|] eqn:Ha.
  - destruct (As_aws_cause e code orig Ha) as [Hlt <-]. apply IH. lia.
  - symmetry. apply no_aws_cause; [done|]. intros c o. by rewrite Ha.
  - symmetry. apply no_aws_cause; [done|]. intros c o. by rewrite Ha.
Qed.

(** The breaker's refusal is recognised however deep the SDK wrapped it. *)
Lemma circuit_open_found e : isCircuitOpenError e = caused_by_open e.
Proof. by apply circuit_loop_spec. Qed.

(** Errors after which another attempt is made. *)
Definition retryable (e : goerr) : bool :=
  negb (isCircuitOpenError e || isNotFoundError e || Contains (Error e) "too large").

Lemma get_attempts_spec remaining : forall attempt answer r n,
  get_attempts remaining attempt answer = (r, n) ->
  (attempt < n <= attempt + remaining + 1)%nat /\ getObjectAttempt (answer (n - 1)%nat) = r /\
  (forall i, (attempt <= i < n - 1)%nat -> exists e, getObjectAttempt (answer i) = inr e /\ retryable e = true) /\
  (forall e, r = inr e -> retryable e = false \/ n = (attempt + remaining + 1)%nat).
Proof.
  induction remaining as [|remaining IH]; intros attempt answer r n; simpl;
    destruct (getObjectAttempt (answer attempt)) as [data|e] eqn:Ha;
    try (intros [= <- <-]; replace (S attempt - 1)%nat with attempt by lia; split_and!; [lia|lia|done|lia|done]).
  - destruct (isCircuitOpenError e || _ || _) eqn:Hr; intros [= <- <-];
      replace (S attempt - 1)%nat with attempt by lia; split_and!; try lia; done.
  - destruct (isCircuitOpenError e || _ || _) eqn:Hr.
    + intros [= <- <-]. replace (S attempt - 1)%nat with attempt by lia. split_and!; try lia; try done.
      intros ? [= <-]. left. unfold retryable. by rewrite Hr.
    + intros (Hn & Hlast & Hbefore & Hend)%IH. split_and!; [lia|lia|done| |].
      * intros i Hi. destruct (decide (i = attempt)) as [->|Hne]; [|apply Hbefore; lia].
        exists e. split; [done|]. unfold retryable. by rewrite Hr.
      * intros e' He. destruct (Hend e' He) as [?| ->]; [by left|right; lia].
Qed.

(** [GetObject] gives the data of the first attempt that succeeds.  It fails
    with what the last attempt failed with, and only when that error is final or
    the retries are used up; a missing object is reported as such exactly when
    the service said so, however its answer was wrapped. *)
Theorem get_object_reports (MaxRetries : Z) (key : string) (answer : nat -> response + goerr) r n
    (Hretries : 0 <= MaxRetries) (Hget : GetObject MaxRetries key answer = (r, n)) :
  let limit := Z.to_nat (if MaxRetries =? 0 then 3 else MaxRetries) in
  (1 <= n <= limit + 1)%nat /\
  (forall i, (i < n - 1)%nat -> exists e, getObjectAttempt (answer i) = inr e /\ retryable e = true) /\
  match r with
  | inl data => getObjectAttempt (answer (n - 1)%nat) = inl data
  | inr e => exists e', getObjectAttempt (answer (n - 1)%nat) = inr e' /\
      isNotFoundError e = isNotFoundError e' /\ (retryable e' = false \/ n = (limit + 1)%nat)
  end.
Proof.
  intros limit. unfold GetObject in Hget. set (m := if MaxRetries =? 0 then 3 else MaxRetries) in *.
  assert (0 <= m) by (unfold m; destruct (MaxRetries =? 0); lia).
  rewrite (proj2 (Z.ltb_ge m 0)) in Hget by done.
  destruct (get_attempts (Z.to_nat m) 0 answer) as [r' n'] eqn:E.
  destruct (get_attempts_spec _ _ _ _ _ E) as (Hn & Hlast & Hbefore & Hend).
  assert (n' = n) as <- by (destruct r' as [|e]; [|destruct (isNotFoundError e)]; by injection Hget).
  split_and!; [unfold limit; lia|unfold limit; lia|intros i Hi; apply Hbefore; lia|].
  destruct r' as [data|e']; [by injection Hget as <-|].
  destruct (isNotFoundError e') eqn:Hnf; injection Hget as <-; exists e'; split_and!; try done;
    destruct (Hend e' eq_refl); auto.
Qed.

Lemma get_object_reports_witness :
  let answer (i : nat) := match i with
    | O => inr (AwsFrom "RequestError" "send request failed" (Text "connection reset"))
    | S O => inl (mkResponse (Some 3) [([Byte.x01], More); ([Byte.x02; Byte.x03], EOF)])
    | _ => inr (Aws "NoSuchKey" "NoSuchKey: gone")
    end in
  (1 <= 2 <= 4)%nat /\
  (forall i, (i < 1)%nat -> exists e, getObjectAttempt (answer i) = inr e /\ retryable e = true) /\
  getObjectAttempt (answer 1%nat) = inl [Byte.x01; Byte.x02; Byte.x03].
Proof.
  intros answer. apply (get_object_reports 0 "k" answer (inl [Byte.x01; Byte.x02; Byte.x03]) 2); [done|].
  by vm_compute.
Defined.

(** ** Listings are complete *)

(** What the service documents of a listing of [all]: a page continues where its
    token points, holds at most as many keys as were asked for, and names a
    token further on when it is not the last. *)
Class ListService (all : list ObjectMetadata) (request : Z -> option string -> page + goerr) := {
  position : option string -> nat;
  position_start : position None = O;
  request_page n token :
    1 <= n <= 1000 -> (position token <= length all)%nat ->
    exists p k, request n token = inl p /\ Contents p = take k (drop (position token) all) /\
      Z.of_nat k <= n /\ (position token + k <= length all)%nat /\
      IsTruncated p = (position token + k <? length all)%nat /\
      (IsTruncated p = true -> (1 <= k)%nat /\ position (NextContinuationToken p) = (position token + k)%nat)
}.

(** The first [maxKeys] of a list, or all of it. *)
Definition up_to {A} (maxKeys : Z) (l : list A) : list A :=
  if 0 <? maxKeys then take (Z.to_nat maxKeys) l else l.

Lemma take_contents_spec maxKeys contents : forall objects,
  (0 < maxKeys -> len objects < maxKeys) ->
  take_contents maxKeys objects contents =
    if (0 <? maxKeys) && (maxKeys <=? len objects + len contents)
    then (objects ++ (listed <$> take (Z.to_nat (maxKeys - len objects)) contents), true)
    else (objects ++ (listed <$> contents), false).
Proof.
  induction contents as [|o contents IH]; intros objects Hlt; cbn [take_contents].
  - rewrite Z.add_0_r, app_nil_r. destruct (0 <? maxKeys) eqn:E; [|done]. bool_to_prop.
    by rewrite (proj2 (Z.leb_gt maxKeys (len objects))) by auto.
  - rewrite length_app. simpl length. destruct (Z.ltb_spec 0 maxKeys) as [Hm|Hm]; simpl andb.
    + specialize (Hlt Hm). destruct (Z.leb_spec maxKeys (Z.of_nat (length objects + 1))) as [Hge|Hge].
      * rewrite (proj2 (Z.leb_le _ _)) by lia.
        by replace (Z.to_nat (maxKeys - len objects)) with 1%nat by lia.
      * rewrite IH by (rewrite length_app; simpl length; lia). rewrite length_app. simpl length.
        simpl andb.
        replace (Z.of_nat (length objects + 1) + len contents) with (len objects + Z.of_nat (S (length contents))) by lia.
        replace (Z.to_nat (maxKeys - len objects)) with (S (Z.to_nat (maxKeys - Z.of_nat (length objects + 1)))) by lia.
        destruct (_ <=? _); by rewrite <-app_assoc.
    + rewrite IH by lia. simpl andb. cbv iota. rewrite <-app_assoc. done.
Qed.

Section Complete.
Context {all : list ObjectMetadata} {request : Z -> option string -> page + goerr} {LS : ListService all request}.

Lemma list_loop_complete maxKeys fuel : forall req token,
  let pos := position token in
  1 <= req <= 1000 -> (pos <= length all)%nat -> (0 < maxKeys -> Z.of_nat pos < maxKeys /\ req <= maxKeys - Z.of_nat pos) ->
  (length all - pos < fuel)%nat ->
  list_loop request fuel maxKeys req token (listed <$> take pos all) = Some (inl (listed <$> up_to maxKeys all)).
Proof.
  induction fuel as [|fuel IH]; intros req token pos Hreq Hpos Hmax Hfuel; [lia|]. cbn [list_loop].
  destruct (request_page req token Hreq Hpos) as (p & k & -> & Hc & Hk & Hle & Ht & Hnext). fold pos in Hc, Hle, Ht, Hnext.
  assert (Htk : take pos all ++ Contents p = take (pos + k) all) by (rewrite Hc; apply take_take_drop).
  assert (Hlc : length (Contents p) = k) by (rewrite Hc, length_take, length_drop; lia).
  rewrite take_contents_spec by (rewrite length_fmap, length_take; lia). rewrite length_fmap, length_take.
  replace (Z.of_nat (pos `min` length all)) with (Z.of_nat pos) by lia. rewrite Hlc, <-!fmap_app, Htk.
  destruct ((0 <? maxKeys) && (maxKeys <=? Z.of_nat pos + Z.of_nat k)) eqn:Efull.
  - bool_to_prop. do 3 f_equal. unfold up_to. rewrite (proj2 (Z.ltb_lt 0 maxKeys)) by lia.
    rewrite Hc, take_take, Nat.min_l, take_take_drop by lia. f_equal. lia.
  - rewrite Ht. destruct (Nat.ltb_spec (pos + k) (length all)) as [Hmore|Hend].
    + destruct (Hnext Ht) as [Hk1 Hpos'].
      rewrite length_fmap, length_take, <-Hpos'. apply IH; rewrite ?Hpos'; try lia.
      * destruct (0 <? maxKeys) eqn:E; bool_to_prop; lia.
      * intros Hm. apply andb_false_iff in Efull as [Efull|Efull]; bool_to_prop; [lia|]. split; [lia|].
        rewrite (proj2 (Z.ltb_lt 0 maxKeys)) by done. lia.
    + do 2 f_equal. rewrite take_ge by lia. unfold up_to. destruct (0 <? maxKeys) eqn:E; [|done].
      simpl in Efull. bool_to_prop. rewrite take_ge by lia. done.
Qed.

(** C26. A listing collected from its pages is the first [maxKeys] objects of the
    listing in order, or all of it without a limit, however the service cuts it
    into pages; the loop ends after at most one request per object and one
    more, and never asks for fewer than one or more than a thousand keys. *)
Theorem list_objects_complete (maxKeys : Z) (fuel : nat) (Hfuel : (length all < fuel)%nat) :
  ListObjects request fuel maxKeys = Some (inl (listed <$> up_to maxKeys all)).
Proof.
  unfold ListObjects. set (req := if (0 <? maxKeys) && (maxKeys <? 1000) then maxKeys else 1000). pose proof position_start as H0.
  assert (Hreq : 1 <= req <= 1000 /\ (0 < maxKeys -> req <= maxKeys)).
  { unfold req. destruct (0 <? maxKeys) eqn:E1, (maxKeys <? 1000) eqn:E2; simpl; bool_to_prop; lia. }
  pose proof (list_loop_complete maxKeys fuel req None) as H. simpl in H. rewrite H0 in H. apply H; lia.
Qed.

End Complete.

(** A service that gives at most [most] keys a page; a token is as long as the
    part of the listing before it. *)
Definition paged (all : list ObjectMetadata) (most : nat) (n : Z) (token : option string) : page + goerr :=
  let pos := from_option String.length O token in
  let k := ((Z.to_nat n `min` most) `min` (length all - pos))%nat in
  inl (mkPage (take k (drop pos all)) [] (pos + k <? length all)%nat
         (Some (String.string_of_list_ascii (replicate (pos + k) Ascii.zero)))).

Lemma length_of_ascii l : String.length (String.string_of_list_ascii l) = length l.
Proof. induction l as [|c l IH]; simpl; congruence. Qed.

#[export] Instance paged_service all most : (1 <= most)%nat -> ListService all (paged all most).
Proof.
  intros Hmost. refine {| position := from_option String.length O |}; [done|].
  intros n token Hn Hpos. eexists _, _. split; [reflexivity|]. simpl. split_and!; [done|lia|lia|done|].
  intros Ht%Nat.ltb_lt. split; [lia|]. by rewrite length_of_ascii, length_replicate.
Defined.

Lemma list_objects_complete_witness :
  let objects := (fun k => mkObject k 1 0 "" "" ∅) <$> ["a"; "b"; "c"; "d"; "e"] in
  ListObjects (paged objects 2) 6 4 = Some (inl (take 4 objects)).
Proof.
  intros objects. refine (list_objects_complete (LS := paged_service objects 2 _) 4 6 _); vm_compute; lia.
Defined.

End CosClient.

(** ** Uploads in parallel parts ([internal/cos/multipart.go]) *)
Module CosMultipart.

Definition MinPartSize : Z := 5 * 1024 * 1024.
Definition MaxParts : Z := 10000.

Record CompletedPart := mkCompleted { PartNumber : Z; PartETag : string }.

Record MultipartUpload := mkUpload {
  uploadID : string;
  parts : list CompletedPart;
  partSize : Z
}.

(** [NewMultipartUpload]; [answer] is the service's, an upload id. *)
Definition NewMultipartUpload (size : Z) (answer : string + goerr) : MultipartUpload + goerr :=
  if size <? MinPartSize then inr (Text "part size must be at least 5242880 bytes")
  else
    match answer with
    | inr e => inr (Wrap "failed to initiate multipart upload" e)
    | inl id => inl (mkUpload id [] size)
    end.

(** [UploadPart]: a part that succeeds is recorded when its answer comes. *)
Definition UploadPart (m : MultipartUpload) (n : Z) (answer : string + goerr) : MultipartUpload * option goerr :=
  match answer with
  | inr e => (m, Some (Wrap "failed to upload part" e))
  | inl etag => (mkUpload (uploadID m) (parts m ++ [mkCompleted n etag]) (partSize m), None)
  end.

Definition numParts (m : MultipartUpload) (totalSize : Z) : Z := (totalSize + partSize m - 1) / partSize m.

(** [data[start:end]] of the part at [i], which is sent as number [i + 1]. *)
Definition part_data (m : MultipartUpload) (data : bytes) (i : Z) : bytes :=
  let start := i * partSize m in
  let end_ := if len data <? start + partSize m then len data else start + partSize m in
  take (Z.to_nat (end_ - start)) (drop (Z.to_nat start) data).

(** [UploadParallel]: the answers as they come in.  The error returned is the
    first; an upload that failed is aborted. *)
Definition UploadParallel (m : MultipartUpload) (data : bytes) (answers : list (Z * (string + goerr)))
    : MultipartUpload * option goerr :=
  if MaxParts <? numParts m (len data) then (m, Some (Text "file too large"))
  else
    let '(m, err) :=
      foldl (fun '(m, err) '(n, answer) =>
               let '(m, e) := UploadPart m n answer in
               (m, match err with Some _ => err | None => e end)) (m, None) answers in
    (m, (fun e => Wrap "parallel upload failed" e) <$> err).

(** [Complete] sends the parts as they are recorded. *)
Definition Complete (m : MultipartUpload) : list CompletedPart := parts m.

(** [PutObjectMultipart]: the parts that are sent to complete the upload. *)
Definition PutObjectMultipart (MultipartChunkMB : Z) (data : bytes) (created : string + goerr)
    (answers : list (Z * (string + goerr))) : list CompletedPart + goerr :=
  let size := if 0 <? MultipartChunkMB then MultipartChunkMB * 1024 * 1024 else 10 * 1024 * 1024 in
  match NewMultipartUpload size created with
  | inr e => inr e
  | inl m =>
      match UploadParallel m data answers with
      | (_, Some e) => inr e
      | (m, None) => inl (Complete m)
      end
  end.

Definition ShouldUseMultipart (size MultipartThresholdMB : Z) : bool :=
  let thresholdMB := if 0 <? MultipartThresholdMB then MultipartThresholdMB else 100 in
  thresholdMB * 1024 * 1024 <=? size.

Lemma parts_prefix m data n : 0 < partSize m ->
  concat (part_data m data <$> seqZ 0 (Z.of_nat n)) = take (Z.to_nat (Z.of_nat n * partSize m)) data.
Proof.
  intros Hp. induction n as [|n IH]; [done|].
  rewrite seqZ_S, fmap_app, concat_app, IH. simpl. rewrite app_nil_r. unfold part_data.
  replace (Z.to_nat (Z.of_nat (S n) * partSize m)) with
    (Z.to_nat (Z.of_nat n * partSize m) + Z.to_nat (partSize m))%nat by nia.
  rewrite <-take_take_drop. f_equal. destruct (_ <? _) eqn:E; bool_to_prop; [|f_equal; nia].
  rewrite !take_ge; [done| |]; rewrite length_drop; nia.
Qed.

(** The parts are the data, cut up. *)
Lemma parts_cover_data m data :
  0 < partSize m -> concat (part_data m data <$> seqZ 0 (numParts m (len data))) = data.
Proof.
  intros Hp. unfold numParts. set (n := (len data + partSize m - 1) / partSize m).
  assert (Hn : len data <= n * partSize m /\ 0 <= n).
  { unfold n. pose proof (Z.div_mod (len data + partSize m - 1) (partSize m) ltac:(lia)).
    pose proof (Z.mod_pos_bound (len data + partSize m - 1) (partSize m) ltac:(lia)).
    split; [nia|]. apply Z.div_pos; lia. }
  rewrite <-(Z2Nat.id n) by lia. rewrite parts_prefix by done. apply take_ge. rewrite Z2Nat.id by lia. nia.
Qed.

(** Of an object of two parts, a second part that is answered before the first is
    sent first when the upload is completed. *)
Lemma parts_sent_out_of_order data :
  len data = 20 * 1024 * 1024 ->
  numParts (mkUpload "id" [] (10 * 1024 * 1024)) (len data) = 2 /\
  PutObjectMultipart 0 data (inl "id") [(2, inl "b"); (1, inl "a")] = inl [mkCompleted 2 "b"; mkCompleted 1 "a"].
Proof.
  intros Hd. rewrite Hd. split; [done|]. unfold PutObjectMultipart. simpl NewMultipartUpload. cbv iota.
  unfold UploadParallel. by rewrite Hd.
Qed.

End CosMultipart.
