(* ===== verification/Paths.v ===== *)
(** * Paths and object keys ([internal/posix/path.go])

    The translation between file system paths and object keys, and the helpers
    the namespace operations use on paths.  The theorems read a path as the list
    of its names. *)
From Stdlib Require Import Ascii.
From S2P Require Import Prelude GoPath.

(** ** More of the [path] and [strings] packages *)

(** [path.Split]. *)
Definition path_Split (p : string) : string * string :=
  let es := SplitSlash p in
  (match removelast es with [] => "" | ds => JoinSlash ds +:+ "/" end, default "" (last es)).

(** [path.Dir]. *)
Definition path_Dir (p : string) : string := Clean (path_Split p).1.

(** [strings.TrimRight p "/"]. *)
Fixpoint TrimRightSlash (p : string) : string :=
  match p with
  | EmptyString => EmptyString
  | String c p =>
      match TrimRightSlash p with
      | EmptyString => if decide (c = slash) then EmptyString else String c EmptyString
      | rest => String c rest
      end
  end.

(** [path.Base]. *)
Definition path_Base (p : string) : string :=
  if decide (p = "") then "."
  else
    let p := TrimRightSlash p in
    let p := default "" (last (SplitSlash p)) in
    if decide (p = "") then "/" else p.

(** [path.Join]. *)
Definition path_Join (elems : list string) : string :=
  match filter (fun e => e <> "") elems with [] => "" | es => Clean (JoinSlash es) end.

(** [strings.Count p "/"]. *)
Fixpoint CountSlash (p : string) : Z :=
  match p with
  | EmptyString => 0
  | String c p => (if decide (c = slash) then 1 else 0) + CountSlash p
  end.

(** [strings.TrimLeft p "/"]. *)
Fixpoint TrimLeftSlash (p : string) : string :=
  match p with
  | EmptyString => EmptyString
  | String c p' => if decide (c = slash) then TrimLeftSlash p' else p
  end.

Lemma TrimLeftSlash_no s : HasPrefix s "/" = false -> TrimLeftSlash s = s.
Proof.
  intros Hs. destruct s as [|c s]; [done|]. simpl. case_decide as Hc; [|done]. subst.
  exfalso. change (String slash s) with ("/" +:+ s) in Hs. rewrite HasPrefix_app in Hs. done.
Qed.

Module Paths.

Record PathTranslator := mkTranslator { prefix : string }.

Definition NewPathTranslator (p : string) : PathTranslator :=
  let p := TrimPrefix p "/" in
  mkTranslator (if negb (bool_decide (p = "")) && negb (HasSuffix p "/") then p +:+ "/" else p).

Definition ToObjectKey (t : PathTranslator) (fsPath : string) : string :=
  let fsPath := TrimPrefix (Clean fsPath) "/" in
  if bool_decide (fsPath = ".") || bool_decide (fsPath = "") then prefix t else prefix t +:+ fsPath.

Definition ToFSPath (t : PathTranslator) (objectKey : string) : string :=
  let objectKey := if negb (bool_decide (prefix t = "")) then TrimPrefix objectKey (prefix t) else objectKey in
  Clean (if negb (HasPrefix objectKey "/") then "/" +:+ objectKey else objectKey).

Definition IsDirectory (p : string) : bool := HasSuffix p "/".

Definition ToDirectoryKey (p : string) : string := if negb (HasSuffix p "/") then p +:+ "/" else p.

Definition ToFileKey (p : string) : string := TrimSuffix p "/".

Definition GetParentPath (p : string) : string :=
  if bool_decide (p = "/") || bool_decide (p = "") then "/"
  else
    let dir := path_Dir (TrimSuffix p "/") in
    if bool_decide (dir = ".") then "/" else dir.

Definition GetBaseName (p : string) : string := path_Base (TrimSuffix p "/").

Definition JoinPath (components : list string) : string := path_Join components.

Definition SplitPath (p : string) : string * string := path_Split p.

Definition NormalizePath (p : string) : string :=
  let p := Clean p in if negb (HasPrefix p "/") then "/" +:+ p else p.

Definition IsValidPath (p : string) : bool :=
  negb (bool_decide (p = "")) && HasPrefix p "/" && negb (Contains p "//") &&
  negb (Contains p (String Ascii.zero "")).

Definition GetDepth (p : string) : Z :=
  if bool_decide (p = "/") then 0
  else
    let p := TrimLeftSlash (TrimRightSlash p) in
    if bool_decide (p = "") then 0 else CountSlash p + 1.

Definition IsDescendant (parent child : string) : bool :=
  let parent := NormalizePath parent in
  let child := NormalizePath child in
  HasPrefix child (if negb (HasSuffix parent "/") then parent +:+ "/" else parent).

Definition ListPrefix (dirPath : string) : string :=
  let dirPath := TrimPrefix (NormalizePath dirPath) "/" in
  if negb (bool_decide (dirPath = "")) && negb (HasSuffix dirPath "/") then dirPath +:+ "/" else dirPath.

(** ** Paths as lists of names *)

(** The path of the names [es]. *)
Definition path_of (es : list string) : string := "/" +:+ JoinSlash es.

Abbreviation names := (Forall is_name).

Lemma rooted_path p : HasPrefix p "/" = true -> exists es, names es /\ Clean p = path_of es.
Proof. intros [s ->]%HasPrefix_spec. destruct (Clean_rooted s) as (es & H & Hes). eauto. Qed.

Lemma Clean_path_of es : names es -> Clean (path_of es) = path_of es.
Proof. apply Clean_names. Qed.

Lemma names_no_slash es : names es -> Forall no_slash es.
Proof. intros H. eapply Forall_impl; [exact H|]. apply is_name_no_slash. Qed.

Lemma JoinSlash_cons e es : es <> [] -> JoinSlash (e :: es) = e +:+ "/" +:+ JoinSlash es.
Proof. by destruct es. Qed.

Lemma JoinSlash_app es fs : es <> [] -> fs <> [] -> JoinSlash (es ++ fs) = JoinSlash es +:+ "/" +:+ JoinSlash fs.
Proof.
  induction es as [|e es IH]; [done|]. intros _ Hfs. destruct es as [|e' es]; [by apply JoinSlash_cons|].
  rewrite <-app_comm_cons, !JoinSlash_cons, IH by done. by rewrite !string_app_assoc.
Qed.

Lemma JoinSlash_nonempty es : names es -> es <> [] -> JoinSlash es <> "".
Proof.
  intros Hes Hne Heq. destruct es as [|e es]; [done|]. apply Forall_cons in Hes as [He _].
  destruct e as [|c e]; [by destruct He|]. by destruct es.
Qed.

Lemma JoinSlash_not_rooted es : names es -> HasPrefix (JoinSlash es) "/" = false.
Proof.
  intros Hes. destruct (HasPrefix (JoinSlash es) "/") eqn:E; [|done]. apply HasPrefix_spec in E as [rest E].
  destruct es as [|e es]; [done|]. pose proof (SplitSlash_JoinSlash (e :: es) ltac:(done) (names_no_slash _ Hes)) as Hs.
  rewrite E in Hs. simpl in Hs. apply Forall_cons in Hes as [(He & _) _]. naive_solver.
Qed.

Lemma SplitSlash_prefix es s :
  es <> [] -> Forall no_slash es -> SplitSlash (JoinSlash es +:+ "/" +:+ s) = es ++ SplitSlash s.
Proof.
  induction es as [|e es IH]; [done|]. intros _ [He Hes]%Forall_cons. destruct es as [|e' es].
  - by apply (SplitSlash_app e s).
  - rewrite JoinSlash_cons, !string_app_assoc by done.
    change (SplitSlash (e +:+ String slash (JoinSlash (e' :: es) +:+ "/" +:+ s)) = (e :: e' :: es) ++ SplitSlash s).
    rewrite SplitSlash_app, IH by done. done.
Qed.

Lemma SplitSlash_snoc s : SplitSlash (s +:+ "/") = SplitSlash s ++ [""].
Proof.
  induction s as [|c s IH]; [done|]. simpl. rewrite IH. case_decide; [done|].
  pose proof (SplitSlash_nonempty s). by destruct (SplitSlash s).
Qed.

Lemma JoinSlash_inj es fs : names es -> names fs -> JoinSlash es = JoinSlash fs -> es = fs.
Proof.
  intros Hes Hfs Heq. destruct es as [|e es], fs as [|f fs]; [done|..].
  - by apply eq_sym, JoinSlash_nonempty in Heq.
  - by apply JoinSlash_nonempty in Heq.
  - apply (f_equal SplitSlash) in Heq. rewrite !SplitSlash_JoinSlash in Heq by (try apply names_no_slash; done). done.
Qed.

Lemma path_of_inj es fs : names es -> names fs -> path_of es = path_of fs -> es = fs.
Proof. intros Hes Hfs [= Heq]. by apply JoinSlash_inj. Qed.

(** A clean path does not end in a slash. *)
Lemma JoinSlash_no_trailing es : names es -> HasSuffix (JoinSlash es) "/" = false.
Proof.
  intros Hes. destruct (HasSuffix _ _) eqn:E; [|done]. apply HasSuffix_spec in E as [pre E].
  destruct es as [|e es _] using rev_ind; [by destruct pre|].
  pose proof (SplitSlash_JoinSlash (es ++ [e]) ltac:(by destruct es) (names_no_slash _ Hes)) as Hs.
  apply Forall_app in Hes as [_ [(He & _) _]%Forall_cons]. rewrite E in Hs.
  rewrite SplitSlash_snoc in Hs. apply app_inj_tail in Hs as [_ Heq]. congruence.
Qed.

Lemma NormalizePath_rooted p : HasPrefix p "/" = true -> exists es, names es /\ NormalizePath p = path_of es /\ Clean p = path_of es.
Proof.
  intros Hp. destruct (rooted_path p Hp) as (es & Hes & Hc). exists es. split; [done|].
  unfold NormalizePath. rewrite Hc. unfold path_of. rewrite HasPrefix_app. by split.
Qed.

(** ** Keys *)

(** A key prefix as the translator keeps it: nothing, or ending in a slash. *)
Definition prefix_ok (t : PathTranslator) : Prop := prefix t = "" \/ exists p, prefix t = p +:+ "/".

Lemma NewPathTranslator_ok p : prefix_ok (NewPathTranslator p).
Proof.
  unfold prefix_ok, NewPathTranslator. simpl. case_bool_decide; simpl; [by left|].
  destruct (HasSuffix (TrimPrefix p "/") "/") eqn:E; simpl; right; [|eauto].
  by apply HasSuffix_spec in E.
Qed.

Lemma is_name_not_dot e : is_name e -> e <> ".".
Proof. by intros (? & ? & ?). Qed.

Lemma ToObjectKey_names t p es :
  names es -> Clean p = path_of es -> ToObjectKey t p = prefix t +:+ JoinSlash es.
Proof.
  intros Hes Hc. unfold ToObjectKey. rewrite Hc. unfold path_of. rewrite TrimPrefix_app.
  destruct es as [|e es]; [by rewrite string_app_nil_r|].
  rewrite (bool_decide_false (JoinSlash (e :: es) = "")) by (by apply JoinSlash_nonempty).
  rewrite bool_decide_false; [done|]. intros Heq.
  pose proof (SplitSlash_JoinSlash (e :: es) ltac:(done) (names_no_slash _ Hes)) as Hs. rewrite Heq in Hs.
  simpl in Hs. injection Hs as <- <-. apply Forall_cons in Hes as [He _]. by apply is_name_not_dot in He.
Qed.

Lemma ToFSPath_names t es : names es -> ToFSPath t (prefix t +:+ JoinSlash es) = path_of es.
Proof.
  intros Hes. unfold ToFSPath.
  assert (Hk : (if negb (bool_decide (prefix t = "")) then TrimPrefix (prefix t +:+ JoinSlash es) (prefix t)
                else prefix t +:+ JoinSlash es) = JoinSlash es).
  { case_bool_decide as Hp; simpl; [by rewrite Hp|apply TrimPrefix_app]. }
  rewrite Hk, (JoinSlash_not_rooted es Hes). simpl. by apply Clean_names.
Qed.

(** A path translated to an object key and back is the clean path, whatever
    prefix the keys have; so different paths never share a key. *)
Theorem object_key_round_trip (pre p q : string) (Hp : HasPrefix p "/" = true) (Hq : HasPrefix q "/" = true) :
  let t := NewPathTranslator pre in
  ToFSPath t (ToObjectKey t p) = Clean p /\ (ToObjectKey t p = ToObjectKey t q -> Clean p = Clean q).
Proof.
  intros t. assert (Hrt : forall p, HasPrefix p "/" = true -> ToFSPath t (ToObjectKey t p) = Clean p).
  { intros x Hx. destruct (rooted_path x Hx) as (es & Hes & Hc).
    by rewrite (ToObjectKey_names t x es Hes Hc), ToFSPath_names. }
  split; [auto|]. intros Heq. by rewrite <-(Hrt p Hp), <-(Hrt q Hq), Heq.
Qed.

Lemma object_key_round_trip_witness :
  let t := NewPathTranslator "/tenant" in
  ToFSPath t (ToObjectKey t "/a/./b//c") = "/a/b/c" /\
  (ToObjectKey t "/a/./b//c" = ToObjectKey t "/a/b/c" -> "/a/b/c" = Clean "/a/b/c").
Proof. apply (object_key_round_trip "/tenant" "/a/./b//c" "/a/b/c"); reflexivity. Defined.

(** ** Descendants *)

(** The names of [fs] continue those of [es]. *)
Definition below (es fs : list string) : Prop := exists g gs, fs = es ++ g :: gs.

Lemma below_spec es fs :
  names es -> names fs -> es <> [] ->
  HasPrefix (JoinSlash fs) (JoinSlash es +:+ "/") = true <-> below es fs.
Proof.
  intros Hes Hfs Hne. rewrite HasPrefix_spec. split.
  - intros [rest Hr]. rewrite string_app_assoc in Hr.
    assert (Hfne : fs <> []).
    { intros ->. simpl in Hr. destruct es as [|e es]; [done|]. destruct e as [|c e]; [|by destruct es].
      apply Forall_cons in Hes as [(? & _) _]. done. }
    pose proof (SplitSlash_JoinSlash fs Hfne (names_no_slash _ Hfs)) as Hs.
    rewrite Hr, SplitSlash_prefix in Hs by (try apply names_no_slash; done).
    pose proof (SplitSlash_nonempty rest) as Hn. destruct (SplitSlash rest) as [|g gs]; [done|].
    by exists g, gs.
  - intros (g & gs & ->). exists (JoinSlash (g :: gs)). rewrite string_app_assoc. by apply JoinSlash_app.
Qed.

Lemma HasPrefix_slash s t : HasPrefix ("/" +:+ s) ("/" +:+ t) = HasPrefix s t.
Proof. done. Qed.

Lemma path_of_suffix es : names es -> HasSuffix (path_of es) "/" = bool_decide (es = []).
Proof.
  intros Hes. case_bool_decide as Hn; [by subst|]. unfold path_of.
  destruct (HasSuffix _ _) eqn:E; [|done]. apply HasSuffix_spec in E as [[|c pre] E].
  - simpl in E. injection E as E. by apply JoinSlash_nonempty in E.
  - simpl in E. injection E as _ E. pose proof (JoinSlash_no_trailing es Hes) as H.
    assert (HasSuffix (JoinSlash es) "/" = true) by (apply HasSuffix_spec; eauto). congruence.
Qed.

Lemma NormalizePath_names p es : names es -> Clean p = path_of es -> NormalizePath p = path_of es.
Proof. intros Hes Hc. unfold NormalizePath. rewrite Hc. unfold path_of. by rewrite HasPrefix_app. Qed.

Lemma ListPrefix_names p es :
  names es -> Clean p = path_of es -> es <> [] -> ListPrefix p = JoinSlash es +:+ "/".
Proof.
  intros Hes Hc Hne. unfold ListPrefix. rewrite (NormalizePath_names p es Hes Hc). unfold path_of.
  by rewrite !TrimPrefix_app, bool_decide_false, JoinSlash_no_trailing by (try apply JoinSlash_nonempty; done).
Qed.

Lemma IsDescendant_names dir p es fs :
  names es -> names fs -> Clean dir = path_of es -> Clean p = path_of fs -> es <> [] ->
  IsDescendant dir p = true <-> below es fs.
Proof.
  intros Hes Hfs Hd Hc Hroot. unfold IsDescendant.
  rewrite (NormalizePath_names dir es), (NormalizePath_names p fs), path_of_suffix, bool_decide_false by done.
  simpl negb. cbv iota. unfold path_of. rewrite string_app_assoc, HasPrefix_slash. by apply below_spec.
Qed.

(** A marker under a directory's prefix is the directory's own or of one below. *)
Lemma marker_prefix es fs :
  names es -> names fs -> es <> [] -> HasPrefix (JoinSlash fs +:+ "/") (JoinSlash es +:+ "/") = true -> fs = es \/ below es fs.
Proof.
  intros Hes Hfs Hne [r E]%HasPrefix_spec. rewrite string_app_assoc in E. destruct fs as [|f fs].
  { apply (f_equal SplitSlash) in E. rewrite SplitSlash_prefix in E by (try apply names_no_slash; done).
    destruct es as [|e es]; [done|]. injection E as E _. apply Forall_cons in Hes as [[He _] _]. congruence. }
  apply (f_equal SplitSlash) in E. rewrite SplitSlash_snoc, SplitSlash_JoinSlash in E by (try apply names_no_slash; done).
  rewrite SplitSlash_prefix in E by (try apply names_no_slash; done).
  pose proof (SplitSlash_nonempty r) as Hr. destruct (SplitSlash r) as [|x xs _] using rev_ind; [done|].
  rewrite app_assoc in E. apply app_inj_tail in E as [E _]. destruct xs as [|y ys].
  - left. by rewrite app_nil_r in E.
  - right. by exists y, ys.
Qed.

(** A directory that is neither another nor below it has a prefix of its own. *)
Lemma ListPrefix_apart p q es fs :
  names es -> names fs -> Clean p = path_of es -> Clean q = path_of fs -> es <> [] -> es <> fs ->
  IsDescendant p q = false -> HasPrefix (ListPrefix q) (ListPrefix p) = false.
Proof.
  intros Hes Hfs Hp Hq Hne Hneq Hd. rewrite (ListPrefix_names p es) by done.
  destruct (HasPrefix (ListPrefix q) (JoinSlash es +:+ "/")) eqn:E; [|done]. exfalso. destruct fs as [|f fs].
  { apply HasPrefix_spec in E as [r E]. rewrite string_app_assoc in E. assert (ListPrefix q = "") as H0.
    { unfold ListPrefix. by rewrite (NormalizePath_names q []). }
    rewrite H0 in E. apply (JoinSlash_nonempty es) in Hne; [|done]. by destruct (JoinSlash es). }
  rewrite (ListPrefix_names q (f :: fs)) in E by done. destruct (marker_prefix es (f :: fs) Hes Hfs Hne E) as [Heq|Hb]; [by subst|].
  assert (IsDescendant p q = true); [|congruence]. by apply (IsDescendant_names p q es (f :: fs)).
Qed.

(** [IsDescendant] and [ListPrefix] follow the tree: a path is a descendant of
    a directory other than the root, and its key is listed under that
    directory's prefix, exactly when its names continue the directory's.  A
    sibling whose name merely begins like the directory's is neither. *)
Theorem descendants_follow_names (dir p : string) (es fs : list string)
    (Hdir : HasPrefix dir "/" = true) (Hp : HasPrefix p "/" = true)
    (Hes : names es) (Hfs : names fs) (Hd : Clean dir = path_of es) (Hc : Clean p = path_of fs) (Hroot : es <> []) :
  (IsDescendant dir p = true <-> below es fs) /\
  (HasPrefix (ToObjectKey (NewPathTranslator "") p) (ListPrefix dir) = true <-> below es fs).
Proof.
  split; [by apply IsDescendant_names|].
  rewrite (ListPrefix_names dir es), (ToObjectKey_names _ p fs Hfs Hc) by done. simpl. by apply below_spec.
Qed.

Lemma names_check es :
  forallb (fun e => negb (bool_decide (e = "")) && negb (bool_decide (e = ".")) && negb (bool_decide (e = "..")) &&
    negb (bool_decide (slash ∈ String.list_ascii_of_string e))) es = true -> names es.
Proof.
  rewrite forallb_forall, Forall_forall. intros H e He. specialize (H e). rewrite <-list_elem_of_In in H.
  specialize (H He). bool_to_prop. unfold is_name. tauto.
Qed.

Lemma descendants_follow_names_witness :
  (IsDescendant "/a" "/ab/c" = true <-> below ["a"] ["ab"; "c"]) /\
  (HasPrefix (ToObjectKey (NewPathTranslator "") "/ab/c") (ListPrefix "/a") = true <-> below ["a"] ["ab"; "c"]).
Proof.
  apply descendants_follow_names; [reflexivity|reflexivity|by apply names_check|by apply names_check|
    reflexivity|reflexivity|done].
Defined.

(** ** Parents *)

Lemma TrimSuffix_no s suf : HasSuffix s suf = false -> TrimSuffix s suf = s.
Proof.
  induction s as [|c s IH]; simpl; rewrite orb_false_iff, bool_decide_eq_false; intros [H1 H2];
    rewrite decide_False by done; [done|]. f_equal. auto.
Qed.

Lemma TrimRightSlash_no s : HasSuffix s "/" = false -> TrimRightSlash s = s.
Proof.
  induction s as [|c s IH]; [done|]. simpl. rewrite orb_false_iff, bool_decide_eq_false. intros [H1 H2].
  rewrite IH by done. destruct s; [|done]. case_decide; [|done]. subst. done.
Qed.

(** A trailing slash is cleaned away. *)
Lemma Clean_trailing s : HasPrefix s "/" = true -> Clean (s +:+ "/") = Clean s.
Proof.
  intros Hs. unfold Clean. rewrite Hs.
  assert (HasPrefix (s +:+ "/") "/" = true) as ->.
  { apply HasPrefix_spec in Hs as [r ->]. rewrite string_app_assoc. apply HasPrefix_app. }
  rewrite SplitSlash_snoc. unfold clean_elems. by rewrite foldl_app.
Qed.

Lemma SplitSlash_path_of es : names es -> es <> [] -> SplitSlash (path_of es) = "" :: es.
Proof.
  intros Hes Hne. unfold path_of. change ("/" +:+ JoinSlash es) with ("" +:+ String slash (JoinSlash es)).
  rewrite SplitSlash_app by apply not_elem_of_nil. f_equal. by apply SplitSlash_JoinSlash, names_no_slash.
Qed.

Lemma path_of_no_suffix es : names es -> es <> [] -> HasSuffix (path_of es) "/" = false.
Proof. intros Hes Hne. rewrite path_of_suffix by done. by apply bool_decide_false. Qed.

(** Two leading slashes are one. *)
Lemma Clean_trailing_front e : is_name e -> Clean ("//" +:+ e) = path_of [e].
Proof.
  intros He. unfold Clean. change ("//" +:+ e) with ("/" +:+ ("/" +:+ e)). rewrite HasPrefix_app.
  change ("/" +:+ ("/" +:+ e)) with ("" +:+ String slash ("" +:+ String slash e)).
  rewrite !SplitSlash_app by apply not_elem_of_nil.
  rewrite SplitSlash_no_slash_single by (by apply is_name_no_slash).
  unfold clean_elems. simpl. by rewrite clean_step_name.
Qed.

(** The parent and the base name of a path are what they should be, and joined
    again they give the path. *)
Theorem parent_and_name_rebuild_path (es : list string) (e : string) (Hes : names es) (He : is_name e) :
  let p := path_of (es ++ [e]) in
  GetParentPath p = path_of es /\ GetBaseName p = e /\ JoinPath [GetParentPath p; GetBaseName p] = p.
Proof.
  intros p. assert (Hall : names (es ++ [e])) by (apply Forall_app; auto).
  assert (Hne : es ++ [e] <> []) by (by destruct es).
  pose proof (path_of_no_suffix _ Hall Hne) as Hsuf. pose proof (SplitSlash_path_of _ Hall Hne) as Hsp.
  assert (Hpar : GetParentPath p = path_of es).
  { unfold GetParentPath, p. rewrite (bool_decide_false (_ = "/")).
    2: { unfold path_of. intros [= H]. by apply JoinSlash_nonempty in H. }
    rewrite (bool_decide_false (_ = "")) by done. simpl orb. cbv iota.
    rewrite TrimSuffix_no by done. unfold path_Dir, path_Split. rewrite Hsp.
    change ("" :: es ++ [e]) with (("" :: es) ++ [e]). rewrite removelast_last. simpl fst.
    destruct es as [|x xs]; [done|].
    change (String "/" (JoinSlash (x :: xs))) with (path_of (x :: xs)).
    rewrite Clean_trailing by apply (HasPrefix_app "/"). rewrite Clean_path_of by done.
    by rewrite bool_decide_false. }
  assert (Hbase : GetBaseName p = e).
  { unfold GetBaseName, path_Base, p. rewrite TrimSuffix_no, TrimRightSlash_no, Hsp by done.
    rewrite decide_False by done. change ("" :: es ++ [e]) with (("" :: es) ++ [e]). rewrite last_snoc. simpl.
    by rewrite decide_False by (by apply is_name_nonempty). }
  split; [done|]. split; [done|]. rewrite Hpar, Hbase. unfold JoinPath, path_Join.
  rewrite !filter_cons, !decide_True by (try done; by apply is_name_nonempty). rewrite filter_nil. simpl JoinSlash.
  unfold p. destruct es as [|x xs].
  - simpl. apply (Clean_trailing_front e He).
  - rewrite <-(Clean_path_of _ Hall). f_equal. unfold path_of. by rewrite (JoinSlash_app (x :: xs) [e]).
Qed.

Lemma parent_and_name_rebuild_path_witness :
  let p := path_of (["a"; "b"] ++ ["c"]) in
  GetParentPath p = "/a/b" /\ GetBaseName p = "c" /\ JoinPath [GetParentPath p; GetBaseName p] = p.
Proof.
  apply (parent_and_name_rebuild_path ["a"; "b"] "c"); [by apply names_check|].
  assert (names ["c"]) as [H _]%Forall_cons by (by apply names_check). exact H.
Defined.

(** The root counts as its own descendant, as no other directory does. *)
Lemma root_descends_from_itself : IsDescendant "/" "/" = true /\ IsDescendant "/a" "/a" = false.
Proof. split; reflexivity. Qed.

End Paths.
