(* ===== verification/Streams.v ===== *)
(** * Named data streams as a metadata value ([internal/posix/streams.go])

    The streams of a file are kept in one value of its object's metadata: each
    as its name and its bytes, both with their length in front, sorted by name,
    the whole in base64.  [encoding/binary]'s varints and the raw standard
    base64 alphabet are modelled as far as this uses them. *)
From Stdlib Require Import Ascii String.
From S2P Require Import Prelude StagingTypes.

(** ** Bytes *)

Definition byte_val (b : byte) : Z := Z.of_N (Byte.to_N b).
Definition to_byte (v : Z) : byte := default Byte.x00 (Byte.of_N (Z.to_N v)).

Lemma byte_val_bound b : 0 <= byte_val b < 256.
Proof. unfold byte_val. pose proof (Byte.to_N_bounded b). lia. Qed.

Lemma to_byte_val b : to_byte (byte_val b) = b.
Proof. unfold to_byte, byte_val. by rewrite N2Z.id, Byte.of_to_N. Qed.

Lemma byte_val_to_byte v : 0 <= v < 256 -> byte_val (to_byte v) = v.
Proof.
  intros Hv. unfold to_byte, byte_val. destruct (Byte.of_N (Z.to_N v)) as [b|] eqn:E; simpl.
  - apply Byte.to_of_N in E. rewrite E. lia.
  - apply Byte.of_N_None_iff in E. lia.
Qed.

(** ** [binary.AppendUvarint] and [binary.Uvarint] *)

Fixpoint put_uvarint (fuel : nat) (x : Z) : bytes :=
  match fuel with
  | O => [to_byte (Z.land x 255)]
  | S fuel =>
      if 128 <=? x then to_byte (Z.lor (Z.land x 255) 128) :: put_uvarint fuel (Z.shiftr x 7)
      else [to_byte (Z.land x 255)]
  end.

(** A [uint64] takes at most ten bytes. *)
Definition AppendUvarint (dst : bytes) (x : Z) : bytes := dst ++ put_uvarint 9 x.

Definition MaxVarintLen64 : Z := 10.

Fixpoint uvarint_loop (buf : bytes) (i x s : Z) : Z * Z :=
  match buf with
  | [] => (0, 0)
  | b :: rest =>
      if i =? MaxVarintLen64 then (0, - (i + 1))
      else if byte_val b <? 128 then
        if (i =? MaxVarintLen64 - 1) && (1 <? byte_val b) then (0, - (i + 1))
        else (Z.lor x (Z.shiftl (byte_val b) s mod 2 ^ 64), i + 1)
      else uvarint_loop rest (i + 1) (Z.lor x (Z.shiftl (Z.land (byte_val b) 127) s mod 2 ^ 64)) (s + 7)
  end.

Definition Uvarint (buf : bytes) : Z * Z := uvarint_loop buf 0 0 0.

(** ** Raw standard base64 *)

Definition alphabet : string := "ABCDEFGHIJKLMNOPQRSTUVWXYZabcdefghijklmnopqrstuvwxyz0123456789+/".

Definition encode_sextet (v : Z) : ascii := default zero (String.get (Z.to_nat v) alphabet).

Fixpoint index_from (n : Z) (c : ascii) (s : string) : option Z :=
  match s with
  | EmptyString => None
  | String d s => if decide (c = d) then Some n else index_from (n + 1) c s
  end.

Definition decode_sextet (c : ascii) : option Z := index_from 0 c alphabet.

Fixpoint b64_encode (l : bytes) : string :=
  match l with
  | a :: b :: c :: rest =>
      let v := byte_val a * 65536 + byte_val b * 256 + byte_val c in
      String (encode_sextet (v / 262144)) (String (encode_sextet (v / 4096 mod 64))
        (String (encode_sextet (v / 64 mod 64)) (String (encode_sextet (v mod 64)) (b64_encode rest))))
  | [a; b] =>
      let v := byte_val a * 65536 + byte_val b * 256 in
      String (encode_sextet (v / 262144)) (String (encode_sextet (v / 4096 mod 64))
        (String (encode_sextet (v / 64 mod 64)) ""))
  | [a] =>
      let v := byte_val a * 65536 in
      String (encode_sextet (v / 262144)) (String (encode_sextet (v / 4096 mod 64)) "")
  | [] => ""
  end.

(** Line breaks are skipped; the bits left over at the end are not looked at. *)
Fixpoint skip_breaks (s : string) : string :=
  match s with
  | EmptyString => EmptyString
  | String c s => if decide (c = "010"%char \/ c = "013"%char) then skip_breaks s else String c (skip_breaks s)
  end.

Fixpoint b64_groups (s : string) : option bytes :=
  match s with
  | String a (String b (String c (String d rest))) =>
      a ← decode_sextet a; b ← decode_sextet b; c ← decode_sextet c; d ← decode_sextet d;
      let v := a * 262144 + b * 4096 + c * 64 + d in
      rest ← b64_groups rest;
      Some (to_byte (v / 65536) :: to_byte (v / 256 mod 256) :: to_byte (v mod 256) :: rest)
  | String a (String b (String c "")) =>
      a ← decode_sextet a; b ← decode_sextet b; c ← decode_sextet c;
      let v := a * 262144 + b * 4096 + c * 64 in
      Some [to_byte (v / 65536); to_byte (v / 256 mod 256)]
  | String a (String b "") =>
      a ← decode_sextet a; b ← decode_sextet b;
      Some [to_byte ((a * 262144 + b * 4096) / 65536)]
  | String _ "" => None
  | "" => Some []
  end.

Definition b64_decode (s : string) : option bytes := b64_groups (skip_breaks s).

(** [RawStdEncoding.EncodedLen]. *)
Definition EncodedLen (n : Z) : Z := n / 3 * 4 + (n mod 3 * 8 + 5) / 6.

(** ** Round trips of the encodings *)

Lemma high_bits x s i : 0 <= s -> 0 <= x < 2 ^ s -> s <= i -> Z.testbit x i = false.
Proof.
  intros Hs Hx Hi. destruct (Z.eq_dec x 0) as [->|Hne]; [apply Z.bits_0|].
  apply Z.bits_above_log2; [lia|]. apply (Z.lt_le_trans _ s); [|done]. apply Z.log2_lt_pow2; lia.
Qed.

(** [x | y << s] when the low bits of [x] end at [s]. *)
Lemma lor_shiftl x y s : 0 <= s -> 0 <= x < 2 ^ s -> 0 <= y -> Z.lor x (Z.shiftl y s) = x + y * 2 ^ s.
Proof.
  intros Hs Hx Hy. rewrite <-Z.shiftl_mul_pow2 by done. symmetry. rewrite Z.add_nocarry_lxor.
  - apply Z.bits_inj'. intros i Hi. rewrite Z.lxor_spec, Z.lor_spec.
    destruct (Z.lt_ge_cases i s) as [His|His].
    + rewrite Z.shiftl_spec_low by done. by destruct (Z.testbit x i).
    + by rewrite (high_bits x s i Hs Hx His).
  - apply Z.bits_inj'. intros i Hi. rewrite Z.land_spec, Z.bits_0. destruct (Z.lt_ge_cases i s) as [His|His].
    + rewrite Z.shiftl_spec_low by done. apply andb_false_r.
    + by rewrite (high_bits x s i Hs Hx His).
Qed.

Lemma land_255 x : Z.land x 255 = x mod 256.
Proof. apply (Z.land_ones x 8). lia. Qed.
Lemma land_127 x : Z.land x 127 = x mod 128.
Proof. apply (Z.land_ones x 7). lia. Qed.

(** A byte with the continuation bit: its value and what it carries. *)
Lemma continued x : 128 <= byte_val (to_byte (Z.lor (Z.land x 255) 128)) < 256 /\
  Z.land (byte_val (to_byte (Z.lor (Z.land x 255) 128))) 127 = x mod 128.
Proof.
  assert (Hl : Z.lor (Z.land x 255) 128 = x mod 128 + 128).
  { replace (Z.lor (Z.land x 255) 128) with (Z.lor (Z.land x 127) (Z.shiftl 1 7)).
    - rewrite land_127, lor_shiftl; [done|lia| |lia]. pose proof (Z.mod_pos_bound x 128). lia.
    - apply Z.bits_inj'. intros i Hi. rewrite !Z.lor_spec, !Z.land_spec.
      change (Z.shiftl 1 7) with 128. destruct (Z.eq_dec i 7) as [->|Hne]; [change (Z.testbit 128 7) with true; by rewrite !orb_true_r|].
      f_equal. f_equal. change 255 with (Z.ones 8). change 127 with (Z.ones 7). rewrite !Z.testbit_ones_nonneg by lia.
      destruct (Z.ltb_spec i 7), (Z.ltb_spec i 8); lia. }
  rewrite Hl. pose proof (Z.mod_pos_bound x 128 ltac:(lia)). rewrite byte_val_to_byte by lia. split; [lia|].
  rewrite land_127. replace (x mod 128 + 128) with (x mod 128 + 1 * 128) by lia. rewrite Z.mod_add by lia.
  by apply Z.mod_mod.
Qed.

Lemma put_uvarint_loop fuel : forall x i acc rest,
  0 <= i -> i + Z.of_nat fuel = 9 -> 0 <= acc < 2 ^ (7 * i) -> 0 <= x -> x * 2 ^ (7 * i) < 2 ^ 64 ->
  uvarint_loop (put_uvarint fuel x ++ rest) i acc (7 * i) =
  (acc + x * 2 ^ (7 * i), i + len (put_uvarint fuel x)).
Proof.
  assert (Hlast : forall x i acc rest, 0 <= i <= 9 -> 0 <= acc < 2 ^ (7 * i) -> 0 <= x < 128 ->
    x * 2 ^ (7 * i) < 2 ^ 64 -> (i = 9 -> x <= 1) ->
    uvarint_loop (to_byte (Z.land x 255) :: rest) i acc (7 * i) = (acc + x * 2 ^ (7 * i), i + 1)).
  { intros x i acc rest Hi Hacc Hx Hfit H9. simpl. rewrite land_255, Z.mod_small, byte_val_to_byte by lia.
    unfold MaxVarintLen64. rewrite (proj2 (Z.eqb_neq i 10)), (proj2 (Z.ltb_lt x 128)) by lia.
    destruct ((i =? 10 - 1) && (1 <? x)) eqn:E; bool_to_prop; [lia|].
    rewrite Z.mod_small, lor_shiftl; try lia; [done|]. rewrite Z.shiftl_mul_pow2 by lia. nia. }
  induction fuel as [|fuel IH]; intros x i acc rest Hi Hf Hacc Hx Hfit.
  - assert (i = 9) as -> by lia. change (7 * 9) with 63 in *. simpl. apply (Hlast x 9); try lia.
  - simpl. destruct (128 <=? x) eqn:E; bool_to_prop.
    + simpl. destruct (continued x) as [Hv Hc]. set (b := to_byte (Z.lor (Z.land x 255) 128)) in *.
      unfold MaxVarintLen64. rewrite (proj2 (Z.eqb_neq i 10)), (proj2 (Z.ltb_ge (byte_val b) 128)), Hc by lia.
      pose proof (Z.mod_pos_bound x 128 ltac:(lia)) as Hm. pose proof (Z.div_mod x 128 ltac:(lia)) as Hd.
      assert (Hp : 0 < 2 ^ (7 * i)) by (apply Z.pow_pos_nonneg; lia).
      assert (Hp7 : 2 ^ (7 * (i + 1)) = 128 * 2 ^ (7 * i)).
      { replace (7 * (i + 1)) with (7 + 7 * i) by lia. rewrite Z.pow_add_r by lia. done. }
      rewrite Z.mod_small by (rewrite Z.shiftl_mul_pow2 by lia; nia). rewrite lor_shiftl by lia.
      replace (7 * i + 7) with (7 * (i + 1)) by lia. rewrite Z.shiftr_div_pow2 by lia. change (2 ^ 7) with 128.
      rewrite IH; [|lia|lia|rewrite Hp7; nia|apply Z.div_pos; lia|rewrite Hp7; nia].
      rewrite Hp7. f_equal; [nia|lia].
    + simpl length. rewrite <-app_comm_cons. apply Hlast; lia.
Qed.

Lemma Uvarint_AppendUvarint x rest :
  0 <= x < 2 ^ 64 -> Uvarint (AppendUvarint [] x ++ rest) = (x, len (AppendUvarint [] x)).
Proof.
  intros Hx. unfold Uvarint, AppendUvarint. rewrite app_nil_l.
  pose proof (put_uvarint_loop 9 x 0 0 rest) as H. rewrite Z.mul_0_r, Z.pow_0_r, Z.mul_1_r, Z.add_0_l in H.
  apply H; lia.
Qed.

Lemma put_uvarint_nonempty fuel x : 1 <= len (put_uvarint fuel x).
Proof. destruct fuel; simpl; [done|]. destruct (128 <=? x); simpl; lia. Qed.

Lemma decode_encode_sextet v : 0 <= v < 64 -> decode_sextet (encode_sextet v) = Some v.
Proof.
  intros Hv.
  assert (H : forallb (fun v => bool_decide (decode_sextet (encode_sextet v) = Some v)) (seqZ 0 64) = true)
    by (vm_compute; reflexivity).
  rewrite forallb_forall in H. specialize (H v). rewrite <-list_elem_of_In, elem_of_seqZ in H.
  specialize (H ltac:(lia)). by apply bool_decide_eq_true in H.
Qed.

Lemma encode_sextet_no_break v : 0 <= v < 64 -> ~ (encode_sextet v = "010"%char \/ encode_sextet v = "013"%char).
Proof. intros Hv H. pose proof (decode_encode_sextet v Hv) as Hd. by destruct H as [H|H]; rewrite H in Hd. Qed.

Ltac euclid := Z.div_mod_to_equations; lia.

Lemma sextets v : 0 <= v < 16777216 ->
  (0 <= v / 262144 < 64) /\ (0 <= v / 4096 mod 64 < 64) /\ (0 <= v / 64 mod 64 < 64) /\ (0 <= v mod 64 < 64) /\
  v / 262144 * 262144 + v / 4096 mod 64 * 4096 + v / 64 mod 64 * 64 + v mod 64 = v.
Proof. intros Hv. euclid. Qed.

Lemma octets a b c : 0 <= a < 256 -> 0 <= b < 256 -> 0 <= c < 256 ->
  let v := a * 65536 + b * 256 + c in v / 65536 = a /\ v / 256 mod 256 = b /\ v mod 256 = c /\ 0 <= v < 16777216.
Proof. intros Ha Hb Hc v. unfold v. euclid. Qed.

Lemma skip_breaks_encode : forall l, skip_breaks (b64_encode l) = b64_encode l.
Proof.
  fix IH 1. intros [|a [|b [|c rest]]]; [done|..]; simpl.
  - destruct (sextets (byte_val a * 65536)) as (H1 & H2 & _); [pose proof (byte_val_bound a); lia|].
    by rewrite !decide_False by (by apply encode_sextet_no_break).
  - destruct (sextets (byte_val a * 65536 + byte_val b * 256)) as (H1 & H2 & H3 & _);
      [pose proof (byte_val_bound a); pose proof (byte_val_bound b); lia|].
    by rewrite !decide_False by (by apply encode_sextet_no_break).
  - destruct (sextets (byte_val a * 65536 + byte_val b * 256 + byte_val c)) as (H1 & H2 & H3 & H4 & _);
      [pose proof (byte_val_bound a); pose proof (byte_val_bound b); pose proof (byte_val_bound c); lia|].
    rewrite !decide_False by (by apply encode_sextet_no_break). by rewrite IH.
Qed.

Lemma b64_groups_encode : forall l, b64_groups (b64_encode l) = Some l.
Proof.
  fix IH 1. intros [|a [|b [|c rest]]]; [done|..]; pose proof (byte_val_bound a) as Ba.
  - destruct (octets (byte_val a) 0 0) as (Oa & _ & _ & Hv); [lia..|]. rewrite Z.mul_0_l, !Z.add_0_r in Oa, Hv.
    destruct (sextets _ Hv) as (H1 & H2 & _ & _ & Hs). simpl. rewrite !decode_encode_sextet by done. simpl.
    do 2 f_equal. rewrite <-(to_byte_val a) at 3. f_equal. euclid.
  - pose proof (byte_val_bound b) as Bb.
    destruct (octets (byte_val a) (byte_val b) 0) as (Oa & Ob & _ & Hv); [lia..|]. rewrite !Z.add_0_r in Oa, Ob, Hv.
    destruct (sextets _ Hv) as (H1 & H2 & H3 & _ & Hs). simpl. rewrite !decode_encode_sextet by done. simpl.
    set (v := byte_val a * 65536 + byte_val b * 256) in *.
    assert (v mod 64 = 0) by (unfold v; euclid). rewrite H, Z.add_0_r in Hs. rewrite Hs, Oa, Ob.
    by rewrite !to_byte_val.
  - pose proof (byte_val_bound b) as Bb. pose proof (byte_val_bound c) as Bc.
    destruct (octets (byte_val a) (byte_val b) (byte_val c)) as (Oa & Ob & Oc & Hv); [lia..|].
    destruct (sextets _ Hv) as (H1 & H2 & H3 & H4 & Hs). simpl. rewrite !decode_encode_sextet by done. simpl.
    rewrite IH. simpl. rewrite Hs, Oa, Ob, Oc. by rewrite !to_byte_val.
Qed.

Lemma b64_round_trip l : b64_decode (b64_encode l) = Some l.
Proof. unfold b64_decode. by rewrite skip_breaks_encode, b64_groups_encode. Qed.

(** The length of the encoding. *)
Lemma b64_encode_length : forall l, Z.of_nat (String.length (b64_encode l)) = EncodedLen (len l).
Proof.
  fix IH 1. intros [|a [|b [|c rest]]]; [done|done|done|]. cbn [b64_encode String.length length].
  specialize (IH rest). unfold EncodedLen in *.
  replace (Z.of_nat (S (S (S (length rest))))) with (len rest + 1 * 3) by lia.
  rewrite Z.div_add, Z.mod_add by lia. lia.
Qed.

Module Streams.

(** [sort.Strings]. *)
Definition string_le (a b : string) : Prop := string_ltb b a = false.
#[global] Instance string_le_dec a b : Decision (string_le a b).
Proof. unfold string_le. apply _. Defined.

Definition field (dst data : bytes) : bytes := AppendUvarint dst (len data) ++ data.

(** [appendStreams]: the map's keys in any order, sorted. *)
Definition appendStreams (dst : bytes) (streams : gmap string bytes) : bytes :=
  foldl (fun dst name => field (field dst (String.list_byte_of_string name)) (default [] (streams !! name)))
    dst (merge_sort string_le (map_to_list streams).*1).

Definition EncodeStreams (streams : gmap string bytes) : string := b64_encode (appendStreams [] streams).

(** [takeField]. *)
Definition takeField (b : bytes) : option (bytes * bytes) :=
  let '(n, size) := Uvarint b in
  if (size <=? 0) || (len b - size <? n) then None
  else
    let b := drop (Z.to_nat size) b in
    Some (take (Z.to_nat n) b, drop (Z.to_nat n) b).

(** The loop of [DecodeStreams]; a field takes at least a byte, so that [fuel]
    as long as the input is enough. *)
Fixpoint decode_loop (fuel : nat) (raw : bytes) (streams : gmap string bytes) : option (gmap string bytes) :=
  match fuel, raw with
  | _, [] => Some streams
  | O, _ => None
  | S fuel, _ =>
      '(name, rest) ← takeField raw;
      '(data, rest) ← takeField rest;
      decode_loop fuel rest (<[String.string_of_list_byte name := data]> streams)
  end.

(** [DecodeStreams]: the empty map stands for nil. *)
Definition DecodeStreams (value : string) : gmap string bytes :=
  match b64_decode value with
  | None => ∅
  | Some raw => default ∅ (decode_loop (length raw) raw ∅)
  end.

(** [StreamsSize]. *)
Definition StreamsSize (streams : gmap string bytes) : Z :=
  if decide (streams = ∅) then 0 else EncodedLen (len (appendStreams [] streams)).

#[local] Arguments put_uvarint : simpl never.
#[local] Arguments takeField : simpl never.

(** ** Round trip *)

Lemma takeField_field (data rest : bytes) :
  len data < 2 ^ 64 -> takeField (field [] data ++ rest) = Some (data, rest).
Proof.
  intros Hl. unfold takeField, field. rewrite <-app_assoc.
  rewrite (Uvarint_AppendUvarint (len data) (data ++ rest)) by (split; [apply Nat2Z.is_nonneg|exact Hl]).
  set (h := AppendUvarint [] (len data)).
  assert (Hh : 1 <= len h) by (unfold h, AppendUvarint; simpl app; apply put_uvarint_nonempty).
  rewrite !length_app. rewrite (proj2 (Z.leb_gt (len h) 0)) by lia.
  rewrite (proj2 (Z.ltb_ge _ (len data))) by lia. simpl orb. cbv iota.
  by rewrite !Nat2Z.id, !drop_app_length, take_app_length.
Qed.

Lemma field_app dst data : field dst data = dst ++ field [] data.
Proof. unfold field, AppendUvarint. simpl app. by rewrite app_assoc. Qed.

Lemma field_nonempty dst data : field dst data <> [].
Proof.
  unfold field, AppendUvarint. intros H. apply app_eq_nil in H as [H _]. apply app_eq_nil in H as [_ H].
  pose proof (put_uvarint_nonempty 9 (len data)) as Hn. rewrite H in Hn. simpl in Hn. lia.
Qed.

(** The encoding of one stream after another. *)
Definition one_stream (streams : gmap string bytes) (name : string) : bytes :=
  field [] (String.list_byte_of_string name) ++ field [] (default [] (streams !! name)).

Lemma appendStreams_concat dst streams :
  appendStreams dst streams = dst ++ concat (one_stream streams <$> merge_sort string_le (map_to_list streams).*1).
Proof.
  unfold appendStreams. generalize (merge_sort string_le (map_to_list streams).*1). intros names. revert dst.
  induction names as [|x names IH]; intros dst; simpl; [by rewrite app_nil_r|].
  rewrite IH, (field_app (field dst _)), (field_app dst). unfold one_stream. by rewrite !app_assoc.
Qed.

(** Every size that occurs fits in a [uint64]. *)
Definition sizes_ok (streams : gmap string bytes) : Prop :=
  forall name data, streams !! name = Some data -> len data < 2 ^ 64 /\ Z.of_nat (String.length name) < 2 ^ 64.

Lemma list_byte_length s : length (String.list_byte_of_string s) = String.length s.
Proof.
  unfold String.list_byte_of_string. rewrite length_map.
  induction s as [|c s IH]; simpl; [done|]. by rewrite IH.
Qed.

Lemma decode_loop_streams streams names : forall fuel m,
  sizes_ok streams -> (forall x, x ∈ names -> is_Some (streams !! x)) ->
  let raw := concat (one_stream streams <$> names) in
  (length raw <= fuel)%nat ->
  decode_loop fuel raw m = Some (foldl (fun m x => <[x := default [] (streams !! x)]> m) m names).
Proof.
  induction names as [|x names IH]; intros fuel m Hok Hin raw Hfuel; [by destruct fuel|].
  unfold raw in Hfuel |- *. rewrite fmap_cons in Hfuel |- *. cbn [concat foldl] in Hfuel |- *. destruct (Hin x) as [d Hd]; [set_solver|]. destruct (Hok x d Hd) as [H1 H2].
  assert (Hlen : len (one_stream streams x) >= 1).
  { unfold one_stream. rewrite length_app. pose proof (field_nonempty [] (String.list_byte_of_string x)) as Hn.
    destruct (field [] _); [done|simpl; lia]. }
  rewrite length_app in Hfuel. destruct fuel as [|fuel]; [lia|].
  destruct (one_stream streams x ++ concat (one_stream streams <$> names)) as [|r0 raw0] eqn:Hraw.
  { apply (f_equal length) in Hraw. rewrite length_app in Hraw. simpl in Hraw. lia. }
  cbn [decode_loop]. rewrite <-Hraw. unfold one_stream at 1. rewrite <-app_assoc, takeField_field by (rewrite list_byte_length; lia).
  simpl. rewrite Hd. simpl. rewrite takeField_field by done. simpl. rewrite String.string_of_list_byte_of_string.
  apply IH; [done|set_solver|lia].
Qed.

Lemma foldl_insert_all (streams m : gmap string bytes) names x :
  foldl (fun m x => <[x := default [] (streams !! x)]> m) m names !! x =
  if decide (x ∈ names) then Some (default [] (streams !! x)) else m !! x.
Proof.
  revert m. induction names as [|y names IH]; intros m; simpl.
  - done.
  - rewrite IH. destruct (decide (x ∈ names)); [by rewrite decide_True by set_solver|].
    destruct (decide (x = y)) as [->|Hne].
    + by rewrite lookup_insert_eq, decide_True by set_solver.
    + rewrite lookup_insert_ne by done. by rewrite decide_False by set_solver.
Qed.

Lemma Decode_EncodeStreams streams : sizes_ok streams -> DecodeStreams (EncodeStreams streams) = streams.
Proof.
  intros Hok. unfold DecodeStreams, EncodeStreams. rewrite b64_round_trip, appendStreams_concat, app_nil_l.
  set (names := merge_sort string_le (map_to_list streams).*1).
  assert (Hin : forall x, x ∈ names <-> is_Some (streams !! x)).
  { intros x. unfold names. rewrite merge_sort_Permutation, list_elem_of_fmap. split.
    - intros ([y d] & -> & Hy%elem_of_map_to_list). by exists d.
    - intros [d Hd]. exists (x, d). split; [done|]. by apply elem_of_map_to_list. }
  rewrite (decode_loop_streams streams names); [|done|by intros x; apply Hin|done]. simpl.
  apply map_eq. intros x. rewrite foldl_insert_all. destruct (decide (x ∈ names)) as [Hx|Hx].
  - apply Hin in Hx as [d ->]. done.
  - rewrite lookup_empty. destruct (streams !! x) eqn:E; [|done]. exfalso. apply Hx, Hin. by rewrite E.
Qed.

(** Decoding the value a file's streams are kept as gives the streams back,
    names and bytes, and the value is as long as [StreamsSize] says. *)
Theorem streams_round_trip (streams : gmap string bytes) (Hok : sizes_ok streams) :
  DecodeStreams (EncodeStreams streams) = streams /\
  Z.of_nat (String.length (EncodeStreams streams)) = StreamsSize streams.
Proof.
  split; [by apply Decode_EncodeStreams|].
  unfold EncodeStreams, StreamsSize. rewrite b64_encode_length. case_decide as He; [by subst|done].
Qed.

Lemma streams_round_trip_witness :
  let streams := {[ "Zone.Identifier" := [Byte.x33; Byte.xff]; "a" := [] ]} : gmap string bytes in
  DecodeStreams (EncodeStreams streams) = streams /\
  Z.of_nat (String.length (EncodeStreams streams)) = StreamsSize streams.
Proof.
  apply streams_round_trip. intros name data [[<- <-]|[_ H]]%lookup_insert_Some; [by vm_compute|].
  apply lookup_singleton_Some in H as [<- <-]. by vm_compute.
Defined.

End Streams.
