(* ===== verification/Attributes.v ===== *)
(** * POSIX attributes as object metadata ([internal/posix/attributes.go])

    Mode, owner, times, Windows flags and named streams of a file are kept in the
    user metadata of its object.  The numeric conversions of [strconv] and [fmt]
    are modelled; [time.Format] and [time.Parse] are a parameter with the law
    the package documents. *)
From Stdlib Require Import Ascii.
From S2P Require Import Prelude StagingTypes Streams.

(** ** [strconv] *)

Definition digit_char (d : Z) : ascii := ascii_of_nat (48 + Z.to_nat d).
Definition digit_val (c : ascii) : Z := Z.of_nat (nat_of_ascii c) - 48.

(** Digits in a base of at most ten, most significant first; sixty-four digits
    are enough for a [uint64]. *)
Fixpoint format_digits (fuel : nat) (base n : Z) (acc : string) : string :=
  match fuel with
  | O => acc
  | S fuel =>
      let acc := String (digit_char (n mod base)) acc in
      if n / base =? 0 then acc else format_digits fuel base (n / base) acc
  end.

Definition FormatUint (n base : Z) : string := format_digits 64 base n "".

Definition Itoa (n : Z) : string := if n <? 0 then "-" +:+ FormatUint (- n) 10 else FormatUint n 10.

Fixpoint parse_digits (base max : Z) (s : string) (n : Z) : option Z :=
  match s with
  | EmptyString => Some n
  | String c s =>
      let d := digit_val c in
      if (d <? 0) || (base <=? d) then None
      else if max <? n * base + d then None
      else parse_digits base max s (n * base + d)
  end.

(** [ParseUint] in a base of at most ten. *)
Definition ParseUint (s : string) (base bits : Z) : option Z :=
  if decide (s = "") then None else parse_digits base (2 ^ bits - 1) s 0.

(** [Atoi], that is [ParseInt s 10 64]. *)
Definition Atoi (s : string) : option Z :=
  match s with
  | String "-" s => if decide (s = "") then None else Z.opp <$> parse_digits 10 (2 ^ 63) s 0
  | String "+" s => if decide (s = "") then None else parse_digits 10 (2 ^ 63 - 1) s 0
  | _ => if decide (s = "") then None else parse_digits 10 (2 ^ 63 - 1) s 0
  end.

Lemma digit_val_char d : 0 <= d < 10 -> digit_val (digit_char d) = d.
Proof. intros Hd. unfold digit_val, digit_char. rewrite nat_ascii_embedding by lia. lia. Qed.

Lemma parse_format_digits fuel base max : 2 <= base <= 10 -> forall n acc,
  0 <= n <= max -> n < base ^ Z.of_nat fuel ->
  parse_digits base max (format_digits fuel base n acc) 0 = parse_digits base max acc n.
Proof.
  intros Hb. induction fuel as [|fuel IH]; intros n acc Hn Hf.
  { change (base ^ Z.of_nat 0) with 1 in Hf. by assert (n = 0) as -> by lia. }
  cbn [format_digits]. pose proof (Z.mod_pos_bound n base ltac:(lia)) as Hm.
  pose proof (Z.div_mod n base ltac:(lia)) as Hd. pose proof (Z.div_pos n base ltac:(lia) ltac:(lia)) as Hq.
  assert (Hstep : forall m, m * base + n mod base = n ->
    parse_digits base max (String (digit_char (n mod base)) acc) m = parse_digits base max acc n).
  { intros m Hmn. cbn [parse_digits]. rewrite digit_val_char by lia.
    rewrite (proj2 (Z.ltb_ge _ 0)), (proj2 (Z.leb_gt base _)), Hmn, (proj2 (Z.ltb_ge max n)) by lia. done. }
  destruct (Z.eqb_spec (n / base) 0) as [H0|H0]; [apply Hstep; nia|].
  rewrite IH; [apply Hstep; nia|nia|].
  apply Z.div_lt_upper_bound; [lia|]. rewrite Nat2Z.inj_succ, Z.pow_succ_r in Hf by lia. lia.
Qed.

(** The text starts with a digit. *)
Lemma format_digits_head fuel base : 2 <= base <= 10 -> forall n acc, 0 <= n ->
  exists d s, 0 <= d < 10 /\ format_digits (S fuel) base n acc = String (digit_char d) s.
Proof.
  intros Hb. induction fuel as [|fuel IH]; intros n acc Hn; pose proof (Z.mod_pos_bound n base ltac:(lia)) as Hm.
  - exists (n mod base), acc. split; [lia|]. cbn [format_digits]. by destruct (_ =? 0).
  - cbn [format_digits]. destruct (n / base =? 0); [exists (n mod base), acc; split; [lia|done]|].
    apply IH. apply Z.div_pos; lia.
Qed.

Lemma pow_le_64 base n : 2 <= base -> n < 2 ^ 64 -> n < base ^ Z.of_nat 64.
Proof. intros Hb Hn. pose proof (Z.pow_le_mono_l 2 base 64 ltac:(lia)). change (Z.of_nat 64) with 64. lia. Qed.

Lemma ParseUint_FormatUint n base bits : 2 <= base <= 10 -> 0 <= bits <= 64 -> 0 <= n < 2 ^ bits ->
  ParseUint (FormatUint n base) base bits = Some n.
Proof.
  intros Hb Hbits Hn. unfold ParseUint, FormatUint.
  destruct (format_digits_head 63 base Hb n "" ltac:(lia)) as (d & s & _ & E). rewrite E, decide_False, <-E by done.
  pose proof (Z.pow_le_mono_r 2 bits 64 ltac:(lia) ltac:(lia)).
  rewrite parse_format_digits; [done|lia|lia|]. apply pow_le_64; lia.
Qed.

Lemma Atoi_digit d s : 0 <= d < 10 ->
  Atoi (String (digit_char d) s) = parse_digits 10 (2 ^ 63 - 1) (String (digit_char d) s) 0.
Proof.
  intros Hd. assert (d ∈ seqZ 0 10) as Hin by (apply elem_of_seqZ; lia).
  repeat (apply elem_of_cons in Hin as [->|Hin]; [reflexivity|]). by apply not_elem_of_nil in Hin.
Qed.

Lemma Atoi_Itoa n : - 2 ^ 63 <= n < 2 ^ 63 -> Atoi (Itoa n) = Some n.
Proof.
  intros Hn. unfold Itoa, FormatUint. destruct (Z.ltb_spec n 0) as [Hneg|Hpos].
  - change ("-" +:+ ?s) with (String "-" s). cbn [Atoi].
    destruct (format_digits_head 63 10 ltac:(lia) (- n) "" ltac:(lia)) as (d & s & _ & E).
    rewrite E, decide_False, <-E by done. rewrite parse_format_digits; [simpl; f_equal; lia|lia|lia|].
    apply pow_le_64; lia.
  - destruct (format_digits_head 63 10 ltac:(lia) n "" ltac:(lia)) as (d & s & Hd & E).
    rewrite E, Atoi_digit, <-E by done. rewrite parse_format_digits; [done|lia|lia|]. apply pow_le_64; lia.
Qed.

(** ** [time] *)

Definition whole_seconds (t : Time) : Time := t - t mod Second.

(** Times before the year 10000 have a text form. *)
Definition last_text_time : Time := 315537897600 * Second.

Class TimeText := {
  format_seconds : Time -> string;          (* Format(time.RFC3339) *)
  parse_seconds : string -> option Time;    (* time.Parse(time.RFC3339, _) *)
  format_nano : Time -> string;             (* UTC().Format(time.RFC3339Nano) *)
  parse_nano : string -> option Time;       (* time.Parse(time.RFC3339Nano, _) *)
  parse_format_seconds t : 0 <= t < last_text_time -> parse_seconds (format_seconds t) = Some (whole_seconds t);
  parse_format_nano t : 0 <= t < last_text_time -> parse_nano (format_nano t) = Some t
}.

Module Attributes.

Definition MetaKeyMode : string := "mode".
Definition MetaKeyUID : string := "uid".
Definition MetaKeyGID : string := "gid".
Definition MetaKeyAtime : string := "atime".
Definition MetaKeyMtime : string := "mtime".
Definition MetaKeyCtime : string := "ctime".
Definition MetaKeyBtime : string := "btime".
Definition MetaKeyWindowsAttributes : string := "windows-attributes".
Definition MetaKeyStreams : string := "streams".

Definition WindowsAttributeReadOnly : Z := 1.
Definition WindowsAttributeHidden : Z := 2.
Definition WindowsAttributeSystem : Z := 4.
Definition WindowsAttributeArchive : Z := 32.
Definition WindowsAttributesStored : Z :=
  Z.lor (Z.lor (Z.lor WindowsAttributeReadOnly WindowsAttributeHidden) WindowsAttributeSystem) WindowsAttributeArchive.

Definition legacyMetaKeyPrefix : string := "x-amz-meta-".

Definition posixMetaKeys : list string :=
  [MetaKeyMode; MetaKeyUID; MetaKeyGID; MetaKeyAtime; MetaKeyMtime; MetaKeyCtime; MetaKeyBtime;
   MetaKeyWindowsAttributes; MetaKeyStreams].

(** [0644], [0755] and [os.ModeDir]. *)
Definition DefaultFileMode : Z := 420.
Definition DefaultDirMode : Z := 493.
Definition ModeDir : Z := 2 ^ 31.
Definition DefaultUID : Z := 1000.
Definition DefaultGID : Z := 1000.

Record POSIXAttributes := mkPOSIX {
  Mode : Z;
  UID : Z;
  GID : Z;
  Atime : Time;
  Mtime : Time;
  Ctime : Time;
  Btime : Time;
  WindowsAttributes : Z;
  Streams_ : gmap string bytes
}.

Section Attributes.
Context {TT : TimeText} (defaultStartupTime : Time).

Definition DefaultAttributes (isDir : bool) : POSIXAttributes :=
  let mode := if isDir then Z.lor DefaultDirMode ModeDir else DefaultFileMode in
  mkPOSIX mode DefaultUID DefaultGID defaultStartupTime defaultStartupTime defaultStartupTime 0 0 ∅.

(** [metadata[key] = ...] of a time that is set. *)
Definition put_time (key : string) (t : Time) (m : gmap string string) : gmap string string :=
  if IsZero t then m else <[key := format_seconds t]> m.

(** [EncodePOSIXAttributes]; the loop over the times writes different keys, so
    its order does not matter. *)
Definition EncodePOSIXAttributes (attrs : option POSIXAttributes) : gmap string string :=
  let attrs := default (DefaultAttributes false) attrs in
  let m := <[MetaKeyMode := FormatUint (Mode attrs) 8]>
             (<[MetaKeyUID := Itoa (UID attrs)]> (<[MetaKeyGID := Itoa (GID attrs)]> ∅)) in
  let m := put_time MetaKeyCtime (Ctime attrs)
             (put_time MetaKeyMtime (Mtime attrs) (put_time MetaKeyAtime (Atime attrs) m)) in
  let m := if IsZero (Btime attrs) then m else <[MetaKeyBtime := format_nano (Btime attrs)]> m in
  let flags := Z.land (WindowsAttributes attrs) WindowsAttributesStored in
  let m := if flags =? 0 then m else <[MetaKeyWindowsAttributes := FormatUint flags 10]> m in
  if decide (Streams_ attrs = ∅) then m
  else <[MetaKeyStreams := Streams.EncodeStreams (Streams_ attrs)]> m.

(** [metaValue] over the pairs of the map in the order they are iterated. *)
Fixpoint meta_loop (pairs : list (string * string)) (key : string) (legacy : option string) : option string :=
  match pairs with
  | [] => legacy
  | (k, v) :: pairs =>
      if decide (ToLower k = key) then Some v
      else if decide (ToLower k = legacyMetaKeyPrefix +:+ key) then meta_loop pairs key (Some v)
      else meta_loop pairs key legacy
  end.

Definition metaValue (order : gmap string string -> list (string * string)) (metadata : gmap string string)
    (key : string) : option string :=
  meta_loop (order metadata) key None.

(** [StoredMtime]. *)
Definition StoredMtime order (metadata : gmap string string) : option Time :=
  value ← metaValue order metadata MetaKeyMtime; parse_seconds value.

(** A field that decodes replaces the default. *)
Definition decoded {A} (value : option string) (parse : string -> option A) (dflt : A) : A :=
  default dflt (v ← value; parse v).

(** [DecodePOSIXAttributes]. *)
Definition DecodePOSIXAttributes order (metadata : gmap string string) (isDir : bool) : POSIXAttributes :=
  let attrs := DefaultAttributes isDir in
  let get := metaValue order metadata in
  mkPOSIX (decoded (get MetaKeyMode) (fun v => ParseUint v 8 32) (Mode attrs))
    (decoded (get MetaKeyUID) Atoi (UID attrs))
    (decoded (get MetaKeyGID) Atoi (GID attrs))
    (decoded (get MetaKeyAtime) parse_seconds (Atime attrs))
    (decoded (get MetaKeyMtime) parse_seconds (Mtime attrs))
    (decoded (get MetaKeyCtime) parse_seconds (Ctime attrs))
    (decoded (get MetaKeyBtime) parse_nano (Btime attrs))
    (decoded (get MetaKeyWindowsAttributes)
       (fun v => (fun flags => Z.land flags WindowsAttributesStored) <$> ParseUint v 10 32) (WindowsAttributes attrs))
    (match get MetaKeyStreams with Some v => Streams.DecodeStreams v | None => Streams_ attrs end).

Definition isPOSIXMetaKey (k : string) : bool :=
  bool_decide (TrimPrefix (ToLower k) legacyMetaKeyPrefix ∈ posixMetaKeys).

(** [MergePOSIXMetadata]. *)
Definition MergePOSIXMetadata (existing : gmap string string) (attrs : option POSIXAttributes) : gmap string string :=
  EncodePOSIXAttributes attrs ∪ filter (fun p => isPOSIXMetaKey (p.1) = false) existing.

Record AttributeUpdate := mkUpdate {
  u_Mode : option Z;
  u_UID : option Z;
  u_GID : option Z;
  u_Atime : option Time;
  u_Mtime : option Time;
  u_Btime : option Time;
  u_WindowsAttributes : option Z;
  u_Streams : option (gmap string bytes)
}.

(** [AttributeUpdate.Apply]. *)
Definition Apply (u : AttributeUpdate) (attrs : POSIXAttributes) (now : Time) : POSIXAttributes :=
  let changed := bool_decide (is_Some (u_Mode u)) || bool_decide (is_Some (u_UID u)) ||
    bool_decide (is_Some (u_GID u)) || bool_decide (is_Some (u_Atime u)) || bool_decide (is_Some (u_Mtime u)) ||
    bool_decide (is_Some (u_Btime u)) || bool_decide (is_Some (u_WindowsAttributes u)) ||
    bool_decide (is_Some (u_Streams u)) in
  mkPOSIX (default (Mode attrs) (u_Mode u)) (default (UID attrs) (u_UID u)) (default (GID attrs) (u_GID u))
    (default (Atime attrs) (u_Atime u)) (default (Mtime attrs) (u_Mtime u))
    (if changed then now else Ctime attrs) (default (Btime attrs) (u_Btime u))
    (match u_WindowsAttributes u with
     | Some f => Z.land f WindowsAttributesStored
     | None => WindowsAttributes attrs
     end)
    (default (Streams_ attrs) (u_Streams u)).

(** [UpdateAttributes]: the fields the copy does not take are lost. *)
Definition UpdateAttributes (attrs updates : option POSIXAttributes) (now : Time) : POSIXAttributes :=
  let attrs := default (DefaultAttributes false) attrs in
  match updates with
  | None => attrs
  | Some up =>
      let touched := negb (Mode up =? 0) || negb (UID up =? 0) || negb (GID up =? 0) in
      mkPOSIX (if Mode up =? 0 then Mode attrs else Mode up) (if UID up =? 0 then UID attrs else UID up)
        (if GID up =? 0 then GID attrs else GID up) (if IsZero (Atime up) then Atime attrs else Atime up)
        (if IsZero (Mtime up) then Mtime attrs else Mtime up) (if touched then now else Ctime attrs) 0 0 ∅
  end.

(** [ValidateMode], [ValidateUID], [ValidateGID]: whether there is no error. *)
Definition ValidateMode (mode : Z) : bool := negb (511 <? mode).
Definition ValidateUID (uid : Z) : bool := negb (uid <? 0).
Definition ValidateGID (gid : Z) : bool := negb (gid <? 0).

(** ** What the metadata keeps *)

(** Attributes whose values have a text form. *)
Definition storable (a : POSIXAttributes) : Prop :=
  0 <= Mode a < 2 ^ 32 /\ - 2 ^ 63 <= UID a < 2 ^ 63 /\ - 2 ^ 63 <= GID a < 2 ^ 63 /\
  0 <= Atime a < last_text_time /\ 0 <= Mtime a < last_text_time /\ 0 <= Ctime a < last_text_time /\
  0 <= Btime a < last_text_time /\ 0 <= WindowsAttributes a < 2 ^ 32 /\ Streams.sizes_ok (Streams_ a).

Definition stored_time (t : Time) : Time := if IsZero t then defaultStartupTime else whole_seconds t.

(** The attributes as they are read back: whole seconds, an unset time as the
    start of the process, only the flags that are kept. *)
Definition as_stored (a : POSIXAttributes) : POSIXAttributes :=
  mkPOSIX (Mode a) (UID a) (GID a) (stored_time (Atime a)) (stored_time (Mtime a)) (stored_time (Ctime a))
    (Btime a) (Z.land (WindowsAttributes a) WindowsAttributesStored) (Streams_ a).

(** Keys that spell [key] in some way. *)
Definition spells (k key : string) : Prop := ToLower k = key \/ ToLower k = legacyMetaKeyPrefix +:+ key.

(** When the key itself is the only spelling, its value is found in every order. *)
Lemma meta_loop_only pairs key (m : gmap string string) :
  (forall k v, (k, v) ∈ pairs -> m !! k = Some v) ->
  (forall k v, (k, v) ∈ pairs -> spells k key -> k = key) ->
  ToLower key = key ->
  forall legacy, meta_loop pairs key legacy =
    if decide (key ∈ pairs.*1) then m !! key else legacy.
Proof.
  intros Hm Honly Hlow. induction pairs as [|[k v] pairs IH]; intros legacy; [done|]. cbn [meta_loop].
  assert (Hrest : forall k v, (k, v) ∈ pairs -> m !! k = Some v) by (intros; apply Hm; set_solver).
  assert (Honly' : forall k v, (k, v) ∈ pairs -> spells k key -> k = key) by (intros k0 v0 H; apply (Honly k0 v0); set_solver).
  destruct (decide (ToLower k = key)) as [Hk|Hk].
  - assert (k = key) as -> by (apply (Honly k v); [set_solver|by left]).
    rewrite decide_True by set_solver. symmetry. apply Hm. set_solver.
  - assert (k <> key) by (by intros ->).
    destruct (decide (ToLower k = legacyMetaKeyPrefix +:+ key)) as [Hl|Hl].
    { exfalso. apply H. apply (Honly k v); [set_solver|by right]. }
    rewrite (IH Hrest Honly' legacy). apply decide_ext. rewrite fmap_cons, elem_of_cons. naive_solver.
Qed.

Definition iterates (order : gmap string string -> list (string * string)) : Prop :=
  forall m, order m ≡ₚ map_to_list m.

Lemma metaValue_only order m key :
  iterates order -> ToLower key = key -> (forall k, is_Some (m !! k) -> spells k key -> k = key) ->
  metaValue order m key = m !! key.
Proof.
  intros Hord Hlow Honly. unfold metaValue.
  assert (Hin : forall k v, (k, v) ∈ order m <-> m !! k = Some v).
  { intros k v. rewrite (Hord m). apply elem_of_map_to_list. }
  rewrite (meta_loop_only _ key m); [|by intros k v; apply Hin| |done].
  - case_decide as Hk; [done|]. destruct (m !! key) as [v|] eqn:E; [|done]. exfalso. apply Hk.
    apply list_elem_of_fmap. exists (key, v). split; [done|]. by apply Hin.
  - intros k v Hkv. apply Honly. apply Hin in Hkv. by rewrite Hkv.
Qed.

Lemma posix_key_lower key : key ∈ posixMetaKeys -> ToLower key = key /\ HasPrefix key legacyMetaKeyPrefix = false.
Proof. intros H. repeat (apply elem_of_cons in H as [->|H]; [by split|]). by apply not_elem_of_nil in H. Qed.

Lemma spells_posix k key : key ∈ posixMetaKeys -> spells k key -> isPOSIXMetaKey k = true.
Proof.
  intros Hkey Hk. destruct (posix_key_lower key Hkey) as [_ Hp]. unfold isPOSIXMetaKey. apply bool_decide_true.
  destruct Hk as [->| ->]; [by rewrite TrimPrefix_no|by rewrite TrimPrefix_app].
Qed.

Lemma put_time_lookup key t m k :
  put_time key t m !! k = if decide (key = k) then if IsZero t then m !! k else Some (format_seconds t) else m !! k.
Proof.
  unfold put_time. destruct (IsZero t); [by case_decide|]. case_decide; simplify_map_eq; done.
Qed.

Ltac posix_key := by apply (bool_decide_unpack _); vm_compute.

(** Every key that is written is one of the nine. *)
Lemma Encode_keys a k : is_Some (EncodePOSIXAttributes a !! k) -> k ∈ posixMetaKeys.
Proof.
  assert (Hins : forall key v (m : gmap string string), key ∈ posixMetaKeys ->
    (is_Some (m !! k) -> k ∈ posixMetaKeys) -> is_Some (<[key := v]> m !! k) -> k ∈ posixMetaKeys).
  { intros key v m Hkey Hm [x [[<- _]|[_ H]]%lookup_insert_Some]; [done|]. apply Hm. by exists x. }
  assert (Htime : forall key t (m : gmap string string), key ∈ posixMetaKeys ->
    (is_Some (m !! k) -> k ∈ posixMetaKeys) -> is_Some (put_time key t m !! k) -> k ∈ posixMetaKeys).
  { intros key t m Hkey Hm. unfold put_time. destruct (IsZero t); [done|]. by apply Hins. }
  unfold EncodePOSIXAttributes. set (b := default (DefaultAttributes false) a). clearbody b.
  case_decide; [|apply Hins; [posix_key|]];
    (destruct (Z.land _ _ =? 0); [|apply Hins; [posix_key|]]);
    (destruct (IsZero (Btime b)); [|apply Hins; [posix_key|]]);
    repeat (first [apply Htime|apply Hins]; [posix_key|]); by intros [x Hx].
Qed.

Lemma merged_only existing a key :
  key ∈ posixMetaKeys ->
  (forall k, is_Some (MergePOSIXMetadata existing a !! k) -> spells k key -> k = key) /\
  MergePOSIXMetadata existing a !! key = EncodePOSIXAttributes a !! key.
Proof.
  intros Hkey. destruct (posix_key_lower key Hkey) as [Hlow Hp]. split.
  - intros k [v Hv] Hs. unfold MergePOSIXMetadata in Hv. apply lookup_union_Some_raw in Hv as [Hv|[_ Hv]].
    + destruct (posix_key_lower k) as [Hkl Hkp]; [by apply (Encode_keys a); rewrite Hv|].
      destruct Hs as [Hs|Hs]; [congruence|]. rewrite Hkl in Hs. rewrite Hs, HasPrefix_app in Hkp. done.
    + apply map_lookup_filter_Some in Hv as [_ Hf]. simpl in Hf. by rewrite (spells_posix k key) in Hf.
  - unfold MergePOSIXMetadata. rewrite lookup_union.
    assert (filter (fun p => isPOSIXMetaKey (p.1) = false) existing !! key = None) as ->.
    { apply map_lookup_filter_None. right. intros v _. simpl. by rewrite (spells_posix key key) by (done || by left). }
    by destruct (EncodePOSIXAttributes a !! key).
Qed.

(** The values that are written, key by key. *)
Ltac written :=
  unfold EncodePOSIXAttributes; simpl default;
  repeat first
    [ rewrite put_time_lookup
    | rewrite lookup_insert_ne by done
    | rewrite lookup_insert_eq
    | rewrite decide_True by done
    | rewrite decide_False by done
    | match goal with |- (if ?b then ?m else ?m') !! ?k = _ => destruct b eqn:? end
    | match goal with |- (if decide ?P then ?m else ?m') !! ?k = _ => destruct (decide P) end ];
  try reflexivity; try done.

Definition unless {A} (b : bool) (x : A) : option A := if b then None else Some x.

Lemma Encode_lookups a : let m := EncodePOSIXAttributes (Some a) in
  m !! MetaKeyMode = Some (FormatUint (Mode a) 8) /\ m !! MetaKeyUID = Some (Itoa (UID a)) /\
  m !! MetaKeyGID = Some (Itoa (GID a)) /\
  m !! MetaKeyAtime = unless (IsZero (Atime a)) (format_seconds (Atime a)) /\
  m !! MetaKeyMtime = unless (IsZero (Mtime a)) (format_seconds (Mtime a)) /\
  m !! MetaKeyCtime = unless (IsZero (Ctime a)) (format_seconds (Ctime a)) /\
  m !! MetaKeyBtime = unless (IsZero (Btime a)) (format_nano (Btime a)) /\
  m !! MetaKeyWindowsAttributes =
    unless (Z.land (WindowsAttributes a) WindowsAttributesStored =? 0)
      (FormatUint (Z.land (WindowsAttributes a) WindowsAttributesStored) 10) /\
  m !! MetaKeyStreams = unless (bool_decide (Streams_ a = ∅)) (Streams.EncodeStreams (Streams_ a)).
Proof.
  intros m. unfold m, unless. split_and!; written.
  all: try (case_bool_decide; done).
Qed.

Lemma stored_time_decoded t :
  0 <= t < last_text_time -> decoded (unless (IsZero t) (format_seconds t)) parse_seconds defaultStartupTime = stored_time t.
Proof.
  intros Ht. unfold decoded, unless, stored_time. destruct (IsZero t); [done|]. simpl.
  by rewrite parse_format_seconds.
Qed.

Lemma land_stored_bound f : 0 <= Z.land f WindowsAttributesStored < 2 ^ 32.
Proof.
  change WindowsAttributesStored with (Z.land 39 (Z.ones 6)). rewrite Z.land_assoc, Z.land_ones by lia.
  pose proof (Z.mod_pos_bound (Z.land f 39) (2 ^ 6) ltac:(lia)). lia.
Qed.

Lemma flags_decoded f :
  decoded (unless (Z.land f WindowsAttributesStored =? 0) (FormatUint (Z.land f WindowsAttributesStored) 10))
    (fun v => (fun flags => Z.land flags WindowsAttributesStored) <$> ParseUint v 10 32) 0 =
  Z.land f WindowsAttributesStored.
Proof.
  unfold decoded, unless. destruct (Z.eqb_spec (Z.land f WindowsAttributesStored) 0) as [E|E]; [by rewrite E|].
  simpl. rewrite ParseUint_FormatUint by (try apply land_stored_bound; lia). simpl.
  by rewrite <-Z.land_assoc, Z.land_diag.
Qed.

(** Writing attributes over an object's metadata and decoding the result gives
    the attributes back, times to the second and the creation time exactly,
    whatever spellings of the attribute keys the object had and in whatever
    order its metadata is iterated; every other key keeps its value. *)
Theorem attributes_survive_merge order (existing : gmap string string) (a : POSIXAttributes) (isDir : bool)
    (Hord : iterates order) (Ha : storable a) :
  DecodePOSIXAttributes order (MergePOSIXMetadata existing (Some a)) isDir = as_stored a /\
  (forall k, isPOSIXMetaKey k = false -> MergePOSIXMetadata existing (Some a) !! k = existing !! k).
Proof.
  split.
  - assert (Hget : forall key, key ∈ posixMetaKeys ->
      metaValue order (MergePOSIXMetadata existing (Some a)) key = EncodePOSIXAttributes (Some a) !! key).
    { intros key Hkey. destruct (merged_only existing (Some a) key Hkey) as [Honly <-].
      by apply metaValue_only; [|apply posix_key_lower|]. }
    destruct (Encode_lookups a) as (E1 & E2 & E3 & E4 & E5 & E6 & E7 & E8 & E9).
    destruct Ha as (H1 & H2 & H3 & H4 & H5 & H6 & H7 & H8 & H9).
    unfold DecodePOSIXAttributes. rewrite !Hget, E1, E2, E3, E4, E5, E6, E7, E8, E9 by posix_key.
    unfold as_stored. f_equal.
    + unfold decoded. simpl. by rewrite ParseUint_FormatUint by lia.
    + unfold decoded. simpl. by rewrite Atoi_Itoa.
    + unfold decoded. simpl. by rewrite Atoi_Itoa.
    + by apply stored_time_decoded.
    + by apply stored_time_decoded.
    + by apply stored_time_decoded.
    + unfold decoded, unless. destruct (IsZero (Btime a)) eqn:E; simpl; [|by rewrite parse_format_nano].
      unfold IsZero in E. bool_to_prop. done.
    + apply flags_decoded.
    + unfold unless. case_bool_decide as E; [by rewrite E|by apply Streams.Decode_EncodeStreams].
  - intros k Hk. unfold MergePOSIXMetadata. rewrite lookup_union.
    assert (EncodePOSIXAttributes (Some a) !! k = None) as ->.
    { destruct (EncodePOSIXAttributes (Some a) !! k) eqn:E; [|done]. exfalso.
      assert (Hin : k ∈ posixMetaKeys) by (apply (Encode_keys (Some a)); by rewrite E).
      rewrite (spells_posix k k Hin) in Hk; [done|]. left. by apply posix_key_lower. }
    rewrite map_lookup_filter. destruct (existing !! k) as [v|]; [|done]. simpl.
    by rewrite option_guard_True.
Qed.

End Attributes.

(** A text form of times with the laws: the number of seconds, or of
    nanoseconds, in decimal. *)
#[local] Instance decimal_times : TimeText.
Proof.
  refine {| format_seconds t := FormatUint (t / Second) 10;
            parse_seconds s := (fun n => n * Second) <$> parse_digits 10 (2 ^ 80) s 0;
            format_nano t := FormatUint t 10;
            parse_nano s := parse_digits 10 (2 ^ 80) s 0 |}.
  - intros t Ht. unfold FormatUint, whole_seconds. change Second with 1000000000. change last_text_time with 315537897600000000000 in Ht.
    change (2 ^ 80) with 1208925819614629174706176.
    rewrite parse_format_digits; [simpl; f_equal; euclid|lia|euclid|].
    apply (Z.lt_le_trans _ (10 ^ 21)); [change (10 ^ 21) with 1000000000000000000000; euclid|]. by apply Z.pow_le_mono_r.
  - intros t Ht. unfold FormatUint. change last_text_time with 315537897600000000000 in Ht.
    change (2 ^ 80) with 1208925819614629174706176.
    rewrite parse_format_digits; [done|lia|lia|].
    apply (Z.lt_le_trans _ (10 ^ 21)); [change (10 ^ 21) with 1000000000000000000000; lia|]. by apply Z.pow_le_mono_r.
Defined.

(** A file with an alternate stream, hidden, whose object still carries a legacy
    key and a key of another tool. *)
Definition sample : POSIXAttributes :=
  mkPOSIX 432 0 (-1) (1700000000 * Second + 5) 0 (1700000000 * Second) 7 (2 + 16)
    {[ "Zone.Identifier" := [Byte.x33; Byte.xff] ]}.
Definition sample_metadata : gmap string string :=
  {[ "X-Amz-Meta-Mode" := "777"; "Owner" := "backup"; "UID" := "12" ]}.

Lemma attributes_survive_merge_witness :
  DecodePOSIXAttributes 9 (fun m => reverse (map_to_list m)) (MergePOSIXMetadata 9 sample_metadata (Some sample)) false =
    mkPOSIX 432 0 (-1) (1700000000 * Second) 9 (1700000000 * Second) 7 2 {[ "Zone.Identifier" := [Byte.x33; Byte.xff] ]} /\
  (forall k, isPOSIXMetaKey k = false -> MergePOSIXMetadata 9 sample_metadata (Some sample) !! k = sample_metadata !! k).
Proof.
  apply (attributes_survive_merge 9 (fun m => reverse (map_to_list m)) sample_metadata sample false).
  - intros m. apply reverse_Permutation.
  - unfold storable. split_and!; [by vm_compute..|].
    intros name data. cbn [Streams_ sample]. intros [<- <-]%lookup_singleton_Some. by vm_compute.
Defined.

(** [UpdateAttributes] drops the fields its copy does not name. *)
Lemma update_attributes_drops_streams :
  Streams_ (UpdateAttributes 9 (Some sample) (Some (mkPOSIX 420 0 0 0 0 0 0 0 ∅)) 10) = ∅ /\
  Btime (UpdateAttributes 9 (Some sample) (Some (mkPOSIX 420 0 0 0 0 0 0 0 ∅)) 10) = 0.
Proof. by vm_compute. Qed.

End Attributes.
