(* ===== verification/MetadataCache.v ===== *)
(** * The metadata cache ([internal/cache/metadata.go])

    What a lookup or a listing found, kept by path in an LRU cache.  An entry is
    a pointer that nothing changes once it is shared, so it is modelled as a
    value; the cached [os.FileInfo] are always those of [internal/posix]. *)
From S2P Require Import Prelude GoPath LRU Attributes.
Import Attributes.

(** [posix.FileInfo]. *)
Record FileInfo := mkInfo {
  name : string;
  size : Z;
  mode : Z;
  modTime : Time;
  isDir : bool;
  attrs : option POSIXAttributes;
  objectModTime : Time
}.

Module MetadataCache.

Record MetadataEntry := mkMeta {
  e_FileInfo : option FileInfo;
  e_Attributes : option POSIXAttributes;
  e_IsDir : bool;
  e_Children : option (list string);
  e_ChildEntries : option (list FileInfo);
  e_CachedAt : Time;
  e_IsImplicit : bool;
  e_Negative : bool
}.

Record MetadataCache := mkMC { cache : LRU.LRUCache MetadataEntry; enabled : bool }.

Definition NegativeTTL : Duration := 5 * Second.

Definition NewMetadataCache (cfg : option (bool * Z * Duration)) : MetadataCache :=
  match cfg with
  | Some (true, MaxEntries, ttl) => mkMC (LRU.NewLRUCache MaxEntries ttl) true
  | _ => mkMC (LRU.NewLRUCache 0 0) false
  end.

(** A call on the LRU cache when there is one. *)
Definition on_cache (f : LRU.LRUCache MetadataEntry -> LRU.LRUCache MetadataEntry) (c : MetadataCache) : MetadataCache :=
  if enabled c then mkMC (f (cache c)) true else c.

Definition Get (c : MetadataCache) (path : string) (now : Time) : MetadataCache * option MetadataEntry :=
  if enabled c then
    let '(l, v) := LRU.Get (cache c) path now in (mkMC l true, v)
  else (c, None).

Definition GetStale (c : MetadataCache) (path : string) : option MetadataEntry :=
  if enabled c then LRU.GetStale (cache c) path else None.

(** [c.cache.Set]. *)
Definition store (path : string) (e : MetadataEntry) (now : Time) : MetadataCache -> MetadataCache :=
  on_cache (fun l => (LRU.Set_ l path e now).1).

Definition set_CachedAt (now : Time) (e : MetadataEntry) : MetadataEntry :=
  mkMeta (e_FileInfo e) (e_Attributes e) (e_IsDir e) (e_Children e) (e_ChildEntries e) now (e_IsImplicit e) (e_Negative e).

Definition Set_ (c : MetadataCache) (path : string) (e : MetadataEntry) (now : Time) : MetadataCache :=
  store path (set_CachedAt now e) now c.

Definition SetNegative (c : MetadataCache) (path : string) (now : Time) : MetadataCache :=
  Set_ c path (mkMeta None None false None None 0 false true) now.

(** [time.Since(entry.CachedAt) < NegativeTTL]. *)
Definition fresh_negative (e : MetadataEntry) (now : Time) : bool :=
  time_Sub now (e_CachedAt e) <? NegativeTTL.

Definition GetNegative (c : MetadataCache) (path : string) (now : Time) : MetadataCache * bool :=
  let '(c, r) := Get c path now in
  (c, match r with Some e => e_Negative e && fresh_negative e now | None => false end).

Definition SetFileInfoWithFlags (c : MetadataCache) (path : string) (info : FileInfo) (a : option POSIXAttributes)
    (isImplicit : bool) (now : Time) : MetadataCache :=
  store path (mkMeta (Some info) a (isDir info) None None now isImplicit false) now c.

Definition SetFileInfo (c : MetadataCache) (path : string) (info : FileInfo) (a : option POSIXAttributes) (now : Time)
    : MetadataCache :=
  SetFileInfoWithFlags c path info a false now.

Definition SetDirListing (c : MetadataCache) (path : string) (children : list string) (now : Time) : MetadataCache :=
  store path (mkMeta None None true (Some children) None now false false) now c.

(** [SetDirEntries]: a directory's own stat is kept beside its listing. *)
Definition SetDirEntries (c : MetadataCache) (path : string) (entries : list FileInfo) (now : Time) : MetadataCache :=
  let '(c, prev) := Get c path now in
  let e :=
    match prev with
    | Some prev =>
        if negb (e_Negative prev) && e_IsDir prev
        then mkMeta (e_FileInfo prev) (e_Attributes prev) true None (Some entries) now (e_IsImplicit prev) false
        else mkMeta None None true None (Some entries) now false false
    | None => mkMeta None None true None (Some entries) now false false
    end in
  store path e now c.

Definition RemoveChildFromListing (c : MetadataCache) (dirPath childName : string) (now : Time) : MetadataCache * bool :=
  let '(c, r) := Get c dirPath now in
  match r with
  | None => (c, false)
  | Some e =>
      match e_IsDir e, e_Children e with
      | true, Some children =>
          if decide (childName ∈ children) then
            (store dirPath (mkMeta (e_FileInfo e) (e_Attributes e) true (Some (filter (fun x => x <> childName) children))
                              (e_ChildEntries e) now (e_IsImplicit e) (e_Negative e)) now c, true)
          else (c, false)
      | _, _ => (c, false)
      end
  end.

Definition Delete (c : MetadataCache) (path : string) : MetadataCache :=
  on_cache (fun l => (LRU.Delete l path).1.1) c.

(** [path[:i]] for the last slash at [i], if there is one. *)
Fixpoint before_last_slash (s : string) : option string :=
  match s with
  | EmptyString => None
  | String c s =>
      match before_last_slash s with
      | Some d => Some (String c d)
      | None => if decide (c = slash) then Some "" else None
      end
  end.

Definition getParentPath (path : string) : string :=
  if bool_decide (path = "/") || bool_decide (path = "") then "/"
  else
    match before_last_slash (TrimSuffix path "/") with
    | None | Some "" => "/"
    | Some dir => dir
    end.

Definition InvalidatePath (c : MetadataCache) (path : string) : MetadataCache :=
  let c := Delete c path in
  if negb (bool_decide (path = "/")) && negb (bool_decide (path = "")) then Delete c (getParentPath path) else c.

(** The order in which the LRU cache's map is walked. *)
Definition iteration (order : list string -> list string) (l : LRU.LRUCache MetadataEntry) : list string :=
  order (map_to_list (LRU.items l)).*1.

Definition InvalidatePrefix (order : list string -> list string) (c : MetadataCache) (prefix : string) : MetadataCache :=
  on_cache (fun l => (LRU.DeletePrefix l prefix (iteration order l)).1.1) c.

(** [InvalidateDirectory] of a path that is not empty, on which the code would
    panic. *)
Definition InvalidateDirectory (order : list string -> list string) (c : MetadataCache) (dirPath : string) : MetadataCache :=
  let withSlash := if negb (bool_decide (dirPath = "/")) && negb (HasSuffix dirPath "/") then dirPath +:+ "/" else dirPath in
  let c := Delete (Delete (InvalidatePrefix order c withSlash) withSlash) dirPath in
  if negb (bool_decide (dirPath = "/")) && negb (bool_decide (dirPath = "")) then Delete c (getParentPath dirPath) else c.

Definition Clear (order : list string -> list string) (c : MetadataCache) : MetadataCache :=
  on_cache (fun l => (LRU.Clear l (iteration order l)).1) c.

Definition CleanExpired (c : MetadataCache) (now : Time) : MetadataCache :=
  on_cache (fun l => (LRU.CleanExpired l now).1.1) c.

Definition IsEnabled (c : MetadataCache) : bool := enabled c.

(** ** What the cache holds *)

Definition wf (c : MetadataCache) : Prop := LRU.wf (cache c).

(** Some entry of [path], expired or not, that a lookup can come upon. *)
Definition holds (c : MetadataCache) (path : string) (e : MetadataEntry) : Prop :=
  enabled c = true /\ exists ent, ent ∈ LRU.view (cache c) /\ LRU.key ent = path /\ LRU.value ent = e.

Lemma wf_New cfg : wf (NewMetadataCache cfg).
Proof. destruct cfg as [[[[] ?] ?]|]; apply LRU.wf_new. Qed.

(** An operation that stores nothing holds nothing new. *)
Lemma on_cache_drops c o :
  wf c -> LRU.iterates (cache c) o -> (forall k v now, o <> LRU.OSet k v now) ->
  let c' := on_cache (fun l => (LRU.perform l o).1.1) c in
  wf c' /\ forall p e, holds c' p e -> holds c p e.
Proof.
  intros W Hit Hno. unfold on_cache. destruct (enabled c) eqn:E; [|by split].
  pose proof (LRU.perform_entries (cache c) o W Hit) as H. destruct (LRU.perform (cache c) o) as [[l out] v].
  destruct H as (W' & _ & _ & Hin & _). split; [done|]. intros p e (_ & ent & Hent & Hk & Hv). split; [done|].
  destruct (Hin ent Hent) as [?|(k & x & now & Heq & _)]; [by exists ent|by destruct (Hno k x now)].
Qed.

Lemma Get_holds c path now c' r :
  wf c -> Get c path now = (c', r) ->
  wf c' /\ (forall p e, holds c' p e -> holds c p e) /\ (forall e, r = Some e -> holds c path e).
Proof.
  intros W. unfold Get. destruct (enabled c) eqn:E; [|by intros [= <- <-]].
  pose proof (LRU.Get_refines (cache c) path now W) as Hr.
  pose proof (LRU.perform_entries (cache c) (LRU.OGet path now) W I) as He. simpl in He.
  destruct (LRU.Get (cache c) path now) as [l v]. destruct Hr as [W' Hop], He as (_ & _ & _ & Hin & _).
  intros [= <- <-]. split; [done|]. split.
  - intros p e (_ & ent & Hent & Hk & Hv). split; [done|]. destruct (Hin ent Hent) as [?|(? & ? & ? & ? & _)]; [by exists ent|done].
  - intros e ->. split; [done|]. simpl in Hop. destruct (LRU.find_entry path (LRU.view (cache c))) as [ent|] eqn:Hf; [|done].
    destruct (LRU.expiresAt ent <? now); [done|]. injection Hop as _ Hv. apply LRU.find_entry_elem in Hf as [Hin' Hk].
    by exists ent.
Qed.

Lemma GetStale_holds c path e : wf c -> GetStale c path = Some e -> holds c path e.
Proof.
  intros W. unfold GetStale. destruct (enabled c) eqn:E; [|done]. intros H. split; [done|].
  pose proof (LRU.find_view (cache c) path W) as Hf. unfold LRU.GetStale in H.
  destruct (LRU.items (cache c) !! path) as [x|] eqn:Hi; [|done]. simpl in H.
  destruct (LRU.heap (cache c) !! x) as [ent|] eqn:Hh; [|done]. simpl in Hf, H. injection H as <-.
  rewrite Hh in Hf. apply LRU.find_entry_elem in Hf as [Hin Hk]. by exists ent.
Qed.

(** After a store the path holds what was stored, if anything. *)
Lemma store_holds c path e now :
  wf c -> let c' := store path e now c in
  wf c' /\ forall p x, holds c' p x -> (p = path /\ x = e) \/ (p <> path /\ holds c p x).
Proof.
  intros W. unfold store, on_cache. destruct (enabled c) eqn:E; simpl.
  2: { split; [done|]. intros p x [Hx _]. congruence. }
  pose proof (LRU.perform_entries (cache c) (LRU.OSet path e now) W I) as He.
  pose proof (LRU.Set_refines (cache c) path e now W) as Hr. simpl in He.
  destruct (LRU.Set_ (cache c) path e now) as [l out]. destruct He as (W' & _ & _ & Hin & _). simpl.
  destruct Hr as [_ (gone & Hop & _)]. split; [done|]. intros p x (_ & ent & Hent & Hk & Hv). simpl in Hent.
  set (new := LRU.mkEntry path e (now + LRU.ttl (cache c))) in *.
  assert (Hsub : forall y, y ∈ LRU.view l -> y = new \/ y ∈ filter (fun y => LRU.key y <> path) (LRU.view (cache c))).
  { intros y Hy. simpl in Hop. fold new in Hop. destruct (LRU.find_entry path (LRU.view (cache c))).
    - injection Hop as Hv' _. rewrite <-Hv' in Hy. by apply elem_of_cons in Hy.
    - destruct (LRU.maxSize _ <? _); injection Hop as Hv' _; rewrite <-Hv' in Hy; [|by apply elem_of_cons in Hy].
      apply elem_of_cons. rewrite <-(LRU.removelast_all (new :: _)). apply elem_of_app. by left. }
  destruct (Hsub ent Hent) as [->|[Hne Hold]%list_elem_of_filter]; [by left|].
  right. split; [congruence|]. split; [done|]. by exists ent.
Qed.

Lemma Delete_holds c path :
  wf c -> let c' := Delete c path in wf c' /\ forall p x, holds c' p x -> p <> path /\ holds c p x.
Proof.
  intros W. unfold Delete. destruct (on_cache_drops c (LRU.ODelete path) W I ltac:(done)) as [W' Hin].
  split; [exact W'|]. intros p x Hx. split; [|by apply Hin].
  destruct Hx as (He & ent & Hent & <- & _). unfold on_cache in He, Hent. destruct (enabled c) eqn:E; [|by rewrite E in He].
  pose proof (LRU.Delete_refines (cache c) path W) as Hr. destruct (LRU.Delete (cache c) path) as [[l out] b].
  destruct_and! Hr. simpl in Hent. intros <-.
  assert (Hv : LRU.view l = filter (fun y => LRU.key y <> LRU.key ent) (LRU.view (cache c))) by naive_solver.
  rewrite Hv in Hent. by apply list_elem_of_filter in Hent as [].
Qed.

Lemma InvalidatePrefix_holds order c prefix :
  wf c -> (forall l, order l ≡ₚ l) -> let c' := InvalidatePrefix order c prefix in
  wf c' /\ forall p x, holds c' p x -> HasPrefix p prefix = false /\ holds c p x.
Proof.
  intros W Hord. unfold InvalidatePrefix.
  assert (Hit : LRU.iterates (cache c) (LRU.ODeletePrefix prefix (iteration order (cache c)))) by apply Hord.
  destruct (on_cache_drops c (LRU.ODeletePrefix prefix (iteration order (cache c))) W Hit ltac:(done)) as [W' Hin].
  assert (Heq : on_cache (fun l => (LRU.DeletePrefix l prefix (iteration order l)).1.1) c =
    on_cache (fun l => (LRU.perform l (LRU.ODeletePrefix prefix (iteration order (cache c)))).1.1) c).
  { unfold on_cache. by destruct (enabled c). }
  rewrite Heq. split; [done|]. intros p x Hx. split; [|by apply Hin].
  destruct Hx as (He & ent & Hent & <- & _). unfold on_cache in He, Hent. destruct (enabled c) eqn:E; [|by rewrite E in He].
  pose proof (LRU.perform_refines (cache c) _ W Hit) as Hr.
  destruct (LRU.perform (cache c) _) as [[l out] b]. destruct Hr as (_ & gone & Hop & _). simpl in Hop, Hent.
  injection Hop as Hv _. rewrite <-Hv in Hent. by apply list_elem_of_filter in Hent as [].
Qed.

Lemma InvalidatePath_holds c path :
  wf c -> let c' := InvalidatePath c path in
  wf c' /\ forall p x, holds c' p x -> p <> path /\ holds c p x.
Proof.
  intros W. unfold InvalidatePath. destruct (Delete_holds c path W) as [W1 H1].
  destruct (negb _ && negb _); [|by split].
  destruct (Delete_holds (Delete c path) (getParentPath path) W1) as [W2 H2]. split; [done|].
  intros p x Hx. by apply H1, H2.
Qed.

(** A listing leaves one entry under the directory: it says nothing of the
    directory's own stat that the cache did not hold before. *)
Lemma SetDirEntries_holds c path entries now :
  wf c -> let c' := SetDirEntries c path entries now in
  wf c' /\ forall p x, holds c' p x ->
    (p <> path /\ holds c p x) \/
    (p = path /\ e_Negative x = false /\ e_IsDir x = true /\ e_ChildEntries x = Some entries /\
     (e_FileInfo x = None \/ exists y, holds c path y /\ e_IsDir y = true /\ e_Negative y = false /\ e_FileInfo x = e_FileInfo y)).
Proof.
  intros W. unfold SetDirEntries. destruct (Get c path now) as [c1 prev] eqn:Hg.
  destruct (Get_holds c path now c1 prev W Hg) as (W1 & H1 & Hprev).
  match goal with |- context [store path ?e now c1] => set (new := e) end.
  destruct (store_holds c1 path new now W1) as [W2 H2]. split; [done|]. intros p x Hx.
  destruct (H2 p x Hx) as [[-> ->]|[Hne Hold]]; [|by left; auto]. right.
  assert (Hnew : e_Negative new = false /\ e_IsDir new = true /\ e_ChildEntries new = Some entries /\
    (e_FileInfo new = None \/ exists y, prev = Some y /\ e_IsDir y = true /\ e_Negative y = false /\ e_FileInfo new = e_FileInfo y)).
  { unfold new. destruct prev as [y|]; [|split_and!; try done; by left].
    destruct (negb (e_Negative y) && e_IsDir y) eqn:Ey; [|split_and!; try done; by left].
    apply andb_true_iff in Ey as [Hn%negb_true_iff Hd]. split_and!; try done. right. exists y. by split_and!. }
  destruct Hnew as (? & ? & ? & Hfi). split_and!; try done.
  destruct Hfi as [?|(y & Hy & ? & ? & ?)]; [by left|right]. exists y. split_and!; try done. by apply Hprev.
Qed.

End MetadataCache.
