(* ===== verification/Bucket.v ===== *)
(** * The bucket, as the namespace operations see it

    [internal/posix] reaches the bucket through the interface [ObjectStore] of
    [operations.go].  The service behind it is a parameter: [BucketStore] has
    the interface's operations and what can be observed of a bucket, and
    [BucketLaws] the documented behaviour.  A call that succeeds took effect, one
    that fails may have; no call touches another key; a copy is of the key it
    names where the key has no character that a URL escapes.  [MemoryBucket] is
    an instance. *)
From Stdlib Require Import Ascii.
From S2P Require Import Prelude StagingTypes Streams CosClient.

Record stored := mkStored {
  data : bytes;
  metadata : gmap string string;
  modified : Time;
  etag : string
}.

(** An object as [HeadObject] describes it. *)
Definition object_of (k : string) (o : stored) : ObjectMetadata :=
  mkObject k (len (data o)) (modified o) (etag o) "" (metadata o).

(** Keys in the order of a listing. *)
Definition key_le (x y : string * stored) : Prop := Streams.string_le x.1 y.1.
#[export] Instance key_le_dec x y : Decision (key_le x y).
Proof. unfold key_le. apply _. Defined.

(** The listing of a prefix. *)
Definition listing (objs : gmap string stored) (prefix : string) : list ObjectMetadata :=
  (fun kv => CosClient.listed (object_of kv.1 kv.2)) <$>
    filter (fun kv => HasPrefix kv.1 prefix = true) (merge_sort key_le (map_to_list objs)).

Class BucketStore := {
  bucket : Type;
  objects : bucket -> gmap string stored;
  HeadObject : bucket -> string -> bucket * (ObjectMetadata + goerr);
  ListObjects : bucket -> string -> Z -> bucket * (list ObjectMetadata + goerr);
  PutObject : bucket -> string -> bytes -> gmap string string -> bucket * option goerr;
  DeleteObject : bucket -> string -> bucket * option goerr;
  (** [CopyObject] and [CopyObjectWithMetadata]. *)
  CopyObject : bucket -> string -> string -> option (gmap string string) -> bucket * option goerr;
  UpdateObjectMetadata : bucket -> string -> gmap string string -> bucket * option goerr
}.

(** [o] is a copy of [src], with other metadata if some is given. *)
Definition copy_of (src : stored) (m : option (gmap string string)) (o : stored) : Prop :=
  data o = data src /\ metadata o = default (metadata src) m.

(** A key that names itself as the source of a copy: the client sends the source
    unescaped ([copyObject], [UpdateObjectMetadata] of [internal/cos/client.go]),
    and the service reads it as part of a URL. *)
Definition plain_key (k : string) : bool :=
  forallb (fun c => negb (existsb (Ascii.eqb c) ["%"%char; "+"%char; "?"%char])) (String.list_ascii_of_string k).

Class BucketLaws `{BucketStore} := {
  head_same b k b' r : HeadObject b k = (b', r) -> objects b' = objects b;
  head_found b k b' m : HeadObject b k = (b', inl m) -> exists o, objects b !! k = Some o /\ m = object_of k o;
  head_missing b k b' e : HeadObject b k = (b', inr e) -> CosClient.Is_NotExist e = true -> objects b !! k = None;
  list_same b p n b' r : ListObjects b p n = (b', r) -> objects b' = objects b;
  list_found b p n b' l : ListObjects b p n = (b', inl l) -> l = CosClient.up_to n (listing (objects b) p);
  list_never_missing b p n b' e : ListObjects b p n = (b', inr e) -> CosClient.Is_NotExist e = false;
  put_effect b k d m b' r : PutObject b k d m = (b', r) ->
    (exists o, data o = d /\ metadata o = m /\ objects b' = <[k := o]> (objects b)) \/
    (is_Some r /\ objects b' = objects b);
  delete_effect b k b' r : DeleteObject b k = (b', r) ->
    objects b' = delete k (objects b) \/ (is_Some r /\ objects b' = objects b);
  copy_effect b s d m b' r : plain_key s = true -> CopyObject b s d m = (b', r) ->
    (exists src o, objects b !! s = Some src /\ copy_of src m o /\ objects b' = <[d := o]> (objects b)) \/
    (is_Some r /\ objects b' = objects b);
  copy_missing b s d m b' e : plain_key s = true -> CopyObject b s d m = (b', Some e) -> CosClient.Is_NotExist e = true ->
    objects b !! s = None /\ objects b' = objects b;
  update_effect b k m b' r : plain_key k = true -> UpdateObjectMetadata b k m = (b', r) ->
    (exists old o, objects b !! k = Some old /\ data o = data old /\ metadata o = m /\ objects b' = <[k := o]> (objects b)) \/
    (is_Some r /\ objects b' = objects b)
}.

(** ** A bucket in memory, whose calls end as [answers] says *)
Module MemoryBucket.

(** [None]: the call succeeds; [Some applied]: it fails, having or not having
    taken effect. *)
Record state := mkState { contents : gmap string stored; clock : Time; answers : list (option bool) }.

Definition broken : goerr := Text "503 Service Unavailable".

Definition answer (s : state) : state * option bool :=
  match answers s with
  | [] => (mkState (contents s) (clock s + Second) [], None)
  | a :: rest => (mkState (contents s) (clock s + Second) rest, a)
  end.

Definition set_contents (m : gmap string stored) (s : state) : state := mkState m (clock s) (answers s).

(** A call that changes the bucket with [f]. *)
Definition call (s : state) (f : state -> state) : state * option goerr :=
  match answer s with
  | (s, None) => (f s, None)
  | (s, Some true) => (f s, Some broken)
  | (s, Some false) => (s, Some broken)
  end.

Definition missing (k : string) : goerr := Wrap ("object " +:+ k) ErrNotExist.

Definition head (s : state) (k : string) : state * (ObjectMetadata + goerr) :=
  match answer s with
  | (s, Some _) => (s, inr broken)
  | (s, None) => (s, match contents s !! k with Some o => inl (object_of k o) | None => inr (missing k) end)
  end.

Definition list_keys (s : state) (p : string) (n : Z) : state * (list ObjectMetadata + goerr) :=
  match answer s with
  | (s, Some _) => (s, inr broken)
  | (s, None) => (s, inl (CosClient.up_to n (listing (contents s) p)))
  end.

Definition put_stored (k : string) (d : bytes) (m : gmap string string) (s : state) : state :=
  set_contents (<[k := mkStored d m (clock s) ""]> (contents s)) s.

Definition copy (s : state) (src dst : string) (m : option (gmap string string)) : state * option goerr :=
  match contents s !! src with
  | None => (s, Some (missing src))
  | Some o => call s (put_stored dst (data o) (default (metadata o) m))
  end.

Definition update (s : state) (k : string) (m : gmap string string) : state * option goerr :=
  match contents s !! k with
  | None => (s, Some (missing k))
  | Some o => call s (put_stored k (data o) m)
  end.

#[export] Instance memory_bucket : BucketStore := {|
  bucket := state;
  objects := contents;
  HeadObject := head;
  ListObjects := list_keys;
  PutObject s k d m := call s (put_stored k d m);
  DeleteObject s k := call s (fun s => set_contents (delete k (contents s)) s);
  CopyObject := copy;
  UpdateObjectMetadata := update
|}.

Lemma answer_contents s s' a : answer s = (s', a) -> contents s' = contents s.
Proof. unfold answer. destruct (answers s); by intros [= <- _]. Qed.

Lemma memory_call_cases s f s' r :
  call s f = (s', r) -> exists s0, contents s0 = contents s /\ (s' = f s0 \/ is_Some r /\ s' = s0).
Proof.
  unfold call. destruct (answer s) as [s0 a] eqn:E. apply answer_contents in E.
  destruct a as [[]|]; intros [= <- <-]; exists s0; eauto.
Qed.

#[export] Instance memory_laws : BucketLaws.
Proof.
  split; simpl.
  - unfold head. intros b k b' r. destruct (answer b) as [s a] eqn:E. apply answer_contents in E.
    by destruct a; intros [= <- _].
  - unfold head. intros b k b' m. destruct (answer b) as [s [a|]] eqn:E; [done|]. apply answer_contents in E.
    rewrite E. destruct (contents b !! k) as [o|]; [|done]. intros [= _ <-]. by exists o.
  - unfold head. intros b k b' e. destruct (answer b) as [s [a|]] eqn:E; [by intros [= _ <-]|]. apply answer_contents in E.
    rewrite E. by destruct (contents b !! k).
  - unfold list_keys. intros b p n b' r. destruct (answer b) as [s a] eqn:E. apply answer_contents in E.
    by destruct a; intros [= <- _].
  - unfold list_keys. intros b p n b' l. destruct (answer b) as [s [a|]] eqn:E; [done|]. apply answer_contents in E.
    intros [= _ <-]. by rewrite E.
  - unfold list_keys. intros b p n b' e. destruct (answer b) as [s [a|]]; [by intros [= _ <-]|done].
  - intros b k d m b' r (s0 & H0 & [->|[Hr ->]])%memory_call_cases; [left|by right].
    exists (mkStored d m (clock s0) ""). unfold put_stored. simpl. by rewrite H0.
  - intros b k b' r (s0 & H0 & [->|[Hr ->]])%memory_call_cases; [left|by right]. simpl. by rewrite H0.
  - unfold copy. intros b s d m b' r _. destruct (contents b !! s) as [o|] eqn:Ho; [|intros [= <- <-]; right; eauto].
    intros (s0 & H0 & [->|[Hr ->]])%memory_call_cases; [left|by right].
    exists o, (mkStored (data o) (default (metadata o) m) (clock s0) ""). split_and!; try done. simpl. by rewrite H0.
  - unfold copy. intros b s d m b' e _. destruct (contents b !! s) as [o|] eqn:Ho; [|by intros [= <- <-]].
    unfold call. destruct (answer b) as [s0 [[]|]]; by intros [= _ <-].
  - unfold update. intros b k m b' r _. destruct (contents b !! k) as [o|] eqn:Ho; [|intros [= <- <-]; right; eauto].
    intros (s0 & H0 & [->|[Hr ->]])%memory_call_cases; [left|by right].
    exists o, (mkStored (data o) m (clock s0) ""). split_and!; try done. simpl. by rewrite H0.
Qed.

End MemoryBucket.
