(* ===== verification/Namespace.v ===== *)
(** * Namespace operations ([internal/posix/operations.go], [child_names.go])

    Lookups, listings, directories, copies and attribute changes of the posix
    layer, over the bucket, the metadata cache and the two fences that keep
    answers out of the cache which a change overtook.  The data cache is a
    parameter, as far as the layer invalidates it.  Logging and metrics are left
    out.  [NamespaceRename] has the rename of directories. *)
From S2P Require Import Prelude GoPath StagingTypes ListingFence Streams Paths CosClient Attributes MetadataCache Bucket.
Import Attributes ListingFence MetadataCache.

Module Namespace.

Abbreviation fence := (gmap string listingFenceEntry).

(** What the layer calls of the data cache. *)
Class DataInvalidation := {
  data_state : Type;
  DeleteObjectData : data_state -> string -> data_state;
  DeleteObjectPrefixData : data_state -> string -> data_state
}.

Section Namespace.
Context `{BS : BucketStore} {TT : TimeText} {DI : DataInvalidation}.
(** [defaultStartupTime], the orders in which maps are walked, the check of
    pending deletes, and [max_directory_entries]. *)
Context (startup : Time) (meta_order : gmap string string -> list (string * string))
  (key_order : list string -> list string) (pendingDelete : string -> bool) (maxEntries : Z).

(** [dcache] is [None] when the data cache is off. *)
Record OperationsHandler := mkHandler {
  cos : bucket;
  mcache : MetadataCache;
  listings : fence;
  lookups : fence;
  dcache : option data_state
}.

Definition set_cos (b : bucket) (h : OperationsHandler) : OperationsHandler :=
  mkHandler b (mcache h) (listings h) (lookups h) (dcache h).
Definition set_mcache (c : MetadataCache) (h : OperationsHandler) : OperationsHandler :=
  mkHandler (cos h) c (listings h) (lookups h) (dcache h).
Definition set_listings (f : fence) (h : OperationsHandler) : OperationsHandler :=
  mkHandler (cos h) (mcache h) f (lookups h) (dcache h).
Definition set_lookups (f : fence) (h : OperationsHandler) : OperationsHandler :=
  mkHandler (cos h) (mcache h) (listings h) f (dcache h).
Definition set_dcache (d : option data_state) (h : OperationsHandler) : OperationsHandler :=
  mkHandler (cos h) (mcache h) (listings h) (lookups h) d.

Definition translator : Paths.PathTranslator := Paths.NewPathTranslator "".
Definition object_key (path : string) : string := Paths.ToObjectKey translator path.

Definition isPendingDelete (key : string) : bool := pendingDelete (Paths.ToFSPath translator key).

(** ** Invalidation *)

Definition drop_cached (path : string) (h : OperationsHandler) : OperationsHandler :=
  set_mcache (MetadataCache.Delete (mcache h) path) h.

(** The loop of [invalidateAncestorListings]; a path has no more ancestors than
    characters. *)
Fixpoint ancestors_loop (fuel : nat) (dir : string) (h : OperationsHandler) : OperationsHandler :=
  let h := drop_cached dir h in
  let h := set_listings (invalidate (listings h) dir) h in
  match fuel with
  | O => h
  | S fuel =>
      if bool_decide (dir = "/") || bool_decide (dir = "") then h
      else ancestors_loop fuel (Paths.GetParentPath dir) h
  end.

Definition invalidateAncestorListings (dir : string) (h : OperationsHandler) : OperationsHandler :=
  ancestors_loop (S (String.length dir)) dir h.

Definition invalidateObjectPath (path : string) (h : OperationsHandler) : OperationsHandler :=
  let h := drop_cached path h in
  let h := set_lookups (invalidate (lookups h) (Paths.NormalizePath path)) h in
  invalidateAncestorListings (Paths.GetParentPath path) h.

Definition invalidateParentListing (path : string) (h : OperationsHandler) : OperationsHandler :=
  invalidateAncestorListings (Paths.GetParentPath path) h.

Definition invalidateDataPath (path : string) (h : OperationsHandler) : OperationsHandler :=
  set_dcache ((fun d => DeleteObjectData d path) <$> dcache h) h.

Definition invalidateFileMutation (path : string) (h : OperationsHandler) : OperationsHandler :=
  invalidateDataPath path (invalidateObjectPath path h).

Definition invalidateDirectoryMutation (path : string) (h : OperationsHandler) : OperationsHandler :=
  let normalized := Paths.NormalizePath path in
  let prefix := if negb (bool_decide (normalized = "/")) && negb (HasSuffix normalized "/")
                then normalized +:+ "/" else normalized in
  let h := drop_cached normalized h in
  let h := set_mcache (InvalidatePrefix key_order (mcache h) prefix) h in
  let h := set_lookups (invalidatePrefix (invalidate (lookups h) normalized) prefix) h in
  let h := invalidateAncestorListings (Paths.GetParentPath normalized) h in
  set_dcache ((fun d => DeleteObjectPrefixData d normalized) <$> dcache h) h.

Definition invalidateRenameMutation (oldPath newPath : string) (is_dir : bool) (h : OperationsHandler)
    : OperationsHandler :=
  if is_dir then invalidateDirectoryMutation newPath (invalidateDirectoryMutation oldPath h)
  else invalidateFileMutation newPath (invalidateFileMutation oldPath h).

(** [cachedListingHas]. *)
Definition cachedListingHas (dir child : string) (now : Time) (h : OperationsHandler) : OperationsHandler * bool :=
  let '(c, r) := MetadataCache.Get (mcache h) dir now in
  (set_mcache c h,
   match r ≫= e_ChildEntries with
   | None => false
   | Some entries => existsb (fun i => bool_decide (name i = child)) entries
   end).

Definition InvalidateObjectAfterSync (path : string) (now : Time) (h : OperationsHandler) : OperationsHandler :=
  let normalized := Paths.NormalizePath path in
  let parent := Paths.GetParentPath normalized in
  let h := drop_cached normalized h in
  let h := set_lookups (invalidate (lookups h) normalized) h in
  let h := set_listings (invalidate (listings h) parent) h in
  let '(h, has) := cachedListingHas parent (Paths.GetBaseName normalized) now h in
  let h := if has then h else drop_cached parent h in
  invalidateDataPath path h.

(** ** Lookups *)

Definition reportedModTime (meta : gmap string string) (objectModified : Time) : Time :=
  default objectModified (StoredMtime meta_order meta).

(** [fileInfoFromCacheEntry], and the same code in [Stat]. *)
Definition fileInfoFromCacheEntry (path : string) (e : MetadataEntry) : FileInfo :=
  match e_FileInfo e with
  | Some info => info
  | None =>
      let dflt := DefaultAttributes startup (e_IsDir e) in
      let m := from_option Mode (Mode dflt) (e_Attributes e) in
      let t := from_option Mtime (Mtime dflt) (e_Attributes e) in
      mkInfo (Paths.GetBaseName path) 0 (if e_IsDir e then Z.lor m ModeDir else m) t (e_IsDir e) (e_Attributes e) 0
  end.

(** The answer of a cached entry, unless it has to be asked for again. *)
Definition stat_cached (path : string) (cached : option MetadataEntry) (now : Time) : option (FileInfo + goerr) :=
  match cached with
  | None => None
  | Some e =>
      if e_Negative e then if fresh_negative e now then Some (inr ErrNotExist) else None
      else if e_IsImplicit e then None
      else Some (inl (fileInfoFromCacheEntry path e))
  end.

Definition root_info : FileInfo :=
  let a := DefaultAttributes startup true in
  mkInfo "/" 0 (Z.lor (Mode a) ModeDir) (Mtime a) true (Some a) 0.

Definition file_info (path : string) (m : ObjectMetadata) : FileInfo :=
  let a := DecodePOSIXAttributes startup meta_order (Metadata m) false in
  mkInfo (Paths.GetBaseName path) (Size m) (Mode a) (reportedModTime (Metadata m) (LastModified m)) false (Some a)
    (LastModified m).

Definition dir_info (path : string) (m : ObjectMetadata) : FileInfo :=
  let a := DecodePOSIXAttributes startup meta_order (Metadata m) true in
  mkInfo (Paths.GetBaseName path) 0 (Z.lor (Mode a) ModeDir) (reportedModTime (Metadata m) (LastModified m)) true (Some a)
    (LastModified m).

Definition implicit_info (path : string) : FileInfo :=
  let a := DefaultAttributes startup true in
  mkInfo (Paths.GetBaseName path) 0 (Mode a) (Mtime a) true (Some a) 0.

(** The probe for an implicit directory: an object waiting to be deleted does not
    keep its directory alive. *)
Definition probe_children (objectKey : string) (b : bucket) : bucket * (list ObjectMetadata + goerr) :=
  let prefix := if negb (bool_decide (objectKey = "")) && negb (HasSuffix objectKey "/")
                then objectKey +:+ "/" else objectKey in
  match ListObjects b prefix 1 with
  | (b, inr e) => (b, inr e)
  | (b, inl []) => (b, inl [])
  | (b, inl (o :: rest)) =>
      if isPendingDelete (Key o) then
        match ListObjects b prefix (maxEntries + 1) with
        | (b, inr e) => (b, inr e)
        | (b, inl objs) => (b, inl (filter (fun o => isPendingDelete (Key o) = false) objs))
        end
      else (b, inl (o :: rest))
  end.

(** What the probes say of a path: something, nothing, or that the bucket could
    not be asked. *)
Inductive verdict := Found (info : FileInfo) | Absent | Unknown (e : goerr).

(** [trackBackendErr]. *)
Definition track (backendErr : option goerr) {A} (r : A + goerr) : option goerr :=
  match backendErr, r with
  | None, inr e => if CosClient.Is_NotExist e then None else Some e
  | _, _ => backendErr
  end.

Definition conclude (path : string) (file dir : ObjectMetadata + goerr) (children : list ObjectMetadata + goerr) : verdict :=
  match file with
  | inl m => Found (file_info path m)
  | inr _ =>
      match dir with
      | inl m => Found (dir_info path m)
      | inr _ =>
          match children with
          | inl (_ :: _) => Found (implicit_info path)
          | _ =>
              match track (track (track None file) dir) children with
              | Some e => Unknown e
              | None => Absent
              end
          end
      end
  end.

(** The probes of [Stat]: both heads, and the children when neither is there. *)
Definition probe (path : string) (b : bucket) : bucket * verdict :=
  let key := object_key path in
  let '(b, file) := HeadObject b key in
  let '(b, dir) := HeadObject b (Paths.ToDirectoryKey key) in
  match file, dir with
  | inr _, inr _ =>
      let '(b, children) := probe_children key b in (b, conclude path file dir children)
  | _, _ => (b, conclude path file dir (inl []))
  end.

(** What is answered when the bucket cannot be asked: an expired entry, or an
    expired listing of the parent. *)
Definition stat_stale (path : string) (c : MetadataCache) (e : goerr) : FileInfo + goerr :=
  match GetStale c path with
  | Some entry => if e_Negative entry then inr ErrNotExist else inl (fileInfoFromCacheEntry path entry)
  | None =>
      match GetStale c (Paths.GetParentPath (Paths.NormalizePath path)) ≫= e_ChildEntries with
      | Some entries =>
          match List.find (fun i => bool_decide (name i = Paths.GetBaseName path)) entries with
          | Some i => inl i
          | None => inr ErrNotExist
          end
      | None => inr (Wrap ("object store unreachable for " +:+ path) e)
      end
  end.

(** The end of a lookup: the fence decides whether the answer is cached. *)
Definition stat_end (path : string) (generation : Z) (v : verdict) (now : Time) (h : OperationsHandler)
    : OperationsHandler * (FileInfo + goerr) :=
  let '(f, current) := end_ (lookups h) (Paths.NormalizePath path) generation in
  let h := set_lookups f h in
  match v with
  | Found info =>
      (if current then set_mcache (SetFileInfo (mcache h) path info (attrs info) now) h else h, inl info)
  | Absent => (if current then set_mcache (SetNegative (mcache h) path now) h else h, inr ErrNotExist)
  | Unknown e => (h, stat_stale path (mcache h) e)
  end.

Definition Stat (path : string) (now : Time) (h : OperationsHandler) : OperationsHandler * (FileInfo + goerr) :=
  let '(c, cached) := MetadataCache.Get (mcache h) path now in
  let h := set_mcache c h in
  match stat_cached path cached now with
  | Some r => (h, r)
  | None =>
      if bool_decide (Paths.NormalizePath path = "/")
      then (set_mcache (SetFileInfo (mcache h) path root_info (attrs root_info) now) h, inl root_info)
      else
        let '(f, generation) := begin (lookups h) (Paths.NormalizePath path) in
        let h := set_lookups f h in
        let '(b, v) := probe path (cos h) in
        stat_end path generation v now (set_cos b h)
  end.

(** ** Listings *)

(** [ObjectModTime]. *)
Definition ObjectModTime (i : FileInfo) : Time := if IsZero (objectModTime i) then modTime i else objectModTime i.

Definition same_second (a b : Time) : bool := whole_seconds a =? whole_seconds b.

(** One turn of [refreshCachedEntries]: what an earlier stat cached replaces an
    entry it still describes. *)
Definition refresh_entry (parent : string) (now : Time) (c : MetadataCache) (entry : FileInfo) : MetadataCache * FileInfo :=
  let '(c, r) := MetadataCache.Get c (Paths.JoinPath [parent; name entry]) now in
  (c, match r with
      | None => entry
      | Some cached =>
          match e_Negative cached, e_Attributes cached, e_FileInfo cached with
          | false, Some _, Some stated =>
              if negb (Bool.eqb (isDir stated) (isDir entry)) then entry
              else if negb (isDir entry) &&
                      (negb (size stated =? size entry) || negb (same_second (ObjectModTime stated) (ObjectModTime entry)))
              then entry
              else stated
          | _, _, _ => entry
          end
      end).

Fixpoint refreshCachedEntries (parent : string) (now : Time) (c : MetadataCache) (entries : list FileInfo)
    : MetadataCache * list FileInfo :=
  match entries with
  | [] => (c, [])
  | entry :: entries =>
      let '(c, i) := refresh_entry parent now c entry in
      let '(c, rest) := refreshCachedEntries parent now c entries in
      (c, i :: rest)
  end.

(** [cachedEntry]: the attributes and time a stat cached, when they still describe
    the listed object. *)
Definition cachedEntry (path : string) (obj : ObjectMetadata) (is_dir : bool) (now : Time) (c : MetadataCache)
    : MetadataCache * option (POSIXAttributes * Time) :=
  let '(c, r) := MetadataCache.Get c path now in
  (c, match r with
      | None => None
      | Some e =>
          match e_Negative e, e_Attributes e, e_FileInfo e with
          | false, Some a, Some info =>
              if negb (Bool.eqb (e_IsDir e) is_dir) then None
              else if negb is_dir &&
                      (negb (size info =? Size obj) || negb (same_second (ObjectModTime info) (LastModified obj)))
              then None
              else Some (a, modTime info)
          | _, _, _ => None
          end
      end).

(** The name of an object's entry in the directory of [prefix], and whether it is
    a directory there; [None] for the directory's own marker. *)
Definition child_of (prefix key : string) : option (string * bool) :=
  let relPath := if bool_decide (prefix = "") then key else TrimPrefix key prefix in
  if bool_decide (relPath = "") then None
  else
    match SplitSlash (TrimLeftSlash (TrimRightSlash relPath)) with
    | [] => None
    | child :: deeper => Some (child, negb (bool_decide (deeper = [])) || HasSuffix key "/")
    end.

(** The loop of [ListDirectory] over the listed objects. *)
Fixpoint entries_loop (path prefix : string) (now : Time) (c : MetadataCache) (seen : list string) (hid : bool)
    (entries : list FileInfo) (objs : list ObjectMetadata) : MetadataCache * list FileInfo * bool :=
  match objs with
  | [] => (c, entries, hid)
  | obj :: objs =>
      if isPendingDelete (Key obj) then entries_loop path prefix now c seen true entries objs
      else
        match child_of prefix (Key obj) with
        | None => entries_loop path prefix now c seen hid entries objs
        | Some (child, is_dir) =>
            if bool_decide (child ∈ seen) then entries_loop path prefix now c seen hid entries objs
            else
              let '(c, cached) := cachedEntry (Paths.JoinPath [Paths.NormalizePath path; child]) obj is_dir now c in
              let '(a, t) :=
                default (DecodePOSIXAttributes startup meta_order (Metadata obj) is_dir,
                         reportedModTime (Metadata obj) (LastModified obj)) cached in
              let m := if is_dir && (Z.land (Mode a) ModeDir =? 0) then Z.lor (Mode a) ModeDir else Mode a in
              let info := mkInfo child (Size obj) m t is_dir (Some a) (LastModified obj) in
              entries_loop path prefix now c (child :: seen) hid (entries ++ [info]) objs
        end
  end.

Definition ErrDirectoryTooLarge : goerr := Text "directory has too many entries to list".

(** The end of a listing: the fence decides whether it is cached. *)
Definition list_end (path : string) (generation : Z) (objs : list ObjectMetadata) (now : Time) (h : OperationsHandler)
    : OperationsHandler * (list FileInfo + goerr) :=
  let '(c, entries, hid) := entries_loop path (Paths.ListPrefix path) now (mcache h) [] false [] objs in
  let h := set_mcache c h in
  let '(f, current) := end_ (listings h) (Paths.NormalizePath path) generation in
  let h := set_listings f h in
  if maxEntries <? len entries then (h, inr (Wrap ("directory listing for " +:+ path) ErrDirectoryTooLarge))
  else if negb current || hid then (h, inl entries)
  else (set_mcache (SetDirEntries (mcache h) path entries now) h, inl entries).

(** [fetchFromCOS] on; two more than the limit are asked for, for the marker and
    to tell a directory at the limit from one over it. *)
Definition list_fetch (path : string) (now : Time) (h : OperationsHandler) : OperationsHandler * (list FileInfo + goerr) :=
  let '(f, generation) := begin (listings h) (Paths.NormalizePath path) in
  let h := set_listings f h in
  match ListObjects (cos h) (Paths.ListPrefix path) (maxEntries + 2) with
  | (b, inr e) =>
      let h := set_cos b h in
      let h := set_listings (end_ (listings h) (Paths.NormalizePath path) generation).1 h in
      (h, match GetStale (mcache h) path ≫= e_ChildEntries with Some stale => inl stale | None => inr e end)
  | (b, inl objs) => list_end path generation objs now (set_cos b h)
  end.

Definition ListDirectory (path : string) (now : Time) (h : OperationsHandler) : OperationsHandler * (list FileInfo + goerr) :=
  let '(c, cached) := MetadataCache.Get (mcache h) path now in
  let h := set_mcache c h in
  match cached ≫= e_ChildEntries with
  | Some entries =>
      if maxEntries <? len entries
      then (h, inr (Wrap ("cached directory listing for " +:+ path) ErrDirectoryTooLarge))
      else
        let '(c, entries) := refreshCachedEntries (Paths.NormalizePath path) now (mcache h) entries in
        (set_mcache c h, inl entries)
  | None =>
      let '(c, again) := MetadataCache.Get (mcache h) path now in
      let h := set_mcache c h in
      match again ≫= e_Children with
      | Some _ => list_fetch path now (set_mcache (InvalidatePath (mcache h) path) h)
      | None => list_fetch path now h
      end
  end.

(** [CachedChildNames]. *)
Definition CachedChildNames (dir : string) (now : Time) (h : OperationsHandler) : OperationsHandler * option (list string) :=
  let '(c, r) := MetadataCache.Get (mcache h) dir now in
  (set_mcache c h, map name <$> (r ≫= e_ChildEntries)).

(** [checkChildNames]. *)
Definition checkChildNames (names : list string) (dir : string) : list string + goerr :=
  if maxEntries <? len names then inr (Wrap ("entries of " +:+ dir) ErrDirectoryTooLarge) else inl names.

(** [add] of [ChildNamesWithPrefix]. *)
Definition add_name (dirPrefix key : string) (names : list string) : list string :=
  let relPath := TrimPrefix key dirPrefix in
  if bool_decide (relPath = "") then names
  else
    let child := default "" (head (SplitSlash (TrimLeftSlash (TrimRightSlash relPath)))) in
    if bool_decide (child = "") || bool_decide (child ∈ names) then names else names ++ [child].

(** [ChildNamesWithPrefix]; [children] is the service's answer when the store can
    list children, [None] when it cannot. *)
Definition ChildNamesWithPrefix (dir namePrefix : string) (now : Time)
    (children : option ((list ObjectMetadata * list string) + goerr)) (h : OperationsHandler)
    : OperationsHandler * (list string + goerr) :=
  let '(c, r) := MetadataCache.Get (mcache h) dir now in
  let h := set_mcache c h in
  match r ≫= e_ChildEntries with
  | Some entries => (h, inl (filter (fun n => HasPrefix n namePrefix = true) (name <$> entries)))
  | None =>
      let dirPrefix := Paths.ListPrefix dir in
      let visible objs := filter (fun k => isPendingDelete k = false) (Key <$> objs) in
      match children with
      | Some (inr e) => (h, inr e)
      | Some (inl (objs, prefixes)) =>
          (h, checkChildNames (foldl (fun names k => add_name dirPrefix k names) [] (visible objs ++ prefixes)) dir)
      | None =>
          match ListObjects (cos h) (dirPrefix +:+ namePrefix) (maxEntries + 2) with
          | (b, inr e) => (set_cos b h, inr e)
          | (b, inl objs) =>
              (set_cos b h, checkChildNames (foldl (fun names k => add_name dirPrefix k names) [] (visible objs)) dir)
          end
      end
  end.

(** ** Changes *)

(** [WriteFile]. *)
Definition WriteFile (path : string) (d : bytes) (a : option POSIXAttributes) (h : OperationsHandler)
    : OperationsHandler * option goerr :=
  match PutObject (cos h) (object_key path) d (EncodePOSIXAttributes startup a) with
  | (b, Some e) => (set_cos b h, Some e)
  | (b, None) => (invalidateFileMutation path (set_cos b h), None)
  end.

(** [DeleteFile]. *)
Definition DeleteFile (path : string) (h : OperationsHandler) : OperationsHandler * option goerr :=
  match DeleteObject (cos h) (object_key path) with
  | (b, Some e) => (set_cos b h, Some e)
  | (b, None) => (invalidateFileMutation path (set_cos b h), None)
  end.

(** [CreateDirectory]. *)
Definition CreateDirectory (path : string) (a : option POSIXAttributes) (h : OperationsHandler)
    : OperationsHandler * option goerr :=
  let a := default (DefaultAttributes startup true) a in
  match PutObject (cos h) (Paths.ToDirectoryKey (object_key path)) [] (EncodePOSIXAttributes startup (Some a)) with
  | (b, Some e) => (set_cos b h, Some e)
  | (b, None) => (invalidateDirectoryMutation path (set_cos b h), None)
  end.

Definition maxGoneEntryProbes : Z := 32.

(** [listedEntriesAreGone]. *)
Fixpoint gone_loop (prefix : string) (entries : list FileInfo) (b : bucket) : bucket * bool :=
  match entries with
  | [] => (b, true)
  | i :: entries =>
      if isDir i then (b, false)
      else
        match HeadObject b (prefix +:+ name i) with
        | (b, inr e) => if CosClient.Is_NotExist e then gone_loop prefix entries b else (b, false)
        | (b, inl _) => (b, false)
        end
  end.

Definition listedEntriesAreGone (path : string) (entries : list FileInfo) (b : bucket) : bucket * bool :=
  if maxGoneEntryProbes <? len entries then (b, false) else gone_loop (Paths.ListPrefix path) entries b.

Definition ENOTEMPTY : goerr := Text "directory not empty".

(** [DeleteDirectory]. *)
Definition DeleteDirectory (path : string) (now : Time) (h : OperationsHandler) : OperationsHandler * option goerr :=
  match ListDirectory path now h with
  | (h, inr e) => (h, Some e)
  | (h, inl entries) =>
      let '(b, gone) := match entries with [] => (cos h, true) | _ => listedEntriesAreGone path entries (cos h) end in
      let h := set_cos b h in
      if negb gone then (h, Some (Wrap "directory not empty" ENOTEMPTY))
      else
        match DeleteObject (cos h) (Paths.ToDirectoryKey (object_key path)) with
        | (b, Some e) => (set_cos b h, Some e)
        | (b, None) => (invalidateDirectoryMutation path (set_cos b h), None)
        end
  end.

(** [CopyFile]: the caches of the destination are dropped however the copy ends. *)
Definition CopyFile (srcPath dstPath : string) (a : option POSIXAttributes) (now : Time) (h : OperationsHandler)
    : OperationsHandler * option goerr :=
  let srcPath := Paths.NormalizePath srcPath in
  let dstPath := Paths.NormalizePath dstPath in
  if bool_decide (srcPath = dstPath) then (h, None)
  else
    match Stat srcPath now h with
    | (h, inr e) => (h, Some e)
    | (h, inl info) =>
        if isDir info then (h, Some (Text "unsupported operation"))
        else
          let '(b, r) := CopyObject (cos h) (object_key srcPath) (object_key dstPath)
                           ((fun a => EncodePOSIXAttributes startup (Some a)) <$> a) in
          (invalidateFileMutation dstPath (set_cos b h), r)
    end.

(** [UpdateAttributes] of the handler: the change is merged into the metadata the
    object has now. *)
Definition UpdateAttributes (path : string) (u : AttributeUpdate) (now : Time) (h : OperationsHandler)
    : OperationsHandler * option goerr :=
  match Stat path now h with
  | (h, inr e) => (h, Some e)
  | (h, inl info) =>
      let objectKey := if isDir info then Paths.ToDirectoryKey (object_key path) else object_key path in
      let merged existing :=
        MergePOSIXMetadata startup existing
          (Some (Apply u (DecodePOSIXAttributes startup meta_order existing (isDir info)) now)) in
      let finish '(b, r) := match r with
        | Some e => (set_cos b h, Some e)
        | None => (set_mcache (InvalidatePath (mcache h) path) (set_cos b h), None)
        end in
      match HeadObject (cos h) objectKey with
      | (b, inl m) => finish (UpdateObjectMetadata b objectKey (merged (Metadata m)))
      | (b, inr e) =>
          if isDir info && CosClient.Is_NotExist e then finish (PutObject b objectKey [] (merged ∅))
          else (set_cos b h, Some e)
      end
  end.

(** [Attributes], and the owner NFS is shown. *)
Definition InfoAttributes (i : FileInfo) : POSIXAttributes :=
  let a := default (DefaultAttributes startup (isDir i)) (attrs i) in
  if IsZero (Btime a)
  then mkPOSIX (Mode a) (UID a) (GID a) (Atime a) (Mtime a) (Ctime a) (modTime i) (WindowsAttributes a) (Streams_ a)
  else a.

Definition clampID (id : Z) : Z := if (id <? 0) || (2 ^ 32 - 1 <? id) then 0 else id.
Definition OwnerIDs (a : POSIXAttributes) : Z * Z := (clampID (UID a), clampID (GID a)).
Definition NFSOwner (i : FileInfo) : Z * Z := OwnerIDs (InfoAttributes i).

End Namespace.
End Namespace.
