(* ===== verification/NamespaceLookup.v ===== *)
(** * What a lookup reports ([Stat] in [internal/posix/operations.go])

    A lookup that the cache cannot answer reports what is in the bucket, and an
    outage is never reported as absence. *)
From S2P Require Import Prelude GoPath StagingTypes LRU ListingFence Streams Paths CosClient Attributes MetadataCache Bucket Namespace.
Import Attributes ListingFence MetadataCache Namespace.

Module NamespaceLookup.

Section Lookup.
Context `{BL : BucketLaws} {TT : TimeText} {DI : DataInvalidation}.
Context (startup : Time) (meta_order : gmap string string -> list (string * string))
  (pendingDelete : string -> bool) (maxEntries : Z).

Abbreviation pending := (isPendingDelete pendingDelete).
Abbreviation Stat := (Namespace.Stat startup meta_order pendingDelete maxEntries).

(** The prefix under which a path's children are. *)
Definition child_prefix (path : string) : string :=
  let k := object_key path in
  if negb (bool_decide (k = "")) && negb (HasSuffix k "/") then k +:+ "/" else k.

(** Something under the path that is not waiting to be deleted. *)
Definition has_child (objs : gmap string stored) (path : string) : Prop :=
  exists k o, objs !! k = Some o /\ HasPrefix k (child_prefix path) = true /\ pending k = false.

Definition exists_in (objs : gmap string stored) (path : string) : Prop :=
  is_Some (objs !! object_key path) \/ is_Some (objs !! Paths.ToDirectoryKey (object_key path)) \/ has_child objs path.

(** [info] is what the bucket has at the path. *)
Definition describes (objs : gmap string stored) (path : string) (info : FileInfo) : Prop :=
  (exists o, objs !! object_key path = Some o /\ info = file_info startup meta_order path (object_of (object_key path) o)) \/
  (exists o, objs !! Paths.ToDirectoryKey (object_key path) = Some o /\
     info = dir_info startup meta_order path (object_of (Paths.ToDirectoryKey (object_key path)) o)) \/
  (has_child objs path /\ info = implicit_info startup path).

(** How many objects under the path wait to be deleted. *)
Definition pending_under (objs : gmap string stored) (path : string) : Z :=
  len (filter (fun o => pending (Key o) = true) (listing objs (child_prefix path))).

Lemma elem_of_listing objs prefix o :
  o ∈ listing objs prefix <->
  exists k x, objs !! k = Some x /\ HasPrefix k prefix = true /\ o = CosClient.listed (object_of k x).
Proof.
  unfold listing. rewrite list_elem_of_fmap. split.
  - intros ([k x] & -> & [Hp Hin]%list_elem_of_filter). rewrite merge_sort_Permutation in Hin.
    apply elem_of_map_to_list in Hin. by exists k, x.
  - intros (k & x & Hk & Hp & ->). exists (k, x). split; [done|]. apply list_elem_of_filter. split; [done|].
    rewrite merge_sort_Permutation. by apply elem_of_map_to_list.
Qed.

Lemma has_child_listing objs path o :
  o ∈ listing objs (child_prefix path) -> pending (Key o) = false -> has_child objs path.
Proof. intros (k & x & Hk & Hp & ->)%elem_of_listing Hpend. exists k, x. by split_and!. Qed.

Lemma has_child_nonempty objs path : has_child objs path -> exists o, o ∈ listing objs (child_prefix path) /\ pending (Key o) = false.
Proof.
  intros (k & x & Hk & Hp & Hpend). exists (CosClient.listed (object_of k x)). split; [|done].
  apply elem_of_listing. by exists k, x.
Qed.

(** If all of the first [n] of a list have a property that only [n - 1] have, that
    is the whole list. *)
Lemma all_taken {A} (P : A -> Prop) `{!forall x, Decision (P x)} (l : list A) (n : nat) :
  (length (filter P l) < n)%nat -> Forall P (take n l) -> Forall P l.
Proof.
  revert n. induction l as [|x l IH]; intros n Hn Hall; [done|]. destruct n as [|n]; [lia|].
  simpl in Hall. apply Forall_cons in Hall as [Hx Hall]. constructor; [done|]. rewrite filter_cons_True in Hn by done.
  simpl in Hn. apply (IH n); [lia|done].
Qed.

Lemma probe_children_objects key b : objects (probe_children pendingDelete maxEntries key b).1 = objects b.
Proof.
  unfold probe_children.
  set (p := if negb (bool_decide (key = "")) && negb (HasSuffix key "/") then key +:+ "/" else key).
  destruct (ListObjects b p 1) as [b1 [[|o os]|e]] eqn:E1; simpl; try (by eapply list_same).
  apply list_same in E1. destruct (pending (Key o)); [|done].
  destruct (ListObjects b1 p (maxEntries + 1)) as [b2 [l|e]] eqn:E2; simpl; apply list_same in E2; congruence.
Qed.

Lemma probe_children_spec path b b' r :
  probe_children pendingDelete maxEntries (object_key path) b = (b', r) ->
  0 <= maxEntries -> pending_under (objects b) path <= maxEntries ->
  objects b' = objects b /\
  match r with
  | inl [] => ~ has_child (objects b) path
  | inl (_ :: _) => has_child (objects b) path
  | inr e => CosClient.Is_NotExist e = false
  end.
Proof.
  intros Hp Hmax Hpend. unfold probe_children in Hp. fold (child_prefix path) in Hp.
  destruct (ListObjects b (child_prefix path) 1) as [b1 [l|e]] eqn:E1.
  2: { injection Hp as <- <-. split; [by eapply list_same|by eapply list_never_missing]. }
  pose proof (list_same _ _ _ _ _ E1) as Hs1. apply list_found in E1.
  destruct l as [|o rest].
  { injection Hp as <- <-. split; [done|]. intros Hc. destruct (has_child_nonempty _ _ Hc) as (o & Ho & _).
    unfold CosClient.up_to in E1. simpl in E1. destruct (listing (objects b) (child_prefix path)); [by apply elem_of_nil in Ho|done]. }
  assert (Ho : o ∈ listing (objects b) (child_prefix path)).
  { unfold CosClient.up_to in E1. simpl in E1. destruct (listing (objects b) (child_prefix path)) as [|x xs]; [done|].
    injection E1 as -> _. set_solver. }
  destruct (pending (Key o)) eqn:Epend.
  2: { injection Hp as <- <-. split; [done|]. by eapply has_child_listing. }
  destruct (ListObjects b1 (child_prefix path) (maxEntries + 1)) as [b2 [objs|e]] eqn:E2.
  2: { injection Hp as <- <-. split; [by rewrite (list_same _ _ _ _ _ E2)|by eapply list_never_missing]. }
  pose proof (list_same _ _ _ _ _ E2) as Hs2. apply list_found in E2. rewrite Hs1 in E2. injection Hp as <- <-.
  split; [by rewrite Hs2|]. rewrite E2. unfold CosClient.up_to. rewrite (proj2 (Z.ltb_lt 0 (maxEntries + 1))) by lia.
  set (l := listing (objects b) (child_prefix path)) in *.
  destruct (filter _ (take _ l)) as [|x xs] eqn:Ef.
  - intros (y & Hy & Hyp)%has_child_nonempty. fold l in Hy.
    assert (Forall (fun o => pending (Key o) = true) l) as Hall.
    { eapply all_taken with (n := Z.to_nat (maxEntries + 1)); [unfold pending_under in Hpend; fold l in Hpend; lia|].
      apply Forall_forall. intros z Hz. destruct (pending (Key z)) eqn:Ez; [done|]. exfalso.
      assert (z ∈ filter (fun o => pending (Key o) = false) (take (Z.to_nat (maxEntries + 1)) l)) as Hin
        by (by apply list_elem_of_filter). rewrite Ef in Hin. by apply elem_of_nil in Hin. }
    rewrite Forall_forall in Hall. by rewrite Hall in Hyp.
  - assert (x ∈ filter (fun o => pending (Key o) = false) (take (Z.to_nat (maxEntries + 1)) l)) as Hx by (rewrite Ef; set_solver).
    apply list_elem_of_filter in Hx as [Hx1 Hx2]. eapply has_child_listing; [|done]. fold l.
    rewrite <-(take_drop (Z.to_nat (maxEntries + 1)) l). apply elem_of_app. by left.
Qed.

Lemma probe_spec path b b' v :
  probe startup meta_order pendingDelete maxEntries path b = (b', v) ->
  0 <= maxEntries -> pending_under (objects b) path <= maxEntries ->
  objects b' = objects b /\
  match v with
  | Found info => describes (objects b) path info
  | Absent => ~ exists_in (objects b) path
  | Unknown e => CosClient.Is_NotExist e = false
  end.
Proof.
  intros Hp Hmax Hpend. unfold probe in Hp.
  destruct (HeadObject b (object_key path)) as [b1 file] eqn:E1.
  destruct (HeadObject b1 (Paths.ToDirectoryKey (object_key path))) as [b2 dir] eqn:E2.
  pose proof (head_same _ _ _ _ E1) as Hs1. pose proof (head_same _ _ _ _ E2) as Hs2. rewrite Hs1 in Hs2.
  destruct file as [m|e1].
  { apply head_found in E1 as (o & Ho & ->). destruct dir; injection Hp as <- <-; (split; [done|]); left; by exists o. }
  destruct dir as [m|e2].
  { apply head_found in E2 as (o & Ho & ->). injection Hp as <- <-. split; [done|]. right; left. exists o.
    by rewrite <-Hs1. }
  destruct (probe_children _ _ _ b2) as [b3 ch] eqn:E3. injection Hp as <- <-.
  apply probe_children_spec in E3 as [Hs3 Hch]; [|done|by rewrite Hs2]. rewrite Hs2 in Hs3, Hch.
  split; [done|]. unfold conclude. destruct ch as [[|o os]|e3].
  - unfold track. destruct (CosClient.Is_NotExist e1) eqn:N1; [|done].
    destruct (CosClient.Is_NotExist e2) eqn:N2; [|done].
    pose proof (head_missing _ _ _ _ E1 N1) as M1. pose proof (head_missing _ _ _ _ E2 N2) as M2. rewrite Hs1 in M2.
    intros [[x Hx]|[[x Hx]|Hc]]; [congruence|congruence|done].
  - right; right. by split.
  - unfold track. by destruct (CosClient.Is_NotExist e1) eqn:?, (CosClient.Is_NotExist e2) eqn:?; rewrite ?Hch.
Qed.

(** Whether a cached listing of the parent, however old, answers the lookup. *)
Definition parent_listing (c : MetadataCache) (path : string) : option (list FileInfo) :=
  GetStale c (Paths.GetParentPath (Paths.NormalizePath path)) ≫= e_ChildEntries.

Lemma no_entry_Get c path now c' r :
  wf c -> (forall e, ~ holds c path e) -> MetadataCache.Get c path now = (c', r) ->
  r = None /\ wf c' /\ (forall p e, holds c' p e -> holds c p e).
Proof.
  intros W Hno Hg. destruct (Get_holds c path now c' r W Hg) as (W' & Hin & Hr). split; [|done].
  destruct r as [e|]; [|done]. by destruct (Hno e (Hr e eq_refl)).
Qed.

(** C25. A lookup of a path below the root that the cache holds no entry for, with
    no more pending deletes under it than the limit on entries, changes nothing in
    the bucket. It reports what is there, the object, the directory marker, or
    that something is under the path, or else an entry of a cached listing of the
    parent; and it reports absence only when none of those is there or a cached
    listing of the parent does not have the name. The cached listing may be out of
    date; without one an outage is not reported as absence. *)
Theorem stat_reports_bucket (h h' : OperationsHandler) (path : string) (now : Time) (r : FileInfo + goerr)
    (W : wf (mcache h)) (Hmiss : forall e, ~ holds (mcache h) path e) (Hroot : Paths.NormalizePath path <> "/")
    (Hmax : 0 <= maxEntries) (Hpend : pending_under (objects (cos h)) path <= maxEntries)
    (Hstat : Stat path now h = (h', r)) :
  objects (cos h') = objects (cos h) /\
  match r with
  | inl info => describes (objects (cos h)) path info \/
      exists entries, parent_listing (mcache h') path = Some entries /\ info ∈ entries
  | inr e => CosClient.Is_NotExist e = true ->
      ~ exists_in (objects (cos h)) path \/
      (exists entries, parent_listing (mcache h') path = Some entries /\ Paths.GetBaseName path ∉ name <$> entries)
  end.
Proof.
  unfold Namespace.Stat in Hstat. destruct (MetadataCache.Get (mcache h) path now) as [c cached] eqn:Hg.
  destruct (no_entry_Get _ _ _ _ _ W Hmiss Hg) as (-> & W' & Hin). cbn [stat_cached] in Hstat.
  rewrite bool_decide_false in Hstat by done.
  destruct (begin _ _) as [f g]. destruct (probe _ _ _ _ path _) as [b v] eqn:Hp.
  apply probe_spec in Hp as [Hs Hv]; [|done|done]. unfold stat_end in Hstat. cbn [lookups set_cos set_lookups] in Hstat.
  destruct (end_ f _ g) as [f' current]. destruct v as [info| |e].
  - injection Hstat as <- <-. split; [by destruct current|]. by left.
  - injection Hstat as <- <-. split; [by destruct current|]. by left.
  - injection Hstat as <- <-. split; [done|]. unfold stat_stale, parent_listing. simpl.
    destruct (GetStale c path) as [x|] eqn:Hst.
    { exfalso. apply (Hmiss x), Hin. by apply GetStale_holds. }
    destruct (GetStale c (Paths.GetParentPath (Paths.NormalizePath path)) ≫= e_ChildEntries) as [entries|].
    + destruct (List.find _ entries) as [i|] eqn:Hf.
      * right. exists entries. split; [done|]. apply List.find_some in Hf as [Hi _]. by apply list_elem_of_In.
      * intros _. right. exists entries. split; [done|]. intros (i & Hn & Hi)%list_elem_of_fmap.
        eapply List.find_none in Hf; [|by apply list_elem_of_In]. by apply bool_decide_eq_false in Hf.
    + simpl. by rewrite Hv.
Qed.

(** Dropping the listings of a path's ancestors only empties the cache. *)
Lemma ancestors_loop_spec fuel : forall dir h, wf (mcache h) ->
  let h' := ancestors_loop fuel dir h in
  cos h' = cos h /\ lookups h' = lookups h /\ wf (mcache h') /\ (forall p e, holds (mcache h') p e -> holds (mcache h) p e).
Proof.
  induction fuel as [|fuel IH]; intros dir h W; destruct (Delete_holds (mcache h) dir W) as [W1 H1]; simpl.
  - split_and!; [done|done|done|]. intros p e Hp. by apply H1.
  - destruct (_ || _); [split_and!; [done|done|done|]; intros p e Hp; by apply H1|].
    destruct (IH (Paths.GetParentPath dir) (set_listings (invalidate (listings (drop_cached dir h)) dir) (drop_cached dir h)) W1)
      as (Hc & Hl & W2 & H2). split_and!; [exact Hc|exact Hl|exact W2|]. intros p e Hp. by apply H1, H2.
Qed.

End Lookup.

#[local] Existing Instance MemoryBucket.memory_bucket.
#[local] Existing Instance MemoryBucket.memory_laws.

(** A data cache that only records what is invalidated. *)
#[export] Instance recorded : DataInvalidation := {|
  data_state := list string;
  DeleteObjectData d p := d ++ [p];
  DeleteObjectPrefixData d p := d ++ [p +:+ "/"]
|}.

(** A gateway that has just started on a bucket whose calls end as [answers]
    says. *)
Definition started (objs : gmap string stored) (answers : list (option bool)) : OperationsHandler :=
  mkHandler (MemoryBucket.mkState objs 0 answers) (NewMetadataCache (Some (true, 100, Minute))) ∅ ∅ (Some []).

Definition sample_objects : gmap string stored :=
  {[ "a/b/c" := mkStored [Byte.x01] ∅ 5 "1"; "d/" := mkStored [] ∅ 6 "2" ]}.

Lemma started_holds objs answers path e : ~ holds (mcache (started objs answers)) path e.
Proof. intros (_ & ent & Hent & _). by apply elem_of_nil in Hent. Qed.

Lemma stat_reports_bucket_witness :
  let h := started sample_objects [] in
  let r := Namespace.Stat (TT := decimal_times) 9 map_to_list (fun _ => false) 10 "/a/b" 100 h in
  r.2 = inl (implicit_info 9 "/a/b") /\
  objects (cos r.1) = sample_objects /\
  (describes (TT := decimal_times) 9 map_to_list (fun _ => false) sample_objects "/a/b" (implicit_info 9 "/a/b") \/
   exists entries, parent_listing (mcache r.1) "/a/b" = Some entries /\ implicit_info 9 "/a/b" ∈ entries).
Proof.
  intros h r. assert (Hr : r.2 = inl (implicit_info 9 "/a/b")) by (by vm_compute). split; [done|].
  pose proof (stat_reports_bucket (TT := decimal_times) 9 map_to_list (fun _ => false) 10 h r.1 "/a/b" 100 r.2) as Ht.
  rewrite Hr in Ht. apply Ht; [apply LRU.wf_new|apply started_holds|done|done|by vm_compute|].
  rewrite <-Hr. apply surjective_pairing.
Defined.

(** An outage is reported as one, and not as absence. *)
Example outage_is_not_absence :
  (Namespace.Stat (TT := decimal_times) 9 map_to_list (fun _ => false) 10 "/x" 100
     (started sample_objects [None; None; Some false])).2 =
  inr (Wrap "object store unreachable for /x" MemoryBucket.broken).
Proof. by vm_compute. Qed.

End NamespaceLookup.
