(* ===== verification/NamespaceRename.v ===== *)
(** * Renames in the bucket ([RenameFile], [renameDirectory], [forEachKey] in
      [internal/posix/operations.go])

    A bucket has no rename: objects are copied and then deleted, several at a
    time.  [forEachKey] is run with every order in which its calls can end. *)
From S2P Require Import Prelude GoPath StagingTypes LRU ListingFence Streams Paths CosClient Attributes MetadataCache Bucket Namespace NamespaceLookup.
Import Attributes ListingFence MetadataCache Namespace NamespaceLookup.

(** ** [forEachKey] *)
Module ForEach.

Section ForEach.
(** [limit] calls run at once; a call ends with whether it did anything and an
    error. *)
Context {S_ : Type} (limit : nat) (fn : S_ -> string -> S_ * (bool * option goerr)).

(** Where the loop is: the keys to come, the key that passed the check for a
    failure and waits in [group.Go] for a free slot, the calls under way, and
    the shared counters. *)
Record progress := mkProgress {
  todo : list string;
  waiting : option string;
  running : list string;
  done_ : Z;
  failure : option (string * goerr)
}.

(** A step of the loop, when it is not held up. *)
Definition advance (p : progress) : option progress :=
  match waiting p with
  | Some k =>
      if (length (running p) <? limit)%nat
      then Some (mkProgress (todo p) None (running p ++ [k]) (done_ p) (failure p)) else None
  | None =>
      match todo p with
      | [] => None
      | k :: rest =>
          match failure p with
          | Some _ => Some (mkProgress [] None (running p) (done_ p) (failure p))
          | None => Some (mkProgress rest (Some k) (running p) (done_ p) None)
          end
      end
  end.

(** The call under way at [i] takes effect and ends. *)
Definition finish (i : nat) (s : S_) (p : progress) : S_ * progress :=
  match running p !! i with
  | None => (s, p)
  | Some k =>
      let '(s, (did, err)) := fn s k in
      (s, mkProgress (todo p) (waiting p) (delete i (running p))
            (match err with None => if did then done_ p + 1 else done_ p | Some _ => done_ p end)
            (match failure p, err with None, Some e => Some (k, e) | f, _ => f end))
  end.

(** [choices] decides at every step between the loop and the calls under way. *)
Fixpoint each_loop (fuel : nat) (choices : nat -> nat) (s : S_) (p : progress) : S_ * progress :=
  match fuel with
  | O => (s, p)
  | S fuel =>
      let c := choices fuel in
      match advance p, running p with
      | Some p', [] => each_loop fuel choices s p'
      | Some p', _ =>
          match c with
          | O => each_loop fuel choices s p'
          | S c => let '(s, p) := finish (c mod length (running p)) s p in each_loop fuel choices s p
          end
      | None, [] => (s, p)
      | None, _ => let '(s, p) := finish (c mod length (running p)) s p in each_loop fuel choices s p
      end
  end.

(** Every key takes at most three steps. *)
Definition forEachKey (choices : nat -> nat) (keys : list string) (s : S_) : S_ * Z * option (string * goerr) :=
  let '(s, p) := each_loop (3 * length keys) choices s (mkProgress keys None [] 0 None) in
  (s, done_ p, failure p).

(** ** What it comes to *)

(** The calls on [ex], one after the other, and whether one failed. *)
Fixpoint run (s : S_) (ex : list string) : S_ * bool :=
  match ex with
  | [] => (s, false)
  | k :: ex =>
      let '(s, (_, err)) := fn s k in
      let '(s, failed) := run s ex in
      (s, bool_decide (is_Some err) || failed)
  end.

Lemma run_snoc ex k : forall s, run s (ex ++ [k]) =
  let '(s1, f) := run s ex in let '(s2, (_, err)) := fn s1 k in (s2, f || bool_decide (is_Some err)).
Proof.
  induction ex as [|x ex IH]; intros s; simpl.
  - destruct (fn s k) as [s2 [d e]]. by rewrite orb_false_r.
  - destruct (fn s x) as [s1 [d e]]. rewrite IH. destruct (run s1 ex) as [s2 f]. destruct (fn s2 k) as [s3 [d' e']].
    by rewrite orb_assoc.
Qed.

(** Steps left. *)
Definition steps (p : progress) : nat :=
  (3 * length (todo p) + match waiting p with Some _ => 2 | None => 0 end + length (running p))%nat.

(** After the calls on [ex]: the rest is to come, or was given up after a failure. *)
Definition reached (keys : list string) (s0 : S_) (s : S_) (p : progress) : Prop :=
  exists ex dropped, ex ++ running p ++ option_list (waiting p) ++ todo p ++ dropped ≡ₚ keys /\
    run s0 ex = (s, bool_decide (is_Some (failure p))) /\
    (forall k e, failure p = Some (k, e) -> k ∈ ex) /\ (failure p = None -> dropped = []).

Lemma advance_reached keys s0 s p p' :
  reached keys s0 s p -> advance p = Some p' -> reached keys s0 s p' /\ (steps p' < steps p)%nat.
Proof.
  intros (ex & dr & Hp & Hr & Hk & Hd) Ha. unfold advance in Ha. unfold steps, reached.
  destruct (waiting p) as [k|] eqn:Ew.
  - destruct (length (running p) <? limit)%nat; [|done]. injection Ha as <-. simpl. rewrite length_app. simpl.
    split; [|lia]. exists ex, dr. split_and!; try done. simpl in Hp. rewrite <-Hp. by rewrite <-app_assoc.
  - destruct (todo p) as [|k rest] eqn:Et; [done|]. destruct (failure p) as [f|] eqn:Ef; injection Ha as <-; simpl; (split; [|lia]).
    + exists ex, ((k :: rest) ++ dr). by split_and!.
    + exists ex, dr. by split_and!.
Qed.

Lemma finish_reached keys s0 s p i :
  reached keys s0 s p -> (i < length (running p))%nat ->
  let '(s', p') := finish i s p in reached keys s0 s' p' /\ (steps p' < steps p)%nat.
Proof.
  intros (ex & dr & Hp & Hr & Hk & Hd) Hi. unfold finish. destruct (lookup_lt_is_Some_2 _ _ Hi) as [k Ek]. rewrite Ek.
  destruct (fn s k) as [s' [did err]] eqn:Ef. unfold steps, reached. simpl.
  pose proof (delete_Permutation _ _ _ Ek) as Hrun.
  split.
  2: { pose proof (length_delete (running p) i (ex_intro _ k Ek)) as Hl. lia. }
  exists (ex ++ [k]), dr. split; [|split_and!].
  - rewrite <-app_assoc. simpl. rewrite <-Hp. rewrite Hrun at 2. done.
  - rewrite run_snoc, Hr, Ef. f_equal. destruct (failure p) as [[]|], err; done.
  - intros k' e'. destruct (failure p) as [[k0 e0]|] eqn:Ep; [intros [= -> ->]; apply elem_of_app; left; by eapply Hk|].
    destruct err; [intros [= <- _]|done]. set_solver.
  - destruct (failure p); [done|]. by destruct err.
Qed.

Lemma each_loop_ends keys s0 fuel choices : forall s p,
  (0 < limit)%nat -> reached keys s0 s p -> (steps p <= fuel)%nat ->
  let '(s', p') := each_loop fuel choices s p in
  reached keys s0 s' p' /\ todo p' = [] /\ waiting p' = None /\ running p' = [].
Proof.
  induction fuel as [|fuel IH]; intros s p Hlim Hp Hs; simpl.
  { split; [done|]. unfold steps in Hs. destruct (todo p), (waiting p), (running p); simpl in Hs; (done || lia). }
  assert (Hfin : forall c, running p <> [] ->
    let '(s', p') := (let '(s, p) := finish (c mod length (running p)) s p in each_loop fuel choices s p) in
    reached keys s0 s' p' /\ todo p' = [] /\ waiting p' = None /\ running p' = []).
  { intros c Hne. assert (length (running p) <> 0)%nat by (by destruct (running p)).
    pose proof (finish_reached keys s0 s p (c mod length (running p)) Hp ltac:(by apply Nat.mod_upper_bound)) as Hf.
    destruct (finish _ s p) as [s1 p1]. destruct Hf as [Hf1 Hf2]. apply IH; [done|done|lia]. }
  destruct (advance p) as [p'|] eqn:Ha.
  - destruct (advance_reached _ _ _ _ _ Hp Ha) as [Hp' Hst].
    destruct (running p) eqn:Er; [apply IH; [done|done|lia]|]. rewrite <-Er in *.
    destruct (choices fuel); [apply IH; [done|done|lia]|]. apply Hfin. by rewrite Er.
  - destruct (running p) eqn:Er.
    + split; [done|]. unfold advance in Ha. rewrite Er in Ha. destruct (waiting p); simpl in Ha.
      * destruct limit; [lia|done].
      * destruct (todo p) eqn:Et; [done|]. by destruct (failure p).
    + rewrite <-Er in *. apply Hfin. by rewrite Er.
Qed.

(** [forEachKey] always ends; it made the calls on some of the keys in some
    order, on all of them if none failed, and it reports a failure exactly if a
    call failed. *)
Lemma forEachKey_spec choices keys s :
  (0 < limit)%nat ->
  let '(s', _, failed) := forEachKey choices keys s in
  exists ex rest, ex ++ rest ≡ₚ keys /\ run s ex = (s', bool_decide (is_Some failed)) /\
    (failed = None -> rest = []) /\ (forall k e, failed = Some (k, e) -> k ∈ ex).
Proof.
  intros Hlim. unfold forEachKey.
  assert (reached keys s s (mkProgress keys None [] 0 None)) as H0.
  { exists [], []. simpl. rewrite app_nil_r. split_and!; done. }
  pose proof (each_loop_ends keys s (3 * length keys) choices s _ Hlim H0) as H.
  destruct (each_loop _ choices s _) as [s' p']. destruct H as ((ex & dr & Hp & Hr & Hk & Hd) & Ht & Hw & Hru).
  { unfold steps. simpl. lia. }
  rewrite Ht, Hw, Hru in Hp. simpl in Hp. exists ex, dr. by split_and!.
Qed.

End ForEach.

(** A key that waits for a free slot when another fails is still processed. *)
Example started_after_failure :
  let fn (s : list string) k := (s ++ [k], (false, if decide (k = "a") then Some (Text "failed") else None)) in
  forEachKey 1 fn (fun i => if decide (i = 2)%nat then 1%nat else 0%nat) ["a"; "b"] [] = (["a"; "b"], 0, Some ("a", Text "failed")).
Proof. by vm_compute. Qed.

End ForEach.

Module NamespaceRename.

Section Rename.
Context `{BS : BucketStore} {TT : TimeText} {DI : DataInvalidation}.
Context (startup : Time) (meta_order : gmap string string -> list (string * string))
  (key_order : list string -> list string) (pendingDelete : string -> bool) (maxEntries : Z)
  (maxConcurrentWrites : nat).

Abbreviation pending := (isPendingDelete pendingDelete).
Abbreviation Stat := (Namespace.Stat startup meta_order pendingDelete maxEntries).

(** The copy of one object of a directory. *)
Definition copy_key (oldPrefix newPrefix : string) (b : bucket) (key : string) : bucket * (bool * option goerr) :=
  if pending key then (b, (false, None))
  else
    match CopyObject b key (newPrefix +:+ TrimPrefix key oldPrefix) None with
    | (b, None) => (b, (true, None))
    | (b, Some e) => if CosClient.Is_NotExist e then (b, (false, None)) else (b, (false, Some e))
    end.

Definition delete_key (b : bucket) (key : string) : bucket * (bool * option goerr) :=
  match DeleteObject b key with
  | (b, None) => (b, (true, None))
  | (b, Some e) => (b, (false, Some e))
  end.

(** [renameDirectory] from the listing on; [order1] and [order2] are the orders in
    which the copies and the deletes end. *)
Definition move_objects (oldPrefix newPrefix : string) (order1 order2 : nat -> nat) (b : bucket) : bucket * option goerr :=
  match ListObjects b oldPrefix 0 with
  | (b, inr e) => (b, Some e)
  | (b, inl []) => (b, Some ErrNotExist)
  | (b, inl objs) =>
      let sources := filter (fun k => HasPrefix k oldPrefix = true) (Key <$> objs) in
      match ForEach.forEachKey maxConcurrentWrites (copy_key oldPrefix newPrefix) order1 sources b with
      | (b, _, Some (_, e)) => (b, Some (Wrap "directory rename: copy failed" e))
      | (b, _, None) =>
          match ForEach.forEachKey maxConcurrentWrites delete_key order2 sources b with
          | (b, _, Some (_, e)) => (b, Some (Wrap "directory rename: delete failed" e))
          | (b, _, None) => (b, None)
          end
      end
  end.

Definition renameDirectory (oldPath newPath : string) (now : Time) (order1 order2 : nat -> nat) (h : OperationsHandler)
    : OperationsHandler * option goerr :=
  if bool_decide (oldPath = "/") then (h, Some (Text "cannot rename root directory"))
  else if Paths.IsDescendant oldPath newPath then (h, Some (Text "cannot rename directory into its own subtree"))
  else
    match Stat newPath now h with
    | (h, inl _) => (h, Some (Text "cannot rename directory to existing path"))
    | (h, inr e) =>
        match e with
        | ErrNotExist =>
            let '(b, r) := move_objects (Paths.ListPrefix oldPath) (Paths.ListPrefix newPath) order1 order2 (cos h) in
            (invalidateRenameMutation key_order oldPath newPath true (set_cos b h), r)
        | _ => (h, Some e)
        end
    end.

(** The copy and the delete of a file's rename. *)
Definition move_file (oldKey newKey : string) (b : bucket) : bucket * option goerr :=
  match CopyObject b oldKey newKey None with
  | (b, Some e) => (b, Some e)
  | (b, None) =>
      match DeleteObject b oldKey with
      | (b, Some e) => (b, Some (Wrap "rename copied but failed to delete source; both objects may exist" e))
      | (b, None) => (b, None)
      end
  end.

Definition RenameFile (oldPath newPath : string) (now : Time) (order1 order2 : nat -> nat) (h : OperationsHandler)
    : OperationsHandler * option goerr :=
  let oldPath := Paths.NormalizePath oldPath in
  let newPath := Paths.NormalizePath newPath in
  if bool_decide (oldPath = newPath) then (h, None)
  else
    match Stat oldPath now h with
    | (h, inr e) => (h, Some e)
    | (h, inl info) =>
        if isDir info then renameDirectory oldPath newPath now order1 order2 h
        else
          let '(b, r) := move_file (object_key oldPath) (object_key newPath) (cos h) in
          (invalidateRenameMutation key_order oldPath newPath false (set_cos b h), r)
    end.

(** ** Nothing is lost *)

Context {BL : BucketLaws}.

Lemma probe_objects path b : objects (probe startup meta_order pendingDelete maxEntries path b).1 = objects b.
Proof.
  unfold probe. destruct (HeadObject b _) as [b1 file] eqn:E1. destruct (HeadObject b1 _) as [b2 dir] eqn:E2.
  apply head_same in E1, E2. pose proof (probe_children_objects pendingDelete maxEntries (object_key path) b2) as E3.
  destruct (probe_children _ _ _ b2) as [b3 ch]. destruct file, dir; simpl in *; congruence.
Qed.

Lemma Stat_objects path now h h' r : Stat path now h = (h', r) -> objects (cos h') = objects (cos h).
Proof.
  unfold Namespace.Stat. destruct (MetadataCache.Get _ _ _) as [c cached]. destruct (stat_cached _ _ _ _); [by intros [= <- _]|].
  case_bool_decide; [by intros [= <- _]|]. destruct (begin _ _) as [f g].
  pose proof (probe_objects path (cos (set_lookups f (set_mcache c h)))) as Hp.
  destruct (probe _ _ _ _ path _) as [b v]. unfold stat_end. cbn [lookups set_cos set_lookups set_mcache].
  destruct (end_ f _ g) as [f' current]. destruct v; intros [= <- _]; try destruct current; exact Hp.
Qed.

Lemma ancestors_loop_cos fuel : forall dir h, cos (ancestors_loop fuel dir h) = cos h.
Proof. induction fuel as [|fuel IH]; intros dir h; simpl; [done|]. destruct (_ || _); [done|]. by rewrite IH. Qed.

Lemma invalidateFile_cos path h : cos (invalidateFileMutation path h) = cos h.
Proof. unfold invalidateFileMutation, invalidateObjectPath. exact (ancestors_loop_cos _ _ _). Qed.

Lemma invalidateDirectory_cos path h : cos (invalidateDirectoryMutation key_order path h) = cos h.
Proof. unfold invalidateDirectoryMutation. exact (ancestors_loop_cos _ _ _). Qed.

Lemma run_deletes ex : forall b b' f,
  ForEach.run delete_key b ex = (b', f) ->
  (forall k, k ∉ ex -> objects b' !! k = objects b !! k) /\
  (forall k, objects b' !! k = objects b !! k \/ objects b' !! k = None) /\
  (f = false -> forall k, k ∈ ex -> objects b' !! k = None).
Proof.
  induction ex as [|k ex IH]; intros b b' f Hr; simpl in Hr.
  { injection Hr as <- <-. split_and!; [done|by left|]. intros _ k Hk. by apply elem_of_nil in Hk. }
  unfold delete_key in Hr at 1. destruct (DeleteObject b k) as [b1 r] eqn:Ed.
  assert (Hone : (forall x, x <> k -> objects b1 !! x = objects b !! x) /\
    (objects b1 !! k = objects b !! k \/ objects b1 !! k = None) /\ (r = None -> objects b1 !! k = None)).
  { destruct (delete_effect _ _ _ _ Ed) as [-> |[[e ->] ->]]; [|by split_and!; auto].
    split_and!; [intros; by rewrite lookup_delete_ne|right; apply lookup_delete_eq|intros _; apply lookup_delete_eq]. }
  destruct Hone as (Ho1 & Ho2 & Ho3).
  assert (exists b2 f2, ForEach.run delete_key b1 ex = (b2, f2) /\ b' = b2 /\ f = bool_decide (is_Some r) || f2)
    as (b2 & f2 & Er & -> & ->).
  { destruct r; destruct (ForEach.run delete_key b1 ex) as [b2 f2]; injection Hr as <- <-; by eexists _, _. }
  destruct (IH b1 b2 f2 Er) as (H1 & H2 & H3). split_and!.
  - intros x Hx. rewrite H1, Ho1; set_solver.
  - intros x. destruct (decide (x = k)) as [->|Hne]; [|rewrite <-(Ho1 x Hne); apply H2].
    destruct (H2 k) as [Hx|Hx]; [rewrite Hx; done|by right].
  - destruct r; simpl; [done|]. intros Hf x [->|Hx]%elem_of_cons; [|by apply H3].
    destruct (H2 k) as [Hx|Hx]; [rewrite Hx; by apply Ho3|done].
Qed.

Section Move.
Context (O N : string).
(** No key is under both prefixes. *)
Context (Hdisjoint : forall k, HasPrefix k O = true -> HasPrefix k N = true -> False).

Definition renamed (k : string) : string := N +:+ TrimPrefix k O.

Lemma renamed_inj k1 k2 : HasPrefix k1 O = true -> HasPrefix k2 O = true -> renamed k1 = renamed k2 -> k1 = k2.
Proof.
  intros [r1 ->]%HasPrefix_spec [r2 ->]%HasPrefix_spec. unfold renamed. rewrite !TrimPrefix_app.
  intros Heq. apply string_app_inj in Heq. by subst.
Qed.

Lemma renamed_under k : HasPrefix (renamed k) N = true.
Proof. apply HasPrefix_app. Qed.

(** Outside the new prefix nothing changed, and what is under it are copies. *)
Definition sound (objs0 objs : gmap string stored) : Prop :=
  (forall k, HasPrefix k N = false -> objs !! k = objs0 !! k) /\
  (forall k o', HasPrefix k N = true -> objs !! k = Some o' ->
     exists src o, HasPrefix src O = true /\ k = renamed src /\ objs0 !! src = Some o /\ pending src = false /\ copy_of o None o').

(** The objects of [l] that are not on their way out have been copied. *)
Definition present (objs0 objs : gmap string stored) (l : list string) : Prop :=
  forall src o, src ∈ l -> pending src = false -> objs0 !! src = Some o ->
    exists o', objs !! renamed src = Some o' /\ copy_of o None o'.

Lemma copy_key_spec objs0 l b k b' d err :
  plain_key k = true -> copy_key O N b k = (b', (d, err)) -> HasPrefix k O = true -> (forall x, x ∈ l -> HasPrefix x O = true) ->
  sound objs0 (objects b) -> present objs0 (objects b) l ->
  sound objs0 (objects b') /\ present objs0 (objects b') l /\ (err = None -> present objs0 (objects b') (l ++ [k])).
Proof.
  intros Hplain Hc Hk Hl [Hs1 Hs2] Hp. unfold copy_key in Hc.
  assert (Hsnoc : forall objs, present objs0 objs l -> (pending k = true \/ objs0 !! k = None \/
    exists o o', objs0 !! k = Some o /\ objs !! renamed k = Some o' /\ copy_of o None o') -> present objs0 objs (l ++ [k])).
  { intros objs Hobjs Hk' src o [Hin| ->%list_elem_of_singleton]%elem_of_app Hpend Ho; [by eapply Hobjs|].
    destruct Hk' as [?|[?|(o1 & o' & ? & ? & ?)]]; [congruence|congruence|]. exists o'. by simplify_eq. }
  destruct (pending k) eqn:Epend.
  { injection Hc as <- _ <-. split_and!; [done|done|]. intros _. apply Hsnoc; [done|by left]. }
  fold (renamed k) in Hc. destruct (CopyObject b k (renamed k) None) as [b1 r] eqn:Ec.
  assert (Hk0 : objects b !! k = objs0 !! k).
  { apply Hs1. destruct (HasPrefix k N) eqn:E; [by destruct (Hdisjoint k)|done]. }
  assert (Hb : sound objs0 (objects b1) /\ present objs0 (objects b1) l /\
    (r = None -> exists o o', objs0 !! k = Some o /\ objects b1 !! renamed k = Some o' /\ copy_of o None o')).
  { destruct (copy_effect _ _ _ _ _ _ Hplain Ec) as [(src & o & Hsrc & Hcp & Hb)|[[e ->] Hb]]; rewrite Hb; [|by split_and!].
    rewrite Hk0 in Hsrc. split; [split|split].
    - intros x Hx. rewrite lookup_insert_ne; [by apply Hs1|]. intros <-. by rewrite renamed_under in Hx.
    - intros x o' Hx [[<- <-]|[_ Ho']]%lookup_insert_Some; [|by eapply Hs2]. exists k, src. by split_and!.
    - intros s o0 Hin Hpend Ho. destruct (decide (s = k)) as [->|Hne].
      + exists o. rewrite lookup_insert_eq. by simplify_eq.
      + destruct (Hp s o0 Hin Hpend Ho) as (o' & Ho' & Hcp'). exists o'. split; [|done].
        rewrite lookup_insert_ne; [done|]. intros Heq. apply Hne. symmetry. apply renamed_inj; [done|by apply Hl|done].
    - intros _. exists src, o. rewrite lookup_insert_eq. by split_and!. }
  destruct Hb as (Hb1 & Hb2 & Hb3). destruct r as [e|].
  - destruct (CosClient.Is_NotExist e) eqn:Ene; injection Hc as <- _ <-; (split_and!; try done).
    intros _. apply Hsnoc; [done|]. right; left. rewrite <-Hk0. by apply (copy_missing _ _ _ _ _ _ Hplain Ec).
  - injection Hc as <- _ <-. split_and!; try done. intros _. apply Hsnoc; [done|]. right; right. by apply Hb3.
Qed.

Lemma run_copies objs0 ex : forall l b b' f,
  (forall k, k ∈ l ++ ex -> HasPrefix k O = true) -> (forall k, k ∈ ex -> plain_key k = true) -> sound objs0 (objects b) -> present objs0 (objects b) l ->
  ForEach.run (copy_key O N) b ex = (b', f) ->
  sound objs0 (objects b') /\ (f = false -> present objs0 (objects b') (l ++ ex)).
Proof.
  induction ex as [|k ex IH]; intros l b b' f Hall Hplain Hs Hp Hr; simpl in Hr.
  { injection Hr as <- <-. split; [done|]. intros _. by rewrite app_nil_r. }
  assert (plain_key k = true) as Hk by (apply Hplain; set_solver).
  destruct (copy_key O N b k) as [b1 [d err]] eqn:Ec.
  destruct (copy_key_spec objs0 l b k b1 d err Hk Ec) as (Hs1 & Hp1 & Hp2); [apply Hall; set_solver|intros; apply Hall; set_solver|done|done|].
  destruct (ForEach.run _ b1 ex) as [b2 f2] eqn:Er. injection Hr as <- <-. destruct err as [e|].
  - destruct (IH l b1 b2 f2) as [Hs2 _]; [intros; apply Hall; set_solver|intros; apply Hplain; set_solver|done|done|done|]. split; [done|]. done.
  - destruct (IH (l ++ [k]) b1 b2 f2) as [Hs2 Hp3]; [intros x Hx; apply Hall; set_solver|intros; apply Hplain; set_solver|done|by apply Hp2|done|].
    split; [done|]. simpl. intros Hf. rewrite <-app_assoc in Hp3. by apply Hp3.
Qed.

End Move.

Lemma prefixes_comparable k : forall a b, HasPrefix k a = true -> HasPrefix k b = true ->
  HasPrefix a b = true \/ HasPrefix b a = true.
Proof.
  induction k as [|c k IH]; intros a b [ra Ha]%HasPrefix_spec [rb Hb]%HasPrefix_spec.
  - destruct a; [|done]. destruct b; [by left|done].
  - destruct a as [|ca a]; [right; by destruct b|]. destruct b as [|cb b]; [by left|].
    simpl in Ha, Hb. injection Ha as <- Ha. injection Hb as <- Hb.
    destruct (IH a b) as [H|H]; [apply HasPrefix_spec; by exists ra|apply HasPrefix_spec; by exists rb| |].
    + left. apply HasPrefix_spec in H as [r ->]. apply HasPrefix_spec. by exists r.
    + right. apply HasPrefix_spec in H as [r ->]. apply HasPrefix_spec. by exists r.
Qed.

Lemma copy_of_refl o : copy_of o None o.
Proof. done. Qed.

(** The object [o] of [k] is still there, under [k] or under its new name. *)
Definition kept (rename : string -> string) (objs : gmap string stored) (k : string) (o : stored) : Prop :=
  exists o', copy_of o None o' /\ (objs !! k = Some o' \/ objs !! rename k = Some o').

(** The subtree under [O] is now under [N]. *)
Definition moved (O N : string) (objs0 objs : gmap string stored) : Prop :=
  (forall k, HasPrefix k O = true -> objs !! k = None) /\
  (forall k, HasPrefix k O = false -> HasPrefix k N = false -> objs !! k = objs0 !! k) /\
  (forall k o', HasPrefix k N = true -> objs !! k = Some o' ->
     exists src o, HasPrefix src O = true /\ k = renamed O N src /\ objs0 !! src = Some o /\ copy_of o None o').

Definition sources (O : string) (objs : list ObjectMetadata) : list string :=
  filter (fun k => HasPrefix k O = true) (Key <$> objs).

Lemma elem_of_sources O objs k : k ∈ sources O (listing objs O) <-> HasPrefix k O = true /\ is_Some (objs !! k).
Proof.
  unfold sources. rewrite list_elem_of_filter, list_elem_of_fmap. split.
  - intros [Hk (x & -> & (k' & y & Hy & _ & ->)%elem_of_listing)]. simpl in *. split; [done|]. by exists y.
  - intros [Hk [y Hy]]. split; [done|]. exists (CosClient.listed (object_of k y)). split; [done|].
    apply elem_of_listing. by exists k, y.
Qed.

(** A prefix under which nothing is cannot lead to one under which something is. *)
Lemma prefixes_apart O N (objs : gmap string stored) o :
  HasPrefix N O = false -> (forall k, HasPrefix k N = true -> objs !! k = None) -> o ∈ listing objs O ->
  forall k, HasPrefix k O = true -> HasPrefix k N = true -> False.
Proof.
  intros HNO Hfresh Ho k H1 H2. destruct (prefixes_comparable k O N H1 H2) as [H3|H3]; [|congruence].
  apply elem_of_listing in Ho as (k0 & x & Hx & Hp & _). apply HasPrefix_spec in H3 as [r3 ->].
  apply HasPrefix_spec in Hp as [r4 ->]. rewrite Hfresh in Hx; [done|]. rewrite string_app_assoc. apply HasPrefix_app.
Qed.

(** The copies and the deletes of a rename, in whatever order they end. *)
Definition copy_all (O N : string) (order1 order2 : nat -> nat) (keys : list string) (b : bucket) : bucket * option goerr :=
  match ForEach.forEachKey maxConcurrentWrites (copy_key O N) order1 keys b with
  | (b, _, Some (_, e)) => (b, Some (Wrap "directory rename: copy failed" e))
  | (b, _, None) =>
      match ForEach.forEachKey maxConcurrentWrites delete_key order2 keys b with
      | (b, _, Some (_, e)) => (b, Some (Wrap "directory rename: delete failed" e))
      | (b, _, None) => (b, None)
      end
  end.

Lemma copy_all_spec O N order1 order2 keys b b' r :
  (0 < maxConcurrentWrites)%nat -> (forall k, k ∈ keys <-> HasPrefix k O = true /\ is_Some (objects b !! k)) ->
  (forall k, HasPrefix k O = true -> HasPrefix k N = true -> False) ->
  (forall k, HasPrefix k N = true -> objects b !! k = None) ->
  (forall k, HasPrefix k O = true -> is_Some (objects b !! k) -> plain_key k = true) ->
  copy_all O N order1 order2 keys b = (b', r) ->
  (forall k o, objects b !! k = Some o -> pending k = false -> kept (renamed O N) (objects b') k o) /\
  (r = None -> moved O N (objects b) (objects b')).
Proof.
  intros Hlim Hsrc Hdis Hfresh Hplain Hm. unfold copy_all in Hm.
  pose proof (ForEach.forEachKey_spec maxConcurrentWrites (copy_key O N) order1 keys b Hlim) as H1.
  destruct (ForEach.forEachKey _ (copy_key O N) order1 keys b) as [[b2 d1] f1].
  destruct H1 as (ex1 & rest1 & Hp1 & Hr1 & Hn1 & _).
  destruct (run_copies O N Hdis (objects b) ex1 [] b b2 (bool_decide (is_Some f1))) as [Hsound Hpres]; [| | | |done|].
  { intros k Hk. apply Hsrc. rewrite <-Hp1. set_solver. }
  { intros k Hk. assert (k ∈ keys) as [? ?]%Hsrc by (rewrite <-Hp1; set_solver). by apply Hplain. }
  { split; [done|]. intros k o' Hk Ho'. by rewrite Hfresh in Ho'. }
  { intros src o Hx. by apply elem_of_nil in Hx. }
  assert (Hold : forall k o, objects b !! k = Some o -> HasPrefix k N = false).
  { intros k o Ho. destruct (HasPrefix k N) eqn:E; [by rewrite Hfresh in Ho|done]. }
  destruct f1 as [[k1 e1]|].
  { injection Hm as <- <-. split; [|done]. intros k o Ho _. exists o. split; [done|]. left.
    rewrite (proj1 Hsound); [done|]. by eapply Hold. }
  specialize (Hpres eq_refl). rewrite (Hn1 eq_refl), app_nil_r in Hp1.
  pose proof (ForEach.forEachKey_spec maxConcurrentWrites delete_key order2 keys b2 Hlim) as H2.
  destruct (ForEach.forEachKey _ delete_key order2 keys b2) as [[b3 d2] f2].
  destruct H2 as (ex2 & rest2 & Hp2 & Hr2 & Hn2 & _). apply run_deletes in Hr2 as (Hd1 & Hd2 & Hd3).
  assert (b' = b3) as -> by (destruct f2 as [[]|]; by injection Hm).
  assert (Hout : forall k, HasPrefix k O = false -> objects b3 !! k = objects b2 !! k).
  { intros k Hk. apply Hd1. intros Hx. assert (k ∈ keys) as [Hy _]%Hsrc by (rewrite <-Hp2; set_solver). congruence. }
  assert (Hnew : forall k, HasPrefix k N = true -> objects b3 !! k = objects b2 !! k).
  { intros k Hk. apply Hout. destruct (HasPrefix k O) eqn:E; [by destruct (Hdis k)|done]. }
  split.
  - intros k o Ho Hpend. destruct (HasPrefix k O) eqn:Ek.
    + destruct (Hpres k o) as (o' & Ho' & Hcp); [rewrite app_nil_l, Hp1; apply Hsrc; by eauto|done|done|].
      exists o'. split; [done|]. right. rewrite Hnew by apply HasPrefix_app. done.
    + exists o. split; [done|]. left. rewrite Hout, (proj1 Hsound); [done|by eapply Hold|done].
  - intros ->. assert (f2 = None) as -> by (by destruct f2 as [[]|]).
    rewrite (Hn2 eq_refl), app_nil_r in Hp2. split_and!.
    + intros k Hk. destruct (decide (k ∈ ex2)) as [Hx|Hx]; [by apply Hd3|]. rewrite Hd1, (proj1 Hsound); [|..|done].
      * apply eq_None_not_Some. intros Hs. apply Hx. rewrite Hp2. by apply Hsrc.
      * destruct (HasPrefix k N) eqn:E; [by destruct (Hdis k)|done].
    + intros k Hk Hn. rewrite Hout by done. by apply (proj1 Hsound).
    + intros k o' Hk Ho'. rewrite Hnew in Ho' by done. destruct (proj2 Hsound k o' Hk Ho') as (src & o & ? & ? & ? & ? & ?).
      by exists src, o.
Qed.

Lemma move_objects_spec O N order1 order2 b b' r :
  (0 < maxConcurrentWrites)%nat -> HasPrefix N O = false ->
  (forall k, HasPrefix k N = true -> objects b !! k = None) ->
  (forall k, HasPrefix k O = true -> is_Some (objects b !! k) -> plain_key k = true) ->
  move_objects O N order1 order2 b = (b', r) ->
  (forall k o, objects b !! k = Some o -> pending k = false -> kept (renamed O N) (objects b') k o) /\
  (r = None -> moved O N (objects b) (objects b')).
Proof.
  intros Hlim HNO Hfresh Hplain Hm. unfold move_objects in Hm.
  assert (Hsame : forall b1, objects b1 = objects b -> forall k o, objects b !! k = Some o ->
    kept (renamed O N) (objects b1) k o).
  { intros b1 Hb k o Ho. exists o. split; [done|]. left. by rewrite Hb. }
  destruct (ListObjects b O 0) as [b1 [l|e]] eqn:El.
  2: { injection Hm as <- <-. split; [|done]. intros k o Ho _. apply Hsame; [by eapply list_same|done]. }
  pose proof (list_same _ _ _ _ _ El) as Hs. apply list_found in El. change (CosClient.up_to 0 ?l) with l in El.
  destruct l as [|o0 l0]; [injection Hm as <- <-; split; [|done]; intros k o Ho _; by apply Hsame|].
  fold (sources O (o0 :: l0)) (copy_all O N order1 order2 (sources O (o0 :: l0)) b1) in Hm. rewrite <-Hs in Hfresh, Hplain |- *.
  eapply copy_all_spec; [done| | |done|done|exact Hm].
  - intros k. rewrite El, Hs. apply elem_of_sources.
  - apply (prefixes_apart O N (objects b1) o0); [done|done|]. rewrite Hs, <-El. set_solver.
Qed.

Lemma move_file_spec oldKey newKey b b' r :
  oldKey <> newKey -> plain_key oldKey = true -> move_file oldKey newKey b = (b', r) ->
  (forall k o, objects b !! k = Some o -> k <> newKey ->
     objects b' !! k = Some o \/ (k = oldKey /\ kept (fun _ => newKey) (objects b') k o)) /\
  (r = None -> objects b' !! oldKey = None).
Proof.
  intros Hne Hplain Hm. unfold move_file in Hm. destruct (CopyObject b oldKey newKey None) as [b1 r1] eqn:Ec.
  destruct (copy_effect _ _ _ _ _ _ Hplain Ec) as [(src & o1 & Hsrc & Hcp & Hb1)|[[e ->] Hb1]].
  2: { injection Hm as <- <-. rewrite Hb1. split; [by left|done]. }
  assert (H1 : forall k, k <> newKey -> objects b1 !! k = objects b !! k).
  { intros k Hk. rewrite Hb1. by apply lookup_insert_ne. }
  destruct r1 as [e1|]; [injection Hm as <- <-; split; [intros k o Ho Hk; left; by rewrite H1|done]|].
  destruct (DeleteObject b1 oldKey) as [b2 r2] eqn:Ed. assert (b' = b2) as -> by (by destruct r2; injection Hm).
  assert (Hd : objects b2 = delete oldKey (objects b1) \/ is_Some r2 /\ objects b2 = objects b1) by (by eapply delete_effect).
  split.
  - intros k o Ho Hk. destruct (decide (k = oldKey)) as [->|Hko].
    + right. split; [done|]. assert (src = o) as -> by congruence. exists o1. split; [done|]. right.
      destruct Hd as [-> |[_ ->]]; rewrite ?lookup_delete_ne by done; by rewrite Hb1, lookup_insert_eq.
    + left. destruct Hd as [-> |[_ ->]]; rewrite ?lookup_delete_ne by done; by rewrite H1.
  - intros ->. destruct r2; [done|]. destruct Hd as [-> |[[? ?] _]]; [apply lookup_delete_eq|done].
Qed.

(** The object of [k] is still there: where it was, where its directory's objects
    went, or where the renamed file went. *)
Definition survives (oldPath newPath : string) (objs : gmap string stored) (k : string) (o : stored) : Prop :=
  kept (renamed (Paths.ListPrefix oldPath) (Paths.ListPrefix newPath)) objs k o \/
  (k = object_key oldPath /\ kept (fun _ => object_key newPath) objs k o).

Lemma renameDirectory_spec es fs now order1 order2 h h' r :
  (0 < maxConcurrentWrites)%nat -> Forall is_name es -> Forall is_name fs -> es <> fs ->
  let old := Paths.path_of es in let new := Paths.path_of fs in
  (forall k, HasPrefix k (Paths.ListPrefix new) = true -> objects (cos h) !! k = None) ->
  (forall k, HasPrefix k (Paths.ListPrefix old) = true -> is_Some (objects (cos h) !! k) -> plain_key k = true) ->
  renameDirectory old new now order1 order2 h = (h', r) ->
  (forall k o, objects (cos h) !! k = Some o -> pending k = false -> survives old new (objects (cos h')) k o) /\
  (r = None -> moved (Paths.ListPrefix old) (Paths.ListPrefix new) (objects (cos h)) (objects (cos h'))).
Proof.
  intros Hlim Hes Hfs Hne old new Hfresh Hplain Hr. unfold renameDirectory in Hr.
  assert (Hsame : forall h1 e, objects (cos h1) = objects (cos h) -> (h', r) = (h1, Some e) ->
    (forall k o, objects (cos h) !! k = Some o -> pending k = false -> survives old new (objects (cos h')) k o) /\
    (r = None -> moved (Paths.ListPrefix old) (Paths.ListPrefix new) (objects (cos h)) (objects (cos h')))).
  { intros h1 e Hh [= -> ->]. split; [|done]. intros k o Ho _. left. exists o. split; [done|]. left. by rewrite Hh. }
  case_bool_decide as Hroot; [by apply (Hsame h (Text "cannot rename root directory"))|].
  destruct (Paths.IsDescendant old new) eqn:Hd; [by eapply Hsame|].
  destruct (Stat new now h) as [h1 [i|e]] eqn:Hst; [eapply Hsame; [by eapply Stat_objects|done]|].
  pose proof (Stat_objects _ _ _ _ _ Hst) as Hobj. destruct e; try (eapply Hsame; [exact Hobj|done]).
  destruct (move_objects _ _ order1 order2 (cos h1)) as [b r'] eqn:Hm. injection Hr as <- <-.
  rewrite !invalidateDirectory_cos. change (cos (set_cos b h1)) with b. rewrite <-Hobj in Hfresh, Hplain |- *.
  apply move_objects_spec in Hm as [Hk Hmv]; [|done| |done|done].
  - split; [|done]. intros k o Ho Hp. left. by apply Hk.
  - apply (Paths.ListPrefix_apart old new es fs); try done; [by apply Paths.Clean_path_of..|]. by intros ->.
Qed.


End Rename.

#[local] Existing Instance MemoryBucket.memory_bucket.
#[local] Existing Instance MemoryBucket.memory_laws.

Definition tree : gmap string stored :=
  {[ "a/b" := mkStored [Byte.x01] ∅ 5 "1"; "a/c/d" := mkStored [Byte.x02] ∅ 6 "2"; "ab" := mkStored [Byte.x03] ∅ 7 "3" ]}.

(** The second of two copies fails; the sources stay. *)
Definition interrupted : OperationsHandler * option goerr :=
  RenameFile (TT := decimal_times) 9 map_to_list id (fun _ => false) 10 2 "/a" "/z" 100 (fun i => i) (fun i => i)
    (started tree [None; None; None; None; None; None; None; None; Some true]).


End NamespaceRename.
