(* ===== verification/NamespaceSafety.v ===== *)
(** * Lookups, changes and the cache, interleaved

    A lookup asks the bucket in several calls, and changes come in between.  The
    steps here are those of [Stat] as [Namespace] composes them, of changes and
    of the invalidation that follows each of them, in any order.  The fence keeps
    the cache right: once the change of a path is invalidated, nothing in the
    cache contradicts the bucket. *)
From S2P Require Import Prelude GoPath StagingTypes LRU ListingFence Streams Paths CosClient Attributes MetadataCache Bucket Namespace NamespaceLookup.
Import Attributes ListingFence MetadataCache Namespace NamespaceLookup.

Module NamespaceSafety.

Section Safety.
Context `{BL : BucketLaws} {TT : TimeText} {DI : DataInvalidation}.
Context (startup : Time) (meta_order : gmap string string -> list (string * string))
  (key_order : list string -> list string) (Horder : forall l, key_order l ≡ₚ l)
  (pendingDelete : string -> bool) (maxEntries : Z).

(** A lookup under way: its path, what the fence told it, and what the bucket
    answered so far. *)
Record lookup := mkLookup {
  l_path : string;
  l_gen : Z;
  l_file : option (ObjectMetadata + goerr);
  l_dir : option (ObjectMetadata + goerr);
  l_children : option (list ObjectMetadata + goerr)
}.

(** [dirty]: the paths whose change has not been invalidated yet. *)
Record state := mkState {
  handler : OperationsHandler;
  inflight : gmap nat lookup;
  dirty : gset string
}.

(** Absolute clean paths other than the root. *)
Definition clean (path : string) : Prop := exists es, Forall is_name es /\ es <> [] /\ path = Paths.path_of es.

Definition on_path (path k : string) : Prop := k = object_key path \/ k = Paths.ToDirectoryKey (object_key path).

(** What a finished lookup concludes. *)
Definition concluded (l : lookup) : option verdict :=
  match l_file l, l_dir l with
  | Some (inr e1), Some (inr e2) => conclude startup meta_order (l_path l) (inr e1) (inr e2) <$> l_children l
  | Some file, Some dir => Some (conclude startup meta_order (l_path l) file dir (inl []))
  | _, _ => None
  end.

Inductive step : state -> state -> Prop :=
  | step_begin s id path f g :
      clean path -> inflight s !! id = None -> begin (lookups (handler s)) (Paths.NormalizePath path) = (f, g) ->
      step s (mkState (set_lookups f (handler s)) (<[id := mkLookup path g None None None]> (inflight s)) (dirty s))
  | step_head_file s id l b r :
      inflight s !! id = Some l -> HeadObject (cos (handler s)) (object_key (l_path l)) = (b, r) ->
      step s (mkState (set_cos b (handler s))
                (<[id := mkLookup (l_path l) (l_gen l) (Some r) (l_dir l) (l_children l)]> (inflight s)) (dirty s))
  | step_head_dir s id l b r :
      inflight s !! id = Some l -> HeadObject (cos (handler s)) (Paths.ToDirectoryKey (object_key (l_path l))) = (b, r) ->
      step s (mkState (set_cos b (handler s))
                (<[id := mkLookup (l_path l) (l_gen l) (l_file l) (Some r) (l_children l)]> (inflight s)) (dirty s))
  | step_children s id l b r :
      inflight s !! id = Some l ->
      probe_children pendingDelete maxEntries (object_key (l_path l)) (cos (handler s)) = (b, r) ->
      step s (mkState (set_cos b (handler s))
                (<[id := mkLookup (l_path l) (l_gen l) (l_file l) (l_dir l) (Some r)]> (inflight s)) (dirty s))
  | step_end s id l v now h' r :
      inflight s !! id = Some l -> concluded l = Some v ->
      stat_end startup (l_path l) (l_gen l) v now (handler s) = (h', r) ->
      step s (mkState h' (delete id (inflight s)) (dirty s))
  | step_change s path b :
      clean path -> (forall k, ~ on_path path k -> objects b !! k = objects (cos (handler s)) !! k) ->
      step s (mkState (set_cos b (handler s)) (inflight s) ({[path]} ∪ dirty s))
  | step_file_mutation s path :
      clean path ->
      step s (mkState (invalidateFileMutation path (handler s)) (inflight s) (dirty s ∖ {[path]}))
  | step_directory_mutation s path :
      clean path ->
      step s (mkState (invalidateDirectoryMutation key_order path (handler s)) (inflight s) (dirty s ∖ {[path]}))
  | step_after_sync s path now :
      clean path ->
      step s (mkState (InvalidateObjectAfterSync path now (handler s)) (inflight s) (dirty s ∖ {[path]}))
  | step_cached s path now c r :
      MetadataCache.Get (mcache (handler s)) path now = (c, r) ->
      step s (mkState (set_mcache c (handler s)) (inflight s) (dirty s))
  | step_listed s path entries now :
      step s (mkState (set_mcache (SetDirEntries (mcache (handler s)) path entries now) (handler s)) (inflight s) (dirty s)).

Inductive runs : nat -> state -> state -> Prop :=
  | runs_none s : runs 0 s s
  | runs_more n s s1 s2 : runs n s s1 -> step s1 s2 -> runs (S n) s s2.

(** ** Agreement *)

(** A cached entry agrees with the bucket: a path said to be absent has neither
    object nor marker, and a file is described as its object is. *)
Definition agrees (objs : gmap string stored) (path : string) (e : MetadataEntry) : Prop :=
  (e_Negative e = true -> forall k, on_path path k -> objs !! k = None) /\
  (forall info, e_FileInfo e = Some info -> isDir info = e_IsDir e) /\
  (forall info, e_FileInfo e = Some info -> isDir info = false ->
     exists o, objs !! object_key path = Some o /\ info = file_info startup meta_order path (object_of (object_key path) o)).

(** An answer of [HeadObject] that still holds. *)
Definition head_agrees (objs : gmap string stored) (k : string) (r : ObjectMetadata + goerr) : Prop :=
  match r with
  | inl m => exists o, objs !! k = Some o /\ m = object_of k o
  | inr e => CosClient.Is_NotExist e = true -> objs !! k = None
  end.

Definition answers_agree (objs : gmap string stored) (l : lookup) : Prop :=
  (forall r, l_file l = Some r -> head_agrees objs (object_key (l_path l)) r) /\
  (forall r, l_dir l = Some r -> head_agrees objs (Paths.ToDirectoryKey (object_key (l_path l))) r).

(** The lookups of a path under way. *)
Definition looking (s : state) (path : string) : nat :=
  base.size (filter (fun il => Paths.NormalizePath (l_path il.2) = path) (inflight s)).

Record ok (n : nat) (s : state) : Prop := mkOk {
  ok_wf : wf (mcache (handler s));
  ok_cache p e : clean p -> holds (mcache (handler s)) p e -> p ∈ dirty s \/ agrees (objects (cos (handler s))) p e;
  ok_clean id l : inflight s !! id = Some l -> clean (l_path l);
  ok_fence p : (0 < looking s p)%nat -> exists e, lookups (handler s) !! p = Some e;
  ok_count p e : lookups (handler s) !! p = Some e ->
    ListingFence.listings e = Z.of_nat (looking s p) /\ 0 <= generation e <= 2 * Z.of_nat n;
  ok_size : (base.size (inflight s) <= n)%nat;
  ok_lookup id l e : inflight s !! id = Some l -> lookups (handler s) !! Paths.NormalizePath (l_path l) = Some e ->
    l_gen l <= generation e /\
    (generation e = l_gen l -> l_path l ∈ dirty s \/ answers_agree (objects (cos (handler s))) l)
}.

(** ** Clean paths *)

Lemma clean_normal path : clean path -> Paths.NormalizePath path = path.
Proof. intros (es & Hes & _ & ->). apply Paths.NormalizePath_names; [done|by apply Paths.Clean_path_of]. Qed.

Lemma clean_key es : Forall is_name es -> object_key (Paths.path_of es) = JoinSlash es.
Proof. intros Hes. unfold object_key. by rewrite (Paths.ToObjectKey_names _ _ es) by (try apply Paths.Clean_path_of; done). Qed.

Lemma clean_dir_key es : Forall is_name es -> Paths.ToDirectoryKey (JoinSlash es) = JoinSlash es +:+ "/".
Proof. intros Hes. unfold Paths.ToDirectoryKey. by rewrite Paths.JoinSlash_no_trailing. Qed.

(** Different paths have different keys. *)
Lemma on_path_inj p q k : clean p -> clean q -> on_path p k -> on_path q k -> p = q.
Proof.
  intros (es & Hes & He & ->) (fs & Hfs & Hf & ->). unfold on_path. rewrite !clean_key, !clean_dir_key by done.
  assert (Hno : forall x y, Forall is_name x -> JoinSlash x <> JoinSlash y +:+ "/").
  { intros x y Hx Heq. pose proof (Paths.JoinSlash_no_trailing x Hx) as Hs.
    assert (HasSuffix (JoinSlash x) "/" = true); [apply HasSuffix_spec; eauto|congruence]. }
  intros [->| ->] [H1|H1].
  - f_equal. by apply Paths.JoinSlash_inj.
  - by destruct (Hno es fs Hes).
  - by destruct (Hno fs es Hfs).
  - f_equal. apply (f_equal SplitSlash) in H1. rewrite !Paths.SplitSlash_snoc in H1. apply app_inj_tail in H1 as [H1 _].
    rewrite !SplitSlash_JoinSlash in H1 by (try apply Paths.names_no_slash; done). done.
Qed.

(** ** Invalidation *)

(** The fence after an invalidation of [path]: no lookup is forgotten, and those of
    the path are told. *)
Definition bumps (path : string) (f f' : fence) : Prop :=
  forall p, match f !! p with
  | None => f' !! p = None
  | Some e => exists e', f' !! p = Some e' /\ ListingFence.listings e' = ListingFence.listings e /\
      (0 <= generation e < 2 ^ 62 -> generation e <= generation e' <= generation e + 2 /\
         (p = path -> generation e < generation e'))
  end.

Record invalidated (path : string) (h h' : OperationsHandler) : Prop := mkInvalidated {
  inv_cos : cos h' = cos h;
  inv_wf : wf (mcache h');
  inv_cache p e : holds (mcache h') p e -> p <> path /\ holds (mcache h) p e;
  inv_fence : bumps path (lookups h) (lookups h')
}.

Lemma bump_small e : 0 <= generation e < 2 ^ 63 -> generation (bump e) = generation e + 1.
Proof. intros He. unfold bump. simpl. apply Z.mod_small. lia. Qed.

Lemma invalidate_lookup f path p :
  invalidate f path !! p = (fun e => if decide (p = path) then bump e else e) <$> f !! p.
Proof.
  unfold invalidate. destruct (decide (p = path)) as [->|Hne].
  - destruct (f !! path) eqn:E; rewrite ?lookup_insert_eq, ?E; done.
  - destruct (f !! path); rewrite ?lookup_insert_ne by done; by destruct (f !! p).
Qed.

Lemma bumps_invalidate path f : bumps path f (invalidate f path).
Proof.
  intros p. rewrite invalidate_lookup. destruct (f !! p) as [e|]; [|done]. simpl. eexists. split; [done|].
  case_decide as Hp; (split; [done|]); intros He; rewrite ?bump_small by lia; split; (lia || done).
Qed.

Lemma bumps_prefix path f prefix : bumps path f (invalidatePrefix (invalidate f path) prefix).
Proof.
  intros p. unfold invalidatePrefix. rewrite map_lookup_imap, invalidate_lookup. destruct (f !! p) as [e|]; [|done].
  simpl. eexists. split; [done|]. split; [by case_decide; destruct (HasPrefix p prefix)|]. intros He.
  case_decide as Hp; destruct (HasPrefix p prefix); rewrite ?bump_small by (rewrite ?bump_small; lia); split; (lia || done).
Qed.

Lemma file_mutation_invalidates path h : clean path -> wf (mcache h) -> invalidated path h (invalidateFileMutation path h).
Proof.
  intros Hc W. unfold invalidateFileMutation, invalidateObjectPath, invalidateAncestorListings, invalidateDataPath.
  destruct (Delete_holds (mcache h) path W) as [W1 H1].
  match goal with |- context [ancestors_loop ?n ?d ?h1] => destruct (ancestors_loop_spec n d h1 W1) as (E1 & E2 & W2 & H2) end.
  split; simpl; [exact E1|exact W2| |].
  - intros p e Hp. by apply H1, H2.
  - simpl in E2. rewrite E2, clean_normal by done. apply bumps_invalidate.
Qed.

Lemma directory_mutation_invalidates path h :
  clean path -> wf (mcache h) -> invalidated path h (invalidateDirectoryMutation key_order path h).
Proof.
  intros Hc W. unfold invalidateDirectoryMutation, invalidateAncestorListings. rewrite clean_normal by done.
  set (prefix := if negb (bool_decide (path = "/")) && negb (HasSuffix path "/") then path +:+ "/" else path).
  destruct (Delete_holds (mcache h) path W) as [W1 H1].
  destruct (InvalidatePrefix_holds key_order _ prefix W1 Horder) as [W2 H2].
  match goal with |- context [ancestors_loop ?n ?d ?h1] => destruct (ancestors_loop_spec n d h1 W2) as (E1 & E2 & W3 & H3) end.
  split; simpl; [exact E1|exact W3| |].
  - intros p e Hp. by apply H1, H2, H3.
  - simpl in E2. rewrite E2. apply bumps_prefix.
Qed.

Lemma after_sync_invalidates path now h :
  clean path -> wf (mcache h) -> invalidated path h (InvalidateObjectAfterSync path now h).
Proof.
  intros Hc W. unfold InvalidateObjectAfterSync. rewrite clean_normal by done.
  destruct (Delete_holds (mcache h) path W) as [W1 H1]. unfold cachedListingHas. simpl.
  destruct (MetadataCache.Get _ (Paths.GetParentPath path) now) as [c r] eqn:Hg.
  destruct (Get_holds _ _ _ _ _ W1 Hg) as (W2 & H2 & _).
  destruct (Delete_holds c (Paths.GetParentPath path) W2) as [W3 H3].
  destruct (match r ≫= e_ChildEntries with Some _ => _ | None => _ end); split; simpl; try done;
    try apply bumps_invalidate; intros p e Hp; [by apply H1, H2|by apply H1, H2, H3].
Qed.

(** ** Every step keeps the invariant *)

Lemma looking_pos s id l : inflight s !! id = Some l -> (0 < looking s (Paths.NormalizePath (l_path l)))%nat.
Proof.
  intros Hl. unfold looking. apply Nat.neq_0_lt_0, map_size_ne_0_lookup. exists id, l.
  by apply map_lookup_filter_Some.
Qed.

Lemma ok_later n s : ok n s -> ok (S n) s.
Proof. intros []. split; try done; [|lia]. intros p e Hp. destruct (ok_count0 p e Hp). lia. Qed.

Lemma invalidated_ok n s path h' :
  ok n s -> Z.of_nat n < 2 ^ 60 -> invalidated path (handler s) h' ->
  ok (S n) (mkState h' (inflight s) (dirty s ∖ {[path]})).
Proof.
  intros [W Hcache Hclean Hfence Hcount Hsize Hlook] Hn [Icos Iwf Icache Ifence]. split; simpl; try done.
  - intros p e Hp [Hne Hold]%Icache. rewrite Icos. destruct (Hcache p e Hp Hold); [left; set_solver|by right].
  - intros p Hp. destruct (Hfence p Hp) as [e He]. specialize (Ifence p). rewrite He in Ifence. destruct Ifence as (e' & ? & _). eauto.
  - intros p e' He'. specialize (Ifence p). destruct (lookups (handler s) !! p) as [e|] eqn:He; [|congruence].
    destruct Ifence as (e1 & He1 & Hl & Hg). destruct (Hcount p e He) as [Hc1 Hc2]. simplify_eq.
    destruct Hg as [Hg _]; [lia|]. split; [by rewrite Hl|]. lia.
  - lia.
  - intros id l e' Hl He'. specialize (Ifence (Paths.NormalizePath (l_path l))).
    destruct (lookups (handler s) !! _) as [e|] eqn:He; [|congruence].
    destruct Ifence as (e1 & He1 & _ & Hg). destruct (Hcount _ e He) as [_ Hc2]. simplify_eq.
    destruct Hg as [Hg1 Hg2]; [lia|]. destruct (Hlook id l e Hl He) as [Hl1 Hl2]. split; [lia|]. intros Heq.
    destruct (decide (l_path l = path)) as [Hpp|Hne].
    + rewrite clean_normal in Hg2 by (by eapply Hclean). specialize (Hg2 Hpp). lia.
    + rewrite Icos. destruct Hl2; [lia|left; set_solver|by right].
Qed.

(** A probe of a lookup records an answer that holds. *)
Lemma answer_ok n s id l l' b :
  ok n s -> inflight s !! id = Some l -> l_path l' = l_path l -> l_gen l' = l_gen l -> objects b = objects (cos (handler s)) ->
  (answers_agree (objects b) l -> answers_agree (objects b) l') ->
  ok (S n) (mkState (set_cos b (handler s)) (<[id := l']> (inflight s)) (dirty s)).
Proof.
  intros Hok Hid Hpath Hgen Hobj Hans. apply ok_later in Hok. destruct Hok as [W Hcache Hclean Hfence Hcount Hsize Hlook].
  assert (Hcnt : forall p, looking (mkState (set_cos b (handler s)) (<[id := l']> (inflight s)) (dirty s)) p = looking s p).
  { intros p. unfold looking. simpl. rewrite <-(insert_delete_id (inflight s) id l Hid) at 2. rewrite <-insert_delete_eq.
    destruct (decide (Paths.NormalizePath (l_path l) = p)) as [Hp|Hp].
    - rewrite !map_filter_insert_True by (simpl; congruence). rewrite !map_size_insert_None; [done|..];
        apply map_lookup_filter_None; left; apply lookup_delete_eq.
    - rewrite !map_filter_insert_False by (simpl; congruence). done. }
  split; simpl; try done.
  - intros p e Hp Hh. rewrite Hobj. by apply Hcache.
  - intros id' x [[<- <-]|[_ Hx]]%lookup_insert_Some; [|by eapply Hclean]. rewrite Hpath. by eapply Hclean.
  - intros p. rewrite Hcnt. apply Hfence.
  - intros p e He. rewrite Hcnt. by apply Hcount.
  - rewrite map_size_insert_Some; [done|]. by rewrite Hid.
  - intros id' x e [[<- <-]|[_ Hx]]%lookup_insert_Some He.
    + rewrite Hpath in He |- *. rewrite Hgen. destruct (Hlook id l e Hid He) as [H1 H2]. split; [done|]. intros Heq.
      destruct (H2 Heq) as [?|Ha]; [by left|right]. apply Hans. by rewrite Hobj.
    + rewrite Hobj. by eapply Hlook.
Qed.

Lemma begin_ok n s id path f g :
  ok n s -> Z.of_nat n < 2 ^ 60 -> clean path -> inflight s !! id = None ->
  begin (lookups (handler s)) (Paths.NormalizePath path) = (f, g) ->
  ok (S n) (mkState (set_lookups f (handler s)) (<[id := mkLookup path g None None None]> (inflight s)) (dirty s)).
Proof.
  intros Hok Hn Hp Hid Hb. pose proof Hok as [W Hcache Hclean Hfence Hcount Hsize Hlook].
  unfold begin in Hb. set (np := Paths.NormalizePath path) in *.
  set (e0 := default (ListingFence.mkEntry 0 0) (lookups (handler s) !! np)) in *.
  set (s' := mkState _ (<[id := mkLookup path g None None None]> (inflight s)) (dirty s)).
  assert (He0 : ListingFence.listings e0 = Z.of_nat (looking s np) /\ 0 <= generation e0 <= 2 * Z.of_nat n).
  { unfold e0. destruct (lookups (handler s) !! np) as [e|] eqn:E; [by apply Hcount|]. simpl. split; [|lia].
    destruct (looking s np) eqn:El; [done|]. destruct (Hfence np) as [e He]; [lia|congruence]. }
  assert (Hle : (looking s np <= n)%nat).
  { unfold looking. etransitivity; [apply map_subseteq_size, map_filter_subseteq|done]. }
  rewrite wrap64_small in Hb by (unfold MaxInt64, MinInt64; lia). injection Hb as <- <-.
  assert (Hcnt : forall p, looking s' p = if decide (p = np) then S (looking s p) else looking s p).
  { intros p. unfold looking, s'. simpl. fold np. case_decide as Hpp.
    - rewrite map_filter_insert_True by done. apply map_size_insert_None. apply map_lookup_filter_None. by left.
    - rewrite map_filter_insert_False by (simpl; fold np; congruence). by rewrite delete_id. }
  split; simpl; try done.
  - intros id' x [[<- <-]|[_ Hx]]%lookup_insert_Some; [done|by eapply Hclean].
  - intros p Hl. destruct (decide (p = np)) as [->|Hne]; [rewrite lookup_insert_eq; eauto|].
    rewrite lookup_insert_ne by done. apply Hfence. rewrite Hcnt, decide_False in Hl by done. done.
  - intros p e [[<- <-]|[Hne He]]%lookup_insert_Some; rewrite Hcnt; simpl.
    + rewrite decide_True by done. lia.
    + rewrite decide_False by done. destruct (Hcount p e He). lia.
  - rewrite map_size_insert_None by done. lia.
  - intros id' x e [[<- <-]|[_ Hx]]%lookup_insert_Some; simpl.
    + fold np. rewrite lookup_insert_eq. intros [= <-]. simpl. split; [lia|]. intros _. right. by split.
    + intros [[Heq <-]|[Hne He]]%lookup_insert_Some; simpl; [|by eapply Hlook].
      unfold e0. rewrite Heq. destruct (lookups (handler s) !! Paths.NormalizePath (l_path x)) as [e1|] eqn:E1;
        [exact (Hlook id' x e1 Hx E1)|].
      destruct (Hfence (Paths.NormalizePath (l_path x))) as [e1 He1]; [by eapply looking_pos|congruence].
Qed.

(** What a lookup concludes rests on its answers. *)
Lemma concluded_file l info :
  concluded l = Some (Found info) -> isDir info = false ->
  exists m, l_file l = Some (inl m) /\ info = file_info startup meta_order (l_path l) m.
Proof.
  unfold concluded. destruct (l_file l) as [[m|e1]|]; [|destruct (l_dir l) as [[m|e2]|]..|]; try done.
  - destruct (l_dir l) as [[]|]; intros [= <-] _; by exists m.
  - by intros [= <-].
  - destruct (l_children l) as [[[|o os]|e3]|]; try done; simpl; [by repeat case_match|by intros [= <-]|by repeat case_match].
Qed.

Lemma track_none r {A} (x : A + goerr) : track r x = None -> r = None /\ (forall e, x = inr e -> CosClient.Is_NotExist e = true).
Proof.
  unfold track. destruct r; [done|]. destruct x as [|e]; [done|]. destruct (CosClient.Is_NotExist e) eqn:E; [|done].
  intros _. split; [done|]. by intros ? [= <-].
Qed.

Lemma concluded_absent l : concluded l = Some Absent ->
  exists e1 e2, l_file l = Some (inr e1) /\ l_dir l = Some (inr e2) /\
    CosClient.Is_NotExist e1 = true /\ CosClient.Is_NotExist e2 = true.
Proof.
  unfold concluded. destruct (l_file l) as [[m|e1]|]; [|destruct (l_dir l) as [[m|e2]|]..|]; try done.
  - by destruct (l_dir l) as [[]|].
  - destruct (l_children l) as [ch|]; [|done]. simpl. intros [= Hc].
    assert (Ht : track (track (track None (inr (A := ObjectMetadata) e1)) (inr (A := ObjectMetadata) e2)) ch = None).
    { destruct ch as [[|o os]|e3]; [|done|]; by destruct (track _ _). }
    apply track_none in Ht as [[[_ H1]%track_none H2]%track_none _]. exists e1, e2. by split_and!; auto.
Qed.

(** The cache at the end of a lookup. *)
Definition cache_after (l : lookup) (v : verdict) (current : bool) (now : Time) (c : MetadataCache) : MetadataCache :=
  match v with
  | Found info => if current then SetFileInfo c (l_path l) info (attrs info) now else c
  | Absent => if current then SetNegative c (l_path l) now else c
  | Unknown _ => c
  end.

Lemma cache_after_spec objs l v current now c :
  wf c -> concluded l = Some v ->
  wf (cache_after l v current now c) /\
  forall p x, holds (cache_after l v current now c) p x ->
    holds c p x \/ (p = l_path l /\ current = true /\ (answers_agree objs l -> agrees objs p x)).
Proof.
  intros W Hv. destruct v as [info| |e]; simpl; [| |by split; [|left]]; destruct current; try (by split; [|left]).
  - destruct (store_holds c (l_path l) (mkMeta (Some info) (attrs info) (isDir info) None None now false false) now W) as [W' Hs].
    split; [exact W'|]. intros p x [[-> ->]|[_ Hx]]%Hs; [right|by left]. split_and!; try done. intros [Hf _].
    split_and!; simpl; [done|by intros ? [= <-]|]. intros i [= <-] Hd. destruct (concluded_file l info Hv Hd) as (m & Hm & ->).
    destruct (Hf _ Hm) as (o & Ho & ->). by exists o.
  - destruct (store_holds c (l_path l) (mkMeta None None false None None now false true) now W) as [W' Hs].
    split; [exact W'|]. intros p x [[-> ->]|[_ Hx]]%Hs; [right|by left]. split_and!; try done. intros [Hf Hd].
    destruct (concluded_absent l Hv) as (e1 & e2 & H1 & H2 & N1 & N2). split_and!; try done. intros _ k [->| ->].
    + by apply (Hf _ H1).
    + by apply (Hd _ H2).
Qed.

Lemma end_ok n s id l v now h' r :
  ok n s -> Z.of_nat n < 2 ^ 60 -> inflight s !! id = Some l -> concluded l = Some v ->
  stat_end startup (l_path l) (l_gen l) v now (handler s) = (h', r) ->
  ok (S n) (mkState h' (delete id (inflight s)) (dirty s)).
Proof.
  intros Hok Hn Hid Hv He. pose proof (looking_pos s id l Hid) as Hpos. apply ok_later in Hok.
  destruct Hok as [W Hcache Hclean Hfence Hcount Hsize Hlook].
  set (np := Paths.NormalizePath (l_path l)) in *. destruct (Hfence np Hpos) as [e Hfe].
  destruct (Hcount np e Hfe) as [Hl Hg]. destruct (Hlook id l e Hid Hfe) as [_ Hagree].
  unfold stat_end, end_ in He. fold np in He. rewrite Hfe in He.
  assert (Hle : (looking s np <= S n)%nat).
  { unfold looking. etransitivity; [apply map_subseteq_size, map_filter_subseteq|done]. }
  simpl in He. rewrite Hl, wrap64_small in He by (unfold MaxInt64, MinInt64; lia).
  set (f := if Z.of_nat (looking s np) - 1 =? 0 then _ else _) in He.
  assert (Hh : cos h' = cos (handler s) /\ lookups h' = f /\
    mcache h' = cache_after l v (generation e =? l_gen l) now (mcache (handler s))).
  { destruct v; injection He as <- _; simpl; try destruct (generation e =? l_gen l); done. }
  destruct Hh as (Hcos & Hlk & Hmc). rewrite <-Hcos in Hcache, Hagree, Hlook.
  destruct (cache_after_spec (objects (cos h')) l v (generation e =? l_gen l) now _ W Hv) as [W' Hholds].
  assert (Hcnt : forall p, looking s p = if decide (p = np) then S (looking (mkState h' (delete id (inflight s)) (dirty s)) p)
    else looking (mkState h' (delete id (inflight s)) (dirty s)) p).
  { intros p. unfold looking. simpl. rewrite <-(insert_delete_id (inflight s) id l Hid) at 1. case_decide as Hp.
    - rewrite map_filter_insert_True by done. apply map_size_insert_None, map_lookup_filter_None. left. apply lookup_delete_eq.
    - rewrite map_filter_insert_False by (simpl; fold np; congruence). by rewrite delete_delete_eq. }
  assert (Hf : forall p, f !! p = if decide (p = np) then
      (if decide (looking s np = 1)%nat then None else Some (ListingFence.mkEntry (Z.of_nat (looking s np) - 1) (generation e)))
      else lookups (handler s) !! p).
  { intros p. unfold f. destruct (Z.eqb_spec (Z.of_nat (looking s np) - 1) 0); repeat case_decide; try lia; subst;
      rewrite ?lookup_delete_eq, ?lookup_delete_ne, ?lookup_insert_eq, ?lookup_insert_ne by done; done. }
  split; simpl; rewrite ?Hlk, ?Hmc.
  - done.
  - intros p x Hp [Hx|(-> & Hcur%Z.eqb_eq & Ha)]%Hholds; [by apply Hcache|]. destruct (Hagree Hcur); [by left|right; auto].
  - intros id' x [_ Hx]%lookup_delete_Some. by eapply Hclean.
  - intros p Hp. rewrite Hf. specialize (Hcnt p). destruct (decide (p = np)) as [->|Hpp]; [|apply Hfence; lia].
    rewrite decide_False by lia. eauto.
  - intros p x. rewrite Hf. specialize (Hcnt p). destruct (decide (p = np)) as [->|Hpp].
    + destruct (decide (looking s np = 1)%nat); [done|]. intros [= <-]. simpl. lia.
    + rewrite <-Hcnt. apply Hcount.
  - rewrite map_size_delete, Hid. simpl. lia.
  - intros id' x e' [_ Hx]%lookup_delete_Some. rewrite Hf.
    destruct (decide (Paths.NormalizePath (l_path x) = np)) as [Hpp|Hpp]; [|by eapply Hlook].
    destruct (decide (looking s np = 1)%nat); [done|]. intros [= <-]. simpl. apply (Hlook id' x e Hx). by rewrite Hpp.
Qed.

Lemma agrees_frame objs objs' p e :
  (forall k, on_path p k -> objs' !! k = objs !! k) -> agrees objs p e -> agrees objs' p e.
Proof.
  intros Hk (H1 & H2 & H3). split_and!; [|done|].
  - intros Hneg k Hon. rewrite Hk by done. by apply H1.
  - intros info Hi Hd. destruct (H3 info Hi Hd) as (o & Ho & ->). exists o. split; [|done]. rewrite Hk; [done|by left].
Qed.

Lemma answers_frame objs objs' l :
  (forall k, on_path (l_path l) k -> objs' !! k = objs !! k) -> answers_agree objs l -> answers_agree objs' l.
Proof.
  intros Hk [H1 H2]. unfold answers_agree, head_agrees in *. split; intros r Hr; [specialize (H1 r Hr)|specialize (H2 r Hr)];
    (rewrite Hk; [done|]); unfold on_path; auto.
Qed.

Lemma change_ok n s path b :
  ok n s -> clean path -> (forall k, ~ on_path path k -> objects b !! k = objects (cos (handler s)) !! k) ->
  ok (S n) (mkState (set_cos b (handler s)) (inflight s) ({[path]} ∪ dirty s)).
Proof.
  intros Hok Hp Hframe. apply ok_later in Hok. destruct Hok as [W Hcache Hclean Hfence Hcount Hsize Hlook].
  assert (Hother : forall q, clean q -> q <> path -> forall k, on_path q k -> objects b !! k = objects (cos (handler s)) !! k).
  { intros q Hq Hne k Hk. apply Hframe. intros Hk'. apply Hne. by eapply on_path_inj. }
  split; simpl; try done.
  - intros p e Hc Hh. destruct (decide (p = path)) as [->|Hne]; [left; set_solver|].
    destruct (Hcache p e Hc Hh) as [?|Ha]; [left; set_solver|right]. eapply agrees_frame; [|exact Ha]. by apply Hother.
  - intros id l e Hl He. destruct (Hlook id l e Hl He) as [H1 H2]. split; [done|]. intros Heq.
    destruct (decide (l_path l = path)) as [->|Hne]; [left; set_solver|].
    destruct (H2 Heq) as [?|Ha]; [left; set_solver|right]. eapply answers_frame; [|exact Ha].
    apply Hother; [by eapply Hclean|done].
Qed.

(** A cache that holds nothing it did not hold, or agrees anyway. *)
Lemma cache_ok n s c :
  ok n s -> wf c ->
  (forall p e, clean p -> holds c p e ->
     holds (mcache (handler s)) p e \/ p ∈ dirty s \/ agrees (objects (cos (handler s))) p e) ->
  ok (S n) (mkState (set_mcache c (handler s)) (inflight s) (dirty s)).
Proof.
  intros Hok Wc Hc. apply ok_later in Hok. destruct Hok as [W Hcache Hclean Hfence Hcount Hsize Hlook].
  split; simpl; try done. intros p e Hp [Hh|?]%Hc; [by apply Hcache|done|done].
Qed.

Lemma head_answer b k b' r : HeadObject b k = (b', r) -> head_agrees (objects b) k r.
Proof. intros Hh. destruct r as [m|e]; [by eapply head_found|]. intros Hm. by eapply head_missing. Qed.

Lemma step_ok n s s' : ok n s -> Z.of_nat n < 2 ^ 60 -> step s s' -> ok (S n) s'.
Proof.
  intros Hok Hn Hstep. destruct Hstep as [s id path f g Hp Hid Hb|s id l b r Hid Hh|s id l b r Hid Hh|s id l b r Hid Hh|
    s id l v now h' r Hid Hv He|s path b Hp Hf|s path Hp|s path Hp|s path now Hp|s path now c r Hg|s path entries now].
  - by apply begin_ok.
  - eapply answer_ok; [done|exact Hid|done|done|by eapply head_same|]. rewrite (head_same _ _ _ _ Hh). intros [H1 H2].
    split; [|done]. simpl. intros ? [= <-]. by eapply head_answer.
  - eapply answer_ok; [done|exact Hid|done|done|by eapply head_same|]. rewrite (head_same _ _ _ _ Hh). intros [H1 H2].
    split; [done|]. simpl. intros ? [= <-]. by eapply head_answer.
  - eapply answer_ok; [done|exact Hid|done|done| |done].
    pose proof (probe_children_objects pendingDelete maxEntries (object_key (l_path l)) (cos (handler s))) as Ho. by rewrite Hh in Ho.
  - by eapply end_ok.
  - by apply change_ok.
  - apply invalidated_ok; [done|done|]. apply file_mutation_invalidates; [done|apply Hok].
  - apply invalidated_ok; [done|done|]. apply directory_mutation_invalidates; [done|apply Hok].
  - apply invalidated_ok; [done|done|]. apply after_sync_invalidates; [done|apply Hok].
  - destruct (Get_holds _ _ _ _ _ (ok_wf _ _ Hok) Hg) as (W & Hin & _). apply cache_ok; [done|done|]. left. by apply Hin.
  - destruct (SetDirEntries_holds (mcache (handler s)) path entries now (ok_wf _ _ Hok)) as [W Hin].
    apply cache_ok; [done|done|]. intros p e Hp He. destruct (Hin p e He) as [[_ ?]|(-> & Hneg & Hdir & _ & Hfi)]; [by left|right].
    destruct Hfi as [Hnone|(y & Hy & Hyd & Hyn & Hfi)].
    + right. split_and!; intros; congruence.
    + destruct (ok_cache _ _ Hok path y Hp Hy) as [?|(A1 & A2 & A3)]; [by left|right].
      split_and!; [congruence| |]; intros i Hi; rewrite Hfi in Hi; rewrite (A2 i Hi); congruence.
Qed.

Lemma runs_ok n s s' : ok 0 s -> runs n s s' -> Z.of_nat n < 2 ^ 60 -> ok n s'.
Proof. intros H0 Hr Hn. induction Hr as [|n s s1 s2 Hr IH Hs]; [done|]. eapply step_ok; [apply IH; [done|lia]|lia|done]. Qed.

(** No lookup and no change under way. *)
Definition quiet (h : OperationsHandler) : state := mkState h ∅ ∅.

Lemma quiet_ok h : wf (mcache h) -> (forall p e, ~ holds (mcache h) p e) -> lookups h = ∅ -> ok 0 (quiet h).
Proof.
  intros W Hno Hl. split; simpl; try done; rewrite ?Hl; try done.
  - intros p e _ Hh. by destruct (Hno p e).
  - intros p Hp. unfold looking in Hp. simpl in Hp. rewrite map_filter_empty, map_size_empty in Hp. lia.
Qed.


End Safety.

(** ** Examples *)

#[local] Existing Instance MemoryBucket.memory_bucket.
#[local] Existing Instance MemoryBucket.memory_laws.
#[local] Existing Instance decimal_times.

Abbreviation Stat_ := (Namespace.Stat 9 map_to_list (fun _ => false) 10).

Definition one_file : OperationsHandler := started {[ "a" := mkStored [Byte.x01] ∅ 5 "1" ]} [].

(** A lookup of [/a], call by call. *)
Definition at_begin : state :=
  mkState (set_lookups (begin (lookups one_file) "/a").1 one_file) {[ 0%nat := mkLookup "/a" 0 None None None ]} ∅.
Definition head1 := HeadObject (cos (handler at_begin)) "a".
Definition at_head1 : state :=
  mkState (set_cos head1.1 (handler at_begin)) (<[ 0%nat := mkLookup "/a" 0 (Some head1.2) None None ]> (inflight at_begin)) ∅.
Definition head2 := HeadObject (cos (handler at_head1)) "a/".
Definition last_lookup : lookup := mkLookup "/a" 0 (Some head1.2) (Some head2.2) None.
Definition at_head2 : state :=
  mkState (set_cos head2.1 (handler at_head1)) (<[ 0%nat := last_lookup ]> (inflight at_head1)) ∅.
Definition the_verdict : verdict := default Absent (concluded 9 map_to_list last_lookup).
Definition ended := stat_end 9 "/a" 0 the_verdict 100 (handler at_head2).
Definition at_end : state := mkState ended.1 (delete 0%nat (inflight at_head2)) ∅.

Lemma slash_a_clean : clean "/a".
Proof. exists ["a"]. split; [by apply Paths.names_check|done]. Qed.

Lemma lookup_run : runs 9 map_to_list id (fun _ => false) 10 4 (quiet one_file) at_end.
Proof.
  assert (runs 9 map_to_list id (fun _ => false) 10 1 (quiet one_file) at_begin) as R1.
  { eapply runs_more; [apply runs_none|]. apply step_begin; [apply slash_a_clean|done|done]. }
  assert (runs 9 map_to_list id (fun _ => false) 10 2 (quiet one_file) at_head1) as R2.
  { eapply runs_more; [exact R1|]. apply (step_head_file _ _ _ _ _ at_begin 0 (mkLookup "/a" 0 None None None));
      [apply lookup_singleton_eq|apply surjective_pairing]. }
  assert (runs 9 map_to_list id (fun _ => false) 10 3 (quiet one_file) at_head2) as R3.
  { eapply runs_more; [exact R2|].
    apply (step_head_dir _ _ _ _ _ at_head1 0 (mkLookup "/a" 0 (Some head1.2) None None));
      [apply lookup_insert_eq|apply surjective_pairing]. }
  eapply runs_more; [exact R3|]. apply (step_end _ _ _ _ _ at_head2 0 last_lookup the_verdict 100 ended.1 ended.2);
    [apply lookup_insert_eq|by vm_compute|apply surjective_pairing].
Qed.


(** ** Where the fences do not reach *)

(** A lookup of [path] whose probes are answered before [change] and which ends
    after it, and the lookup after that. *)
Definition overtaken (path : string) (change : OperationsHandler -> OperationsHandler) (h : OperationsHandler) : FileInfo + goerr :=
  let '(f, g) := begin (lookups h) (Paths.NormalizePath path) in
  let h := set_lookups f h in
  let '(b, v) := probe 9 map_to_list (fun _ => false) 10 path (cos h) in
  let h := change (set_cos b h) in
  let h := (stat_end 9 path g v 100 h).1 in
  (Stat_ path 101 h).2.

Definition set_mode (m : Z) : AttributeUpdate := mkUpdate (Some m) None None None None None None None.

(** [UpdateAttributes] drops the cached entry and leaves the lookup fence alone, so
    a lookup under way caches the attributes from before the change. *)
Lemma attribute_update_not_fenced :
  match overtaken "/a" (fun h => (Namespace.UpdateAttributes 9 map_to_list (fun _ => false) 10 "/a" (set_mode 256) 100 h).1) one_file,
        (Stat_ "/a" 101 (Namespace.UpdateAttributes 9 map_to_list (fun _ => false) 10 "/a" (set_mode 256) 100 one_file).1).2 with
  | inl stale, inl fresh => mode stale = DefaultFileMode /\ mode fresh = 256
  | _, _ => False
  end.
Proof. by vm_compute. Qed.

(** A file written in a directory that has no marker brings the directory into
    being; only the listing fence of the directory is told, and a lookup of it
    that was under way caches its absence. *)
Lemma implicit_directory_not_fenced :
  let write h := (WriteFile 9 "/d/f" [Byte.x01] None h).1 in
  overtaken "/d" write one_file = inr ErrNotExist /\
  match (Stat_ "/d" 101 (write one_file)).2 with inl i => isDir i = true | inr _ => False end.
Proof. by vm_compute. Qed.

(** The removal of a directory tells the listing fences of its ancestors and not
    its own, so a listing of it that was under way is cached afterwards, and with
    it the directory is there again. *)
Lemma removed_directory_reappears :
  let h := started {[ "d/" := mkStored [] ∅ 5 "1" ]} [] in
  let '(f, g) := begin (listings h) "/d" in
  let '(b, r) := ListObjects (cos h) "d/" 12 in
  let h := set_cos b (set_listings f h) in
  let '(h, removed) := DeleteDirectory 9 map_to_list id (fun _ => false) 10 "/d" 100 h in
  let h := (list_end 9 map_to_list (fun _ => false) 10 "/d" g (match r with inl l => l | inr _ => [] end) 100 h).1 in
  removed = None /\ objects (cos h) !! "d/" = None /\
  match (Stat_ "/d" 101 h).2 with inl i => isDir i = true | inr _ => False end.
Proof. by vm_compute. Qed.

(** A listing asks for all objects below a directory, not for its children, and at
    most for two more than the limit on entries: a subdirectory with many objects
    hides the names after it, without an error. *)
Lemma large_subdirectory_hides_names :
  let objs := {[ "a/1" := mkStored [] ∅ 5 ""; "a/2" := mkStored [] ∅ 5 ""; "a/3" := mkStored [] ∅ 5 "";
                 "a/4" := mkStored [] ∅ 5 ""; "b" := mkStored [] ∅ 5 "" ]} in
  match (ListDirectory 9 map_to_list (fun _ => false) 2 "/" 100 (started objs [])).2 with
  | inl entries => name <$> entries = ["a"]
  | inr _ => False
  end.
Proof. by vm_compute. Qed.

End NamespaceSafety.
