(* ===== verification/NamespaceListing.v ===== *)
(** * What a listing reports ([ListDirectory] in [internal/posix/operations.go])

    A directory is what the keys of the bucket make it: the theorem here says
    which names and kinds a listing has, for a directory small enough to be
    listed whole. *)
From S2P Require Import Prelude GoPath StagingTypes LRU ListingFence Streams Paths CosClient Attributes MetadataCache Bucket Namespace NamespaceLookup.
Import Attributes ListingFence MetadataCache Namespace NamespaceLookup.

Module NamespaceListing.

(** ** Keys and the names in them *)

Definition key_suffix (sfx : string) : Prop := sfx = "" \/ sfx = "/".

(** The prefix of the directory of the names [ds]. *)
Definition dir_prefix (ds : list string) : string := match ds with [] => "" | _ => JoinSlash ds +:+ "/" end.

Lemma ListPrefix_dir ds : Forall is_name ds -> Paths.ListPrefix (Paths.path_of ds) = dir_prefix ds.
Proof.
  intros Hds. destruct ds as [|d ds]; [done|]. by apply Paths.ListPrefix_names; [|apply Paths.Clean_path_of|].
Qed.

Lemma key_below ds n rest : JoinSlash (ds ++ n :: rest) = dir_prefix ds +:+ JoinSlash (n :: rest).
Proof. destruct ds as [|d ds]; [done|]. rewrite Paths.JoinSlash_app by done. unfold dir_prefix. by rewrite string_app_assoc. Qed.

Lemma TrimRightSlash_snoc s : TrimRightSlash (s +:+ "/") = TrimRightSlash s.
Proof.
  induction s as [|c s IH]; [done|]. change (String c s +:+ "/") with (String c (s +:+ "/")). cbn [TrimRightSlash].
  by rewrite IH.
Qed.

Lemma HasSuffix_snoc s : HasSuffix (s +:+ "/") "/" = true.
Proof. apply HasSuffix_spec. eauto. Qed.

Lemma child_of_key ds n rest sfx :
  Forall is_name ds -> Forall is_name (n :: rest) -> key_suffix sfx ->
  child_of (dir_prefix ds) (JoinSlash (ds ++ n :: rest) +:+ sfx) =
    Some (n, negb (bool_decide (rest = [])) || bool_decide (sfx = "/")).
Proof.
  intros Hds Hn Hsfx. unfold child_of.
  assert (Hrel : (if bool_decide (dir_prefix ds = "") then JoinSlash (ds ++ n :: rest) +:+ sfx
    else TrimPrefix (JoinSlash (ds ++ n :: rest) +:+ sfx) (dir_prefix ds)) = JoinSlash (n :: rest) +:+ sfx).
  { rewrite key_below, string_app_assoc. case_bool_decide as Hp; [by rewrite Hp|]. apply TrimPrefix_app. }
  rewrite Hrel. assert (Hne : JoinSlash (n :: rest) <> "") by (by apply Paths.JoinSlash_nonempty).
  assert (Htrim : TrimLeftSlash (TrimRightSlash (JoinSlash (n :: rest) +:+ sfx)) = JoinSlash (n :: rest)).
  { assert (TrimRightSlash (JoinSlash (n :: rest) +:+ sfx) = JoinSlash (n :: rest)) as ->.
    { destruct Hsfx as [->| ->]; rewrite ?string_app_nil_r, ?TrimRightSlash_snoc;
        apply Paths.TrimRightSlash_no; by apply Paths.JoinSlash_no_trailing. }
    apply TrimLeftSlash_no. by apply Paths.JoinSlash_not_rooted. }
  rewrite Htrim, SplitSlash_JoinSlash by (try apply Paths.names_no_slash; done).
  rewrite bool_decide_false by (destruct (JoinSlash (n :: rest)); [done|done]).
  f_equal. f_equal. f_equal. destruct Hsfx as [->| ->].
  - rewrite string_app_nil_r, Paths.JoinSlash_no_trailing by (by apply Forall_app). by rewrite bool_decide_false.
  - rewrite HasSuffix_snoc. by rewrite bool_decide_true.
Qed.

(** A key under a directory's prefix is the directory's marker or names something
    below it. *)
Lemma key_under ds es sfx :
  Forall is_name ds -> Forall is_name es -> es <> [] -> key_suffix sfx ->
  HasPrefix (JoinSlash es +:+ sfx) (dir_prefix ds) = true ->
  (es = ds /\ sfx = "/") \/ exists n rest, es = ds ++ n :: rest.
Proof.
  intros Hds Hes Hne Hsfx Hp. destruct ds as [|d ds].
  { right. destruct es as [|e es]; [done|]. by exists e, es. }
  assert (Hb : es = d :: ds /\ sfx = "/" \/ Paths.below (d :: ds) es).
  { destruct Hsfx as [->| ->].
    - rewrite string_app_nil_r in Hp. right. by apply Paths.below_spec.
    - destruct (Paths.marker_prefix (d :: ds) es) as [->|]; [done..|by left|by right]. }
  destruct Hb as [?|(n & rest & ->)]; [by left|right; eauto].
Qed.

(** The marker itself is not an entry. *)
Lemma child_of_marker ds : child_of (dir_prefix ds) (dir_prefix ds) = None.
Proof.
  unfold child_of. pose proof (TrimPrefix_app (dir_prefix ds) "") as Ht. rewrite string_app_nil_r in Ht. rewrite Ht.
  destruct (decide (dir_prefix ds = "")) as [E|E]; [by rewrite E|]. by rewrite (bool_decide_false _ E).
Qed.

(** A string comes before its extensions. *)
Lemma extension_after s c t : string_ltb s (s +:+ String c t) = true.
Proof. induction s as [|x s IH]; [done|]. simpl. by rewrite N.ltb_irrefl. Qed.

(** ** First occurrences *)

Fixpoint firsts (seen : list string) (l : list (string * bool)) : list (string * bool) :=
  match l with
  | [] => []
  | (n, d) :: l => if bool_decide (n ∈ seen) then firsts seen l else (n, d) :: firsts (n :: seen) l
  end.

Lemma firsts_names l : forall seen n, n ∈ (firsts seen l).*1 <-> n ∈ l.*1 /\ n ∉ seen.
Proof.
  induction l as [|[x d] l IH]; intros seen n; simpl; [set_solver|].
  case_bool_decide as Hx; rewrite ?fmap_cons, ?elem_of_cons, IH; simpl; rewrite ?elem_of_cons; [|destruct (decide (n = x))]; naive_solver.
Qed.

Lemma firsts_NoDup l : forall seen, NoDup (firsts seen l).*1.
Proof.
  induction l as [|[x d] l IH]; intros seen; simpl; [constructor|]. case_bool_decide; [done|].
  rewrite fmap_cons. constructor; [|done]. rewrite firsts_names. set_solver.
Qed.

Lemma firsts_split l : forall seen n d, (n, d) ∈ firsts seen l ->
  exists l1 l2, l = l1 ++ (n, d) :: l2 /\ n ∉ l1.*1.
Proof.
  induction l as [|[x b] l IH]; intros seen n d; simpl; [by intros ?%elem_of_nil|]. case_bool_decide as Hx.
  - intros Hin. destruct (IH _ _ _ Hin) as (l1 & l2 & -> & Hn). exists ((x, b) :: l1), l2. split; [done|].
    assert (n ∈ (firsts seen (l1 ++ (n, d) :: l2)).*1) as [_ Hs]%firsts_names by (apply list_elem_of_fmap; by exists (n, d)).
    rewrite fmap_cons. set_solver.
  - intros [[= -> ->]|Hin]%elem_of_cons; [exists [], l; split; [done|set_solver]|].
    destruct (IH _ _ _ Hin) as (l1 & l2 & Heq & Hn). exists ((x, b) :: l1), l2. split; [by rewrite Heq|].
    assert (n ∈ (firsts (x :: seen) l).*1) as [_ Hs]%firsts_names by (apply list_elem_of_fmap; by exists (n, d)).
    rewrite fmap_cons. set_solver.
Qed.

Lemma omap_split {A B} (f : A -> option B) (l : list A) : forall c1 y c2, omap f l = c1 ++ y :: c2 ->
  exists l1 x l2, l = l1 ++ x :: l2 /\ omap f l1 = c1 /\ f x = Some y /\ omap f l2 = c2.
Proof.
  induction l as [|a l IH]; intros c1 y c2; csimpl; [by destruct c1|]. destruct (f a) as [b|] eqn:Ef.
  - destruct c1 as [|z c1]; simpl; intros [= -> H].
    + by exists [], a, l.
    + destruct (IH _ _ _ H) as (l1 & x & l2 & -> & <- & Hx & <-). exists (a :: l1), x, l2. csimpl. by rewrite Ef.
  - intros H. destruct (IH _ _ _ H) as (l1 & x & l2 & -> & <- & Hx & <-). exists (a :: l1), x, l2. csimpl. by rewrite Ef.
Qed.

(** A key that makes its name a directory extends the key of the file. *)
Lemma longer_key ds n rest sfx :
  negb (bool_decide (rest = [])) || bool_decide (sfx = "/") = true ->
  exists t, JoinSlash (ds ++ n :: rest) +:+ sfx = JoinSlash (ds ++ [n]) +:+ String slash t.
Proof.
  destruct rest as [|r rest].
  - rewrite (bool_decide_true ([] = [])) by done. simpl. intros ->%bool_decide_eq_true. by exists "".
  - intros _. exists (JoinSlash (r :: rest) +:+ sfx).
    replace (ds ++ n :: r :: rest) with ((ds ++ [n]) ++ r :: rest) by (by rewrite <-app_assoc).
    rewrite Paths.JoinSlash_app by (by destruct ds). by rewrite !string_app_assoc.
Qed.

Section Listing.
Context `{BL : BucketLaws} {TT : TimeText} {DI : DataInvalidation}.
Context (startup : Time) (meta_order : gmap string string -> list (string * string))
  (pendingDelete : string -> bool) (maxEntries : Z).

Abbreviation pending := (isPendingDelete pendingDelete).
Abbreviation ListDirectory := (Namespace.ListDirectory startup meta_order pendingDelete maxEntries).

(** The children the listed objects stand for, in order. *)
Definition children (prefix : string) (objs : list ObjectMetadata) : list (string * bool) :=
  omap (fun o => if pending (Key o) then None else child_of prefix (Key o)) objs.

Definition kind (i : FileInfo) : string * bool := (name i, isDir i).

Lemma entries_loop_kinds path prefix now objs : forall c seen hid entries,
  kind <$> (entries_loop startup meta_order pendingDelete path prefix now c seen hid entries objs).1.2 =
  (kind <$> entries) ++ firsts seen (children prefix objs).
Proof.
  induction objs as [|o objs IH]; intros c seen hid entries; cbn [entries_loop].
  { simpl. by rewrite app_nil_r. }
  unfold children. cbn [omap list_omap]. fold (children prefix objs).
  destruct (pending (Key o)); [apply IH|].
  destruct (child_of prefix (Key o)) as [[n d]|]; [|apply IH]. cbn [firsts].
  case_bool_decide; [apply IH|]. destruct (cachedEntry _ _ _ _ c) as [c' cached]. destruct (default _ cached) as [a t].
  rewrite IH, fmap_app, <-app_assoc. done.
Qed.

(** The keys of the bucket are paths of names, or those of directory markers. *)
Definition well_formed (objs : gmap string stored) : Prop :=
  forall k o, objs !! k = Some o -> exists es sfx, Forall is_name es /\ es <> [] /\ key_suffix sfx /\ k = JoinSlash es +:+ sfx.

Definition visible (objs : gmap string stored) (k : string) : Prop := is_Some (objs !! k) /\ pending k = false.

(** [n] names something in the directory [ds]. *)
Definition child (objs : gmap string stored) (ds : list string) (n : string) : Prop :=
  exists rest sfx, Forall is_name (n :: rest) /\ key_suffix sfx /\ visible objs (JoinSlash (ds ++ n :: rest) +:+ sfx).

(** A listed object that counts names something below the directory. *)
Lemma listed_child objs ds o n d :
  Forall is_name ds -> well_formed objs -> o ∈ listing objs (dir_prefix ds) ->
  (if pending (Key o) then None else child_of (dir_prefix ds) (Key o)) = Some (n, d) ->
  exists rest sfx, Key o = JoinSlash (ds ++ n :: rest) +:+ sfx /\
    negb (bool_decide (rest = [])) || bool_decide (sfx = "/") = d /\
    Forall is_name (n :: rest) /\ key_suffix sfx /\ visible objs (Key o).
Proof.
  intros Hds Hwf (k & x & Hx & Hp & ->)%elem_of_listing Ho. simpl in *. destruct (pending k) eqn:Epend; [done|].
  destruct (Hwf k x Hx) as (es & sfx & Hes & Hne & Hsfx & ->).
  destruct (key_under ds es sfx Hds Hes Hne Hsfx Hp) as [[-> ->]|(n' & rest & ->)].
  { destruct ds as [|e0 ds0]; [done|]. change (JoinSlash (e0 :: ds0) +:+ "/") with (dir_prefix (e0 :: ds0)) in Ho.
    by rewrite child_of_marker in Ho. }
  apply Forall_app in Hes as [_ Hn]. rewrite child_of_key in Ho by done. injection Ho as <- <-.
  exists rest, sfx. by split_and!.
Qed.

Lemma elem_of_children objs ds n d :
  Forall is_name ds -> well_formed objs ->
  (n, d) ∈ children (dir_prefix ds) (listing objs (dir_prefix ds)) <->
  exists rest sfx, Forall is_name (n :: rest) /\ key_suffix sfx /\ visible objs (JoinSlash (ds ++ n :: rest) +:+ sfx) /\
    d = negb (bool_decide (rest = [])) || bool_decide (sfx = "/").
Proof.
  intros Hds Hwf. unfold children. rewrite list_elem_of_omap. split.
  - intros (o & Hin & Ho). destruct (listed_child objs ds o n d Hds Hwf Hin Ho) as (rest & sfx & Hk & Hd & Hn & Hs & Hv).
    exists rest, sfx. rewrite <-Hk. by split_and!.
  - intros (rest & sfx & Hn & Hsfx & [[x Hx] Hpend] & ->). exists (CosClient.listed (object_of (JoinSlash (ds ++ n :: rest) +:+ sfx) x)).
    split; [|simpl; rewrite Hpend; by apply child_of_key]. apply elem_of_listing. eexists _, x. split_and!; [done| |done].
    rewrite key_below, string_app_assoc. apply HasPrefix_app.
Qed.

Lemma children_names objs ds n :
  Forall is_name ds -> well_formed objs -> n ∈ (children (dir_prefix ds) (listing objs (dir_prefix ds))).*1 <-> child objs ds n.
Proof.
  intros Hds Hwf. rewrite list_elem_of_fmap. split.
  - intros ([n' d] & -> & Hin). apply elem_of_children in Hin as (rest & sfx & ? & ? & ? & _); [|done..].
    by exists rest, sfx.
  - intros (rest & sfx & ? & ? & ?). eexists (n, _). split; [done|]. apply elem_of_children; [done..|]. by exists rest, sfx.
Qed.

#[local] Instance key_le_trans : Transitive key_le.
Proof.
  intros [a x] [b y] [c z]. unfold key_le, Streams.string_le. simpl. intros Hab Hbc.
  destruct (string_ltb c a) eqn:E; [|done]. destruct (string_ltb a b) eqn:E1.
  - by rewrite (string_ltb_trans c a b E E1) in Hbc.
  - assert (a = b) as -> by (by apply string_ltb_total). congruence.
Qed.

#[local] Instance key_le_total : Total key_le.
Proof.
  intros [a x] [b y]. unfold key_le, Streams.string_le. simpl. destruct (string_ltb b a) eqn:E; [|by left]. right.
  destruct (string_ltb a b) eqn:E1; [|done]. pose proof (string_ltb_trans _ _ _ E E1) as Hx. by rewrite string_ltb_irrefl in Hx.
Qed.

Lemma listing_sorted objs prefix :
  StronglySorted (fun a b => Streams.string_le (Key a) (Key b)) (listing objs prefix).
Proof.
  unfold listing. assert (Hs : StronglySorted key_le (merge_sort key_le (map_to_list objs))).
  { apply (StronglySorted_merge_sort key_le). }
  induction Hs as [|[k o] l Hs IH Hall]; [constructor|]. rewrite filter_cons. case_decide as Hp; [|done].
  rewrite fmap_cons. constructor; [done|]. apply Forall_forall. intros y ([k' o'] & -> & [_ Hin]%list_elem_of_filter)%list_elem_of_fmap.
  rewrite Forall_forall in Hall. exact (Hall _ Hin).
Qed.

(** A file's own key comes before the keys below its name, so an entry is a file
    exactly if the file's object is there. *)
Lemma first_kind objs ds n d :
  Forall is_name ds -> well_formed objs ->
  (n, d) ∈ firsts [] (children (dir_prefix ds) (listing objs (dir_prefix ds))) ->
  d = false <-> visible objs (JoinSlash (ds ++ [n])).
Proof.
  intros Hds Hwf Hin. assert (Hmem : (n, d) ∈ children (dir_prefix ds) (listing objs (dir_prefix ds))).
  { destruct (firsts_split _ _ _ _ Hin) as (l1 & l2 & -> & _). set_solver. }
  split.
  - intros ->. apply elem_of_children in Hmem as (rest & sfx & Hn & Hsfx & Hv & Hd); [|done..].
    symmetry in Hd. apply orb_false_iff in Hd as [Hr Hs]. apply negb_false_iff, bool_decide_eq_true in Hr. subst rest.
    apply bool_decide_eq_false in Hs. destruct Hsfx as [->| ->]; [|done]. by rewrite string_app_nil_r in Hv.
  - intros Hv. destruct d; [|done]. exfalso. set (L := listing objs (dir_prefix ds)) in *.
    assert (is_name n) as Hn.
    { apply elem_of_children in Hmem as (rest & sfx & Hn & _); [|done..]. by apply Forall_cons in Hn as [Hn _]. }
    destruct (firsts_split _ _ _ _ Hin) as (c1 & c2 & Hc & Hn1). apply omap_split in Hc as (L1 & o & L2 & HL & H1 & Ho & H2).
    destruct Hv as [[x Hx] Hpend]. set (oK := CosClient.listed (object_of (JoinSlash (ds ++ [n])) x)).
    assert (HfK : (if pending (Key oK) then None else child_of (dir_prefix ds) (Key oK)) = Some (n, false)).
    { simpl. rewrite Hpend. pose proof (child_of_key ds n [] "" Hds) as Hk. rewrite string_app_nil_r in Hk.
      apply Hk; [by constructor|by left]. }
    assert (oK ∈ L1 ++ o :: L2) as [HK|[HK|HK]%elem_of_cons]%elem_of_app.
    { rewrite <-HL. apply elem_of_listing. exists (JoinSlash (ds ++ [n])), x. split_and!; [done| |done].
      rewrite key_below. apply HasPrefix_app. }
    + apply Hn1. rewrite <-H1. apply list_elem_of_fmap. exists (n, false). split; [done|]. apply list_elem_of_omap. by exists oK.
    + subst o. congruence.
    + assert (string_ltb (Key oK) (Key o) = false) as Hle.
      { pose proof (listing_sorted objs (dir_prefix ds)) as Hs. fold L in Hs. rewrite HL in Hs.
        apply StronglySorted_app_1_r, StronglySorted_inv in Hs as [_ Hs]. rewrite Forall_forall in Hs. by apply Hs. }
      destruct (listed_child objs ds o n true Hds Hwf) as (rest & sfx & Hk & Hd & _); [fold L; rewrite HL; set_solver|done|].
      rewrite Hk in Hle. destruct (longer_key ds n rest sfx Hd) as [t Ht]. rewrite Ht in Hle. simpl in Hle.
      by rewrite extension_after in Hle.
Qed.

(** What a listing of [ds] should be: the names in the directory, each once, a file
    exactly where the file's object is. *)
Definition exact_listing (objs : gmap string stored) (ds : list string) (entries : list FileInfo) : Prop :=
  NoDup (name <$> entries) /\
  (forall n, n ∈ name <$> entries <-> child objs ds n) /\
  (forall i, i ∈ entries -> isDir i = false <-> visible objs (JoinSlash (ds ++ [name i]))).

Lemma entries_loop_exact objs ds path now c :
  Forall is_name ds -> well_formed objs ->
  exact_listing objs ds (entries_loop startup meta_order pendingDelete path (dir_prefix ds) now c [] false []
    (listing objs (dir_prefix ds))).1.2.
Proof.
  intros Hds Hwf.
  pose proof (entries_loop_kinds path (dir_prefix ds) now (listing objs (dir_prefix ds)) c [] false []) as Hk.
  set (entries := (entries_loop _ _ _ _ _ _ _ _ _ _ _).1.2) in *. simpl in Hk.
  assert (Hn : name <$> entries = (firsts [] (children (dir_prefix ds) (listing objs (dir_prefix ds)))).*1).
  { rewrite <-Hk, <-list_fmap_compose. done. }
  split_and!.
  - rewrite Hn. apply firsts_NoDup.
  - intros n. rewrite Hn, firsts_names, children_names by done. set_solver.
  - intros i Hi. apply first_kind; [done..|]. rewrite <-Hk. apply list_elem_of_fmap. by exists i.
Qed.

(** C9. A listing of a directory that is not cached, in a bucket whose keys are
    well formed, with at most two more objects anywhere below the directory than
    the limit on entries, has exactly the names in the directory, each once; a
    name is a file exactly if the file's object is there, and objects waiting to
    be deleted do not count. It fails only when the bucket does or when the
    directory has too many entries. With more objects below it the listing can
    miss names. *)
Theorem list_directory_exact (ds : list string) (now : Time) (h h' : OperationsHandler) (r : list FileInfo + goerr)
    (Hds : Forall is_name ds) (W : wf (mcache h)) (Hmiss : forall e, ~ holds (mcache h) (Paths.path_of ds) e)
    (Hwf : well_formed (objects (cos h))) (Hmax : 0 <= maxEntries)
    (Hfits : len (listing (objects (cos h)) (dir_prefix ds)) <= maxEntries + 2)
    (Hlist : ListDirectory (Paths.path_of ds) now h = (h', r)) :
  match r with
  | inl entries => exact_listing (objects (cos h)) ds entries /\ len entries <= maxEntries
  | inr e => (exists b, ListObjects (cos h) (dir_prefix ds) (maxEntries + 2) = (b, inr e)) \/
      exists entries, exact_listing (objects (cos h)) ds entries /\ maxEntries < len entries
  end.
Proof.
  unfold Namespace.ListDirectory in Hlist. destruct (MetadataCache.Get (mcache h) _ now) as [c1 r1] eqn:G1.
  destruct (no_entry_Get _ _ _ _ _ W Hmiss G1) as (-> & W1 & H1). cbn [mbind option_bind set_mcache mcache] in Hlist.
  destruct (MetadataCache.Get c1 _ now) as [c2 r2] eqn:G2.
  destruct (no_entry_Get _ _ _ _ _ W1 (fun e He => Hmiss e (H1 _ _ He)) G2) as (-> & W2 & H2).
  cbn [mbind option_bind] in Hlist. unfold list_fetch in Hlist. destruct (begin _ _) as [f g].
  rewrite ListPrefix_dir in Hlist by done. cbn [cos set_listings set_mcache] in Hlist.
  destruct (ListObjects (cos h) (dir_prefix ds) (maxEntries + 2)) as [b [l|e]] eqn:El.
  - apply list_found in El. unfold CosClient.up_to in El. rewrite (proj2 (Z.ltb_lt 0 _)), take_ge in El by lia. subst l.
    unfold list_end in Hlist. rewrite ListPrefix_dir in Hlist by done. cbn [mcache set_cos set_listings set_mcache] in Hlist.
    pose proof (entries_loop_exact (objects (cos h)) ds (Paths.path_of ds) now c2 Hds Hwf) as Hex.
    destruct (entries_loop _ _ _ _ _ _ _ _ _ _ _) as [[c3 entries] hid]. simpl in Hex.
    destruct (end_ _ _ g) as [f' current]. destruct (maxEntries <? len entries) eqn:E; bool_to_prop.
    + injection Hlist as _ <-. right. by exists entries.
    + destruct (negb current || hid); injection Hlist as _ <-; done.
  - destruct (GetStale _ (Paths.path_of ds)) as [x|] eqn:Es.
    { exfalso. apply (Hmiss x), H1, H2. by apply GetStale_holds. }
    injection Hlist as _ <-. left. by exists b.
Qed.

End Listing.

#[local] Existing Instance MemoryBucket.memory_bucket.
#[local] Existing Instance MemoryBucket.memory_laws.
#[local] Existing Instance decimal_times.

Lemma sample_well_formed : well_formed sample_objects.
Proof.
  intros k o Hk. unfold sample_objects in Hk. apply lookup_insert_Some in Hk as [[<- _]|[_ Hk]].
  - exists ["a"; "b"; "c"], "". split_and!; [by apply Paths.names_check|done|by left|done].
  - apply lookup_singleton_Some in Hk as [<- _]. exists ["d"], "/". split_and!; [by apply Paths.names_check|done|by right|done].
Qed.

Lemma list_directory_exact_witness :
  let r := Namespace.ListDirectory 9 map_to_list (fun _ => false) 10 "/" 100 (started sample_objects []) in
  match r.2 with
  | inl entries => name <$> entries = ["a"; "d"] /\
      exact_listing (fun _ => false) sample_objects [] entries /\ len entries <= 10
  | inr e => False
  end.
Proof.
  intros r.
  pose proof (list_directory_exact 9 map_to_list (fun _ => false) 10 [] 100 (started sample_objects []) r.1 r.2
    ltac:(constructor) (LRU.wf_new _ _) (started_holds _ _ _) sample_well_formed ltac:(lia) ltac:(by vm_compute)
    (surjective_pairing _)) as Ht.
  assert (exists entries, r.2 = inl entries /\ name <$> entries = ["a"; "d"]) as (entries & Hr & Hn)
    by (eexists; split; by vm_compute).
  rewrite Hr in Ht |- *. by split.
Defined.

End NamespaceListing.
