(* ===== verification/ObjectRefresh.v ===== *)
(** * The refresh scan ([internal/posix/object_refresh.go])

    Changes made directly in the bucket are found by listing it again and
    comparing signatures.  The caches of a changed path are dropped, the change
    is reported, and a change under a file with staged writes is recorded as a
    conflict. *)
From S2P Require Import Prelude GoPath StagingTypes LRU ListingFence Streams Paths CosClient Attributes MetadataCache Bucket Namespace NamespaceLookup.
Import Attributes ListingFence MetadataCache Namespace NamespaceLookup.

Module ObjectRefresh.

Record objectSignature := mkSignature { sig_size : Z; sig_etag : string; sig_lastModified : Z }.
#[global] Instance objectSignature_eq : EqDecision objectSignature.
Proof. solve_decision. Defined.

Record ObjectConflict := mkConflict {
  c_Path : string;
  c_Key : string;
  c_Size : Z;
  c_ETag : string;
  c_LastModified : Time;
  c_Deleted : bool;
  c_DetectedAt : Time
}.

Inductive ObjectChangeKind := ObjectAdded | ObjectRemoved | ObjectModified.

Record ObjectChange := mkChange { ch_Path : string; ch_Kind : ObjectChangeKind; ch_IsDir : bool }.

(** The scanner's own state. *)
Record ObjectRefreshScanner := mkScanner {
  known : gmap string objectSignature;
  observed : bool
}.

Definition NewObjectRefreshScanner : ObjectRefreshScanner := mkScanner ∅ false.

Section Refresh.
Context `{BS : BucketStore} {DI : DataInvalidation}.
(** The prefix that is scanned, the checks and callbacks of the staging layer (the
    recorder says whether it succeeded), and the order of a map. *)
Context (prefix : string) (dirty : string -> bool) (conflictRecorder : option (ObjectConflict -> bool))
  (key_order : list string -> list string).

(** What a scan hands on: changes and conflicts, in the order they are found. *)
Record report := mkReport { changes : list ObjectChange; conflicts : list ObjectConflict }.

Definition signature (o : ObjectMetadata) : objectSignature := mkSignature (Size o) (ETag o) (LastModified o).

Definition signatures (objs : list ObjectMetadata) : gmap string objectSignature :=
  foldl (fun m o => if bool_decide (Key o = "") then m else <[Key o := signature o]> m) ∅ objs.

Definition objectConflict (path key : string) (current : gmap string objectSignature) (now : Time) : ObjectConflict :=
  match current !! key with
  | Some sig => mkConflict path key (sig_size sig) (sig_etag sig) (sig_lastModified sig) false now
  | None => mkConflict path key 0 "" 0 true now
  end.

(** The keys whose signature is new, different or gone. *)
Definition changedKeys (s : ObjectRefreshScanner) (current : gmap string objectSignature) : gset string :=
  if observed s then
    dom (filter (fun kv => known s !! kv.1 <> Some kv.2) current) ∪
    dom (filter (fun kv => current !! kv.1 = None) (known s))
  else ∅.

Definition change_of (s : ObjectRefreshScanner) (current : gmap string objectSignature) (path key : string) : ObjectChange :=
  let kind := match known s !! key, current !! key with
              | None, _ => ObjectAdded
              | Some _, None => ObjectRemoved
              | Some _, Some _ => ObjectModified
              end in
  mkChange path kind (HasSuffix key "/").

(** The body of the loop over the changed keys. *)
Definition refresh_key (s : ObjectRefreshScanner) (current : gmap string objectSignature) (now : Time)
    (st : OperationsHandler * report) (key : string) : OperationsHandler * report :=
  let '(h, rep) := st in
  let path := Paths.ToFSPath translator key in
  if bool_decide (path = "/") || bool_decide (path = ".") then (h, rep)
  else if dirty path then
    let conflict := objectConflict path key current now in
    match conflictRecorder with
    | Some record =>
        if record conflict
        then (invalidateDataPath path (invalidateObjectPath path h), mkReport (changes rep) (conflicts rep ++ [conflict]))
        else (invalidateParentListing path h, rep)
    | None => (invalidateParentListing path h, rep)
    end
  else
    (invalidateDataPath path (invalidateObjectPath path h),
     mkReport (changes rep ++ [change_of s current path key]) (conflicts rep)).

(** [runOnce]. *)
Definition runOnce (s : ObjectRefreshScanner) (now : Time) (h : OperationsHandler)
    : ObjectRefreshScanner * OperationsHandler * report :=
  match ListObjects (cos h) prefix 0 with
  | (b, inr _) => (s, set_cos b h, mkReport [] [])
  | (b, inl objs) =>
      let current := signatures objs in
      let keys := key_order (elements (changedKeys s current)) in
      let '(h, rep) := foldl (refresh_key s current now) (set_cos b h, mkReport [] []) keys in
      (mkScanner current true, h, rep)
  end.

(** ** What a scan finds *)

Lemma elem_of_changedKeys s current k :
  observed s = true -> k ∈ changedKeys s current <-> known s !! k <> current !! k.
Proof.
  intros Ho. unfold changedKeys. rewrite Ho, elem_of_union, !elem_of_dom. unfold is_Some.
  setoid_rewrite map_lookup_filter_Some. simpl. destruct (known s !! k) as [a|], (current !! k) as [b|]; naive_solver.
Qed.

(** Keys that are looked at, and those under staged writes. *)
Definition relevant (k : string) : bool :=
  let path := Paths.ToFSPath translator k in negb (bool_decide (path = "/") || bool_decide (path = ".")).
Definition staged (k : string) : bool := dirty (Paths.ToFSPath translator k).

(** A path whose caches a key's change drops. *)
Definition dropped (current : gmap string objectSignature) (now : Time) (k : string) : bool :=
  relevant k && (negb (staged k) ||
    match conflictRecorder with
    | Some record => record (objectConflict (Paths.ToFSPath translator k) k current now)
    | None => false
    end).

Lemma refresh_changes s current now keys : forall h rep,
  changes (foldl (refresh_key s current now) (h, rep) keys).2 =
  changes rep ++ ((fun k => change_of s current (Paths.ToFSPath translator k) k) <$>
    filter (fun k => relevant k && negb (staged k) = true) keys).
Proof.
  induction keys as [|k keys IH]; intros h rep; [simpl; by rewrite app_nil_r|]. cbn [foldl]. rewrite filter_cons.
  assert (Hk : changes (refresh_key s current now (h, rep) k).2 =
    changes rep ++ if relevant k && negb (staged k) then [change_of s current (Paths.ToFSPath translator k) k] else []).
  { unfold refresh_key, relevant, staged. destruct (bool_decide _ || bool_decide _); simpl; [by rewrite app_nil_r|].
    destruct (dirty _); simpl; [|done]. rewrite app_nil_r.
    destruct conflictRecorder as [record|]; [destruct (record _)|]; done. }
  destruct (refresh_key s current now (h, rep) k) as [h1 rep1]. simpl in Hk. rewrite IH, Hk.
  destruct (relevant k && negb (staged k)) eqn:E; [rewrite decide_True by done|rewrite decide_False by done].
  - by rewrite <-app_assoc.
  - by rewrite app_nil_r.
Qed.

Lemma refresh_key_cache s current now h rep k :
  wf (mcache h) -> let h' := (refresh_key s current now (h, rep) k).1 in
  wf (mcache h') /\ (forall p e, holds (mcache h') p e -> holds (mcache h) p e /\
    (dropped current now k = true -> p <> Paths.ToFSPath translator k)).
Proof.
  intros W. unfold refresh_key, dropped, relevant, staged. destruct (_ || _); [done|].
  set (path := Paths.ToFSPath translator k).
  assert (Hobj : wf (mcache (invalidateDataPath path (invalidateObjectPath path h))) /\
    forall p e, holds (mcache (invalidateDataPath path (invalidateObjectPath path h))) p e -> holds (mcache h) p e /\ p <> path).
  { destruct (Delete_holds (mcache h) path W) as [W1 H1]. unfold invalidateObjectPath, invalidateAncestorListings.
    match goal with |- context [ancestors_loop ?n ?d ?h1] => destruct (ancestors_loop_spec n d h1 W1) as (_ & _ & W2 & H2) end.
    split; [exact W2|]. intros p e Hp. by destruct (H1 p e (H2 p e Hp)). }
  assert (Hpar : wf (mcache (invalidateParentListing path h)) /\
    forall p e, holds (mcache (invalidateParentListing path h)) p e -> holds (mcache h) p e).
  { by destruct (ancestors_loop_spec (S (String.length (Paths.GetParentPath path))) (Paths.GetParentPath path) h W) as (_ & _ & ? & ?). }
  destruct Hobj as [O1 O2], Hpar as [P1 P2].
  destruct (dirty path); simpl; [destruct conflictRecorder as [record|]; [destruct (record _)|]|]; simpl;
    (split; [done|]); intros p e Hp; try (by split; [apply P2|]); destruct (O2 p e Hp); by split.
Qed.

Lemma refresh_cache s current now keys : forall h rep,
  wf (mcache h) -> let h' := (foldl (refresh_key s current now) (h, rep) keys).1 in
  wf (mcache h') /\ (forall p e, holds (mcache h') p e -> holds (mcache h) p e /\
    forall k, k ∈ keys -> dropped current now k = true -> p <> Paths.ToFSPath translator k).
Proof.
  induction keys as [|k keys IH]; intros h rep W.
  { simpl. split; [done|]. intros p e Hp. split; [done|]. by intros k Hk%elem_of_nil. }
  cbn [foldl]. destruct (refresh_key s current now (h, rep) k) as [h1 rep1] eqn:E.
  pose proof (refresh_key_cache s current now h rep k W) as Hk. rewrite E in Hk. destruct Hk as [W1 H1].
  destruct (IH h1 rep1 W1) as [W2 H2]. split; [done|]. intros p e Hp. destruct (H2 p e Hp) as [Hp1 Hp2].
  destruct (H1 p e Hp1) as [Hp3 Hp4]. split; [done|]. intros x [->|Hx]%elem_of_cons; auto.
Qed.

(** A scan reports exactly the objects that were added, changed or removed since
    the last one, except under files with staged writes; and after it the cache
    holds nothing of a path whose change was reported or recorded as a conflict.
    The first scan reports nothing. *)
Theorem scan_reports_changes (s s' : ObjectRefreshScanner) (now : Time) (h h' : OperationsHandler) (rep : report)
    (b : bucket) (objs : list ObjectMetadata) (Horder : forall l, key_order l ≡ₚ l) (W : wf (mcache h))
    (Hlist : ListObjects (cos h) prefix 0 = (b, inl objs)) (Hrun : runOnce s now h = (s', h', rep)) :
  known s' = signatures objs /\ observed s' = true /\
  (observed s = false -> changes rep = [] /\ conflicts rep = []) /\
  (observed s = true ->
     (forall c, c ∈ changes rep <-> exists k, known s !! k <> signatures objs !! k /\ relevant k = true /\ staged k = false /\
        c = change_of s (signatures objs) (Paths.ToFSPath translator k) k) /\
     (forall k e, known s !! k <> signatures objs !! k -> dropped (signatures objs) now k = true ->
        ~ holds (mcache h') (Paths.ToFSPath translator k) e)).
Proof.
  unfold runOnce in Hrun. rewrite Hlist in Hrun. set (current := signatures objs) in *.
  set (keys := key_order (elements (changedKeys s current))) in *.
  destruct (foldl _ _ keys) as [h1 rep1] eqn:Ef. injection Hrun as <- <- <-. split; [done|]. split; [done|]. split.
  - intros Ho. assert (keys = []) as Hk.
    { apply Permutation_nil_r. unfold keys. rewrite Horder. unfold changedKeys. rewrite Ho. by rewrite elements_empty. }
    rewrite Hk in Ef. by injection Ef as _ <-.
  - intros Ho. assert (Hin : forall k, k ∈ keys <-> known s !! k <> current !! k).
    { intros k. unfold keys. rewrite Horder, elem_of_elements. by apply elem_of_changedKeys. }
    split.
    + intros c. pose proof (refresh_changes s current now keys (set_cos b h) (mkReport [] [])) as Hc. rewrite Ef in Hc.
      simpl in Hc. rewrite Hc, list_elem_of_fmap. setoid_rewrite list_elem_of_filter. setoid_rewrite Hin.
      setoid_rewrite andb_true_iff. setoid_rewrite negb_true_iff. naive_solver.
    + intros k e Hk Hd Hh. destruct (refresh_cache s current now keys (set_cos b h) (mkReport [] []) W) as [_ H2].
      rewrite Ef in H2. destruct (H2 _ _ Hh) as [_ H3]. exact (H3 k (proj2 (Hin k) Hk) Hd eq_refl).
Qed.

End Refresh.

#[local] Existing Instance MemoryBucket.memory_bucket.

(** A bucket whose object [a/b/c] changed and to which [d/] was added. *)
Definition before : ObjectRefreshScanner := mkScanner {[ "a/b/c" := mkSignature 9 "0" 1; "gone" := mkSignature 1 "1" 1 ]} true.
Definition gateway : OperationsHandler := started sample_objects [].
Definition scan := runOnce "" (fun p => bool_decide (p = "/gone")) None reverse before 100 gateway.

Lemma scan_reports_changes_witness :
  changes scan.2 = [mkChange "/d" ObjectAdded true; mkChange "/a/b/c" ObjectModified false] /\
  known scan.1.1 = signatures (listing sample_objects "") /\ observed scan.1.1 = true /\
  (observed before = false -> changes scan.2 = [] /\ conflicts scan.2 = []).
Proof.
  split; [by vm_compute|].
  destruct (scan_reports_changes "" (fun p => bool_decide (p = "/gone")) None reverse before scan.1.1 100 gateway scan.1.2 scan.2
    (ListObjects (cos gateway) "" 0).1 (listing sample_objects "")) as (H1 & H2 & H3 & _);
    [apply reverse_Permutation|apply LRU.wf_new|done|by vm_compute|]. by split_and!.
Defined.

End ObjectRefresh.
