(* ===== verification/WriteBuffer.v ===== *)
(** * Write buffers ([internal/buffer])

    Without staging, a write is kept in a buffer that the handles of a path share
    and that is flushed to the object store when it is full or its handle closes.
    The buffer keeps one segment per offset.  The theorem says for which writes
    that is the file they make; the lemmas after it, for which it is not. *)
From S2P Require Import Prelude StagingTypes Disk.
Import Disk.

Module WriteBuffer.

Record WriteBuffer := mkBuffer {
  segments : gmap Z bytes;
  totalSize : Z;
  maxSize : Z;
  dirty : bool;
  lastWrite : Time;
  minOffset : Z;
  maxOffset : Z;
  flushCount : Z;
  bytesWritten : Z
}.

Definition NewWriteBuffer (maxSize : Z) : WriteBuffer := mkBuffer ∅ 0 maxSize false 0 (-1) (-1) 0 0.

Definition Write (wb : WriteBuffer) (offset : Z) (data : bytes) (now : Time) : WriteBuffer * Z :=
  if decide (data = []) then (wb, 0)
  else
    let endOffset := offset + len data in
    (mkBuffer (<[offset := data]> (segments wb)) (totalSize wb + len data) (maxSize wb) true now
       (if (minOffset wb =? -1) || (offset <? minOffset wb) then offset else minOffset wb)
       (if (maxOffset wb =? -1) || (maxOffset wb <? endOffset) then endOffset else maxOffset wb)
       (flushCount wb) (bytesWritten wb + len data),
     len data).

(** The loop of [Read], over the segments in the order the map is walked. *)
Fixpoint read_loop (segs : list (Z * bytes)) (offset length : Z) : option bytes :=
  match segs with
  | [] => None
  | (segOffset, d) :: rest =>
      if (segOffset <=? offset) && (offset <? segOffset + len d) then
        let startInSeg := offset - segOffset in
        let available := len d - startInSeg in
        Some (pread d startInSeg (if available <? length then available else length))
      else read_loop rest offset length
  end.

Definition Read (order : gmap Z bytes -> list (Z * bytes)) (wb : WriteBuffer) (offset length : Z) : option bytes :=
  if (minOffset wb =? -1) || (offset <? minOffset wb) || (maxOffset wb <=? offset) then None
  else read_loop (order (segments wb)) offset length.

Definition ShouldFlush (wb : WriteBuffer) : bool := maxSize wb <=? totalSize wb.

(** [copy(data[off:], seg)], for an offset inside [data]. *)
Definition copy_at (data : bytes) (off : Z) (seg : bytes) : bytes :=
  take (Z.to_nat off) data ++ take (length data - Z.to_nat off) seg ++ drop (Z.to_nat off + length seg) data.

Definition merge_segment (startOffset size : Z) (data : bytes) (s : Z * bytes) : bytes :=
  let copyOffset := s.1 - startOffset in
  if (copyOffset <? 0) || (size <=? copyOffset) then data else copy_at data copyOffset s.2.

(** [sort.Slice] on the offsets. *)
Definition by_offset (a b : Z * bytes) : Prop := a.1 <= b.1.
#[global] Instance by_offset_dec a b : Decision (by_offset a b) := Z.le_dec _ _.

Definition sorted_segments (wb : WriteBuffer) : list (Z * bytes) := merge_sort by_offset (map_to_list (segments wb)).

Definition cleared (wb : WriteBuffer) (flushes : Z) : WriteBuffer :=
  mkBuffer ∅ 0 (maxSize wb) false (lastWrite wb) (-1) (-1) flushes (bytesWritten wb).

(** The merged data and its offset; [None] is the error for a buffer whose range
    is empty. *)
Definition GetFlushData (wb : WriteBuffer) : WriteBuffer * option (bytes * Z) :=
  match (if dirty wb then sorted_segments wb else []) with
  | [] => (wb, Some ([], 0))
  | ((startOffset, _) :: _) as segs =>
      let size := maxOffset wb - startOffset in
      if size <=? 0 then (wb, None)
      else (cleared wb (flushCount wb + 1),
            Some (foldl (merge_segment startOffset size) (zeros size) segs, startOffset))
  end.

Definition IsDirty (wb : WriteBuffer) : bool := dirty wb.
Definition Size (wb : WriteBuffer) : Z := totalSize wb.
Definition Clear (wb : WriteBuffer) : WriteBuffer := cleared wb (flushCount wb).

(** ** Copies *)

Lemma length_copy_at data off seg :
  0 <= off < len data -> off + len seg <= len data -> length (copy_at data off seg) = length data.
Proof. intros. unfold copy_at. rewrite !length_app, !length_take, length_drop. lia. Qed.

Lemma lookup_copy_at data off seg i :
  0 <= off < len data -> off + len seg <= len data ->
  copy_at data off seg !! i =
  if decide (off <= Z.of_nat i < off + len seg) then seg !! (i - Z.to_nat off)%nat else data !! i.
Proof.
  intros H1 H2. unfold copy_at. rewrite (take_ge seg) by lia.
  assert (Hl : length (take (Z.to_nat off) data) = Z.to_nat off) by (rewrite length_take; lia).
  destruct (decide (off <= Z.of_nat i < off + len seg)) as [Hi|Hi].
  - rewrite lookup_app_r, Hl, lookup_app_l by lia. done.
  - destruct (decide (Z.of_nat i < off)).
    + rewrite lookup_app_l by lia. apply lookup_take_lt. lia.
    + rewrite lookup_app_r, Hl, lookup_app_r, lookup_drop by lia. f_equal. lia.
Qed.

(** ** Writes that do not overlap *)

(** Byte [i] is one the write [w] writes. *)
Definition covers (w : Z * bytes) (i : Z) : Prop := w.1 <= i < w.1 + len w.2.

Definition disjoint_writes (a b : Z * bytes) : Prop := a.1 + len a.2 <= b.1 \/ b.1 + len b.2 <= a.1.

Definition proper_write (w : Z * bytes) : Prop := 0 <= w.1 /\ w.2 <> [].

Lemma disjoint_covers a b i : disjoint_writes a b -> covers a i -> ~ covers b i.
Proof. unfold disjoint_writes, covers. lia. Qed.

Lemma proper_nonempty w : proper_write w -> 0 < len w.2.
Proof. intros [_ Hw]. destruct (w.2); [done|simpl; lia]. Qed.

(** What a step that copies [w] does to byte [i] makes of a fold over writes that
    do not overlap: the byte of the write that covers it. *)
Lemma fold_covered (step : bytes -> Z * bytes -> bytes) (ok : bytes -> Z * bytes -> Prop) ws f (i : Z) (j : nat) w :
  (forall g v, ok g v -> covers v i -> step g v !! j = v.2 !! Z.to_nat (i - v.1)) ->
  (forall g v, ok g v -> ~ covers v i -> forall x, g !! j = Some x -> step g v !! j = Some x) ->
  (forall g v u, ok g v -> ok g u -> ok (step g v) u) ->
  Forall (ok f) ws -> ForallOrdPairs disjoint_writes ws -> w ∈ ws -> covers w i ->
  foldl step f ws !! j = w.2 !! Z.to_nat (i - w.1).
Proof.
  intros Hin Hout Hok Hf Hd Hw Hc.
  assert (Hnext : forall g v vs, ok g v -> Forall (ok g) vs -> Forall (ok (step g v)) vs).
  { intros g v vs Hv Hvs. eapply Forall_impl; [done|]. intros u Hu. by apply Hok. }
  assert (Hkeep : forall vs g x, Forall (ok g) vs -> (forall v, v ∈ vs -> ~ covers v i) ->
    g !! j = Some x -> foldl step g vs !! j = Some x).
  { induction vs as [|v vs IH]; intros g x Hg Hn Hx; [done|]. apply Forall_cons in Hg as [Hv Hg]. simpl.
    apply IH; [by apply Hnext|set_solver|]. eapply Hout; [done|set_solver|done]. }
  revert f Hf. induction Hd as [|v vs Hdv _ IH]; intros f Hf; [by apply elem_of_nil in Hw|].
  apply Forall_cons in Hf as [Hv Hf]. simpl. apply elem_of_cons in Hw as [->|Hw]; [|by apply IH; [|apply Hnext]].
  assert (Hs : is_Some (v.2 !! Z.to_nat (i - v.1))) by (apply lookup_lt_is_Some_2; unfold covers in Hc; lia).
  destruct Hs as [x Hx]. rewrite Hx. apply Hkeep; [by apply Hnext| |by rewrite Hin, Hx].
  intros u Hu. eapply disjoint_covers; [|done]. by eapply List.Forall_forall in Hdv; [|apply list_elem_of_In].
Qed.

(** A byte that no write covers. *)
Lemma fold_uncovered (step : bytes -> Z * bytes -> bytes) (P : option byte -> Prop) ws f i :
  (forall g v, v ∈ ws -> P (g !! i) -> P (step g v !! i)) -> P (f !! i) -> P (foldl step f ws !! i).
Proof.
  revert f. induction ws as [|v vs IH]; intros f Hstep Hf; [done|]. simpl.
  apply IH; [intros g u Hu; apply Hstep; set_solver|]. apply Hstep; [set_solver|done].
Qed.

(** ** The buffer after writes *)

Definition write_all (wb : WriteBuffer) (ws : list (Z * bytes)) (now : Time) : WriteBuffer :=
  foldl (fun wb w => (Write wb w.1 w.2 now).1) wb ws.

(** The file the writes make. *)
Definition file_of (ws : list (Z * bytes)) : bytes := foldl (fun f w => pwrite f w.1 w.2) [] ws.

Definition last_end (ws : list (Z * bytes)) : Z := foldr (fun w m => Z.max (w.1 + len w.2) m) (-1) ws.

Lemma last_end_ge ws w : w ∈ ws -> w.1 + len w.2 <= last_end ws.
Proof. induction ws; intros Hw; set_unfold in Hw; simpl; [done|]. destruct Hw as [->|Hw]; [|specialize (IHws Hw)]; lia. Qed.

Lemma last_end_snoc ws w : last_end (ws ++ [w]) = Z.max (last_end ws) (w.1 + len w.2).
Proof. induction ws; simpl; [|rewrite IHws]; lia. Qed.

Lemma last_end_reached ws : ws <> [] -> Forall proper_write ws -> exists w, w ∈ ws /\ last_end ws = w.1 + len w.2.
Proof.
  induction ws as [|v vs IH]; [done|]. intros _ [Hv Hvs]%Forall_cons. simpl.
  destruct (decide (vs = [])) as [->|Hne].
  - exists v. split; [set_solver|]. simpl. destruct Hv. lia.
  - destruct (IH Hne Hvs) as (w & Hw & E). rewrite E. destruct (Z.max_spec (v.1 + len v.2) (w.1 + len w.2)) as [[_ ->]|[_ ->]];
      [exists w|exists v]; (split; [set_solver|done]).
Qed.

(** What the buffer holds after [ws]. *)
Definition holds (wb : WriteBuffer) (ws : list (Z * bytes)) : Prop :=
  map_to_list (segments wb) ≡ₚ ws /\ dirty wb = bool_decide (ws <> []) /\ maxOffset wb = last_end ws /\
  (minOffset wb = -1 <-> ws = []) /\ Forall (fun w => minOffset wb <= w.1) ws.

Definition good (ws : list (Z * bytes)) : Prop := Forall proper_write ws /\ ForallOrdPairs disjoint_writes ws.

Lemma good_snoc ws w : good (ws ++ [w]) -> good ws /\ proper_write w /\ Forall (fun v => disjoint_writes v w) ws.
Proof.
  intros [[Hws Hw]%Forall_app Hd]. rewrite Forall_singleton in Hw. refine (conj (conj Hws _) (conj Hw _)).
  - clear -Hd. induction ws as [|v vs IH]; [constructor|]. inversion Hd as [|? ? Hv Hvs]; subst. constructor; [|by apply IH].
    by apply Forall_app in Hv as [Hv _].
  - clear -Hd. induction ws as [|v vs IH]; [constructor|]. inversion Hd as [|? ? Hv Hvs]; subst. constructor; [|by apply IH].
    apply Forall_app in Hv as [_ Hv]. by rewrite Forall_singleton in Hv.
Qed.

Lemma write_all_holds m ws now : good ws -> holds (write_all (NewWriteBuffer m) ws now) ws.
Proof.
  unfold write_all. induction ws as [|w ws IH] using rev_ind.
  { intros _. unfold holds. simpl. rewrite map_to_list_empty. by split_and!. }
  intros (Hg & Hw & Hd)%good_snoc. specialize (IH Hg). rewrite foldl_app. simpl.
  set (wb := foldl _ _ ws) in *. destruct IH as (Hm & Hdirty & Hmax & Hmin & Hle). unfold Write.
  destruct Hw as [Hw0 Hw1]. rewrite decide_False by done. unfold holds. simpl.
  assert (Hlen : 0 < len w.2) by (by apply proper_nonempty).
  assert (Hnew : segments wb !! w.1 = None).
  { destruct (segments wb !! w.1) as [d|] eqn:E; [|done]. apply elem_of_map_to_list in E. rewrite Hm in E.
    rewrite Forall_forall in Hd. pose proof (Hd _ E) as Hov. destruct Hg as [Hp _]. rewrite Forall_forall in Hp.
    pose proof (proper_nonempty _ (Hp _ E)). unfold disjoint_writes in Hov. simpl in *. lia. }
  rewrite last_end_snoc, <-Hmax. split_and!.
  - rewrite map_to_list_insert by done. rewrite Hm. destruct w. apply Permutation_cons_append.
  - symmetry. apply bool_decide_eq_true. by destruct ws.
  - destruct (Z.eqb_spec (maxOffset wb) (-1)); simpl; [lia|]. destruct (Z.ltb_spec (maxOffset wb) (w.1 + len w.2)); lia.
  - split; [|by destruct ws]. destruct (Z.eqb_spec (minOffset wb) (-1)); simpl; [lia|]. zcases.
  - apply Forall_app. split; [|apply Forall_singleton; zcases].
    destruct (Z.eqb_spec (minOffset wb) (-1)) as [E|E]; simpl; [apply Hmin in E as ->; constructor|].
    eapply Forall_impl; [exact Hle|]. simpl. intros v Hv. zcases.
Qed.

Lemma length_file_of ws : Forall proper_write ws -> len (file_of ws) = Z.max 0 (last_end ws).
Proof.
  unfold file_of. induction ws as [|w ws IH] using rev_ind; [done|]. intros [Hws [Hw0 Hw1]%Forall_singleton]%Forall_app.
  rewrite foldl_app, last_end_snoc. simpl. rewrite length_pwrite by done. rewrite IH by done. lia.
Qed.

Lemma file_of_covered ws w i : good ws -> w ∈ ws -> covers w i -> file_of ws !! Z.to_nat i = w.2 !! Z.to_nat (i - w.1).
Proof.
  intros [Hp Hd] Hw Hc. unfold file_of.
  apply (fold_covered _ (fun _ v => proper_write v)); try done.
  - intros g v [Hv0 Hv1] Hcv. unfold covers in Hcv. rewrite lookup_pwrite by done. rewrite decide_True by lia. f_equal. lia.
  - intros g v [Hv0 Hv1] Hcv x Hx. unfold covers in Hcv.
    assert (Hlen : (Z.to_nat i < length g)%nat) by (by eapply lookup_lt_Some).
    assert (0 <= i) by (rewrite Forall_forall in Hp; destruct (Hp _ Hw); unfold covers in Hc; lia).
    rewrite lookup_pwrite by done. rewrite decide_False, decide_True by lia. done.
Qed.

Lemma file_of_uncovered ws i :
  Forall proper_write ws -> 0 <= i < last_end ws -> (forall w, w ∈ ws -> ~ covers w i) ->
  file_of ws !! Z.to_nat i = Some x00.
Proof.
  intros Hp Hi Hn. unfold file_of.
  assert (H : from_option (eq x00) True (foldl (fun f w => pwrite f w.1 w.2) [] ws !! Z.to_nat i)).
  { apply fold_uncovered; [|done]. intros g v Hv Hg. rewrite Forall_forall in Hp. destruct (Hp v Hv) as [Hv0 Hv1].
    specialize (Hn v Hv). unfold covers in Hn. rewrite lookup_pwrite by done. rewrite decide_False by lia.
    repeat case_decide; done. }
  destruct (_ !! _) as [x|] eqn:E; [by simpl in H; subst|]. apply lookup_ge_None in E.
  pose proof (length_file_of ws Hp) as Hl. unfold file_of in Hl. lia.
Qed.

(** ** Flushes *)

#[global] Instance by_offset_trans : Transitive by_offset.
Proof. intros a b c. unfold by_offset. lia. Qed.
#[global] Instance by_offset_total : Total by_offset.
Proof. intros a b. unfold by_offset. lia. Qed.

Lemma disjoint_sym : Symmetric disjoint_writes.
Proof. intros a b. unfold disjoint_writes. lia. Qed.

Lemma pairs_permutation ws vs : ws ≡ₚ vs -> ForallOrdPairs disjoint_writes ws -> ForallOrdPairs disjoint_writes vs.
Proof.
  induction 1 as [|w a b Hab IH|v w l|a b c _ IH1 _ IH2]; intros Hd; [done| | |auto].
  - inversion Hd; subst. constructor; [by rewrite <-Hab|auto].
  - inversion Hd as [|? ? Hv Hd']; subst. inversion Hd' as [|? ? Hw Hl]; subst. apply Forall_cons in Hv as [Hvw Hv].
    constructor; [|by constructor]. constructor; [by apply disjoint_sym|done].
Qed.

Lemma good_permutation ws vs : ws ≡ₚ vs -> good ws -> good vs.
Proof. intros Hp [H1 H2]. split; [by rewrite <-Hp|by eapply pairs_permutation]. Qed.

(** The segments in order are the writes. *)
Lemma sorted_segments_perm wb ws : holds wb ws -> sorted_segments wb ≡ₚ ws.
Proof. intros (Hm & _). unfold sorted_segments. by rewrite merge_sort_Permutation, Hm. Qed.

Lemma first_segment wb start d rest w :
  sorted_segments wb = (start, d) :: rest -> w ∈ sorted_segments wb -> start <= w.1.
Proof.
  intros E Hw. pose proof (StronglySorted_merge_sort by_offset (map_to_list (segments wb))) as Hs.
  fold (sorted_segments wb) in Hs. rewrite E in Hs, Hw. inversion Hs as [|? ? _ Hf]; subst.
  apply elem_of_cons in Hw as [->|Hw]; [done|]. rewrite Forall_forall in Hf. by apply (Hf w).
Qed.

(** What merging needs of a segment. *)
Definition fits (start size : Z) (g : bytes) (w : Z * bytes) : Prop :=
  len g = size /\ start <= w.1 /\ 0 < len w.2 /\ w.1 + len w.2 <= start + size.

Lemma merge_fits start size g v u : fits start size g v -> fits start size g u -> fits start size (merge_segment start size g v) u.
Proof.
  intros (Hl & Hv1 & Hv2 & Hv3) (_ & Hu). split; [|done]. unfold merge_segment.
  destruct (_ || _); [done|]. rewrite length_copy_at; lia.
Qed.

Lemma lookup_merge start size g v i :
  fits start size g v ->
  merge_segment start size g v !! i =
  if decide (covers v (start + Z.of_nat i)) then v.2 !! Z.to_nat (start + Z.of_nat i - v.1) else g !! i.
Proof.
  intros (Hl & Hv1 & Hv2 & Hv3). unfold merge_segment, covers.
  rewrite (proj2 (Z.ltb_ge _ _)), (proj2 (Z.leb_gt _ _)) by lia. simpl. rewrite lookup_copy_at by lia.
  destruct (decide (v.1 - start <= _ < _)); [rewrite decide_True by lia; f_equal; lia|by rewrite decide_False by lia].
Qed.
Lemma fits_all start size g v vs :
  fits start size g v -> Forall (fits start size g) vs -> Forall (fits start size (merge_segment start size g v)) vs.
Proof. intros Hv Hf. eapply Forall_impl; [exact Hf|]. intros u Hu. by apply merge_fits. Qed.

Lemma merged_length start size vs g :
  len g = size -> Forall (fits start size g) vs -> len (foldl (merge_segment start size) g vs) = size.
Proof.
  revert g. induction vs as [|v vs IH]; intros g Hl Hf; [done|]. apply Forall_cons in Hf as [Hv Hf]. simpl.
  apply IH; [by destruct (merge_fits start size g v v Hv Hv)|by apply fits_all].
Qed.

Lemma merged_uncovered start size vs g j :
  Forall (fits start size g) vs -> (forall w, w ∈ vs -> ~ covers w (start + Z.of_nat j)) ->
  foldl (merge_segment start size) g vs !! j = g !! j.
Proof.
  revert g. induction vs as [|v vs IH]; intros g Hf Hn; [done|]. apply Forall_cons in Hf as [Hv Hf]. simpl.
  rewrite IH; [|by apply fits_all|set_solver]. rewrite lookup_merge by done. rewrite decide_False; [done|]. apply Hn. set_solver.
Qed.

Lemma merged_covered start size vs g j w :
  Forall (fits start size g) vs -> ForallOrdPairs disjoint_writes vs -> w ∈ vs -> covers w (start + Z.of_nat j) ->
  foldl (merge_segment start size) g vs !! j = w.2 !! Z.to_nat (start + Z.of_nat j - w.1).
Proof.
  intros Hf Hd Hw Hc. apply (fold_covered _ (fits start size)); try done; [| |apply merge_fits].
  - intros h v Hv Hcv. rewrite lookup_merge by done. by rewrite decide_True.
  - intros h v Hv Hcv x Hx. rewrite lookup_merge by done. by rewrite decide_False.
Qed.

(** The merged segments are the file the writes make, from the first of them on. *)
Lemma merged_is_file ws vs start size :
  good ws -> vs ≡ₚ ws -> 0 <= start -> (forall w, w ∈ ws -> start <= w.1) -> size = last_end ws - start -> ws <> [] ->
  zeros start ++ foldl (merge_segment start size) (zeros size) vs = file_of ws.
Proof.
  intros Hg Hp Hs Hle Hsize Hne. pose proof Hg as [Hpr _].
  assert (Hend : start <= last_end ws).
  { destruct (last_end_reached ws Hne Hpr) as (w & Hw & ->). specialize (Hle w Hw). lia. }
  assert (Hfits : Forall (fits start size (zeros size)) vs).
  { apply Forall_forall. intros w Hw. rewrite Hp in Hw. rewrite Forall_forall in Hpr.
    pose proof (last_end_ge ws w Hw). specialize (Hle w Hw). pose proof (proper_nonempty w (Hpr w Hw)).
    unfold fits. rewrite length_zeros by lia. lia. }
  pose proof (merged_length start size vs _ (length_zeros size ltac:(lia)) Hfits) as Hlen.
  pose proof (length_file_of ws Hpr) as Hfile. assert (Hz : length (zeros start) = Z.to_nat start) by apply length_replicate.
  apply list_eq. intros i. replace (file_of ws !! i) with (file_of ws !! Z.to_nat (Z.of_nat i)) by (by rewrite Nat2Z.id).
  destruct (decide (Z.of_nat i < start)) as [Hi|Hi].
  { rewrite lookup_app_l, lookup_zeros, decide_True by lia. symmetry. apply file_of_uncovered; [done|lia|].
    intros w Hw. specialize (Hle w Hw). unfold covers. lia. }
  rewrite lookup_app_r, Hz by lia. set (j := (i - Z.to_nat start)%nat).
  assert (Hj : start + Z.of_nat j = Z.of_nat i) by lia.
  destruct (decide (Z.of_nat i < last_end ws)) as [Hin|Hin]; [|rewrite !lookup_ge_None_2; [done|lia|lia]].
  destruct (decide (Exists (fun w => covers w (Z.of_nat i)) ws)) as [(w & Hw & Hc)%Exists_exists|Hno].
  - rewrite (file_of_covered ws w) by done. destruct (good_permutation ws vs) as [_ Hd]; [done..|].
    rewrite (merged_covered _ _ _ _ _ w); [by rewrite Hj|done|done|by rewrite Hp|by rewrite Hj].
  - assert (Hn : forall w, w ∈ ws -> ~ covers w (Z.of_nat i)) by (intros w Hw Hc; apply Hno, Exists_exists; eauto).
    rewrite file_of_uncovered by (done || lia). rewrite merged_uncovered; [|done|intros w Hw; rewrite Hj, Hp in *; auto].
    by rewrite lookup_zeros, decide_True by lia.
Qed.

(** ** Reads *)

Lemma read_loop_some segs offset length r :
  0 <= length -> read_loop segs offset length = Some r ->
  exists w, w ∈ segs /\ covers w offset /\ r = pread w.2 (offset - w.1) length.
Proof.
  intros Hl. induction segs as [|[o d] segs IH]; [done|]. simpl. destruct (_ && _) eqn:E; bool_to_prop.
  - intros [= <-]. exists (o, d). split; [set_solver|]. split; [done|]. simpl. unfold pread.
    destruct (Z.ltb_spec (len d - (offset - o)) length); [|done]. rewrite !take_ge; [done|rewrite length_drop; lia..].
  - intros (w & Hw & H)%IH. exists w. split; [set_solver|done].
Qed.

Lemma read_loop_none segs offset length w : read_loop segs offset length = None -> w ∈ segs -> ~ covers w offset.
Proof.
  induction segs as [|[o d] segs IH]; intros E Hw; [by apply elem_of_nil in Hw|]. simpl in E.
  destruct (_ && _) eqn:Ec; [done|]. apply elem_of_cons in Hw as [->|Hw]; [|auto]. unfold covers. simpl. bool_to_prop. lia.
Qed.

Lemma segment_of_file ws w offset n :
  good ws -> w ∈ ws -> covers w offset -> 0 <= offset -> 0 < n ->
  let r := pread w.2 (offset - w.1) n in r <> [] /\ r = pread (file_of ws) offset (len r).
Proof.
  intros Hg Hw Hc Ho Hn r. unfold covers in Hc.
  assert (Hr : length r = (Z.to_nat n `min` (length w.2 - Z.to_nat (offset - w.1)))%nat)
    by (unfold r, pread; by rewrite length_take, length_drop).
  split; [intros E; rewrite E in Hr; simpl in Hr; lia|]. apply list_eq. intros i.
  destruct (decide (i < length r)%nat) as [Hi|Hi].
  - unfold pread at 1. rewrite Nat2Z.id, lookup_take_lt, lookup_drop by done. unfold r, pread.
    rewrite lookup_take_lt, lookup_drop by lia.
    replace (Z.to_nat offset + i)%nat with (Z.to_nat (offset + Z.of_nat i)) by lia.
    rewrite (file_of_covered ws w) by (done || unfold covers; lia). f_equal. lia.
  - unfold pread at 1. rewrite Nat2Z.id, lookup_take_ge by lia. apply lookup_ge_None_2. lia.
Qed.

Lemma Read_spec order wb ws offset n :
  (forall m, order m ≡ₚ map_to_list m) -> good ws -> holds wb ws -> ws <> [] -> 0 <= offset -> 0 < n ->
  match Read order wb offset n with
  | Some r => r <> [] /\ r = pread (file_of ws) offset (len r)
  | None => forall w, w ∈ ws -> ~ covers w offset
  end.
Proof.
  intros Horder Hg (Hm & _ & Hmax & Hmin & Hle) Hne Ho Hn. unfold Read.
  assert (Hin : forall w, w ∈ order (segments wb) <-> w ∈ ws) by (intros w; by rewrite Horder, Hm).
  destruct (_ || _) eqn:E; bool_to_prop.
  - intros w Hw. pose proof (last_end_ge ws w Hw). rewrite Forall_forall in Hle. specialize (Hle w Hw). simpl in Hle.
    unfold covers. destruct E as [[E|E]|E]; [by apply Hmin in E| |]; lia.
  - destruct (read_loop _ _ _) as [r|] eqn:Er.
    + destruct (read_loop_some _ offset n r ltac:(lia) Er) as (w & Hw & Hc & ->). apply segment_of_file; try done. by apply Hin.
    + intros w Hw. eapply read_loop_none; [done|]. by apply Hin.
Qed.

(** A flush of writes that do not overlap. *)
Lemma flush_spec (m : Z) (ws : list (Z * bytes)) (now : Time) :
  good ws -> ws <> [] ->
  exists wb' data start, GetFlushData (write_all (NewWriteBuffer m) ws now) = (wb', Some (data, start)) /\
    zeros start ++ data = file_of ws /\ segments wb' = ∅ /\ Size wb' = 0 /\ IsDirty wb' = false /\
    0 <= start /\ Forall (fun w => start <= w.1) ws.
Proof.
  intros Hg Hne. pose proof Hg as [Hproper _]. pose proof (write_all_holds m ws now Hg) as Hh.
  set (wb := write_all _ _ _) in *. pose proof Hh as (_ & Hdirty & Hmax & _). unfold GetFlushData.
  rewrite Hdirty, bool_decide_true by done. pose proof (sorted_segments_perm wb ws Hh) as Hperm.
  destruct (sorted_segments wb) as [|[start d] rest] eqn:E; [by apply Permutation_nil in Hperm|].
  assert (Hle : forall w, w ∈ ws -> start <= w.1).
  { intros w Hw. eapply first_segment; [done|]. by rewrite E, Hperm. }
  assert (H0 : (start, d) ∈ ws) by (rewrite <-Hperm; set_solver).
  rewrite Forall_forall in Hproper. destruct (Hproper _ H0) as [Hs0 _]. pose proof (proper_nonempty _ (Hproper _ H0)).
  pose proof (last_end_ge ws _ H0). cbn [fst snd] in *.
  rewrite (proj2 (Z.leb_gt _ _)) by lia. eexists _, _, _. split; [done|].
  split; [rewrite Hmax; by apply merged_is_file|]. split_and!; try done. by apply Forall_forall.
Qed.

(** Writes that do not overlap, in whatever order they come, are buffered as
    the file they make: a flush gives that file from the first byte written on,
    with zeros between the writes, and leaves the buffer empty; a read before it
    gives bytes of that file, whichever way the segments are walked, and nothing
    only where nothing was written. *)
Theorem buffer_is_file_written (m : Z) (ws : list (Z * bytes)) (now : Time)
    (Hproper : Forall proper_write ws) (Hdisjoint : ForallOrdPairs disjoint_writes ws) (Hne : ws <> []) :
  let wb := write_all (NewWriteBuffer m) ws now in
  (exists wb' data start, GetFlushData wb = (wb', Some (data, start)) /\ zeros start ++ data = file_of ws /\
     segments wb' = ∅ /\ Size wb' = 0 /\ IsDirty wb' = false) /\
  (forall order offset n, (forall s, order s ≡ₚ map_to_list s) -> 0 <= offset -> 0 < n ->
     match Read order wb offset n with
     | Some r => r <> [] /\ r = pread (file_of ws) offset (len r)
     | None => forall w, w ∈ ws -> ~ covers w offset
     end).
Proof.
  intros wb. assert (Hg : good ws) by done. split; [|intros; apply Read_spec; try done; by apply write_all_holds].
  destruct (flush_spec m ws now Hg Hne) as (wb' & data & start & ? & ? & ? & ? & ? & _). by exists wb', data, start.
Qed.

Definition two_writes : list (Z * bytes) := [(4, [x64; x65]); (0, [x61; x62])].

Lemma buffer_is_file_written_witness :
  let wb := write_all (NewWriteBuffer 16) two_writes 7 in
  (exists wb' data start, GetFlushData wb = (wb', Some (data, start)) /\
     zeros start ++ data = [x61; x62; x00; x00; x64; x65]) /\
  Read map_to_list wb 5 4 = Some [x65].
Proof.
  assert (Hp : Forall proper_write two_writes) by (repeat constructor; done).
  assert (Hd : ForallOrdPairs disjoint_writes two_writes) by (repeat constructor; unfold disjoint_writes; simpl; lia).
  destruct (buffer_is_file_written 16 two_writes 7 Hp Hd ltac:(done)) as [(wb' & data & start & E & Hz & _) _].
  split; [|reflexivity]. exists wb', data, start. split; [exact E|]. rewrite Hz. reflexivity.
Defined.

(** ** Writes that overlap *)

(** A shorter write at the offset of a longer one takes its place: the bytes
    behind it are lost. *)
Lemma shorter_rewrite_loses_bytes :
  let ws := [(0, [x61; x62; x63]); (0, [x7a])] in
  (GetFlushData (write_all (NewWriteBuffer 16) ws 7)).2 = Some ([x7a; x00; x00], 0) /\
  file_of ws = [x7a; x62; x63].
Proof. split; reflexivity. Qed.

(** Segments are merged by offset and not by age: an older write wins over a later
    one that starts before it. *)
Lemma older_write_wins :
  let ws := [(1, [x61; x61]); (0, [x7a; x7a; x7a])] in
  (GetFlushData (write_all (NewWriteBuffer 16) ws 7)).2 = Some ([x7a; x61; x61], 0) /\
  file_of ws = [x7a; x7a; x7a].
Proof. split; reflexivity. Qed.

End WriteBuffer.
