(* ===== verification/BufferSessions.v ===== *)
(** * Buffered write sessions ([internal/buffer/session_manager.go])

    Without staging, the writes to a path are buffered in a session every handle
    of the path shares.  A handle keeps its session by reference, so a session
    the map no longer names can still be written.  The identifier a session is
    given appears only in logs. *)
From S2P Require Import Prelude StagingTypes WriteBuffer.

Module BufferSessions.

Record WriteSession := mkSession {
  Path : string;
  Buffer : WriteBuffer.WriteBuffer;
  LastAccess : Time;
  RefCount : Z
}.

Record SessionManager := mkManager {
  sessions : gmap string positive;
  heap : gmap positive WriteSession;
  bufferSize : Z;
  sessionTimeout : Duration
}.

Definition NewSessionManager (bufferSize : Z) (sessionTimeout : Duration) : SessionManager :=
  mkManager ∅ ∅ bufferSize sessionTimeout.

Definition set_sessions (s : gmap string positive) (sm : SessionManager) : SessionManager :=
  mkManager s (heap sm) (bufferSize sm) (sessionTimeout sm).
Definition put (a : positive) (w : WriteSession) (sm : SessionManager) : SessionManager :=
  mkManager (sessions sm) (<[a := w]> (heap sm)) (bufferSize sm) (sessionTimeout sm).
Definition deref (sm : SessionManager) (a : positive) : option WriteSession := heap sm !! a.

Definition update (a : positive) (f : WriteSession -> WriteSession) (sm : SessionManager) : SessionManager :=
  match deref sm a with Some w => put a (f w) sm | None => sm end.

Definition with_refs (n : Z) (now : Time) (w : WriteSession) : WriteSession :=
  mkSession (Path w) (Buffer w) now (RefCount w + n).
Definition set_buffer (b : WriteBuffer.WriteBuffer) (w : WriteSession) : WriteSession :=
  mkSession (Path w) b (LastAccess w) (RefCount w).

Definition GetOrCreateSession (sm : SessionManager) (path : string) (now : Time) : SessionManager * positive :=
  match sessions sm !! path with
  | Some a => (update a (with_refs 1 now) sm, a)
  | None =>
      let a := fresh (dom (heap sm)) in
      (set_sessions (<[path := a]> (sessions sm))
         (put a (mkSession path (WriteBuffer.NewWriteBuffer (bufferSize sm)) now 1) sm), a)
  end.

Definition ReleaseSession (sm : SessionManager) (path : string) (now : Time) : SessionManager :=
  match sessions sm !! path with
  | None => sm
  | Some a => update a (with_refs (-1) now) sm
  end.

Definition CloseSession (sm : SessionManager) (path : string) : SessionManager :=
  set_sessions (delete path (sessions sm)) sm.

Definition GetSession (sm : SessionManager) (path : string) : option positive := sessions sm !! path.

(** One turn of [cleanupExpiredSessions]. *)
Definition expired (sm : SessionManager) (now : Time) (w : WriteSession) : bool :=
  (RefCount w =? 0) && (sessionTimeout sm <? time_Sub now (LastAccess w)).

Definition cleanupExpiredSessions (sm : SessionManager) (now : Time) : SessionManager :=
  set_sessions
    (filter (fun kv => from_option (expired sm now) false (deref sm kv.2) = false) (sessions sm)) sm.

(** [Stats]: sessions, sessions in use, bytes buffered. *)
Definition Stats (sm : SessionManager) : Z * Z * Z :=
  (Z.of_nat (base.size (sessions sm)),
   map_sum (fun _ a => from_option (fun w => if 0 <? RefCount w then 1 else 0) 0 (deref sm a)) (sessions sm),
   map_sum (fun _ a => from_option (fun w => WriteBuffer.Size (Buffer w)) 0 (deref sm a)) (sessions sm)).

End BufferSessions.
