(* ===== verification/AuthGate.v ===== *)
(** * Slowing down password guessing ([internal/smb/authgate.go])

    The gate refuses authentication to a client address that keeps failing.  It
    is one lock throughout each call, so a call is one step; [now] is what
    [g.now()] answers.  The server asks ([Allow]) before it authenticates and
    tells ([Attempted]) afterwards, two steps that others come between.  The
    theorem bounds how often a client can guess. *)
From Stdlib Require Import Ascii.
From stdpp Require Import gmultiset.
From S2P Require Import Prelude.

Module AuthGate.

(** ** [net.SplitHostPort] *)

Definition colon : ascii := ":"%char.
Definition lbracket : ascii := "["%char.
Definition rbracket : ascii := "]"%char.

(** The text before and after the first [c]. *)
Fixpoint cut_first (c : ascii) (l : list ascii) : option (list ascii * list ascii) :=
  match l with
  | [] => None
  | x :: l =>
      if decide (x = c) then Some ([], l)
      else match cut_first c l with Some (a, b) => Some (x :: a, b) | None => None end
  end.

(** The text before and after the last [c]. *)
Fixpoint cut_last (c : ascii) (l : list ascii) : option (list ascii * list ascii) :=
  match l with
  | [] => None
  | x :: l =>
      match cut_last c l with
      | Some (a, b) => Some (x :: a, b)
      | None => if decide (x = c) then Some ([], l) else None
      end
  end.

(** The host and the port; [None] is any of the errors.  A host in brackets ends
    at the first [\]], which the last colon has to follow. *)
Definition SplitHostPort (hostport : list ascii) : option (list ascii * list ascii) :=
  match cut_last colon hostport with
  | None => None
  | Some (before, port) =>
      match hostport with
      | x :: rest =>
          if decide (x = lbracket) then
            match cut_first rbracket rest with
            | None => None
            | Some (host, after) =>
                if decide (x :: host ++ [rbracket] = before) then
                  if decide (lbracket ∈ rest \/ rbracket ∈ after) then None else Some (host, port)
                else None
            end
          else if decide (colon ∈ before) then None
          else if decide (lbracket ∈ hostport \/ rbracket ∈ hostport) then None
          else Some (before, port)
      | [] => None
      end
  end.

(** ** The gate *)

Record AuthLimits := mkLimits {
  Failures : Z;
  Window : Duration;
  Block : Duration;
  MaxBlock : Duration
}.

Definition DefaultAuthFailures : Z := 5.
Definition DefaultAuthWindow : Duration := 5 * Minute.
Definition DefaultAuthBlock : Duration := 30 * Second.
Definition DefaultAuthMaxBlock : Duration := 15 * Minute.

Definition withDefaults (l : AuthLimits) : AuthLimits :=
  let block := if Block l <=? 0 then DefaultAuthBlock else Block l in
  mkLimits
    (if Failures l <=? 0 then DefaultAuthFailures else Failures l)
    (if Window l <=? 0 then DefaultAuthWindow else Window l)
    block
    (if MaxBlock l <? block then Z.max DefaultAuthMaxBlock block else MaxBlock l).

Record authRecord := mkRecord {
  failures : Z;
  lastFailure : Time;
  blockedFor : Duration;
  blockedTill : Time
}.

Record authGate := mkGate { limits : AuthLimits; clients : gmap string authRecord }.

Definition newAuthGate (l : AuthLimits) : authGate := mkGate (withDefaults l) ∅.

Definition set_clients (f : gmap string authRecord -> gmap string authRecord) (g : authGate) : authGate :=
  mkGate (limits g) (f (clients g)).

Definition hostOf (remoteAddr : string) : string :=
  match SplitHostPort (String.list_ascii_of_string remoteAddr) with
  | Some (host, _) => String.string_of_list_ascii host
  | None => remoteAddr
  end.

Definition Allow (g : authGate) (remoteAddr : string) (now : Time) : authGate * bool :=
  let client := hostOf remoteAddr in
  match clients g !! client with
  | None => (g, true)
  | Some record =>
      if Before now (blockedTill record) then (g, false)
      else if Window (limits g) <? time_Sub now (lastFailure record) then (set_clients (delete client) g, true)
      else (g, true)
  end.

(** Each block after the first doubles, up to [MaxBlock]. *)
Definition next_block (l : AuthLimits) (record : authRecord) : Duration :=
  if blockedFor record =? 0 then Block l
  else if blockedFor record <? MaxBlock l then Z.min (wrap64 (blockedFor record * 2)) (MaxBlock l)
  else blockedFor record.

(** The record after a failure. *)
Definition failed (l : AuthLimits) (record : authRecord) (now : Time) : authRecord :=
  let n := failures record + 1 in
  if n <? Failures l then mkRecord n now (blockedFor record) (blockedTill record)
  else mkRecord 0 now (next_block l record) (now + next_block l record).

Definition Attempted (g : authGate) (remoteAddr : string) (ok : bool) (now : Time) : authGate :=
  let client := hostOf remoteAddr in
  if ok then set_clients (delete client) g
  else
    let record :=
      match clients g !! client with
      | Some record => if Window (limits g) <? time_Sub now (lastFailure record) then mkRecord 0 0 0 0 else record
      | None => mkRecord 0 0 0 0
      end in
    set_clients <[client := failed (limits g) record now]> g.

Definition expired (l : AuthLimits) (now : Time) (record : authRecord) : bool :=
  negb (Before now (blockedTill record)) && (Window l <? time_Sub now (lastFailure record)).

(** [blockedClients]: how many are blocked; expired records are dropped. *)
Definition blockedClients (g : authGate) (now : Time) : authGate * Z :=
  (set_clients (filter (fun '(_, record) => expired (limits g) now record = false)) g,
   Z.of_nat (base.size (filter (fun '(_, record) => Before now (blockedTill record) = true) (clients g)))).

(** ** Runs *)

(** The server asks the gate, authenticates, and tells the gate how it ended; it
    does so for several connections of a client at a time. *)
Inductive event :=
  | Ask (addr : string) (now : Time)
  | Answer (addr : string) (ok : bool) (now : Time)
  | Leave (addr : string) (now : Time)
  | Sweep (now : Time).

Definition time_of (e : event) : Time :=
  match e with Ask _ now | Answer _ _ now | Leave _ now | Sweep now => now end.

(** The gate, and the client of each request that it let through and that is
    being worked on. *)
Record state := mkState { gate : authGate; in_flight : gmultiset string }.

(** A request ends with an answer, or without a verdict ([Leave]): it was refused
    for another reason, or was only the first leg of a handshake. *)
Definition step (s : state) (e : event) : state :=
  match e with
  | Ask addr now =>
      let '(g, allowed) := Allow (gate s) addr now in
      mkState g (if allowed then {[+ hostOf addr +]} ⊎ in_flight s else in_flight s)
  | Answer addr ok now =>
      if bool_decide (hostOf addr ∈ in_flight s)
      then mkState (Attempted (gate s) addr ok now) (in_flight s ∖ {[+ hostOf addr +]})
      else s
  | Leave addr now => mkState (gate s) (in_flight s ∖ {[+ hostOf addr +]})
  | Sweep now => mkState (blockedClients (gate s) now).1 (in_flight s)
  end.

(** How many requests of the client are being worked on. *)
Definition crowd (client : string) (s : state) : nat := multiplicity client (in_flight s).

(** Never more than [c] at once. *)
Fixpoint crowd_within (c : nat) (client : string) (s : state) (es : list event) : bool :=
  (crowd client s <=? c)%nat &&
  match es with [] => true | e :: es => crowd_within c client (step s e) es end.

(** The times at which the client was told that it failed. *)
Fixpoint guesses (client : string) (s : state) (es : list event) : list Time :=
  match es with
  | [] => []
  | e :: es =>
      match e with
      | Answer addr false now =>
          if bool_decide (hostOf addr = client) && bool_decide (hostOf addr ∈ in_flight s) then [now] else []
      | _ => []
      end ++ guesses client (step s e) es
  end.

Definition never_succeeds (client : string) (e : event) : Prop :=
  match e with Answer addr true _ => hostOf addr <> client | _ => True end.

Definition started (l : AuthLimits) : state := mkState (newAuthGate l) ∅.

(** ** What records look like *)

Record wf_limits (l : AuthLimits) : Prop := mkWfLimits {
  wf_failures : 0 < Failures l;
  wf_window : 0 < Window l;
  wf_block : 0 < Block l <= MaxBlock l;
  wf_max : MaxBlock l <= 2 ^ 62
}.

Definition wf_record (l : AuthLimits) (r : authRecord) : Prop :=
  0 <= failures r < Failures l /\ (blockedFor r = 0 \/ Block l <= blockedFor r <= MaxBlock l).

Definition wf (g : authGate) : Prop := wf_limits (limits g) /\ map_Forall (fun _ => wf_record (limits g)) (clients g).

Lemma withDefaults_wf l : Block l <= 2 ^ 62 -> MaxBlock l <= 2 ^ 62 -> wf_limits (withDefaults l).
Proof.
  intros. unfold withDefaults, DefaultAuthFailures, DefaultAuthWindow, DefaultAuthBlock, DefaultAuthMaxBlock, Minute, Second, Millisecond.
  split; simpl; zcases.
Qed.

Lemma new_wf l : Block l <= 2 ^ 62 -> MaxBlock l <= 2 ^ 62 -> wf (newAuthGate l).
Proof. intros. split; [by apply withDefaults_wf|apply map_Forall_empty]. Qed.

Lemma wf_fresh l : wf_limits l -> wf_record l (mkRecord 0 0 0 0).
Proof. intros []. split; simpl; [lia|by left]. Qed.

Lemma next_block_bounds l r : wf_limits l -> wf_record l r -> Block l <= next_block l r <= MaxBlock l.
Proof.
  intros [H1 H2 [H3 H3'] H4] [Hf Hb]. unfold next_block. destruct (Z.eqb_spec (blockedFor r) 0); [lia|].
  destruct (Z.ltb_spec (blockedFor r) (MaxBlock l)); [|lia]. rewrite wrap64_small by (unfold MinInt64, MaxInt64; lia). lia.
Qed.

Lemma failed_wf l r now : wf_limits l -> wf_record l r -> wf_record l (failed l r now).
Proof.
  intros Hl Hr. pose proof (next_block_bounds l r Hl Hr). destruct Hl, Hr as [Hf Hb]. unfold failed.
  destruct (Z.ltb_spec (failures r + 1) (Failures l)); split; simpl; try lia; done.
Qed.

(** A failure either counts or starts a block of at least [Block]. *)
Lemma failed_counts l r now :
  wf_limits l -> wf_record l r ->
  lastFailure (failed l r now) = now /\
  (failures (failed l r now) = failures r + 1 \/ now + Block l <= blockedTill (failed l r now)).
Proof.
  intros Hl Hr. pose proof (next_block_bounds l r Hl Hr). unfold failed.
  destruct (_ <? _); simpl; (split; [done|]); [by left|right; lia].
Qed.

Lemma Allow_limits g addr now : limits (Allow g addr now).1 = limits g.
Proof. unfold Allow. repeat (case_match; try done). Qed.

Lemma Attempted_limits g addr ok now : limits (Attempted g addr ok now) = limits g.
Proof. unfold Attempted. by destruct ok. Qed.

Lemma step_limits s e : limits (gate (step s e)) = limits (gate s).
Proof.
  destruct e as [addr now|addr ok now|addr now|now]; simpl; [|case_bool_decide; [apply Attempted_limits|done]|done..].
  pose proof (Allow_limits (gate s) addr now). by destruct (Allow _ _ _).
Qed.

Lemma Allow_wf g addr now : wf g -> wf (Allow g addr now).1.
Proof.
  intros [Hl Hr]. unfold Allow. destruct (_ !! _); [|done]. destruct (_ <? _); [done|]. destruct (_ <? _); [|done].
  split; [done|]. by apply map_Forall_delete.
Qed.

Lemma Attempted_wf g addr ok now : wf g -> wf (Attempted g addr ok now).
Proof.
  intros [Hl Hr]. unfold Attempted. destruct ok; (split; [done|]); simpl; [by apply map_Forall_delete|].
  apply map_Forall_insert_2; [|done]. apply failed_wf; [done|].
  destruct (clients g !! hostOf addr) as [r|] eqn:E; [destruct (_ <? _)|]; [by apply wf_fresh|by eapply Hr|by apply wf_fresh].
Qed.

Lemma sweep_wf g now : wf g -> wf (blockedClients g now).1.
Proof. intros [Hl Hr]. split; [done|]. intros c r [Hc _]%map_lookup_filter_Some. by eapply Hr. Qed.

Lemma gate_step_wf s e : wf (gate s) -> wf (gate (step s e)).
Proof.
  intros Hg. destruct e as [addr now|addr ok now|addr now|now]; simpl;
    [|case_bool_decide; [by apply Attempted_wf|done]|done|by apply sweep_wf].
  pose proof (Allow_wf _ addr now Hg). by destruct (Allow _ _ _).
Qed.

(** ** How often a client can guess *)

(** Since a failure at [t0] the client was told [n] times that it failed: they
    were counted, or it is blocked, and then the requests let through before are
    the last ones. *)
Definition counted (c : nat) (client : string) (t0 : Time) (n : Z) (s : state) : Prop :=
  exists r, clients (gate s) !! client = Some r /\ t0 <= lastFailure r /\
    (n <= failures r \/
     t0 + Block (limits (gate s)) <= blockedTill r /\
     Z.of_nat (crowd client s) + n <= Failures (limits (gate s)) + Z.of_nat c - 1).

Lemma time_Sub_le t u d : 0 < d -> t - u <= d -> (d <? time_Sub t u) = false.
Proof. intros. unfold time_Sub, MinInt64. apply Z.ltb_ge. lia. Qed.

(** Requests of another client leave a record and the crowd alone. *)
Lemma Allow_other g addr now c : hostOf addr <> c -> clients (Allow g addr now).1 !! c = clients g !! c.
Proof.
  intros Hne. unfold Allow. repeat (case_match; try done). simpl. by rewrite lookup_delete_ne.
Qed.

Lemma Attempted_other g addr ok now c : hostOf addr <> c -> clients (Attempted g addr ok now) !! c = clients g !! c.
Proof. intros Hne. unfold Attempted. destruct ok; simpl; by rewrite ?lookup_insert_ne, ?lookup_delete_ne. Qed.

Definition event_of (e : event) : option string :=
  match e with Ask addr _ | Answer addr _ _ | Leave addr _ => Some (hostOf addr) | Sweep _ => None end.

Lemma other_step s e a c :
  event_of e = Some a -> a <> c ->
  clients (gate (step s e)) !! c = clients (gate s) !! c /\ crowd c (step s e) = crowd c s.
Proof.
  intros Ha Hne. destruct e as [addr now|addr ok now|addr now|now]; simplify_eq/=.
  - pose proof (Allow_other (gate s) addr now c Hne) as Ho. destruct (Allow _ _ _) as [g' []]; simpl in *; (split; [done|]);
      unfold crowd; simpl; [|done]. by rewrite multiplicity_disj_union, multiplicity_singleton_ne by done.
  - case_bool_decide; [|done]. simpl. rewrite Attempted_other by done. split; [done|]. unfold crowd. simpl.
    rewrite multiplicity_difference, multiplicity_singleton_ne by done. lia.
  - split; [done|]. unfold crowd. simpl. rewrite multiplicity_difference, multiplicity_singleton_ne by done. lia.
Qed.

Section Client.
Context (c : nat) (client : string).

(** Within the window a record stays, and within the block no request is let
    through. *)
Lemma quiet_counted s e t0 n :
  wf (gate s) -> t0 <= time_of e < t0 + Block (limits (gate s)) -> time_of e - t0 <= Window (limits (gate s)) ->
  (forall addr ok now, e = Answer addr ok now -> hostOf addr <> client) ->
  counted c client t0 n s -> counted c client t0 n (step s e).
Proof.
  intros [Hl _] Ht Hw Hquiet (r & Hr & Hlast & Hn). pose proof (wf_window _ Hl) as Hpos.
  unfold counted. rewrite step_limits.
  destruct (event_of e) as [a|] eqn:Ea; [destruct (decide (a = client)) as [->|Hne]|].
  - exists r. destruct e as [addr now|addr ok now|addr now|now]; simplify_eq/=.
    + unfold Allow. rewrite Hr. destruct (Z.ltb_spec now (blockedTill r)) as [|Hfree]; simpl; [done|].
      rewrite time_Sub_le by lia. simpl. split_and!; [done..|]. destruct Hn as [?|[? _]]; [by left|lia].
    + by destruct (Hquiet addr ok now).
    + split_and!; [done..|]. destruct Hn as [?|[? ?]]; [by left|right]. split; [done|]. unfold crowd in *. simpl.
      rewrite multiplicity_difference. lia.
  - destruct (other_step s e a client Ea Hne) as [-> ->]. by exists r.
  - destruct e; try done. exists r. split; [|done]. apply map_lookup_filter_Some. split; [done|].
    unfold expired. simpl in *. rewrite time_Sub_le by lia. apply andb_false_r.
Qed.

Lemma crowd_guess s addr : hostOf addr ∈ in_flight s ->
  (0 < crowd (hostOf addr) s)%nat /\ multiplicity (hostOf addr) (in_flight s ∖ {[+ hostOf addr +]}) = (crowd (hostOf addr) s - 1)%nat.
Proof.
  unfold crowd. rewrite elem_of_multiplicity, multiplicity_difference, multiplicity_singleton_eq. lia.
Qed.

(** A guess within the window and the block is one of the last. *)
Lemma guess_counted s addr now t0 n :
  wf (gate s) -> t0 <= now -> now - t0 <= Window (limits (gate s)) ->
  hostOf addr = client -> client ∈ in_flight s -> (crowd client s <= c)%nat -> counted c client t0 n s ->
  n + 1 <= Failures (limits (gate s)) + Z.of_nat c - 1 /\ counted c client t0 (n + 1) (step s (Answer addr false now)).
Proof using Type.
  intros [Hl Hall] Ht Hw <- Hin Hc (r & Hr & Hlast & Hn). pose proof (Hall _ _ Hr) as Hwr.
  destruct (crowd_guess s addr Hin) as [Hpos Hless]. pose proof (proj1 Hwr) as Hf.
  split; [destruct Hn as [?|[_ ?]]; lia|]. unfold counted. rewrite step_limits. simpl. rewrite bool_decide_true by done. simpl.
  unfold Attempted. rewrite Hr, time_Sub_le by (destruct Hl; lia). eexists. split; [apply lookup_insert_eq|].
  destruct (failed_counts _ r now Hl Hwr) as [-> Hb]. split; [done|]. unfold crowd. simpl. rewrite Hless.
  destruct Hn as [Hn|[Hn Hsum]]; [destruct Hb; [left; lia|right; lia]|]. right. split; [|lia].
  unfold failed. pose proof (next_block_bounds _ r Hl Hwr). destruct (_ <? _); simpl; lia.
Qed.

Lemma first_counted s addr now :
  wf (gate s) -> hostOf addr = client -> client ∈ in_flight s -> (crowd client s <= c)%nat ->
  counted c client now 1 (step s (Answer addr false now)).
Proof.
  intros [Hl Hr] <- Hin Hc. destruct (crowd_guess s addr Hin) as [Hpos Hless].
  unfold counted. rewrite step_limits. simpl. rewrite bool_decide_true by done. simpl.
  unfold Attempted. eexists. split; [apply lookup_insert_eq|].
  match goal with |- context [failed _ ?r _] => assert (Hw : wf_record (limits (gate s)) r) end.
  { destruct (clients (gate s) !! hostOf addr) as [r|] eqn:E; [destruct (_ <? _)|]; [by apply wf_fresh|by eapply Hr|by apply wf_fresh]. }
  destruct (failed_counts _ _ now Hl Hw) as [-> H]. destruct Hw as [Hf _]. pose proof (wf_failures _ Hl).
  split; [lia|]. unfold crowd. simpl. rewrite Hless. destruct H; [left; lia|right; lia].
Qed.

#[local] Arguments step : simpl never.

Lemma guesses_times es s : forall t, t ∈ guesses client s es -> t ∈ time_of <$> es.
Proof.
  induction es as [|e es IH] in s |- *; intros t; [done|]. simpl. rewrite elem_of_app, elem_of_cons.
  intros [Hk|Hk%IH]; [left|by right]. destruct e as [| addr [] now| |]; simpl in *; try set_solver. case_match; set_solver.
Qed.

(** The guess an event is, if it is one. *)
Definition guess_of (s : state) (e : event) : option Time :=
  match e with
  | Answer addr false now =>
      if bool_decide (hostOf addr = client) && bool_decide (hostOf addr ∈ in_flight s) then Some now else None
  | _ => None
  end.

Lemma guesses_cons s e es : guesses client s (e :: es) = option_list (guess_of s e) ++ guesses client (step s e) es.
Proof. destruct e as [| addr [] now| |]; try done. simpl. by case_match. Qed.

Lemma no_guess s e t0 n :
  wf (gate s) -> never_succeeds client e -> guess_of s e = None ->
  t0 <= time_of e < t0 + Block (limits (gate s)) -> time_of e - t0 <= Window (limits (gate s)) ->
  counted c client t0 n s -> counted c client t0 n (step s e).
Proof.
  intros Hg He Hno Ht Hw Hc.
  destruct (decide (event_of e = Some client)) as [Ho|Ho]; [|apply quiet_counted; naive_solver].
  destruct e as [addr now|addr ok now|addr now|now]; [apply quiet_counted; naive_solver| |apply quiet_counted; naive_solver..].
  destruct ok; [by injection Ho as ?|]. injection Ho as Ho. simpl in Hno. rewrite bool_decide_true in Hno by done.
  unfold step. by case_bool_decide.
Qed.

Lemma later_guess es s t0 n k t :
  wf (gate s) -> counted c client t0 n s -> Forall (never_succeeds client) es -> Sorted Z.le (time_of <$> es) ->
  Forall (fun e => t0 <= time_of e) es -> crowd_within c client s es = true ->
  guesses client s es !! k = Some t -> Failures (limits (gate s)) + Z.of_nat c - 1 <= n + Z.of_nat k ->
  t0 + Block (limits (gate s)) <= t \/ Window (limits (gate s)) < t - t0.
Proof.
  revert s n k. induction es as [|e es IH]; intros s n k Hg Hc Hnever Hs Hge Hin Hk Hn; [done|].
  assert (Hlater : time_of e <= t).
  { apply list_elem_of_lookup_2, guesses_times in Hk. apply Sorted_StronglySorted in Hs; [|exact Z.le_trans].
    apply StronglySorted_inv in Hs as [_ Hall]. rewrite Forall_forall in Hall. apply elem_of_cons in Hk as [->|Hk]; [lia|by apply Hall]. }
  apply Forall_cons in Hnever as [He Hnever]. apply Forall_cons in Hge as [H0 Hge].
  apply Sorted_inv in Hs as [Hs _]. simpl in Hin. apply andb_true_iff in Hin as [Hcrowd%Nat.leb_le Hin].
  destruct (decide (t0 + Block (limits (gate s)) <= time_of e)); [left; lia|].
  destruct (decide (Window (limits (gate s)) < time_of e - t0)); [right; lia|].
  rewrite guesses_cons in Hk. destruct (guess_of s e) as [u|] eqn:Eg; simpl in Hk; rewrite <-(step_limits s e) in Hn |- *.
  - destruct e as [| addr [] now| |]; try done. simpl in Eg. destruct (_ && _) eqn:Eb; [|done].
    apply andb_true_iff in Eb as [Ha%bool_decide_eq_true Hf%bool_decide_eq_true]. rewrite Ha in Hf.
    destruct (guess_counted s addr now t0 n Hg H0 ltac:(simpl in *; lia) Ha Hf Hcrowd Hc) as [Hlt Hc'].
    destruct k as [|k]; [rewrite step_limits in Hn; lia|].
    apply (IH _ (n + 1) k); [by apply gate_step_wf|done..|lia].
  - apply (IH _ n k); [by apply gate_step_wf|by apply no_guess; try lia|done..].
Qed.

End Client.

#[local] Arguments step : simpl never.

(** C28. With at most c requests of a client being worked on at a time, each
    asking the gate before it authenticates and telling it after, and however they
    overlap with each other, with those of other clients and with the sweep: of
    any Failures + c failures in a row of a client that never succeeds, the last
    comes at least Block or more than Window after the first. One at a time, that
    is Failures guesses in such a span. *)
Theorem guesses_rationed (l : AuthLimits) (client : string) (c : nat) (es : list event) (i : nat) (t0 t : Time)
    (Hblock : Block l <= 2 ^ 62) (Hmax : MaxBlock l <= 2 ^ 62)
    (Hfails : Forall (never_succeeds client) es) (Htimes : Sorted Z.le (time_of <$> es))
    (Hcrowd : crowd_within c client (started l) es = true)
    (H0 : guesses client (started l) es !! i = Some t0)
    (Ht : guesses client (started l) es !! (i + (Z.to_nat (Failures (withDefaults l)) + c - 1))%nat = Some t) :
  t0 + Block (withDefaults l) <= t \/ Window (withDefaults l) < t - t0.
Proof.
  pose proof (new_wf l Hblock Hmax) as Hg. change (newAuthGate l) with (gate (started l)) in Hg.
  assert (E : limits (gate (started l)) = withDefaults l) by done.
  set (F := (Z.to_nat (Failures (withDefaults l)) + c - 1)%nat) in *.
  revert Hg E Hcrowd H0 Ht. generalize (started l) as s.
  revert i. induction es as [|e es IH]; intros i s Hg E Hcrowd H0 Ht; [done|].
  apply Forall_cons in Hfails as [He Hfails]. pose proof Htimes as Hsorted. simpl in Hsorted. apply Sorted_StronglySorted in Hsorted; [|exact Z.le_trans].
  apply StronglySorted_inv in Hsorted as [_ Hge]. apply Sorted_inv in Htimes as [Htimes _].
  cbn [crowd_within] in Hcrowd. apply andb_true_iff in Hcrowd as [Hc%Nat.leb_le Hcrowd].
  assert (Hrest : forall j, guesses client (step s e) es !! j = Some t0 ->
    guesses client (step s e) es !! (j + F)%nat = Some t ->
    t0 + Block (withDefaults l) <= t \/ Window (withDefaults l) < t - t0).
  { intros j. apply (IH Hfails Htimes); [by apply gate_step_wf|by rewrite step_limits|done]. }
  rewrite guesses_cons in H0, Ht. destruct (guess_of client s e) as [u|] eqn:Eg; [|by eapply Hrest].
  destruct i as [|i]; [|eapply Hrest; [exact H0|exact Ht]]. injection H0 as ->.
  destruct e as [| addr [] now| |]; try done. simpl in Eg. destruct (_ && _) eqn:Eb; [|done]. injection Eg as ->.
  apply andb_true_iff in Eb as [Ha%bool_decide_eq_true Hf%bool_decide_eq_true].
  pose proof (wf_failures _ (proj1 Hg)) as HF. rewrite E in HF.
  assert (Hpos : (0 < c)%nat) by (rewrite <-Ha in Hc; destruct (crowd_guess s addr Hf); lia). rewrite Ha in Hf.
  assert (HFk : exists k, F = S k /\ Z.of_nat k = Failures (withDefaults l) + Z.of_nat c - 2).
  { exists (F - 1)%nat. unfold F. lia. }
  destruct HFk as (k & Ek & Hk). rewrite Ek in Ht. simpl in Ht.
  rewrite <-E, <-(step_limits s (Answer addr false t0)).
  apply (later_guess c client es _ t0 1 k t); try done; [by apply gate_step_wf|by apply first_counted| |rewrite step_limits, E; lia].
  apply Forall_forall. intros e He'. rewrite Forall_forall in Hge. apply (Hge (time_of e)). by apply list_elem_of_fmap_2.
Qed.

(** A guess at a second, answered at once. *)
Definition guess_at (t : Z) : list event :=
  [Ask "10.0.0.9:445" (t * Second); Answer "10.0.0.9:445" false (t * Second)].

Definition guesser : list event := mjoin (guess_at <$> [1; 2; 3; 4; 5; 6; 20; 34; 36]).

Definition default_limits : AuthLimits := mkLimits 0 0 0 0.

Lemma guesses_rationed_witness :
  guesses "10.0.0.9" (started default_limits) guesser = (fun t => t * Second) <$> [1; 2; 3; 4; 5; 36] /\
  (1 * Second + Block (withDefaults default_limits) <= 36 * Second \/
   Window (withDefaults default_limits) < 36 * Second - 1 * Second).
Proof.
  split; [vm_compute; reflexivity|].
  apply (guesses_rationed default_limits "10.0.0.9" 1 guesser 0).
  - vm_compute. discriminate.
  - vm_compute. discriminate.
  - repeat constructor.
  - repeat constructor; vm_compute; discriminate.
  - vm_compute. reflexivity.
  - vm_compute. reflexivity.
  - vm_compute. reflexivity.
Defined.

(** The gate counts a guess only once it has been answered: eight connections
    that ask together are all let through, and all guess before the block. *)
Lemma parallel_guesses_exceed_failures :
  let es := replicate 8 (Ask "10.0.0.9:445" Second) ++ replicate 8 (Answer "10.0.0.9:445" false Second) in
  guesses "10.0.0.9" (started default_limits) es = replicate 8 Second /\
  Failures (withDefaults default_limits) = 5.
Proof. split; vm_compute; reflexivity. Qed.

(** ** Clients across connections *)

Lemma list_ascii_app a b :
  String.list_ascii_of_string (a +:+ b) = String.list_ascii_of_string a ++ String.list_ascii_of_string b.
Proof. induction a as [|c a IH]; [done|]. simpl. by rewrite IH. Qed.

Lemma cut_last_app c l r : c ∉ r -> cut_last c (l ++ c :: r) = Some (l, r).
Proof.
  intros Hr. assert (Hno : forall r, c ∉ r -> cut_last c r = None).
  { clear. induction r as [|x r IH]; intros Hx; [done|]. simpl. rewrite IH by set_solver. rewrite decide_False by set_solver. done. }
  induction l as [|x l IH]; simpl; [by rewrite Hno, decide_True|by rewrite IH].
Qed.

(** A client is the same whatever port it connects from. *)
Lemma hostOf_port host port :
  (forall c, c ∈ String.list_ascii_of_string host ++ String.list_ascii_of_string port -> c <> colon /\ c <> lbracket /\ c <> rbracket) ->
  hostOf (host +:+ String colon port) = host.
Proof.
  intros Hc. unfold hostOf. rewrite list_ascii_app. simpl.
  set (h := String.list_ascii_of_string host) in *. set (p := String.list_ascii_of_string port) in *. unfold SplitHostPort.
  rewrite cut_last_app by (intros Hin; destruct (Hc colon); set_solver).
  assert (Hno : ~ (lbracket ∈ h ++ (colon :: p)) /\ ~ (rbracket ∈ h ++ (colon :: p))).
  { split; rewrite elem_of_app, elem_of_cons; intros [H|[H|H]]; try done; [| |destruct (Hc rbracket)|destruct (Hc rbracket)];
      try destruct (Hc lbracket); set_solver. }
  destruct Hno as [Hl Hr]. destruct (h ++ colon :: p) as [|x rest] eqn:E; [by destruct h|].
  rewrite decide_False by set_solver. rewrite decide_False by (intros Hin; destruct (Hc colon); set_solver).
  rewrite decide_False by set_solver. unfold h. apply String.string_of_list_ascii_of_string.
Qed.

(** ** The longest block *)

(** Handshakes one after the other. *)
Inductive turn := Try (addr : string) (ok : bool) (now : Time) | Swept (now : Time).

Definition take_turn (g : authGate) (e : turn) : authGate :=
  match e with
  | Try addr ok now => let '(g, allowed) := Allow g addr now in if allowed then Attempted g addr ok now else g
  | Swept now => (blockedClients g now).1
  end.

Lemma turn_limits g e : limits (take_turn g e) = limits g.
Proof.
  destruct e as [addr ok now|now]; simpl; [|done]. pose proof (Allow_limits g addr now).
  destruct (Allow g addr now) as [g' []]; [by rewrite Attempted_limits|done].
Qed.

Definition halved (d : Duration) : Prop := d = 0 \/ d = 30 * Second \/ d = 60 * Second \/ d = 120 * Second \/ d = 240 * Second.

(** What tries one after the other leave of a record, with the default limits. *)
Definition mild (r : authRecord) : Prop :=
  if failures r =? 0
  then halved (blockedFor r) \/ blockedFor r = 480 * Second
  else halved (blockedFor r).
Definition calm (r : authRecord) : Prop :=
  0 <= failures r /\ mild r /\ (failures r = 0 -> blockedTill r = lastFailure r + blockedFor r).

Lemma failed_calm r now :
  calm r -> (blockedTill r <= now) -> (DefaultAuthWindow <? time_Sub now (lastFailure r)) = false ->
  calm (failed (withDefaults default_limits) r now).
Proof.
  intros (H0 & Hm & Ht) Hfree Hwin%Z.ltb_ge.
  assert (Hh : halved (blockedFor r)).
  { revert Hm. unfold mild. destruct (Z.eqb_spec (failures r) 0) as [E|_]; [|done]. intros [|E2]; [done|].
    rewrite (Ht E), E2 in Hfree. unfold time_Sub, DefaultAuthWindow, MinInt64, MaxInt64, Minute, Second, Millisecond in *. lia. }
  assert (Hb : halved (next_block (withDefaults default_limits) r) \/ next_block (withDefaults default_limits) r = 480 * Second).
  { unfold next_block. destruct Hh as [E|[E|[E|[E|E]]]]; rewrite E; vm_compute; tauto. }
  unfold failed, calm, mild. change (Failures (withDefaults default_limits)) with 5.
  destruct (Z.ltb_spec (failures r + 1) 5); simpl; [|done].
  split; [lia|]. split; [|lia]. destruct (Z.eqb_spec (failures r + 1) 0); tauto.
Qed.

Lemma new_calm now : calm (failed (withDefaults default_limits) (mkRecord 0 0 0 0) now).
Proof. split; [done|]. split; [left; reflexivity|]. intros E. vm_compute in E. discriminate E. Qed.

(** While a client's handshakes do not overlap, the longest block with the default
    limits is eight minutes: one more failure
    within the window of five minutes is impossible after it, and later the
    record starts again.  [DefaultAuthMaxBlock], fifteen minutes, is never reached. *)
Lemma default_max_block_unreachable es :
  map_Forall (fun _ r => blockedFor r <= 480 * Second < DefaultAuthMaxBlock) (clients (foldl take_turn (newAuthGate default_limits) es)).
Proof.
  cut (limits (foldl take_turn (newAuthGate default_limits) es) = withDefaults default_limits /\
       map_Forall (fun _ => calm) (clients (foldl take_turn (newAuthGate default_limits) es))).
  { intros [_ H] c r Hr. destruct (H c r Hr) as (_ & Hm & _). revert Hm. unfold mild, halved, DefaultAuthMaxBlock, Minute, Second, Millisecond.
    destruct (_ =? _); lia. }
  induction es as [|e es [IH1 IH2]] using rev_ind; [split; [done|apply map_Forall_empty]|].
  rewrite foldl_app. simpl. set (g := foldl take_turn _ es) in *. rewrite turn_limits. split; [done|].
  destruct e as [addr ok now|now]; [|intros c r [Hc _]%map_lookup_filter_Some; by eapply IH2].
  unfold take_turn, Allow. destruct (clients g !! hostOf addr) as [r|] eqn:E.
  2: { unfold Attempted. rewrite E. destruct ok; [by apply map_Forall_delete|]. apply map_Forall_insert_2; [|done]. rewrite IH1. apply new_calm. }
  destruct (Z.ltb_spec now (blockedTill r)); [done|]. rewrite IH1. change (Window (withDefaults default_limits)) with DefaultAuthWindow.
  destruct (DefaultAuthWindow <? _) eqn:Ew; unfold Attempted; destruct ok; simpl; try (by repeat apply map_Forall_delete).
  - rewrite lookup_delete_eq. apply map_Forall_insert_2; [rewrite IH1; apply new_calm|by apply map_Forall_delete].
  - rewrite E, IH1. change (Window (withDefaults default_limits)) with DefaultAuthWindow. rewrite Ew.
    apply map_Forall_insert_2; [|done]. apply failed_calm; [by eapply IH2|done..].
Qed.

End AuthGate.
