(* ===== verification/Runes.v ===== *)
(** * Strings as runes

    What [[]rune(s)], [string(runes)] and [range s] do: UTF-8, with a byte that
    starts no encoding read as U+FFFD.  Bytes are numbers below 256. *)
From Stdlib Require Import Ascii.
From S2P Require Import Prelude.

Module Runes.

Abbreviation rune := Z (only parsing).

Definition RuneError : rune := 65533.
Definition MaxRune : rune := 1114111.

(** ** Encoding *)

Definition valid_rune (r : rune) : Prop := 0 <= r < 55296 \/ 57344 <= r <= MaxRune.
#[global] Instance valid_rune_dec r : Decision (valid_rune r) := or_dec _ _.

(** [utf8.AppendRune]: a surrogate or a rune out of range is encoded as U+FFFD. *)
Definition encode_rune (r : rune) : list Z :=
  let r := if decide (valid_rune r) then r else RuneError in
  if r <? 128 then [r]
  else if r <? 2048 then [192 + r / 64; 128 + r mod 64]
  else if r <? 65536 then [224 + r / 4096; 128 + (r / 64) mod 64; 128 + r mod 64]
  else [240 + r / 262144; 128 + (r / 4096) mod 64; 128 + (r / 64) mod 64; 128 + r mod 64].

Definition encode (rs : list rune) : list Z := rs ≫= encode_rune.

(** ** Decoding *)

Definition continues (b : Z) : bool := (128 <=? b) && (b <=? 191).

(** The second byte after a first byte of three or four: no overlong encodings,
    no surrogates, nothing above [MaxRune]. *)
Definition second_continues (b0 b1 : Z) : bool :=
  if b0 =? 224 then (160 <=? b1) && (b1 <=? 191)
  else if b0 =? 237 then (128 <=? b1) && (b1 <=? 159)
  else if b0 =? 240 then (144 <=? b1) && (b1 <=? 191)
  else if b0 =? 244 then (128 <=? b1) && (b1 <=? 143)
  else continues b1.

(** [utf8.DecodeRune], and what is left; one byte is consumed when it starts no
    encoding. *)
Definition decode_rune (b0 : Z) (l : list Z) : rune * list Z :=
  if b0 <? 128 then (b0, l)
  else if (194 <=? b0) && (b0 <=? 223) then
    match l with
    | b1 :: l2 => if continues b1 then ((b0 mod 32) * 64 + b1 mod 64, l2) else (RuneError, l)
    | [] => (RuneError, l)
    end
  else if (224 <=? b0) && (b0 <=? 239) then
    match l with
    | b1 :: b2 :: l3 =>
        if second_continues b0 b1 && continues b2
        then ((b0 mod 16) * 4096 + (b1 mod 64) * 64 + b2 mod 64, l3) else (RuneError, l)
    | _ => (RuneError, l)
    end
  else if (240 <=? b0) && (b0 <=? 244) then
    match l with
    | b1 :: b2 :: b3 :: l4 =>
        if second_continues b0 b1 && continues b2 && continues b3
        then ((b0 mod 8) * 262144 + (b1 mod 64) * 4096 + (b2 mod 64) * 64 + b3 mod 64, l4) else (RuneError, l)
    | _ => (RuneError, l)
    end
  else (RuneError, l).

(** Every rune takes at least a byte, so the length of the input is enough fuel. *)
Fixpoint decode_loop (fuel : nat) (l : list Z) : list rune :=
  match fuel, l with
  | S fuel, b0 :: l => let '(r, rest) := decode_rune b0 l in r :: decode_loop fuel rest
  | _, _ => []
  end.

Definition decode (l : list Z) : list rune := decode_loop (length l) l.

(** ** Strings *)

Definition bytes_of (s : string) : list Z := (fun c => Z.of_N (N_of_ascii c)) <$> String.list_ascii_of_string s.
Definition of_bytes (l : list Z) : string := String.string_of_list_ascii ((fun b => ascii_of_N (Z.to_N b)) <$> l).

Definition runes (s : string) : list rune := decode (bytes_of s).
Definition of_runes (rs : list rune) : string := of_bytes (encode rs).

(** [utf8.ValidString]: an ill-formed byte is read as U+FFFD, which three bytes
    encode. *)
Definition ValidString (s : string) : bool := bool_decide (of_runes (runes s) = s).

(** ** Round trips *)

Lemma decode_rune_shorter b0 l : (length (decode_rune b0 l).2 <= length l)%nat.
Proof. unfold decode_rune. repeat case_match; simpl; lia. Qed.

Lemma decode_loop_enough n m l : (length l <= n)%nat -> (length l <= m)%nat -> decode_loop n l = decode_loop m l.
Proof.
  revert m l. induction n as [|n IH]; intros m [|b0 l] Hn Hm; try (by destruct m); simpl in *; [lia|].
  destruct m as [|m]; [simpl in Hm; lia|]. simpl. pose proof (decode_rune_shorter b0 l) as Hs.
  destruct (decode_rune b0 l) as [r rest]. simpl in *. f_equal. apply IH; lia.
Qed.

Lemma decode_cons b0 l : decode (b0 :: l) = (decode_rune b0 l).1 :: decode (decode_rune b0 l).2.
Proof.
  unfold decode. simpl. pose proof (decode_rune_shorter b0 l) as Hs. destruct (decode_rune b0 l) as [r rest]. simpl in *.
  f_equal. by apply decode_loop_enough.
Qed.

Ltac byte_tests :=
  repeat match goal with
  | |- context [?a <? ?b] => first [rewrite (proj2 (Z.ltb_lt a b)) by lia | rewrite (proj2 (Z.ltb_ge a b)) by lia]
  | |- context [?a <=? ?b] => first [rewrite (proj2 (Z.leb_le a b)) by lia | rewrite (proj2 (Z.leb_gt a b)) by lia]
  | |- context [?a =? ?b] => rewrite (proj2 (Z.eqb_neq a b)) by lia
  end.

Lemma mod_offset k m x : 0 < m -> k mod m = 0 -> 0 <= x < m -> (k + x) mod m = x.
Proof. intros Hm Hk Hx. rewrite Z.add_mod, Hk, Z.add_0_l, Z.mod_mod, Z.mod_small; lia. Qed.

(** Three and four bytes, given the digits of the rune. *)
Lemma decode_three a b c l :
  0 <= a < 16 -> 0 <= b < 64 -> 0 <= c < 64 -> (a = 0 -> 32 <= b) -> (a = 13 -> b < 32) ->
  decode_rune (224 + a) (128 + b :: 128 + c :: l) = (a * 4096 + b * 64 + c, l).
Proof.
  intros. unfold decode_rune. byte_tests. simpl.
  replace (second_continues (224 + a) (128 + b)) with true.
  2: { symmetry. unfold second_continues, continues. zcases; byte_tests; done. }
  unfold continues. byte_tests. simpl. by rewrite !mod_offset by (done || lia).
Qed.

Lemma decode_four a b c d l :
  0 <= a < 5 -> 0 <= b < 64 -> 0 <= c < 64 -> 0 <= d < 64 -> (a = 0 -> 16 <= b) -> (a = 4 -> b < 16) ->
  decode_rune (240 + a) (128 + b :: 128 + c :: 128 + d :: l) = (a * 262144 + b * 4096 + c * 64 + d, l).
Proof.
  intros. unfold decode_rune. byte_tests. simpl.
  replace (second_continues (240 + a) (128 + b)) with true.
  2: { symmetry. unfold second_continues, continues. zcases; byte_tests; done. }
  unfold continues. byte_tests. simpl. by rewrite !mod_offset by (done || lia).
Qed.

Lemma decode_encode_rune r l :
  valid_rune r -> exists b0 l0, encode_rune r = b0 :: l0 /\ decode_rune b0 (l0 ++ l) = (r, l).
Proof.
  intros Hr. unfold encode_rune. rewrite decide_True by done. unfold valid_rune, MaxRune in Hr.
  destruct (Z.ltb_spec r 128).
  { eexists _, _. split; [done|]. unfold decode_rune. byte_tests. done. }
  destruct (Z.ltb_spec r 2048).
  { eexists _, _. split; [done|]. simpl. unfold decode_rune, continues.
    assert (2 <= r / 64 < 32) by (Z.div_mod_to_equations; lia). pose proof (Z.mod_pos_bound r 64 eq_refl).
    byte_tests. simpl. rewrite !mod_offset by (done || lia). f_equal. Z.div_mod_to_equations; lia. }
  pose proof (Z.mod_pos_bound r 64 eq_refl). pose proof (Z.mod_pos_bound (r / 64) 64 eq_refl).
  pose proof (Z.mod_pos_bound (r / 4096) 64 eq_refl).
  assert (Hq : r / 64 / 64 = r / 4096) by (rewrite Z.div_div by lia; done).
  assert (Hq2 : r / 4096 / 64 = r / 262144) by (rewrite Z.div_div by lia; done).
  pose proof (Z.div_mod r 64 ltac:(lia)). pose proof (Z.div_mod (r / 64) 64 ltac:(lia)).
  pose proof (Z.div_mod (r / 4096) 64 ltac:(lia)).
  destruct (Z.ltb_spec r 65536); eexists _, _; (split; [done|]); simpl.
  - rewrite decode_three by lia. f_equal. lia.
  - rewrite decode_four by lia. f_equal. lia.
Qed.

Lemma decode_encode rs : Forall valid_rune rs -> decode (encode rs) = rs.
Proof.
  induction 1 as [|r rs Hr _ IH]; [done|]. change (encode (r :: rs)) with (encode_rune r ++ encode rs).
  destruct (decode_encode_rune r (encode rs) Hr) as (b0 & l0 & -> & E).
  rewrite <-app_comm_cons, decode_cons, E. simpl. by rewrite IH.
Qed.

Lemma encode_rune_byte r b : b ∈ encode_rune r -> 0 <= b < 256.
Proof.
  unfold encode_rune. set (x := if decide _ then r else _).
  assert (Hx : 0 <= x <= MaxRune) by (unfold x, valid_rune, MaxRune, RuneError in *; case_decide; lia). clearbody x. unfold MaxRune in Hx.
  pose proof (Z.mod_pos_bound x 64 eq_refl). pose proof (Z.mod_pos_bound (x / 64) 64 eq_refl). pose proof (Z.mod_pos_bound (x / 4096) 64 eq_refl).
  destruct (Z.ltb_spec x 128); [intros ->%list_elem_of_singleton; lia|].
  destruct (Z.ltb_spec x 2048); [|destruct (Z.ltb_spec x 65536)]; rewrite !elem_of_cons, elem_of_nil;
    intros Hb; destruct_or!; try done; subst b; try lia; Z.div_mod_to_equations; lia.
Qed.

Lemma bytes_of_bytes l : Forall (fun b => 0 <= b < 256) l -> bytes_of (of_bytes l) = l.
Proof.
  intros Hl. unfold bytes_of, of_bytes. rewrite String.list_ascii_of_string_of_list_ascii, <-list_fmap_compose.
  rewrite <-(list_fmap_id l) at 2. apply list_fmap_ext. intros i b Hb. rewrite Forall_lookup in Hl. specialize (Hl i b Hb).
  unfold compose. simpl. rewrite N_ascii_embedding by lia. lia.
Qed.

Lemma of_bytes_of s : of_bytes (bytes_of s) = s.
Proof.
  unfold bytes_of, of_bytes. rewrite <-list_fmap_compose. rewrite <-(String.string_of_list_ascii_of_string s) at 2. f_equal.
  rewrite <-(list_fmap_id (String.list_ascii_of_string s)) at 2. apply list_fmap_ext. intros i c _. unfold compose. simpl.
  by rewrite N2Z.id, ascii_N_embedding.
Qed.

(** A string written from valid runes reads as them. *)
Lemma runes_of_runes rs : Forall valid_rune rs -> runes (of_runes rs) = rs.
Proof.
  intros Hrs. unfold runes, of_runes. rewrite bytes_of_bytes; [by apply decode_encode|].
  apply Forall_forall. intros b (r & Hb & _)%list_elem_of_bind. by eapply encode_rune_byte.
Qed.

Lemma decode_rune_valid b0 l : 0 <= b0 < 256 -> valid_rune (decode_rune b0 l).1.
Proof.
  intros Hb. assert (He : valid_rune RuneError) by (right; unfold RuneError, MaxRune; lia).
  unfold decode_rune, second_continues, continues. repeat case_match; simpl; try done; bool_to_prop; unfold valid_rune, MaxRune in *;
    Z.div_mod_to_equations; lia.
Qed.

Lemma decode_valid l : Forall (fun b => 0 <= b < 256) l -> Forall valid_rune (decode l).
Proof.
  unfold decode. generalize (length l) as n. intros n. revert l.
  assert (Hrest : forall b0 l, Forall (fun b => 0 <= b < 256) l -> Forall (fun b => 0 <= b < 256) (decode_rune b0 l).2).
  { intros b0 l Hl. unfold decode_rune. repeat case_match; simpl; try done; repeat (apply Forall_cons in Hl as [_ Hl]); done. }
  induction n as [|n IH]; intros [|b0 l] Hl; try done; try constructor. simpl. apply Forall_cons in Hl as [Hb Hl].
  pose proof (decode_rune_valid b0 l Hb). pose proof (Hrest b0 l Hl). destruct (decode_rune b0 l) as [r rest].
  constructor; [done|by apply IH].
Qed.

Lemma runes_valid s : Forall valid_rune (runes s).
Proof.
  apply decode_valid. apply Forall_forall. intros b (c & -> & _)%list_elem_of_fmap_1.
  pose proof (N_ascii_bounded c). lia.
Qed.

Lemma ValidString_runes s : ValidString s = true -> of_runes (runes s) = s.
Proof. apply bool_decide_eq_true. Qed.

End Runes.
