(* ===== verification/WindowsNames.v ===== *)
(** * Names for Windows clients ([internal/vfs/names.go])

    Characters Windows cannot use in names are presented as private-use runes and
    mapped back.  A rune is its code point. *)
From S2P Require Import Prelude Runes.

Module WindowsNames.
Import Runes.

Definition sfmControlOffset : rune := 61440.
Definition sfmTrailingSpace : rune := 61480.
Definition sfmTrailingPeriod : rune := 61481.
Definition sfmFirst : rune := 61441.
Definition sfmLast : rune := 61481.

(** [sfmReserved]: quotation mark, asterisk, colon, less, greater, question mark,
    backslash and bar. *)
Definition sfmReserved : list (rune * rune) :=
  [(34, 61472); (42, 61473); (58, 61474); (60, 61475); (62, 61476); (63, 61477); (92, 61478); (124, 61479)].

Definition assoc (r : rune) (m : list (rune * rune)) : option rune := snd <$> find (fun p => r =? p.1) m.

Definition sfmReservedReverse : list (rune * rune) := prod_swap <$> sfmReserved.

(** The first loop of [windowsName]. *)
Definition map_char (r : rune) : rune :=
  if (1 <=? r) && (r <=? 31) then sfmControlOffset + r else default r (assoc r sfmReserved).

(** The loop labelled [trailing], over the runes from the last. *)
Fixpoint map_trailing (rs : list rune) : list rune :=
  match rs with
  | [] => []
  | r :: rest =>
      if r =? 32 then sfmTrailingSpace :: map_trailing rest
      else if r =? 46 then sfmTrailingPeriod :: map_trailing rest
      else rs
  end.

(** A rune that is mapped changes, so [changed] is whether the runes did. *)
Definition windowsName (key : string) : string :=
  if bool_decide (key = ".") || bool_decide (key = "..") then key
  else
    let rs := runes key in
    let mapped := reverse (map_trailing (reverse (map_char <$> rs))) in
    if bool_decide (mapped = rs) then key else of_runes mapped.

Definition in_sfm (r : rune) : bool := (sfmFirst <=? r) && (r <=? sfmLast).

Definition unmap_char (r : rune) : rune :=
  if (sfmFirst <=? r) && (r <=? sfmControlOffset + 31) then r - sfmControlOffset
  else if r =? sfmTrailingSpace then 32
  else if r =? sfmTrailingPeriod then 46
  else default r (assoc r sfmReservedReverse).

Definition keyName (name : string) : string :=
  if negb (existsb in_sfm (runes name)) then name else of_runes (unmap_char <$> runes name).

(** ** Mapping and mapping back *)

(** Characters Windows does not take in a name, from its rules for file names:
    the control characters 1 to 31 and quotation mark, asterisk, colon, less,
    greater, question mark, backslash and bar.  The slash, which separates names,
    and the zero byte, which the code does not map, are left out. *)
Definition punctuation : list rune := [34; 42; 58; 60; 62; 63; 92; 124].

Definition forbidden (r : rune) : Prop := 1 <= r <= 31 \/ r ∈ punctuation.

(** The table of the code has an entry for each of them. *)
Lemma reserved_complete r : r ∈ punctuation -> r ∈ sfmReserved.*1.
Proof. unfold punctuation, sfmReserved. simpl. rewrite !elem_of_cons, elem_of_nil. lia. Qed.

Lemma assoc_spec r : match assoc r sfmReserved with
  | Some m => (r, m) ∈ sfmReserved
  | None => r ∉ sfmReserved.*1
  end.
Proof.
  unfold assoc, sfmReserved. simpl.
  repeat match goal with |- context [?a =? ?b] => destruct (Z.eqb_spec a b) as [->|] end; simpl;
    first [solve [repeat first [by left | right]] | rewrite !not_elem_of_cons; split_and!; try lia; apply not_elem_of_nil].
Qed.

Lemma unmap_map_char r : in_sfm r = false -> unmap_char (map_char r) = r.
Proof.
  unfold in_sfm, sfmFirst, sfmLast. intros Hr%andb_false_iff. unfold map_char.
  destruct (_ && _) eqn:Ec; bool_to_prop.
  { unfold unmap_char, sfmControlOffset, sfmFirst. rewrite (proj2 (Z.leb_le _ _)), (proj2 (Z.leb_le _ _)) by lia. simpl. lia. }
  pose proof (assoc_spec r) as Ha. destruct (assoc r sfmReserved) as [m|]; simpl.
  - unfold sfmReserved in Ha. rewrite !elem_of_cons, elem_of_nil in Ha. destruct_or!; try done; by injection Ha as -> ->.
  - unfold unmap_char, sfmFirst, sfmControlOffset, sfmTrailingSpace, sfmTrailingPeriod.
    destruct (_ && _) eqn:E1; bool_to_prop; [lia|]. destruct (Z.eqb_spec r 61480); [lia|]. destruct (Z.eqb_spec r 61481); [lia|].
    unfold assoc, sfmReservedReverse, sfmReserved. simpl.
    repeat match goal with |- context [?a =? ?b] => destruct (Z.eqb_spec a b); [lia|] end. done.
Qed.

Definition mapped (rs : list rune) : list rune := reverse (map_trailing (reverse (map_char <$> rs))).

Lemma unmap_plain r : in_sfm r = false -> unmap_char r = r.
Proof.
  unfold in_sfm, unmap_char, sfmFirst, sfmLast, sfmControlOffset, sfmTrailingSpace, sfmTrailingPeriod. intros Hr%andb_false_iff.
  bool_to_prop. destruct (_ && _) eqn:E; bool_to_prop; [lia|]. zcases. unfold assoc, sfmReservedReverse, sfmReserved. simpl.
  repeat match goal with |- context [?a =? ?b] => destruct (Z.eqb_spec a b); [lia|] end. done.
Qed.

Lemma unmap_trailing rs : unmap_char <$> map_trailing rs = unmap_char <$> rs.
Proof.
  induction rs as [|r rs IH]; [done|]. cbn [map_trailing]. destruct (Z.eqb_spec r 32) as [->|]; [by rewrite !fmap_cons, IH|].
  destruct (Z.eqb_spec r 46) as [->|]; [by rewrite !fmap_cons, IH|done].
Qed.

Lemma unmap_mapped rs : Forall (fun r => in_sfm r = false) rs -> unmap_char <$> mapped rs = rs.
Proof.
  intros Hrs. unfold mapped. rewrite !fmap_reverse, unmap_trailing, <-fmap_reverse, reverse_involutive, <-list_fmap_compose.
  rewrite <-(list_fmap_id rs) at 2. apply list_fmap_ext. intros i r Hr. rewrite Forall_lookup in Hrs.
  apply unmap_map_char. by eapply Hrs.
Qed.

Lemma trailing_Forall (P : rune -> Prop) rs :
  P sfmTrailingSpace -> P sfmTrailingPeriod -> Forall P rs -> Forall P (map_trailing rs).
Proof.
  intros H1 H2. induction 1 as [|r rs Hr Hrs IH]; [constructor|]. simpl.
  destruct (r =? 32); [by constructor|]. destruct (r =? 46); by constructor.
Qed.

Lemma mapped_Forall (P : rune -> Prop) rs :
  P sfmTrailingSpace -> P sfmTrailingPeriod -> Forall P (map_char <$> rs) -> Forall P (mapped rs).
Proof. intros H1 H2 H. unfold mapped. apply Forall_reverse, trailing_Forall; [done..|]. by apply Forall_reverse. Qed.

Lemma map_char_cases r : (1 <= r <= 31 /\ map_char r = sfmControlOffset + r) \/ (r, map_char r) ∈ sfmReserved \/ (~ forbidden r /\ map_char r = r).
Proof.
  unfold map_char, forbidden. destruct (_ && _) eqn:E; bool_to_prop; [by left|]. right.
  pose proof (assoc_spec r) as Ha. destruct (assoc r sfmReserved); simpl; [by left|right]. split; [|done]. intros [?|?%reserved_complete]; [lia|done].
Qed.

Lemma reserved_image r m : (r, m) ∈ sfmReserved -> 61472 <= m <= 61479.
Proof. unfold sfmReserved. rewrite !elem_of_cons, elem_of_nil. intros H. destruct_or!; try done; injection H as -> ->; lia. Qed.

Lemma high_allowed r : 1000 <= r -> ~ forbidden r.
Proof. unfold forbidden, punctuation. rewrite !elem_of_cons, elem_of_nil. lia. Qed.

Lemma mapped_allowed rs : Forall (fun r => ~ forbidden r) (mapped rs).
Proof.
  apply mapped_Forall; [apply high_allowed; unfold sfmTrailingSpace, sfmTrailingPeriod; lia..|].
  apply Forall_fmap, Forall_forall. intros r _. simpl.
  destruct (map_char_cases r) as [[? ->]|[H%reserved_image|[H ->]]]; [apply high_allowed; unfold sfmControlOffset; lia|apply high_allowed; lia|done].
Qed.

Lemma mapped_valid rs : Forall valid_rune rs -> Forall valid_rune (mapped rs).
Proof.
  intros Hrs. apply mapped_Forall; [unfold valid_rune, sfmTrailingSpace, sfmTrailingPeriod, MaxRune; lia..|].
  apply Forall_fmap. eapply Forall_impl; [exact Hrs|]. intros r Hr. simpl. unfold valid_rune, MaxRune in *.
  destruct (map_char_cases r) as [[? ->]|[H%reserved_image|[_ ->]]]; unfold sfmControlOffset; lia.
Qed.

Lemma mapped_last rs : last (mapped rs) <> Some 32 /\ last (mapped rs) <> Some 46.
Proof.
  unfold mapped. rewrite last_reverse. destruct (reverse _) as [|r l]; [done|]. simpl.
  destruct (Z.eqb_spec r 32); [done|]. destruct (Z.eqb_spec r 46); [done|]. simpl. split; congruence.
Qed.

Lemma unmapped rs : Forall (fun r => in_sfm r = false) rs -> unmap_char <$> rs = rs.
Proof.
  intros Hrs. rewrite <-(list_fmap_id rs) at 2. apply list_fmap_ext. intros i r Hr. rewrite Forall_lookup in Hrs.
  apply unmap_plain. by eapply Hrs.
Qed.

Lemma no_sfm rs : existsb in_sfm rs = false <-> Forall (fun r => in_sfm r = false) rs.
Proof.
  induction rs as [|r rs IH]; simpl; [by split|]. rewrite orb_false_iff, IH, Forall_cons. done.
Qed.

(** C29. A key that is well-formed UTF-8 and holds no rune of the mapping's own
    range is presented under a name with no control character, none of the eight
    punctuation characters Windows reserves and no space or period at its end (.
    and .. are left as they are), and that name is mapped back to the key. Device
    names and the zero byte are not mapped. *)
Theorem windows_name_round_trip (key : string)
    (Hvalid : ValidString key = true) (Hplain : existsb in_sfm (runes key) = false) :
  keyName (windowsName key) = key /\
  (key <> "." -> key <> ".." ->
   Forall (fun r => ~ forbidden r) (runes (windowsName key)) /\
   last (runes (windowsName key)) <> Some 32 /\ last (runes (windowsName key)) <> Some 46).
Proof.
  assert (Hkey : keyName key = key) by (unfold keyName; by rewrite Hplain).
  unfold windowsName. destruct (_ || _) eqn:Edot; bool_to_prop; [split; [done|tauto]|].
  fold (mapped (runes key)). case_bool_decide as Em.
  - split; [done|]. intros _ _. rewrite <-Em at 1 2 3. split; [apply mapped_allowed|apply mapped_last].
  - rewrite runes_of_runes by (apply mapped_valid, runes_valid). split; [|split; [apply mapped_allowed|apply mapped_last]].
    apply no_sfm in Hplain. unfold keyName. rewrite runes_of_runes by (apply mapped_valid, runes_valid).
    destruct (existsb in_sfm (mapped (runes key))) eqn:E; simpl.
    + rewrite unmap_mapped by done. by apply ValidString_runes.
    + apply no_sfm in E. destruct Em. rewrite <-(unmapped (mapped (runes key))) by done. by apply unmap_mapped.
Qed.

Lemma windows_name_round_trip_witness :
  windowsName "a:b. " = of_bytes [97; 239; 128; 162; 98; 239; 128; 169; 239; 128; 168] /\
  keyName (windowsName "a:b. ") = "a:b. ".
Proof.
  split; [vm_compute; reflexivity|]. apply (windows_name_round_trip "a:b. "); vm_compute; reflexivity.
Defined.

(** A key that holds a rune of the mapping's range already is shown as it is, and
    the name stands for another key. *)
Lemma mapped_rune_in_key :
  let key := of_runes [97; 61474] in windowsName key = key /\ keyName key = "a:".
Proof. split; vm_compute; reflexivity. Qed.

(** A key that is not well-formed loses bytes when it is mapped. *)
Lemma ill_formed_key_unreachable :
  let key := of_bytes [255; 58] in keyName (windowsName key) = of_bytes [239; 191; 189; 58].
Proof. vm_compute. reflexivity. Qed.

End WindowsNames.
