(* ===== verification/FoldNames.v ===== *)
(** * Names in any case ([internal/vfs/names.go])

    A Windows client's name matches a stored name case-insensitively.  Only
    entries that begin with a case variant of the name's start are listed; the
    theorem says that none that matches is left out.  The Unicode case tables are
    a parameter. *)
From S2P Require Import Prelude Runes.

Module FoldNames.
Import Runes.

(** [unicode.SimpleFold] walks a cycle through the runes equal to [r] up to case. *)
Class CaseFolding := {
  SimpleFold : Z -> Z;
  longest_orbit : nat;
  fold_returns r : exists n, (n <= longest_orbit)%nat /\ Nat.iter (S n) SimpleFold r = r;
  fold_valid r : valid_rune r -> valid_rune (SimpleFold r)
}.

Section FoldNames.
Context `{CaseFolding}.

(** The loop of [foldOrbit]; a cycle has at most [longest_orbit] more runes. *)
Fixpoint orbit_loop (fuel : nat) (r f : rune) : list rune :=
  match fuel with
  | O => []
  | S fuel => if f =? r then [] else f :: orbit_loop fuel r (SimpleFold f)
  end.

Definition foldOrbit (r : rune) : list rune := r :: orbit_loop longest_orbit r (SimpleFold r).

(** [strings.EqualFold]: rune by rune, up to case. *)
Definition EqualFold (s t : string) : Prop := Forall2 (fun a b => a ∈ foldOrbit b) (runes s) (runes t).
#[global] Instance EqualFold_dec s t : Decision (EqualFold s t).
Proof. apply Forall2_dec. intros a b. apply _. Defined.

(** The loop of [foldPrefixes] over the runes left of the key. *)
Fixpoint prefixes_loop (first : bool) (rs : list rune) (prefixes : list string) (limit : Z) : list string :=
  match rs with
  | [] => prefixes
  | r :: rs =>
      let orbit := foldOrbit r in
      if negb first && (limit <? len prefixes * len orbit) then prefixes
      else prefixes_loop false rs (prefixes ≫= (fun p => (fun v => p +:+ of_runes [v]) <$> orbit)) limit
  end.

Definition foldPrefixes (key : string) (limit : Z) : list string := prefixes_loop true (runes key) [""] limit.

Definition maxFoldPrefixes : Z := 8.

(** The loop of [matchChild] over its candidates: an exact match, else the first
    in byte order that matches up to case. *)
Fixpoint match_loop (candidates : list string) (key : string) (best : string) : string :=
  match candidates with
  | [] => if bool_decide (best = "") then key else best
  | name :: rest =>
      if bool_decide (name = key) then name
      else
        match_loop rest key
          (if bool_decide (EqualFold name key) && (bool_decide (best = "") || string_ltb name best) then name else best)
  end.

(** ** No match is left out *)

Lemma of_bytes_app a b : of_bytes (a ++ b) = of_bytes a +:+ of_bytes b.
Proof.
  unfold of_bytes. rewrite fmap_app. generalize ((fun b : Z => Ascii.ascii_of_N (Z.to_N b)) <$> a).
  induction l as [|c l IH]; [done|]. simpl. f_equal. apply IH.
Qed.

Lemma of_runes_app a b : of_runes (a ++ b) = of_runes a +:+ of_runes b.
Proof. unfold of_runes, encode. by rewrite bind_app, of_bytes_app. Qed.

Lemma prefixes_loop_complete first rs limit prefixes pre suf :
  of_runes pre ∈ prefixes -> Forall2 (fun a b => a ∈ foldOrbit b) suf rs ->
  exists p, p ∈ prefixes_loop first rs prefixes limit /\ HasPrefix (of_runes (pre ++ suf)) p = true.
Proof.
  intros Hp Hs. revert first prefixes pre Hp. induction Hs as [|a b suf rs Hab _ IH]; intros first prefixes pre Hp; simpl.
  { exists (of_runes pre). split; [done|]. rewrite app_nil_r. apply HasPrefix_refl. }
  destruct (_ && _).
  { exists (of_runes pre). split; [done|]. rewrite of_runes_app. apply HasPrefix_app. }
  change (a :: suf) with ([a] ++ suf). rewrite app_assoc. apply IH. apply list_elem_of_bind. exists (of_runes pre).
  split; [|done]. rewrite of_runes_app. exact (list_elem_of_fmap_2 (fun v => of_runes pre +:+ of_runes [v]) (foldOrbit b) a Hab).
Qed.

Lemma match_prefix name key limit :
  ValidString name = true -> EqualFold name key ->
  exists p, p ∈ foldPrefixes key limit /\ HasPrefix name p = true.
Proof.
  intros Hv He. rewrite <-(ValidString_runes name Hv).
  apply (prefixes_loop_complete true (runes key) limit [""] [] (runes name)); [by left|done].
Qed.

Lemma EqualFold_refl s : EqualFold s s.
Proof. unfold EqualFold. induction (runes s); constructor; [by left|done]. Qed.

(** What the loop picks: the key itself, or the least match. *)
Definition picks (names : list string) (key best r : string) : Prop :=
  if decide (key ∈ names) then r = key
  else
    (r = key /\ best = "" /\ (forall n, n ∈ names -> ~ EqualFold n key)) \/
    (r <> "" /\ (r = best \/ (r ∈ names /\ EqualFold r key)) /\ (best <> "" -> string_ltb best r = false) /\
     (forall n, n ∈ names -> EqualFold n key -> string_ltb n r = false)).

Lemma match_loop_picks names key best : "" ∉ names -> picks names key best (match_loop names key best).
Proof.
  revert best. induction names as [|n names IH]; intros best Hne; unfold picks in *.
  - rewrite decide_False by apply not_elem_of_nil. simpl. case_bool_decide as Hb; [left; split_and!; [done|done|by intros n ?%elem_of_nil]|]. right. split_and!; [done|by left| |by intros n ?%elem_of_nil]. intros _. apply string_ltb_irrefl.
  - cbn [match_loop]. case_bool_decide as Hk; [by rewrite decide_True by (subst; by left)|].
    set (best' := if bool_decide (EqualFold n key) && _ then n else best). specialize (IH best' ltac:(set_solver)).
    destruct (decide (key ∈ names)) as [Hin|Hin]; [rewrite decide_True by (by right); done|].
    rewrite decide_False by set_solver.
    assert (Hcase : (best' = n /\ EqualFold n key /\ (best = "" \/ string_ltb n best = true)) \/
                    (best' = best /\ (EqualFold n key -> best <> "" /\ string_ltb n best = false))).
    { unfold best'. destruct (bool_decide (EqualFold n key)) eqn:E1; simpl; bool_to_prop; [|by right].
      destruct (bool_decide (best = "")) eqn:E2; simpl; bool_to_prop; [by left; auto|]. destruct (string_ltb n best) eqn:E3; auto. }
    destruct Hcase as [(E & He & Hlt)|[E Hno]]; rewrite E in IH.
    + destruct IH as [(_ & -> & _)|(H1 & H2 & H3 & H4)]; [set_solver|]. right.
      assert (Hn : string_ltb n (match_loop names key best') = false) by (rewrite E; apply H3; set_solver). rewrite E in *.
      split_and!; [done|right; destruct H2 as [->|[??]]; [split; [by left|done]|split; [by right|done]]| |].
      * intros Hb. destruct Hlt as [?|Hlt]; [done|]. destruct (string_ltb best _) eqn:Eb; [|done].
        by rewrite (string_ltb_trans _ _ _ Hlt Eb) in Hn.
      * intros m [->|Hm]%elem_of_cons; [done|by apply H4].
    + rewrite E. destruct IH as [(-> & -> & H3)|(H1 & H2 & H3 & H4)].
      * left. split_and!; [done|done|]. intros m [->|Hm]%elem_of_cons; [|by apply H3]. intros He. by destruct (Hno He).
      * right. split_and!; [done|destruct H2 as [?|[??]]; [by left|right; split; [by right|done]]|done|].
        intros m [->|Hm]%elem_of_cons; [|by apply H4]. intros He. destruct (Hno He) as [Hb Hnb].
        destruct (string_ltb n (match_loop names key best)) eqn:En; [|done]. specialize (H3 Hb).
        destruct (string_ltb (match_loop names key best) best) eqn:Hgt; [by rewrite (string_ltb_trans _ _ _ En Hgt) in Hnb|].
        pose proof (string_ltb_total _ _ H3 Hgt). congruence.
Qed.

(** C30. In a directory whose names are all non-empty valid UTF-8, searching only
    the names that begin with a case variant of the wanted name's start finds the
    same entry as searching the whole directory, in whatever order and however
    often the listings give them: the name as spelled, else the first match in
    byte order, else the name itself. *)
Theorem fold_search_complete (names candidates : list string) (key : string) (limit : Z)
    (Hvalid : Forall (fun n => ValidString n = true /\ n <> "") names)
    (Hsub : forall n, n ∈ candidates -> n ∈ names)
    (Hlisted : forall n p, n ∈ names -> p ∈ foldPrefixes key limit -> HasPrefix n p = true -> n ∈ candidates) :
  match_loop candidates key "" = match_loop names key "".
Proof.
  rewrite Forall_forall in Hvalid.
  assert (Hin : forall n, n ∈ names -> EqualFold n key -> n ∈ candidates).
  { intros n Hn He. destruct (match_prefix n key limit) as (p & Hp & Hpre); [by apply Hvalid|done|eauto]. }
  pose proof (match_loop_picks candidates key "" ltac:(intros H0%Hsub%Hvalid; by destruct H0)) as H1.
  pose proof (match_loop_picks names key "" ltac:(intros H0%Hvalid; by destruct H0)) as H2. unfold picks in *.
  destruct (decide (key ∈ candidates)) as [Hc|Hc].
  { rewrite decide_True in H2 by auto. congruence. }
  assert (Hn : key ∉ names) by (intros Hn; apply Hc, Hin; [done|apply EqualFold_refl]). rewrite decide_False in H2 by done.
  destruct H1 as [(E1 & _ & H1)|(H1 & [?|[M1 F1]] & _ & L1)]; [|done|]; destruct H2 as [(E2 & _ & H2)|(H2 & [?|[M2 F2]] & _ & L2)]; try done.
  - congruence.
  - destruct (H1 _ (Hin _ M2 F2) F2).
  - destruct (H2 _ (Hsub _ M1) F1).
  - apply string_ltb_total; [by apply L2; [apply Hsub|]|apply L1; [by apply Hin|done]].
Qed.

(** The listings stay within the limit after the first character. *)
Lemma prefixes_loop_few rs prefixes limit :
  len prefixes <= limit -> len (prefixes_loop false rs prefixes limit) <= limit.
Proof.
  revert prefixes. induction rs as [|r rs IH]; intros prefixes Hl; [done|]. cbn [prefixes_loop negb andb].
  destruct (Z.ltb_spec limit (len prefixes * len (foldOrbit r))); [done|]. apply IH.
  etrans; [|eassumption]. clear. induction prefixes as [|p ps IHp]; [done|].
  rewrite bind_cons, length_app, length_fmap, Nat2Z.inj_add. change (length (p :: ps)) with (S (length ps)). lia.
Qed.

End FoldNames.

(** ** Latin letters, as an example of case tables *)

Definition ascii_fold (r : Z) : Z :=
  if (65 <=? r) && (r <=? 90) then r + 32 else if (97 <=? r) && (r <=? 122) then r - 32 else r.

#[global] Program Instance ascii_folding : CaseFolding := {| SimpleFold := ascii_fold; longest_orbit := 1 |}.
Next Obligation.
  intros r. unfold ascii_fold. destruct ((65 <=? r) && (r <=? 90)) eqn:E1; [|destruct ((97 <=? r) && (r <=? 122)) eqn:E2];
    [exists 1%nat|exists 1%nat|exists 0%nat]; (split; [lia|]); simpl; bool_to_prop; rewrite ?E1; zcases; lia.
Qed.
Next Obligation. intros r. unfold ascii_fold, valid_rune, MaxRune. zcases; lia. Qed.

Lemma fold_search_complete_witness :
  foldPrefixes "Read" maxFoldPrefixes = ["Rea"; "ReA"; "REa"; "REA"; "rea"; "reA"; "rEa"; "rEA"] /\
  match_loop ["README"; "read"; "READ"] "Read" "" = match_loop ["zoo"; "READ"; "README"; "read"; "Re"] "Read" "".
Proof.
  split; [vm_compute; reflexivity|].
  apply (fold_search_complete ["zoo"; "READ"; "README"; "read"; "Re"] ["README"; "read"; "READ"] "Read" maxFoldPrefixes).
  - repeat constructor; try (vm_compute; reflexivity); discriminate.
  - set_solver.
  - assert (Hall : Forall (fun n => Forall (fun p => HasPrefix n p = true -> n ∈ ["README"; "read"; "READ"])
        (foldPrefixes "Read" maxFoldPrefixes)) ["zoo"; "READ"; "README"; "read"; "Re"])
      by (apply (bool_decide_unpack _); vm_compute; exact I).
    intros n p Hn Hp. rewrite Forall_forall in Hall. specialize (Hall n Hn). rewrite Forall_forall in Hall. by apply Hall.
Defined.

(** A stored name that is not well-formed matches a name with U+FFFD, and begins
    with none of the prefixes listed for it. *)
Lemma ill_formed_name_not_listed :
  let name := of_bytes [255] in let key := of_runes [RuneError] in
  EqualFold name key /\ foldPrefixes key maxFoldPrefixes = [key] /\ HasPrefix name key = false.
Proof.
  split_and!; [|vm_compute; reflexivity|vm_compute; reflexivity].
  match goal with |- EqualFold ?n ?k => apply (bool_decide_eq_true_1 (EqualFold n k)); vm_compute; reflexivity end.
Qed.

End FoldNames.
