(* ===== verification/Changes.v ===== *)
(** * The change feed and directory times ([internal/vfs/changes.go],
      [dirtimes.go])

    Every change made through the file system is published to its subscribers and
    moves the recorded modification time of the directories whose entries it
    changes, which is what NFS clients key their cached listings on. *)
From S2P Require Import Prelude GoPath Paths WindowsNames ObjectRefresh.

Module Changes.

Inductive ChangeAction := ChangeAdded | ChangeRemoved | ChangeModified | ChangeRenamed.

(** [ChangeKind], a set of bits. *)
Definition ChangeData : Z := 1.
Definition ChangeAttributes : Z := 2.
Definition ChangeTimes : Z := 4.
Definition ChangeStreams : Z := 8.

Record Change := mkChange {
  Action : ChangeAction;
  Path : string;
  OldPath : string;
  IsDir : bool;
  Kind : Z;
  Protocol : string
}.

(** ** Directory times *)

Definition maxTrackedDirs : Z := 100000.

Record dirTimes := mkTimes { last_ : Time; dirs : gmap string Time }.

Definition no_times : dirTimes := mkTimes 0 ∅.

(** [evictOldestLocked]: the oldest tenth, and what is as old. *)
Definition cutoff (m : gmap string Time) : Time :=
  let times := merge_sort Z.le (map_to_list m).*2 in default 0 (times !! (length times / 10)%nat).

Definition evictOldestLocked (d : dirTimes) : dirTimes :=
  mkTimes (last_ d) (filter (fun pt => cutoff (dirs d) < pt.2) (dirs d)).

(** [touch]: times only move forward. *)
Definition touch (d : dirTimes) (dir : string) (now : Time) : dirTimes :=
  let now := if After now (last_ d) then now else last_ d + Nanosecond in
  let d := mkTimes now (<[dir := now]> (dirs d)) in
  if maxTrackedDirs <? Z.of_nat (base.size (dirs d)) then evictOldestLocked d else d.

Definition forget (d : dirTimes) (p : string) : dirTimes := mkTimes (last_ d) (delete p (dirs d)).

Definition move (d : dirTimes) (oldPath newPath : string) : dirTimes :=
  match dirs d !! oldPath with
  | Some t => mkTimes (last_ d) (<[newPath := t]> (delete oldPath (dirs d)))
  | None => d
  end.

Definition modTime_ (d : dirTimes) (dir : string) : option Time := dirs d !! dir.

Definition cleanKey (p : string) : string := Clean ("/" +:+ p).

(** [record]; a rename reads the clock twice. *)
Definition record_ (d : dirTimes) (c : Change) (now now' : Time) : dirTimes :=
  let p := cleanKey (Path c) in
  match Action c with
  | ChangeAdded => touch d (path_Dir p) now
  | ChangeRemoved => touch (forget d p) (path_Dir p) now
  | ChangeRenamed =>
      let old := cleanKey (OldPath c) in
      touch (touch (move d old p) (path_Dir old) now) (path_Dir p) now'
  | ChangeModified => if negb (Z.land (Kind c) ChangeTimes =? 0) then forget d p else d
  end.

(** [withDirTime]: the later of the recorded and the stored time, for a
    directory whose stored time is [stored]. *)
Definition dir_time (d : dirTimes) (fullPath : string) (stored : Time) : Time :=
  match modTime_ d (cleanKey fullPath) with
  | Some t => if After t stored then t else stored
  | None => stored
  end.

(** ** The feed *)

(** A subscriber is known by its number; [publish] says who is told. *)
Record changeFeed := mkFeed { subs : gset Z; next : Z; times : dirTimes }.

Definition new_feed : changeFeed := mkFeed ∅ 0 no_times.

Definition SubscribeChanges (f : changeFeed) : changeFeed * Z :=
  (mkFeed ({[next f]} ∪ subs f) (next f + 1) (times f), next f).

Definition cancel (f : changeFeed) (id : Z) : changeFeed := mkFeed (subs f ∖ {[id]}) (next f) (times f).

Definition publish (f : changeFeed) (c : Change) (now now' : Time) : changeFeed * list (Z * Change) :=
  (mkFeed (subs f) (next f) (record_ (times f) c now now'), (fun id => (id, c)) <$> elements (subs f)).

Definition active (f : changeFeed) : bool := bool_decide (subs f <> ∅).

Definition ProtocolBucket : string := "bucket".

(** [ReportExternalChange]: what is published of a change the scan found. *)
Definition external_change (c : ObjectRefresh.ObjectChange) : Change :=
  match ObjectRefresh.ch_Kind c with
  | ObjectRefresh.ObjectAdded => mkChange ChangeAdded (ObjectRefresh.ch_Path c) "" (ObjectRefresh.ch_IsDir c) 0 ProtocolBucket
  | ObjectRefresh.ObjectRemoved => mkChange ChangeRemoved (ObjectRefresh.ch_Path c) "" (ObjectRefresh.ch_IsDir c) 0 ProtocolBucket
  | ObjectRefresh.ObjectModified => mkChange ChangeModified (ObjectRefresh.ch_Path c) "" (ObjectRefresh.ch_IsDir c) ChangeData ProtocolBucket
  end.

(** ** Names in change notifications *)

(** [ha.LeaseObjectKey], which no client sees. *)
Definition LeaseObjectKey : string := ".nfs-gateway.lease".
Definition isReservedPath (fullPath : string) : bool := bool_decide (fullPath = "/" +:+ LeaseObjectKey).

(** [ClientPath], for a view with the given root and naming. *)
Definition ClientPath (root : string) (windowsNames : bool) (keyPath : string) : option string :=
  if isReservedPath keyPath then None
  else
    let root := TrimSuffix root "/" in
    let outside := negb (bool_decide (root = "")) && negb (bool_decide (keyPath = root)) && negb (HasPrefix keyPath (root +:+ "/")) in
    if outside then None
    else
      let rel := TrimLeftSlash (TrimRightSlash (if bool_decide (root = "") then keyPath else TrimPrefix keyPath root)) in
      if bool_decide (rel = "") || negb windowsNames then Some rel
      else Some (JoinSlash (WindowsNames.windowsName <$> SplitSlash rel)).

(** ** Times only move forward *)

(** Recorded times are of the past, differ, and there are not too many. *)
Record wf (d : dirTimes) : Prop := mkWf {
  wf_past p t : dirs d !! p = Some t -> t <= last_ d;
  wf_differ p q t : dirs d !! p = Some t -> dirs d !! q = Some t -> p = q;
  wf_few : Z.of_nat (base.size (dirs d)) <= maxTrackedDirs
}.

Lemma size_insert_le (m : gmap string Time) q t : (base.size (<[q := t]> m) <= S (base.size m))%nat.
Proof.
  destruct (m !! q) eqn:E; [rewrite map_size_insert_Some by eauto; lia|rewrite map_size_insert_None by done; lia].
Qed.

Lemma no_times_wf : wf no_times.
Proof. split; simpl; [by intros p t ?%lookup_empty_Some|by intros p q t ?%lookup_empty_Some|done]. Qed.

Lemma forget_wf d p : wf d -> wf (forget d p).
Proof.
  intros [H1 H2 H3]. split; simpl.
  - intros q t [_ Hq]%lookup_delete_Some. by eapply H1.
  - intros q r t [_ Hq]%lookup_delete_Some [_ Hr]%lookup_delete_Some. by eapply H2.
  - pose proof (map_subseteq_size _ _ (delete_subseteq (dirs d) p)). lia.
Qed.

Lemma move_wf d p q : wf d -> wf (move d p q).
Proof.
  intros Hd. unfold move. destruct (dirs d !! p) as [t|] eqn:E; [|done].
  destruct (forget_wf d p Hd) as [H1 H2 H3]. destruct Hd as [G1 G2 G3]. simpl in *.
  assert (Hnew : forall r, delete p (dirs d) !! r = Some t -> False).
  { intros r [Hne Hr]%lookup_delete_Some. apply Hne. by eapply G2. }
  split; simpl.
  - intros r u [[<- <-]|[_ Hr]]%lookup_insert_Some; [by eapply G1|by eapply H1].
  - intros r r' u [[<- <-]|[_ Hr]]%lookup_insert_Some [[<- Hu]|[_ Hr']]%lookup_insert_Some; simplify_eq; try done.
    + by destruct (Hnew r').
    + by destruct (Hnew r).
    + by eapply H2.
  - assert (Hp : base.size (dirs d) = S (base.size (delete p (dirs d)))).
    { rewrite <-(insert_delete_id (dirs d) p t E) at 1. apply map_size_insert_None, lookup_delete_eq. }
    pose proof (size_insert_le (delete p (dirs d)) q t). lia.
Qed.

(** ** Eviction *)

Lemma size_values (m : gmap string Time) : length (map_to_list m).*2 = base.size m.
Proof. by rewrite length_fmap, length_map_to_list. Qed.

Lemma sorted_lookup (l : list Z) i j x y :
  StronglySorted Z.le l -> l !! i = Some x -> l !! j = Some y -> (i < j)%nat -> x <= y.
Proof.
  intros Hs. revert i j. induction Hs as [|z l _ IH Hall]; intros i j Hi Hj Hlt; [done|].
  destruct j as [|j]; [lia|]. simpl in Hj. destruct i as [|i]; [|eapply IH; [done..|lia]].
  injection Hi as <-. rewrite Forall_lookup in Hall. by eapply Hall.
Qed.

(** The two newest times are above the cutoff when times differ. *)
Lemma cutoff_below (m : gmap string Time) p' t :
  (forall q u, m !! q = Some u -> u <= t \/ q = p') -> (forall q r u, m !! q = Some u -> m !! r = Some u -> q = r) ->
  (3 <= base.size m)%nat -> cutoff m < t.
Proof.
  intros Hmax Hdiff Hsize. unfold cutoff. set (times := merge_sort Z.le (map_to_list m).*2).
  assert (Hperm : times ≡ₚ (map_to_list m).*2) by apply merge_sort_Permutation.
  assert (Hlen : length times = base.size m) by (by rewrite Hperm, size_values).
  assert (Hsorted : StronglySorted Z.le times) by (apply StronglySorted_merge_sort; apply _).
  assert (Hin : forall i u, times !! i = Some u -> exists q, m !! q = Some u).
  { intros i u Hu%list_elem_of_lookup_2. rewrite Hperm in Hu. apply list_elem_of_fmap in Hu as ([q v] & -> & Hq).
    exists q. by apply elem_of_map_to_list. }
  assert (Hdup : NoDup times).
  { rewrite Hperm. apply NoDup_fmap_2_strong; [|apply NoDup_map_to_list]. intros [a x] [b y] Ha%elem_of_map_to_list Hb%elem_of_map_to_list E.
    simpl in E. subst y. by rewrite (Hdiff a b x Ha Hb). }
  set (k := (length times / 10)%nat).
  assert (Hk : (S (S k) < length times)%nat) by (unfold k; pose proof (Nat.Div0.mul_div_le (length times) 10); lia).
  destruct (lookup_lt_is_Some_2 times k) as [u Hu]; [lia|]. destruct (lookup_lt_is_Some_2 times (S k)) as [v Hv]; [lia|].
  destruct (lookup_lt_is_Some_2 times (S (S k))) as [w Hw]; [done|]. rewrite Hu. simpl.
  assert (u <= v) by (eapply sorted_lookup; [done..|lia]). assert (v <= w) by (eapply sorted_lookup; [done..|lia]).
  assert (u <> v) by (intros ->; pose proof (NoDup_lookup _ _ _ _ Hdup Hu Hv); lia).
  assert (v <> w) by (intros ->; pose proof (NoDup_lookup _ _ _ _ Hdup Hv Hw); lia).
  destruct (Hin _ _ Hv) as [q Hq]. destruct (Hin _ _ Hw) as [r Hr].
  destruct (Hmax q v Hq) as [|Eq]; [lia|]. destruct (Hmax r w Hr) as [|Er]; [lia|]. subst. simplify_eq.
Qed.

Lemma insert_new_wf d dir now :
  wf d -> last_ d < now ->
  let m := <[dir := now]> (dirs d) in
  (forall p t, m !! p = Some t -> t <= now) /\ (forall p q t, m !! p = Some t -> m !! q = Some t -> p = q).
Proof.
  intros [H1 H2 _] Hnow m. split.
  - intros p t [[<- <-]|[_ Hp]]%lookup_insert_Some; [done|]. specialize (H1 p t Hp). lia.
  - intros p q t [[<- <-]|[_ Hp]]%lookup_insert_Some [[<- Ht]|[_ Hq]]%lookup_insert_Some; simplify_eq; try done.
    + specialize (H1 _ _ Hq). lia.
    + specialize (H1 _ _ Hp). lia.
    + by eapply H2.
Qed.

Lemma evict_keeps (d : dirTimes) p p' t :
  (forall q u, dirs d !! q = Some u -> u <= t \/ q = p') -> (forall q r u, dirs d !! q = Some u -> dirs d !! r = Some u -> q = r) ->
  (3 <= base.size (dirs d))%nat -> dirs d !! p = Some t -> dirs (evictOldestLocked d) !! p = Some t.
Proof. intros H1 H2 H3 Hp. apply map_lookup_filter_Some. split; [done|]. by eapply cutoff_below. Qed.

Lemma evict_wf d :
  (forall p t, dirs d !! p = Some t -> t <= last_ d) -> (forall p q t, dirs d !! p = Some t -> dirs d !! q = Some t -> p = q) ->
  Z.of_nat (base.size (dirs d)) <= maxTrackedDirs + 1 -> (1 <= base.size (dirs d))%nat -> wf (evictOldestLocked d).
Proof.
  intros H1 H2 H3 Hsize.
  assert (Hsub : forall q u, dirs (evictOldestLocked d) !! q = Some u -> dirs d !! q = Some u) by (by intros q u [? _]%map_lookup_filter_Some).
  split.
  - intros q u Hq. by eapply H1, Hsub.
  - intros q r u Hq Hr. eapply H2; by apply Hsub.
  - assert (Hlt : (base.size (dirs (evictOldestLocked d)) < base.size (dirs d))%nat); [|lia].
    apply map_subset_size. split; [apply map_filter_subseteq|]. intros Hall.
    assert (Hex : exists q, dirs d !! q = Some (cutoff (dirs d))).
    { unfold cutoff. set (times := merge_sort Z.le (map_to_list (dirs d)).*2).
      assert (Hperm : times ≡ₚ (map_to_list (dirs d)).*2) by apply merge_sort_Permutation.
      assert (Hlen : length times = base.size (dirs d)) by (by rewrite Hperm, size_values).
      destruct (lookup_lt_is_Some_2 times (length times / 10)%nat) as [u Hu].
      { pose proof (Nat.Div0.mul_div_le (length times) 10). lia. }
      rewrite Hu. apply list_elem_of_lookup_2 in Hu. rewrite Hperm in Hu. apply list_elem_of_fmap in Hu as ([q v] & -> & Hq).
      exists q. by apply elem_of_map_to_list. }
    destruct Hex as (q & Hq). eapply lookup_weaken in Hall; [|exact Hq]. apply map_lookup_filter_Some in Hall as [_ Hl]. simpl in Hl. lia.
Qed.

(** A touch gives the directory a time later than all before, and the directory
    touched before it keeps its own. *)
Lemma touch_spec d dir now :
  wf d ->
  wf (touch d dir now) /\ last_ d < last_ (touch d dir now) /\ modTime_ (touch d dir now) dir = Some (last_ (touch d dir now)) /\
  (forall q, q <> dir -> modTime_ d q = Some (last_ d) -> modTime_ (touch d dir now) q = Some (last_ d)).
Proof.
  intros Hd. unfold touch. set (t := if last_ d <? now then now else last_ d + Nanosecond).
  assert (Ht : last_ d < t) by (unfold t, Nanosecond; zcases). clearbody t.
  destruct (insert_new_wf d dir t Hd Ht) as [H1 H2]. destruct Hd as [Hpast _ H3].
  pose proof (size_insert_le (dirs d) dir t) as Hsize. unfold modTime_. simpl. set (m := <[dir := t]> (dirs d)) in *.
  assert (Hold : forall q, q <> dir -> m !! q = dirs d !! q) by (intros q Hq; by apply lookup_insert_ne).
  assert (Hnew : m !! dir = Some t) by apply lookup_insert_eq.
  destruct (Z.ltb_spec maxTrackedDirs (Z.of_nat (base.size m))) as [Hlt|Hle].
  - assert (Hbig : (3 <= base.size m)%nat) by (unfold maxTrackedDirs in Hlt; lia). split_and!.
    + apply (evict_wf (mkTimes t m)); simpl; [done..|lia|lia].
    + done.
    + apply (evict_keeps (mkTimes t m) dir dir); simpl; [|done..]. intros q u Hq. left. by eapply H1.
    + intros q Hq Hl. apply (evict_keeps (mkTimes t m) q dir); simpl; [|done|done|by rewrite Hold]. intros r u Hr.
      destruct (decide (r = dir)) as [->|Hne]; [by right|left]. rewrite Hold in Hr by done. by eapply Hpast.
  - split_and!; [by split|done|done|]. intros q Hq Hl. by rewrite Hold.
Qed.

Lemma record_wf d c now now' : wf d -> wf (record_ d c now now') /\ last_ d <= last_ (record_ d c now now').
Proof.
  intros Hd. unfold record_. destruct (Action c).
  - destruct (touch_spec d (path_Dir (cleanKey (Path c))) now Hd) as (? & ? & _ & _). split; [done|lia].
  - destruct (touch_spec (forget d (cleanKey (Path c))) (path_Dir (cleanKey (Path c))) now) as (? & Hl & _ & _); [by apply forget_wf|].
    split; [done|]. simpl in Hl. lia.
  - destruct (negb _); [|done]. split; [by apply forget_wf|done].
  - set (d1 := move d _ _). assert (H1 : wf d1) by (by apply move_wf).
    assert (El : last_ d1 = last_ d) by (unfold d1, move; by destruct (_ !! _)).
    destruct (touch_spec d1 (path_Dir (cleanKey (OldPath c))) now H1) as (H2 & L2 & _ & _).
    destruct (touch_spec _ (path_Dir (cleanKey (Path c))) now' H2) as (H3 & L3 & _ & _). split; [done|lia].
Qed.

(** The directories whose entries a change changes. *)
Definition parents (c : Change) : list string :=
  match Action c with
  | ChangeAdded | ChangeRemoved => [path_Dir (cleanKey (Path c))]
  | ChangeRenamed => [path_Dir (cleanKey (OldPath c)); path_Dir (cleanKey (Path c))]
  | ChangeModified => []
  end.

Fixpoint history (d : dirTimes) (cs : list (Change * Time * Time)) : dirTimes :=
  match cs with [] => d | (c, now, now') :: cs => history (record_ d c now now') cs end.

Lemma history_wf d cs : wf d -> wf (history d cs) /\ last_ d <= last_ (history d cs).
Proof.
  revert d. induction cs as [|[[c now] now'] cs IH]; intros d Hd; [done|]. simpl.
  destruct (record_wf d c now now' Hd) as [H1 H2]. destruct (IH _ H1). split; [done|lia].
Qed.

(** After any changes, whatever the clock did in between, a change to the
    entries of a directory gives it a recorded time later than any time recorded
    for any directory before; and no more than [maxTrackedDirs] are kept. *)
Theorem changed_directory_gets_new_time (cs : list (Change * Time * Time)) (c : Change) (now now' : Time) (dir : string)
    (Hdir : dir ∈ parents c) :
  let before := history no_times cs in
  let after := record_ before c now now' in
  (exists t, modTime_ after dir = Some t /\
     forall k q t', modTime_ (history no_times (take k cs)) q = Some t' -> t' < t) /\
  Z.of_nat (base.size (dirs after)) <= maxTrackedDirs.
Proof.
  intros before after. destruct (history_wf no_times cs no_times_wf) as [Hb _]. fold before in Hb.
  destruct (record_wf before c now now' Hb) as [Ha Hle]. fold after in Ha, Hle. split; [|by apply wf_few].
  assert (Hpast : forall k q t', modTime_ (history no_times (take k cs)) q = Some t' -> t' <= last_ before).
  { intros k q t' Hq. destruct (history_wf no_times (take k cs) no_times_wf) as [Hk _]. etrans; [by eapply (wf_past _ Hk)|].
    assert (Happ : forall d a b, history d (a ++ b) = history (history d a) b)
      by (intros d a; revert d; induction a as [|[[x y] z] a IH]; intros d b; [done|apply IH]).
    unfold before. rewrite <-(take_drop k cs) at 2. rewrite Happ. by apply history_wf. }
  assert (Hnew : exists t, modTime_ after dir = Some t /\ last_ before < t).
  { unfold after, record_, parents in *. destruct (Action c).
    - apply list_elem_of_singleton in Hdir as ->. destruct (touch_spec before (path_Dir (cleanKey (Path c))) now Hb) as (_ & ? & ? & _). eauto.
    - apply list_elem_of_singleton in Hdir as ->.
      destruct (touch_spec (forget before (cleanKey (Path c))) (path_Dir (cleanKey (Path c))) now) as (_ & ? & ? & _); [by apply forget_wf|]. eauto.
    - by apply elem_of_nil in Hdir.
    - set (d1 := move before _ _) in *. assert (H1 : wf d1) by (by apply move_wf).
      assert (El : last_ d1 = last_ before) by (unfold d1, move; by destruct (_ !! _)).
      destruct (touch_spec d1 (path_Dir (cleanKey (OldPath c))) now H1) as (H2 & L2 & M2 & _).
      destruct (touch_spec _ (path_Dir (cleanKey (Path c))) now' H2) as (_ & L3 & M3 & K3).
      destruct (decide (dir = path_Dir (cleanKey (Path c)))) as [->|Hne]; [eexists; split; [done|lia]|].
      assert (dir = path_Dir (cleanKey (OldPath c))) as -> by set_solver. eexists. split; [by apply K3|lia]. }
  destruct Hnew as (t & Ht & Hlt). exists t. split; [done|]. intros k q t' Hq%Hpast. lia.
Qed.

Definition added (p : string) : Change := mkChange ChangeAdded p "" false 0 "nfs".

Lemma changed_directory_gets_new_time_witness :
  let before := history no_times [(added "/d/a", 7, 0)] in
  let after := record_ before (added "/d/b") 5 0 in
  modTime_ before "/d" = Some 7 /\
  exists t, modTime_ after "/d" = Some t /\ 7 < t.
Proof.
  split; [vm_compute; reflexivity|].
  destruct (changed_directory_gets_new_time [(added "/d/a", 7, 0)] (added "/d/b") 5 0 "/d") as [(t & Ht & Hall) _].
  - apply list_elem_of_singleton. vm_compute. reflexivity.
  - exists t. split; [exact Ht|]. apply (Hall 1%nat "/d" 7). vm_compute. reflexivity.
Defined.

(** A directory whose stored time lies in the future, as a client can set it, reports
    that time before and after a change: the new entry moves nothing a client
    keys its cached listing on. *)
Lemma future_time_hides_changes :
  let before := history no_times [(added "/d/a", 7, 0)] in
  dir_time before "/d" 1000 = 1000 /\ dir_time (record_ before (added "/d/b") 8 0) "/d" 1000 = 1000.
Proof. split; vm_compute; reflexivity. Qed.

End Changes.
