(* ===== verification/VfsTypes.v ===== *)
(** * The file system's data and its interface to the layers below
      ([internal/vfs/filesystem.go], [names.go], [staging/attributes.go])

    The entries the file system reports, its errors, and the operations it calls
    of the posix layer, as an interface with its laws: [VfsPosix] implements it
    with the definitions of [Namespace]. *)
From S2P Require Import Prelude StagingTypes CosClient Attributes MetadataCache GoPath Paths Namespace Disk Session.
Import Attributes.

Module VfsTypes.

(** ** Errors

    The path and operation of an [os.PathError], and the text of a wrapped error,
    are left out. *)
Inductive error :=
  | NotExist
  | Permission
  | Invalid
  | Closed
  | Unsupported
  | EOF
  | Busy
  | NotEmpty
  | NotDir
  | Conflicted
  | TooLarge
  | FlushFailed
  | FromPosix (e : goerr)
  | FromStaging (e : Disk.error).

(** [os.IsNotExist], which does not look inside an error wrapped with [%w]. *)
Definition posix_IsNotExist (e : goerr) : bool := match e with ErrNotExist => true | _ => false end.

Definition IsNotExist (e : error) : bool :=
  match e with
  | NotExist => true
  | FromPosix e => posix_IsNotExist e
  | FromStaging e => Disk.IsNotExist e
  | _ => false
  end.

(** ** Attributes of staged files *)

Definition wrap32 (x : Z) : Z := x mod 2 ^ 32.

Definition StagedAttributesFrom (a : POSIXAttributes) : StagedAttributes :=
  mkAttributes (Mode a) (wrap32 (UID a)) (wrap32 (GID a)) (Btime a) (WindowsAttributes a) (Streams_ a) (Atime a) (Mtime a).

Definition POSIX (a : StagedAttributes) : POSIXAttributes :=
  mkPOSIX (a_Mode a) (a_UID a) (a_GID a) (a_Atime a) (a_Mtime a) 0 (a_Btime a) (a_WindowsAttributes a) (a_Streams a).

(** ** Entries ([os.FileInfo]) *)

Record stagingFileInfo := mkStagedInfo { s_name : string; s_size : Z; s_modTime : Time; s_attrs : StagedAttributes }.
Record stagingDirInfo := mkStagedDir { sd_name : string; sd_modTime : Time; sd_mode : Z }.

(** [touchedDir] and [namedEntry] wrap another entry. *)
Inductive entry :=
  | PosixInfo (i : FileInfo)
  | StagedFile (s : stagingFileInfo)
  | StagedDir (s : stagingDirInfo)
  | touchedDir (e : entry) (t : Time)
  | namedEntry (e : entry) (n : string).

Fixpoint Name (e : entry) : string :=
  match e with
  | PosixInfo i => name i
  | StagedFile s => s_name s
  | StagedDir s => sd_name s
  | touchedDir e _ => Name e
  | namedEntry _ n => n
  end.

Fixpoint Size (e : entry) : Z :=
  match e with
  | PosixInfo i => size i
  | StagedFile s => s_size s
  | StagedDir _ => 0
  | touchedDir e _ | namedEntry e _ => Size e
  end.

Fixpoint Mode_ (e : entry) : Z :=
  match e with
  | PosixInfo i => mode i
  | StagedFile s => a_Mode (s_attrs s)
  | StagedDir s => sd_mode s
  | touchedDir e _ | namedEntry e _ => Mode_ e
  end.

Fixpoint ModTime (e : entry) : Time :=
  match e with
  | PosixInfo i => modTime i
  | StagedFile s => s_modTime s
  | StagedDir s => sd_modTime s
  | touchedDir _ t => t
  | namedEntry e _ => ModTime e
  end.

Fixpoint IsDir (e : entry) : bool :=
  match e with
  | PosixInfo i => isDir i
  | StagedFile _ => false
  | StagedDir _ => true
  | touchedDir e _ | namedEntry e _ => IsDir e
  end.

(** [stagedFileInfo]: a modification time a client set wins over the last write. *)
Definition stagedFileInfo (name : string) (w : Session.WriteSession) : stagingFileInfo :=
  let a := Session.w_attrs w in
  mkStagedInfo name (Session.w_Size w) (if negb (IsZero (a_Mtime a)) then a_Mtime a else Session.w_LastWrite w) a.

Section Attributes.
Context (startup : Time).

Definition with_times (a : POSIXAttributes) (mtime ctime btime : Time) : POSIXAttributes :=
  mkPOSIX (Mode a) (UID a) (GID a) (Atime a) mtime ctime btime (WindowsAttributes a) (Streams_ a).

(** [stagingFileInfo.Attributes]. *)
Definition staged_attributes (s : stagingFileInfo) : POSIXAttributes :=
  let a := POSIX (s_attrs s) in
  with_times a (s_modTime s) (Ctime a) (if IsZero (Btime a) then s_modTime s else Btime a).

(** [stagingDirInfo.Attributes]. *)
Definition staged_dir_attributes (s : stagingDirInfo) : POSIXAttributes :=
  let a := DefaultAttributes startup true in
  mkPOSIX (sd_mode s) (UID a) (GID a) (Atime a) (sd_modTime s) (Ctime a) (sd_modTime s) (WindowsAttributes a) (Streams_ a).

(** [FileAttributes]: every entry the file system makes has attributes. *)
Fixpoint FileAttributes (e : entry) : POSIXAttributes :=
  match e with
  | PosixInfo i => Namespace.InfoAttributes startup i
  | StagedFile s => staged_attributes s
  | StagedDir s => staged_dir_attributes s
  | touchedDir e t =>
      let a := FileAttributes e in with_times a t (if After t (Ctime a) then t else Ctime a) (Btime a)
  | namedEntry e _ => FileAttributes e
  end.

(** The owner NFS clients are shown. *)
Definition NFSOwner (e : entry) : Z * Z := Namespace.OwnerIDs (FileAttributes e).

End Attributes.

(** ** The posix layer

    [pending] is the check of accepted deletes the gateway installs.  A download
    gives the bytes copied and whether that was all of the object; [inr] is a
    stream that could not be opened. *)
Class PosixOps := {
  ops : Type;
  op_Stat (pending : string -> bool) (o : ops) (path : string) (now : Time) : ops * (FileInfo + goerr);
  op_ListDirectory (pending : string -> bool) (o : ops) (path : string) (now : Time) : ops * (list FileInfo + goerr);
  op_CachedChildNames (o : ops) (dir : string) (now : Time) : ops * option (list string);
  op_ChildNamesWithPrefix (pending : string -> bool) (o : ops) (dir prefix : string) (now : Time) : ops * (list string + goerr);
  op_WriteFile (o : ops) (path : string) (d : bytes) (a : option POSIXAttributes) : ops * option goerr;
  op_DeleteFile (o : ops) (path : string) : ops * option goerr;
  op_CreateDirectory (o : ops) (path : string) (a : option POSIXAttributes) : ops * option goerr;
  op_DeleteDirectory (pending : string -> bool) (o : ops) (path : string) (now : Time) : ops * option goerr;
  op_RenameFile (pending : string -> bool) (o : ops) (oldPath newPath : string) (now : Time) : ops * option goerr;
  op_CopyFile (pending : string -> bool) (o : ops) (src dst : string) (a : option POSIXAttributes) (now : Time) : ops * option goerr;
  op_UpdateAttributes (pending : string -> bool) (o : ops) (path : string) (u : AttributeUpdate) (now : Time) : ops * option goerr;
  op_InvalidateFileMutation (o : ops) (path : string) : ops;
  op_ReadFile (o : ops) (path : string) (offset length : Z) : ops * (bytes + goerr);
  op_Download (o : ops) (path : string) : ops * (bytes * bool + goerr);
  op_BucketFull (o : ops) : bool
}.

(** A path below the root, as [keyPath] gives it. *)
Definition file_path (path : string) : Prop := exists es, Forall is_name es /\ es <> [] /\ path = Paths.path_of es.

(** What the file system relies on: a state of the layer stays sound while it
    answers lookups, and after a delete that succeeded the path is no file.  It may
    still be a directory, when the bucket has objects below it. *)
Class PosixLaws `{PosixOps} := {
  sound : ops -> Prop;
  sound_Stat pend o path now : sound o -> sound (op_Stat pend o path now).1;
  sound_ListDirectory pend o path now : sound o -> sound (op_ListDirectory pend o path now).1;
  sound_CachedChildNames o dir now : sound o -> sound (op_CachedChildNames o dir now).1;
  sound_ChildNamesWithPrefix pend o dir prefix now : sound o -> sound (op_ChildNamesWithPrefix pend o dir prefix now).1;
  deleted_is_no_file o path o' pend now i : sound o -> file_path path ->
    op_DeleteFile o path = (o', None) -> (op_Stat pend o' path now).2 = inl i -> isDir i = true
}.

End VfsTypes.
