(* ===== verification/VfsPosix.v ===== *)
(** * The posix layer behind the file system ([internal/posix/operations.go])

    The operations handler of [Namespace] implements the interface the file system
    calls ([VfsTypes.PosixOps]) and keeps its laws.  Reads and downloads of an
    object's bytes ([RangeRead] and [CosClient] have them) and the answers of a
    store that can list children are parameters. *)
From S2P Require Import Prelude GoPath StagingTypes CosClient Bucket Attributes MetadataCache ListingFence Paths Namespace NamespaceLookup NamespaceSafety NamespaceRename VfsTypes.

Module VfsPosix.
Import MetadataCache ListingFence Namespace NamespaceLookup VfsTypes.

Section Handler.
Context `{BL : BucketLaws} {TT : TimeText} {DI : DataInvalidation}.
Context (startup : Time) (meta_order : gmap string string -> list (string * string))
  (key_order : list string -> list string) (maxEntries : Z) (maxConcurrentWrites : nat).
(** The orders in which the calls of a directory rename end. *)
Context (order1 order2 : nat -> nat).
Context (children : OperationsHandler -> string -> string -> option ((list ObjectMetadata * list string) + goerr))
  (read : OperationsHandler -> string -> Z -> Z -> OperationsHandler * (bytes + goerr))
  (download : OperationsHandler -> string -> OperationsHandler * (bytes * bool + goerr))
  (bucketFull : OperationsHandler -> bool).

Definition handler_ops : PosixOps := {|
  ops := OperationsHandler;
  op_Stat pend h path now := Stat startup meta_order pend maxEntries path now h;
  op_ListDirectory pend h path now := ListDirectory startup meta_order pend maxEntries path now h;
  op_CachedChildNames h dir now := CachedChildNames dir now h;
  op_ChildNamesWithPrefix pend h dir prefix now := ChildNamesWithPrefix pend maxEntries dir prefix now (children h dir prefix) h;
  op_WriteFile h path d a := WriteFile startup path d a h;
  op_DeleteFile h path := DeleteFile path h;
  op_CreateDirectory h path a := CreateDirectory startup key_order path a h;
  op_DeleteDirectory pend h path now := DeleteDirectory startup meta_order key_order pend maxEntries path now h;
  op_RenameFile pend h oldPath newPath now := NamespaceRename.RenameFile startup meta_order key_order pend maxEntries maxConcurrentWrites oldPath newPath now order1 order2 h;
  op_CopyFile pend h src dst a now := CopyFile startup meta_order pend maxEntries src dst a now h;
  op_UpdateAttributes pend h path u now := UpdateAttributes startup meta_order pend maxEntries path u now h;
  op_InvalidateFileMutation h path := invalidateFileMutation path h;
  op_ReadFile := read;
  op_Download := download;
  op_BucketFull := bucketFull
|}.

(** ** The metadata cache stays well-formed *)

Lemma Stat_wf pend path now h : wf (mcache h) -> wf (mcache (Stat startup meta_order pend maxEntries path now h).1).
Proof.
  intros W. unfold Stat. destruct (MetadataCache.Get (mcache h) path now) as [c cached] eqn:Eg.
  apply Get_holds in Eg as (W1 & _); [|done]. destruct (stat_cached _ _ _ _) as [r|]; [done|].
  case_bool_decide; [by apply store_holds|]. destruct (begin _ _) as [f g]. destruct (probe _ _ _ _ _ _) as [b v].
  unfold stat_end. destruct (end_ _ _ _) as [f' current].
  destruct v; simpl; [destruct current; [by apply store_holds|done]..|done].
Qed.

Lemma refresh_wf parent now entries : forall c, wf c -> wf (refreshCachedEntries parent now c entries).1.
Proof.
  induction entries as [|i entries IH]; intros c W; [done|]. simpl. unfold refresh_entry.
  destruct (MetadataCache.Get c _ now) as [c1 r] eqn:Eg. apply Get_holds in Eg as (W1 & _); [|done].
  specialize (IH c1 W1). by destruct (refreshCachedEntries parent now c1 entries).
Qed.

Lemma entries_wf pend path prefix now objs : forall c seen hid es,
  wf c -> wf (entries_loop startup meta_order pend path prefix now c seen hid es objs).1.1.
Proof.
  induction objs as [|o objs IH]; intros c seen hid es W; [done|]. simpl.
  destruct (isPendingDelete _ _); [by apply IH|]. destruct (child_of _ _) as [[child d]|]; [|by apply IH].
  case_bool_decide; [by apply IH|]. unfold cachedEntry. destruct (MetadataCache.Get c _ now) as [c1 r] eqn:Eg.
  apply Get_holds in Eg as (W1 & _); [|done]. destruct (default _ _) as [a t]. by apply IH.
Qed.

Lemma list_wf pend path now h : wf (mcache h) -> wf (mcache (ListDirectory startup meta_order pend maxEntries path now h).1).
Proof.
  intros W. unfold ListDirectory. destruct (MetadataCache.Get (mcache h) path now) as [c cached] eqn:Eg.
  apply Get_holds in Eg as (W1 & _); [|done]. simpl.
  assert (forall h, wf (mcache h) -> wf (mcache (list_fetch startup meta_order pend maxEntries path now h).1)) as Hf.
  { intros h1 Wh. unfold list_fetch. destruct (begin _ _) as [f g]. destruct (ListObjects _ _ _) as [b [objs|e]]; [|done].
    unfold list_end. simpl. pose proof (entries_wf pend path (Paths.ListPrefix path) now objs (mcache h1) [] false [] Wh) as We.
    destruct (entries_loop _ _ _ _ _ _ _ _ _ _ _) as [[c1 es] hid]. destruct (end_ _ _ _) as [f' current].
    destruct (maxEntries <? _); [done|]. destruct (negb current || hid); [done|]. by apply SetDirEntries_holds. }
  destruct (cached ≫= e_ChildEntries) as [entries|].
  - destruct (maxEntries <? _); [done|]. pose proof (refresh_wf (Paths.NormalizePath path) now entries c W1) as Wr.
    by destruct (refreshCachedEntries _ _ _ _).
  - destruct (MetadataCache.Get c path now) as [c2 again] eqn:Eg2. apply Get_holds in Eg2 as (W2 & _); [|done].
    destruct (again ≫= e_Children); apply Hf; [|done]. by apply InvalidatePath_holds.
Qed.

Lemma cached_wf dir now h : wf (mcache h) -> wf (mcache (CachedChildNames dir now h).1).
Proof.
  intros W. unfold CachedChildNames. destruct (MetadataCache.Get _ _ _) as [c r] eqn:Eg.
  by apply Get_holds in Eg as (? & _).
Qed.

Lemma prefix_wf pend dir prefix now ch h :
  wf (mcache h) -> wf (mcache (ChildNamesWithPrefix pend maxEntries dir prefix now ch h).1).
Proof.
  intros W. unfold ChildNamesWithPrefix. destruct (MetadataCache.Get _ _ _) as [c r] eqn:Eg.
  apply Get_holds in Eg as (W1 & _); [|done]. destruct (r ≫= e_ChildEntries); [done|].
  destruct ch as [[[objs ps]|e]|]; [done|done|]. by destruct (ListObjects _ _ _) as [b [objs|e]].
Qed.

(** ** A deleted file *)

(** What a change of a file drops from the cache: the file and its directory. *)
Lemma file_mutation_drops path h : NamespaceSafety.clean path -> wf (mcache h) ->
  let h' := invalidateFileMutation path h in
  wf (mcache h') /\ forall p e, holds (mcache h') p e -> p <> path /\ p <> Paths.GetParentPath path.
Proof.
  intros Hc W. unfold invalidateFileMutation, invalidateObjectPath, invalidateAncestorListings, invalidateDataPath. simpl.
  destruct (Delete_holds (mcache h) path W) as [W1 H1].
  destruct (Delete_holds (MetadataCache.Delete (mcache h) path) (Paths.GetParentPath path) W1) as [W2 H2].
  set (hi := set_listings _ _). assert (wf (mcache hi)) as W3 by exact W2.
  assert (forall p e, holds (mcache hi) p e -> p <> path /\ p <> Paths.GetParentPath path) as H3.
  { intros p e Hp. destruct (H2 p e Hp) as [? Hp']. destruct (H1 p e Hp') as [? _]. done. }
  destruct (_ || _); [by split|].
  destruct (ancestors_loop_spec (String.length (Paths.GetParentPath path)) (Paths.GetParentPath (Paths.GetParentPath path)) hi W3)
    as (_ & _ & W4 & H4). split; [exact W4|]. intros p e Hp. by apply (H3 p e), H4.
Qed.

Lemma deleted_no_file pend path now h h' i :
  wf (mcache h) -> NamespaceSafety.clean path -> DeleteFile path h = (h', None) ->
  (Stat startup meta_order pend maxEntries path now h').2 = inl i -> isDir i = true.
Proof.
  intros W Hc Hd. unfold DeleteFile in Hd. destruct (DeleteObject (cos h) _) as [b [e|]] eqn:Ed; [done|]. injection Hd as <-.
  assert (objects b !! object_key path = None) as Hgone.
  { apply delete_effect in Ed as [->|[[] _]]; [apply lookup_delete_eq|done]. }
  destruct (file_mutation_drops path (set_cos b h) Hc W) as [W1 H1].
  assert (cos (invalidateFileMutation path (set_cos b h)) = b) as Hcos.
  { by destruct (NamespaceSafety.file_mutation_invalidates path (set_cos b h) Hc W) as [Hcos _ _ _]. }
  set (hd := invalidateFileMutation path (set_cos b h)) in *. unfold Stat.
  destruct (MetadataCache.Get (mcache hd) path now) as [c cached] eqn:Eg.
  apply Get_holds in Eg as (W2 & H2 & H3); [|done].
  destruct cached as [x|]; [by destruct (H1 path x (H3 x eq_refl))|]. cbn [stat_cached].
  pose proof (NamespaceSafety.clean_normal path Hc) as Hn. rewrite Hn.
  case_bool_decide as Hroot; [intros [= <-]; done|]. destruct (begin _ _) as [f g]. cbn [cos set_lookups set_mcache]. rewrite Hcos.
  unfold probe. destruct (HeadObject b (object_key path)) as [b1 file] eqn:E1.
  destruct file as [m|e1]; [apply head_found in E1 as (o & Ho & _); congruence|].
  destruct (HeadObject b1 _) as [b2 dir]. unfold stat_end.
  destruct dir as [m|e2].
  - destruct (end_ _ _ _) as [f' current]. simpl. by intros [= <-].
  - destruct (probe_children _ _ _ b2) as [b3 ch]. destruct (end_ _ _ _) as [f' current]. simpl.
    unfold conclude. destruct ch as [[|m l]|e3].
    all: try (simpl; by intros [= <-]).
    all: match goal with |- context [match ?x with None => _ | Some _ => _ end] => destruct x as [e|] end; simpl; try done.
    all: unfold stat_stale; simpl; rewrite Hn.
    all: destruct (GetStale c path) as [x|] eqn:Es1; [by destruct (H1 path x (H2 _ _ (GetStale_holds _ _ _ W2 Es1)))|].
    all: destruct (GetStale c (Paths.GetParentPath path)) as [x|] eqn:Es2;
      [by destruct (H1 _ x (H2 _ _ (GetStale_holds _ _ _ W2 Es2)))|done].
Qed.

#[global] Instance handler_laws : @PosixLaws handler_ops.
Proof.
  refine (@Build_PosixLaws handler_ops (fun h : OperationsHandler => wf (mcache h)) _ _ _ _ _); simpl.
  - intros. by apply Stat_wf.
  - intros. by apply list_wf.
  - intros. by apply cached_wf.
  - intros. by apply prefix_wf.
  - intros o path o' pend now i. apply deleted_no_file.
Defined.

End Handler.
End VfsPosix.
