(* ===== verification/Vfs.v ===== *)
(** * The file system ([internal/vfs/filesystem.go], [names.go], [changes.go])

    Operations on paths: the posix layer, the staging area and the change feed
    composed as the code composes them.  [VfsFile] has open files.  A view's root,
    naming and protocol are parameters, as is whether staging is enabled.  An
    operation reads the clock once, [now]; logging, metrics and traces are left
    out, and so is the path in an error. *)
From S2P Require Import Prelude GoPath StagingTypes Disk DirtyIndex PathState Session StagingManager StagingPressure StagingRename CosClient Attributes MetadataCache Paths Runes WindowsNames FoldNames WriteBuffer BufferSessions Changes VfsTypes.
Import Runes Changes VfsTypes.

Module Vfs.

(** A view of the file system, and what its operations find around it: the
    start time [posix.DefaultAttributes] uses, the space [statfs] says is free,
    and the order Go's runtime walks a buffer's segments in. *)
Class View := mkView {
  root : string;
  windowsNames : bool;
  protocol : string;
  stagingEnabled : bool;
  WriteBufferKB : Z;
  MaxBufferedWriteMB : Z;
  startup : Time;
  diskAvailable : option Z;
  walk : gmap Z bytes -> list (Z * bytes)
}.

(** [ForProtocol] and [WithWindowsNames]. *)
Definition ForProtocol (v : View) (p : string) : View :=
  mkView (@root v) (@windowsNames v) p (@stagingEnabled v) (@WriteBufferKB v) (@MaxBufferedWriteMB v)
    (@startup v) (@diskAvailable v) (@walk v).
Definition WithWindowsNames (v : View) : View :=
  mkView (@root v) true (@protocol v) (@stagingEnabled v) (@WriteBufferKB v) (@MaxBufferedWriteMB v)
    (@startup v) (@diskAvailable v) (@walk v).

Section Vfs.
Context `{PathHash} {PO : PosixOps} {CF : FoldNames.CaseFolding} {V : View}.

(** What the views share; [told] is what subscribers were told, latest first. *)
Record Filesystem := mkFS {
  posix : ops;
  staging : Staging.Manager;
  buffers : BufferSessions.SessionManager;
  feed : changeFeed;
  told : list (Z * Change)
}.

Definition set_posix (o : ops) (fs : Filesystem) : Filesystem :=
  mkFS o (staging fs) (buffers fs) (feed fs) (told fs).
Definition set_staging (m : Staging.Manager) (fs : Filesystem) : Filesystem :=
  mkFS (posix fs) m (buffers fs) (feed fs) (told fs).
Definition set_buffers (b : BufferSessions.SessionManager) (fs : Filesystem) : Filesystem :=
  mkFS (posix fs) (staging fs) b (feed fs) (told fs).

(** [NewFilesystem]; sessions of the buffered path are kept for five minutes. *)
Definition NewFilesystem (o : ops) (m : Staging.Manager) : Filesystem :=
  mkFS o m (BufferSessions.NewSessionManager (WriteBufferKB * 1024) (5 * Minute)) new_feed [].

(** A call of the staging manager. *)
Definition staged_call {A} (f : Staging.Manager -> Staging.Manager * A) (fs : Filesystem) : Filesystem * A :=
  let '(m, r) := f (staging fs) in (set_staging m fs, r).
Definition staged_do (f : Staging.Manager -> Staging.Manager) (fs : Filesystem) : Filesystem :=
  set_staging (f (staging fs)) fs.

(** A call of the posix layer. *)
Definition posix_call {A} (f : ops -> ops * A) (fs : Filesystem) : Filesystem * A :=
  let '(o, r) := f (posix fs) in (set_posix o fs, r).
Definition posix_failed (r : option goerr) : option error := FromPosix <$> r.

(** The sessions' own methods, on the staging directory. *)
Definition on_session (a : positive) (f : Disk.Disk -> Session.WriteSession -> Disk.Disk * Session.WriteSession)
    (fs : Filesystem) : Filesystem :=
  match Staging.deref (staging fs) a with
  | None => fs
  | Some w => let '(d, w) := f (Staging.disk (staging fs)) w in set_staging (Staging.put a w (Staging.set_disk d (staging fs))) fs
  end.

Definition pending (fs : Filesystem) (path : string) : bool :=
  stagingEnabled && Staging.HasPendingDelete (staging fs) path.

Definition Join (elems : list string) : string := path_Join elems.

(** [changed]: published under the view's protocol. *)
Definition changed (action : ChangeAction) (path oldPath : string) (isDir : bool) (kind : Z) (now : Time) (fs : Filesystem)
    : Filesystem :=
  let '(f, out) := publish (feed fs) (mkChange action path oldPath isDir kind protocol) now now in
  mkFS (posix fs) (staging fs) (buffers fs) f (rev out ++ told fs).

(** ** Lookups *)

(** The sessions of files directly in [dir]. *)
Definition sessions_in (fs : Filesystem) (dir : string) : list Session.WriteSession :=
  omap (Staging.deref (staging fs)) (Staging.GetSessionsInDirectory (staging fs) dir).

Definition hasLiveSessionIn (fs : Filesystem) (dir : string) : bool :=
  existsb (fun w => negb (Staging.HasPendingDelete (staging fs) (Session.w_Path w))) (sessions_in fs dir).

Definition session_at (fs : Filesystem) (path : string) : option Session.WriteSession :=
  Staging.GetSession (staging fs) path ≫= Staging.deref (staging fs).

Definition statFromStaging (fullPath : string) (fs : Filesystem) : option entry :=
  if negb stagingEnabled then None
  else
    match session_at fs fullPath with
    | Some w => Some (StagedFile (stagedFileInfo (path_Base fullPath) w))
    | None =>
        if hasLiveSessionIn fs fullPath || (0 <? len (Pressure.DirtyPathsUnder (staging fs) fullPath)) then
          let a := Attributes.DefaultAttributes startup true in
          Some (StagedDir (mkStagedDir (path_Base fullPath) (Attributes.Mtime a) (Z.lor (Attributes.Mode a) Attributes.ModeDir)))
        else None
    end.

(** A session that stands for the file, whatever the bucket has. *)
Definition speaks (w : Session.WriteSession) : bool :=
  Session.w_Dirty w || (Session.w_Size w =? 0) || Session.w_Prefetched w.

Definition statPath (fullPath : string) (now : Time) (fs : Filesystem) : Filesystem * (entry + error) :=
  if isReservedPath fullPath then (fs, inr NotExist)
  else if pending fs fullPath then (fs, inr NotExist)
  else
    let intercepted := if stagingEnabled then w ← session_at fs fullPath; if speaks w then Some w else None else None in
    match intercepted with
    | Some w => (fs, inl (StagedFile (stagedFileInfo (path_Base fullPath) w)))
    | None =>
        let '(o, r) := op_Stat (pending fs) (posix fs) fullPath now in
        let fs := set_posix o fs in
        match r with
        | inl info => (fs, inl (PosixInfo info))
        | inr e =>
            if posix_IsNotExist e then (fs, inr (FromPosix e))
            else (fs, match statFromStaging fullPath fs with Some i => inl i | None => inr (FromPosix e) end)
        end
    end.

(** ** Names *)

(** The first name of a relative path, when more follow it. *)
Definition first_name (rest : string) : option string :=
  match SplitSlash rest with
  | n :: _ :: _ => if bool_decide (n = "") then None else Some n
  | _ => None
  end.

Definition stagedChildNames (dir : string) (fs : Filesystem) : list string :=
  if negb stagingEnabled then []
  else
    let m := staging fs in
    let prefix := TrimSuffix dir "/" +:+ "/" in
    (path_Base ∘ Session.w_Path <$> filter (fun w => Staging.HasPendingDelete m (Session.w_Path w) = false) (sessions_in fs dir)) ++
    omap (fun dirty =>
      let rest := TrimPrefix dirty prefix in
      if bool_decide (rest = dirty) then None else first_name rest) (Pressure.DirtyPathsUnder m dir).

Definition childNames (dir : string) (now : Time) (fs : Filesystem) : Filesystem * list string :=
  let '(o, r) := op_ListDirectory (pending fs) (posix fs) dir now in
  let fs := set_posix o fs in
  (fs, match r with inl entries => name <$> entries | inr _ => [] end ++ stagedChildNames dir fs).

(** The listings run at once and end in any order, which does not matter to the
    search ([FoldNames.fold_search_complete]); here they run one after the other. *)
Fixpoint prefix_listings (dir : string) (prefixes : list string) (now : Time) (fs : Filesystem) : Filesystem * list string :=
  match prefixes with
  | [] => (fs, [])
  | prefix :: prefixes =>
      let '(o, r) := op_ChildNamesWithPrefix (pending fs) (posix fs) dir prefix now in
      let found := match r with inl names => names | inr _ => [] end in
      let '(fs, more) := prefix_listings dir prefixes now (set_posix o fs) in
      (fs, found ++ more)
  end.

Definition foldCandidates (dir key : string) (now : Time) (fs : Filesystem) : Filesystem * list string :=
  if negb (ValidString key) then childNames dir now fs
  else
    let '(fs, names) := prefix_listings dir (FoldNames.foldPrefixes key FoldNames.maxFoldPrefixes) now fs in
    (fs, names ++ stagedChildNames dir fs).

Definition matchChild (dir key : string) (now : Time) (fs : Filesystem) : Filesystem * string :=
  let '(o, cached) := op_CachedChildNames (posix fs) dir now in
  let fs := set_posix o fs in
  match cached with
  | Some names => (fs, FoldNames.match_loop (names ++ stagedChildNames dir fs) key "")
  | None =>
      match statPath (Join [dir; key]) now fs with
      | (fs, inl _) => (fs, key)
      | (fs, inr _) => let '(fs, names) := foldCandidates dir key now fs in (fs, FoldNames.match_loop names key "")
      end
  end.

Fixpoint resolve (current : string) (components : list string) (now : Time) (fs : Filesystem) : Filesystem * string :=
  match components with
  | [] => (fs, current)
  | c :: rest =>
      if bool_decide (c = "") then resolve current rest now fs
      else
        let '(fs, child) := matchChild current (WindowsNames.keyName c) now fs in
        resolve (Join [current; child]) rest now fs
  end.

Definition keyPath (name : string) (now : Time) (fs : Filesystem) : Filesystem * string :=
  if negb windowsNames then (fs, Join [root; name])
  else resolve (Join [root]) (SplitSlash (Clean ("/" +:+ name))) now fs.

Definition renameTargetPath (oldFull newpath : string) (now : Time) (fs : Filesystem) : Filesystem * string :=
  let '(fs, target) := keyPath newpath now fs in
  (fs, if negb windowsNames || negb (bool_decide (target = oldFull)) then target
       else Join [path_Dir target; WindowsNames.keyName (path_Base (Clean ("/" +:+ newpath)))]).

Definition presentEntry (e : entry) : entry :=
  if negb windowsNames then e
  else
    let n := WindowsNames.windowsName (Name e) in
    if bool_decide (n = Name e) then e else namedEntry e n.

Definition presentEntries (es : list entry) : list entry := if negb windowsNames then es else presentEntry <$> es.

Definition withDirTime (fullPath : string) (e : entry) (fs : Filesystem) : entry :=
  if negb (VfsTypes.IsDir e) then e
  else
    match modTime_ (times (feed fs)) (cleanKey fullPath) with
    | Some t => if After t (ModTime e) then touchedDir e t else e
    | None => e
    end.

Definition Stat (filename : string) (now : Time) (fs : Filesystem) : Filesystem * (entry + error) :=
  let '(fs, fullPath) := keyPath filename now fs in
  match statPath fullPath now fs with
  | (fs, inr e) => (fs, inr e)
  | (fs, inl i) => (fs, inl (presentEntry (withDirTime fullPath i fs)))
  end.

Definition isDirPath (fullPath : string) (now : Time) (fs : Filesystem) : Filesystem * bool :=
  match statPath fullPath now fs with (fs, inl i) => (fs, VfsTypes.IsDir i) | (fs, inr _) => (fs, false) end.

Definition existsPath (fullPath : string) (now : Time) (fs : Filesystem) : Filesystem * bool :=
  match statPath fullPath now fs with (fs, inl _) => (fs, true) | (fs, inr _) => (fs, false) end.

(** A question asked only when something is subscribed. *)
Definition if_active (ask : Filesystem -> Filesystem * bool) (fs : Filesystem) : Filesystem * bool :=
  if active (feed fs) then ask fs else (fs, false).

End Vfs.
End Vfs.
