(* ===== verification/VfsOps.v ===== *)
(** * Operations on names ([internal/vfs/filesystem.go], [changes.go])

    Copy, rename, remove, list, make a directory and set attributes, each with
    the change it publishes.  [Vfs] has the lookups they start with. *)
From S2P Require Import Prelude GoPath StagingTypes Disk DirtyIndex PathState Session StagingManager StagingPressure StagingRename CosClient Attributes MetadataCache Paths WriteBuffer BufferSessions FoldNames Changes VfsTypes Vfs.
Import Changes VfsTypes Vfs.

Module VfsOps.

Section VfsOps.
Context `{PathHash} {PO : PosixOps} {CF : FoldNames.CaseFolding} {V : View}.

Definition IsDirty (fs : Filesystem) (path : string) : bool := DirtyIndex.IsDirty (Staging.index (staging fs)) path.
Definition IsConflicted (fs : Filesystem) (path : string) : bool := DirtyIndex.IsConflicted (Staging.index (staging fs)) path.
Definition HasPendingDelete (fs : Filesystem) (path : string) : bool := Staging.HasPendingDelete (staging fs) path.
Definition has_session (fs : Filesystem) (path : string) : bool := bool_decide (is_Some (Staging.GetSession (staging fs) path)).

Definition TryLockSync (path : string) : Filesystem -> Filesystem * bool := staged_call (fun m => Staging.TryLockSync m path).
Definition UnlockSync (path : string) : Filesystem -> Filesystem := staged_do (fun m => Staging.UnlockSync m path).
Definition InvalidateFileMutation (path : string) (fs : Filesystem) : Filesystem :=
  set_posix (op_InvalidateFileMutation (posix fs) path) fs.
Definition DeleteFile (path : string) : Filesystem -> Filesystem * option goerr := posix_call (fun o => op_DeleteFile o path).
Definition WriteFile (path : string) (d : bytes) (a : option Attributes.POSIXAttributes)
    : Filesystem -> Filesystem * option goerr := posix_call (fun o => op_WriteFile o path d a).
Definition RenameFile (oldPath newPath : string) (now : Time) (fs : Filesystem) : Filesystem * option goerr :=
  posix_call (fun o => op_RenameFile (pending fs) o oldPath newPath now) fs.

(** The attributes the code gives an object it writes itself. *)
Definition plain_attributes (mode : Z) (now : Time) : Attributes.POSIXAttributes :=
  Attributes.mkPOSIX mode 1000 1000 0 now 0 0 0 ∅.

(** ** Space, and stable storage *)

Record Capacity := mkCapacity { TotalBytes : Z; AvailableBytes : Z; TotalFiles : Z; AvailableFiles : Z }.

Definition capacity (fs : Filesystem) : Capacity :=
  let pressure := Pressure.CurrentPressure (staging fs) diskAvailable in
  if op_BucketFull (posix fs) then
    mkCapacity (if stagingEnabled && (0 <? Pressure.QuotaBytes pressure) then Pressure.QuotaBytes pressure else 2 ^ 50) 0 (2 ^ 32) (2 ^ 32)
  else if negb stagingEnabled || (Pressure.QuotaBytes pressure =? 0) then
    mkCapacity (2 ^ 50) (2 ^ 50) (2 ^ 32) (2 ^ 32)
  else
    let available := Pressure.AvailableBytes pressure in
    let available :=
      if 0 <? Pressure.HighWatermarkBytes pressure then
        let safe := wrap64 (Pressure.HighWatermarkBytes pressure - Pressure.UsedBytes pressure) in
        let safe := if safe <? 0 then 0 else safe in
        if safe <? available then safe else available
      else available in
    mkCapacity (Pressure.QuotaBytes pressure mod 2 ^ 64) (if 0 <? available then available else 0) (2 ^ 32) (2 ^ 32).

Definition Commit (filename : string) (now : Time) (fs : Filesystem) : Filesystem * option error :=
  if negb stagingEnabled then (fs, None)
  else
    let '(fs, path) := keyPath filename now fs in
    let '(fs, err) := staged_call (fun m => Staging.CommitPath m path now) fs in
    (fs, FromStaging <$> err).

(** ** Copy *)

(** The copy in the bucket; a destination that was discarded for it comes back
    when it fails. *)
Definition copy_in_bucket (srcFull dstFull : string) (discarded : option Staging.DiscardedSession) (now : Time)
    (fs : Filesystem) : Filesystem * option error :=
  let attrs := (fun ds => POSIX (Staging.ds_Attributes ds)) <$> discarded in
  match posix_call (fun o => op_CopyFile (pending fs) o srcFull dstFull attrs now) fs with
  | (fs, None) => (fs, None)
  | (fs, Some e) =>
      (match discarded with
       | Some ds => staged_do (fun m => (Staging.RestoreUnwrittenSession m dstFull ds now).1) fs
       | None => fs
       end, Some (FromPosix e))
  end.

Definition copyFile (src dst : string) (onlyUnwritten : bool) (now : Time) (fs : Filesystem) : Filesystem * option error :=
  let '(fs, srcFull) := keyPath src now fs in
  let '(fs, dstFull) := keyPath dst now fs in
  if isReservedPath srcFull || isReservedPath dstFull then (fs, Some Permission)
  else if bool_decide (srcFull = dstFull) then (fs, None)
  else if negb stagingEnabled then
    if onlyUnwritten then (fs, Some Unsupported) else copy_in_bucket srcFull dstFull None now fs
  else if IsDirty fs srcFull || HasPendingDelete fs srcFull || IsConflicted fs srcFull then (fs, Some Unsupported)
  else if HasPendingDelete fs dstFull || IsConflicted fs dstFull then (fs, Some Unsupported)
  else if onlyUnwritten && negb (has_session fs dstFull) then (fs, Some Unsupported)
  else if has_session fs dstFull || IsDirty fs dstFull then
    match TryLockSync dstFull fs with
    | (fs, false) => (fs, Some Unsupported)
    | (fs, true) =>
        let '(m, discarded, ok) := Staging.DiscardUnwrittenSession (staging fs) dstFull in
        let fs := set_staging m fs in
        let '(fs, err) :=
          if negb ok || (onlyUnwritten && bool_decide (discarded = None)) then (fs, Some Unsupported)
          else copy_in_bucket srcFull dstFull discarded now fs in
        (UnlockSync dstFull fs, err)
    end
  else copy_in_bucket srcFull dstFull None now fs.

Definition CopyFile (src dst : string) (onlyUnwritten : bool) (now : Time) (fs : Filesystem) : Filesystem * option error :=
  let '(fs, dstFull) := keyPath dst now fs in
  let '(fs, existed) := if_active (existsPath dstFull now) fs in
  match copyFile src dst onlyUnwritten now fs with
  | (fs, Some e) => (fs, Some e)
  | (fs, None) =>
      (if existed then changed ChangeModified dstFull "" false ChangeData now fs
       else changed ChangeAdded dstFull "" false 0 now fs, None)
  end.

Definition IsStaged (name : string) (now : Time) (fs : Filesystem) : Filesystem * bool :=
  if negb stagingEnabled then (fs, false)
  else
    let '(fs, full) := keyPath name now fs in
    (fs, has_session fs full || IsDirty fs full || HasPendingDelete fs full || IsConflicted fs full).

(** ** Staged files below a directory *)

Definition conflictedPathUnder (path : string) (fs : Filesystem) : option string :=
  let prefix := TrimSuffix path "/" +:+ "/" in
  head (filter (fun p => HasPrefix p prefix = true) (c_Path <$> DirtyIndex.GetConflicts (Staging.index (staging fs)))).

Definition dirtyStagedChildren (path : string) (fs : Filesystem) : list string :=
  if negb stagingEnabled then []
  else filter (fun p => p <> path) (Pressure.DirtyPathsUnder (staging fs) path).

Definition ensureNoDirtyStagedChildren (path : string) (fs : Filesystem) : option error :=
  if bool_decide (dirtyStagedChildren path fs = []) then None else Some Busy.

Definition ensureNoDirtyStagedChildrenForRmdir (path : string) (fs : Filesystem) : option error :=
  if negb stagingEnabled || bool_decide (Pressure.DirtyPathsUnder (staging fs) path = []) then None else Some NotEmpty.

(** A failure to clean up is only logged. *)
Definition cleanupCleanStagingSessionAfterDelete (path : string) (fs : Filesystem) : Filesystem :=
  if negb stagingEnabled || negb (bool_decide (Pressure.DirtyPathsUnder (staging fs) path = []))
     || negb (has_session fs path)
  then fs
  else staged_do (fun m => (Staging.CleanupSession m path true).1) fs.

(** ** Rename *)

Definition discardStagedDestination (path : string) (fs : Filesystem) : Filesystem * option error :=
  let cancelled := staged_do (fun m => (Staging.CancelPendingDelete m path).1) in
  if IsDirty fs path then
    match TryLockSync path fs with
    | (fs, false) => (fs, Some Busy)
    | (fs, true) =>
        let fs := staged_do (fun m => (Staging.CleanupSession (Staging.ForgetDirty m path) path true).1) fs in
        (cancelled (UnlockSync path fs), None)
    end
  else (cancelled fs, None).

Definition renameDirtyStagedFile (oldFull newFull : string) (now : Time) (fs : Filesystem) : Filesystem * option error :=
  match staged_call (fun m => Rename.RenameStagedPath m oldFull newFull now) fs with
  | (fs, Some e) =>
      if Disk.IsNotExist e then
        match discardStagedDestination newFull fs with
        | (fs, Some e) => (fs, Some e)
        | (fs, None) => let '(fs, err) := RenameFile oldFull newFull now fs in (fs, posix_failed err)
        end
      else (fs, Some (FromStaging e))
  | (fs, None) =>
      let fs :=
        match TryLockSync oldFull fs with
        | (fs, true) =>
            let fs := match DeleteFile oldFull fs with
                      | (fs, Some _) => InvalidateFileMutation oldFull fs
                      | (fs, None) => staged_do (fun m => Staging.ResolvePendingDelete m oldFull) fs
                      end in
            UnlockSync oldFull fs
        | (fs, false) => InvalidateFileMutation oldFull fs
        end in
      (InvalidateFileMutation newFull fs, None)
  end.

(** A staged file's name below the new name of its directory. *)
Definition target (oldFull newFull child : string) : string := newFull +:+ TrimPrefix child oldFull.

(** The staged files move one by one; [moved] and [claimed] are latest first.  An
    error stops the loop. *)
Fixpoint move_children (oldFull newFull : string) (children moved claimed : list string) (now : Time) (fs : Filesystem)
    : Filesystem * list string * list string * option Disk.error :=
  match children with
  | [] => (fs, moved, claimed, None)
  | child :: children =>
      let to := target oldFull newFull child in
      let '(fs, holdsClaim) := TryLockSync to fs in
      match staged_call (fun m => Rename.RenameStagedPath m child to now) fs with
      | (fs, Some e) =>
          let fs := if holdsClaim then UnlockSync to fs else fs in
          if Disk.IsNotExist e then move_children oldFull newFull children moved claimed now fs
          else (fs, moved, claimed, Some e)
      | (fs, None) =>
          move_children oldFull newFull children (child :: moved) (if holdsClaim then to :: claimed else claimed) now
            (InvalidateFileMutation to (InvalidateFileMutation child fs))
      end
  end.

Definition release (claimed : list string) (fs : Filesystem) : Filesystem := foldr UnlockSync fs claimed.

(** [undo]: a file that cannot be moved back stays under its new name. *)
Definition undo (oldFull newFull : string) (moved claimed : list string) (now : Time) (fs : Filesystem) : Filesystem :=
  release claimed
    (foldl (fun fs child =>
       match staged_call (fun m => Rename.RenameStagedPath m (target oldFull newFull child) child now) fs with
       | (fs, Some _) => fs
       | (fs, None) => InvalidateFileMutation (target oldFull newFull child) (InvalidateFileMutation child fs)
       end) fs moved).

Definition renameDirectoryWithStagedFiles (oldFull newFull : string) (children : list string) (now : Time)
    (fs : Filesystem) : Filesystem * option error :=
  if IsDirty fs newFull then (fs, Some NotDir)
  else
    match posix_call (fun o => op_Stat (pending fs) o newFull now) fs with
    | (fs, inl _) => let '(fs, err) := RenameFile oldFull newFull now fs in (fs, posix_failed err)
    | (fs, inr e) =>
        if negb (posix_IsNotExist e) then (fs, Some (FromPosix e))
        else
          match move_children oldFull newFull (Pressure.sort_strings children) [] [] now fs with
          | (fs, moved, claimed, Some e) => (undo oldFull newFull moved claimed now fs, Some (FromStaging e))
          | (fs, moved, claimed, None) =>
              match RenameFile oldFull newFull now fs with
              | (fs, None) => (release claimed fs, None)
              | (fs, Some e) =>
                  if posix_IsNotExist e && (0 <? len moved)
                  then let '(fs, _) := posix_call (fun o => op_CreateDirectory o newFull None) fs in (release claimed fs, None)
                  else (undo oldFull newFull moved claimed now fs, Some (FromPosix e))
              end
          end
    end.

Definition rename (oldpath newpath : string) (now : Time) (fs : Filesystem) : Filesystem * option error :=
  let '(fs, oldFull) := keyPath oldpath now fs in
  let '(fs, newFull) := renameTargetPath oldFull newpath now fs in
  let in_bucket fs := let '(fs, err) := RenameFile oldFull newFull now fs in (fs, posix_failed err) in
  if isReservedPath oldFull || isReservedPath newFull then (fs, Some Permission)
  else if negb stagingEnabled then in_bucket fs
  else if IsConflicted fs oldFull || IsConflicted fs newFull then (fs, Some Conflicted)
  else if bool_decide (is_Some (conflictedPathUnder oldFull fs)) then (fs, Some Conflicted)
  else
    match ensureNoDirtyStagedChildren newFull fs with
    | Some e => (fs, Some e)
    | None =>
        match dirtyStagedChildren oldFull fs with
        | (_ :: _) as children => renameDirectoryWithStagedFiles oldFull newFull children now fs
        | [] =>
            if HasPendingDelete fs oldFull then (fs, Some NotExist)
            else if IsDirty fs oldFull then renameDirtyStagedFile oldFull newFull now fs
            else
              match discardStagedDestination newFull fs with
              | (fs, Some e) => (fs, Some e)
              | (fs, None) => in_bucket fs
              end
        end
    end.

Definition Rename (oldpath newpath : string) (now : Time) (fs : Filesystem) : Filesystem * option error :=
  let '(fs, oldFull) := keyPath oldpath now fs in
  match rename oldpath newpath now fs with
  | (fs, Some e) => (fs, Some e)
  | (fs, None) =>
      let '(fs, newFull) := keyPath newpath now fs in
      let '(fs, isDir) := if_active (isDirPath newFull now) fs in
      (changed ChangeRenamed newFull oldFull isDir 0 now fs, None)
  end.

(** ** Remove *)

Definition removeDirtyStagedFile (fullPath : string) (now : Time) (fs : Filesystem) : Filesystem * option error :=
  match staged_call (fun m => Staging.RegisterPendingDelete m fullPath now) fs with
  | (fs, inr e) => (fs, Some (FromStaging e))
  | (fs, inl false) => (InvalidateFileMutation fullPath fs, None)
  | (fs, inl true) =>
      match DeleteFile fullPath fs with
      | (fs, Some _) => (InvalidateFileMutation fullPath fs, None)
      | (fs, None) =>
          (cleanupCleanStagingSessionAfterDelete fullPath (staged_do (fun m => Staging.ResolvePendingDelete m fullPath) fs), None)
      end
  end.

(** [cleanupSessionsBeforeDelete], which is called only without staging. *)
Definition cleanupSessionsBeforeDelete (path : string) (now : Time) (fs : Filesystem) : Filesystem * option error :=
  match BufferSessions.GetSession (buffers fs) path with
  | None => (fs, None)
  | Some a =>
      let flushed :=
        match BufferSessions.deref (buffers fs) a with
        | None => (fs, None)
        | Some w =>
            if 0 <? WriteBuffer.Size (BufferSessions.Buffer w) then
              let '(b, r) := WriteBuffer.GetFlushData (BufferSessions.Buffer w) in
              let fs := set_buffers (BufferSessions.put a (BufferSessions.set_buffer b w) (buffers fs)) fs in
              match r with
              | None => (fs, Some FlushFailed)
              | Some (data, _) =>
                  if 0 <? len data then
                    let '(fs, err) := WriteFile path data (Some (plain_attributes 420 now)) fs in (fs, posix_failed err)
                  else (fs, None)
              end
            else (fs, None)
        end in
      match flushed with
      | (fs, Some e) => (fs, Some e)
      | (fs, None) => (set_buffers (BufferSessions.CloseSession (buffers fs) path) fs, None)
      end
  end.

(** What [remove] does with a file that is not waiting to sync. *)
Definition delete_object (fullPath : string) (now : Time) (fs : Filesystem) : Filesystem * option error :=
  match DeleteFile fullPath fs with
  | (fs, None) => (cleanupCleanStagingSessionAfterDelete fullPath fs, None)
  | (fs, Some e) =>
      if stagingEnabled && negb (posix_IsNotExist e) then
        match staged_call (fun m => Staging.RegisterPendingDelete m fullPath now) fs with
        | (fs, inl _) => (InvalidateFileMutation fullPath fs, None)
        | (fs, inr _) => (fs, Some (FromPosix e))
        end
      else (fs, Some (FromPosix e))
  end.

Definition remove (filename : string) (now : Time) (fs : Filesystem) : Filesystem * option error :=
  let '(fs, fullPath) := keyPath filename now fs in
  if isReservedPath fullPath then (fs, Some Permission)
  else if stagingEnabled && IsDirty fs fullPath then removeDirtyStagedFile fullPath now fs
  else
    match ensureNoDirtyStagedChildrenForRmdir fullPath fs with
    | Some e => (fs, Some e)
    | None =>
        match Stat filename now fs with
        | (fs, inr e) => (fs, if IsNotExist e then None else Some e)
        | (fs, inl info) =>
            if VfsTypes.IsDir info then
              let '(fs, err) := posix_call (fun o => op_DeleteDirectory (pending fs) o fullPath now) fs in
              (fs, posix_failed err)
            else
              let '(fs, err) := if negb stagingEnabled then cleanupSessionsBeforeDelete fullPath now fs else (fs, None) in
              match err with
              | Some e => (fs, Some e)
              | None => delete_object fullPath now fs
              end
        end
    end.

Definition Remove (filename : string) (now : Time) (fs : Filesystem) : Filesystem * option error :=
  let '(fs, fullPath) := keyPath filename now fs in
  let '(fs, isDir) := if_active (isDirPath fullPath now) fs in
  match remove filename now fs with
  | (fs, Some e) => (fs, Some e)
  | (fs, None) => (changed ChangeRemoved fullPath "" isDir 0 now fs, None)
  end.

(** ** Listing *)

(** The sessions [ReadDir] serves, in the state it finds them in after listing. *)
Definition live_sessions (sessions : list positive) (fs : Filesystem) : list Session.WriteSession :=
  filter (fun w => HasPendingDelete fs (Session.w_Path w) = false) (omap (Staging.deref (staging fs)) sessions).

Definition staged_entry (w : Session.WriteSession) : entry :=
  StagedFile (stagedFileInfo (path_Base (Session.w_Path w)) w).

(** A staged file the listing does not name is added to it. *)
Fixpoint add_staged (ws : list Session.WriteSession) (result : list entry) : list entry :=
  match ws with
  | [] => result
  | w :: ws =>
      add_staged ws
        (if negb (existsb (fun e => bool_decide (Name e = path_Base (Session.w_Path w))) result) && speaks w
         then result ++ [staged_entry w] else result)
  end.

Definition ReadDir (path : string) (now : Time) (fs : Filesystem) : Filesystem * (list entry + error) :=
  let '(fs, fullPath) := keyPath path now fs in
  let sessions := if stagingEnabled then Staging.GetSessionsInDirectory (staging fs) fullPath else [] in
  match posix_call (fun o => op_ListDirectory (pending fs) o fullPath now) fs with
  | (fs, inr e) =>
      (fs, if bool_decide (sessions = []) then inr (FromPosix e)
           else inl (presentEntries (staged_entry <$> live_sessions sessions fs)))
  | (fs, inl entries) =>
      let result := PosixInfo <$> filter (fun i => isReservedPath (Join [fullPath; name i]) = false) entries in
      let result :=
        if stagingEnabled then
          let visible :=
            if 0 <? Staging.PendingDeleteCount (staging fs)
            then filter (fun e => HasPendingDelete fs (Join [fullPath; Name e]) = false) result else result in
          add_staged (live_sessions sessions fs) visible
        else result in
      (fs, inl (presentEntries ((fun e => withDirTime (Join [fullPath; Name e]) e fs) <$> result)))
  end.

(** ** Directories and attributes *)

Definition mkdirAll (filename : string) (perm : Z) (now : Time) (fs : Filesystem) : Filesystem * option error :=
  let '(fs, fullPath) := keyPath filename now fs in
  let attrs := Attributes.mkPOSIX (Z.lor perm Attributes.ModeDir) 1000 1000 0 now 0 now 0 ∅ in
  let '(fs, err) := posix_call (fun o => op_CreateDirectory o fullPath (Some attrs)) fs in
  (fs, posix_failed err).

Definition MkdirAll (filename : string) (perm : Z) (now : Time) (fs : Filesystem) : Filesystem * option error :=
  let '(fs, fullPath) := keyPath filename now fs in
  let '(fs, existed) := if_active (existsPath fullPath now) fs in
  match mkdirAll filename perm now fs with
  | (fs, Some e) => (fs, Some e)
  | (fs, None) => (if existed then fs else changed ChangeAdded fullPath "" true 0 now fs, None)
  end.

(** A session's setters in sequence, each only for a field the update gives. *)
Definition applyStagedUpdate (u : Attributes.AttributeUpdate) (d : Disk.Disk) (w : Session.WriteSession)
    : Disk.Disk * Session.WriteSession :=
  let given {A} (o : option A) (set : Disk.Disk -> Session.WriteSession -> A -> Disk.Disk * Session.WriteSession) '(d, w) :=
    match o with Some x => set d w x | None => (d, w) end in
  let owner := match Attributes.u_UID u, Attributes.u_GID u with None, None => None | uid, gid => Some (uid, gid) end in
  let times := match Attributes.u_Atime u, Attributes.u_Mtime u with
               | None, None => None | at_, mt => Some (default 0 at_, default 0 mt) end in
  given times (fun d w t => Session.SetTimes d w t.1 t.2)
    (given (Attributes.u_Streams u) Session.SetStreams
      (given (Attributes.u_WindowsAttributes u)
         (fun d w f => Session.SetWindowsAttributes d w (Z.land f Attributes.WindowsAttributesStored))
        (given (Attributes.u_Btime u) Session.SetBirthTime
          (given owner (fun d w o =>
             Session.SetOwner d w (from_option wrap32 (a_UID (Session.w_attrs w)) o.1)
               (from_option wrap32 (a_GID (Session.w_attrs w)) o.2))
            (given (Attributes.u_Mode u) Session.SetMode (d, w)))))).

Definition setAttributes (name : string) (u : Attributes.AttributeUpdate) (now : Time) (fs : Filesystem)
    : Filesystem * option error :=
  let '(fs, fullPath) := keyPath name now fs in
  match (if stagingEnabled then Staging.GetSession (staging fs) fullPath else None) with
  | Some a => (on_session a (applyStagedUpdate u) fs, None)
  | None =>
      let '(fs, err) := posix_call (fun o => op_UpdateAttributes (pending fs) o fullPath u now) fs in
      (fs, posix_failed err)
  end.

Definition is_given {A} (o : option A) : bool := match o with Some _ => true | None => false end.

(** What an update changes, for the watchers. *)
Definition update_kind (u : Attributes.AttributeUpdate) : Z :=
  let attributes := is_given (Attributes.u_Mode u) || is_given (Attributes.u_UID u) || is_given (Attributes.u_GID u)
                    || is_given (Attributes.u_WindowsAttributes u) in
  let times := is_given (Attributes.u_Atime u) || is_given (Attributes.u_Mtime u) || is_given (Attributes.u_Btime u) in
  Z.lor (if attributes then ChangeAttributes else 0)
    (Z.lor (if times then ChangeTimes else 0) (if is_given (Attributes.u_Streams u) then ChangeStreams else 0)).

Definition SetAttributes (name : string) (u : Attributes.AttributeUpdate) (now : Time) (fs : Filesystem)
    : Filesystem * option error :=
  match setAttributes name u now fs with
  | (fs, Some e) => (fs, Some e)
  | (fs, None) =>
      if update_kind u =? 0 then (fs, None)
      else
        let '(fs, fullPath) := keyPath name now fs in
        let '(fs, isDir) := if_active (isDirPath fullPath now) fs in
        (changed ChangeModified fullPath "" isDir (update_kind u) now fs, None)
  end.


Definition Chmod (name : string) (mode : Z) : Time -> Filesystem -> Filesystem * option error :=
  SetAttributes name (Attributes.mkUpdate (Some mode) None None None None None None None).
Definition Chown (name : string) (uid gid : Z) : Time -> Filesystem -> Filesystem * option error :=
  SetAttributes name (Attributes.mkUpdate None (Some uid) (Some gid) None None None None None).
Definition Chtimes (name : string) (atime mtime : Time) : Time -> Filesystem -> Filesystem * option error :=
  SetAttributes name (Attributes.mkUpdate None None None (Some atime) (Some mtime) None None None).

(** [WithRoot] (and [Chroot]): the view of a directory. *)
Definition WithRoot (path : string) (now : Time) (fs : Filesystem) : Filesystem * View :=
  let '(fs, full) := keyPath path now fs in
  (fs, mkView full windowsNames protocol stagingEnabled WriteBufferKB MaxBufferedWriteMB startup diskAvailable walk).

End VfsOps.
End VfsOps.
