(* ===== verification/VfsFile.v ===== *)
(** * Open files ([internal/vfs/filesystem.go], [changes.go])

    A handle writes to the staging session of its path, or, without staging, to
    the path's buffer ([BufferSessions]) and from there to the object.  Each
    method runs under the handle's mutex, so it is a function of the handle and
    the file system; the counters a handle keeps for its log are left out. *)
From S2P Require Import Prelude GoPath StagingTypes Disk DirtyIndex PathState Session StagingManager StagingPressure CosClient Attributes MetadataCache Namespace Paths WriteBuffer BufferSessions FoldNames Changes VfsTypes Vfs VfsOps.
Import Changes VfsTypes Vfs VfsOps.

Module VfsFile.

(** [os.O_*] on Linux. *)
Definition O_RDONLY : Z := 0.
Definition O_WRONLY : Z := 1.
Definition O_RDWR : Z := 2.
Definition O_CREATE : Z := 64.
Definition O_TRUNC : Z := 512.
Definition O_APPEND : Z := 1024.

Definition has (flag mask : Z) : bool := negb (Z.land flag mask =? 0).
Definition writable (flag : Z) : bool := has flag (Z.lor O_WRONLY (Z.lor O_RDWR O_CREATE)).

(** [io.SeekStart] and so on. *)
Definition SeekStart : Z := 0.
Definition SeekCurrent : Z := 1.
Definition SeekEnd : Z := 2.

(** [data] is [nil] as [None]. *)
Record File := mkFile {
  path : string;
  flag : Z;
  perm : Z;
  offset : Z;
  isNew : bool;
  data : option bytes;
  loaded : bool;
  size : Z;
  writeSession : option positive;
  stagingSession : option positive;
  wrote : bool;
  closed : bool
}.

Definition set_offset (o : Z) (f : File) : File :=
  mkFile (path f) (flag f) (perm f) o (isNew f) (data f) (loaded f) (size f) (writeSession f) (stagingSession f) (wrote f) (closed f).
Definition set_state (n : bool) (d : option bytes) (l : bool) (s : Z) (f : File) : File :=
  mkFile (path f) (flag f) (perm f) (offset f) n d l s (writeSession f) (stagingSession f) (wrote f) (closed f).
Definition set_writeSession (a : option positive) (f : File) : File :=
  mkFile (path f) (flag f) (perm f) (offset f) (isNew f) (data f) (loaded f) (size f) a (stagingSession f) (wrote f) (closed f).
Definition set_closed (w c : bool) (f : File) : File :=
  mkFile (path f) (flag f) (perm f) (offset f) (isNew f) (data f) (loaded f) (size f) (writeSession f) (stagingSession f) w c.

Section VfsFile.
Context `{PathHash} {PO : PosixOps} {CF : FoldNames.CaseFolding} {V : View}.

Definition Stat_object (p : string) (now : Time) (fs : Filesystem) : Filesystem * (FileInfo + goerr) :=
  posix_call (fun o => op_Stat (pending fs) o p now) fs.
Definition ReadFile (p : string) (off n : Z) : Filesystem -> Filesystem * (bytes + goerr) :=
  posix_call (fun o => op_ReadFile o p off n).

(** ** Open *)

(** [DownloadToFile]'s part on the staging disk: the local file is emptied, and
    [io.Copy] writes what arrives of the stream, [all] telling whether that was
    the whole object. *)
Definition download_to (r : bytes * bool + goerr) (localPath : string) (now : Time) (d : Disk.Disk)
    : Disk.Disk * option Disk.error :=
  match r with
  | inr _ => (d, Some (Disk.Wrap Disk.ErrIO))
  | inl (got, all) =>
      match Disk.open_or_create d localPath now with
      | (d, inr e) => (d, Some (Disk.Wrap e))
      | (d, inl ino) =>
          let '(d, o) := Disk.os_call (Disk.set_content now [] d ino) in
          match o with
          | Some k => (Disk.set_content now (take k got) d ino, Some (Disk.Wrap Disk.ErrIO))
          | None => (Disk.set_content now got d ino, if (all : bool) then None else Some (Disk.Wrap Disk.ErrIO))
          end
      end
  end.

(** [session.Prefetch] of the object.  The download is asked for only when the
    session has nothing to wait for: it is not prefetched, and is detached from
    its uploads. *)
Definition prefetch (a : positive) (fullPath : string) (now : Time) (fs : Filesystem) : Filesystem * option error :=
  match Staging.deref (staging fs) a with
  | None => (fs, Some Closed)
  | Some w =>
      let asked := negb (Session.w_Prefetched w) &&
                   bool_decide ((Session.detachFromUploadsLocked (Staging.disk (staging fs)) w 0 now).2 = None) in
      let '(fs, r) := if asked then posix_call (fun o => op_Download o fullPath) fs else (fs, inl ([], true)) in
      let '(d, w, err) :=
        Session.Prefetch (Staging.disk (staging fs)) w (download_to r (Session.w_StagingPath w) now) now in
      (set_staging (Staging.put a w (Staging.set_disk d (staging fs))) fs,
       match err, r with
       | None, _ => None
       | Some _, inr e => Some (FromPosix e)
       | Some e, inl _ => Some (FromStaging e)
       end)
  end.

(** The session a handle gets, and whether it already speaks for the file. *)
Definition acquire (fullPath : string) (fl : Z) (now : Time) (fs : Filesystem)
    : Filesystem * (option positive * bool + error) :=
  if negb stagingEnabled then (fs, inl (None, false))
  else if writable fl then
    match staged_call (fun m => Staging.GetOrCreateSession m fullPath now) fs with
    | (fs, inr e) => (fs, inr (FromStaging e))
    | (fs, inl a) =>
        (fs, inl (Some a, from_option (fun w => Session.w_Dirty w || Session.w_Prefetched w || (0 <? Session.w_Size w))
                            false (Staging.deref (staging fs) a)))
    end
  else
    let '(fs, a) := staged_call (fun m => Staging.AcquireSession m fullPath) fs in (fs, inl (a, false)).

Definition discard_empty (fullPath : string) : Filesystem -> Filesystem :=
  staged_do (fun m => Staging.ReleaseSessionDiscardingIfEmpty m fullPath).

(** Whether there is an object, asked when the session does not say, and its
    attributes; an open that would write over an object nobody could see is
    refused. *)
Definition find_object (fullPath : string) (fl : Z) (pendingDelete : bool) (session : option positive) (now : Time)
    (fs : Filesystem) : Filesystem * (option Attributes.POSIXAttributes + error) :=
  match Stat_object fullPath now fs with
  | (fs, inl info) => (fs, inl (if pendingDelete then None else Some (Namespace.InfoAttributes startup info)))
  | (fs, inr e) =>
      match session with
      | Some _ =>
          if negb (CosClient.Is_NotExist e) && negb pendingDelete && writable fl && negb (has fl O_TRUNC)
          then (discard_empty fullPath fs, inr (FromPosix e))
          else (fs, inl None)
      | None => (fs, inl None)
      end
  end.

(** What a writable open does to its session before anything is written: the
    object's attributes, and its bytes unless they are about to be discarded. *)
Definition stage_object (a : positive) (fullPath : string) (fl : Z) (known : bool)
    (attrs : option Attributes.POSIXAttributes) (now : Time) (fs : Filesystem) : Filesystem * option error :=
  match attrs with
  | None => (fs, None)
  | Some attrs =>
      let fs := on_session a (fun d w => Session.SeedAttributes d w (StagedAttributesFrom attrs)) fs in
      if negb known && negb (has fl O_TRUNC) then
        match prefetch a fullPath now fs with
        | (fs, Some e) => (discard_empty fullPath fs, Some e)
        | (fs, None) => (fs, None)
        end
      else (fs, None)
  end.

(** [O_TRUNC]: the staged file is emptied, or the object. *)
Definition open_truncated (fl p : Z) (session : option positive) (now : Time) (fs : Filesystem) (f : File)
    : Filesystem * (File + error) :=
  if negb (has fl O_TRUNC) then (fs, inl f)
  else
    match session with
    | Some a =>
        match staged_call (fun m => Pressure.Truncate m a 0 diskAvailable now) fs with
        | (fs, Some e) => (fs, inr (FromStaging e))
        | (fs, None) =>
            match staged_call (fun m => Staging.MarkDirty m (path f) 0 now) fs with
            | (fs, Some e) => (staged_do (fun m => Staging.ReleaseSession m (path f)) fs, inr (FromStaging e))
            | (fs, None) => (fs, inl f)
            end
        end
    | None =>
        match WriteFile (path f) [] (Some (plain_attributes p now)) fs with
        | (fs, Some e) => (fs, inr (FromPosix e))
        | (fs, None) => (fs, inl (set_state false (Some []) true (size f) f))
        end
    end.

(** [O_APPEND]: the handle starts at the end. *)
Definition open_appending (fl : Z) (fileExists : bool) (session : option positive) (fs : Filesystem) (f : File)
    : Filesystem * (File + error) :=
  if has fl O_APPEND && fileExists && negb (has fl O_TRUNC) then
    match session with
    | Some a => (fs, inl (set_offset (from_option Session.w_Size 0 (Staging.deref (staging fs) a)) f))
    | None =>
        match ReadFile (path f) 0 0 fs with
        | (fs, inr e) => (fs, inr (FromPosix e))
        | (fs, inl d) => (fs, inl (set_offset (len d) (set_state (isNew f) (Some d) true (size f) f)))
        end
    end
  else (fs, inl f).

Definition OpenFile (filename : string) (fl p : Z) (now : Time) (fs : Filesystem) : Filesystem * (File + error) :=
  let '(fs, fullPath) := keyPath filename now fs in
  if isReservedPath fullPath then (fs, inr Permission)
  else
    let pendingDelete := pending fs fullPath in
    if pendingDelete && negb (has fl O_CREATE) then (fs, inr NotExist)
    else
      match acquire fullPath fl now fs with
      | (fs, inr e) => (fs, inr e)
      | (fs, inl (session, known)) =>
          match (if known then (fs, inl None) else find_object fullPath fl pendingDelete session now fs) with
          | (fs, inr e) => (fs, inr e)
          | (fs, inl attrs) =>
              let fileExists := known || is_given attrs in
              let '(fs, err) :=
                match session with
                | Some a => if writable fl then stage_object a fullPath fl known attrs now fs else (fs, None)
                | None => (fs, None)
                end in
              match err with
              | Some e => (fs, inr e)
              | None =>
                  let creates := has fl O_CREATE && negb fileExists in
                  let fs := match session with
                            | Some a => if creates
                                        then on_session a (fun d w => Session.SetCreationIfUnset d w now (Z.land p 511)) fs
                                        else fs
                            | None => fs
                            end in
                  let f := mkFile fullPath fl p 0 creates None false 0 None session false false in
                  match open_truncated fl p session now fs f with
                  | (fs, inr e) => (fs, inr e)
                  | (fs, inl f) =>
                      match open_appending fl fileExists session fs f with
                      | (fs, inr e) => (fs, inr e)
                      | (fs, inl f) =>
                          (if creates then changed ChangeAdded fullPath "" false 0 now fs
                           else if has fl O_TRUNC && fileExists
                           then changed ChangeModified fullPath "" false ChangeData now fs
                           else fs, inl f)
                      end
                  end
              end
          end
      end.

Definition Create (filename : string) : Time -> Filesystem -> Filesystem * (File + error) :=
  OpenFile filename (Z.lor O_RDWR (Z.lor O_CREATE O_TRUNC)) 438.
Definition Open (filename : string) : Time -> Filesystem -> Filesystem * (File + error) := OpenFile filename O_RDONLY 0.

(** ** The buffered path *)

Definition maxBufferedWriteBytes : Z :=
  (if 0 <? MaxBufferedWriteMB then MaxBufferedWriteMB else 512) * 1024 * 1024.

Definition says (e : goerr) (text : string) : bool := Contains (CosClient.Error e) text.

(** The three parts of [flushSessionBuffer]: the buffer's bytes are taken under
    the session's mutex, written to the object without it, and then the buffer is
    replaced under it. *)
Definition flush_take (a : positive) (fs : Filesystem) : Filesystem * option (bytes * Z) :=
  match BufferSessions.deref (buffers fs) a with
  | None => (fs, None)
  | Some w =>
      let '(b, r) := WriteBuffer.GetFlushData (BufferSessions.Buffer w) in
      (set_buffers (BufferSessions.put a (BufferSessions.set_buffer b w) (buffers fs)) fs, r)
  end.

(** The object's size as [flushSessionBuffer] finds it; 0 for a new file. *)
Definition current_size (f : File) (now : Time) (fs : Filesystem) : Filesystem * (Z + goerr) :=
  if isNew f then (fs, inl 0)
  else
    match Stat_object (path f) now fs with
    | (fs, inl info) => (fs, inl (MetadataCache.size info))
    | (fs, inr e) => (fs, if says e "not found" then inl 0 else inr e)
    end.

Definition flush_upload (f : File) (d : bytes) (startOffset : Z) (now : Time) (fs : Filesystem) : Filesystem * option error :=
  let put d fs := let '(fs, err) := WriteFile (path f) d (Some (plain_attributes (perm f) now)) fs in (fs, posix_failed err) in
  match current_size f now fs with
  | (fs, inr e) => (fs, Some (FromPosix e))
  | (fs, inl currentSize) =>
      if isNew f || (startOffset =? 0) then put d fs
      else if (startOffset =? currentSize) && (0 <? currentSize) then
        if maxBufferedWriteBytes <? currentSize + len d then (fs, Some TooLarge)
        else
          match ReadFile (path f) 0 0 fs with
          | (fs, inr e) => (fs, Some (FromPosix e))
          | (fs, inl existing) => put (existing ++ d) fs
          end
      else
        let needed := startOffset + len d in
        if maxBufferedWriteBytes <? needed then (fs, Some TooLarge)
        else
          match ReadFile (path f) 0 0 fs with
          | (fs, inr e) => if says e "not found" then put (WriteBuffer.copy_at (Disk.zeros needed) startOffset d) fs
                           else (fs, Some (FromPosix e))
          | (fs, inl existing) =>
              let existing := if len existing <? needed then existing ++ Disk.zeros (needed - len existing) else existing in
              put (WriteBuffer.copy_at existing startOffset d) fs
          end
  end.

Definition flush_done (a : positive) (fs : Filesystem) : Filesystem :=
  set_buffers (BufferSessions.update a (BufferSessions.set_buffer (WriteBuffer.NewWriteBuffer (WriteBufferKB * 1024)))
                 (buffers fs)) fs.

Definition flushSessionBuffer (f : File) (now : Time) (fs : Filesystem) : Filesystem * option error :=
  match writeSession f with
  | None => (fs, None)
  | Some a =>
      if from_option (fun w => WriteBuffer.Size (BufferSessions.Buffer w) =? 0) true (BufferSessions.deref (buffers fs) a)
      then (fs, None)
      else
        match flush_take a fs with
        | (fs, None) => (fs, Some FlushFailed)
        | (fs, Some (d, startOffset)) =>
            match flush_upload f d startOffset now fs with
            | (fs, Some e) => (fs, Some e)
            | (fs, None) => (flush_done a fs, None)
            end
        end
  end.

(** The write of the buffered path, before the flush it may ask for. *)
Definition buffer_write (f : File) (p : bytes) (off : Z) (now : Time) (fs : Filesystem) : Filesystem * File * bool :=
  let '(fs, a) :=
    match writeSession f with
    | Some a => (fs, a)
    | None => let '(b, a) := BufferSessions.GetOrCreateSession (buffers fs) (path f) now in (set_buffers b fs, a)
    end in
  let f := set_writeSession (Some a) f in
  match BufferSessions.deref (buffers fs) a with
  | None => (fs, f, false)
  | Some w =>
      let '(b, _) := WriteBuffer.Write (BufferSessions.Buffer w) off p now in
      (set_buffers (BufferSessions.put a (BufferSessions.set_buffer b w) (buffers fs)) fs, f, WriteBuffer.ShouldFlush b)
  end.

(** ** Reading and writing *)

Definition ensureLoaded (f : File) (now : Time) (fs : Filesystem) : Filesystem * File * option error :=
  if loaded f || isNew f then (fs, f, None)
  else
    match (if stagingEnabled then stagingSession f else None) with
    | Some a =>
        (fs, set_state (isNew f) None true (from_option Session.w_Size 0 (Staging.deref (staging fs) a)) f, None)
    | None =>
        match Stat_object (path f) now fs with
        | (fs, inr e) => (fs, f, Some (FromPosix e))
        | (fs, inl info) => (fs, set_state (isNew f) None true (MetadataCache.size info) f, None)
        end
    end.

Definition closed_result {A} (x : A) (fs : Filesystem) (f : File) : Filesystem * File * (A * option error) :=
  (fs, f, (x, Some Closed)).

(** A read of the staging session. *)
Definition staged_read (a : positive) (n off : Z) (now : Time) (fs : Filesystem) : Filesystem * (bytes + Disk.error) :=
  match Staging.deref (staging fs) a with
  | None => (fs, inr (Disk.Wrap Disk.ErrClosed))
  | Some w =>
      let '(d, w, r) := Session.Read (Staging.disk (staging fs)) w n off now in
      (set_staging (Staging.put a w (Staging.set_disk d (staging fs))) fs, r)
  end.

(** A range of the object, up to [size]. *)
Definition read_object (f : File) (n off : Z) (fs : Filesystem) : Filesystem * (bytes + error) :=
  if size f <=? off then (fs, inr EOF)
  else
    match ReadFile (path f) off n fs with
    | (fs, inr e) => (fs, inr (if says e "EOF" then EOF else FromPosix e))
    | (fs, inl []) => (fs, inr EOF)
    | (fs, inl got) => (fs, inl (take (Z.to_nat n) got))
    end.

Definition advance (n : Z) (f : File) : File := set_offset (wrap64 (offset f + n)) f.

(** [Read] of up to [n] bytes: what was read, and the error. *)
Definition Read (n : Z) (now : Time) (fs : Filesystem) (f : File) : Filesystem * File * (bytes * option error) :=
  if closed f then closed_result [] fs f
  else
    match (if stagingEnabled then stagingSession f else None) with
    | Some a =>
        match staged_read a n (offset f) now fs with
        | (fs, inl got) => (fs, advance (len got) f, (got, None))
        | (fs, inr Disk.ErrEOF) => (fs, f, ([], Some EOF))
        | (fs, inr e) => (fs, f, ([], Some (FromStaging e)))
        end
    | None =>
        match ensureLoaded f now fs with
        | (fs, f, Some e) => (fs, f, ([], Some e))
        | (fs, f, None) =>
            let buffered := a ← writeSession f; w ← BufferSessions.deref (buffers fs) a;
                            WriteBuffer.Read walk (BufferSessions.Buffer w) (offset f) n in
            match buffered with
            | Some ((_ :: _) as got) => (fs, advance (len got) f, (got, None))
            | _ =>
                match data f with
                | Some d =>
                    if len d <=? offset f then (fs, f, ([], Some EOF))
                    else let got := Disk.pread d (offset f) n in (fs, advance (len got) f, (got, None))
                | None =>
                    match read_object f n (offset f) fs with
                    | (fs, inl got) => (fs, advance (len got) f, (got, None))
                    | (fs, inr e) => (fs, f, ([], Some e))
                    end
                end
            end
        end
    end.

(** [writeLocked]: the bytes taken, and the error. *)
Definition writeLocked (p : bytes) (off : Z) (now : Time) (fs : Filesystem) (f : File) : Filesystem * File * (Z * option error) :=
  match (if stagingEnabled then stagingSession f else None) with
  | Some a =>
      match staged_call (fun m => Pressure.Write m a p off diskAvailable now) fs with
      | (fs, (_, Some e)) => (fs, f, (0, Some (FromStaging e)))
      | (fs, (n, None)) =>
          let sessionSize := from_option Session.w_Size 0 (Staging.deref (staging fs) a) in
          match staged_call (fun m => Staging.MarkDirty m (path f) sessionSize now) fs with
          | (fs, Some e) => (fs, f, (0, Some (FromStaging e)))
          | (fs, None) => (fs, f, (n, None))
          end
      end
  | None =>
      let '(fs, f, shouldFlush) := buffer_write f p off now fs in
      if shouldFlush
      then let '(fs, err) := flushSessionBuffer f now fs in (fs, f, (len p, err))
      else (fs, f, (len p, None))
  end.

Definition noteWrite (n : Z) (now : Time) (fs : Filesystem) (f : File) : Filesystem * File :=
  if n <=? 0 then (fs, f) else (changed ChangeModified (path f) "" false ChangeData now fs, set_closed true (closed f) f).

Definition Write (p : bytes) (now : Time) (fs : Filesystem) (f : File) : Filesystem * File * (Z * option error) :=
  if closed f then closed_result 0 fs f
  else
    let '(fs, f, (n, err)) := writeLocked p (offset f) now fs f in
    let '(fs, f) := noteWrite n now fs (advance n f) in
    (fs, f, (n, err)).

Definition WriteAt (p : bytes) (off : Z) (now : Time) (fs : Filesystem) (f : File) : Filesystem * File * (Z * option error) :=
  if off <? 0 then (fs, f, (0, Some Invalid))
  else if closed f then closed_result 0 fs f
  else
    let '(fs, f, (n, err)) := writeLocked p off now fs f in
    let '(fs, f) := noteWrite n now fs f in
    (fs, f, (n, err)).

(** [ReadAt].  A staged read that fails, other than at the end of the file, is
    answered from the object. *)
Definition ReadAt (n off : Z) (now : Time) (fs : Filesystem) (f : File) : Filesystem * File * (bytes * option error) :=
  if closed f then closed_result [] fs f
  else
    match ensureLoaded f now fs with
    | (fs, f, Some e) => (fs, f, ([], Some e))
    | (fs, f, None) =>
        match data f with
        | Some d =>
            if len d <=? off then (fs, f, ([], Some EOF))
            else let got := Disk.pread d off n in (fs, f, (got, if len got <? n then Some EOF else None))
        | None =>
            let from_object fs :=
              match read_object f n off fs with
              | (fs, inr e) => (fs, f, ([], Some e))
              | (fs, inl got) =>
                  (fs, f, (got, if (len got <? n) && (size f <=? off + len got) then Some EOF else None))
              end in
            match (if stagingEnabled then stagingSession f else None) with
            | Some a =>
                match staged_read a n off now fs with
                | (fs, inl got) => (fs, f, (got, None))
                | (fs, inr Disk.ErrEOF) => (fs, f, ([], Some EOF))
                | (fs, inr _) => from_object fs
                end
            | None => from_object fs
            end
        end
    end.

(** [truncateObjectLocked]. *)
Definition existing_bytes (f : File) (sz : Z) (now : Time) (fs : Filesystem) : Filesystem * (Z * bytes + error) :=
  match data f with
  | Some d => (fs, inl (perm f, d))
  | None =>
      if isNew f then (fs, inl (perm f, []))
      else
        match Stat_object (path f) now fs with
        | (fs, inr e) => (fs, inr (FromPosix e))
        | (fs, inl info) =>
            let mode := Z.land (MetadataCache.mode info) 511 in
            if (0 <? sz) && (0 <? MetadataCache.size info) then
              match ReadFile (path f) 0 0 fs with
              | (fs, inr e) => (fs, inr (FromPosix e))
              | (fs, inl d) => (fs, inl (mode, d))
              end
            else (fs, inl (mode, []))
        end
  end.

Definition truncateObjectLocked (sz : Z) (now : Time) (fs : Filesystem) (f : File) : Filesystem * File * option error :=
  if maxBufferedWriteBytes <? sz then (fs, f, Some TooLarge)
  else
    let buffered :=
      match writeSession f with
      | Some a => from_option (fun w => 0 <? WriteBuffer.Size (BufferSessions.Buffer w)) false
                    (BufferSessions.deref (buffers fs) a)
      | None => false
      end in
    match flushSessionBuffer f now fs with
    | (fs, Some e) => (fs, f, Some e)
    | (fs, None) =>
        let f := if buffered then set_state false (data f) (loaded f) (size f) f else f in
        match existing_bytes f sz now fs with
        | (fs, inr e) => (fs, f, Some e)
        | (fs, inl (mode, existing)) =>
            let mode := if mode =? 0 then 420 else mode in
            match WriteFile (path f) (Disk.ftruncate existing sz) (Some (plain_attributes mode now)) fs with
            | (fs, Some e) => (fs, f, Some (FromPosix e))
            | (fs, None) => (fs, set_state false None true sz f, None)
            end
        end
    end.

Definition truncate (sz : Z) (now : Time) (fs : Filesystem) (f : File) : Filesystem * File * option error :=
  if sz <? 0 then (fs, f, Some Invalid)
  else if closed f then (fs, f, Some Closed)
  else if negb (has (flag f) (Z.lor O_WRONLY O_RDWR)) then (fs, f, Some Permission)
  else
    match (if stagingEnabled then stagingSession f else None) with
    | Some a =>
        match staged_call (fun m => Pressure.Truncate m a sz diskAvailable now) fs with
        | (fs, Some e) => (fs, f, Some (FromStaging e))
        | (fs, None) =>
            let '(fs, err) := staged_call (fun m => Staging.MarkDirty m (path f) sz now) fs in (fs, f, FromStaging <$> err)
        end
    | None => truncateObjectLocked sz now fs f
    end.

Definition Truncate (sz : Z) (now : Time) (fs : Filesystem) (f : File) : Filesystem * File * option error :=
  match truncate sz now fs f with
  | (fs, f, Some e) => (fs, f, Some e)
  | (fs, f, None) => (changed ChangeModified (path f) "" false ChangeData now fs, f, None)
  end.

Definition currentSizeLocked (fs : Filesystem) (f : File) : Z :=
  match (if stagingEnabled then stagingSession f else None) with
  | Some a => from_option Session.w_Size 0 (Staging.deref (staging fs) a)
  | None => match data f with Some d => len d | None => size f end
  end.

Definition Seek (off whence : Z) (now : Time) (fs : Filesystem) (f : File) : Filesystem * File * (Z * option error) :=
  if closed f then closed_result 0 fs f
  else
    match ensureLoaded f now fs with
    | (fs, f, Some e) => (fs, f, (0, Some e))
    | (fs, f, None) =>
        let fileSize := currentSizeLocked fs f in
        let place o := let o := if o <? 0 then 0 else o in (fs, set_offset o f, (o, None)) in
        if whence =? SeekStart then place off
        else if whence =? SeekCurrent then place (wrap64 (offset f + off))
        else if whence =? SeekEnd then place (wrap64 (fileSize + off))
        else (fs, f, (0, Some Invalid))
    end.

(** [Close].  The write to the object at its end is for data loaded into memory
    by an open that neither staging nor a buffer serves. *)
Definition Close (now : Time) (fs : Filesystem) (f : File) : Filesystem * File * option error :=
  if closed f then (fs, f, None)
  else
    let '(fs, f, err) :=
      match (if stagingEnabled then stagingSession f else None) with
      | Some _ => (staged_do (fun m => Staging.ReleaseSession m (path f)) fs, set_closed (wrote f) true f, None)
      | None =>
          match writeSession f with
          | Some _ =>
              match flushSessionBuffer f now fs with
              | (fs, Some e) => (fs, f, Some e)
              | (fs, None) =>
                  (set_buffers (BufferSessions.ReleaseSession (buffers fs) (path f) now) fs, set_closed (wrote f) true f, None)
              end
          | None =>
              let f := set_closed (wrote f) true f in
              match data f, stagingSession f with
              | Some ((_ :: _) as d), None =>
                  if has (flag f) (Z.lor O_WRONLY O_RDWR) then
                    let '(fs, err) := WriteFile (path f) d (Some (plain_attributes (perm f) now)) fs in
                    (fs, f, posix_failed err)
                  else (fs, f, None)
              | _, _ => (fs, f, None)
              end
          end
      end in
    (if wrote f then changed ChangeModified (path f) "" false ChangeData now fs else fs, f, err).

End VfsFile.
End VfsFile.
