(* ===== verification/VfsMemory.v ===== *)
(** * A posix layer in memory

    An instance of [PosixOps] small enough to compute with: the witnesses and the
    counterexamples of the file system's theorems run on it.  It is not a model of
    [internal/posix] ([Namespace] is): it keeps no cache, and [down] makes every
    call to the bucket fail. *)
From S2P Require Import Prelude GoPath Changes StagingTypes Disk DirtyIndex CosClient Attributes MetadataCache Paths StagingManager FoldNames VfsTypes Vfs.
Import VfsTypes Vfs.

Module VfsMemory.

Record bucket := mkBucket { objects : gmap string bytes; down : bool; full : bool }.

Definition set_objects (f : gmap string bytes -> gmap string bytes) (b : bucket) : bucket :=
  mkBucket (f (objects b)) (down b) (full b).

Definition unreachable : goerr := Text "connection refused".
Definition below (dir : string) : string := TrimSuffix dir "/" +:+ "/".

(** The part of a key below a directory. *)
Definition relative (dir key : string) : option string :=
  let rest := TrimPrefix key (below dir) in
  if bool_decide (rest = key) || bool_decide (rest = "") then None else Some rest.

Definition is_directory (b : bucket) (path : string) : bool :=
  existsb (fun kv => HasPrefix kv.1 (below path)) (map_to_list (objects b)).

Definition info (path : string) (size : Z) (is_dir : bool) : FileInfo :=
  mkInfo (path_Base path) size (if is_dir then 2 ^ 31 + 493 else 420) 1 is_dir None 1.

Definition stat (pending : string -> bool) (b : bucket) (path : string) (now : Time) : bucket * (FileInfo + goerr) :=
  (b, if down b then inr unreachable
      else match objects b !! path with
           | Some d => inl (info path (len d) false)
           | None => if is_directory b path || bool_decide (path = "/") then inl (info path 0 true) else inr ErrNotExist
           end).

Definition children (b : bucket) (dir : string) : list FileInfo :=
  omap (fun kv => match SplitSlash <$> relative dir kv.1 with
                  | Some [n] => Some (info n (len kv.2) false)
                  | Some [n; ""] => Some (info n 0 true)
                  | _ => None
                  end) (map_to_list (objects b)).

Definition when_up {A} (b : bucket) (r : bucket * (A + goerr)) : bucket * (A + goerr) :=
  if down b then (b, inr unreachable) else r.
Definition done_when_up (b : bucket) (f : gmap string bytes -> gmap string bytes) : bucket * option goerr :=
  if down b then (b, Some unreachable) else (set_objects f b, None).

#[global] Instance memory : PosixOps := {|
  ops := bucket;
  op_Stat := stat;
  op_ListDirectory _ b dir _ := when_up b (b, inl (children b dir));
  op_CachedChildNames b _ _ := (b, None);
  op_ChildNamesWithPrefix _ b dir prefix _ :=
    when_up b (b, inl (filter (fun n => HasPrefix n prefix = true) (name <$> children b dir)));
  op_WriteFile b path d _ := done_when_up b <[path := d]>;
  op_DeleteFile b path := done_when_up b (delete path);
  op_CreateDirectory b path _ := done_when_up b <[below path := []]>;
  op_DeleteDirectory _ b path _ := done_when_up b (delete (below path));
  op_RenameFile _ b oldPath newPath _ :=
    done_when_up b (fun m => match m !! oldPath with Some d => <[newPath := d]> (delete oldPath m) | None => m end);
  op_CopyFile _ b src dst _ _ :=
    done_when_up b (fun m => match m !! src with Some d => <[dst := d]> m | None => m end);
  op_UpdateAttributes _ b _ _ _ := done_when_up b id;
  op_InvalidateFileMutation b _ := b;
  op_ReadFile b path off n :=
    when_up b (b, match objects b !! path with
                  | Some d => inl (if n <=? 0 then d else Disk.pread d off n)
                  | None => inr ErrNotExist
                  end);
  op_Download b path :=
    when_up b (b, match objects b !! path with Some d => inl (d, true) | None => inr ErrNotExist end);
  op_BucketFull b := full b
|}.

#[global] Instance memory_laws : PosixLaws.
Proof.
  refine {| sound := fun _ => True |}; [done..|].
  intros b path b' pend now i _ _ Hd Hi. simpl in *. unfold done_when_up in Hd. unfold stat in Hi.
  destruct (down b) eqn:Ed; [done|]. injection Hd as <-. simpl in Hi. rewrite Ed in Hi. simpl in Hi.
  rewrite lookup_delete_eq in Hi. destruct (_ || _); [|done]. by injection Hi as <-.
Defined.

(** Names hashed to themselves. *)
#[global] Instance plain_hash : PathHash := {| path_hash := fun s => s; path_hash_inj := fun x y H => H |}.

(** An NFS view of a bucket, with staging and without. *)
Definition nfs_view (staging : bool) : View := mkView "/" false "nfs" staging 4096 512 1 None map_to_list.

Definition area_config : Staging.StagingConfig :=
  Staging.mkConfig "/staging" 64 (60 * Second) 1 3 Second (30 * Second) true true "block" 80 95
    (Some (30 * Second)) (Some (250 * Millisecond)).
Definition empty_area : Staging.Manager := Staging.mkManager area_config ∅ ∅ DirtyIndex.NewDirtyFileIndex ∅ 0 false ∅ Disk.empty_disk.

End VfsMemory.
