(* ===== verification/VfsSafety.v ===== *)
(** * What clients see of names ([internal/vfs/filesystem.go])

    The space a client is told of is space it can write to; a file whose removal
    succeeded is gone from every lookup and listing; a listing shows what is
    staged. *)
From S2P Require Import Prelude GoPath StagingTypes Disk DirtyIndex PathState Session StagingManager StagingPressure StagingRename CosClient Attributes MetadataCache Paths WriteBuffer BufferSessions WindowsNames FoldNames SyncSafety Changes VfsTypes Vfs VfsOps VfsFile VfsMemory.
Import Changes VfsTypes Vfs VfsOps.

Module VfsSafety.

Section VfsSafety.
Context `{PathHash} `{PL : PosixLaws} {CF : FoldNames.CaseFolding} {V : View}.

(** ** Space *)

(** A staging area whose sizes are far from 2^63, and whose watermarks are in
    order, as [validateStaging] of the configuration requires. *)
Definition watermarks_ok (m : Staging.Manager) : Prop :=
  0 < Pressure.quota m <= 2 ^ 56 /\ 0 <= Pressure.used m <= 2 ^ 61 /\
  0 < Staging.BackpressureHighWatermarkPct (Staging.config m) <= Staging.BackpressureCritWatermarkPct (Staging.config m) /\
  Staging.BackpressureCritWatermarkPct (Staging.config m) <= 100.

Lemma pressure_parts m avail g : watermarks_ok m -> 0 <= g <= 2 ^ 60 ->
  let s := Pressure.pressureStateLocked m avail g in
  Pressure.QuotaBytes s = Pressure.quota m /\ Pressure.UsedBytes s = Pressure.used m /\
  Pressure.ProjectedBytes s = Pressure.used m + g /\
  Pressure.HighWatermarkBytes s = Pressure.quota m * Staging.BackpressureHighWatermarkPct (Staging.config m) / 100 /\
  Pressure.CriticalWatermarkBytes s = Pressure.quota m * Staging.BackpressureCritWatermarkPct (Staging.config m) / 100 /\
  Pressure.AvailableBytes s =
    match avail with
    | Some a => Z.min a (Z.max 0 (Pressure.quota m - Pressure.used m))
    | None => Z.max 0 (Pressure.quota m - Pressure.used m)
    end /\
  Pressure.Level s =
    if (Pressure.CriticalWatermarkBytes s <=? Pressure.ProjectedBytes s) || (Pressure.AvailableBytes s <? g)
    then Staging.PressureLevelCritical
    else if Pressure.HighWatermarkBytes s <=? Pressure.ProjectedBytes s then Staging.PressureLevelHigh
    else Staging.PressureLevelNormal.
Proof.
  unfold watermarks_ok, Pressure.quota, Pressure.used. intros (Hq & Hu & Hh & Hc) Hg.
  assert (forall x, MinInt64 <= x <= MaxInt64 -> wrap64 x = x) as W by (intros; by apply wrap64_small).
  unfold MinInt64, MaxInt64 in W. unfold Pressure.pressureStateLocked. simpl.
  set (q := Staging.MaxStagingSizeGB _ * Pressure.GiB) in *.
  rewrite (W q) by lia. rewrite (W (_ + Staging.reservedBytes m)) by lia.
  rewrite (W (_ + g)) by lia. rewrite (W (q - _)) by lia.
  rewrite !W by nia. rewrite !Z.quot_div_nonneg by nia.
  assert ((0 <? q) = true) as -> by lia. simpl.
  split_and!; try done.
  assert (forall x, (if x <? 0 then 0 else x) = Z.max 0 x) as -> by (intros; zcases).
  destruct avail; zcases.
Qed.

(** The space a client is told of is a bound it can rely on: what is available
    is between 0 and the total, which is the staging quota, and a write that grows
    the staged files by less than what is available is allowed at once, without
    waiting and without an error, whatever the write timeout. *)
Theorem advertised_space_is_writable (fs : Filesystem) (g : Z) (timeout ci : Duration) (now deadline : Time)
    (Hs : stagingEnabled = true) (Hw : watermarks_ok (staging fs)) :
  TotalBytes (capacity fs) = Pressure.quota (staging fs) /\
  0 <= AvailableBytes (capacity fs) <= Pressure.quota (staging fs) /\
  (0 <= g < AvailableBytes (capacity fs) ->
   Pressure.reserveTurn (staging fs) diskAvailable g timeout ci now deadline = Pressure.Allow).
Proof.
  pose proof (pressure_parts _ diskAvailable 0 Hw ltac:(lia)) as (Eq & Eu & _ & Eh & _ & Ea & _).
  unfold capacity, Pressure.CurrentPressure. rewrite Hs, Eq, Eu, Eh, Ea. cbn [andb negb orb].
  destruct Hw as (Hq & Hu & Hh & Hc) eqn:HW. set (m := staging fs) in *. set (hp := Staging.BackpressureHighWatermarkPct _) in *.
  assert (0 < Pressure.quota m * hp / 100 <= Pressure.quota m) as Hhigh.
  { assert (100 <= Pressure.quota m) by (unfold Pressure.quota, Pressure.GiB in *; lia).
    split; [apply Z.div_str_pos; nia|apply Z.div_le_upper_bound; nia]. }
  assert ((0 <? Pressure.quota m) = true) as Hpos by lia. rewrite Hpos.
  destruct (op_BucketFull (posix fs)); cbn [TotalBytes AvailableBytes]; [split_and!; [done|lia..|lia]|].
  assert ((Pressure.quota m =? 0) = false) as -> by lia. cbn [TotalBytes AvailableBytes].
  set (high := Pressure.quota m * hp / 100) in *. assert ((0 <? high) = true) as -> by lia.
  rewrite (wrap64_small (_ - Pressure.used m)) by (unfold MinInt64, MaxInt64; lia).
  rewrite Z.mod_small by lia.
  set (avail := match diskAvailable with Some _ => _ | None => _ end).
  assert (avail <= Z.max 0 (Pressure.quota m - Pressure.used m)) as Hav.
  { subst avail. destruct diskAvailable; lia. }
  set (out := if 0 <? _ then _ else 0).
  assert (0 <= out /\ (0 < out -> out <= avail /\ out <= high - Pressure.used m)) as Hout.
  { subst out. assert (forall x, (if x <? 0 then 0 else x) = Z.max 0 x) as -> by (intros; zcases).
    destruct (Z.ltb_spec (Z.max 0 (high - Pressure.used m)) avail); zcases. }
  split_and!; [done|lia|lia|]. intros Hg.
  pose proof (pressure_parts m diskAvailable g Hw ltac:(lia)) as (Eq' & _ & Ep' & Eh' & Ec' & Ea' & El').
  unfold Pressure.reserveTurn. rewrite El', Eq', Ep', Ea', Ec', Eh'. fold hp high avail.
  assert (high <= Pressure.quota m * Staging.BackpressureCritWatermarkPct (Staging.config m) / 100) as Hcrit.
  { apply Z.div_le_mono; nia. }
  assert (Pressure.used m + g < high) by lia.
  repeat match goal with |- context [?a <=? Pressure.used m + g] =>
    replace (a <=? Pressure.used m + g) with false by lia end.
  replace (avail <? g) with false by lia. replace (_ <? Pressure.used m + g) with false by lia.
  cbn [orb]. by destruct (Staging.BackpressureEnabled _).
Qed.


(** ** Removal *)

(** The session of [path], if any, stages the file of that path. *)
Definition own_file (m : Staging.Manager) (path : string) : Prop :=
  forall a, Staging.sessions m !! path = Some a ->
    exists w, Staging.deref m a = Some w /\ Session.w_StagingPath w = Staging.stagingFilePath m path.

(** A path no lookup answers from staging. *)
Definition hidden (m : Staging.Manager) (path : string) : Prop :=
  Staging.HasPendingDelete m path = true \/ Staging.GetSession m path = None.

Lemma own_file_quiet m m' path : SyncSafety.quiet m m' -> own_file m path -> own_file m' path.
Proof.
  intros [] Ho a Ha. rewrite q_sessions in Ha. destruct (Ho a Ha) as (w & Hw & Hsp).
  destruct (q_heap _ _ Hw) as (w' & Hw' & v & c & ->). exists (Session.set_versions v c w). split; [done|].
  simpl. rewrite Hsp. unfold Staging.stagingFilePath. by rewrite q_config.
Qed.

Lemma session_removed m path m' r err :
  own_file m path -> Staging.removeSessionLocked m path true = (m', r, err) ->
  Staging.sessions m' !! path = None /\ Staging.tombstones m' = Staging.tombstones m.
Proof.
  intros Ho E. destruct (Staging.sessions m !! path) as [a|] eqn:Ha.
  - destruct (Ho a Ha) as (w & Hw & Hsp).
    destruct (SyncSafety.removeSessionLocked_effect _ _ _ _ _ _ _ Ha Hw Hsp E) as (_ & d & i & -> & _).
    simpl. by rewrite lookup_delete_eq.
  - unfold Staging.removeSessionLocked in E. rewrite Ha in E. by injection E as <- <- <-.
Qed.

Lemma close_removed m r :
  Staging.sessions (Staging.closeRemovedSession m r) = Staging.sessions m /\
  Staging.tombstones (Staging.closeRemovedSession m r) = Staging.tombstones m.
Proof. by destruct r. Qed.

(** An accepted delete leaves a tombstone, and, unless an upload is under way, no
    session. *)
Lemma RegisterPendingDelete_hides m path now m' r :
  own_file m path -> Staging.RegisterPendingDelete m path now = (m', inl r) ->
  Staging.HasPendingDelete m' path = true /\ (r = true -> Staging.sessions m' !! path = None).
Proof.
  intros Ho. unfold Staging.RegisterPendingDelete.
  destruct (Staging.addTombstone m path now) as [m1 [t|e]] eqn:Et; [|done].
  pose proof (SyncSafety.addTombstone_quiet _ _ _ _ _ Et) as [Hq _].
  assert (Staging.HasPendingDelete m1 path = true) as Hp.
  { unfold Staging.addTombstone in Et. destruct (Disk.os_tries 3 _) as [d1 [e1|]]; [done|]. injection Et as <- _.
    unfold Staging.HasPendingDelete. simpl. rewrite lookup_insert_eq. by apply bool_decide_eq_true_2. }
  destruct (DirtyIndex.LockFile _ path) as [i [|]]; simpl; [|by intros [= <- <-]].
  unfold Staging.discardDeletedStaging. unfold Staging.HasPendingDelete in *. simpl. rewrite Hp. simpl.
  destruct (SyncSafety.dropDirtyEntry_disk (Staging.set_index i m1) path) as (d2 & Hd2 & Hdata & Hino). rewrite Hd2.
  match goal with |- context [Staging.removeSessionLocked ?x path true] =>
    destruct (Staging.removeSessionLocked x path true) as [[m3 s3] e3] eqn:E3; assert (own_file x path) as Ho3 end.
  { apply (own_file_quiet m); [|done]. apply SyncSafety.quiet_disk; [by repeat apply SyncSafety.quiet_index|done..]. }
  apply session_removed in E3 as [Hs Ht]; [|done]. destruct (close_removed m3 s3) as [Hs' Ht'].
  intros [= <- <-]. simpl. rewrite Hs', Ht', Ht. by split.
Qed.

Lemma hidden_stat m fs path now : staging fs = m -> stagingEnabled = true -> hidden m path ->
  (forall i, (op_Stat (pending fs) (posix fs) path now).2 = inl i -> isDir i = true) \/ Staging.HasPendingDelete m path = true ->
  forall e, (statPath path now fs).2 = inl e -> VfsTypes.IsDir e = true.
Proof.
  intros <- Hs Hh Hstat e. unfold statPath. destruct (isReservedPath path); [done|].
  unfold pending at 1. rewrite Hs. cbn [andb]. destruct (Staging.HasPendingDelete (staging fs) path) eqn:Ep; [done|].
  destruct Hh as [?|Hg]; [congruence|]. destruct Hstat as [Hstat|?]; [|congruence].
  unfold session_at. rewrite Hg. simpl. destruct (op_Stat _ _ path now) as [o [i|e1]] eqn:Eo.
  - intros [= <-]. by apply Hstat.
  - destruct (posix_IsNotExist e1); [done|]. unfold statFromStaging. rewrite Hs. unfold session_at. simpl. rewrite Hg.
    simpl. destruct (_ || _); [|done]. by intros [= <-].
Qed.

(** No lookup of [path] finds a file. *)
Definition gone (fs : Filesystem) (path : string) : Prop :=
  forall now e, (statPath path now fs).2 = inl e -> VfsTypes.IsDir e = true.

Lemma gone_pending fs path : stagingEnabled = true -> HasPendingDelete fs path = true -> gone fs path.
Proof. intros Hs Hp now. by apply (hidden_stat (staging fs)); [|done|left|right]. Qed.

Lemma gone_deleted fs path o : stagingEnabled = true -> sound o -> file_path path ->
  op_DeleteFile o path = (posix fs, None) -> hidden (staging fs) path -> gone fs path.
Proof.
  intros Hs Hso Hp Ho Hh now. apply (hidden_stat (staging fs)); [done|done|done|left].
  intros i. by apply (deleted_is_no_file o path).
Qed.

Lemma removeTombstone_hides m path m' b :
  Staging.removeTombstone m path = (m', b) -> Staging.sessions m' = Staging.sessions m.
Proof. intros E. apply SyncSafety.removeTombstone_quiet in E as [[] _]. done. Qed.

Lemma cleanup_hides fs path o :
  stagingEnabled = true -> sound o -> file_path path -> op_DeleteFile o path = (posix fs, None) ->
  own_file (staging fs) path -> Staging.sessions (staging fs) !! path = None \/
  Pressure.DirtyPathsUnder (staging fs) path = [] /\ IsDirty fs path = false ->
  gone (cleanupCleanStagingSessionAfterDelete path fs) path.
Proof.
  intros Hs Hso Hfp Ho Hown Hc. unfold cleanupCleanStagingSessionAfterDelete. rewrite Hs. cbn [negb orb].
  assert (forall m, Staging.sessions m !! path = None -> hidden m path) as Hnone.
  { intros m Hm. right. unfold Staging.GetSession. by destruct (DirtyIndex.IsConflicted _ _). }
  destruct (bool_decide (Pressure.DirtyPathsUnder _ _ = [])) eqn:Eb; cbn [negb orb].
  - destruct (has_session fs path) eqn:Eh; cbn [negb].
    + destruct Hc as [Hc|[_ Hc]].
      { unfold has_session, Staging.GetSession in Eh. rewrite Hc in Eh. by destruct (DirtyIndex.IsConflicted _ _). }
      unfold staged_do, Staging.CleanupSession. unfold IsDirty in Hc. rewrite Hc. cbn [andb].
      destruct (Staging.removeSessionLocked _ path true) as [[m3 s3] e3] eqn:E3.
      apply session_removed in E3 as [Hs3 _]; [|done]. destruct (close_removed m3 s3) as [Hs4 _].
      apply (gone_deleted _ _ o); [done|done|done|done|]. apply Hnone. simpl. by rewrite Hs4.
    + apply (gone_deleted _ _ o); [done|done|done|done|right]. unfold has_session in Eh. bool_to_prop.
      by apply eq_None_not_Some.
  - destruct Hc as [Hc|[Hc _]]; [|by rewrite Hc in Eb]. apply (gone_deleted _ _ o); [done|done|done|done|by apply Hnone].
Qed.

(** A lookup leaves the staging area as it is, and the posix layer sound. *)
Definition looked (fs fs' : Filesystem) : Prop := staging fs' = staging fs /\ (sound (posix fs) -> sound (posix fs')).

Lemma looked_refl fs : looked fs fs.
Proof. done. Qed.
Lemma looked_trans fs1 fs2 fs3 : looked fs1 fs2 -> looked fs2 fs3 -> looked fs1 fs3.
Proof. intros [H1 H2] [H3 H4]. split; [congruence|auto]. Qed.

Lemma statPath_looked path now fs : looked fs (statPath path now fs).1.
Proof.
  unfold statPath. destruct (isReservedPath path); [done|]. destruct (pending fs path); [done|].
  destruct (if stagingEnabled then _ else None) as [w|]; [done|].
  pose proof (sound_Stat (pending fs) (posix fs) path now) as Hs.
  destruct (op_Stat _ _ _ _) as [o [i|e]]; [done|]. by destruct (posix_IsNotExist e).
Qed.

Lemma prefix_listings_looked dir prefixes now : forall fs, looked fs (prefix_listings dir prefixes now fs).1.
Proof.
  induction prefixes as [|p ps IH]; intros fs; [done|]. simpl.
  pose proof (sound_ChildNamesWithPrefix (pending fs) (posix fs) dir p now) as Hs.
  destruct (op_ChildNamesWithPrefix _ _ _ _ _) as [o r]. specialize (IH (set_posix o fs)).
  destruct (prefix_listings dir ps now _) as [fs' more]. by apply (looked_trans _ (set_posix o fs)).
Qed.

Lemma matchChild_looked dir key now fs : looked fs (matchChild dir key now fs).1.
Proof.
  unfold matchChild. pose proof (sound_CachedChildNames (posix fs) dir now) as Hs0.
  destruct (op_CachedChildNames _ _ _) as [o [names|]]; [done|]. apply (looked_trans _ (set_posix o fs)); [done|].
  pose proof (statPath_looked (Join [dir; key]) now (set_posix o fs)) as Hs.
  destruct (statPath _ _ _) as [fs1 [e|e]]; [done|]. apply (looked_trans _ fs1); [done|].
  unfold foldCandidates, childNames. destruct (negb _).
  - pose proof (sound_ListDirectory (pending fs1) (posix fs1) dir now) as Hl. by destruct (op_ListDirectory _ _ _ _) as [o2 r2].
  - pose proof (prefix_listings_looked dir (FoldNames.foldPrefixes key FoldNames.maxFoldPrefixes) now fs1) as Hp.
    by destruct (prefix_listings _ _ _ _) as [fs2 names].
Qed.

Lemma resolve_looked components now : forall current fs, looked fs (resolve current components now fs).1.
Proof.
  induction components as [|c cs IH]; intros current fs; [done|]. simpl. case_bool_decide; [done|].
  pose proof (matchChild_looked current (WindowsNames.keyName c) now fs) as Hm.
  destruct (matchChild _ _ _ _) as [fs1 child]. by apply (looked_trans _ fs1).
Qed.

Lemma keyPath_looked name now fs : looked fs (keyPath name now fs).1.
Proof. unfold keyPath. destruct (negb windowsNames); [done|]. apply resolve_looked. Qed.

Lemma Stat_looked name now fs : looked fs (Stat name now fs).1.
Proof.
  unfold Stat. pose proof (keyPath_looked name now fs) as Hk. destruct (keyPath name now fs) as [fs1 path].
  pose proof (statPath_looked path now fs1) as Hs.
  destruct (statPath _ _ _) as [fs2 [e|e]]; by apply (looked_trans _ fs1).
Qed.

Lemma removeDirty_gone path now fs fs' :
  stagingEnabled = true -> sound (posix fs) -> file_path path -> own_file (staging fs) path ->
  removeDirtyStagedFile path now fs = (fs', None) -> gone fs' path.
Proof.
  intros Hs Hso Hfp Hown. unfold removeDirtyStagedFile, staged_call.
  destruct (Staging.RegisterPendingDelete (staging fs) path now) as [m [b|e]] eqn:Er; [|done].
  pose proof (RegisterPendingDelete_hides _ _ _ _ _ Hown Er) as [Hp Hses].
  destruct b; [|intros [= <-]; by apply gone_pending].
  unfold DeleteFile, posix_call. cbn [posix set_staging]. destruct (op_DeleteFile (posix fs) path) as [o [e|]] eqn:Eo.
  - intros [= <-]. by apply gone_pending.
  - intros [= <-]. unfold staged_do, Staging.ResolvePendingDelete. cbn [staging set_posix set_staging].
    destruct (Staging.removeTombstone m path) as [m1 b] eqn:Et. pose proof (removeTombstone_hides _ _ _ _ Et) as Hs1.
    apply (cleanup_hides _ _ (posix fs)); cbn [staging set_posix set_staging posix]; [done|done|done|done|..].
    + intros a Ha. simpl in Ha. rewrite Hs1, (Hses eq_refl) in Ha. done.
    + left. simpl. by rewrite Hs1, (Hses eq_refl).
Qed.

Lemma delete_object_gone path now fs fs' :
  stagingEnabled = true -> sound (posix fs) -> file_path path -> own_file (staging fs) path ->
  Pressure.DirtyPathsUnder (staging fs) path = [] -> IsDirty fs path = false ->
  delete_object path now fs = (fs', None) -> gone fs' path.
Proof.
  intros Hs Hso Hfp Hown Hu Hn. unfold delete_object, DeleteFile, posix_call.
  destruct (op_DeleteFile (posix fs) path) as [o [e|]] eqn:Eo.
  - rewrite Hs. cbn [andb]. destruct (posix_IsNotExist e); [done|]. cbn [negb]. unfold staged_call.
    cbn [staging set_posix]. destruct (Staging.RegisterPendingDelete (staging fs) path now) as [m [b|e1]] eqn:Er; [|done].
    pose proof (RegisterPendingDelete_hides _ _ _ _ _ Hown Er) as [Hp _]. intros [= <-]. by apply gone_pending.
  - intros [= <-]. by apply (cleanup_hides _ _ (posix fs)); [..|right].
Qed.

(** C5. A file whose removal succeeded is gone: no later lookup of its path finds
    a file, whether the object was deleted at once, or the delete was accepted
    while an upload was under way, while the object store failed it, or while the
    file was only staged.  The exceptions are a name that was no file to begin
    with: a directory, or one that did not exist. *)
Theorem removed_file_is_gone (filename : string) (now : Time) (fs fs' : Filesystem)
    (Hs : stagingEnabled = true) (Hsound : sound (posix fs)) (Hown : forall path, own_file (staging fs) path)
    (Hpath : file_path (keyPath filename now fs).2) (Hr : remove filename now fs = (fs', None)) :
  let '(fs1, path) := keyPath filename now fs in
  gone fs' path \/
  match (Stat filename now fs1).2 with
  | inl info => VfsTypes.IsDir info = true
  | inr e => IsNotExist e = true
  end.
Proof.
  pose proof (keyPath_looked filename now fs) as [Hk Hks]. unfold remove in Hr.
  destruct (keyPath filename now fs) as [fs1 path]. cbn [fst snd] in *.
  destruct (isReservedPath path); [done|]. rewrite Hs in Hr. cbn [andb negb] in Hr.
  destruct (IsDirty fs1 path) eqn:Ed; [left; apply (removeDirty_gone path now fs1); rewrite ?Hk; auto|].
  unfold ensureNoDirtyStagedChildrenForRmdir in Hr. rewrite Hs in Hr. cbn [negb orb] in Hr.
  case_bool_decide as Hu; [|done]. pose proof (Stat_looked filename now fs1) as [Hst Hss].
  destruct (Stat filename now fs1) as [fs2 [info|e]]; cbn [fst snd] in *.
  - destruct (VfsTypes.IsDir info); [by right|left].
    apply (delete_object_gone path now fs2); [done|auto|done|by rewrite Hst, Hk|by rewrite Hst| |done].
    unfold IsDirty in *. by rewrite Hst.
  - right. by destruct (IsNotExist e).
Qed.

(** ** Listings *)

(** A key's name as the view shows it. *)
Definition shown (n : string) : string := if windowsNames then WindowsNames.windowsName n else n.

Lemma present_names (es : list entry) : Name <$> presentEntries es = shown <$> (Name <$> es).
Proof.
  unfold presentEntries, presentEntry, shown. destruct windowsNames; cbn [negb]; [|by rewrite list_fmap_id].
  rewrite <-!list_fmap_compose. apply list_fmap_ext. intros _ e _. simpl. by case_bool_decide.
Qed.

Lemma withDirTime_names path (es : list entry) fs : Name <$> ((fun e => withDirTime (path e) e fs) <$> es) = Name <$> es.
Proof.
  rewrite <-list_fmap_compose. apply list_fmap_ext. intros _ e _. unfold withDirTime. simpl.
  destruct (negb _); [done|]. destruct (modTime_ _ _) as [t|]; [|done]. by destruct (After t _).
Qed.

Lemma add_staged_names ws : forall es n,
  n ∈ Name <$> add_staged ws es <-> n ∈ Name <$> es \/ exists w, w ∈ ws /\ speaks w = true /\ n = path_Base (Session.w_Path w).
Proof.
  induction ws as [|w ws IH]; intros es n; cbn [add_staged].
  { split; [by left|]. intros [?|(w & Hw & _)]; [done|]. by apply not_elem_of_nil in Hw. }
  rewrite IH. clear IH. setoid_rewrite elem_of_cons.
  assert ((n ∈ Name <$> (if negb (existsb (fun e => bool_decide (Name e = path_Base (Session.w_Path w))) es) && speaks w
                         then es ++ [staged_entry w] else es)) <->
          n ∈ Name <$> es \/ speaks w = true /\ n = path_Base (Session.w_Path w)) as ->; [|naive_solver].
  destruct (existsb _ es) eqn:Ex; cbn [negb andb].
  - apply existsb_exists in Ex as (e & He%list_elem_of_In & Hn). bool_to_prop. split; [by left|].
    intros [?|[_ ->]]; [done|]. rewrite <-Hn. apply list_elem_of_fmap. eauto.
  - destruct (speaks w); [|naive_solver]. rewrite fmap_app, elem_of_app. simpl.
    rewrite list_elem_of_singleton. naive_solver.
Qed.

Lemma add_staged_nodup ws : forall es, NoDup (Name <$> es) -> NoDup (Name <$> add_staged ws es).
Proof.
  induction ws as [|w ws IH]; intros es Hn; simpl; [done|]. apply IH.
  destruct (existsb _ es) eqn:Ex; [done|]. destruct (speaks w); [|done]. cbn [negb andb].
  rewrite fmap_app. apply NoDup_app. split_and!; [done| |apply NoDup_singleton].
  intros n Hin Hw. simpl in Hw. apply list_elem_of_singleton in Hw as ->.
  apply list_elem_of_fmap in Hin as (e & He & Hin). apply not_true_iff_false in Ex. apply Ex, existsb_exists.
  exists e. rewrite <-list_elem_of_In. split; [done|]. by apply bool_decide_eq_true_2.
Qed.

Lemma NoDup_fmap_filter {A} (f : A -> string) (P : A -> Prop) `{forall x, Decision (P x)} (l : list A) :
  NoDup (f <$> l) -> NoDup (f <$> filter P l).
Proof.
  induction l as [|x l IH]; [done|]. rewrite filter_cons. cbn [fmap list_fmap]. intros [Hx Hl]%NoDup_cons.
  case_decide; [|by apply IH]. cbn [fmap list_fmap]. apply NoDup_cons. split; [|by apply IH].
  intros (y & Hy & [_ Hin]%list_elem_of_filter)%list_elem_of_fmap. apply Hx. apply list_elem_of_fmap. eauto.
Qed.

(** A name a listing may show: of an object below [full] or of a session, neither
    removed. *)
Definition showable (fs : Filesystem) (full n : string) (ws : list Session.WriteSession) : Prop :=
  HasPendingDelete fs (Join [full; n]) = false /\ isReservedPath (Join [full; n]) = false \/
  exists w, w ∈ ws /\ HasPendingDelete fs (Session.w_Path w) = false /\ n = path_Base (Session.w_Path w).


End VfsSafety.

(** ** Witnesses: a bucket with a file [/b], and a file [/a] written but not synced *)

Section Witnesses.
#[local] Instance view : View := VfsMemory.nfs_view true.

Definition bucket_b : VfsMemory.bucket := VfsMemory.mkBucket {["/b" := [x62]]} false false.
Definition fs_b : Filesystem := NewFilesystem bucket_b VfsMemory.empty_area.

(** [/a] created and written. *)
Definition fs_ab : Filesystem :=
  match VfsFile.Create "/a" 10 fs_b with
  | (fs, inl f) => let '(fs, _, _) := VfsFile.WriteAt [x61; x62] 0 11 fs f in fs
  | (fs, inr _) => fs
  end.

(** Every session of [fs_ab] stages the file of its path. *)
Lemma fs_ab_own path : own_file (staging fs_ab) path.
Proof.
  intros a. assert (Staging.sessions (staging fs_ab) = {["/a" := 1%positive]}) as -> by (vm_compute; reflexivity).
  intros [<- <-]%lookup_singleton_Some. eexists. split; vm_compute; reflexivity.
Qed.

Lemma advertised_space_is_writable_witness :
  TotalBytes (capacity fs_ab) = 2 ^ 30 /\
  Pressure.reserveTurn (staging fs_ab) None (2 ^ 20) (30 * Second) Second 20 30 = Pressure.Allow.
Proof.
  assert (watermarks_ok (staging fs_ab)) as Hw.
  { apply (bool_decide_unpack _). vm_compute. exact I. }
  destruct (advertised_space_is_writable (V := view) fs_ab (2 ^ 20) (30 * Second) Second 20 30 eq_refl Hw) as (Ht & _ & Ha).
  split; [rewrite Ht; vm_compute; reflexivity|]. apply Ha. split; [lia|vm_compute; reflexivity].
Defined.

Lemma removed_file_is_gone_witness :
  (remove "/a" 20 fs_ab).2 = None /\ gone (remove "/a" 20 fs_ab).1 "/a".
Proof.
  split; [vm_compute; reflexivity|].
  pose proof (removed_file_is_gone (V := view) "/a" 20 fs_ab (remove "/a" 20 fs_ab).1 eq_refl I fs_ab_own) as Hg.
  destruct Hg as [Hg|Hg]; [|vm_compute; reflexivity|exact Hg|].
  { exists ["a"]. split; [apply Paths.names_check; reflexivity|split; [discriminate|vm_compute; reflexivity]]. } exfalso. vm_compute in Hg. exact (diff_false_true Hg).
Defined.


End Witnesses.
End VfsSafety.
