(* ===== verification/VfsFileSafety.v ===== *)
(** * Open files are plain files ([internal/vfs/filesystem.go])

    Handles of a path that is staged behave as descriptors of one plain file, each
    with a position of its own, as long as the staging disk does not fail.  The
    first section shows that a disk which does not fail stays one. *)
From S2P Require Import Prelude GoPath StagingTypes Disk DirtyIndex PathState Session SessionSafety StagingManager StagingPressure StagingRecovery SyncSafety CosClient Attributes MetadataCache Namespace Paths WriteBuffer BufferSessions FoldNames Changes VfsTypes Vfs VfsOps VfsFile VfsMemory.

Module Reliable.
Import Disk PathState Session Staging.

(** Run every call of a disk that does not fail. *)
Ltac reliable := repeat first
  [ rewrite os_try_reliable by done | rewrite os_call_reliable by done | rewrite os_tries_reliable by done ].

Lemma persist_ok d w : outcomes d = [] -> outcomes (persistAttributes d w).1 = [].
Proof.
  intros Hr. unfold persistAttributes. destruct (negb _); [done|]. rewrite Recovery.read_reliable by done.
  destruct (readPathMetadataState d _).2 as [st|e]; [|done].
  destruct (writePathMetadataState d _ _) as [[d1 st1] e1] eqn:E. apply write_reliable in E as [-> E]; done.
Qed.

Lemma sync_ok d i : outcomes d = [] -> outcomes (file_sync d i).1 = [].
Proof. intros Hr. unfold file_sync. by reliable. Qed.

Lemma copy_ok d w tmp keep now : outcomes d = [] -> outcomes (copy_kept d w tmp keep now).1 = [].
Proof.
  intros Hr. unfold copy_kept. destruct (0 <? keep); [|done]. destruct (w_File w) as [file|]; [|done]. reliable.
  destruct (_ <? keep); [done|]. unfold file_sync. by reliable.
Qed.

Lemma detach_keeps d w keep now : outcomes d = [] -> outcomes (detachFromUploadsLocked d w keep now).1.1 = [].
Proof.
  intros Hr. unfold detachFromUploadsLocked. destruct (_ =? 0); [done|]. reliable.
  match goal with |- context [copy_kept ?x w ?t keep now] => pose proof (copy_ok x w t keep now Hr) as Hc;
    destruct (copy_kept x w t keep now) as [d1 [e|]] end; simpl in *; [done|]. by reliable.
Qed.

Lemma write_stays_reliable d w buf off now : outcomes d = [] -> outcomes (write_persisting d w buf off now).1.1 = [].
Proof.
  intros Hr. unfold write_persisting, write. pose proof (detach_keeps d w (w_Size w) now Hr) as Hd.
  destruct (detachFromUploadsLocked _ _ _ _) as [[d1 w1] [e|]]; simpl in *; [done|].
  unfold write_at. destruct (w_File w1) as [file|]; [|done]. unfold file_write. reliable.
  destruct (off <? 0); [done|]. reliable. destruct (negb _); [|done]. destruct (persistAttributes _ _) as [d2 w2] eqn:E.
  match type of E with persistAttributes ?x ?y = _ => pose proof (persist_ok x y Hd) as Hp end. by rewrite E in Hp.
Qed.

Lemma truncate_stays_reliable d w size now : outcomes d = [] -> outcomes (truncate d w size now).1.1 = [].
Proof.
  intros Hr. unfold truncate. pose proof (detach_keeps d w (Z.min size (w_Size w)) now Hr) as Hd.
  destruct (detachFromUploadsLocked _ _ _ _) as [[d1 w1] [e|]]; simpl in *; [done|].
  destruct (w_File w1) as [file|]; [|done]. unfold file_truncate. reliable. by destruct (size <? 0).
Qed.

Section Manager.
Context `{PathHash}.

Lemma record_ok m path attrs now :
  outcomes (disk m) = [] -> outcomes (disk (recordDirtyPathLocked m path attrs now).1) = [].
Proof.
  intros Hr. unfold recordDirtyPathLocked. rewrite Recovery.read_reliable by done. cbn zeta iota beta.
  match goal with |- context [match ?x with inl _ => _ | inr _ => _ end] => destruct x as [st|e] end; [|done].
  match goal with |- context [writePathMetadataState ?x ?y ?z] =>
    destruct (writePathMetadataState x y z) as [[d1 st1] e1] eqn:E end.
  apply write_reliable in E as [_ E]; done.
Qed.

Lemma mark_ok m path size now : outcomes (disk m) = [] -> outcomes (disk (MarkDirty m path size now).1) = [].
Proof.
  intros Hr. unfold MarkDirty. destruct (DirtyIndex.IsConflicted _ _); [done|].
  destruct (DirtyIndex.MarkDirtyAgain _ _ _ _) as [i [|]] eqn:Ei; [done|]. unfold markPathDirty. rewrite Ei.
  pose proof (record_ok m path (sessionAttributesIfSet m (sessionAt m path)) now Hr) as Hc.
  destruct (recordDirtyPathLocked _ _ _ _) as [m1 [st|e]]; [|done]. by destruct (sessionAt m path).
Qed.
End Manager.

End Reliable.

Module VfsFileSafety.
Import Changes VfsTypes Vfs VfsOps VfsFile.
Import SessionSafety(staged, sized).

(** ** Plain files *)

Inductive request :=
  | ReadReq (n : Z)
  | ReadAtReq (n off : Z)
  | WriteReq (p : bytes)
  | WriteAtReq (p : bytes) (off : Z)
  | TruncateReq (size : Z)
  | SeekReq (off whence : Z).

Inductive answer := Got (b : bytes) | AtEnd | Count (n : Z) | Position (n : Z) | Done.

(** A plain file, and the positions its descriptors are at ([int64]s). *)
Record plain := mkPlain { contents : bytes; positions : gmap Z Z }.

Definition move (id n : Z) (s : plain) : plain := mkPlain (contents s) (<[id := wrap64 (default 0 (positions s !! id) + n)]> (positions s)).
Definition with_contents (b : bytes) (s : plain) : plain := mkPlain b (positions s).

Definition read_plain (b : bytes) (n off : Z) : answer := if len b <=? off then AtEnd else Got (Disk.pread b off n).

Definition plain_step (id : Z) (r : request) (s : plain) : plain * answer :=
  let pos := default 0 (positions s !! id) in
  match r with
  | ReadAtReq n off => (s, read_plain (contents s) n off)
  | ReadReq n =>
      match read_plain (contents s) n pos with
      | Got b => (move id (len b) s, Got b)
      | x => (s, x)
      end
  | WriteAtReq p off => (with_contents (Disk.pwrite (contents s) off p) s, Count (len p))
  | WriteReq p => (move id (len p) (with_contents (Disk.pwrite (contents s) pos p) s), Count (len p))
  | TruncateReq size => (with_contents (Disk.ftruncate (contents s) size) s, Done)
  | SeekReq off whence =>
      let at_ := Z.max 0 (if whence =? SeekStart then off
                          else if whence =? SeekCurrent then wrap64 (pos + off)
                          else wrap64 (len (contents s) + off)) in
      (mkPlain (contents s) (<[id := at_]> (positions s)), Position at_)
  end.

(** Reads of at least a byte from 0 on, and writes of at least a byte.  The servers
    pass writes of no bytes on as well, which are left out here: one past the end
    sets the size of the session although the file does not grow
    ([SessionSafety.empty_write_breaks_size]). *)
Definition sensible (r : request) : Prop :=
  match r with
  | ReadReq n => 0 < n
  | ReadAtReq n off => 0 < n /\ 0 <= off
  | WriteReq p | WriteAtReq p _ => p <> []
  | TruncateReq _ => True
  | SeekReq _ _ => True
  end.

Section Handles.
Context `{PathHash} {PO : PosixOps} {CF : FoldNames.CaseFolding} {V : View}.

(** The request on a handle; an error other than the end of the file is [inr]. *)
Definition handle_step (r : request) (now : Time) (fs : Filesystem) (f : File) : Filesystem * File * (answer + error) :=
  let got '(fs, f, (b, err)) :=
    (fs, f, match err with None => inl (Got b) | Some EOF => inl (match b with [] => AtEnd | _ => Got b end) | Some e => inr e end) in
  let counted (c : Z -> answer) '(fs, f, (n, err)) :=
    (fs, f, match err with None => inl (c n) | Some e => inr e end) in
  match r with
  | ReadReq n => got (Read n now fs f)
  | ReadAtReq n off => got (ReadAt n off now fs f)
  | WriteReq p => counted Count (Write p now fs f)
  | WriteAtReq p off => counted Count (WriteAt p off now fs f)
  | TruncateReq size => let '(fs, f, err) := Truncate size now fs f in (fs, f, match err with None => inl Done | Some e => inr e end)
  | SeekReq off whence => counted Position (Seek off whence now fs f)
  end.

(** Requests on several handles in turn, as long as none fails. *)
Fixpoint run (rs : list (Z * request * Time)) (fs : Filesystem) (hs : gmap Z File)
    : option (Filesystem * gmap Z File * list answer) :=
  match rs with
  | [] => Some (fs, hs, [])
  | (id, r, now) :: rs =>
      f ← hs !! id;
      match handle_step r now fs f with
      | (_, _, inr _) => None
      | (fs, f, inl x) => '(fs, hs, xs) ← run rs fs (<[id := f]> hs); Some (fs, hs, x :: xs)
      end
  end.

Fixpoint plain_run (rs : list (Z * request * Time)) (s : plain) : plain * list answer :=
  match rs with
  | [] => (s, [])
  | (id, r, _) :: rs => let '(s, x) := plain_step id r s in let '(s, xs) := plain_run rs s in (s, x :: xs)
  end.

(** A handle of the session [a], open, that keeps no bytes of its own. *)
Definition on_staged (a : positive) (f : File) : Prop :=
  closed f = false /\ stagingSession f = Some a /\ data f = None.

(** The session is open, and what it stages is the plain file. *)
Record serves (a : positive) (fs : Filesystem) (b : bytes) : Prop := mkServes {
  se_disk : Disk.outcomes (Staging.disk (staging fs)) = [];
  se_session : exists w, Staging.deref (staging fs) a = Some w /\ sized (Staging.disk (staging fs)) w /\
    staged (Staging.disk (staging fs)) w = b
}.

Lemma serves_put a fs d w b :
  Disk.outcomes d = [] -> sized d w -> staged d w = b ->
  serves a (set_staging (Staging.put a w (Staging.set_disk d (staging fs))) fs) b.
Proof. intros Ho Hs Hb. split; [done|]. exists w. split; [|done]. apply lookup_insert_eq. Qed.

Lemma serves_changed a fs b action p old dir kind now :
  serves a fs b -> serves a (changed action p old dir kind now fs) b.
Proof. intros []. by split. Qed.

(** Marking the path dirty touches neither the bytes nor the session. *)
Lemma serves_mark a fs b path size now fs' err :
  serves a fs b -> staged_call (fun m => Staging.MarkDirty m path size now) fs = (fs', err) -> serves a fs' b.
Proof.
  intros [Ho (w & Hw & Hs & Hb)]. unfold staged_call. pose proof (Reliable.mark_ok (staging fs) path size now Ho) as Hr.
  destruct (Staging.MarkDirty _ _ _ _) as [m e] eqn:E. intros [= <- <-].
  destruct (DirtyIndex.conflicts (Staging.index (staging fs)) !! path) as [c|] eqn:Ec.
  - unfold Staging.MarkDirty, DirtyIndex.IsConflicted in E. rewrite Ec in E. injection E as <- <-.
    split; [done|]. by exists w.
  - destruct (SyncSafety.MarkDirty_effect _ _ _ _ _ _ Ec E) as (Hq & _). destruct Hq.
    destruct (q_heap _ _ Hw) as (w' & Hw' & v & c & ->). split; [done|]. exists (Session.set_versions v c w).
    split; [done|]. unfold sized, staged, Disk.bytes_at in *. simpl. by rewrite q_inodes.
Qed.

Lemma staged_read_plain a fs b n off now fs' r :
  serves a fs b -> 0 < n -> staged_read a n off now fs = (fs', r) ->
  serves a fs' b /\
  match r with
  | inl got => off < len b /\ got = Disk.pread b off n /\ 0 <= off
  | inr Disk.ErrEOF => len b <= off
  | inr _ => off < 0
  end.
Proof.
  intros [Ho (w & Hw & Hs & Hb)] Hn. unfold staged_read. rewrite Hw. unfold Session.Read.
  pose proof (SessionSafety.sized_staged _ _ Hs) as Hsz. rewrite Hb in Hsz.
  destruct (Z.leb_spec (Session.w_Size w) off).
  { intros [= <- <-]. split; [by apply serves_put|lia]. }
  pose proof Hs as (file & Hf & Hdom & Hlen). rewrite Hf. rewrite Disk.os_tries_reliable by done.
  destruct (Z.ltb_spec off 0); [intros [= <- <-]; split; [by apply serves_put|done]|].
  assert (Disk.bytes_at (Staging.disk (staging fs)) file = b) as -> by (rewrite <-Hb; unfold staged; by rewrite Hf).
  assert (Disk.pread b off n <> []) as Hne.
  { intros He%(f_equal length). unfold Disk.pread in He. rewrite length_take, length_drop in He. simpl in He. lia. }
  rewrite (bool_decide_eq_false_2 (Disk.pread b off n = [])) by done. rewrite andb_false_r.
  intros [= <- <-]. split; [|split_and!; [lia|done|lia]]. apply serves_put; [done| |]; [|by unfold staged in *].
  by exists file.
Qed.

(** What a reservation changes of the manager. *)
Lemma reserved_only m fuel avail now requested g m' r :
  Pressure.ReserveWrite fuel (fun _ => (m, avail, now)) requested g = Some (m', r) ->
  exists k, m' = Staging.set_reserved k m.
Proof.
  assert (exists k, m = Staging.set_reserved k m) as Hm.
  { exists (Staging.reservedBytes m). by destruct m. }
  unfold Pressure.ReserveWrite. destruct (_ <=? 0); [intros [= <- _]; done|].
  destruct (_ && _); [intros [= <- _]; done|].
  destruct (Pressure.reserveLoop _ _ _ _ _ _ _) as [[j [|]]|]; simpl; [|by intros [= <- _]|done].
  intros [= <- _]. by eexists.
Qed.

Lemma serves_released a fs b d w k g :
  Disk.outcomes d = [] -> sized d w -> staged d w = b ->
  serves a (set_staging (Pressure.releaseReservation
    (Staging.put a w (Staging.set_disk d (Staging.set_reserved k (staging fs)))) g) fs) b.
Proof.
  intros Ho Hs Hb. unfold Pressure.releaseReservation.
  destruct (g <=? 0); [|destruct (_ <? g)]; (split; [done|exists w; split_and!; [apply lookup_insert_eq|done|done]]).
Qed.

(** A write that was allowed. *)
Lemma staged_write_plain a fs b p off now fs' n :
  serves a fs b -> p <> [] ->
  staged_call (fun m => Pressure.Write m a p off diskAvailable now) fs = (fs', (n, None)) ->
  serves a fs' (Disk.pwrite b off p) /\ n = len p.
Proof.
  intros [Ho (w & Hw & Hs & Hb)] Hp. unfold staged_call, Pressure.Write. rewrite Hw.
  destruct (Pressure.ReserveWrite _ _ _ _) as [[m [g|e]]|] eqn:Er; [|done|done].
  apply reserved_only in Er as [k ->].
  pose proof (Reliable.write_stays_reliable (Staging.disk (staging fs)) w p off now Ho) as Hr. simpl.
  unfold Session.write_persisting in *. destruct (Session.write _ _ _ _ _) as [[d1 w1] [[n1 dropped] e1]] eqn:E1.
  destruct (if dropped then _ else _) as [d2 w2] eqn:E2. simpl in *. intros [= <- <- ->].
  destruct (SessionSafety.write_ok _ _ _ _ _ _ _ _ _ Hs Hp E1) as (-> & _ & Hb1 & Hs1 & _). split; [|done].
  assert (sized d2 w2 /\ staged d2 w2 = staged d1 w1) as [Hs2 Hb2].
  { destruct dropped; [|by injection E2 as <- <-].
    apply SessionSafety.persist_data in E2 as (_ & Hi & Hw2). unfold sized, staged, Disk.bytes_at in *. rewrite Hi.
    destruct Hw2 as [->| ->]; by simpl. }
  apply serves_released; [done|done|congruence].
Qed.

Lemma staged_truncate_plain a fs b size now fs' :
  serves a fs b -> 0 <= size ->
  staged_call (fun m => Pressure.Truncate m a size diskAvailable now) fs = (fs', None) ->
  serves a fs' (Disk.ftruncate b size).
Proof.
  intros [Ho (w & Hw & Hs & Hb)] Hp. unfold staged_call, Pressure.Truncate. rewrite Hw.
  assert (forall k g, (let '(d, w', err) := Session.truncate (Staging.disk (Staging.set_reserved k (staging fs))) w size now in
    (Pressure.releaseReservation (Staging.put a w' (Staging.set_disk d (Staging.set_reserved k (staging fs)))) g, err)).2 = None ->
    serves a (set_staging (let '(d, w', err) := Session.truncate (Staging.disk (Staging.set_reserved k (staging fs))) w size now in
    (Pressure.releaseReservation (Staging.put a w' (Staging.set_disk d (Staging.set_reserved k (staging fs)))) g, err)).1 fs)
      (Disk.ftruncate b size)) as Hrun.
  { intros k g. pose proof (Reliable.truncate_stays_reliable (Staging.disk (staging fs)) w size now Ho) as Hr. simpl.
    destruct (Session.truncate _ _ _ _) as [[d1 w1] e1] eqn:E1. simpl in *. intros ->.
    destruct (SessionSafety.truncate_ok _ _ _ _ _ _ Hs Hp E1) as (Hb1 & Hs1 & _).
    apply serves_released; [done|done|congruence]. }
  destruct (Session.w_Size w <? size).
  - destruct (Pressure.ReserveWrite _ _ _ _) as [[m [g|e]]|] eqn:Er; [|done|done].
    apply reserved_only in Er as [k ->]. specialize (Hrun k g). simpl in *.
    destruct (Session.truncate _ _ _ _) as [[d1 w1] e1]. intros [= <- ->]. by apply Hrun.
  - specialize (Hrun (Staging.reservedBytes (staging fs)) 0).
    assert (Staging.set_reserved (Staging.reservedBytes (staging fs)) (staging fs) = staging fs) as Hm by by destruct (staging fs).
    rewrite Hm in Hrun. destruct (Session.truncate _ _ _ _) as [[d1 w1] e1]. intros [= <- ->]. by apply Hrun.
Qed.


(** One request on a handle at [offset f] is the same request on the plain file. *)
Definition agrees (a : positive) (id : Z) (r : request) (ps : gmap Z Z) (b : bytes) (f : File)
    (fs' : Filesystem) (f' : File) (x : answer) : Prop :=
  let '(s', y) := plain_step id r (mkPlain b (<[id := offset f]> ps)) in
  x = y /\ serves a fs' (contents s') /\ on_staged a f' /\ positions s' = <[id := offset f']> ps.

Section Step.
Context (Hen : stagingEnabled = true) (a : positive) (id : Z) (ps : gmap Z Z).

Lemma at_position (f : File) : default 0 ((<[id := offset f]> ps : gmap Z Z) !! id) = offset f.
Proof. by rewrite lookup_insert_eq. Qed.

Lemma read_agrees n now fs f b fs' f' x :
  serves a fs b -> on_staged a f -> 0 < n ->
  handle_step (ReadReq n) now fs f = (fs', f', inl x) -> agrees a id (ReadReq n) ps b f fs' f' x.
Proof.
  intros Hs (Hc & Ha & Hd) Hn. unfold handle_step, Read. rewrite Hc, Hen, Ha.
  destruct (staged_read a n (offset f) now fs) as [fs1 r] eqn:Er.
  destruct (staged_read_plain _ _ _ _ _ _ _ _ Hs Hn Er) as [Hs1 Hr]. unfold agrees, plain_step. cbn [contents positions].
  rewrite at_position. unfold read_plain.
  destruct r as [got|e].
  - destruct Hr as (Hoff & -> & _). rewrite (proj2 (Z.leb_gt _ _)) by done. intros [= <- <- <-].
    split_and!; try done. simpl. by rewrite lookup_insert_eq, insert_insert_eq.
  - destruct e; try done. rewrite (proj2 (Z.leb_le _ _)) by done. by intros [= <- <- <-].
Qed.

Lemma ensure_staged now fs f : on_staged a f ->
  exists f1, ensureLoaded f now fs = (fs, f1, None) /\ on_staged a f1 /\ offset f1 = offset f.
Proof.
  intros (Hc & Ha & Hd). unfold ensureLoaded. destruct (loaded f || isNew f); [by exists f|].
  rewrite Hen, Ha. by eexists.
Qed.

Lemma readAt_agrees n off now fs f b fs' f' x :
  serves a fs b -> on_staged a f -> 0 < n -> 0 <= off ->
  handle_step (ReadAtReq n off) now fs f = (fs', f', inl x) -> agrees a id (ReadAtReq n off) ps b f fs' f' x.
Proof.
  intros Hs Hf Hn Ho. unfold handle_step, ReadAt. destruct (ensure_staged now fs f Hf) as (f1 & -> & Hf1 & Hoff).
  destruct Hf as [-> _]. pose proof Hf1 as (Hc & Ha & ->). rewrite Hen, Ha.
  destruct (staged_read a n off now fs) as [fs1 r] eqn:Er.
  destruct (staged_read_plain _ _ _ _ _ _ _ _ Hs Hn Er) as [Hs1 Hr]. unfold agrees, plain_step. cbn [contents positions].
  unfold read_plain. destruct r as [got|e].
  - destruct Hr as (Hlt & -> & _). rewrite (proj2 (Z.leb_gt _ _)) by done. intros [= <- <- <-]. by rewrite Hoff.
  - destruct e; try lia. rewrite (proj2 (Z.leb_le _ _)) by done. intros [= <- <- <-]. by rewrite Hoff.
Qed.

(** A write that reported no error. *)
Lemma writeLocked_plain p off now fs f b fs' f' n :
  serves a fs b -> on_staged a f -> p <> [] -> writeLocked p off now fs f = (fs', f', (n, None)) ->
  serves a fs' (Disk.pwrite b off p) /\ f' = f /\ n = len p.
Proof.
  intros Hs (Hc & Ha & Hd) Hp. unfold writeLocked. rewrite Hen, Ha.
  destruct (staged_call _ fs) as [fs1 [n1 [e|]]] eqn:Ew; [done|].
  destruct (staged_write_plain _ _ _ _ _ _ _ _ Hs Hp Ew) as [Hs1 ->].
  destruct (staged_call (fun m => Staging.MarkDirty m _ _ _) fs1) as [fs2 [e|]] eqn:Em; [done|].
  intros [= <- <- <-]. by pose proof (serves_mark _ _ _ _ _ _ _ _ Hs1 Em).
Qed.

Lemma noteWrite_plain n now fs f b fs' f' :
  serves a fs b -> on_staged a f -> noteWrite n now fs f = (fs', f') ->
  serves a fs' b /\ on_staged a f' /\ offset f' = offset f.
Proof.
  intros Hs (Hc & Ha & Hd). unfold noteWrite. destruct (n <=? 0); intros [= <- <-]; [done|].
  split; [by apply serves_changed|]. done.
Qed.

Lemma write_agrees p now fs f b fs' f' x :
  serves a fs b -> on_staged a f -> p <> [] ->
  handle_step (WriteReq p) now fs f = (fs', f', inl x) -> agrees a id (WriteReq p) ps b f fs' f' x.
Proof.
  intros Hs Hf Hp. unfold handle_step, Write. pose proof Hf as (-> & _ & _).
  destruct (writeLocked p (offset f) now fs f) as [[fs1 f1] [n err]] eqn:Ew.
  destruct (noteWrite n now fs1 (advance n f1)) as [fs2 f2] eqn:En. destruct err as [e|]; [done|].
  destruct (writeLocked_plain _ _ _ _ _ _ _ _ _ Hs Hf Hp Ew) as (Hs1 & -> & ->).
  assert (on_staged a (advance (len p) f)) as Hf' by done.
  destruct (noteWrite_plain _ _ _ _ _ _ _ Hs1 Hf' En) as (Hs2 & Hf2 & Ho2). intros [= <- <- <-].
  unfold agrees, plain_step. cbn [contents positions]. rewrite at_position. split_and!; try done. simpl.
  rewrite lookup_insert_eq, insert_insert_eq, Ho2. done.
Qed.

Lemma writeAt_agrees p off now fs f b fs' f' x :
  serves a fs b -> on_staged a f -> p <> [] ->
  handle_step (WriteAtReq p off) now fs f = (fs', f', inl x) -> agrees a id (WriteAtReq p off) ps b f fs' f' x.
Proof.
  intros Hs Hf Hp. unfold handle_step, WriteAt. pose proof Hf as (-> & _ & _). destruct (off <? 0); [done|].
  destruct (writeLocked p off now fs f) as [[fs1 f1] [n err]] eqn:Ew.
  destruct (noteWrite n now fs1 f1) as [fs2 f2] eqn:En. destruct err as [e|]; [done|].
  destruct (writeLocked_plain _ _ _ _ _ _ _ _ _ Hs Hf Hp Ew) as (Hs1 & -> & ->).
  destruct (noteWrite_plain _ _ _ _ _ _ _ Hs1 Hf En) as (Hs2 & Hf2 & Ho2). intros [= <- <- <-].
  unfold agrees, plain_step. cbn [contents positions]. by rewrite Ho2.
Qed.

Lemma truncate_agrees size now fs f b fs' f' x :
  serves a fs b -> on_staged a f ->
  handle_step (TruncateReq size) now fs f = (fs', f', inl x) -> agrees a id (TruncateReq size) ps b f fs' f' x.
Proof.
  intros Hs Hf. unfold handle_step, Truncate, truncate. pose proof Hf as (-> & Ha & _).
  destruct (Z.ltb_spec size 0); [done|]. destruct (negb _); [done|]. rewrite Hen, Ha.
  destruct (staged_call _ fs) as [fs1 [e|]] eqn:Et; [done|].
  pose proof (staged_truncate_plain _ _ _ _ _ _ Hs ltac:(done) Et) as Hs1.
  destruct (staged_call (fun m => Staging.MarkDirty m _ _ _) fs1) as [fs2 [e|]] eqn:Em; [done|].
  pose proof (serves_mark _ _ _ _ _ _ _ _ Hs1 Em) as Hs2. simpl. intros [= <- <- <-].
  unfold agrees, plain_step. cbn [contents positions]. split_and!; try done. by apply serves_changed.
Qed.

Lemma seek_agrees off whence now fs f b fs' f' x :
  serves a fs b -> on_staged a f ->
  handle_step (SeekReq off whence) now fs f = (fs', f', inl x) -> agrees a id (SeekReq off whence) ps b f fs' f' x.
Proof.
  intros Hs Hf. unfold handle_step, Seek. destruct (ensure_staged now fs f Hf) as (f1 & -> & Hf1 & Hoff).
  destruct Hf as [-> _]. pose proof Hf1 as (Hc & Ha & Hd). unfold currentSizeLocked. rewrite Hen, Ha, Hoff.
  assert (from_option Session.w_Size 0 (Staging.deref (staging fs) a) = len b) as ->.
  { destruct Hs as [_ (w & Hw & Hsz & Hb)]. rewrite Hw. simpl. rewrite (SessionSafety.sized_staged _ _ Hsz). by rewrite Hb. }
  unfold agrees, plain_step. cbn [contents positions]. rewrite at_position.
  assert (forall o, (if o <? 0 then 0 else o) = Z.max 0 o) as Hmax by (intros; zcases).
  destruct (whence =? SeekStart); [|destruct (whence =? SeekCurrent); [|destruct (whence =? SeekEnd); [|done]]];
    rewrite Hmax; intros [= <- <- <-]; split_and!; try done; simpl; by rewrite insert_insert_eq.
Qed.

Lemma handle_step_agrees r now fs f b fs' f' x :
  serves a fs b -> on_staged a f -> sensible r ->
  handle_step r now fs f = (fs', f', inl x) -> agrees a id r ps b f fs' f' x.
Proof.
  destruct r; intros Hs Hf Hr; [by apply read_agrees|destruct Hr; by apply readAt_agrees|by apply write_agrees
    |by apply writeAt_agrees|by apply truncate_agrees|by apply seek_agrees].
Qed.
End Step.

End Handles.

(** ** A witness: two handles of a file in the bucket *)

Section Witness.
#[local] Instance view : View := VfsMemory.nfs_view true.

Definition fs_object : Filesystem :=
  NewFilesystem (VfsMemory.mkBucket {["/b" := [x61; x62; x63]]} false false) VfsMemory.empty_area.
Definition opened_twice : Filesystem * gmap Z File :=
  match OpenFile "/b" O_RDWR 420 10 fs_object with
  | (fs, inl f) => match OpenFile "/b" O_RDWR 420 11 fs with
                   | (fs, inl g) => (fs, {[1 := f; 2 := g]})
                   | (fs, inr _) => (fs, ∅)
                   end
  | (fs, inr _) => (fs, ∅)
  end.
Definition requests : list (Z * request * Time) :=
  [(1, ReadReq 2, 20); (2, WriteAtReq [x7a] 4, 21); (1, ReadReq 10, 22); (2, SeekReq (-2) SeekEnd, 23);
   (2, WriteReq [x79], 24); (1, TruncateReq 4, 25); (1, ReadAtReq 10 0, 26); (1, ReadReq 1, 27)].

End Witness.
End VfsFileSafety.
