(* ===== verification/VfsOpenSafety.v ===== *)
(** * Opening a file for writing ([internal/vfs/filesystem.go], [OpenFile])

    A file opened for writing without being truncated is staged first: a write
    lands on the object's own bytes, or on bytes staged before, never on an empty
    copy that would replace the object. *)
From S2P Require Import Prelude GoPath StagingTypes Disk DirtyIndex PathState Session SessionSafety StagingManager StagingPressure StagingRecovery SyncSafety CosClient Attributes MetadataCache Namespace Paths WindowsNames WriteBuffer BufferSessions FoldNames Changes VfsTypes Vfs VfsOps VfsFile VfsMemory VfsSafety VfsFileSafety.

Module VfsOpenSafety.
Import Changes VfsTypes Vfs VfsOps VfsFile VfsFileSafety.
Import SessionSafety(staged, sized).

(** ** Sessions and their files *)

(** An open session whose staging path names its file. *)
Definition named (d : Disk.Disk) (w : Session.WriteSession) : Prop :=
  exists file, Session.w_File w = Some file /\ Disk.data d !! Session.w_StagingPath w = Some file /\
    file ∈ dom (Disk.inodes d).

(** What an open changes of neither bytes nor names. *)
Definition same_bytes (d d' : Disk.Disk) : Prop := Disk.data d' = Disk.data d /\ Disk.inodes d' = Disk.inodes d.

Lemma same_bytes_sized d d' w : same_bytes d d' -> sized d w -> sized d' w.
Proof. intros [_ Hi]. unfold sized, Disk.bytes_at. by rewrite Hi. Qed.
Lemma same_bytes_staged d d' w : same_bytes d d' -> staged d' w = staged d w.
Proof. intros [_ Hi]. unfold staged, Disk.bytes_at. by rewrite Hi. Qed.
Lemma same_bytes_named d d' w : same_bytes d d' -> named d w -> named d' w.
Proof. intros [Hd Hi]. unfold named. by rewrite Hd, Hi. Qed.

Lemma persist_session d w d' w' :
  Session.persistAttributes d w = (d', w') ->
  same_bytes d d' /\ (w' = w \/ w' = Session.metadataChanged w).
Proof. intros (Hd & Hi & Hw)%SessionSafety.persist_data. by split. Qed.

Lemma detach_nothing d w now : Disk.outcomes d = [] -> (Session.detachFromUploadsLocked d w 0 now).2 = None.
Proof.
  intros Hr. unfold Session.detachFromUploadsLocked. destruct (_ =? 0); [done|]. Reliable.reliable.
  unfold Session.copy_kept. simpl. by Reliable.reliable.
Qed.

(** A download that succeeded put the whole object in the file. *)
Lemma download_whole r name now d d' ino :
  Disk.outcomes d = [] -> Disk.data d !! name = Some ino -> ino ∈ dom (Disk.inodes d) ->
  download_to r name now d = (d', None) ->
  Disk.outcomes d' = [] /\ ino ∈ dom (Disk.inodes d') /\
  exists got, r = inl (got, true) /\ Disk.bytes_at d' ino = got.
Proof.
  intros Hr Hn Hdom. unfold download_to, Disk.open_or_create. destruct r as [[got all]|e]; [|done].
  Reliable.reliable. rewrite Hn. Reliable.reliable. destruct all; [|done]. intros [= <-].
  split_and!; [done|simpl; set_solver|]. exists got. split; [done|]. apply SessionSafety.bytes_at_set_content.
Qed.

(** So a prefetch that succeeded staged the object. *)
Lemma Prefetch_whole r d w now d' w' :
  Disk.outcomes d = [] -> named d w -> Session.w_Prefetched w = false ->
  Session.Prefetch d w (download_to r (Session.w_StagingPath w) now) now = (d', w', None) ->
  Disk.outcomes d' = [] /\ sized d' w' /\ exists got, r = inl (got, true) /\ staged d' w' = got.
Proof.
  intros Hr (file & Hf & Hn & Hdom) Hp. unfold Session.Prefetch. rewrite Hp.
  pose proof (Reliable.detach_keeps d w 0 now Hr) as Hr1. pose proof (detach_nothing d w now Hr) as He.
  destruct (Session.detachFromUploadsLocked d w 0 now) as [[d1 w1] e1] eqn:E1. simpl in *. subst e1.
  assert (exists f1, Session.w_File w1 = Some f1 /\ Disk.data d1 !! Session.w_StagingPath w = Some f1 /\
    f1 ∈ dom (Disk.inodes d1)) as (f1 & Hf1 & Hn1 & Hdom1).
  { apply SessionSafety.detach_ok in E1 as [(_ & -> & ->)|(_ & tmp & _ & Ht & _ & Hd & -> & _)];
      [by eauto| |intros f0 Hf0; by assert (f0 = file) as -> by congruence]. exists tmp. rewrite Hd, lookup_insert_eq. by split_and!. }
  destruct (download_to r _ now d1) as [d2 [e2|]] eqn:E2; [done|].
  destruct (download_whole _ _ _ _ _ _ Hr1 Hn1 Hdom1 E2) as (Hr2 & Hdom2 & got & -> & Hb2).
  rewrite Hf1. Reliable.reliable. intros [= <- <-]. split; [done|].
  split; [exists f1; simpl; by rewrite Hf1|]. exists got. split; [done|]. unfold staged. simpl. by rewrite Hf1.
Qed.

Section Open.
Context `{PathHash} `{PL : PosixLaws} {CF : FoldNames.CaseFolding} {V : View}.

(** The path's session stages the file of the path; without a session there is no
    staged file. *)
Definition well_staged (m : Staging.Manager) (path : string) : Prop :=
  match Staging.sessions m !! path with
  | Some a => exists w, Staging.deref m a = Some w /\ sized (Staging.disk m) w /\ named (Staging.disk m) w
  | None => Disk.data (Staging.disk m) !! Staging.stagingFilePath m path = None
  end.

(** The session, and all that is known about its file. *)
Record ready (a : positive) (m : Staging.Manager) (w : Session.WriteSession) : Prop := mkReady {
  re_disk : Disk.outcomes (Staging.disk m) = [];
  re_session : Staging.deref m a = Some w;
  re_sized : sized (Staging.disk m) w;
  re_named : named (Staging.disk m) w
}.

Lemma ready_serves a fs w : ready a (staging fs) w -> serves a fs (staged (Staging.disk (staging fs)) w).
Proof. intros []. split; [done|]. by exists w. Qed.

(** A setter of the session's attributes. *)
Lemma ready_persist a m w w1 d' w' :
  ready a m w -> Session.persistAttributes (Staging.disk m) w1 = (d', w') ->
  Session.w_File w1 = Session.w_File w -> Session.w_Size w1 = Session.w_Size w ->
  Session.w_StagingPath w1 = Session.w_StagingPath w -> Session.w_Prefetched w1 = Session.w_Prefetched w ->
  ready a (Staging.put a w' (Staging.set_disk d' m)) w' /\ staged d' w' = staged (Staging.disk m) w /\
  Session.w_Prefetched w' = Session.w_Prefetched w.
Proof.
  intros [] Hp Hf Hs Hn Hpre. pose proof (Reliable.persist_ok _ w1 re_disk0) as Hr. rewrite Hp in Hr.
  apply persist_session in Hp as [Hb Hw]. pose proof Hb as [Hd Hi].
  assert (sized d' w' /\ named d' w' /\ staged d' w' = staged (Staging.disk m) w /\
    Session.w_Prefetched w' = Session.w_Prefetched w) as (? & ? & ? & ?).
  { unfold sized, named, staged, Disk.bytes_at in *. rewrite Hd, Hi. destruct Hw as [->| ->]; simpl;
      rewrite ?Hf, ?Hs, ?Hn, ?Hpre; done. }
  split_and!; try done. split; try done. apply lookup_insert_eq.
Qed.

Lemma ready_seed a fs w attrs : ready a (staging fs) w ->
  exists w', ready a (staging (on_session a (fun d w => Session.SeedAttributes d w attrs) fs)) w' /\
    Session.w_Prefetched w' = Session.w_Prefetched w.
Proof.
  intros Hw. unfold on_session. rewrite (re_session _ _ _ Hw). unfold Session.SeedAttributes.
  destruct (Session.w_attributesSet w).
  - exists w. destruct Hw. split; [|done]. split; try done. apply lookup_insert_eq.
  - destruct (Session.persistAttributes _ _) as [d' w'] eqn:E.
    destruct (ready_persist _ _ _ _ _ _ Hw E) as (? & _ & ?); by try done; exists w'.
Qed.

Lemma ready_create a fs w now mode : ready a (staging fs) w ->
  exists w', ready a (staging (on_session a (fun d w => Session.SetCreationIfUnset d w now mode) fs)) w' /\
    staged (Staging.disk (staging (on_session a (fun d w => Session.SetCreationIfUnset d w now mode) fs))) w' =
    staged (Staging.disk (staging fs)) w.
Proof.
  intros Hw. unfold on_session. rewrite (re_session _ _ _ Hw). unfold Session.SetCreationIfUnset.
  destruct (Session.w_attributesSet w).
  - exists w. destruct Hw. split; [|done]. split; try done. apply lookup_insert_eq.
  - destruct (Session.persistAttributes _ _) as [d' w'] eqn:E.
    destruct (ready_persist _ _ _ _ _ _ Hw E) as (? & ? & _); by try done; exists w'.
Qed.

(** A session of its own, or the path's as it was. *)
Lemma get_or_create_ready m path now m' a :
  Disk.outcomes (Staging.disk m) = [] -> well_staged m path ->
  Staging.GetOrCreateSession m path now = (m', inl a) ->
  exists w, ready a m' w /\
    ((exists w0, Staging.sessions m !! path = Some a /\ Staging.deref m a = Some w0 /\
        staged (Staging.disk m') w = staged (Staging.disk m) w0) \/
     Session.hasNoStagedData w = true).
Proof.
  intros Hr Hws. unfold Staging.GetOrCreateSession, Staging.CancelPendingDelete.
  destruct (DirtyIndex.IsConflicted _ path); [done|].
  destruct (Staging.removeTombstone m path) as [m1 b] eqn:Et.
  pose proof (SyncSafety.removeTombstone_quiet _ _ _ _ Et) as [[] _].
  assert (Disk.outcomes (Staging.disk m1) = []) as Hr1.
  { unfold Staging.removeTombstone in Et. destruct (_ !! path); [|by injection Et as <- _].
    rewrite Disk.os_try_reliable in Et by done. by injection Et as <- _. }
  unfold well_staged in Hws. rewrite q_sessions. destruct (Staging.sessions m !! path) as [a0|] eqn:Ea.
  - intros [= <- <-]. destruct Hws as (w0 & Hw0 & Hs0 & Hn0). destruct (q_heap _ _ Hw0) as (w1 & Hw1 & v & c & ->).
    assert (same_bytes (Staging.disk m) (Staging.disk m1)) as Hb by done.
    exists (Session.IncrementRefCount (Session.set_versions v c w0)). split.
    + split; [done| | |]; unfold Staging.deref; simpl; [by rewrite lookup_alter_eq, Hw1| |];
        [by apply (same_bytes_sized _ _ w0 Hb)|by apply (same_bytes_named _ _ w0 Hb)].
    + left. exists w0. split_and!; [done|done|]. by apply (same_bytes_staged _ _ w0 Hb).
  - assert (Staging.stagingFilePath m1 path = Staging.stagingFilePath m path) as Hsp.
    { unfold Staging.stagingFilePath. by rewrite q_config. }
    rewrite <-Hsp, <-q_data in Hws. unfold Session.NewWriteSession, Disk.open_or_create. Reliable.reliable. rewrite Hws.
    set (ino := fresh _). set (d1 := Disk.link_data _ _ _).
    assert (Disk.outcomes d1 = []) as Hr2 by done. rewrite Disk.os_try_reliable by done.
    destruct (Session.EnsurePathMetadata d1 path _) as [d2 e2] eqn:E2.
    pose proof (SyncSafety.Ensure_data _ _ _ _ _ E2) as [Hd2 Hi2].
    assert (Disk.outcomes d2 = []) as Hr3.
    { unfold Session.EnsurePathMetadata in E2. rewrite Recovery.read_reliable in E2 by done.
      destruct (PathState.readPathMetadataState d1 _).2 as [st|e]; [case_decide|destruct (Disk.IsNotExist e)];
        try (by injection E2 as <- _);
        match type of E2 with context [PathState.writePathMetadataState ?x ?y ?z] =>
          destruct (PathState.writePathMetadataState x y z) as [[d3 st3] e3] eqn:Ew end;
        (apply PathState.write_reliable in Ew as [_ Hw]; [by injection E2 as <- _|done]). }
    assert (Disk.bytes_at d1 ino = []) as Hb1 by (unfold Disk.bytes_at, d1; simpl; by rewrite lookup_insert_eq).
    intros [= <- <-]. eexists. split.
    + split; unfold Staging.deref; simpl; [done|by rewrite lookup_insert_eq| |].
      * exists ino. simpl. rewrite Hi2. unfold Disk.bytes_at at 2. rewrite Hi2. fold (Disk.bytes_at d1 ino).
        split_and!; [done|unfold d1; simpl; set_solver|done].
      * exists ino. simpl. rewrite Hi2, Hd2. split_and!; [done| |unfold d1; simpl; set_solver].
        unfold d1. simpl. by rewrite lookup_insert_eq.
    + right. unfold Session.hasNoStagedData. simpl. by rewrite Hb1.
Qed.

(** The prefetch of an open session: the whole object, or a failure. *)
Lemma prefetch_ready a path now fs w fs' :
  ready a (staging fs) w -> Session.w_Prefetched w = false -> prefetch a path now fs = (fs', None) ->
  exists b, serves a fs' b /\ (op_Download (posix fs) path).2 = inl (b, true).
Proof.
  intros [] Hp. unfold prefetch. rewrite re_session0, Hp. rewrite detach_nothing by done.
  rewrite bool_decide_eq_true_2 by done. cbn [negb andb]. unfold posix_call.
  destruct (op_Download (posix fs) path) as [o r]. cbn [staging set_posix].
  destruct (Session.Prefetch _ _ _ _) as [[d w'] err] eqn:E. destruct err as [e|]; [by destruct r|].
  destruct (Prefetch_whole _ _ _ _ _ _ re_disk0 re_named0 Hp E) as (Hr & Hs & got & -> & Hb).
  intros [= <-]. exists got. split; [|done]. split; [done|]. exists w'. split_and!; [apply lookup_insert_eq|done|done].
Qed.

(** The rest of an open once its session is ready: the handle, at the end of the
    file when it appends, and the change it publishes. *)
Lemma open_appending_on a fl e fs f fs' f' :
  on_staged a f -> open_appending fl e (Some a) fs f = (fs', inl f') ->
  fs' = fs /\ on_staged a f' /\ path f' = path f.
Proof. intros Hf. unfold open_appending. destruct (_ && _); by intros [= <- <-]. Qed.

Lemma posix_on_session a g fs : posix (on_session a g fs) = posix fs.
Proof. unfold on_session, staged_do. by repeat case_match. Qed.

(** What an open of an existing object does, with the staged bytes it ends with. *)
Lemma stage_object_ready a path fl attrs now fs w fs' :
  ready a (staging fs) w -> Session.w_Prefetched w = false -> has fl O_TRUNC = false ->
  stage_object a path fl false (Some attrs) now fs = (fs', None) ->
  exists b, serves a fs' b /\ (op_Download (posix fs) path).2 = inl (b, true).
Proof.
  intros Hw Hp Ht. unfold stage_object. rewrite Ht. cbn [negb andb].
  destruct (ready_seed a fs w (StagedAttributesFrom attrs) Hw) as (w1 & Hw1 & Hp1).
  destruct (prefetch a path now _) as [fs1 [e|]] eqn:Ep; [done|]. intros [= <-].
  destruct (prefetch_ready _ _ _ _ _ _ Hw1 ltac:(congruence) Ep) as (b & Hb & Ho). exists b. by rewrite posix_on_session in Ho.
Qed.

(** The end of an open that found no object. *)
Lemma finish_new a full fl p now fs w fs' f :
  (let creates := has fl O_CREATE && true in
   let fs := if creates then on_session a (fun d w => Session.SetCreationIfUnset d w now (Z.land p 511)) fs else fs in
   let f := mkFile full fl p 0 creates None false 0 None (Some a) false false in
   match open_truncated fl p (Some a) now fs f with
   | (fs, inr e) => (fs, inr e)
   | (fs, inl f) =>
       match open_appending fl false (Some a) fs f with
       | (fs, inr e) => (fs, inr e)
       | (fs, inl f) =>
           (if creates then changed ChangeAdded full "" false 0 now fs
            else if has fl O_TRUNC && false then changed ChangeModified full "" false ChangeData now fs else fs, inl f)
       end
   end) = (fs', inl f) ->
  ready a (staging fs) w -> has fl O_TRUNC = false ->
  on_staged a f /\ path f = full /\ serves a fs' (staged (Staging.disk (staging fs)) w).
Proof.
  intros Ho Hw Ht. cbn zeta in Ho. unfold open_truncated in Ho. rewrite Ht in Ho. cbn [negb] in Ho.
  destruct (open_appending _ _ _ _ _) as [fs4 [f4|e4]] eqn:Ea; [|done].
  apply (open_appending_on a) in Ea as (-> & Hf4 & Hp4); [|done]. rewrite andb_false_l in Ho.
  destruct (has fl O_CREATE); cbn [andb] in Ho; injection Ho as <- <-; (split; [done|split; [done|]]).
  - apply serves_changed. destruct (ready_create a fs w now (Z.land p 511) Hw) as (w' & Hw' & <-). by apply ready_serves.
  - by apply ready_serves.
Qed.

(** Where the staged bytes [b] of an open come from: the session [a] the path had
    already, the whole object, or nothing when there is no object. *)
Definition starts_from (path : string) (fl : Z) (now : Time) (fs fs1 : Filesystem) (a : positive) (b : bytes) : Prop :=
  (exists w, Staging.sessions (staging fs) !! path = Some a /\ Staging.deref (staging fs) a = Some w /\
     b = staged (Staging.disk (staging fs)) w) \/
  let '(fs2, found) := Stat_object path now (acquire path fl now fs1).1 in
  match found with
  | inl _ => if pending fs1 path then b = [] else (op_Download (posix fs2) path).2 = inl (b, true)
  | inr e => b = [] /\ (pending fs1 path = true \/ CosClient.Is_NotExist e = true)
  end.

Lemma open_starts_from (filename : string) (fl p : Z) (now : Time) (fs fs' : Filesystem) (f : File) :
  stagingEnabled = true -> writable fl = true -> has fl O_TRUNC = false ->
  Disk.outcomes (Staging.disk (staging fs)) = [] -> (forall path, well_staged (staging fs) path) ->
  OpenFile filename fl p now fs = (fs', inl f) ->
  exists fs1 a b, keyPath filename now fs = (fs1, path f) /\ on_staged a f /\ serves a fs' b /\
    starts_from (path f) fl now fs fs1 a b.
Proof.
  intros Hen Hw Ht Hr Hws Ho. unfold starts_from. unfold OpenFile in Ho. pose proof (VfsSafety.keyPath_looked filename now fs) as [Hk _].
  destruct (keyPath filename now fs) as [fs1 full] eqn:Ek. cbn [fst] in Hk. destruct (isReservedPath full); [done|].
  destruct (pending fs1 full && _); [done|]. unfold acquire in Ho. rewrite Hen, Hw in Ho. cbn [negb] in Ho.
  unfold staged_call in Ho. rewrite Hk in Ho.
  destruct (Staging.GetOrCreateSession (staging fs) full now) as [m [a|e]] eqn:Eg; [|done].
  assert ((acquire full fl now fs1).1 = set_staging m fs1) as Hacq
    by (unfold acquire, staged_call; by rewrite Hen, Hw, Hk, Eg).
  destruct (get_or_create_ready _ _ _ _ _ Hr (Hws full) Eg) as (w & Hready & Hold).
  cbn [staging set_staging] in Ho. rewrite (re_session _ _ _ Hready) in Ho. cbn [from_option] in Ho.
  set (fs2 := set_staging m fs1) in *. assert (ready a (staging fs2) w) as Hready2 by done.
  assert (forall e fs3 f0 fs4 f4, on_staged a f0 -> open_appending fl e (Some a) fs3 f0 = (fs4, inl f4) ->
    fs4 = fs3 /\ on_staged a f4 /\ path f4 = path f0) as Happ by (intros *; apply open_appending_on).
  destruct (Session.w_Dirty w || Session.w_Prefetched w || (0 <? Session.w_Size w)) eqn:Ekn.
  - (* the session speaks for the file *)
    cbn [is_given orb stage_object] in Ho. rewrite andb_false_r in Ho. unfold open_truncated in Ho. rewrite Ht in Ho. cbn [negb] in Ho.
    destruct (open_appending _ _ _ _ _) as [fs4 [f4|e4]] eqn:Ea; [|done]. apply Happ in Ea as (-> & Hf4 & Hp4); [|done].
    rewrite andb_false_l in Ho. injection Ho as <- <-. simpl in Hp4.
    exists fs1, a, (staged (Staging.disk (staging fs2)) w). rewrite Hp4. split_and!; [done|done|by apply ready_serves|left].
    destruct Hold as [(w0 & Hs0 & Hw0 & Hb0)|Hno]; [by exists w0|]. unfold Session.hasNoStagedData in Hno. bool_to_prop.
    destruct Hno as [[Hn1 Hn2] Hn3]. rewrite Hn1, Hn2, Hn3 in Ekn. bool_to_prop. destruct Ekn as [[?|?]|?]; done.
  - bool_to_prop. destruct Ekn as [[Hn1 Hn2] Hn3].
    assert (staged (Staging.disk (staging fs2)) w = []) as Hempty.
    { pose proof (SessionSafety.sized_staged _ _ (re_sized _ _ _ Hready2)) as Hsz. destruct (staged _ w); [done|simpl in *; lia]. }
    unfold find_object in Ho. destruct (Stat_object full now fs2) as [fs3 r] eqn:Es.
    assert (staging fs3 = staging fs2) as Hst3.
    { unfold Stat_object, posix_call in Es. destruct (op_Stat _ _ _ _). by injection Es as <- _. }
    destruct r as [info|e].
    + destruct (pending fs1 full) eqn:Epd.
      * (* a removed file is created anew *)
        cbn [stage_object is_given orb] in Ho.
        eapply (finish_new a full fl p now fs3 w) in Ho as (Hf & Hp & Hs); [|by rewrite Hst3|done].
        exists fs1, a, []. rewrite Hp. split_and!; [done|done|by rewrite <-Hempty, <-Hst3|]. right. by rewrite Hacq, Es, Epd.
      * destruct (stage_object a full fl false (Some _) now fs3) as [fs4 [e4|]] eqn:E4; [done|].
        destruct (stage_object_ready _ _ _ _ _ _ w _ ltac:(by rewrite Hst3) ltac:(done) Ht E4) as (b & Hb & Hdl).
        cbn [is_given orb] in Ho. rewrite andb_false_r in Ho. unfold open_truncated in Ho. rewrite Ht in Ho. cbn [negb] in Ho.
        destruct (open_appending _ _ _ _ _) as [fs5 [f5|e5]] eqn:Ea; [|done]. apply Happ in Ea as (-> & Hf5 & Hp5); [|done].
        rewrite andb_false_l in Ho. injection Ho as <- <-. simpl in Hp5. exists fs1, a, b. rewrite Hp5.
        split_and!; [done|done|done|]. right. by rewrite Hacq, Es, Epd.
    + destruct (negb (CosClient.Is_NotExist e) && negb (pending fs1 full) && writable fl && negb (has fl O_TRUNC)) eqn:Eref; [done|].
      rewrite Hw, Ht in Eref. cbn [negb] in Eref. rewrite !andb_true_r in Eref.
      cbn [stage_object is_given orb] in Ho.
      eapply (finish_new a full fl p now fs3 w) in Ho as (Hf & Hp & Hs); [|by rewrite Hst3|done].
      exists fs1, a, []. rewrite Hp. split_and!; [done|done|by rewrite <-Hempty, <-Hst3|]. right. rewrite Hacq, Es. split; [done|].
      apply andb_false_iff in Eref as [He%negb_false_iff|He%negb_false_iff]; auto.
Qed.
(** C3. A file opened for writing and not truncated starts from the right bytes,
    on a disk that answers every call and where every session stages a file of its
    size under its name and no path without a session has a staged file. The
    handle's staged file holds what the path had staged already, or the whole
    object, byte for byte as the store sent it, or nothing, and then only because
    the store said that there is no object or the file had been removed. A
    download that failed or ended early, or a store that could not answer, fails
    the open instead. *)
Theorem open_stages_object (filename : string) (fl p : Z) (now : Time) (fs fs' : Filesystem) (f : File)
    (Hen : stagingEnabled = true) (Hw : writable fl = true) (Ht : has fl O_TRUNC = false)
    (Hr : Disk.outcomes (Staging.disk (staging fs)) = []) (Hws : forall path, well_staged (staging fs) path)
    (Ho : OpenFile filename fl p now fs = (fs', inl f)) :
  exists fs1 a b, keyPath filename now fs = (fs1, path f) /\ on_staged a f /\ serves a fs' b /\
    ((exists w, Staging.sessions (staging fs) !! path f = Some a /\ Staging.deref (staging fs) a = Some w /\
        b = staged (Staging.disk (staging fs)) w) \/
     let '(fs2, found) := Stat_object (path f) now (acquire (path f) fl now fs1).1 in
     match found with
     | inl _ => if pending fs1 (path f) then b = [] else (op_Download (posix fs2) (path f)).2 = inl (b, true)
     | inr e => b = [] /\ (pending fs1 (path f) = true \/ CosClient.Is_NotExist e = true)
     end).
Proof. by apply (open_starts_from filename fl p now fs fs' f). Qed.
End Open.

(** ** A witness: the object [/b] opened for writing *)

Section Witness.
#[local] Instance view : View := VfsMemory.nfs_view true.

Definition opened_b : Filesystem * (File + error) := OpenFile "/b" O_RDWR 420 10 fs_object.

Lemma open_stages_object_witness :
  exists f a b, opened_b.2 = inl f /\ on_staged a f /\ serves a opened_b.1 b /\ b = [x61; x62; x63].
Proof.
  destruct (opened_b.2) as [f|e] eqn:Ef; [|exfalso; vm_compute in Ef; discriminate Ef].
  destruct (open_stages_object (V := view) "/b" O_RDWR 420 10 fs_object opened_b.1 f) as (fs1 & a & b & Hk & Hf & Hs & Hb).
  - reflexivity.
  - reflexivity.
  - reflexivity.
  - reflexivity.
  - intros path. reflexivity.
  - transitivity (opened_b.1, opened_b.2); [apply surjective_pairing|]. rewrite Ef. reflexivity.
  - exists f, a, b. split; [reflexivity|]. split; [exact Hf|]. split; [exact Hs|].
    destruct Hs as [_ (w & Hw & Hsz & Hst)]. rewrite <-Hst.
    assert (a = 1%positive) as ->.
    { destruct Hf as (_ & Ha & _). assert (stagingSession f = Some 1%positive) as Ha'; [|congruence].
      transitivity (match opened_b.2 with inl f => stagingSession f | inr _ => None end); [rewrite Ef; reflexivity|].
      vm_compute. reflexivity. }
    transitivity (from_option (staged (Staging.disk (staging opened_b.1))) [] (Staging.deref (staging opened_b.1) 1));
      [rewrite Hw; reflexivity|vm_compute; reflexivity].
Defined.
End Witness.
End VfsOpenSafety.
