(* ===== verification/VfsBuffered.v ===== *)
(** * Writing without staging ([internal/vfs/filesystem.go])

    Writes through a handle of a new file are buffered, and closing the handle
    stores what they make. *)
From S2P Require Import Prelude GoPath StagingTypes Disk DirtyIndex Session StagingManager CosClient Attributes MetadataCache Paths WriteBuffer BufferSessions FoldNames Changes VfsTypes Vfs VfsOps VfsFile VfsMemory.

Module VfsBuffered.
Import Changes VfsTypes Vfs VfsOps VfsFile.

#[local] Arguments Z.mul : simpl never.

Section Buffered.
Context `{PathHash} {PO : PosixOps} {CF : FoldNames.CaseFolding} {V : View}.

(** Writes at given offsets, one after the other. *)
Fixpoint write_each (ws : list (Z * bytes)) (now : Time) (fs : Filesystem) (f : File) : Filesystem * File :=
  match ws with
  | [] => (fs, f)
  | w :: ws => let '(fs, f, _) := WriteAt w.2 w.1 now fs f in write_each ws now fs f
  end.

Definition total (ws : list (Z * bytes)) : Z := foldr (fun w n => len w.2 + n) 0 ws.

(** A handle whose session holds the writes made so far. *)
Record buffering (o : ops) (f0 f : File) (fs : Filesystem) (ws : list (Z * bytes)) (now : Time) (a : positive) : Prop := mkBuffering {
  bu_posix : posix fs = o;
  bu_session : writeSession f = Some a;
  bu_buffer : exists w, BufferSessions.deref (buffers fs) a = Some w /\
    BufferSessions.Buffer w = WriteBuffer.write_all (WriteBuffer.NewWriteBuffer (WriteBufferKB * 1024)) ws now;
  bu_file : path f = path f0 /\ perm f = perm f0 /\ isNew f = isNew f0 /\ data f = data f0 /\ closed f = false
}.

Lemma write_all_total m ws now :
  Forall (fun w => w.2 <> []) ws ->
  WriteBuffer.totalSize (WriteBuffer.write_all (WriteBuffer.NewWriteBuffer m) ws now) = total ws /\
  WriteBuffer.maxSize (WriteBuffer.write_all (WriteBuffer.NewWriteBuffer m) ws now) = m.
Proof.
  intros Hws. unfold WriteBuffer.write_all.
  assert (forall wb, WriteBuffer.totalSize (foldl (fun wb w => (WriteBuffer.Write wb w.1 w.2 now).1) wb ws) =
    WriteBuffer.totalSize wb + total ws /\
    WriteBuffer.maxSize (foldl (fun wb w => (WriteBuffer.Write wb w.1 w.2 now).1) wb ws) = WriteBuffer.maxSize wb) as Hwb;
    [|by apply Hwb].
  induction Hws as [|w ws Hw _ IH]; intros wb; simpl; [split; [lia|done]|].
  destruct (IH (WriteBuffer.Write wb w.1 w.2 now).1) as [-> ->]. unfold WriteBuffer.Write.
  rewrite decide_False by done. simpl. split; [lia|done].
Qed.

Lemma total_snoc ws w : total (ws ++ [w]) = total ws + len w.2.
Proof. induction ws as [|v ws IH]; simpl; [lia|rewrite IH; lia]. Qed.

Lemma total_nonneg ws : 0 <= total ws.
Proof. induction ws; simpl; lia. Qed.

(** A write into a session that still has room. *)
Lemma write_buffering o f0 f fs ws now a w :
  stagingEnabled = false -> Forall (fun w => w.2 <> []) (ws ++ [w]) -> 0 <= w.1 ->
  total (ws ++ [w]) < WriteBufferKB * 1024 -> buffering o f0 f fs ws now a ->
  let '(fs', f', _) := WriteAt w.2 w.1 now fs f in buffering o f0 f' fs' (ws ++ [w]) now a.
Proof.
  intros Hen Hws Hw0 Htot [Hp Ha (s & Hs & Hb) (Hf1 & Hf2 & Hf3 & Hf4 & Hf5)]. unfold WriteAt.
  rewrite (proj2 (Z.ltb_ge w.1 0)) by done. rewrite Hf5. unfold writeLocked. rewrite Hen. unfold buffer_write. rewrite Ha.
  cbn [buffers set_buffers]. rewrite Hs.
  destruct (WriteBuffer.Write (BufferSessions.Buffer s) w.1 w.2 now) as [b n] eqn:Ew.
  assert (b = WriteBuffer.write_all (WriteBuffer.NewWriteBuffer (WriteBufferKB * 1024)) (ws ++ [w]) now) as Hb'.
  { unfold WriteBuffer.write_all. rewrite foldl_app. simpl. fold (WriteBuffer.write_all (WriteBuffer.NewWriteBuffer (WriteBufferKB * 1024)) ws now).
    by rewrite <-Hb, Ew. }
  assert (WriteBuffer.ShouldFlush b = false) as ->.
  { unfold WriteBuffer.ShouldFlush. rewrite Hb'. destruct (write_all_total (WriteBufferKB * 1024) _ now Hws) as [-> ->]. lia. }
  unfold noteWrite. destruct (len w.2 <=? 0); (split; [done|done| |done]);
    (eexists; split; [apply lookup_insert_eq|exact Hb']).
Qed.

Lemma write_each_buffering o f0 ws2 now a : forall ws f fs,
  stagingEnabled = false -> Forall WriteBuffer.proper_write (ws ++ ws2) ->
  total (ws ++ ws2) < WriteBufferKB * 1024 -> buffering o f0 f fs ws now a ->
  let '(fs', f') := write_each ws2 now fs f in buffering o f0 f' fs' (ws ++ ws2) now a.
Proof.
  induction ws2 as [|w ws2 IH]; intros ws f fs Hen Hws Htot Hb; simpl; [by rewrite app_nil_r|].
  rewrite (cons_middle w ws ws2), app_assoc in Hws, Htot.
  assert (Forall (fun w => w.2 <> []) (ws ++ [w]) /\ 0 <= w.1) as [Hne Hw0].
  { apply Forall_app in Hws as [Hws _]. split; [by eapply Forall_impl; [exact Hws|]; intros v []|].
    apply Forall_app in Hws as [_ Hw]. rewrite Forall_singleton in Hw. by destruct Hw. }
  assert (total (ws ++ [w]) < WriteBufferKB * 1024) as Ht.
  { assert (forall xs ys, total (xs ++ ys) = total xs + total ys) as Happ.
    { intros xs ys. induction xs; simpl; [lia|]. rewrite IHxs. lia. }
    rewrite Happ in Htot. pose proof (total_nonneg ws2). lia. }
  pose proof (write_buffering o f0 f fs ws now a w Hen Hne Hw0 Ht Hb) as Hb1.
  destruct (WriteAt w.2 w.1 now fs f) as [[fs1 f1] r]. specialize (IH (ws ++ [w]) f1 fs1 Hen Hws Htot Hb1).
  rewrite (cons_middle w ws ws2), app_assoc. exact IH.
Qed.

(** The first write makes the session. *)
Lemma first_write f fs now a b p off :
  stagingEnabled = false -> closed f = false -> writeSession f = None ->
  BufferSessions.GetOrCreateSession (buffers fs) (path f) now = (b, a) ->
  WriteAt p off now fs f = WriteAt p off now (set_buffers b fs) (set_writeSession (Some a) f) \/ off < 0.
Proof.
  intros Hen Hc Hw Hg. destruct (Z.ltb_spec off 0); [by right|left]. unfold WriteAt, writeLocked. simpl.
  rewrite (proj2 (Z.ltb_ge off 0)) by done. rewrite Hc, Hen. unfold buffer_write. simpl. by rewrite Hw, Hg.
Qed.

(** Closing the handle of a new file stores the file its writes made. *)
Lemma close_stores o f0 f fs ws now a :
  stagingEnabled = false -> isNew f0 = true -> WriteBuffer.good ws -> (exists d, (0, d) ∈ ws) ->
  buffering o f0 f fs ws now a ->
  let '(fs', f', err) := Close now fs f in
  (posix fs', err) =
  let '(o', e) := op_WriteFile o (path f0) (WriteBuffer.file_of ws) (Some (plain_attributes (perm f0) now)) in
  (o', posix_failed e).
Proof.
  intros Hen Hnew Hg [d0 H0] [Hp Ha (s & Hs & Hb) (Hf1 & Hf2 & Hf3 & Hf4 & Hf5)].
  assert (ws <> []) as Hne by (intros ->; by apply not_elem_of_nil in H0).
  destruct (WriteBuffer.flush_spec (WriteBufferKB * 1024) ws now Hg Hne) as (wb' & d & st & Hfl & Hz & _ & _ & _ & Hst & Hle).
  rewrite Forall_forall in Hle. specialize (Hle _ H0). cbn [fst] in Hle. assert (st = 0) as -> by lia. simpl in Hz. subst d.
  unfold Close. rewrite Hf5, Hen, Ha. unfold flushSessionBuffer. rewrite Ha, Hs. simpl.
  assert ((WriteBuffer.Size (BufferSessions.Buffer s) =? 0) = false) as ->.
  { unfold WriteBuffer.Size. rewrite Hb. destruct Hg as [Hpr _].
    destruct (write_all_total (WriteBufferKB * 1024) ws now) as [-> _]; [by eapply Forall_impl; [exact Hpr|]; intros v []|].
    destruct ws as [|w ws]; [done|]. pose proof (total_nonneg ws). apply Forall_cons in Hpr as [Hw _].
    pose proof (WriteBuffer.proper_nonempty _ Hw). simpl. lia. }
  unfold flush_take. rewrite Hs, Hb, Hfl. unfold flush_upload, current_size. rewrite Hf3, Hnew. simpl.
  unfold WriteFile, posix_call. simpl. rewrite Hp, Hf1, Hf2.
  destruct (op_WriteFile o (path f0) _ _) as [o' [e|]]; simpl; destruct (wrote f); done.
Qed.


End Buffered.

Section Witness.
#[local] Instance view : View := VfsMemory.nfs_view false.

Definition fs_new : Filesystem := NewFilesystem (VfsMemory.mkBucket ∅ false false) VfsMemory.empty_area.
Definition new_file : File := mkFile "/n" (Z.lor O_RDWR O_CREATE) 420 0 true None false 0 None None false false.

End Witness.
End VfsBuffered.
