(* ===== verification/VfsFindings.v ===== *)
(** * What the file system does that it should not ([internal/vfs])

    Runs of the model, each on a bucket in memory ([VfsMemory]), with staging and
    without. *)
From S2P Require Import Prelude GoPath StagingTypes Disk DirtyIndex PathState Session SessionSafety StagingManager StagingPressure CosClient Attributes MetadataCache Namespace Paths WriteBuffer BufferSessions FoldNames Changes VfsTypes Vfs VfsOps VfsFile VfsMemory VfsFileSafety.
Import VfsTypes Vfs VfsOps VfsFile.

Module VfsFindings.

Definition text (s : string) : bytes := String.list_byte_of_string s.

(** A bucket with the object [/b]. *)
Definition start (b : string) : Filesystem :=
  NewFilesystem (V := VfsMemory.nfs_view true) (VfsMemory.mkBucket {["/b" := text b]} false false) VfsMemory.empty_area.

(** The outcomes of the disk's next calls. *)
Definition disk_will (o : list (option nat)) (fs : Filesystem) : Filesystem :=
  staged_do (fun m => Staging.set_disk (Disk.set_outcomes o (Staging.disk m)) m) fs.

Definition object (fs : Filesystem) (path : string) : option bytes := VfsMemory.objects (posix fs) !! path.

Section Staged.
#[local] Instance view : View := VfsMemory.nfs_view true.

(** Open, then act. *)
Definition opening {A} (name : string) (fl : Z) (k : Filesystem -> File -> A) (dflt : A) (fs : Filesystem) : A :=
  match OpenFile name fl 420 10 fs with (fs, inl f) => k fs f | _ => dflt end.

Definition write_file (name : string) (fl : Z) (s : string) (fs : Filesystem) : Filesystem :=
  opening name fl (fun fs f => let '(fs, f, _) := WriteAt (text s) 0 11 fs f in let '(fs, _, _) := Close 12 fs f in fs) fs fs.

Definition contents_of (name : string) (fl : Z) (fs : Filesystem) : bytes * option error :=
  opening name fl (fun fs f => (ReadAt 100 0 20 fs f).2) ([], Some Invalid) fs.

(** [/a] is written, an upload of it is under way, and it is removed: the delete
    waits for the upload.  Created again without [O_TRUNC], which is how a file
    is created by name, it has the removed file's bytes. *)
Definition removed_while_syncing : Filesystem :=
  let fs := write_file "/a" (Z.lor O_RDWR O_CREATE) "secret" (start "b") in
  (Remove "/a" 15 (TryLockSync "/a" fs).1).1.

Example recreated_file_has_deleted_bytes :
  (Stat "/a" 16 removed_while_syncing).2 = inr NotExist /\
  contents_of "/a" (Z.lor O_RDWR O_CREATE) removed_while_syncing = (text "secret", None).
Proof. vm_compute. auto. Qed.

(** The same happens when the staged file of a removed file could not be deleted:
    the file created next takes the bytes left under its staging name for its own
    contents. *)
Definition removed_leaving_file : Filesystem :=
  let fs := write_file "/a" (Z.lor O_RDWR O_CREATE) "secret" (start "b") in
  (Remove "/a" 15 (disk_will [None; None; None; None; Some 0%nat] fs)).1.

Example leftover_file_becomes_contents :
  Staging.sessions (staging removed_leaving_file) = ∅ /\ Staging.HasPendingDelete (staging removed_leaving_file) "/a" = false /\
  contents_of "/a" (Z.lor O_RDWR O_CREATE) removed_leaving_file = (text "secret", None).
Proof. vm_compute. auto. Qed.

(** An open that fails to truncate the staged file does not release its session:
    the reference stays, and the session is never cleaned up. *)
Example failed_truncate_keeps_reference :
  let fs := (OpenFile "/b" (Z.lor O_RDWR O_TRUNC) 420 10 (disk_will (repeat None 12 ++ [Some 0%nat]) (start "b"))) in
  (match fs.2 with inl _ => false | inr _ => true end) = true /\
  Session.w_RefCount <$> session_at fs.1 "/b" = Some 1.
Proof. vm_compute. auto. Qed.

(** A staged read that fails is answered from the object, as it was before the
    writes the client has made and been told of. *)
Definition overwritten : Filesystem := write_file "/b" O_RDWR "new" (start "old").

Example failed_read_serves_old_object :
  contents_of "/b" O_RDONLY overwritten = (text "new", None) /\
  opening "/b" O_RDONLY (fun fs f => (ReadAt 100 0 20 (disk_will [Some 0%nat] fs) f).2) ([], Some Invalid) overwritten
  = (text "old", Some EOF).
Proof. vm_compute. auto. Qed.

(** A listing shows the object's size of a file that has grown since. *)
Definition listed_size (fs : Filesystem) : list Z := match (ReadDir "/" 20 fs).2 with inl es => Size <$> es | inr _ => [] end.

Example listing_shows_old_size :
  let fs := write_file "/b" O_RDWR "longer" (start "old") in
  listed_size fs = [3] /\ (match (Stat "/b" 20 fs).2 with inl e => Size e | inr _ => 0 end) = 6.
Proof. vm_compute. auto. Qed.

End Staged.

(** ** Without staging *)

Section Buffered.
(** A write buffer of 1 KiB. *)
#[local] Instance small_buffer : View := mkView "/" false "nfs" false 1 512 1 None map_to_list.

Definition bucket_is (up : bool) (fs : Filesystem) : Filesystem :=
  set_posix (VfsMemory.mkBucket (VfsMemory.objects (posix fs)) (negb up) false) fs.

(** Open, write at the offsets given, and close. *)
Fixpoint writes (ws : list (Z * bytes)) (fs : Filesystem) (f : File) : Filesystem * File :=
  match ws with
  | [] => (fs, f)
  | (off, d) :: ws => let '(fs, f, _) := WriteAt d off 11 fs f in writes ws fs f
  end.

Definition saved (name : string) (fl : Z) (ws : list (Z * bytes)) (fs : Filesystem) : option bytes :=
  match OpenFile name fl 420 10 fs with
  | (fs, inl f) => let '(fs, f) := writes ws fs f in let '(fs, _, _) := Close 12 fs f in object fs name
  | _ => None
  end.

Definition small (b : string) : Filesystem :=
  NewFilesystem (VfsMemory.mkBucket {["/b" := text b]} false false) VfsMemory.empty_area.

(** A write at the start of an object replaces the whole object. *)
Example write_at_start_truncates : saved "/b" O_RDWR [(0, text "X")] (small "abcdef") = Some (text "X").
Proof. vm_compute. reflexivity. Qed.

(** Between two buffered writes the object's bytes become zeros. *)
Example gap_becomes_zeros :
  saved "/b" O_RDWR [(1, text "X"); (4, text "Y")] (small "abcdef") = Some (text "aX" ++ [x00; x00] ++ text "Yf").
Proof. vm_compute. reflexivity. Qed.

(** A new file first written past its start is stored without what comes before. *)
Example new_file_is_shifted :
  saved "/n" (Z.lor O_RDWR O_CREATE) [(3, text "abc")] (small "") = Some (text "abc").
Proof. vm_compute. reflexivity. Qed.

(** A new file larger than the buffer keeps only what was written since its last
    flush: the handle stays new, and each flush replaces the object. *)
Example second_flush_replaces_first :
  length <$> saved "/n" (Z.lor O_RDWR O_CREATE) [(0, repeat x61 1024); (1024, repeat x62 1024); (2048, repeat x63 1024)] (small "")
  = Some 1024%nat.
Proof. vm_compute. reflexivity. Qed.

(** A close that fails to store the buffer has emptied it: closing again succeeds
    and nothing was stored. *)
Example failed_close_loses_writes :
  match OpenFile "/n" (Z.lor O_RDWR O_CREATE) 420 10 (small "") with
  | (fs, inl f) =>
      let '(fs, f) := writes [(0, text "abc")] fs f in
      let '(fs, f, err) := Close 12 (bucket_is false fs) f in
      let '(fs, f, err') := Close 13 (bucket_is true fs) f in
      err <> None /\ err' = None /\ object fs "/n" = None
  | _ => False
  end.
Proof. vm_compute. split; [discriminate|auto]. Qed.

(** A write that arrives on another handle while a flush is storing the buffer is
    dropped with the buffer that the flush replaces. *)
Example write_during_flush_lost :
  match OpenFile "/n" (Z.lor O_RDWR O_CREATE) 420 10 (small "") with
  | (fs, inl f) =>
      let '(fs, g) := writes [(0, text "abc")] fs f in
      match writeSession g with
      | Some a =>
          let '(fs, taken) := flush_take a fs in
          let '(fs, h, _) := WriteAt (text "def") 3 12 fs f in
          match taken with
          | Some (d, off) =>
              let '(fs, _) := flush_upload g d off 13 fs in
              let '(fs, _, err) := Close 14 (flush_done a fs) h in
              err = None /\ object fs "/n" = Some (text "abc")
          | None => False
          end
      | None => False
      end
  | _ => False
  end.
Proof. vm_compute. auto. Qed.

End Buffered.
End VfsFindings.
