(* ===== verification/GoText.v ===== *)
(** * Text as the configuration uses it

    The functions of [strings], [strconv], [time] and [encoding/hex] that the
    configuration and the access rules call.  The Unicode case tables are a
    parameter, as in [FoldNames]; the arithmetic [time.ParseDuration] does in
    [float64] is IEEE 754's. *)
From Stdlib Require Import Ascii.
From Stdlib Require SpecFloat.
From S2P Require Import Prelude Runes.

Module GoText.
Import Runes.

(** ** [strings] *)

(** [strings.Cut] at one byte. *)
Fixpoint Cut (s : string) (c : ascii) : option (string * string) :=
  match s with
  | EmptyString => None
  | String x s =>
      if decide (x = c) then Some ("", s)
      else match Cut s c with Some (a, b) => Some (String x a, b) | None => None end
  end.

(** [strings.Split] at one byte. *)
Fixpoint Split (s : string) (c : ascii) : list string :=
  match s with
  | EmptyString => [""]
  | String x s =>
      if decide (x = c) then "" :: Split s c
      else match Split s c with [] => [String x ""] | e :: es => String x e :: es end
  end.

(** [strings.Count] and [strings.ReplaceAll] of one byte. *)
Fixpoint Count (s : string) (c : ascii) : Z :=
  match s with
  | EmptyString => 0
  | String x s => (if decide (x = c) then 1 else 0) + Count s c
  end.

Fixpoint ReplaceAll (s : string) (old new : ascii) : string :=
  match s with
  | EmptyString => EmptyString
  | String x s => String (if decide (x = old) then new else x) (ReplaceAll s old new)
  end.

(** [strings.ContainsAny] of ASCII characters. *)
Definition ContainsAny (s chars : string) : bool :=
  existsb (fun c => bool_decide (c ∈ String.list_ascii_of_string chars)) (String.list_ascii_of_string s).

(** [unicode.IsSpace]. *)
Definition spaces : list rune :=
  [9; 10; 11; 12; 13; 32; 133; 160; 5760; 8192; 8193; 8194; 8195; 8196; 8197; 8198; 8199; 8200; 8201; 8202;
   8232; 8233; 8239; 8287; 12288].

(** [strings.TrimSpace]: a rune of white space is at an end exactly when its
    encoding is.  Each turn takes a byte or more. *)
Definition drop_space_left (s : string) : option string :=
  foldr (fun r rest => match CutPrefix s (of_runes [r]) with Some t => Some t | None => rest end) None spaces.

Fixpoint TrimLeft_loop (fuel : nat) (s : string) : string :=
  match fuel with
  | O => s
  | S fuel => match drop_space_left s with Some t => TrimLeft_loop fuel t | None => s end
  end.

Definition drop_space_right (s : string) : option string :=
  foldr (fun r rest => if HasSuffix s (of_runes [r]) then Some (TrimSuffix s (of_runes [r])) else rest) None spaces.

Fixpoint TrimRight_loop (fuel : nat) (s : string) : string :=
  match fuel with
  | O => s
  | S fuel => match drop_space_right s with Some t => TrimRight_loop fuel t | None => s end
  end.

Definition TrimSpace (s : string) : string :=
  let s := TrimLeft_loop (String.length s) s in TrimRight_loop (String.length s) s.

(** ** Case

    [unicode.ToLower] and [unicode.ToUpper] map runes one to one; on ASCII they
    are what everyone expects. *)
Class CaseMapping := {
  rune_lower : rune -> rune;
  rune_upper : rune -> rune;
  rune_lower_ascii r : 0 <= r < 128 -> rune_lower r = (if (65 <=? r) && (r <=? 90) then r + 32 else r);
  rune_upper_ascii r : 0 <= r < 128 -> rune_upper r = (if (97 <=? r) && (r <=? 122) then r - 32 else r);
  rune_lower_idem r : rune_lower (rune_lower r) = rune_lower r;
  rune_lower_valid r : valid_rune r -> valid_rune (rune_lower r)
}.

Section Case.
Context `{CaseMapping}.

(** [strings.Map] with these: an ill-formed byte becomes U+FFFD. *)
Definition strings_ToLower (s : string) : string := of_runes (rune_lower <$> runes s).
Definition strings_ToUpper (s : string) : string := of_runes (rune_upper <$> runes s).

Lemma ToLower_idem s : strings_ToLower (strings_ToLower s) = strings_ToLower s.
Proof.
  unfold strings_ToLower. rewrite runes_of_runes.
  - rewrite <-list_fmap_compose. f_equal. apply list_fmap_ext. intros i r _. apply rune_lower_idem.
  - apply Forall_fmap. eapply Forall_impl; [apply runes_valid|]. intros r. apply rune_lower_valid.
Qed.
End Case.

(** ASCII alone, for examples. *)
#[refine] Definition ascii_case : CaseMapping := {|
  rune_lower r := if (65 <=? r) && (r <=? 90) then r + 32 else r;
  rune_upper r := if (97 <=? r) && (r <=? 122) then r - 32 else r
|}.
Proof.
  - done.
  - done.
  - intros r. zcases; try done; lia.
  - intros r. unfold valid_rune. zcases; unfold MaxRune; lia.
Defined.

(** ** [time.ParseDuration] *)

Definition is_digit (c : ascii) : bool := let n := Z.of_N (N_of_ascii c) in (48 <=? n) && (n <=? 57).
Definition digit (c : ascii) : Z := Z.of_N (N_of_ascii c) - 48.

(** [leadingInt]; [None] is an overflow of [1 << 63]. *)
Fixpoint leadingInt (l : list ascii) (x : Z) : option (Z * list ascii) :=
  match l with
  | c :: rest =>
      if is_digit c then
        if 2 ^ 63 / 10 <? x then None
        else let x := x * 10 + digit c in if 2 ^ 63 <? x then None else leadingInt rest x
      else Some (x, l)
  | [] => Some (x, l)
  end.

(** [leadingFraction]: the digits that fit, how many there are, and the rest. *)
Fixpoint leadingFraction (l : list ascii) (x : Z) (digits : Z) (overflow : bool) : Z * Z * list ascii :=
  match l with
  | c :: rest =>
      if is_digit c then
        if overflow || ((2 ^ 63 - 1) / 10 <? x) then leadingFraction rest x digits true
        else
          let y := x * 10 + digit c in
          if 2 ^ 63 <? y then leadingFraction rest x digits true else leadingFraction rest y (digits + 1) false
      else (x, digits, l)
  | [] => (x, digits, l)
  end.

Fixpoint take_unit (l : list ascii) : list ascii * list ascii :=
  match l with
  | c :: rest =>
      if is_digit c || bool_decide (c = "."%char) then ([], l)
      else let '(u, rest) := take_unit rest in (c :: u, rest)
  | [] => ([], [])
  end.

Definition Microsecond : Duration := 1000.

(** [unitMap]; the two spellings of the micro sign are U+00B5 and U+03BC. *)
Definition unit_of (u : string) : option Z :=
  if bool_decide (u = "ns") then Some 1
  else if bool_decide (u = "us") || bool_decide (u = of_runes [181; 115]) || bool_decide (u = of_runes [956; 115])
       then Some Microsecond
  else if bool_decide (u = "ms") then Some Millisecond
  else if bool_decide (u = "s") then Some Second
  else if bool_decide (u = "m") then Some Minute
  else if bool_decide (u = "h") then Some Hour
  else None.

(** [uint64(float64(f) * (float64(unit) / scale))] with [scale = 10 ^ digits],
    which is exact for the nineteen digits there can be. *)
Definition float64 (n : Z) : SpecFloat.spec_float := SpecFloat.binary_normalize 53 1024 n 0 false.
Definition to_uint64 (x : SpecFloat.spec_float) : Z :=
  match x with
  | SpecFloat.S754_finite false m e => Z.shiftl (Z.pos m) e
  | _ => 0
  end.
Definition fraction_of (f digits unit : Z) : Z :=
  to_uint64 (SpecFloat.SFmul 53 1024 (float64 f) (SpecFloat.SFdiv 53 1024 (float64 unit) (float64 (10 ^ digits)))).

(** One turn of the loop: a number with a unit. *)
Definition parse_part (l : list ascii) : option (Z * list ascii) :=
  match l with
  | [] => None
  | c :: _ =>
      if negb (is_digit c || bool_decide (c = "."%char)) then None
      else
        '(v, l1) ← leadingInt l 0;
        let pre := negb (len l1 =? len l) in
        let '(f, digits, l2, post) :=
          match l1 with
          | p :: rest =>
              if decide (p = "."%char) then
                let '(f, digits, l2) := leadingFraction rest 0 0 false in (f, digits, l2, negb (len l2 =? len rest))
              else (0, 0, l1, false)
          | [] => (0, 0, l1, false)
          end in
        if negb pre && negb post then None
        else
          let '(u, rest) := take_unit l2 in
          unit ← unit_of (String.string_of_list_ascii u);
          if 2 ^ 63 / unit <? v then None
          else
            let v := v * unit in
            let v := if 0 <? f then v + fraction_of f digits unit else v in
            if 2 ^ 63 <? v then None else Some (v, rest)
  end.

(** Every turn consumes a byte, so the length of the text is enough fuel. *)
Fixpoint parse_parts (fuel : nat) (l : list ascii) (d : Z) : option Z :=
  match fuel, l with
  | _, [] => Some d
  | O, _ => None
  | S fuel, _ =>
      '(v, rest) ← parse_part l;
      if 2 ^ 63 <? d + v then None else parse_parts fuel rest (d + v)
  end.

Definition ParseDuration (s : string) : option Duration :=
  let l := String.list_ascii_of_string s in
  let '(neg, l) :=
    match l with
    | "-"%char :: l => (true, l)
    | "+"%char :: l => (false, l)
    | _ => (false, l)
    end in
  if decide (l = ["0"%char]) then Some 0
  else if decide (l = []) then None
  else
    d ← parse_parts (length l) l 0;
    if neg : bool then Some (wrap64 (- d)) else if MaxInt64 <? d then None else Some d.

Example duration_seconds : ParseDuration "30s" = Some (30 * Second).
Proof. vm_compute. reflexivity. Qed.
Example duration_parts : ParseDuration "-1h15m30.5s" = Some (- (Hour + 15 * Minute + 30 * Second + 500 * Millisecond)).
Proof. vm_compute. reflexivity. Qed.
Example duration_unit_missing : ParseDuration "30" = None.
Proof. vm_compute. reflexivity. Qed.

(** ** [hex.DecodeString] *)

Definition hex_digit (c : ascii) : option Z :=
  let n := Z.of_N (N_of_ascii c) in
  if (48 <=? n) && (n <=? 57) then Some (n - 48)
  else if (97 <=? n) && (n <=? 102) then Some (n - 87)
  else if (65 <=? n) && (n <=? 70) then Some (n - 55)
  else None.

Fixpoint hex_decode (l : list ascii) : option (list Z) :=
  match l with
  | [] => Some []
  | [_] => None
  | a :: b :: l => x ← hex_digit a; y ← hex_digit b; rest ← hex_decode l; Some (x * 16 + y :: rest)
  end.

End GoText.
