(* ===== verification/ClientRules.v ===== *)
(** * Which clients may connect ([internal/config/client_rules.go],
      [internal/nfs/allowlist.go])

    The rules are networks in CIDR notation or single addresses.  [net.ParseIP],
    [net.ParseCIDR] and [IPNet.Contains] are modelled as the packages [net] and
    [net/netip] define them; an address is its bytes, four or sixteen. *)
From Stdlib Require Import Ascii.
From S2P Require Import Prelude Runes GoText.

Module ClientRules.
Import GoText.

(** ** [net/netip] *)

Abbreviation IP := (list Z) (only parsing).

(** [parseIPv4Fields] on four fields: decimal, no leading zero, below 256. *)
Fixpoint ipv4_field (l : list ascii) (val : Z) (digits : Z) : option Z :=
  match l with
  | [] => if digits =? 0 then None else Some val
  | c :: l =>
      if negb (is_digit c) then None
      else if (digits =? 1) && (val =? 0) then None
      else let val := val * 10 + digit c in if 255 <? val then None else ipv4_field l val (digits + 1)
  end.

Definition parse_ipv4 (s : string) : option IP :=
  match Split s "."%char with
  | [a; b; c; d] => mapM (fun f => ipv4_field (String.list_ascii_of_string f) 0 0) [a; b; c; d]
  | _ => None
  end.

(** The hex digits a group of [parseIPv6] begins with, at most four. *)
Fixpoint hex_group (l : list ascii) (acc : Z) (off : Z) : option (Z * Z * list ascii) :=
  match l with
  | c :: rest =>
      match hex_digit c with
      | Some d => if 3 <? off then None else hex_group rest (acc * 16 + d) (off + 1)
      | None => Some (acc, off, l)
      end
  | [] => Some (acc, off, l)
  end.

(** The loop of [parseIPv6]: the bytes so far, where the ellipsis was, and what is
    left when the loop ends.  A turn reads two bytes of the address, so eight
    turns are enough. *)
Fixpoint ipv6_loop (fuel : nat) (l : list ascii) (ip : IP) (ellipsis : option Z) : option (list ascii * IP * option Z) :=
  match fuel with
  | O => Some (l, ip, ellipsis)
  | S fuel =>
      '(acc, off, rest) ← hex_group l 0 0;
      if off =? 0 then None
      else
        let ip2 := ip ++ [acc / 256; acc mod 256] in
        match rest with
        | [] => Some ([], ip2, ellipsis)
        | c :: more =>
            if decide (c = "."%char) then
              if (bool_decide (ellipsis = None) && negb (len ip =? 12)) || (12 <? len ip) then None
              else v4 ← parse_ipv4 (String.string_of_list_ascii l); Some ([], ip ++ v4, ellipsis)
            else if decide (c = ":"%char) then
              match more with
              | [] => None
              | d :: more' =>
                  if decide (d = ":"%char) then
                    if bool_decide (ellipsis <> None) then None
                    else if bool_decide (more' = []) then Some ([], ip2, Some (len ip2))
                    else ipv6_loop fuel more' ip2 (Some (len ip2))
                  else ipv6_loop fuel more ip2 ellipsis
              end
            else None
        end
  end.

(** The zeros an ellipsis stands for. *)
Definition expand (ip : IP) (ellipsis : option Z) : option IP :=
  match ellipsis with
  | None => if len ip =? 16 then Some ip else None
  | Some k =>
      if len ip =? 16 then None
      else Some (take (Z.to_nat k) ip ++ replicate (16 - length ip) 0 ++ drop (Z.to_nat k) ip)
  end.

Definition parse_ipv6 (s : string) : option IP :=
  match String.list_ascii_of_string s with
  | ":"%char :: ":"%char :: [] => Some (replicate 16 0)
  | ":"%char :: ":"%char :: l =>
      '(rest, ip, e) ← ipv6_loop 8 l [] (Some 0); if bool_decide (rest = []) then expand ip e else None
  | l => '(rest, ip, e) ← ipv6_loop 8 l [] None; if bool_decide (rest = []) then expand ip e else None
  end.

(** [netip.ParseAddr] without a zone: the first [.], [:] or [%] decides. *)
Fixpoint address_kind (l : list ascii) : option ascii :=
  match l with
  | [] => None
  | c :: l => if bool_decide (c ∈ ["."; ":"; "%"]%char) then Some c else address_kind l
  end.

Definition ParseAddr (s : string) : option IP :=
  match address_kind (String.list_ascii_of_string s) with
  | Some "."%char => parse_ipv4 s
  | Some ":"%char => parse_ipv6 s
  | _ => None
  end.

(** ** [net] *)

Definition v4InV6Prefix : IP := replicate 10 0 ++ [255; 255].

(** [IP.To4]: four bytes, or sixteen that stand for four. *)
Definition To4 (ip : IP) : option IP :=
  if len ip =? 4 then Some ip
  else if (len ip =? 16) && bool_decide (take 12 ip = v4InV6Prefix) then Some (drop 12 ip)
  else None.

(** [ParseIP] answers in sixteen bytes. *)
Definition To16 (ip : IP) : IP := if len ip =? 4 then v4InV6Prefix ++ ip else ip.
Definition ParseIP (s : string) : option IP := To16 <$> ParseAddr s.

(** [CIDRMask]: the first [ones] of [bits] bits. *)
Definition mask_byte (ones : Z) : Z :=
  let k := Z.max 0 (Z.min 8 ones) in 256 - 2 ^ (8 - k).
Definition CIDRMask (ones bits : Z) : list Z :=
  (fun i => mask_byte (ones - 8 * i)) <$> seqZ 0 (bits / 8).

Record IPNet := mkIPNet { net_IP : IP; net_Mask : list Z }.

Definition and_bytes (a b : list Z) : list Z := zip_with Z.land a b.

(** [ParseCIDR]'s network: the prefix length is decimal and fits the address,
    which four bytes have when it was written with dots alone. *)
Definition ParseCIDR (s : string) : option IPNet :=
  '(addr, mask) ← Cut s "/"%char;
  ip ← ParseAddr addr;
  '(n, rest) ← leadingInt (String.list_ascii_of_string mask) 0;
  if bool_decide (mask = "") || negb (bool_decide (rest = [])) || (8 * len ip <? n) then None
  else let m := CIDRMask n (8 * len ip) in Some (mkIPNet (and_bytes ip m) m).

(** [IPNet.Contains]. *)
Definition Contains (n : IPNet) (ip : IP) : bool :=
  let ip := default ip (To4 ip) in
  let nn := default (net_IP n) (To4 (net_IP n)) in
  let m := if (len nn =? 4) && (len (net_Mask n) =? 16) then drop 12 (net_Mask n) else net_Mask n in
  (len ip =? len nn) && bool_decide (and_bytes nn m = and_bytes ip m).

(** ** The rules *)

Definition ParseClientRule (rule : string) : option IPNet :=
  let rule := TrimSpace rule in
  if bool_decide (rule = "") then None
  else if Prelude.Contains rule "/" then ParseCIDR rule
  else
    ip ← ParseIP rule;
    match To4 ip with
    | Some ip => Some (mkIPNet ip (CIDRMask 32 32))
    | None => Some (mkIPNet ip (CIDRMask 128 128))
    end.

Definition ParseClientRules (rules : list string) : option (list IPNet) := mapM ParseClientRule rules.

(** [None] is the nil filter, which lets everyone in. *)
Definition ClientFilter : Type := option (list IPNet).

Definition NewClientFilter (rules : list string) : option ClientFilter :=
  if bool_decide (rules = []) then Some None
  else Some <$> ParseClientRules rules.

(** [Allowed]: [addr] is the address of a TCP connection, if it has one. *)
Definition Allowed (f : ClientFilter) (addr : option IP) : bool :=
  match f with
  | None => true
  | Some networks =>
      match addr with
      | None => false
      | Some ip => existsb (fun n => Contains n ip) networks
      end
  end.

(** [filteredListener.Accept] on the connections that arrive: those turned away,
    and the one served, if any. *)
Fixpoint Accept (f : ClientFilter) (conns : list (option IP)) : list (option IP) * option (option IP) :=
  match conns with
  | [] => ([], None)
  | c :: conns => if Allowed f c then ([], Some c) else let '(closed, served) := Accept f conns in (c :: closed, served)
  end.

Example parse_full : ParseIP "fd00::1:2" = Some [253; 0; 0; 0; 0; 0; 0; 0; 0; 0; 0; 0; 0; 1; 0; 2].
Proof. vm_compute. reflexivity. Qed.
Example parse_embedded : ParseIP "::ffff:10.0.1.5" = ParseIP "10.0.1.5".
Proof. vm_compute. reflexivity. Qed.
Example parse_leading_zero : ParseIP "10.0.01.5" = None.
Proof. vm_compute. reflexivity. Qed.
Example rule_parsed : ParseClientRule " 10.0.1.77/24 " = Some (mkIPNet [10; 0; 1; 0] [255; 255; 255; 0]).
Proof. vm_compute. reflexivity. Qed.
Example filter_24 :
  (f ← NewClientFilter ["10.0.1.0/24"]; Some (Allowed f (ParseIP "10.0.1.9"), Allowed f (ParseIP "10.0.2.9"))) = Some (true, false).
Proof. vm_compute. reflexivity. Qed.

(** ** Networks as prefixes

    An address as one number, and its first [n] bits. *)

Definition number (ip : IP) : Z := foldl (fun n b => n * 256 + b) 0 ip.
Definition prefix_of (ip : IP) (n : Z) : Z := number ip / 2 ^ (8 * len ip - n).

Definition is_byte (b : Z) : Prop := 0 <= b < 256.
Definition is_IP (ip : IP) : Prop := Forall is_byte ip /\ (len ip = 4 \/ len ip = 16).

Lemma foldl_number l a : foldl (fun n b => n * 256 + b) a l = a * 256 ^ len l + number l.
Proof.
  unfold number. revert a. induction l as [|b l IH]; intros a; [simpl; lia|]. cbn [foldl length].
  rewrite (IH (a * 256 + b)), (IH (0 * 256 + b)), Nat2Z.inj_succ, Z.pow_succ_r by lia. lia.
Qed.

Lemma number_cons b l : number (b :: l) = b * 256 ^ len l + number l.
Proof. apply (foldl_number l b). Qed.

Lemma number_app a b : number (a ++ b) = number a * 256 ^ len b + number b.
Proof. unfold number at 1. rewrite foldl_app. apply foldl_number. Qed.

Lemma number_bound l : Forall is_byte l -> 0 <= number l < 256 ^ len l.
Proof.
  induction 1 as [|b l Hb _ IH]; [done|]. rewrite number_cons. simpl. rewrite Nat2Z.inj_succ, Z.pow_succ_r by lia.
  unfold is_byte in Hb. nia.
Qed.

Lemma pow256 n : 0 <= n -> 256 ^ n = 2 ^ (8 * n).
Proof. intros. rewrite Z.pow_mul_r by lia. done. Qed.

(** Leading digits decide: two numbers with their low parts in range are equal
    after a shift within the low part exactly when both parts are. *)
Lemma shifted_parts h l k w : 0 <= l < 2 ^ w -> 0 <= k <= w -> (h * 2 ^ w + l) / 2 ^ k = h * 2 ^ (w - k) + l / 2 ^ k.
Proof.
  intros Hl Hk. rewrite <-(Z.sub_add k w) at 1. rewrite Z.pow_add_r by lia.
  replace (h * (2 ^ (w - k) * 2 ^ k) + l) with (h * 2 ^ (w - k) * 2 ^ k + l) by lia. apply Z.div_add_l. lia.
Qed.

Lemma parts_eq h h' l l' k w : 0 <= l < 2 ^ w -> 0 <= l' < 2 ^ w -> 0 <= k <= w ->
  (h * 2 ^ w + l) / 2 ^ k = (h' * 2 ^ w + l') / 2 ^ k <-> h = h' /\ l / 2 ^ k = l' / 2 ^ k.
Proof.
  intros Hl Hl' Hk. rewrite !shifted_parts by done.
  assert (Hb : forall x, 0 <= x < 2 ^ w -> 0 <= x / 2 ^ k < 2 ^ (w - k)).
  { intros x Hx. split; [apply Z.div_pos; lia|]. apply Z.div_lt_upper_bound; [lia|].
    rewrite <-Z.pow_add_r by lia. replace (k + (w - k)) with w by lia. lia. }
  pose proof (Hb l Hl). pose proof (Hb l' Hl'). split; [|intros [-> ->]; done]. intros E.
  assert (h = h') as ->; [|split; [done|lia]]. apply (f_equal (fun x => x / 2 ^ (w - k))) in E.
  rewrite !Z.div_add_l, !(Z.div_small _ (2 ^ (w - k))) in E by lia. lia.
Qed.

Lemma number_inj a b : Forall is_byte a -> Forall is_byte b -> length a = length b -> number a = number b -> a = b.
Proof.
  intros Ha. revert b. induction Ha as [|x a Hx Ha IH]; intros [|y b] Hb; try done. apply Forall_cons in Hb as [Hy Hb].
  simpl. intros [= Hlen]. rewrite !number_cons, Hlen. intros E.
  pose proof (number_bound a Ha). pose proof (number_bound b Hb). rewrite Hlen in *.
  assert (x = y) as -> by nia. f_equal. apply IH; [done|done|lia].
Qed.

(** *** Masks *)

Lemma CIDRMask_cons n k : 0 <= k -> CIDRMask n (8 * (1 + k)) = mask_byte n :: CIDRMask (n - 8) (8 * k).
Proof.
  intros Hk. unfold CIDRMask. rewrite !(Z.mul_comm 8), !Z.div_mul by lia. rewrite seqZ_cons by lia.
  replace (Z.pred (1 + k)) with k by lia. rewrite fmap_cons. replace (n - 8 * 0) with n by lia. f_equal.
  replace (Z.succ 0) with (1 + 0) by lia. rewrite <-(fmap_add_seqZ 1 0 k), <-list_fmap_compose. apply list_fmap_ext.
  intros _ i _. simpl. f_equal. lia.
Qed.

Lemma len_CIDRMask n k : 0 <= k -> len (CIDRMask n (8 * k)) = k.
Proof. intros. unfold CIDRMask. rewrite length_fmap, length_seqZ, Z.mul_comm, Z.div_mul by lia. lia. Qed.

Lemma len_mask128 n : len (CIDRMask n 128) = 16.
Proof. exact (len_CIDRMask n 16 ltac:(lia)). Qed.
Lemma len_mask32 n : len (CIDRMask n 32) = 4.
Proof. exact (len_CIDRMask n 4 ltac:(lia)). Qed.

(** The masked byte keeps the first bits of the byte. *)
Lemma mask_byte_land x n : is_byte x ->
  Z.land x (mask_byte n) = x / 2 ^ (8 - Z.max 0 (Z.min 8 n)) * 2 ^ (8 - Z.max 0 (Z.min 8 n)).
Proof.
  intros Hx. unfold mask_byte. set (j := 8 - Z.max 0 (Z.min 8 n)). assert (0 <= j <= 8) as Hj by lia. clearbody j. clear n.
  rewrite <-Z.shiftr_div_pow2, <-Z.shiftl_mul_pow2, <-Z.ldiff_ones_r by lia.
  replace (256 - 2 ^ j) with (Z.ldiff 255 (Z.ones j)).
  2: { rewrite Z.ldiff_ones_r, Z.shiftr_div_pow2, Z.shiftl_mul_pow2 by lia.
       assert (j = 0 \/ j = 1 \/ j = 2 \/ j = 3 \/ j = 4 \/ j = 5 \/ j = 6 \/ j = 7 \/ j = 8) as Hc by lia.
       destruct Hc as [->|[->|[->|[->|[->|[->|[->|[->| ->]]]]]]]]; reflexivity. }
  apply Z.bits_inj'. intros i Hi. rewrite Z.land_spec, !Z.ldiff_spec. destruct (decide (i < 8)) as [Hi8|Hi8].
  - change 255 with (Z.ones 8). rewrite Z.ones_spec_low by lia. done.
  - assert (Z.testbit x i = false) as ->; [|done].
    destruct (decide (x = 0)) as [->|]; [by rewrite Z.bits_0|]. apply Z.bits_above_log2; [by destruct Hx|].
    apply Z.lt_le_trans with 8; [|lia]. apply Z.log2_lt_pow2; unfold is_byte in Hx; lia.
Qed.

Lemma masked_eq a b n : Forall is_byte a -> Forall is_byte b -> length a = length b -> n <= 8 * len a ->
  and_bytes a (CIDRMask n (8 * len a)) = and_bytes b (CIDRMask n (8 * len a)) <->
  (0 < n -> number a / 2 ^ (8 * len a - n) = number b / 2 ^ (8 * len a - n)).
Proof.
  intros Ha. revert b n. induction Ha as [|x a Hx Ha IH]; intros [|y b] n Hb Hlen Hn; try done.
  apply Forall_cons in Hb as [Hy Hb]. simpl in Hlen. injection Hlen as Hlen.
  assert (Hla : len (x :: a) = 1 + len a) by (simpl; lia). rewrite Hla in *. rewrite CIDRMask_cons by lia. unfold and_bytes. cbn [zip_with].
  fold (and_bytes a (CIDRMask (n - 8) (8 * len a))). fold (and_bytes b (CIDRMask (n - 8) (8 * len a))).
  pose proof (number_bound a Ha) as Hna. pose proof (number_bound b Hb) as Hnb. rewrite <-Hlen in Hnb.
  rewrite pow256 in Hna, Hnb by lia. rewrite !number_cons, <-Hlen, pow256 by lia.
  transitivity (Z.land x (mask_byte n) = Z.land y (mask_byte n) /\
    and_bytes a (CIDRMask (n - 8) (8 * len a)) = and_bytes b (CIDRMask (n - 8) (8 * len a))).
  { split; [by intros [= -> ->]|by intros [-> ->]]. }
  rewrite IH by (done || lia). rewrite !mask_byte_land by done. destruct (decide (8 <= n)) as [H8|H8].
  - replace (8 - Z.max 0 (Z.min 8 n)) with 0 by lia. rewrite !Z.mul_1_r, !Z.div_1_r.
    replace (8 * (1 + len a) - n) with (8 * len a - (n - 8)) by lia.
    destruct (decide (n = 8)) as [->|].
    + rewrite Z.sub_diag, Z.sub_0_r. split.
      * intros [-> _] _. rewrite !Z.div_add_l, !Z.div_small by lia. done.
      * intros E. specialize (E ltac:(lia)). rewrite !Z.div_add_l, !Z.div_small in E by lia. split; [lia|lia].
    + rewrite parts_eq by lia. split; [intros [-> E] _; split; [done|apply E; lia]|].
      intros E. destruct E as [-> E]; [lia|]. split; [done|]. intros _. exact E.
  - set (j := 8 - Z.max 0 (Z.min 8 n)). replace (8 * (1 + len a) - n) with (8 - n + 8 * len a) by lia.
    destruct (decide (n <= 0)) as [H0|H0].
    + replace j with 8 by lia. change (2 ^ 8) with 256. rewrite !Z.div_small by done. split; [lia|]. intros _. split; [done|lia].
    + replace j with (8 - n) by lia. rewrite Z.pow_add_r, !(Z.mul_comm (2 ^ (8 - n)) (2 ^ (8 * len a))), <-!Z.div_div by lia.
      rewrite !Z.div_add_l by lia. rewrite !(Z.div_small _ (2 ^ (8 * len a))), !Z.add_0_r by lia. split; [intros [E _] _; apply Z.mul_reg_r in E; [done|lia]|].
      intros E. rewrite E by lia. split; [done|lia].
Qed.

Lemma and_bytes_idem a m : and_bytes (and_bytes a m) m = and_bytes a m.
Proof.
  unfold and_bytes. revert m. induction a as [|x a IH]; intros [|y m]; [done..|]. cbn [zip_with]. f_equal; [|apply IH].
  by rewrite <-Z.land_assoc, Z.land_diag.
Qed.

Lemma masked_prefix a b n : Forall is_byte a -> Forall is_byte b -> length a = length b -> 0 <= n <= 8 * len a ->
  and_bytes a (CIDRMask n (8 * len a)) = and_bytes b (CIDRMask n (8 * len a)) <-> prefix_of a n = prefix_of b n.
Proof.
  intros Ha Hb Hlen Hn. rewrite masked_eq by (done || lia). unfold prefix_of. rewrite <-Hlen.
  destruct (decide (n = 0)) as [->|]; [|split; [intros E; apply E; lia|done]]. split; [intros _|lia].
  pose proof (number_bound a Ha). pose proof (number_bound b Hb). rewrite <-Hlen in *. rewrite pow256 in * by lia.
  rewrite Z.sub_0_r, !Z.div_small by lia. done.
Qed.

(** A prefix longer than the head decides the head. *)
Lemma prefix_app h h' a b n : Forall is_byte h -> Forall is_byte h' -> Forall is_byte a -> Forall is_byte b ->
  length h = length h' -> length a = length b -> 0 <= n <= 8 * len a ->
  prefix_of (h ++ a) (n + 8 * len h) = prefix_of (h' ++ b) (n + 8 * len h) <-> h = h' /\ prefix_of a n = prefix_of b n.
Proof.
  intros Hh Hh' Ha Hb Hl Hl' Hn. unfold prefix_of. rewrite !number_app, !length_app, <-Hl, <-Hl', !Nat2Z.inj_add.
  replace (8 * (len h + len a) - (n + 8 * len h)) with (8 * len a - n) by lia.
  pose proof (number_bound a Ha). pose proof (number_bound b Hb). rewrite <-Hl' in *. rewrite pow256 in * by lia.
  rewrite parts_eq by lia. split; [|by intros [-> ->]]. intros [E ?]. split; [by apply number_inj|done].
Qed.

(** *** Addresses of four bytes inside sixteen *)

Definition high_mask (n : Z) : list Z := (fun i => mask_byte (n - 8 * i)) <$> seqZ 0 12.

Lemma mask128 n : CIDRMask n 128 = high_mask n ++ CIDRMask (n - 96) 32.
Proof.
  unfold CIDRMask, high_mask. change (128 / 8) with (12 + 4). change (32 / 8) with 4. rewrite seqZ_app, fmap_app by lia. f_equal.
  rewrite <-(fmap_add_seqZ (0 + 12) 0 4), <-list_fmap_compose at 1. apply list_fmap_ext. intros _ i _. simpl. f_equal. lia.
Qed.

Lemma high_full n : 96 <= n -> high_mask n = replicate 12 255.
Proof.
  intros Hn. apply list_eq_same_length with 12%nat; [done|done|]. intros i x y Hi Hx Hy.
  apply lookup_replicate in Hy as [-> _]. apply list_lookup_fmap_Some in Hx as (j & -> & Hj%lookup_seqZ).
  unfold mask_byte. by replace (Z.max 0 _) with 8 by lia.
Qed.

Lemma and_full l k : Forall is_byte l -> length l = k -> and_bytes l (replicate k 255) = l.
Proof.
  intros Hl <-. induction Hl as [|x l Hx _ IH]; [done|]. unfold and_bytes in *. cbn [length replicate zip_with]. rewrite IH. f_equal.
  change 255 with (Z.ones 8). rewrite Z.land_ones by lia. apply Z.mod_small. exact Hx.
Qed.

Lemma masked_v4 h n : Forall is_byte h -> length h = 12%nat ->
  and_bytes h (high_mask n) = v4InV6Prefix <-> 96 <= n /\ h = v4InV6Prefix.
Proof.
  intros Hh Hl. split.
  - intros E. assert (Hn : 96 <= n); [|split; [done|]; by rewrite <-(and_full h 12), <-(high_full n), E by done].
    destruct (lookup_lt_is_Some_2 h 11) as [x Hx]; [lia|]. apply (f_equal (.!! 11%nat)) in E.
    unfold and_bytes in E. rewrite lookup_zip_with, Hx in E. simpl in E. injection E as E.
    rewrite mask_byte_land in E by (by eapply Forall_lookup_1 in Hx).
    destruct (decide (96 <= n)) as [|Hn]; [done|exfalso].
    set (j := 8 - _) in E. assert (1 <= j) by lia. replace j with (1 + (j - 1)) in E at 2 by lia. rewrite Z.pow_add_r in E by lia. lia.
  - intros [Hn ->]. by rewrite high_full, and_full by (done || (repeat constructor; done)).
Qed.

Lemma To4_v4 ip : len ip = 4 -> To4 ip = Some ip.
Proof. intros H. unfold To4. by rewrite H. Qed.

Lemma To4_16 h b : length h = 12%nat -> length b = 4%nat -> To4 (h ++ b) = if bool_decide (h = v4InV6Prefix) then Some b else None.
Proof.
  intros Hh Hb. unfold To4. rewrite length_app, Hh, Hb. cbn -[take drop v4InV6Prefix]. rewrite take_app_length', drop_app_length' by done. done.
Qed.

(** Sixteen bytes as the twelve that tell the family, and four. *)
Lemma halves ip : is_IP ip -> len ip = 16 -> exists h b, ip = h ++ b /\ length h = 12%nat /\ length b = 4%nat /\ Forall is_byte h /\ Forall is_byte b.
Proof.
  intros [Hb _] Hl. exists (take 12 ip), (drop 12 ip). rewrite take_drop, length_take, length_drop.
  split_and!; [done|lia|lia|by apply Forall_take|by apply Forall_drop].
Qed.

Lemma v4_bytes : Forall is_byte v4InV6Prefix.
Proof. repeat constructor; done. Qed.
#[local] Hint Resolve v4_bytes : core.

(** *** The rules *)

(** What a network of [n] bits of [b] contains, in sixteen bytes: the addresses
    that share its first bits, except that one of four bytes is in no network
    wider than those. *)
Definition matches (base : IP) (n : Z) (x : IP) : Prop :=
  prefix_of base n = prefix_of (To16 x) n /\ (96 <= n \/ To4 x = None).

Definition network (b : IP) (n : Z) : IPNet :=
  mkIPNet (and_bytes b (CIDRMask n (8 * len b))) (CIDRMask n (8 * len b)).

(** A client's address, as [Contains] looks at it. *)
Lemma family x : is_IP x ->
  (exists y, To4 x = Some y /\ To16 x = v4InV6Prefix ++ y /\ length y = 4%nat /\ Forall is_byte y) \/
  (exists h b, To4 x = None /\ To16 x = h ++ b /\ x = h ++ b /\ h <> v4InV6Prefix /\
     length h = 12%nat /\ length b = 4%nat /\ Forall is_byte h /\ Forall is_byte b).
Proof.
  intros Hx. pose proof Hx as [Hb [Hl|Hl]].
  - left. exists x. rewrite To4_v4 by done. unfold To16. rewrite Hl. split_and!; [done|done|lia|done].
  - destruct (halves x Hx Hl) as (h & b & -> & Hh & Hb' & ? & ?). unfold To16. rewrite Hl. rewrite To4_16 by done.
    case_bool_decide as E; [left; exists b; by subst|right; exists h, b; done].
Qed.

Lemma prefix_head_v4 h b y n : length h = 12%nat -> length b = 4%nat -> length y = 4%nat ->
  Forall is_byte h -> Forall is_byte b -> Forall is_byte y -> 0 <= n <= 32 ->
  prefix_of (v4InV6Prefix ++ y) (n + 96) = prefix_of (h ++ b) (n + 96) <-> v4InV6Prefix = h /\ prefix_of y n = prefix_of b n.
Proof.
  intros. rewrite <-prefix_app by (done || (simpl; lia)). done.
Qed.

Lemma contains_v4 b n x : length b = 4%nat -> Forall is_byte b -> 0 <= n <= 32 -> is_IP x ->
  Contains (network b n) x = true <-> matches (v4InV6Prefix ++ b) (n + 96) x.
Proof.
  intros Hl Hb Hn Hx. unfold Contains, network. cbn [net_IP net_Mask].
  assert (Hm : length (and_bytes b (CIDRMask n (8 * len b))) = 4%nat).
  { unfold and_bytes. rewrite length_zip_with. pose proof (len_CIDRMask n (len b) ltac:(lia)). lia. }
  rewrite (To4_v4 (and_bytes _ _)) by lia. cbn [from_option id]. rewrite Hm.
  pose proof (len_CIDRMask n (len b) ltac:(lia)) as Hk. rewrite Hk, Hl.
  replace ((Z.of_nat 4 =? 4) && (Z.of_nat 4 =? 16)) with false by done. rewrite and_bytes_idem, andb_true_iff, bool_decide_eq_true.
  unfold matches. destruct (family x Hx) as [(y & -> & -> & Hy & ?)|(h & b' & -> & -> & -> & Hh & ? & ? & ? & ?)]; cbn [from_option id].
  - rewrite Hy, <-Hl, masked_prefix by (done || lia). rewrite prefix_head_v4 by done. split; [intros [_ ?]; split; [done|lia]|].
    intros [[_ ?] _]. split; [lia|done].
  - rewrite length_app. split; [intros [Hq%Z.eqb_eq _]; exfalso; lia|]. rewrite prefix_head_v4 by done. intros [[<- _] _]. done.
Qed.

Lemma contains_v6 h b n x : length h = 12%nat -> length b = 4%nat -> Forall is_byte h -> Forall is_byte b -> 0 <= n <= 128 -> is_IP x ->
  Contains (network (h ++ b) n) x = true <-> matches (h ++ b) n x.
Proof.
  intros Hh Hb Hbh Hbb Hn Hx.
  assert (Hl : len (h ++ b) = 16) by (rewrite length_app; lia).
  assert (Hmask : and_bytes (h ++ b) (CIDRMask n 128) = and_bytes h (high_mask n) ++ and_bytes b (CIDRMask (n - 96) 32)).
  { rewrite mask128. unfold and_bytes. by rewrite zip_with_app. }
  destruct (decide (96 <= n /\ h = v4InV6Prefix)) as [[Hn96 ->]|Hno].
  - (* a network of addresses of four bytes *)
    replace n with (n - 96 + 96) at 2 by lia. rewrite <-(contains_v4 b (n - 96) x) by (done || lia).
    unfold Contains, network. cbn [net_IP net_Mask]. rewrite Hl. change (8 * 16) with 128. rewrite Hmask.
    rewrite high_full, and_full by done.
    assert (Hm : length (and_bytes b (CIDRMask (n - 96) 32)) = 4%nat).
    { unfold and_bytes. rewrite length_zip_with. pose proof (len_mask32 (n - 96)). lia. }
    rewrite To4_16, bool_decide_eq_true_2 by done. rewrite Hb. change (8 * Z.of_nat 4) with 32. rewrite (To4_v4 (and_bytes b _)) by lia. cbn [from_option id]. rewrite Hm.
    rewrite len_mask128, len_mask32. cbn [andb Z.of_nat Pos.of_succ_nat Pos.succ Z.eqb Pos.eqb]. rewrite mask128, drop_app_length' by done. done.
  - assert (Hv4 : To4 (and_bytes (h ++ b) (CIDRMask n 128)) = None).
    { rewrite Hmask, To4_16; [|unfold and_bytes; rewrite length_zip_with; simpl; lia|].
      - rewrite bool_decide_eq_false_2; [done|]. by rewrite masked_v4.
      - unfold and_bytes. rewrite length_zip_with. pose proof (len_mask32 (n - 96)). lia. }
    assert (Hlm : len (and_bytes (h ++ b) (CIDRMask n 128)) = 16).
    { unfold and_bytes. rewrite length_zip_with. pose proof (len_mask128 n). lia. }
    unfold Contains, network. cbn [net_IP net_Mask]. rewrite Hl. change (8 * 16) with 128. rewrite Hv4. cbn [from_option id]. rewrite Hlm.
    cbn [Z.eqb andb]. rewrite and_bytes_idem, andb_true_iff, bool_decide_eq_true. unfold matches.
    destruct (family x Hx) as [(y & -> & -> & Hy & ?)|(h' & b' & -> & -> & -> & Hh' & ? & ? & ? & ?)]; cbn [from_option id].
    + split; [intros [Hq%Z.eqb_eq _]; exfalso; lia|]. intros [E [?|?]]; [|done]. destruct Hno. split; [done|].
      symmetry in E. replace n with (n - 96 + 96) in E by lia. apply prefix_head_v4 in E as [? _]; try done. lia.
    + pose proof (masked_prefix (h ++ b) (h' ++ b') n) as Hm. rewrite Hl in Hm. rewrite <-Hm;
        [|by apply Forall_app|by apply Forall_app|rewrite !length_app; lia|lia].
      split; [intros [_ ?]; split; [done|by right]|]. intros [? _]. split; [apply Z.eqb_eq; rewrite length_app; lia|done].
Qed.

(** *** What is parsed is an address *)

Lemma digit_range c : is_digit c = true -> 0 <= digit c < 10.
Proof. unfold is_digit, digit. rewrite andb_true_iff, !Z.leb_le. lia. Qed.

Lemma ipv4_field_byte l v k x : ipv4_field l v k = Some x -> is_byte v -> is_byte x.
Proof.
  revert v k. induction l as [|c l IH]; intros v k; simpl; [case_match; by intros [= <-]|].
  destruct (is_digit c) eqn:Hc; [|done]. apply digit_range in Hc. cbn [negb]. destruct (_ && _); [done|].
  destruct (255 <? _) eqn:E; [done|]. intros H Hv. apply Z.ltb_ge in E. eapply IH; [exact H|]. unfold is_byte in *. lia.
Qed.

Lemma parse_ipv4_IP s ip : parse_ipv4 s = Some ip -> Forall is_byte ip /\ length ip = 4%nat.
Proof.
  unfold parse_ipv4. destruct (Split s _) as [|a [|b [|c [|d [|]]]]]; try done. intros H%mapM_Some. split.
  - clear s. induction H as [|f x fs xs Hx _ IH]; [done|]. constructor; [|exact IH].
    eapply ipv4_field_byte; [exact Hx|]. unfold is_byte. lia.
  - by apply Forall2_length in H.
Qed.

Lemma hex_digit_range c d : hex_digit c = Some d -> 0 <= d < 16.
Proof. unfold hex_digit. repeat case_match; intros [= <-]; bool_to_prop; lia. Qed.

Lemma hex_group_range l acc off acc' off' rest :
  hex_group l acc off = Some (acc', off', rest) -> 0 <= off <= 4 -> 0 <= acc < 16 ^ off -> 0 <= acc' < 65536.
Proof.
  revert acc off. induction l as [|c l IH]; intros acc off; simpl.
  - intros [= <- <- <-] Ho Ha. split; [lia|]. apply Z.lt_le_trans with (16 ^ off); [lia|].
    change 65536 with (16 ^ 4). apply Z.pow_le_mono_r; lia.
  - destruct (hex_digit c) as [d|] eqn:Hd.
    + apply hex_digit_range in Hd. destruct (3 <? off) eqn:E; [done|]. apply Z.ltb_ge in E. intros H Ho Ha.
      eapply IH; [exact H|lia|]. rewrite Z.pow_add_r by lia. change (16 ^ 1) with 16. lia.
    + intros [= <- <- <-] Ho Ha. split; [lia|]. apply Z.lt_le_trans with (16 ^ off); [lia|].
      change 65536 with (16 ^ 4). apply Z.pow_le_mono_r; lia.
Qed.

Lemma group_bytes acc : 0 <= acc < 65536 -> Forall is_byte [acc / 256; acc mod 256].
Proof.
  intros H. repeat constructor; unfold is_byte; try apply Z.mod_pos_bound; try apply Z.div_pos; try lia.
  apply Z.div_lt_upper_bound; lia.
Qed.

Lemma ipv6_loop_IP fuel l ip e l' ip' e' :
  ipv6_loop fuel l ip e = Some (l', ip', e') -> Forall is_byte ip -> (length ip + 2 * fuel <= 16)%nat ->
  Forall is_byte ip' /\ (length ip' <= 16)%nat.
Proof.
  revert l ip e. induction fuel as [|fuel IH]; intros l ip e; simpl; [intros [= <- <- <-]; split; [done|lia]|].
  destruct (hex_group l 0 0) as [[[acc off] rest]|] eqn:Hg; simpl; [|done].
  apply hex_group_range in Hg; [|lia|done]. apply group_bytes in Hg. destruct (off =? 0); [done|]. intros H Hip Hl.
  set (ip2 := ip ++ [acc / 256; acc mod 256]) in *.
  assert (Hend : Forall is_byte ip2 /\ (length ip2 + 2 * fuel <= 16)%nat).
  { subst ip2. split; [by apply Forall_app|rewrite length_app; simpl; lia]. }
  assert (Hgo : forall l2 e2, ipv6_loop fuel l2 ip2 e2 = Some (l', ip', e') -> Forall is_byte ip' /\ (length ip' <= 16)%nat).
  { intros l2 e2 H2. eapply IH; [exact H2|by destruct Hend..]. }
  assert (Hend2 : Forall is_byte ip2 /\ (length ip2 <= 16)%nat) by (destruct Hend; split; [done|lia]).
  destruct rest as [|c more]; [by injection H as <- <- <-|]. case_decide.
  - destruct (_ || _) eqn:Ec; [done|]. destruct (parse_ipv4 _) as [v4|] eqn:E4; simpl in H; [|done]. injection H as <- <- <-.
    apply parse_ipv4_IP in E4 as [Hb Hlen]. apply orb_false_iff in Ec as [_ Ec%Z.ltb_ge]. split; [by apply Forall_app|].
    rewrite length_app. lia.
  - case_decide; [|done]. destruct more as [|d more']; [done|]. case_decide; [|by eapply Hgo].
    case_bool_decide; [done|]. case_bool_decide; [by injection H as <- <- <-|by eapply Hgo].
Qed.

Lemma expand_IP ip e x : expand ip e = Some x -> Forall is_byte ip -> (length ip <= 16)%nat -> Forall is_byte x /\ length x = 16%nat.
Proof.
  intros H Hb Hl. destruct e as [k|]; simpl in H; case_match; try done; bool_to_prop; injection H as <-; [|split; [done|lia]].
  split.
  - rewrite !Forall_app. split_and!; [by apply Forall_take| |by apply Forall_drop]. apply Forall_replicate. done.
  - rewrite !length_app, length_take, length_drop, length_replicate. lia.
Qed.

Lemma parse_ipv6_IP s ip : parse_ipv6 s = Some ip -> Forall is_byte ip /\ length ip = 16%nat.
Proof.
  assert (Hgo : forall l e, ('(rest, ip, e) ← ipv6_loop 8 l [] e; if bool_decide (rest = []) then expand ip e else None) = Some ip ->
    Forall is_byte ip /\ length ip = 16%nat).
  { intros l e H. destruct (ipv6_loop 8 l [] e) as [[[rest ip'] e']|] eqn:El; simpl in H; [|done]. case_bool_decide; [|done].
    apply ipv6_loop_IP in El as [? ?]; [|done|done]. by eapply expand_IP. }
  unfold parse_ipv6. intros H. repeat (case_match; simplify_eq; eauto).
  split; [apply Forall_replicate|]; done.
Qed.

Lemma ParseAddr_IP s ip : ParseAddr s = Some ip -> is_IP ip.
Proof.
  unfold ParseAddr. intros H. assert (parse_ipv4 s = Some ip \/ parse_ipv6 s = Some ip) as [E|E] by (repeat case_match; auto; done).
  - apply parse_ipv4_IP in E as [? E]. split; [done|left; lia].
  - apply parse_ipv6_IP in E as [? E]. split; [done|right; lia].
Qed.

(** The network a rule writes down: an address in sixteen bytes, and how many of
    its bits count, all of them when the rule is an address alone. *)
Definition rule_network (rule : string) : option (IP * Z) :=
  let rule := TrimSpace rule in
  match Cut rule "/"%char with
  | Some (addr, mask) =>
      ip ← ParseAddr addr;
      '(n, _) ← leadingInt (String.list_ascii_of_string mask) 0;
      Some (To16 ip, n + (128 - 8 * len ip))
  | None => ip ← ParseAddr rule; Some (To16 ip, 128)
  end.

Lemma Cut_None s c : Cut s c = None <-> Prelude.Contains s (String c "") = false.
Proof.
  induction s as [|x s IH]; [done|]. simpl. unfold HasPrefix. simpl. destruct (decide (x = c)) as [->|Hx].
  - by rewrite decide_True.
  - rewrite decide_False by congruence. simpl. rewrite <-IH. destruct (Cut s c) as [[a b]|]; done.
Qed.

Lemma network_contains ip n x : is_IP ip -> 0 <= n <= 8 * len ip -> is_IP x ->
  Contains (network ip n) x = true <-> matches (To16 ip) (n + (128 - 8 * len ip)) x.
Proof.
  intros Hip Hn Hx. pose proof Hip as [Hb [Hl|Hl]].
  - rewrite contains_v4 by (done || lia). unfold To16. rewrite Hl. done.
  - destruct (halves ip Hip Hl) as (h & b & -> & ? & ? & ? & ?). rewrite contains_v6 by (done || lia). unfold To16. rewrite Hl.
    change (16 =? 4) with false. cbv iota. by replace (n + (128 - 8 * 16)) with n by lia.
Qed.

Lemma whole_network ip : is_IP ip -> mkIPNet ip (CIDRMask (8 * len ip) (8 * len ip)) = network ip (8 * len ip).
Proof.
  intros [Hb Hl]. unfold network. f_equal.
  assert (CIDRMask (8 * len ip) (8 * len ip) = replicate (length ip) 255) as ->; [|by rewrite and_full].
  assert (length ip = 4%nat \/ length ip = 16%nat) as [->| ->] by lia; reflexivity.
Qed.

Lemma leadingInt_pos l x n rest : leadingInt l x = Some (n, rest) -> 0 <= x -> 0 <= n.
Proof.
  revert x. induction l as [|c l IH]; intros x; simpl; [by intros [= <- <-]|]. destruct (is_digit c) eqn:Hc; [|by intros [= <- <-]].
  apply digit_range in Hc. repeat (case_match; try done). intros Hl Hx. eapply IH; [exact Hl|lia].
Qed.

Lemma rule_contains rule net x : ParseClientRule rule = Some net -> is_IP x ->
  exists base n, rule_network rule = Some (base, n) /\ (Contains net x = true <-> matches base n x).
Proof.
  unfold ParseClientRule, rule_network. set (r := TrimSpace rule). case_bool_decide; [done|]. intros Hnet Hx.
  destruct (Prelude.Contains r "/") eqn:Hs.
  - unfold ParseCIDR in Hnet. destruct (Cut r _) as [[addr mask]|] eqn:Ec; simpl in Hnet; [|done].
    destruct (ParseAddr addr) as [ip|] eqn:Ea; simpl in *; [|done]. apply ParseAddr_IP in Ea.
    destruct (leadingInt _ 0) as [[n rest]|] eqn:El; simpl in *; [|done]. apply leadingInt_pos in El; [|lia].
    destruct (_ || (8 * len ip <? n)) eqn:Eb; [done|]. apply orb_false_iff in Eb as [_ Eb%Z.ltb_ge]. injection Hnet as <-.
    eexists _, _. split; [done|]. by apply network_contains.
  - apply Cut_None in Hs as ->. unfold ParseIP in Hnet. destruct (ParseAddr r) as [ip|] eqn:Ea; simpl in *; [|done].
    apply ParseAddr_IP in Ea. eexists _, _. split; [done|].
    assert (Hgo : forall ip', is_IP ip' -> To16 ip' = To16 ip -> net = mkIPNet ip' (CIDRMask (8 * len ip') (8 * len ip')) ->
      Contains net x = true <-> matches (To16 ip) 128 x).
    { intros ip' Hip' E ->. rewrite whole_network, network_contains, E by (done || (destruct Hip'; lia)).
      by replace (8 * len ip' + (128 - 8 * len ip')) with 128 by lia. }
    destruct (family ip Ea) as [(y & H4 & H16 & Hy & ?)|(h & b & H4 & H16 & E & Hh & ? & ? & ? & ?)].
    + rewrite H16, To4_16, bool_decide_eq_true_2 in Hnet by done. injection Hnet as <-.
      apply (Hgo y); [split; [done|left; lia]|unfold To16 at 1; by rewrite Hy, H16|by rewrite Hy].
    + rewrite H16, To4_16, bool_decide_eq_false_2 in Hnet by done. injection Hnet as <-.
      destruct Ea as [Eb El]. assert (len ip = 16) as Hl by (subst ip; rewrite length_app; lia).
      apply (Hgo ip); [done|done|]. by rewrite Hl, <-E.
Qed.

(** C32. The filter lets in exactly the clients the rules name, and everyone when
    there are no rules: an address is allowed when it shares the leading bits of a
    rule's network, all of them for a rule that is an address alone. Addresses of
    four bytes and the sixteen bytes that stand for them are the same client, and
    are in no network of fewer than the 96 bits those have in common: an IPv6
    network as wide as ::/0 names no IPv4 client. *)
Theorem allowlist_exact (rules : list string) (f : ClientFilter) (ip : IP)
    (Hf : NewClientFilter rules = Some f) (Hip : is_IP ip) :
  Allowed f (Some ip) = true <->
  rules = [] \/
  exists rule base n, rule ∈ rules /\ rule_network rule = Some (base, n) /\ matches base n ip.
Proof.
  unfold NewClientFilter in Hf. case_bool_decide as Hne.
  { injection Hf as <-. split; [by left|done]. }
  destruct (ParseClientRules rules) as [nets|] eqn:E; simpl in Hf; [|done]. injection Hf as <-. cbn [Allowed].
  apply mapM_Some in E. rewrite existsb_exists. split.
  - intros (net & Hin%list_elem_of_In & Hc). right. apply list_elem_of_lookup in Hin as [i Hi].
    destruct (Forall2_lookup_r _ _ _ _ _ E Hi) as (rule & Hr & Hp).
    destruct (rule_contains rule net ip Hp Hip) as (base & n & Hn & Hm). exists rule, base, n.
    split_and!; [by eapply list_elem_of_lookup_2|done|by apply Hm].
  - intros [?|(rule & base & n & Hin & Hn & Hm)]; [done|]. apply list_elem_of_lookup in Hin as [i Hi].
    destruct (Forall2_lookup_l _ _ _ _ _ E Hi) as (net & Hnet & Hp). exists net.
    split; [by eapply list_elem_of_In, list_elem_of_lookup_2|].
    destruct (rule_contains rule net ip Hp Hip) as (base' & n' & Hn' & Hm'). rewrite Hn in Hn'. injection Hn' as <- <-. by apply Hm'.
Qed.

Lemma allowlist_exact_witness :
  exists f, NewClientFilter ["10.0.1.0/24"; "fd00::/8"] = Some f /\ Allowed f (Some [10; 0; 1; 9]) = true.
Proof.
  eexists. split; [vm_compute; reflexivity|].
  apply (allowlist_exact ["10.0.1.0/24"; "fd00::/8"]); [vm_compute; reflexivity|split; [repeat constructor; discriminate|left; reflexivity]|].
  right. exists "10.0.1.0/24", (v4InV6Prefix ++ [10; 0; 1; 0]), 120.
  split; [apply list_elem_of_here|]. split; [vm_compute; reflexivity|]. split; [vm_compute; reflexivity|left; discriminate].
Defined.

(** A client of four bytes is in no network wider than their prefix: [::/0] does
    not let IPv4 clients in. *)
Lemma ipv6_any_excludes_ipv4 :
  (f ← NewClientFilter ["::/0"]; Some (Allowed f (Some [10; 0; 1; 9]), Allowed f (ParseIP "fd00::1"))) = Some (false, true).
Proof. vm_compute. reflexivity. Qed.

(** A connection is served only if it is allowed, and every one before it was not. *)
Lemma Accept_filters f conns closed served : Accept f conns = (closed, served) ->
  Forall (fun c => Allowed f c = false) closed /\
  match served with Some c => Allowed f c = true /\ exists rest, conns = closed ++ c :: rest | None => closed = conns end.
Proof.
  revert closed. induction conns as [|c conns IH]; intros closed; simpl; [by intros [= <- <-]|].
  destruct (Allowed f c) eqn:E; [intros [= <- <-]; split; [done|]; split; [done|by exists conns]|].
  destruct (Accept f conns) as [cl sv]. intros [= <- <-]. destruct (IH cl eq_refl) as [Hc Hs]. split; [by constructor|].
  destruct sv as [c'|]; [|by f_equal]. destruct Hs as [? [rest ->]]. split; [done|]. by exists rest.
Qed.

End ClientRules.
