(* ===== verification/Config.v ===== *)
(** * The configuration ([internal/config/config.go])

    The sections of the configuration file with their defaults, the accessors
    that parse what is kept as text, and what is read from the environment.  The
    library that reads the file gives the values the file and the environment
    set, in place of the defaults; it is not modelled. *)
From Stdlib Require Import Ascii.
From S2P Require Import Prelude Runes FoldNames GoText.

Module Config.
Import GoText FoldNames.

Definition EnvPrefix : string := "BLUESTONE".
Definition LegacyEnvPrefix : string := "NFS_GATEWAY".
Definition defaultStagingRootDir : string := "/var/staging/bluestone".
Definition legacyStagingRootDir : string := "/var/staging/nfs-gateway".

(** ** SMB *)

Record SMBKerberos := mkKerberos { Keytab : string; MaxClockSkew : string }.

Record SMBIDMap := mkIDMap { DomainSID : string; Base : Z }.

Record SMBShare := mkShare {
  Name : string;
  Path : string;
  ReadOnly : bool;
  ValidUsers : list string;
  ReadList : list string;
  WriteList : list string
}.

Definition DefaultIDMapBase : Z := 100000.
Definition DefaultMaxStreamBytes : Z := 2048.
Definition MaxStreamBytesLimit : Z := 2560.

Record SMBLimits := mkLimits {
  MaxConnections : Z;
  MaxConnectionsPerClient : Z;
  MaxSessionsPerConnection : Z;
  MaxTreesPerSession : Z;
  MaxOpensPerSession : Z;
  AuthFailures : Z;
  AuthWindow : string;
  AuthBlock : string;
  AuthMaxBlock : string
}.

Record SMBUser := mkUser {
  Username : string;
  Password : string;
  NTLMHash : string;
  UID : Z;
  GID : Z;
  Groups : list string
}.

Record SMBConfig := mkSMB {
  smb_Enabled : bool;
  Port : Z;
  ShareName : string;
  Domain : string;
  EncryptionRequired : bool;
  ConcurrentRequests : Z;
  DrainTimeout : string;
  MaxStreamBytes : Z;
  Leases : bool;
  DurableHandles : bool;
  MaxDialect : string;
  Limits : SMBLimits;
  Users : list SMBUser;
  UsersFile : string;
  Kerberos : SMBKerberos;
  IDMap : SMBIDMap;
  Shares : list SMBShare
}.

Definition Kerberos_Enabled (k : SMBKerberos) : bool := negb (bool_decide (TrimSpace (Keytab k) = "")).

Definition GetMaxClockSkew (k : SMBKerberos) : option Duration :=
  if bool_decide (TrimSpace (MaxClockSkew k) = "") then Some (5 * Minute) else ParseDuration (MaxClockSkew k).

(** [NTHashBytes]: nothing when the account uses a password. *)
Definition NTHashBytes (u : SMBUser) : option (list Z) :=
  if bool_decide (TrimSpace (NTLMHash u) = "") then Some []
  else
    hash ← hex_decode (String.list_ascii_of_string (TrimSpace (NTLMHash u)));
    if len hash =? 16 then Some hash else None.

Definition UsesPlaintextPasswords (c : SMBConfig) : list string :=
  Username <$> filter (fun u => TrimSpace (NTLMHash u) = "" /\ Password u <> "") (Users c).

Definition smbDuration (value : string) (fallback : Duration) : option Duration :=
  if bool_decide (TrimSpace value = "") then Some fallback else ParseDuration value.

Definition GetDrainTimeout (c : SMBConfig) : option Duration := smbDuration (DrainTimeout c) (30 * Second).
Definition GetAuthWindow (l : SMBLimits) : option Duration := smbDuration (AuthWindow l) (5 * Minute).
Definition GetAuthBlock (l : SMBLimits) : option Duration := smbDuration (AuthBlock l) (30 * Second).
Definition GetAuthMaxBlock (l : SMBLimits) : option Duration := smbDuration (AuthMaxBlock l) (15 * Minute).

(** ** The lease *)

Record HAConfig := mkHA {
  ha_Enabled : bool;
  HeartbeatInterval : string;
  LeaseTimeout : string;
  ForceTakeover : bool;
  OnLeaseLost : string
}.

Definition LeaseLostStop : string := "stop".
Definition LeaseLostWarn : string := "warn".

Definition GetHeartbeatInterval (c : HAConfig) : option Duration :=
  if bool_decide (HeartbeatInterval c = "") then Some (15 * Second) else ParseDuration (HeartbeatInterval c).
Definition GetLeaseTimeout (c : HAConfig) : option Duration :=
  if bool_decide (LeaseTimeout c = "") then Some (60 * Second) else ParseDuration (LeaseTimeout c).

(** ** The other sections *)

Record ServerConfig := mkServer {
  NFSPort : Z;
  NFSVersion : string;
  MetricsEnabled : bool;
  MetricsPort : Z;
  HealthEnabled : bool;
  HealthPort : Z;
  MonitoringAddress : string;
  DebugEnabled : bool;
  DebugPort : Z;
  srv_MaxConnections : Z;
  ReadTimeout : string;
  WriteTimeout : string;
  AllowedClients : list string;
  NFSConcurrentHandlers : Z;
  NFSPermissions : string;
  NFSRootSquash : bool;
  NFSRegisterPortmap : bool;
  NFSAnonUID : Z;
  NFSAnonGID : Z
}.

Definition NFSPermissionsNone : string := "none".
Definition NFSPermissionsPOSIX : string := "posix".

Record COSConfig := mkCOS {
  Endpoint : string;
  Bucket : string;
  Region : string;
  AuthType : string;
  APIKey : string;
  ServiceID : string;
  AccessKey : string;
  SecretKey : string;
  MaxRetries : Z;
  Timeout : string;
  CircuitBreakerEnabled : option bool
}.

Record MetadataCacheConfig := mkMetadata { md_Enabled : bool; SizeMB : Z; TTLSeconds : Z; MaxEntries : Z }.
Record DataCacheConfig := mkData { data_Enabled : bool; SizeGB : Z; data_Path : string; ChunkSize : Z }.
Record CacheConfig := mkCache { Metadata : MetadataCacheConfig; Data : DataCacheConfig }.

Record PerformanceConfig := mkPerformance {
  ReadAheadKB : Z;
  WriteBufferKB : Z;
  MultipartThresholdMB : Z;
  MultipartChunkMB : Z;
  WorkerPoolSize : Z;
  MaxConcurrentReads : Z;
  MaxConcurrentWrites : Z;
  MaxFullObjectReadMB : Z;
  MaxBufferedWriteMB : Z;
  MaxDirectoryEntries : Z
}.

Record ObjectRefreshConfig := mkRefresh { rf_Enabled : bool; Interval : string; rf_Prefix : string }.

Definition DefaultReadAheadKB : Z := 8192.
Definition DefaultMaxFullObjectReadMB : Z := 512.
Definition DefaultMaxBufferedWriteMB : Z := 512.
Definition DefaultMaxDirectoryEntries : Z := 100000.

Record LoggingConfig := mkLogging { Level : string; Format : string; Output : string }.

Record StagingConfig := mkStaging {
  st_Enabled : bool;
  RootDir : string;
  SyncInterval : string;
  SyncThresholdMB : Z;
  MaxDirtyAge : string;
  SyncOnClose : bool;
  MaxStagingSizeGB : Z;
  MaxDirtyFiles : Z;
  SyncWorkerCount : Z;
  SyncQueueSize : Z;
  MaxSyncRetries : Z;
  RetryBackoffInit : string;
  RetryBackoffMax : string;
  CleanAfterSync : bool;
  StaleFileAge : string;
  BackpressureEnabled : bool;
  BackpressureMode : string;
  BackpressureHighWatermarkPct : Z;
  BackpressureCritWatermarkPct : Z;
  BackpressureWaitTimeout : string;
  BackpressureCheckInterval : string
}.

(** [Config]; [Notices] is only printed. *)
Record Config := mkConfig {
  Server : ServerConfig;
  COS : COSConfig;
  Cache : CacheConfig;
  Performance : PerformanceConfig;
  ObjectRefresh : ObjectRefreshConfig;
  Logging : LoggingConfig;
  Staging : StagingConfig;
  HA : HAConfig;
  SMB : SMBConfig
}.

Definition GetReadTimeout (c : ServerConfig) : option Duration := ParseDuration (ReadTimeout c).
Definition GetWriteTimeout (c : ServerConfig) : option Duration := ParseDuration (WriteTimeout c).
Definition MonitoringHost (c : ServerConfig) : string :=
  if bool_decide (MonitoringAddress c = "") then "127.0.0.1" else MonitoringAddress c.
Definition GetTimeout (c : COSConfig) : option Duration := ParseDuration (Timeout c).
Definition GetTTL (c : MetadataCacheConfig) : Duration := wrap64 (TTLSeconds c * Second).
Definition GetInterval (c : ObjectRefreshConfig) : option Duration := ParseDuration (Interval c).
Definition GetSyncInterval (c : StagingConfig) : option Duration := ParseDuration (SyncInterval c).
Definition GetMaxDirtyAge (c : StagingConfig) : option Duration := ParseDuration (MaxDirtyAge c).
Definition GetRetryBackoffInitial (c : StagingConfig) : option Duration := ParseDuration (RetryBackoffInit c).
Definition GetRetryBackoffMax (c : StagingConfig) : option Duration := ParseDuration (RetryBackoffMax c).
Definition GetStaleFileAge (c : StagingConfig) : option Duration := ParseDuration (StaleFileAge c).
Definition GetBackpressureWaitTimeout (c : StagingConfig) : option Duration := ParseDuration (BackpressureWaitTimeout c).
Definition GetBackpressureCheckInterval (c : StagingConfig) : option Duration := ParseDuration (BackpressureCheckInterval c).

Section Text.
Context `{CaseFolding} `{CaseMapping}.

Definition GetOnLeaseLost (c : HAConfig) : string :=
  if bool_decide (TrimSpace (OnLeaseLost c) = "") then LeaseLostStop else strings_ToLower (TrimSpace (OnLeaseLost c)).

Definition EnforcesNFSPermissions (c : ServerConfig) : bool :=
  bool_decide (EqualFold (TrimSpace (NFSPermissions c)) NFSPermissionsPOSIX).

Definition GetNFSVersions (c : ServerConfig) : list Z :=
  let v := strings_ToLower (TrimSpace (NFSVersion c)) in
  if bool_decide (v ∈ ["3"; "v3"; "nfsv3"]) then [3]
  else if bool_decide (v ∈ ["dual"; "both"; "3,4"; "4,3"]) then [3; 4]
  else [4].

(** ** The environment *)

(** [envName]: [cos.api_key] is [BLUESTONE_COS_API_KEY]. *)
Definition envName (prefix key : string) : string := prefix +:+ "_" +:+ strings_ToUpper (ReplaceAll key "."%char "_"%char).

(** [legacyStagingRootFallback]: [inConfig] tells whether the file sets a key,
    [set] whether a variable is set, [dirExists] what [os.Stat] finds. *)
Definition legacyStagingRootFallback (inConfig set dirExists : string -> bool) : option string :=
  if inConfig "staging.root_dir" then None
  else if existsb (fun prefix => set (envName prefix "staging.root_dir")) [EnvPrefix; LegacyEnvPrefix] then None
  else if dirExists defaultStagingRootDir || negb (dirExists legacyStagingRootDir) then None
  else Some legacyStagingRootDir.

(** [legacyEnvNotices]: the pre-rename variables that are set, each with the name
    it should have. *)
Definition legacy_notice (name : string) : option (string * string) :=
  rest ← CutPrefix name (LegacyEnvPrefix +:+ "_"); Some (name, EnvPrefix +:+ "_" +:+ rest).

End Text.

(** The keys [bindEnvOverrides] binds. *)
Definition bound_keys : list string :=
  ["server.nfs_port"; "server.nfs_version"; "server.metrics_enabled"; "server.metrics_port"; "server.health_enabled";
   "server.health_port"; "server.monitoring_address"; "server.debug_enabled"; "server.debug_port";
   "server.max_connections"; "server.read_timeout"; "server.write_timeout"; "server.allowed_clients";
   "server.nfs_concurrent_handlers"; "server.nfs_permissions"; "server.nfs_root_squash"; "server.nfs_register_portmap";
   "server.nfs_anon_uid"; "server.nfs_anon_gid"; "cos.endpoint"; "cos.bucket"; "cos.region"; "cos.auth_type";
   "cos.api_key"; "cos.service_id"; "cos.access_key"; "cos.secret_key"; "cos.max_retries"; "cos.timeout";
   "cos.circuit_breaker_enabled"; "cache.metadata.enabled"; "cache.metadata.size_mb"; "cache.metadata.ttl_seconds";
   "cache.metadata.max_entries"; "cache.data.enabled"; "cache.data.size_gb"; "cache.data.path";
   "cache.data.chunk_size_kb"; "performance.read_ahead_kb"; "performance.write_buffer_kb";
   "performance.multipart_threshold_mb"; "performance.multipart_chunk_mb"; "performance.worker_pool_size";
   "performance.max_concurrent_reads"; "performance.max_concurrent_writes"; "performance.max_full_object_read_mb";
   "performance.max_buffered_write_mb"; "performance.max_directory_entries"; "object_refresh.enabled";
   "object_refresh.interval"; "object_refresh.prefix"; "logging.level"; "logging.format"; "logging.output";
   "staging.enabled"; "staging.root_dir"; "staging.sync_interval"; "staging.sync_threshold_mb";
   "staging.max_dirty_age"; "staging.sync_on_close"; "staging.max_staging_size_gb"; "staging.max_dirty_files";
   "staging.sync_worker_count"; "staging.sync_queue_size"; "staging.max_sync_retries"; "staging.retry_backoff_initial";
   "staging.retry_backoff_max"; "staging.clean_after_sync"; "staging.stale_file_age"; "staging.backpressure_enabled";
   "staging.backpressure_mode"; "staging.backpressure_high_watermark_percent";
   "staging.backpressure_critical_watermark_percent"; "staging.backpressure_wait_timeout";
   "staging.backpressure_check_interval"; "ha.enabled"; "ha.heartbeat_interval"; "ha.lease_timeout";
   "ha.force_takeover"; "ha.on_lease_lost"; "smb.enabled"; "smb.port"; "smb.share_name"; "smb.domain";
   "smb.encryption_required"; "smb.concurrent_requests"; "smb.drain_timeout"; "smb.max_stream_bytes"; "smb.leases";
   "smb.durable_handles"; "smb.max_dialect"; "smb.users_file"; "smb.kerberos.keytab"; "smb.kerberos.max_clock_skew";
   "smb.id_map.domain_sid"; "smb.id_map.base"; "smb.limits.max_connections"; "smb.limits.max_connections_per_client";
   "smb.limits.max_sessions_per_connection"; "smb.limits.max_trees_per_session"; "smb.limits.max_opens_per_session";
   "smb.limits.auth_failures"; "smb.limits.auth_window"; "smb.limits.auth_block"; "smb.limits.auth_max_block"].

(** What a key's value is looked up as: the variable under the new prefix, then
    under the old one. *)
Definition env_value `{CaseMapping} (env : string -> option string) (key : string) : option string :=
  match env (envName EnvPrefix key) with
  | Some v => Some v
  | None => env (envName LegacyEnvPrefix key)
  end.

(** ** Defaults ([setDefaults]) *)

Definition default_server : ServerConfig := {|
  NFSPort := 2049; NFSVersion := "4"; MetricsEnabled := false; MetricsPort := 8080; HealthEnabled := false; HealthPort := 8081;
  MonitoringAddress := "127.0.0.1"; DebugEnabled := false; DebugPort := 8082; srv_MaxConnections := 1000;
  ReadTimeout := "30s"; WriteTimeout := "30s"; AllowedClients := []; NFSConcurrentHandlers := 0;
  NFSPermissions := NFSPermissionsNone; NFSRootSquash := false; NFSRegisterPortmap := false;
  NFSAnonUID := 65534; NFSAnonGID := 65534 |}.

Definition default_cos : COSConfig := {|
  Endpoint := ""; Bucket := ""; Region := ""; AuthType := "iam"; APIKey := ""; ServiceID := ""; AccessKey := ""; SecretKey := "";
  MaxRetries := 3; Timeout := "30s"; CircuitBreakerEnabled := Some true |}.

Definition default_cache : CacheConfig := {|
  Metadata := {| md_Enabled := true; SizeMB := 256; TTLSeconds := 60; MaxEntries := 10000 |};
  Data := {| data_Enabled := true; SizeGB := 10; data_Path := "/var/cache/bluestone"; ChunkSize := 1024 |} |}.

Definition default_performance : PerformanceConfig := {|
  ReadAheadKB := DefaultReadAheadKB; WriteBufferKB := 4096; MultipartThresholdMB := 100; MultipartChunkMB := 10;
  WorkerPoolSize := 100; MaxConcurrentReads := 50; MaxConcurrentWrites := 25;
  MaxFullObjectReadMB := DefaultMaxFullObjectReadMB; MaxBufferedWriteMB := DefaultMaxBufferedWriteMB;
  MaxDirectoryEntries := DefaultMaxDirectoryEntries |}.

Definition default_staging : StagingConfig := {|
  st_Enabled := false; RootDir := defaultStagingRootDir; SyncInterval := "30s"; SyncThresholdMB := 10; MaxDirtyAge := "5m";
  SyncOnClose := false; MaxStagingSizeGB := 10; MaxDirtyFiles := 1000; SyncWorkerCount := 4; SyncQueueSize := 100;
  MaxSyncRetries := 3; RetryBackoffInit := "1s"; RetryBackoffMax := "60s"; CleanAfterSync := true; StaleFileAge := "24h";
  BackpressureEnabled := true; BackpressureMode := "block"; BackpressureHighWatermarkPct := 80;
  BackpressureCritWatermarkPct := 95; BackpressureWaitTimeout := "30s"; BackpressureCheckInterval := "250ms" |}.

Definition default_smb : SMBConfig := {|
  smb_Enabled := false; Port := 445; ShareName := "bluestone"; Domain := "BLUESTONE"; EncryptionRequired := false;
  ConcurrentRequests := 0; DrainTimeout := "30s"; MaxStreamBytes := DefaultMaxStreamBytes; Leases := true;
  DurableHandles := true; MaxDialect := "3.1.1";
  Limits := {| MaxConnections := 256; MaxConnectionsPerClient := 64; MaxSessionsPerConnection := 32;
               MaxTreesPerSession := 64; MaxOpensPerSession := 4096; AuthFailures := 5;
               AuthWindow := "5m"; AuthBlock := "30s"; AuthMaxBlock := "15m" |};
  Users := []; UsersFile := ""; Kerberos := {| Keytab := ""; MaxClockSkew := "5m" |};
  IDMap := {| DomainSID := ""; Base := DefaultIDMapBase |}; Shares := [] |}.

Definition defaults : Config := {|
  Server := default_server; COS := default_cos; Cache := default_cache; Performance := default_performance;
  ObjectRefresh := {| rf_Enabled := false; Interval := "5m"; rf_Prefix := "" |};
  Logging := {| Level := "info"; Format := "json"; Output := "stdout" |};
  Staging := default_staging;
  HA := {| ha_Enabled := false; HeartbeatInterval := "15s"; LeaseTimeout := "60s"; ForceTakeover := false; OnLeaseLost := "stop" |};
  SMB := default_smb |}.

End Config.
