(* ===== verification/ConfigValidation.v ===== *)
(** * Which configurations are accepted ([internal/config/validation.go])

    [Validate] and the checks of the sections, in the order of the source.  A
    check answers the name of what it refuses; [None] is success.  [usable]
    tells of a directory whether it exists or could be created.

    The theorems say what the other components may rely on when the gateway has
    started: the settings of the staging area, the lease and the authentication
    gate are in the range their own theorems ask for, and no file is served by
    two shares. *)
From Stdlib Require Import Ascii.
From S2P Require Import Prelude GoPath Paths Runes FoldNames Attributes GoText ClientRules Config AuthGate StagingTypes.
From S2P Require Import StagingManager StagingPressure VfsSafety Disk ObjectStore SyncWorker.

Module ConfigValidation.
Import GoText FoldNames Config.

Definition refuse (bad : bool) (what : string) (rest : option string) : option string :=
  if bad then Some what else rest.
#[local] Notation "'reject' b 'as' w 'or' r" := (refuse b w r) (at level 10, b at level 99, w at level 9, r at level 200).

(** The first refusal of two checks. *)
Definition both (a b : option string) : option string := match a with Some e => Some e | None => b end.

Definition bad_port (p : Z) : bool := (p <? 1) || (65535 <? p).

(** A duration that does not parse, or is not positive. *)
Definition not_positive (d : option Duration) : bool := match d with Some d => d <=? 0 | None => true end.

Section Validation.
Context `{CaseFolding} `{CaseMapping} (usable : string -> bool).

(** ** SMB *)

Definition validateSMBLimits (l : SMBLimits) : option string :=
  reject existsb (fun v => v <? 0) [MaxConnections l; MaxConnectionsPerClient l; MaxSessionsPerConnection l;
                                    MaxTreesPerSession l; MaxOpensPerSession l; AuthFailures l] as "limits" or
  reject (0 <? MaxConnections l) && (MaxConnections l <? MaxConnectionsPerClient l) as "limits.max_connections_per_client" or
  match GetAuthWindow l, GetAuthBlock l, GetAuthMaxBlock l with
  | Some window, Some block, Some maxBlock =>
      reject existsb (fun d => d <=? 0) [window; block; maxBlock] as "limits.auth" or
      reject maxBlock <? block as "limits.auth_max_block" or
      None
  | _, _, _ => Some "limits.auth"
  end.

(** [validShareName]: the length is in bytes. *)
Definition validShareName (name : string) : bool :=
  negb (bool_decide (name = "")) && (Z.of_nat (String.length name) <=? 80) &&
  negb (ContainsAny name "\/:*?<>|" || ContainsAny name (String (ascii_of_nat 34) "") ||
        existsb (fun r => r <? 32) (Runes.runes name)) &&
  negb (bool_decide (EqualFold name "IPC$")).

Definition SharePath (p : string) : string := Clean ("/" +:+ TrimSpace p).

Definition pathWithin (p dir : string) : bool :=
  let p := strings_ToLower p in
  let dir := strings_ToLower dir in
  bool_decide (dir = "/") || bool_decide (p = dir) || HasPrefix p (dir +:+ "/").

Definition isSID (s : string) : bool :=
  match Split (strings_ToUpper s) "-"%char with
  | a :: b :: authority :: subs =>
      bool_decide (a = "S") && bool_decide (b = "1") && (len subs <=? 15) &&
      bool_decide (is_Some (ParseUint authority 10 48)) && forallb (fun p => bool_decide (is_Some (ParseUint p 10 32))) subs
  | _ => false
  end.

Definition validPrincipal (entry : string) : bool :=
  let e := TrimSpace entry in
  if bool_decide (e = "") || bool_decide (e = "@") then false
  else if HasPrefix (strings_ToUpper e) "S-1-" then isSID e
  else Count e "\"%char <=? 1.

(** The loop of [validateShares]: [names] and [before] are of the shares seen. *)
Fixpoint shares_loop (shares : list SMBShare) (names : list string) (before : list SMBShare) : option string :=
  match shares with
  | [] => None
  | share :: shares =>
      reject negb (validShareName (Name share)) as "name" or
      let key := strings_ToLower (Name share) in
      reject bool_decide (key ∈ names) as "duplicate share name" or
      reject negb (forallb validPrincipal (ValidUsers share ++ ReadList share ++ WriteList share)) as "access list" or
      reject existsb (fun other => let a := SharePath (Path share) in let b := SharePath (Path other) in
                                   pathWithin a b || pathWithin b a) before as "path" or
      shares_loop shares (key :: names) (before ++ [share])
  end.

Definition validateShares (shares : list SMBShare) : option string := shares_loop shares [] [].

Definition validateIDMap (c : SMBConfig) : option string :=
  let m := IDMap c in
  if bool_decide (DomainSID m = "") then None
  else
    let parts := Split (DomainSID m) "-"%char in
    reject negb (isSID (DomainSID m)) || negb (len parts =? 7) || negb (bool_decide (parts !! 2%nat = Some "5")) ||
           negb (bool_decide (parts !! 3%nat = Some "21")) as "id_map.domain_sid" or
    reject (Base m <? 1000) || (2 ^ 30 <? Base m) as "id_map.base" or
    reject existsb (fun u => (Base m <=? UID u) || (Base m <=? GID u)) (Users c) as "users" or
    None.

(** The loop of [validateSMB] over the accounts. *)
Fixpoint users_loop (users : list SMBUser) (seen : list string) : option string :=
  match users with
  | [] => None
  | u :: users =>
      reject bool_decide (TrimSpace (Username u) = "") as "username" or
      match NTHashBytes u with
      | None => Some "ntlm_hash"
      | Some hash =>
          reject (len hash =? 0) && bool_decide (Password u = "") as "password" or
          reject (0 <? len hash) && negb (bool_decide (Password u = "")) as "password" or
          reject (UID u <? 0) || (GID u <? 0) as "uid" or
          let key := strings_ToLower (Username u) in
          reject bool_decide (key ∈ seen) as "duplicate username" or
          users_loop users (key :: seen)
      end
  end.

Definition validateSMB (c : SMBConfig) : option string :=
  if negb (smb_Enabled c) then None
  else
    reject bad_port (Port c) as "port" or
    reject bool_decide (Shares c = []) && negb (validShareName (ShareName c)) as "share_name" or
    reject bool_decide (TrimSpace (Domain c) = "") as "domain" or
    reject ConcurrentRequests c <? 0 as "concurrent_requests" or
    reject not_positive (GetDrainTimeout c) as "drain_timeout" or
    reject negb (bool_decide (MaxDialect c ∈ [""; "3.1.1"; "3.0.2"])) as "max_dialect" or
    reject (MaxStreamBytes c <? 0) || (MaxStreamBytesLimit <? MaxStreamBytes c) as "max_stream_bytes" or
    both (validateSMBLimits (Limits c)) (
    reject bool_decide (Users c = []) && negb (Kerberos_Enabled (Kerberos c)) as "users" or
    reject not_positive (GetMaxClockSkew (Kerberos c)) as "kerberos.max_clock_skew" or
    both (validateIDMap c) (both (validateShares (Shares c)) (users_loop (Users c) []))).

(** ** The other sections *)

Definition validateHA (c : HAConfig) : option string :=
  match GetHeartbeatInterval c, GetLeaseTimeout c with
  | None, _ => Some "heartbeat_interval"
  | _, None => Some "lease_timeout"
  | Some heartbeat, Some timeout =>
      reject ha_Enabled c && (timeout <=? wrap64 (heartbeat * 2)) as "lease_timeout" or
      reject negb (bool_decide (GetOnLeaseLost c ∈ [LeaseLostStop; LeaseLostWarn])) as "on_lease_lost" or
      None
  end.

Definition validateServer (c : ServerConfig) : option string :=
  reject bad_port (NFSPort c) as "nfs_port" or
  reject negb (bool_decide (strings_ToLower (TrimSpace (NFSVersion c)) ∈
           ["3"; "v3"; "nfsv3"; "4"; "v4"; "nfsv4"; "dual"; "both"; "3,4"; "4,3"])) as "nfs_version" or
  reject existsb (fun r => bool_decide (ClientRules.ParseClientRule r = None)) (AllowedClients c) as "allowed_clients" or
  reject NFSConcurrentHandlers c <? 0 as "nfs_concurrent_handlers" or
  reject negb (bool_decide (strings_ToLower (TrimSpace (NFSPermissions c)) ∈ [""; NFSPermissionsNone; NFSPermissionsPOSIX]))
   as "nfs_permissions" or
  reject NFSRootSquash c && negb (EnforcesNFSPermissions c) as "nfs_root_squash" or
  reject existsb (fun id => (id <? 0) || (2 ^ 32 - 1 <? id)) [NFSAnonUID c; NFSAnonGID c] as "nfs_anon" or
  reject bad_port (MetricsPort c) as "metrics_port" or
  reject bad_port (HealthPort c) as "health_port" or
  reject negb (bool_decide (MonitoringAddress c = "")) && bool_decide (ClientRules.ParseIP (MonitoringAddress c) = None)
   as "monitoring_address" or
  reject srv_MaxConnections c <? 1 as "max_connections" or
  reject bool_decide (GetReadTimeout c = None) as "read_timeout" or
  reject bool_decide (GetWriteTimeout c = None) as "write_timeout" or
  None.

Definition validateCOS (c : COSConfig) : option string :=
  reject bool_decide (Endpoint c = "") as "endpoint" or
  reject bool_decide (Bucket c = "") as "bucket" or
  reject bool_decide (Region c = "") as "region" or
  let authType := strings_ToLower (AuthType c) in
  reject negb (bool_decide (authType = "iam")) && negb (bool_decide (authType = "hmac")) as "auth_type" or
  reject bool_decide (authType = "iam") && bool_decide (APIKey c = "") as "api_key" or
  reject bool_decide (authType = "hmac") && bool_decide (AccessKey c = "") as "access_key" or
  reject bool_decide (authType = "hmac") && bool_decide (SecretKey c = "") as "secret_key" or
  reject MaxRetries c <? 0 as "max_retries" or
  reject bool_decide (GetTimeout c = None) as "timeout" or
  None.

Definition validateCache (c : CacheConfig) : option string :=
  both
    (if md_Enabled (Metadata c) then
       reject SizeMB (Metadata c) <? 1 as "size_mb" or
       reject TTLSeconds (Metadata c) <? 1 as "ttl_seconds" or
       reject MaxEntries (Metadata c) <? 1 as "max_entries" or
       None
     else None)
    (if data_Enabled (Data c) then
       reject SizeGB (Data c) <? 1 as "size_gb" or
       reject bool_decide (data_Path (Data c) = "") as "path" or
       reject ChunkSize (Data c) <? 1 as "chunk_size_kb" or
       reject negb (usable (data_Path (Data c))) as "path" or
       None
     else None).

Definition validatePerformance (c : PerformanceConfig) : option string :=
  reject ReadAheadKB c <? 0 as "read_ahead_kb" or
  reject WriteBufferKB c <? 1 as "write_buffer_kb" or
  reject MultipartThresholdMB c <? 1 as "multipart_threshold_mb" or
  reject MultipartChunkMB c <? 1 as "multipart_chunk_mb" or
  reject MultipartThresholdMB c <? MultipartChunkMB c as "multipart_chunk_mb" or
  reject WorkerPoolSize c <? 1 as "worker_pool_size" or
  reject MaxConcurrentReads c <? 1 as "max_concurrent_reads" or
  reject MaxConcurrentWrites c <? 1 as "max_concurrent_writes" or
  reject MaxFullObjectReadMB c <? 1 as "max_full_object_read_mb" or
  reject MaxBufferedWriteMB c <? 1 as "max_buffered_write_mb" or
  reject MaxDirectoryEntries c <? 1 as "max_directory_entries" or
  None.

Definition validateObjectRefresh (c : ObjectRefreshConfig) : option string :=
  if negb (rf_Enabled c) then None
  else
    reject not_positive (GetInterval c) as "interval" or
    reject Prelude.Contains (rf_Prefix c) (String zero "") as "prefix" or
    None.

Definition validateLogging (c : LoggingConfig) : option string :=
  reject negb (bool_decide (strings_ToLower (Level c) ∈ ["debug"; "info"; "warn"; "error"])) as "level" or
  reject negb (bool_decide (strings_ToLower (Format c) ∈ ["json"; "text"])) as "format" or
  reject bool_decide (Output c = "") as "output" or
  None.

Definition validateStaging (c : StagingConfig) : option string :=
  if negb (st_Enabled c) then None
  else
    reject bool_decide (RootDir c = "") as "root_dir" or
    reject MaxStagingSizeGB c <? 1 as "max_staging_size_gb" or
    reject SyncThresholdMB c <? 1 as "sync_threshold_mb" or
    reject SyncWorkerCount c <? 1 as "sync_worker_count" or
    reject negb (bool_decide (strings_ToLower (BackpressureMode c) ∈ ["block"; "fail_fast"])) as "backpressure_mode" or
    reject (BackpressureHighWatermarkPct c <? 1) || (99 <? BackpressureHighWatermarkPct c) as "backpressure_high_watermark_percent" or
    reject (BackpressureCritWatermarkPct c <? 1) || (100 <? BackpressureCritWatermarkPct c) as "backpressure_critical_watermark_percent" or
    reject BackpressureCritWatermarkPct c <=? BackpressureHighWatermarkPct c as "backpressure_high_watermark_percent" or
    reject match GetBackpressureWaitTimeout c with Some t => t <? 0 | None => true end as "backpressure_wait_timeout" or
    reject not_positive (GetBackpressureCheckInterval c) as "backpressure_check_interval" or
    reject negb (usable (RootDir c)) as "root_dir" or
    None.

Definition Validate (c : Config) : option string :=
  both (validateServer (Server c)) (both (validateCOS (COS c)) (both (validateCache (Cache c))
  (both (validatePerformance (Performance c)) (both (validateObjectRefresh (ObjectRefresh c))
  (both (validateLogging (Logging c)) (both (validateStaging (Staging c)) (both (validateHA (HA c))
  (validateSMB (SMB c))))))))).

(** ** What main hands to the components *)

(** [NewStagingManager] and [NewSyncWorker] get the section itself; the accessors'
    errors are dropped where they are used. *)
Definition staging_of (c : StagingConfig) : Staging.StagingConfig :=
  Staging.mkConfig (RootDir c) (SyncThresholdMB c) (default 0 (GetMaxDirtyAge c)) (MaxStagingSizeGB c) (MaxSyncRetries c)
    (default 0 (GetRetryBackoffInitial c)) (default 0 (GetRetryBackoffMax c)) (CleanAfterSync c) (BackpressureEnabled c)
    (BackpressureMode c) (BackpressureHighWatermarkPct c) (BackpressureCritWatermarkPct c)
    (GetBackpressureWaitTimeout c) (GetBackpressureCheckInterval c).

Definition auth_limits (l : SMBLimits) : option AuthGate.AuthLimits :=
  window ← GetAuthWindow l; block ← GetAuthBlock l; maxBlock ← GetAuthMaxBlock l;
  Some (AuthGate.mkLimits (AuthFailures l) window block maxBlock).

(** ** Lemmas *)

Lemma refuse_None b w r : refuse b w r = None <-> b = false /\ r = None.
Proof. unfold refuse. destruct b; naive_solver. Qed.

Lemma both_None a b : both a b = None <-> a = None /\ b = None.
Proof. unfold both. destruct a; naive_solver. Qed.

Lemma not_positive_false d : not_positive d = false <-> exists x, d = Some x /\ 0 < x.
Proof. unfold not_positive. destruct d; [rewrite Z.leb_gt|]; naive_solver. Qed.

Ltac accepted H :=
  repeat first [rewrite refuse_None in H; let B := fresh "B" in destruct H as [B H]
               |rewrite both_None in H; let B := fresh "B" in destruct H as [B H]].

(** The checks that name a section, one fact for each. *)
Lemma staging_accepted c : validateStaging c = None -> st_Enabled c = true ->
  1 <= MaxStagingSizeGB c /\ 1 <= SyncWorkerCount c /\
  1 <= BackpressureHighWatermarkPct c < BackpressureCritWatermarkPct c /\ BackpressureCritWatermarkPct c <= 100 /\
  (exists t, GetBackpressureWaitTimeout c = Some t /\ 0 <= t) /\
  (exists t, GetBackpressureCheckInterval c = Some t /\ 0 < t).
Proof.
  unfold validateStaging. intros Hv He. rewrite He in Hv. cbn [negb] in Hv. accepted Hv. bool_to_prop.
  rewrite not_positive_false in *. split_and!; try lia; [|done].
  destruct (GetBackpressureWaitTimeout c) as [t|]; [|done]. exists t. split; [done|]. bool_to_prop. lia.
Qed.

Lemma limits_accepted l : validateSMBLimits l = None ->
  exists w b m, GetAuthWindow l = Some w /\ GetAuthBlock l = Some b /\ GetAuthMaxBlock l = Some m /\
    0 < w /\ 0 < b <= m /\ 0 <= AuthFailures l.
Proof.
  unfold validateSMBLimits. intros Hv. rewrite !refuse_None in Hv. destruct Hv as (B & _ & Hv).
  destruct (GetAuthWindow l) as [w|], (GetAuthBlock l) as [b|], (GetAuthMaxBlock l) as [m|]; try done.
  accepted Hv. simpl in *. bool_to_prop. exists w, b, m. split_and!; try done; lia.
Qed.

Lemma ha_accepted c : validateHA c = None -> ha_Enabled c = true ->
  exists h t, GetHeartbeatInterval c = Some h /\ GetLeaseTimeout c = Some t /\ wrap64 (h * 2) < t.
Proof.
  unfold validateHA. intros Hv He. destruct (GetHeartbeatInterval c) as [h|], (GetLeaseTimeout c) as [t|]; try done.
  rewrite He in Hv. accepted Hv. cbn [andb] in *. bool_to_prop. exists h, t. split_and!; [done|done|lia].
Qed.

(** A gateway that starts has settings its components can work with: the
    staging area has a quota and watermarks in order, so that what it advertises
    can be written, waits for room end and are taken in steps of a positive
    length; the lease outlives two heartbeats; the authentication gate gets the
    limits as written, with a longest block no shorter than the first; buffers
    and parts are not empty. *)
Theorem validated_settings_in_range (c : Config) (Hv : Validate c = None) :
  (st_Enabled (Staging c) = true -> MaxStagingSizeGB (Staging c) <= 2 ^ 26 ->
   forall m, Staging.config m = staging_of (Staging c) -> 0 <= Pressure.used m <= 2 ^ 61 ->
     VfsSafety.watermarks_ok m /\ 0 <= Pressure.waitTimeout (Staging.config m) /\
     exists d, Staging.BackpressureCheckInterval (Staging.config m) = Some d /\ 0 < d) /\
  (ha_Enabled (HA c) = true ->
   exists h t, GetHeartbeatInterval (HA c) = Some h /\ GetLeaseTimeout (HA c) = Some t /\ wrap64 (h * 2) < t) /\
  (smb_Enabled (SMB c) = true ->
   exists l, auth_limits (Limits (SMB c)) = Some l /\
     AuthGate.withDefaults l = AuthGate.mkLimits (AuthGate.Failures (AuthGate.withDefaults l)) (AuthGate.Window l) (AuthGate.Block l) (AuthGate.MaxBlock l) /\
     0 < AuthGate.Failures (AuthGate.withDefaults l) /\ 0 < AuthGate.Block l <= AuthGate.MaxBlock l) /\
  0 < WriteBufferKB (Performance c) /\ 0 < MultipartChunkMB (Performance c) <= MultipartThresholdMB (Performance c) /\
  0 < MaxBufferedWriteMB (Performance c) /\ 0 < MaxDirectoryEntries (Performance c).
Proof.
  unfold Validate in Hv. accepted Hv. split_and!.
  - intros He Hq m Hm Hu. destruct (staging_accepted _ ltac:(eassumption) He) as (? & ? & ? & ? & (t & Ht & ?) & (d & Hd & ?)).
    unfold VfsSafety.watermarks_ok, Pressure.quota, Pressure.waitTimeout. rewrite Hm. cbn. rewrite Ht. cbn.
    unfold Pressure.GiB. split_and!; try lia. by exists d.
  - by apply ha_accepted.
  - intros He. unfold validateSMB in Hv. rewrite He in Hv. cbn [negb] in Hv. accepted Hv.
    destruct (limits_accepted (Limits (SMB c)) ltac:(assumption)) as (w & b & m & Hw & Hb & Hm & ? & ? & ?).
    unfold auth_limits. rewrite Hw, Hb, Hm. eexists. split; [done|]. unfold AuthGate.withDefaults. cbn -[AuthGate.DefaultAuthFailures].
    split_and!; [|unfold AuthGate.DefaultAuthFailures; zcases|lia|lia].
    rewrite (proj2 (Z.leb_gt w 0)), (proj2 (Z.leb_gt b 0)) by lia. rewrite (proj2 (Z.ltb_ge m b)) by lia. done.
  - unfold validatePerformance in *. accepted B2. bool_to_prop. lia.
  - unfold validatePerformance in *. accepted B2. bool_to_prop. lia.
  - unfold validatePerformance in *. accepted B2. bool_to_prop. lia.
  - unfold validatePerformance in *. accepted B2. bool_to_prop. lia.
  - unfold validatePerformance in *. accepted B2. bool_to_prop. lia.
Qed.

(** ** Shares *)

(** Changing case leaves the slashes where they are. *)
Section Slashes.
Import Runes.

Lemma decode_rune_slash b0 l r :
  decode_rune b0 (l ++ 47 :: r) = ((decode_rune b0 l).1, (decode_rune b0 l).2 ++ 47 :: r).
Proof.
  assert (Hs : forall b, second_continues b 47 = false) by (intros b; unfold second_continues; repeat case_match; done).
  unfold decode_rune. destruct l as [|b1 [|b2 [|b3 l]]]; simpl; rewrite ?Hs; simpl; rewrite ?andb_false_r; simpl;
    repeat case_match; done.
Qed.

Lemma decode_slash l r : decode (l ++ 47 :: r) = decode l ++ 47 :: decode r.
Proof.
  remember (length l) as n eqn:En. assert (Hn : (length l <= n)%nat) by lia. clear En.
  revert l Hn. induction n as [|n IH]; intros [|b0 l] Hn; simpl in *; [|lia| |]; [by rewrite decode_cons..|].
  rewrite !decode_cons, decode_rune_slash. simpl. f_equal. apply IH. pose proof (decode_rune_shorter b0 l). lia.
Qed.

Lemma ToLower_slash a b : strings_ToLower (a +:+ String "/" b) = strings_ToLower a +:+ String "/" (strings_ToLower b).
Proof.
  assert (Hb : forall x y, of_bytes (x ++ y) = of_bytes x +:+ of_bytes y).
  { intros x y. unfold of_bytes. rewrite fmap_app. induction (_ <$> x) as [|c u IH]; [done|]. simpl. by rewrite IH. }
  assert (Hc : bytes_of (a +:+ String "/" b) = bytes_of a ++ 47 :: bytes_of b).
  { unfold bytes_of. rewrite AuthGate.list_ascii_app, fmap_app. done. }
  unfold strings_ToLower, runes, of_runes. rewrite Hc, decode_slash, fmap_app, fmap_cons, rune_lower_ascii by lia.
  unfold encode. rewrite bind_app, Hb. done.
Qed.

Lemma ToLower_join es : es <> [] -> strings_ToLower (JoinSlash es) = JoinSlash (strings_ToLower <$> es).
Proof.
  intros He. destruct es as [|e es]; [done|]. clear He. revert e. induction es as [|e' es IH]; intros e; [done|].
  change (JoinSlash (e :: e' :: es)) with (e +:+ String "/" (JoinSlash (e' :: es))). rewrite ToLower_slash, IH. done.
Qed.

Lemma ToLower_rooted es : strings_ToLower ("/" +:+ JoinSlash es) = "/" +:+ JoinSlash (strings_ToLower <$> es).
Proof.
  change ("/" +:+ JoinSlash es) with ("" +:+ String "/" (JoinSlash es)). rewrite ToLower_slash.
  destruct es as [|e es]; [done|]. by rewrite ToLower_join.
Qed.

End Slashes.

(** The names [ds] are those of the directory a share's path names, up to case. *)
Definition share_directory (s : SMBShare) (ds : list string) : Prop :=
  exists es, Clean ("/" +:+ TrimSpace (Path s)) = "/" +:+ JoinSlash es /\ Forall is_name es /\
    strings_ToLower <$> ds = strings_ToLower <$> es.

(** A path of the bucket, as the names on it, is served by a share: it is the
    share's directory or below it, in any case. *)
Definition serves (s : SMBShare) (names : list string) : Prop :=
  exists ds rest, names = ds ++ rest /\ share_directory s ds.

(** The validator finds a directory in another. *)
Lemma directory_within s s' ds rest :
  share_directory s ds -> share_directory s' (ds ++ rest) -> pathWithin (SharePath (Path s')) (SharePath (Path s)) = true.
Proof.
  intros (es & E & _ & Hl) (es' & E' & _ & Hl'). unfold pathWithin, SharePath. rewrite E, E', !ToLower_rooted, <-Hl, <-Hl', fmap_app.
  destruct ds as [|d ds]; [done|]. destruct rest as [|r rest]; [rewrite app_nil_r; bool_to_prop; by left; right|].
  bool_to_prop. right. apply HasPrefix_spec. rewrite Paths.JoinSlash_app by done. eexists. by rewrite !string_app_assoc.
Qed.

Lemma serves_common s s' names : serves s names -> serves s' names ->
  pathWithin (SharePath (Path s')) (SharePath (Path s)) = true \/ pathWithin (SharePath (Path s)) (SharePath (Path s')) = true.
Proof.
  intros (ds & rest & -> & Hd) (ds' & rest' & E & Hd'). apply app_eq_app in E as (l & [[-> _]|[-> _]]);
    [right|left]; by eapply directory_within.
Qed.

Lemma shares_loop_disjoint shares names before : shares_loop shares names before = None ->
  (forall s, s ∈ before -> strings_ToLower (Name s) ∈ names) ->
  forall i j s s', (length before <= j)%nat -> (before ++ shares) !! i = Some s -> (before ++ shares) !! j = Some s' -> (i < j)%nat ->
    strings_ToLower (Name s) <> strings_ToLower (Name s') /\ forall p, serves s p -> serves s' p -> False.
Proof.
  revert names before. induction shares as [|share shares IH]; intros names before Hv Hn i j s s' Hj Hi Hs' Hij.
  { rewrite app_nil_r in Hs'. apply lookup_lt_Some in Hs'. lia. }
  cbn [shares_loop] in Hv. accepted Hv. destruct (decide (j = length before)) as [->|Hne].
  - rewrite list_lookup_middle in Hs' by done. injection Hs' as <-. rewrite lookup_app_l in Hi by done.
    apply list_elem_of_lookup_2 in Hi. bool_to_prop. split; [intros E; apply B0; rewrite <-E; by apply Hn|].
    intros p H1 H2. assert (Hex : existsb (fun other => pathWithin (SharePath (Path share)) (SharePath (Path other)) ||
      pathWithin (SharePath (Path other)) (SharePath (Path share))) before = true); [|congruence].
    apply existsb_exists. exists s. split; [by apply list_elem_of_In|].
    destruct (serves_common _ _ _ H1 H2) as [->| ->]; [done|apply orb_true_r].
  - replace (before ++ share :: shares) with ((before ++ [share]) ++ shares) in Hi, Hs' by by rewrite <-app_assoc.
    apply (IH _ _ Hv) with i j; [|rewrite length_app; simpl; lia|done..].
    intros s0 [?| ->%list_elem_of_singleton]%elem_of_app; apply elem_of_cons; [right; by apply Hn|by left].
Qed.

(** C31. No file is served by two shares: the shares of a configuration that was
    accepted have names that differ in more than case, and no path of the bucket
    is, or lies below, the directories two of them name, whatever case the names
    on it are written in. *)
Theorem validated_shares_disjoint (c : Config) (Hv : Validate c = None) (Hs : smb_Enabled (SMB c) = true)
    (i j : nat) (s s' : SMBShare) (Hi : Shares (SMB c) !! i = Some s) (Hj : Shares (SMB c) !! j = Some s') (Hij : i <> j) :
  strings_ToLower (Name s) <> strings_ToLower (Name s') /\
  forall names, serves s names -> serves s' names -> False.
Proof.
  unfold Validate in Hv. accepted Hv. unfold validateSMB in Hv. rewrite Hs in Hv. cbn [negb] in Hv. accepted Hv.
  unfold validateShares in *. match goal with H : shares_loop _ _ _ = None |- _ => rename H into Hloop end.
  assert (Hgo : forall i j s s', Shares (SMB c) !! i = Some s -> Shares (SMB c) !! j = Some s' -> (i < j)%nat ->
    strings_ToLower (Name s) <> strings_ToLower (Name s') /\ forall p, serves s p -> serves s' p -> False).
  { intros i' j' t t' ???. apply (shares_loop_disjoint _ _ _ Hloop) with i' j'; [|simpl; lia|done..]. by intros ? ?%not_elem_of_nil. }
  destruct (decide (i < j)%nat) as [Hlt|Hge]; [exact (Hgo i j s s' Hi Hj Hlt)|].
  destruct (Hgo j i s' s Hj Hi ltac:(lia)) as [H1 H2]. split; [exact (not_eq_sym H1)|]. eauto.
Qed.

End Validation.

(** ** Witnesses *)

Section Witness.
#[local] Instance folding : CaseFolding := FoldNames.ascii_folding.
#[local] Instance mapping : CaseMapping := GoText.ascii_case.

Definition anywhere (_ : string) : bool := true.

Definition with_cos (c : COSConfig) : COSConfig :=
  mkCOS "https://s3.example" "bucket" "eu-de" (AuthType c) "key" (ServiceID c) (AccessKey c) (SecretKey c) (MaxRetries c)
    (Timeout c) (CircuitBreakerEnabled c).

Definition with_staging (c : StagingConfig) : StagingConfig :=
  mkStaging true (RootDir c) (SyncInterval c) (SyncThresholdMB c) (MaxDirtyAge c) (SyncOnClose c) (MaxStagingSizeGB c)
    (MaxDirtyFiles c) (SyncWorkerCount c) (SyncQueueSize c) (MaxSyncRetries c) (RetryBackoffInit c) (RetryBackoffMax c)
    (CleanAfterSync c) (StaleFileAge c) (BackpressureEnabled c) (BackpressureMode c) (BackpressureHighWatermarkPct c)
    (BackpressureCritWatermarkPct c) (BackpressureWaitTimeout c) (BackpressureCheckInterval c).

Definition two_shares : list SMBShare :=
  [mkShare "docs" "/docs" false [] [] []; mkShare "Media" "media" true ["alice"] [] ["@staff"]].

Definition with_smb (c : SMBConfig) : SMBConfig :=
  mkSMB true (Port c) (ShareName c) (Domain c) (EncryptionRequired c) (ConcurrentRequests c) (DrainTimeout c) (MaxStreamBytes c)
    (Leases c) (DurableHandles c) (MaxDialect c) (Limits c) [mkUser "alice" "secret" "" 0 0 ["staff"]] (UsersFile c) (Kerberos c)
    (IDMap c) two_shares.

(** The defaults, with a bucket to serve and both servers on. *)
Definition example : Config :=
  mkConfig (Server defaults) (with_cos (COS defaults)) (Cache defaults) (Performance defaults) (ObjectRefresh defaults)
    (Logging defaults) (with_staging (Staging defaults)) (HA defaults) (with_smb (SMB defaults)).

Lemma example_accepted : Validate anywhere example = None.
Proof. vm_compute. reflexivity. Qed.

Lemma validated_settings_in_range_witness :
  Validate anywhere example = None /\ 0 < WriteBufferKB (Performance example) /\
  exists l, auth_limits (Limits (SMB example)) = Some l /\ 0 < AuthGate.Block l.
Proof.
  assert (Hv : Validate anywhere example = None) by (vm_compute; reflexivity).
  destruct (validated_settings_in_range anywhere example Hv) as (_ & _ & Hl & Hw & _).
  split; [exact Hv|]. split; [exact Hw|]. destruct (Hl eq_refl) as (l & E & _ & _ & Hb & _). exists l. exact (conj E Hb).
Defined.

Lemma validated_shares_disjoint_witness :
  serves (mkShare "docs" "/docs" false [] [] []) ["DOCS"; "a.txt"] /\
  ~ serves (mkShare "Media" "media" true ["alice"] [] ["@staff"]) ["DOCS"; "a.txt"].
Proof.
  assert (Hs : serves (mkShare "docs" "/docs" false [] [] []) ["DOCS"; "a.txt"]).
  { exists ["DOCS"], ["a.txt"]. split; [done|]. exists ["docs"]. split; [by vm_compute|]. split; [|by vm_compute].
    repeat constructor; vm_compute; intros; set_solver. }
  split; [exact Hs|]. intros Hm.
  assert (Hv : Validate anywhere example = None) by (vm_compute; reflexivity).
  exact (proj2 (validated_shares_disjoint anywhere example Hv eq_refl 0 1
    (mkShare "docs" "/docs" false [] [] []) (mkShare "Media" "media" true ["alice"] [] ["@staff"]) eq_refl eq_refl ltac:(discriminate))
    _ Hs Hm).
Defined.

(** No two settings share a variable, under either prefix. *)
Lemma variables_distinct :
  NoDup ((envName EnvPrefix <$> bound_keys) ++ (envName LegacyEnvPrefix <$> bound_keys)).
Proof. apply (bool_decide_unpack _). vm_compute. exact I. Qed.

(** ** What is not checked *)

Definition set_staging (s : StagingConfig) (c : Config) : Config :=
  mkConfig (Server c) (COS c) (Cache c) (Performance c) (ObjectRefresh c) (Logging c) s (HA c) (SMB c).

Definition with_sync (interval : string) (retries : Z) (c : StagingConfig) : StagingConfig :=
  mkStaging (st_Enabled c) (RootDir c) interval (SyncThresholdMB c) (MaxDirtyAge c) (SyncOnClose c) (MaxStagingSizeGB c)
    (MaxDirtyFiles c) (SyncWorkerCount c) (SyncQueueSize c) retries (RetryBackoffInit c) (RetryBackoffMax c)
    (CleanAfterSync c) (StaleFileAge c) (BackpressureEnabled c) (BackpressureMode c) (BackpressureHighWatermarkPct c)
    (BackpressureCritWatermarkPct c) (BackpressureWaitTimeout c) (BackpressureCheckInterval c).

(** A synchronisation interval that is no duration, or not positive, is accepted;
    the sync worker drops the error and starts a ticker with it, which panics. *)
Lemma bad_sync_interval_accepted :
  let c := set_staging (with_sync "30" 3 (Staging example)) example in
  let d := set_staging (with_sync "0s" 3 (Staging example)) example in
  Validate anywhere c = None /\ GetSyncInterval (Staging c) = None /\
  Validate anywhere d = None /\ GetSyncInterval (Staging d) = Some 0.
Proof. vm_compute. auto. Qed.

(** No retries means no attempt at all: such a configuration is accepted, and no
    upload ever reaches the store. *)
Lemma no_retries_no_upload `{ObjectStore.ObjectStore} :
  let c := set_staging (with_sync "30s" 0 (Staging example)) example in
  Validate anywhere c = None /\
  forall s path body attrs stopped,
    Sync.uploadWithRetryStream (staging_of (Staging c)) s path body attrs stopped =
    (s, Some (Disk.Wrap (Disk.ErrStore "no attempt"))).
Proof. split; [vm_compute; reflexivity|]. done. Qed.

(** A window of zero, which the documentation says selects the default, is refused. *)
Lemma zero_auth_window_refused :
  validateSMBLimits (mkLimits 256 64 32 64 4096 5 "0" "30s" "15m") = Some "limits.auth".
Proof. vm_compute. reflexivity. Qed.

End Witness.
End ConfigValidation.
