(* ===== verification/SmbIdentity.v ===== *)
(** * Who SMB users are and what they may do ([internal/smb/identity.go])

    The map between Windows accounts and the owners files are stored with, and
    the access rules of the shares.  The identity a session authenticated as is
    what the SMB library reports. *)
From Stdlib Require Import Ascii.
From S2P Require Import Prelude Runes FoldNames Attributes GoText Config.

Module SmbIdentity.
Import GoText FoldNames.

(** ** Text *)

Definition is_ascii (s : string) : Prop := Forall (fun b => 0 <= b < 128) (Runes.bytes_of s).
#[global] Instance is_ascii_dec s : Decision (is_ascii s).
Proof. apply Forall_dec. intros b. apply and_dec; apply _. Defined.

Lemma decode_ascii l : Forall (fun b => 0 <= b < 128) l -> Runes.decode l = l.
Proof.
  induction 1 as [|b l Hb _ IH]; [done|]. rewrite Runes.decode_cons. unfold Runes.decode_rune.
  rewrite (proj2 (Z.ltb_lt b 128)) by lia. simpl. by rewrite IH.
Qed.

Lemma encode_ascii l : Forall (fun b => 0 <= b < 128) l -> Runes.encode l = l.
Proof.
  induction 1 as [|b l Hb _ IH]; [done|]. unfold Runes.encode in *. cbn [mbind list_bind]. rewrite IH.
  unfold Runes.encode_rune. rewrite decide_True by (unfold Runes.valid_rune; lia). by rewrite (proj2 (Z.ltb_lt b 128)) by lia.
Qed.

Lemma bytes_of_app a b : Runes.bytes_of (a +:+ b) = Runes.bytes_of a ++ Runes.bytes_of b.
Proof.
  induction a as [|c a IH]; [done|].
  change (Runes.bytes_of (String c a +:+ b)) with (Z.of_N (N_of_ascii c) :: Runes.bytes_of (a +:+ b)). by rewrite IH.
Qed.

Lemma is_ascii_app a b : is_ascii (a +:+ b) <-> is_ascii a /\ is_ascii b.
Proof. unfold is_ascii. by rewrite bytes_of_app, Forall_app. Qed.

Section Upper.
Context `{CaseMapping}.

Definition upper_byte (b : Z) : Z := if (97 <=? b) && (b <=? 122) then b - 32 else b.

Lemma ToUpper_ascii s : is_ascii s -> strings_ToUpper s = Runes.of_bytes (upper_byte <$> Runes.bytes_of s).
Proof.
  intros Hs. unfold strings_ToUpper, Runes.runes, Runes.of_runes. rewrite decode_ascii by done. f_equal.
  assert (rune_upper <$> Runes.bytes_of s = upper_byte <$> Runes.bytes_of s) as ->.
  { apply list_fmap_ext. intros i b Hb. eapply Forall_lookup_1 in Hb; [|exact Hs]. by apply rune_upper_ascii. }
  apply encode_ascii, Forall_fmap. eapply Forall_impl; [exact Hs|]. intros b Hb. unfold upper_byte. simpl. zcases; lia.
Qed.

Lemma ToUpper_app a b : is_ascii a -> is_ascii b -> strings_ToUpper (a +:+ b) = strings_ToUpper a +:+ strings_ToUpper b.
Proof. intros. rewrite !ToUpper_ascii, bytes_of_app, fmap_app, of_bytes_app by (done || by apply is_ascii_app). done. Qed.

(** Digits have no case. *)
Definition is_number (s : string) : Prop := Forall (fun b => 48 <= b <= 57) (Runes.bytes_of s).

Lemma number_is_ascii s : is_number s -> is_ascii s.
Proof. intros Hs. eapply Forall_impl; [exact Hs|]. simpl. lia. Qed.

Lemma ToUpper_number s : is_number s -> strings_ToUpper s = s.
Proof.
  intros Hs. rewrite ToUpper_ascii by by apply number_is_ascii. rewrite <-(Runes.of_bytes_of s) at 2. f_equal.
  rewrite <-(list_fmap_id (Runes.bytes_of s)) at 2. apply list_fmap_ext. intros i b Hb.
  eapply Forall_lookup_1 in Hb; [|exact Hs]. unfold upper_byte. simpl in *. zcases; lia.
Qed.
End Upper.

(** ** Accounts and owners *)

(** [auth.Identity] of the SMB library. *)
Inductive mechanism := MechanismNTLM | MechanismKerberos.
#[global] Instance mechanism_dec : EqDecision mechanism.
Proof. solve_decision. Defined.

Record Identity := mkIdentity {
  Username : string;
  Domain : string;
  SID : string;
  PrimaryGroup : string;
  Groups : list string;
  Mechanism : mechanism
}.

Record LocalIDs := mkIDs { UID : Z; GID : Z }.

Record IDMap := mkIDMap {
  DomainSID : string;
  Base : Z;
  Local_ : gmap string LocalIDs
}.

Section Identity.
Context `{CaseFolding} `{CaseMapping}.

Definition active (m : option IDMap) : bool :=
  match m with
  | None => false
  | Some m => negb (bool_decide (DomainSID m = "")) || negb (bool_decide (Local_ m = ∅))
  end.

Definition rid (m : IDMap) (sid : string) : option Z :=
  if bool_decide (DomainSID m = "") then None
  else
    rest ← CutPrefix (strings_ToUpper sid) (strings_ToUpper (DomainSID m) +:+ "-");
    rid ← ParseUint rest 10 32;
    if 2 ^ 31 - 1 - Base m <? rid then None else Some rid.

(** [owner]: the uid and gid of the files [id] creates. *)
Definition owner (m : option IDMap) (id : option Identity) : option (Z * Z) :=
  match m, id with
  | Some m, Some id =>
      if decide (Mechanism id = MechanismNTLM) then
        ids ← Local_ m !! strings_ToLower (Username id);
        if UID ids =? 0 then None else Some (UID ids, if GID ids =? 0 then Attributes.DefaultGID else GID ids)
      else
        r ← rid m (SID id);
        Some (Base m + r, match rid m (PrimaryGroup id) with Some g => Base m + g | None => Attributes.DefaultGID end)
  | _, _ => None
  end.

(** [sid] and [sids]: who Windows shows as the owner. *)
Definition sid (m : IDMap) (id : Z) (kind : string) : string :=
  if negb (bool_decide (DomainSID m = "")) && (Base m <=? id)
  then DomainSID m +:+ "-" +:+ Itoa (id - Base m)
  else "S-1-22-" +:+ kind +:+ "-" +:+ Itoa id.

Definition sids (m : option IDMap) (uid gid : Z) : string * string :=
  match m with
  | Some m' => if active m then (sid m' uid "1", sid m' gid "2") else ("", "")
  | None => ("", "")
  end.

(** ** Access to shares *)

Record ShareOptions := mkShare {
  Name : string;
  Path : string;
  ReadOnly : bool;
  ValidUsers : list string;
  ReadList : list string;
  WriteList : list string
}.

Record accessRules := mkRules {
  domain : string;
  groups : gmap string (list string);
  shares : gmap string ShareOptions
}.

(** A configured account, with its groups. *)
Definition add_groups (m : gmap string (list string)) (u : string * list string) : gmap string (list string) :=
  foldl (fun m g => <[strings_ToLower u.1 := default [] (m !! strings_ToLower u.1) ++ [strings_ToLower g]]> m) m u.2.

Definition newAccessRules (domain : string) (users : list (string * list string)) (shares : list ShareOptions) : accessRules :=
  mkRules domain (foldl add_groups ∅ users) (foldl (fun m s => <[strings_ToLower (Name s) := s]> m) ∅ shares).

Definition same (a b : string) : bool := bool_decide (EqualFold a b).

Definition matches (r : accessRules) (id : Identity) (entry : string) : bool :=
  let e := TrimSpace entry in
  if HasPrefix (strings_ToUpper e) "S-1-" then existsb (same e) (SID id :: PrimaryGroup id :: Groups id)
  else
    match CutPrefix e "@" with
    | Some group =>
        if decide (Mechanism id = MechanismNTLM)
        then existsb (fun g => bool_decide (g = strings_ToLower group)) (default [] (groups r !! strings_ToLower (Username id)))
        else false
    | None =>
        match Cut e "\"%char with
        | None => same e (Username id)
        | Some (d, user) =>
            if negb (same user (Username id)) then false
            else if decide (Mechanism id = MechanismNTLM) then same d (domain r) else same d (Domain id)
        end
    end.

Definition matchesAny (r : accessRules) (id : Identity) (entries : list string) : bool := existsb (matches r id) entries.

Inductive ShareAccess := ShareDenied | ShareReadOnly | ShareReadWrite.

Definition access (r : accessRules) (id : option Identity) (share : string) : ShareAccess :=
  match shares r !! strings_ToLower share with
  | None => ShareReadWrite
  | Some s =>
      match id with
      | None => ShareDenied
      | Some id =>
          if negb (bool_decide (ValidUsers s = [])) && negb (matchesAny r id (ValidUsers s)) then ShareDenied
          else
            let readOnly := ReadOnly s || matchesAny r id (ReadList s) in
            let readOnly := if matchesAny r id (WriteList s) then false else readOnly in
            if readOnly then ShareReadOnly else ShareReadWrite
      end
  end.

(** ** Round trip *)

Lemma digit_char_number d s : 0 <= d < 10 -> is_number s -> is_number (String (digit_char d) s).
Proof.
  intros Hd Hs. unfold is_number.
  change (Runes.bytes_of (String (digit_char d) s)) with (Z.of_N (N_of_ascii (digit_char d)) :: Runes.bytes_of s).
  constructor; [|exact Hs]. clear Hs.
  assert (d ∈ seqZ 0 10) as Hin by (apply elem_of_seqZ; lia).
  repeat (apply elem_of_cons in Hin as [->|Hin]; [vm_compute; split; discriminate|]). by apply not_elem_of_nil in Hin.
Qed.

Lemma format_is_number fuel n acc : 0 <= n -> is_number acc -> is_number (format_digits fuel 10 n acc).
Proof.
  revert n acc. induction fuel as [|fuel IH]; intros n acc Hn Hacc; [done|]. cbn [format_digits].
  pose proof (Z.mod_pos_bound n 10 ltac:(lia)) as Hm. case_match; [by apply digit_char_number|].
  apply IH; [apply Z.div_pos; lia|by apply digit_char_number].
Qed.

Lemma Itoa_number n : 0 <= n -> is_number (Itoa n) /\ (n < 2 ^ 32 -> ParseUint (Itoa n) 10 32 = Some n).
Proof.
  intros Hn. unfold Itoa. rewrite (proj2 (Z.ltb_ge n 0)) by lia. split.
  - unfold FormatUint. apply format_is_number; [done|]. constructor.
  - intros Hb. apply ParseUint_FormatUint; lia.
Qed.

(** The account or group with the relative ID [n]. *)
Definition domain_sid (m : IDMap) (n : Z) : string := DomainSID m +:+ "-" +:+ Itoa n.

Lemma rid_domain_sid m n : DomainSID m <> "" -> is_ascii (DomainSID m) -> 0 <= Base m -> 0 <= n <= 2 ^ 31 - 1 - Base m ->
  rid m (domain_sid m n) = Some n.
Proof.
  intros Hne Ha Hb Hn. unfold rid, domain_sid. rewrite bool_decide_eq_false_2 by done.
  destruct (Itoa_number n) as [Hnum Hp]; [lia|]. pose proof (number_is_ascii _ Hnum) as Hna.
  assert (is_ascii "-") as Hd by (repeat constructor; done).
  rewrite !ToUpper_app, (ToUpper_number (Itoa n)) by (done || by apply is_ascii_app).
  assert (strings_ToUpper "-" = "-") as -> by (rewrite ToUpper_ascii by done; done).
  rewrite <-string_app_assoc, CutPrefix_app. simpl. rewrite Hp by lia. simpl. by rewrite (proj2 (Z.ltb_ge _ n)) by lia.
Qed.

(** Domain accounts keep their owner through the bucket: the uid and gid
    recorded for a file a domain account creates are in the domain's range and
    below 2^31, and show in Windows as the account and its primary group again;
    a uid below the range never shows as an account of the domain. *)
Theorem domain_ids_round_trip (m : IDMap) (user group : Z) (name dom : string) (gs : list string)
    (Hne : DomainSID m <> "") (Ha : is_ascii (DomainSID m)) (Hb : 0 <= Base m)
    (Hu : 0 <= user <= 2 ^ 31 - 1 - Base m) (Hg : 0 <= group <= 2 ^ 31 - 1 - Base m) :
  (exists uid gid,
     owner (Some m) (Some (mkIdentity name dom (domain_sid m user) (domain_sid m group) gs MechanismKerberos)) = Some (uid, gid) /\
     Base m <= uid < 2 ^ 31 /\ Base m <= gid < 2 ^ 31 /\
     sids (Some m) uid gid = (domain_sid m user, domain_sid m group)) /\
  (forall uid kind, uid < Base m -> HasPrefix (DomainSID m) "S-1-5-" = true -> forall n, sid m uid kind <> domain_sid m n).
Proof.
  split.
  - exists (Base m + user), (Base m + group). unfold owner. simpl. rewrite !rid_domain_sid by done. simpl.
    split_and!; [done|lia|lia|lia|lia|]. rewrite bool_decide_eq_false_2 by done. simpl. unfold sid. rewrite bool_decide_eq_false_2 by done. simpl.
    rewrite !(proj2 (Z.leb_le (Base m) _)) by lia. unfold domain_sid. by replace (Base m + user - Base m) with user by lia;
      replace (Base m + group - Base m) with group by lia.
  - intros uid kind Hlt Hp n. unfold sid, domain_sid. rewrite (proj2 (Z.leb_gt (Base m) uid)), andb_false_r by lia.
    apply HasPrefix_spec in Hp as [r ->]. simpl. congruence.
Qed.

(** ** Access *)

Definition with_domain (d : string) (id : Identity) : Identity :=
  mkIdentity (Username id) d (SID id) (PrimaryGroup id) (Groups id) (Mechanism id).

Lemma matches_domain r id d e : Mechanism id = MechanismNTLM -> matches r (with_domain d id) e = matches r id e.
Proof. intros Hm. unfold matches. cbn [with_domain Username SID PrimaryGroup Groups Mechanism]. by rewrite Hm. Qed.

Definition with_groups (g : gmap string (list string)) (r : accessRules) : accessRules := mkRules (domain r) g (shares r).

Lemma matches_groups r id g e : Mechanism id <> MechanismNTLM -> matches (with_groups g r) id e = matches r id e.
Proof. intros Hm. unfold matches. cbn [with_groups groups domain]. by destruct (decide (Mechanism id = MechanismNTLM)). Qed.

Lemma access_congr r r' id id' share : shares r = shares r' -> (forall e, matches r id e = matches r' id' e) ->
  access r (Some id) share = access r' (Some id') share.
Proof.
  intros Hs He. unfold access. rewrite Hs. destruct (shares r' !! _) as [s|]; [|done].
  assert (forall l, matchesAny r id l = matchesAny r' id' l) as E.
  { intros l. unfold matchesAny. induction l as [|e l IH]; [done|]. simpl. by rewrite He, IH. }
  by rewrite !E.
Qed.

(** What a session may do on a share rests only on what its authentication
    proved: an NTLM client may claim any domain and gets the same access, and a
    Kerberos account gets nothing from the groups of a local account of its
    name.  A share with a list of users refuses everyone who is not on it, and
    only a user on the list of writers writes to a share that is read-only. *)
Theorem access_rests_on_proof (r : accessRules) (id : Identity) (share : string) :
  (Mechanism id = MechanismNTLM -> forall d, access r (Some (with_domain d id)) share = access r (Some id) share) /\
  (Mechanism id <> MechanismNTLM -> forall g, access (with_groups g r) (Some id) share = access r (Some id) share) /\
  (forall s, shares r !! strings_ToLower share = Some s ->
     access r None share = ShareDenied /\
     (access r (Some id) share <> ShareDenied -> ValidUsers s = [] \/ exists e, e ∈ ValidUsers s /\ matches r id e = true) /\
     (access r (Some id) share = ShareReadWrite -> ReadOnly s = true \/ (exists e, e ∈ ReadList s /\ matches r id e = true) ->
      exists e, e ∈ WriteList s /\ matches r id e = true)).
Proof.
  split_and!.
  - intros Hm d. apply access_congr; [done|]. intros e. by apply matches_domain.
  - intros Hm g. apply access_congr; [done|]. intros e. by apply matches_groups.
  - intros s Hs. assert (Hany : forall l, matchesAny r id l = true <-> exists e, e ∈ l /\ matches r id e = true).
    { intros l. unfold matchesAny. rewrite existsb_exists. by setoid_rewrite list_elem_of_In. }
    unfold access. rewrite Hs. split_and!; [done| |].
    + destruct (bool_decide (ValidUsers s = [])) eqn:E; [bool_to_prop; by left|].
      destruct (matchesAny r id (ValidUsers s)) eqn:Ev; [right; by apply Hany|done].
    + destruct (_ && _); [done|]. destruct (matchesAny r id (WriteList s)) eqn:Ew; [intros _ _; by apply Hany|].
      intros Hrw [Hro|Hrl]; [by rewrite Hro in Hrw|]. apply Hany in Hrl. by rewrite Hrl, orb_true_r in Hrw.
Qed.

End Identity.

(** ** Witnesses *)

Section Witness.
#[local] Instance folding : CaseFolding := FoldNames.ascii_folding.
#[local] Instance mapping : CaseMapping := GoText.ascii_case.

Definition example_map : IDMap := mkIDMap "S-1-5-21-1-2-3" 100000 ∅.

Lemma domain_ids_round_trip_witness :
  exists uid gid,
    owner (Some example_map) (Some (mkIdentity "ann" "AD" (domain_sid example_map 1105) (domain_sid example_map 513) [] MechanismKerberos))
      = Some (uid, gid) /\
    sids (Some example_map) uid gid = ("S-1-5-21-1-2-3-1105", "S-1-5-21-1-2-3-513").
Proof.
  destruct (domain_ids_round_trip example_map 1105 513 "ann" "AD" []) as [(uid & gid & Ho & _ & _ & Hs) _];
    [discriminate|apply (bool_decide_unpack _); vm_compute; exact I|discriminate|split; discriminate|split; discriminate|].
  exists uid, gid. split; [exact Ho|]. rewrite Hs. vm_compute. reflexivity.
Defined.

Definition example_rules : accessRules :=
  newAccessRules "BLUESTONE" [("Ann", ["Staff"])] [mkShare "docs" "/docs" true ["@staff"; "AD\bob"] [] ["ann"]].

Example staff_writes :
  access example_rules (Some (mkIdentity "ann" "" "" "" [] MechanismNTLM)) "DOCS" = ShareReadWrite /\
  access example_rules (Some (mkIdentity "ann" "AD" "S-1-5-21-1-2-3-1105" "" [] MechanismKerberos)) "docs" = ShareDenied /\
  access example_rules (Some (mkIdentity "bob" "ad" "S-1-5-21-1-2-3-1106" "" [] MechanismKerberos)) "docs" = ShareReadOnly.
Proof. vm_compute. auto. Qed.

(** A base of 1000 is accepted by the configuration, and is the default owner's
    uid: files nobody mapped show as an account of the domain. *)
Lemma default_owner_shown_as_domain_account :
  sids (Some (mkIDMap "S-1-5-21-1-2-3" 1000 ∅)) Attributes.DefaultUID Attributes.DefaultGID = ("S-1-5-21-1-2-3-0", "S-1-5-21-1-2-3-0").
Proof. vm_compute. reflexivity. Qed.

End Witness.
End SmbIdentity.
