(* ===== verification/GoMatch.v ===== *)
(** * [filepath.Match] of the standard library, on Linux

    Shell patterns over the bytes of a name: [*] and [?] stop at a slash, [[...]]
    is a class of runes, and a backslash takes the next character as it is.
    A pattern with a class that is not closed is an error ([None]) also where the
    name has failed to match before it. *)
From S2P Require Import Prelude Runes.

Module GoMatch.
Import Runes.

(** [utf8.DecodeRuneInString] and what is left. *)
Definition first_rune (l : list Z) : rune * list Z :=
  match l with [] => (RuneError, []) | b :: l => decode_rune b l end.

(** [getEsc]: a rune of a class, and the rest of the chunk, which is not empty. *)
Definition getEsc (chunk : list Z) : option (rune * list Z) :=
  let decoded chunk :=
    let '(r, rest) := first_rune chunk in
    if ((r =? RuneError) && (len rest =? len chunk - 1)) || bool_decide (rest = []) then None else Some (r, rest) in
  match chunk with
  | [] | 45 :: _ | 93 :: _ => None
  | 92 :: [] => None
  | 92 :: rest => decoded rest
  | _ => decoded chunk
  end.

Definition head_is (c : Z) (l : list Z) : bool := match l with x :: _ => x =? c | [] => false end.

(** A range of a class, [lo-hi] or one rune. *)
Definition next_range (chunk : list Z) : option (rune * rune * list Z) :=
  match getEsc chunk with
  | None => None
  | Some (lo, chunk) =>
      if head_is 45 chunk then match getEsc (tail chunk) with Some (hi, chunk) => Some (lo, hi, chunk) | None => None end
      else Some (lo, lo, chunk)
  end.

(** The ranges of a class: whether [r] is in one, and what follows the class. *)
Fixpoint ranges (fuel : nat) (r : rune) (chunk : list Z) (found : bool) (nrange : Z) : option (bool * list Z) :=
  match fuel with
  | O => None
  | S fuel =>
      if head_is 93 chunk && (0 <? nrange) then Some (found, tail chunk)
      else
        match next_range chunk with
        | None => None
        | Some (lo, hi, chunk) => ranges fuel r chunk (found || ((lo <=? r) && (r <=? hi))) (nrange + 1)
        end
  end.

(** [matchChunk]: [s] is [None] once the match has failed; the pattern is still
    read to its end. *)
Fixpoint match_chunk (fuel : nat) (chunk : list Z) (s : option (list Z)) : option (option (list Z)) :=
  match fuel, chunk with
  | _, [] => Some s
  | O, _ => None
  | S fuel, c :: chunk' =>
      let s := match s with Some [] => None | _ => s end in
      let literal b rest := match_chunk fuel rest (match s with Some (x :: s') => if x =? b then Some s' else None | _ => None end) in
      if c =? 91 then
        let '(r, after) := match s with Some l => let '(r, rest) := first_rune l in (r, Some rest) | None => (0, None) end in
        let '(negated, body) := if head_is 94 chunk' then (true, tail chunk') else (false, chunk') in
        match ranges (S (length body)) r body false 0 with
        | None => None
        | Some (found, rest) => match_chunk fuel rest (if Bool.eqb found negated then None else after)
        end
      else if c =? 63 then
        match_chunk fuel chunk'
          (match s with
           | Some ((x :: _) as l) => if x =? 47 then None else Some (first_rune l).2
           | _ => None
           end)
      else if c =? 92 then match chunk' with [] => None | b :: rest => literal b rest end
      else literal c chunk'
  end.
Definition matchChunk (chunk s : list Z) : option (option (list Z)) := match_chunk (length chunk) chunk (Some s).

(** [scanChunk]: whether stars come first, the chunk up to the next star, the rest. *)
Fixpoint skip_stars (p : list Z) : bool * list Z :=
  match p with
  | [] => (false, [])
  | c :: p' => if c =? 42 then (true, (skip_stars p').2) else (false, p)
  end.
Fixpoint chunk_end (p : list Z) (inrange : bool) : list Z * list Z :=
  match p with
  | [] => ([], [])
  | c :: p' =>
      if c =? 92 then
        match p' with
        | [] => ([c], [])
        | e :: p'' => let '(a, b) := chunk_end p'' inrange in (c :: e :: a, b)
        end
      else if (c =? 42) && negb inrange then ([], p)
      else let '(a, b) := chunk_end p' (if c =? 91 then true else if c =? 93 then false else inrange) in (c :: a, b)
  end.
Definition scanChunk (p : list Z) : bool * list Z * list Z :=
  let '(star, p) := skip_stars p in let '(chunk, rest) := chunk_end p false in (star, chunk, rest).

(** What is left of the pattern after a mismatch is checked for its form. *)
Fixpoint check_rest (fuel : nat) (p : list Z) : option bool :=
  match fuel, p with
  | _, [] => Some false
  | O, _ => None
  | S fuel, _ =>
      let '(_, chunk, rest) := scanChunk p in
      match matchChunk chunk [] with None => None | Some _ => check_rest fuel rest end
  end.

(** The places after the first one where a chunk that follows a star is tried. *)
Fixpoint try_later (chunk name : list Z) (last : bool) : option (option (list Z)) :=
  match name with
  | [] => Some None
  | c :: name' =>
      if c =? 47 then Some None
      else
        match matchChunk chunk name' with
        | None => None
        | Some (Some t) => if last && negb (bool_decide (t = [])) then try_later chunk name' last else Some (Some t)
        | Some None => try_later chunk name' last
        end
  end.

Fixpoint match_loop (fuel : nat) (pattern name : list Z) : option bool :=
  match fuel, pattern with
  | _, [] => Some (bool_decide (name = []))
  | O, _ => None
  | S fuel, _ =>
      let '(star, chunk, rest) := scanChunk pattern in
      if star && bool_decide (chunk = []) then Some (negb (bool_decide (47 ∈ name)))
      else
        match matchChunk chunk name with
        | None => None
        | Some (Some t) =>
            if bool_decide (t = []) || negb (bool_decide (rest = [])) then match_loop fuel rest t
            else if star then
              match try_later chunk name true with
              | None => None
              | Some (Some t) => match_loop fuel rest t
              | Some None => check_rest fuel rest
              end
            else check_rest fuel rest
        | Some None =>
            if star then
              match try_later chunk name (bool_decide (rest = [])) with
              | None => None
              | Some (Some t) => match_loop fuel rest t
              | Some None => check_rest fuel rest
              end
            else check_rest fuel rest
        end
  end.

Definition Match (pattern name : string) : option bool :=
  match_loop (String.length pattern) (bytes_of pattern) (bytes_of name).

(** ** The fuel is enough: each turn takes a character of the pattern or more *)

Lemma decode_rune_rest b l : (length (decode_rune b l).2 <= length l)%nat.
Proof. unfold decode_rune. repeat (case_match; simpl in *; try lia). Qed.

Lemma first_rune_rest l : l <> [] -> (length (first_rune l).2 < length l)%nat.
Proof. destruct l as [|b l]; [done|]. intros _. pose proof (decode_rune_rest b l). simpl. lia. Qed.

Lemma getEsc_rest chunk r rest : getEsc chunk = Some (r, rest) -> (length rest < length chunk)%nat.
Proof.
  assert (Hd : forall l, l <> [] -> (let '(r, rest) := first_rune l in
    if ((r =? RuneError) && (len rest =? len l - 1)) || bool_decide (rest = []) then None else Some (r, rest)) = Some (r, rest) ->
    (length rest < length l)%nat).
  { intros l Hl. pose proof (first_rune_rest l Hl). destruct (first_rune l). case_match; [done|]. intros. by simplify_eq. }
  unfold getEsc. intros E. destruct chunk as [|c l]; [done|].
  destruct (decide (c = 92)) as [->|Hc].
  - destruct l as [|b l]; [done|]. apply Hd in E; [simpl in *; lia|done].
  - apply Hd; [done|]. revert E. repeat (case_match; try done).
Qed.

Lemma next_range_rest chunk lo hi rest : next_range chunk = Some (lo, hi, rest) -> (length rest < length chunk)%nat.
Proof.
  unfold next_range. destruct (getEsc chunk) as [[a c]|] eqn:E; [|done]. apply getEsc_rest in E.
  case_match; [|intros; by simplify_eq]. destruct (getEsc (tail c)) as [[b c']|] eqn:E'; [|done].
  apply getEsc_rest in E'. intros. simplify_eq. destruct c; simpl in *; lia.
Qed.

Lemma ranges_fuel n m r chunk found k : (length chunk < n)%nat -> (length chunk < m)%nat ->
  ranges n r chunk found k = ranges m r chunk found k.
Proof.
  revert m chunk found k. induction n as [|n IH]; intros [|m] chunk found k Hn Hm; try lia.
  cbn [ranges]. case_match; [done|]. destruct (next_range chunk) as [[[lo hi] c]|] eqn:E; [|done].
  apply next_range_rest in E. apply IH; lia.
Qed.

Lemma ranges_rest n r chunk found k b rest : ranges n r chunk found k = Some (b, rest) -> (length rest <= length chunk)%nat.
Proof.
  revert chunk found k. induction n as [|n IH]; intros chunk found k; [done|]. cbn [ranges]. case_match.
  - intros. simplify_eq. destruct chunk; simpl; lia.
  - destruct (next_range chunk) as [[[lo hi] c]|] eqn:E; [|done]. apply next_range_rest in E. intros ?%IH. lia.
Qed.

Lemma match_chunk_fuel n m chunk s : (length chunk <= n)%nat -> (length chunk <= m)%nat ->
  match_chunk n chunk s = match_chunk m chunk s.
Proof.
  revert m chunk s. induction n as [|n IH]; intros [|m] [|c l] s Hn Hm; simpl in Hn, Hm; try lia; try done.
  cbn [match_chunk]. destruct (c =? 91).
  - destruct (match s with Some [] => None | _ => s end) as [x|]; [destruct (first_rune x) as [r a]|];
      (destruct (head_is 94 l); cbv beta iota zeta;
       destruct (ranges _ _ _ _ _) as [[f rest]|] eqn:E; try done; apply ranges_rest in E;
       apply IH; destruct l; simpl in *; lia).
  - destruct (c =? 63); [apply IH; lia|]. destruct (c =? 92); [destruct l as [|b l]; [done|]|]; apply IH; simpl in *; lia.
Qed.

Lemma skip_stars_rest p : let '(star, q) := skip_stars p in (length q <= length p)%nat /\ (star = true -> (length q < length p)%nat) /\ head_is 42 q = false.
Proof.
  induction p as [|c p IH]; [done|]. cbn [skip_stars]. destruct (c =? 42) eqn:E.
  - destruct (skip_stars p) as [b q]. simpl in *. destruct IH as (? & ? & ?). split_and!; [lia|intros; lia|done].
  - split_and!; [done|done|]. simpl. exact E.
Qed.

Lemma chunk_end_rest p b : (length (chunk_end p b).2 <= length p)%nat /\
  (p <> [] -> (b = false -> head_is 42 p = false) -> (length (chunk_end p b).2 < length p)%nat).
Proof.
  revert b. induction p as [p IH] using (well_founded_induction (wf_projected (fun l => lt l) length (fun _ _ H => H) lt_wf)).
  intros b. destruct p as [|c p]; [done|]. cbn [chunk_end].
  destruct (c =? 92).
  - destruct p as [|e p]; [simpl; split; intros; lia|].
    destruct (IH p ltac:(simpl; lia) b) as [Hp _]. destruct (chunk_end p b) as [x y]. simpl in *. split; intros; lia.
  - destruct ((c =? 42) && negb b) eqn:E.
    + apply andb_true_iff in E as [E Eb]. simpl. split; [lia|]. intros _ Hh. destruct b; [done|]. rewrite Hh in E by done. done.
    + match goal with |- context [chunk_end p ?x] => destruct (IH p ltac:(simpl; lia) x) as [Hp _]; destruct (chunk_end p x) as [u v] end.
      simpl in *. split; intros; lia.
Qed.

Lemma scanChunk_rest p star chunk rest : p <> [] -> scanChunk p = (star, chunk, rest) -> (length rest < length p)%nat.
Proof.
  unfold scanChunk. intros Hp E. pose proof (skip_stars_rest p) as Hs. destruct (skip_stars p) as [st q] eqn:Es.
  destruct Hs as (H1 & H2 & H3). pose proof (chunk_end_rest q false) as [H4 H5]. destruct (chunk_end q false) as [a b].
  simplify_eq. simpl in *. destruct q as [|x q].
  - destruct p as [|c p]; [done|]. simpl in *. lia.
  - assert (length rest < length (x :: q))%nat by (apply H5; done). lia.
Qed.

Lemma check_rest_fuel n m p : (length p <= n)%nat -> (length p <= m)%nat -> check_rest n p = check_rest m p.
Proof.
  revert m p. induction n as [|n IH]; intros [|m] [|c p] Hn Hm; simpl in Hn, Hm; try lia; try done.
  cbn [check_rest]. destruct (scanChunk (c :: p)) as [[star chunk] rest] eqn:E. apply scanChunk_rest in E; [|done]. simpl in E.
  case_match; [|done]. apply IH; lia.
Qed.

(** More turns than the pattern has characters change nothing. *)
Lemma match_loop_fuel n m p name : (length p <= n)%nat -> (length p <= m)%nat -> match_loop n p name = match_loop m p name.
Proof.
  revert m p name. induction n as [|n IH]; intros [|m] [|c p] name Hn Hm; simpl in Hn, Hm; try lia; try done.
  cbn [match_loop]. destruct (scanChunk (c :: p)) as [[star chunk] rest] eqn:E. apply scanChunk_rest in E; [|done]. simpl in E.
  repeat case_match; try done; first [apply IH; lia | apply check_rest_fuel; lia].
Qed.

Example match_star : Match "*.txt" "a.txt" = Some true.
Proof. by vm_compute. Qed.
Example match_stars : Match "a*b*c" "aXbbYc" = Some true.
Proof. by vm_compute. Qed.
Example match_class : Match "a[1-3]?" "a2é" = Some true.
Proof. by vm_compute. Qed.
Example match_short : Match "a?" "a" = Some false.
Proof. by vm_compute. Qed.
Example match_open_class : Match "b[1" "a" = None.
Proof. by vm_compute. Qed.

End GoMatch.
