(* ===== verification/SmbBackend.v ===== *)
(** * SMB shares ([internal/smb/backend.go])

    What an SMB open does to the file system and to the table of share modes, and
    what the handle it gives does afterwards.  A [*handle] is the value of its
    fields: its mutex serialises its methods, and the open file it holds is its
    own.  [errors.Is] looks inside wrapped errors. *)
From Stdlib Require Import Ascii.
From S2P Require Import Prelude GoPath StagingTypes Disk StagingManager CosClient Attributes Paths ShareTable Runes WindowsNames FoldNames GoText GoMatch SmbIdentity Changes VfsTypes Vfs VfsOps VfsFile.
Import GoText VfsTypes Vfs VfsOps VfsFile.

Module SmbBackend.

(** ** What the SMB library hands over ([smb/vfs]) *)

Definition DispositionSupersede : Z := 0.
Definition DispositionOpen : Z := 1.
Definition DispositionCreate : Z := 2.
Definition DispositionOpenIf : Z := 3.
Definition DispositionOverwrite : Z := 4.
Definition DispositionOverwriteIf : Z := 5.

Record OpenOptions := mkOptions {
  o_Path : string;
  Disposition : Z;
  CreateDir : bool;
  DesiredAccess : Z;
  ShareAccess : Z;
  DeleteOnClose : bool;
  User : option SmbIdentity.Identity
}.

Record SetInfoRequest := mkSetInfo {
  CreationTime : option Time;
  LastAccessTime : option Time;
  LastWriteTime : option Time;
  r_Attributes : option Z;
  EndOfFile : option Z
}.

Record FileInfo := mkInfo {
  i_Name : string;
  i_Size : Z;
  i_IsDir : bool;
  i_Attributes : Z;
  i_CreationTime : Time;
  i_LastAccess : Time;
  i_LastWrite : Time;
  i_ChangeTime : Time;
  OwnerSID : string;
  GroupSID : string
}.

Inductive smb_error :=
  | FromFs (e : VfsTypes.error)
  | ErrSharingViolation
  | ErrLimit
  | ErrExist
  | ErrNotExist
  | ErrInvalid
  | ErrUnsupported
  | ErrBadPattern
  | ErrEOF
  | ENOSPC.

(** [errors.Is(err, fs.ErrNotExist)] of a file system error. *)
Fixpoint disk_NotExist (e : Disk.error) : bool :=
  match e with Disk.ErrNotExist => true | Disk.Wrap e => disk_NotExist e | _ => false end.
Definition Is_NotExist (e : VfsTypes.error) : bool :=
  match e with
  | NotExist => true
  | FromPosix e => CosClient.Is_NotExist e
  | FromStaging e => disk_NotExist e
  | _ => false
  end.

(** ** Access bits *)

Definition accessReadData : Z := 0x1.
Definition accessWriteData : Z := 0x2.
Definition accessAppendData : Z := 0x4.
Definition accessExecute : Z := 0x20.
Definition accessDelete : Z := 0x10000.
Definition accessGenericAll : Z := 0x10000000.
Definition accessGenericExec : Z := 0x20000000.
Definition accessGenericWrite : Z := 0x40000000.
Definition accessGenericRead : Z := 0x80000000.
Definition shareAccessRead : Z := 0x1.
Definition shareAccessWrite : Z := 0x2.
Definition shareAccessDelete : Z := 0x4.

Definition any_of (bits : list Z) : Z := foldr Z.lor 0 bits.

Definition requestedAccess (desired : Z) (deleteOnClose : bool) : Share.Access :=
  let access := if has desired (any_of [accessReadData; accessExecute; accessGenericRead; accessGenericExec; accessGenericAll])
                then Share.AccessRead else 0 in
  let access := if has desired (any_of [accessWriteData; accessAppendData; accessGenericWrite; accessGenericAll])
                then Z.lor access Share.AccessWrite else access in
  if has desired (any_of [accessDelete; accessGenericAll]) || deleteOnClose then Z.lor access Share.AccessDelete else access.

Definition permittedAccess (share : Z) : Share.Access :=
  let permitted := if has share shareAccessRead then Share.AccessRead else 0 in
  let permitted := if has share shareAccessWrite then Z.lor permitted Share.AccessWrite else permitted in
  if has share shareAccessDelete then Z.lor permitted Share.AccessDelete else permitted.

Definition replacesData (disposition : Z) : bool :=
  (disposition =? DispositionOverwrite) || (disposition =? DispositionOverwriteIf) || (disposition =? DispositionSupersede).

(** [sharePath]: an SMB path as a path of the view. *)
Definition sharePath (name : string) : string := Clean ("/" +:+ ReplaceAll name "\"%char "/"%char).

(** ** State *)

(** What a share is configured with; its view of the file system is the [View]. *)
Record Backend := mkBackend {
  b_root : string;
  ids : option SmbIdentity.IDMap;
  maxStreamBytes : Z
}.

Record bucketCopy := mkCopy { src : string; c_size : Z; srcTime : Time; dstTime : Time }.

Record handle := mkHandle {
  dir : bool;
  h_path : string;
  file : option File;
  h_writable : bool;
  reservation : option positive;
  copied : option bucketCopy
}.

Definition set_path (p : string) (h : handle) : handle := mkHandle (dir h) p (file h) (h_writable h) (reservation h) (copied h).
Definition set_file (f : option File) (h : handle) : handle := mkHandle (dir h) (h_path h) f (h_writable h) (reservation h) (copied h).
Definition set_writable (w : bool) (h : handle) : handle := mkHandle (dir h) (h_path h) (file h) w (reservation h) (copied h).
Definition set_reservation (r : option positive) (h : handle) : handle := mkHandle (dir h) (h_path h) (file h) (h_writable h) r (copied h).
Definition set_copied (c : option bucketCopy) (h : handle) : handle := mkHandle (dir h) (h_path h) (file h) (h_writable h) (reservation h) c.

(** [newHandle]. *)
Definition newHandle (p : string) (d : bool) : handle := mkHandle d p None false None None.

Section SmbBackend.
Context `{PathHash} {PO : PosixOps} {CF : FoldNames.CaseFolding} {CM : CaseMapping} {V : View}.

(** The gateway's file system and its table of open modes, which shares have in common. *)
Record gateway := mkGateway { files : Filesystem; opens : Share.ShareTable }.

Definition set_files (fs : Filesystem) (g : gateway) : gateway := mkGateway fs (opens g).
Definition set_opens (t : Share.ShareTable) (g : gateway) : gateway := mkGateway (files g) t.

(** A call of the file system. *)
Definition fs_call {A} (f : Filesystem -> Filesystem * A) (g : gateway) : gateway * A :=
  let '(fs, r) := f (files g) in (set_files fs g, r).

(** [reservation.Release()], of [nil] too. *)
Definition release (r : option positive) (g : gateway) : gateway :=
  match r with Some a => set_opens (Share.Release (opens g) a) g | None => g end.

(** [newShareBackend]: the view of the share's directory, which is made if it is
    missing; a failure is only logged. *)
Definition newShareBackend (d : string) (ids : option SmbIdentity.IDMap) (maxStreamBytes : Z) (now : Time) (fs : Filesystem)
    : Filesystem * (View * Backend) :=
  let root := Clean ("/" +:+ d) in
  let b := mkBackend root ids maxStreamBytes in
  if bool_decide (root = "/") then (fs, (V, b))
  else
    let '(fs, r) := Vfs.Stat root now fs in
    let fs := match r with
              | inl info => if VfsTypes.IsDir info then fs else (MkdirAll root 493 now fs).1
              | inr _ => (MkdirAll root 493 now fs).1
              end in
    let '(fs, view) := WithRoot root now fs in (fs, (view, b)).

Context (b : Backend).

Definition tableKey (p : string) : string := path_Join [b_root b; p].

Definition setOwner (p : string) (user : option SmbIdentity.Identity) (now : Time) (g : gateway) : gateway :=
  match SmbIdentity.owner (ids b) user with
  | None => g
  | Some (uid, gid) => (fs_call (Chown p uid gid now) g).1
  end.

Definition reserve (path : string) (opts : OpenOptions) (g : gateway) : gateway * (positive + smb_error) :=
  match Share.Acquire (opens g) (tableKey path) (requestedAccess (DesiredAccess opts) (DeleteOnClose opts))
          (permittedAccess (ShareAccess opts)) with
  | (t, inl a) => (set_opens t g, inl a)
  | (t, inr Share.ErrSharingViolation) => (set_opens t g, inr ErrSharingViolation)
  | (t, inr Share.ErrOpenLimit) => (set_opens t g, inr ErrLimit)
  end.

(** ** Opening *)

(** [openWritable]. *)
Definition openWritable (p : string) (flag : Z) (now : Time) (g : gateway) : gateway * (handle + smb_error) :=
  match fs_call (OpenFile p flag 420 now) g with
  | (g, inr e) => (g, inr (FromFs e))
  | (g, inl f) => (g, inl (set_writable true (set_file (Some f) (newHandle p false))))
  end.

Definition rw : Z := O_RDWR.
Definition rw_create_trunc : Z := Z.lor O_RDWR (Z.lor O_CREATE O_TRUNC).
Definition rw_trunc : Z := Z.lor O_RDWR O_TRUNC.

(** What a disposition does to a file that is not a directory. *)
Definition open_disposition (p : string) (disposition : Z) (exists_ : bool) (now : Time) (g : gateway)
    : gateway * (handle + smb_error) :=
  if disposition =? DispositionOpen then
    if exists_ then (g, inl (newHandle p false)) else (g, inr ErrNotExist)
  else if disposition =? DispositionOpenIf then
    if exists_ then (g, inl (newHandle p false)) else openWritable p rw_create_trunc now g
  else if disposition =? DispositionCreate then
    if exists_ then (g, inr ErrExist) else openWritable p rw_create_trunc now g
  else if disposition =? DispositionOverwrite then
    if exists_ then openWritable p rw_trunc now g else (g, inr ErrNotExist)
  else if (disposition =? DispositionSupersede) || (disposition =? DispositionOverwriteIf) then
    openWritable p rw_create_trunc now g
  else (g, inr ErrInvalid).

(** [Close] of a handle. *)
Definition Close (now : Time) (g : gateway) (h : handle) : gateway * handle * option smb_error :=
  let g := release (reservation h) g in
  let h := set_reservation None h in
  match file h with
  | None => (g, h, None)
  | Some f =>
      let '(fs, _, err) := VfsFile.Close now (files g) f in
      (set_files fs g, set_file None h, FromFs <$> err)
  end.

Definition no_streams : Attributes.AttributeUpdate :=
  Attributes.mkUpdate None None None None None None None (Some ∅).

(** What follows the disposition: the owner of a new file is recorded, and the
    streams of a file whose data were replaced go. *)
Definition opened (p : string) (opts : OpenOptions) (info : option entry) (now : Time) (h : handle) (g : gateway)
    : gateway * (handle + smb_error) :=
  match info with
  | None => (setOwner p (User opts) now g, inl h)
  | Some info =>
      if replacesData (Disposition opts) && negb (bool_decide (Attributes.Streams_ (FileAttributes startup info) = ∅)) then
        match fs_call (SetAttributes p no_streams now) g with
        | (g, Some e) => let '(g, _, _) := Close now g h in (g, inr (FromFs e))
        | (g, None) => (g, inl h)
        end
      else (g, inl h)
  end.

Definition open_file (p : string) (opts : OpenOptions) (info : option entry) (now : Time) (g : gateway)
    : gateway * (handle + smb_error) :=
  match open_disposition p (Disposition opts) (is_given info) now g with
  | (g, inr e) => (g, inr e)
  | (g, inl h) => opened p opts info now h g
  end.

Definition open_directory (p : string) (opts : OpenOptions) (info : option entry) (now : Time) (g : gateway)
    : gateway * (handle + smb_error) :=
  match info with
  | Some i =>
      if (Disposition opts =? DispositionCreate) || negb (VfsTypes.IsDir i) then (g, inr ErrExist)
      else (g, inl (newHandle p true))
  | None =>
      if Disposition opts =? DispositionOpen then (g, inr ErrNotExist)
      else
        match fs_call (MkdirAll p 493 now) g with
        | (g, Some e) => (g, inr (FromFs e))
        | (g, None) => (setOwner p (User opts) now g, inl (newHandle p true))
        end
  end.

(** [Open] once the path was looked up.  Directories are not reserved. *)
Definition open_at (p : string) (opts : OpenOptions) (info : option entry) (now : Time) (g : gateway)
    : gateway * (handle + smb_error) :=
  let is_dir := match info with Some i => VfsTypes.IsDir i | None => false end in
  if CreateDir opts then open_directory p opts info now g
  else if is_dir then
    if (Disposition opts =? DispositionOpen) || (Disposition opts =? DispositionOpenIf)
    then (g, inl (newHandle p true)) else (g, inr ErrExist)
  else
    match reserve p opts g with
    | (g, inr e) => (g, inr e)
    | (g, inl a) =>
        match open_file p opts info now g with
        | (g, inr e) => (release (Some a) g, inr e)
        | (g, inl h) => (g, inl (set_reservation (Some a) h))
        end
    end.

Definition Open (opts : OpenOptions) (now : Time) (g : gateway) : gateway * (handle + smb_error) :=
  let p := sharePath (o_Path opts) in
  match fs_call (Vfs.Stat p now) g with
  | (g, inl i) => open_at p opts (Some i) now g
  | (g, inr e) => if Is_NotExist e then open_at p opts None now g else (g, inr (FromFs e))
  end.

(** [Space]. *)
Definition Space (g : gateway) : Z * Z := let c := capacity (files g) in (TotalBytes c, AvailableBytes c).

(** ** Handles *)

Definition close_file (f : option File) (now : Time) (g : gateway) : gateway * option File * option smb_error :=
  match f with
  | None => (g, None, None)
  | Some f => let '(fs, f, err) := VfsFile.Close now (files g) f in (set_files fs g, Some f, FromFs <$> err)
  end.

(** [fileFor]: the open file, opened again for writing when it has to be; the old
    one is closed once the new one is open. *)
Definition fileFor (write : bool) (now : Time) (g : gateway) (h : handle) : gateway * handle * (File + smb_error) :=
  if dir h then (g, h, inr ErrInvalid)
  else
    let h := if write then set_copied None h else h in
    let reopen g :=
      match fs_call (OpenFile (h_path h) (if write then O_RDWR else O_RDONLY) 0 now) g with
      | (g, inr e) => (g, h, inr (FromFs e))
      | (g, inl f) => let '(g, _, _) := close_file (file h) now g in (g, set_writable write (set_file (Some f) h), inl f)
      end in
    match file h with
    | Some f => if h_writable h || negb write then (g, h, inl f) else reopen g
    | None => reopen g
    end.

Definition Read (offset n : Z) (now : Time) (g : gateway) (h : handle) : gateway * handle * (bytes * option smb_error) :=
  match fileFor false now g h with
  | (g, h, inr e) => (g, h, ([], Some e))
  | (g, h, inl f) =>
      let '(fs, f, (got, err)) := ReadAt n offset now (files g) f in
      (set_files fs g, set_file (Some f) h, (got, FromFs <$> err))
  end.

Definition Write (offset : Z) (p : bytes) (now : Time) (g : gateway) (h : handle) : gateway * handle * (Z * option smb_error) :=
  match fileFor true now g h with
  | (g, h, inr e) => (g, h, (0, Some e))
  | (g, h, inl f) =>
      let '(fs, f, (n, err)) := WriteAt p offset now (files g) f in
      (set_files fs g, set_file (Some f) h, (n, FromFs <$> err))
  end.

(** [fileInfo] and [Stat]. *)
Definition fileInfo (e : entry) : FileInfo :=
  let attrs := FileAttributes startup e in
  mkInfo (VfsTypes.Name e) (VfsTypes.Size e) (VfsTypes.IsDir e) (Attributes.WindowsAttributes attrs) (Attributes.Btime attrs)
    (VfsTypes.ModTime e) (VfsTypes.ModTime e) (VfsTypes.ModTime e) "" "".

Definition Stat (now : Time) (g : gateway) (h : handle) : gateway * (FileInfo + smb_error) :=
  match fs_call (Vfs.Stat (h_path h) now) g with
  | (g, inr e) => (g, inr (FromFs e))
  | (g, inl e) =>
      let fi := fileInfo e in
      let attrs := FileAttributes startup e in
      let '(owner, group) := SmbIdentity.sids (ids b) (Attributes.UID attrs) (Attributes.GID attrs) in
      (g, inl (mkInfo (i_Name fi) (i_Size fi) (i_IsDir fi) (i_Attributes fi) (i_CreationTime fi) (i_LastAccess fi)
                 (i_LastWrite fi) (i_ChangeTime fi) owner group))
  end.

Definition matchPattern (pattern name : string) : option bool :=
  if bool_decide (pattern = "") || bool_decide (pattern = "*") then Some true
  else GoMatch.Match (strings_ToLower pattern) (strings_ToLower name).

(** [Enumerate]: the entries given before an error, if there is one. *)
Fixpoint matching (pattern : string) (es : list entry) : list FileInfo * option smb_error :=
  match es with
  | [] => ([], None)
  | e :: es =>
      match matchPattern pattern (VfsTypes.Name e) with
      | None => ([], Some ErrBadPattern)
      | Some m => let '(found, err) := matching pattern es in (if m then fileInfo e :: found else found, err)
      end
  end.

Definition Enumerate (pattern : string) (now : Time) (g : gateway) (h : handle) : gateway * (list FileInfo * option smb_error) :=
  if negb (dir h) then (g, ([], Some ErrInvalid))
  else
    match fs_call (ReadDir (h_path h) now) g with
    | (g, inr e) => (g, ([], Some (FromFs e)))
    | (g, inl es) => (g, matching pattern es)
    end.

(** [SetInfo]: a length first, then the times that are not zero and the attributes. *)
Definition given_time (t : option Time) : option Time := t ← t; if IsZero t then None else Some t.

Definition info_update (req : SetInfoRequest) : Attributes.AttributeUpdate :=
  Attributes.mkUpdate None None None (given_time (LastAccessTime req)) (given_time (LastWriteTime req))
    (given_time (CreationTime req)) (r_Attributes req) None.

Definition set_attributes (req : SetInfoRequest) (now : Time) (g : gateway) (h : handle) : gateway * handle * option smb_error :=
  if is_given (given_time (CreationTime req)) || is_given (given_time (LastWriteTime req))
     || is_given (given_time (LastAccessTime req)) || is_given (r_Attributes req)
  then let '(g, err) := fs_call (SetAttributes (h_path h) (info_update req) now) g in (g, h, FromFs <$> err)
  else (g, h, None).

Definition SetInfo (req : SetInfoRequest) (now : Time) (g : gateway) (h : handle) : gateway * handle * option smb_error :=
  match EndOfFile req with
  | None => set_attributes req now g h
  | Some n =>
      match fileFor true now g h with
      | (g, h, inr e) => (g, h, Some e)
      | (g, h, inl f) =>
          let '(fs, f, err) := Truncate n now (files g) f in
          let g := set_files fs g in
          let h := set_file (Some f) h in
          match err with Some e => (g, h, Some (FromFs e)) | None => set_attributes req now g h end
      end
  end.

(** [Rename].  A file whose close failed stays with the handle. *)
Definition rename_closed (target : string) (now : Time) (g : gateway) (h : handle) : gateway * handle * option smb_error :=
  match close_file (file h) now g with
  | (g, f, Some e) => (g, set_file f h, Some e)
  | (g, _, None) =>
      let h := set_file None h in
      match fs_call (VfsOps.Rename (h_path h) target now) g with
      | (g, Some e) => (g, h, Some (FromFs e))
      | (g, None) =>
          (set_opens (Share.Rename (opens g) (tableKey (h_path h)) (tableKey target)) g,
           set_path target (set_copied None h), None)
      end
  end.

Definition Rename (newPath : string) (replaceIfExists : bool) (now : Time) (g : gateway) (h : handle)
    : gateway * handle * option smb_error :=
  let target := sharePath newPath in
  if negb replaceIfExists && negb (bool_decide (FoldNames.EqualFold target (h_path h))) then
    match fs_call (Vfs.Stat target now) g with
    | (g, inl _) => (g, h, Some ErrExist)
    | (g, inr _) => rename_closed target now g h
    end
  else rename_closed target now g h.

(** ** Copies inside the bucket *)

Definition stillCopied (c : bucketCopy) (srcPath : string) (srcInfo : entry) (now : Time) (g : gateway) (h : handle)
    : gateway * bool :=
  if negb (bool_decide (src c = srcPath)) || negb (VfsTypes.Size srcInfo =? c_size c)
     || negb (VfsTypes.ModTime srcInfo =? srcTime c) then (g, false)
  else
    let '(g, staged) := fs_call (IsStaged srcPath now) g in
    if staged : bool then (g, false)
    else
      let '(g, staged) := fs_call (IsStaged (h_path h) now) g in
      if staged : bool then (g, false)
      else
        match fs_call (Vfs.Stat (h_path h) now) g with
        | (g, inl i) => (g, (VfsTypes.Size i =? c_size c) && (VfsTypes.ModTime i =? dstTime c))
        | (g, inr _) => (g, false)
        end.

Definition copyFileLocked (srcPath : string) (onlyUnwritten : bool) (now : Time) (g : gateway) (h : handle)
    : gateway * handle * option smb_error :=
  match close_file (file h) now g with
  | (g, f, Some e) => (g, set_file f h, Some e)
  | (g, f, None) =>
      let h := match f with Some _ => set_writable false (set_file None h) | None => h end in
      let '(g, err) := fs_call (CopyFile srcPath (h_path h) onlyUnwritten now) g in
      (g, h, FromFs <$> err)
  end.

(** The end of a copy: what both files are now, for the chunks that follow. *)
Definition note_copy (srcPath : string) (srcInfo : entry) (now : Time) (g : gateway) (h : handle) : gateway * handle :=
  match fs_call (Vfs.Stat (h_path h) now) g with
  | (g, inl i) =>
      (g, set_copied (if VfsTypes.Size i =? VfsTypes.Size srcInfo
                      then Some (mkCopy srcPath (VfsTypes.Size srcInfo) (VfsTypes.ModTime srcInfo) (VfsTypes.ModTime i))
                      else None) h)
  | (g, inr _) => (g, set_copied None h)
  end.

(** The first chunk of a copy: [dstSize] is how long the destination is. *)
Definition copy_whole (srcPath : string) (srcInfo : entry) (dstSize length : Z) (now : Time) (g : gateway) (h : handle)
    : gateway * handle * (Z * option smb_error) :=
  let size := VfsTypes.Size srcInfo in
  let whole := (length =? size) && (dstSize <=? size) in
  if whole || (dstSize =? size) then
    match copyFileLocked srcPath (negb whole) now g h with
    | (g, h, Some e) => (g, h, (0, Some e))
    | (g, h, None) => let '(g, h) := note_copy srcPath srcInfo now g h in (g, h, (length, None))
    end
  else (g, h, (0, Some ErrUnsupported)).

(** [CopyChunk].  [source] is [None] for a handle of another kind or another share,
    and for the destination itself. *)
Definition CopyChunk (source : option handle) (srcOffset dstOffset length : Z) (now : Time) (g : gateway) (h : handle)
    : gateway * handle * (Z * option smb_error) :=
  let unsupported g h := (g, h, (0, Some ErrUnsupported)) in
  match source with
  | None => unsupported g h
  | Some s =>
      if dir h || dir s then unsupported g h
      else if negb (srcOffset =? dstOffset) then unsupported g h
      else
        match fs_call (Vfs.Stat (h_path s) now) g with
        | (g, inr e) => (g, h, (0, Some (FromFs e)))
        | (g, inl srcInfo) =>
            if VfsTypes.Size srcInfo <? wrap64 (srcOffset + length) then unsupported g h
            else
              match copied h with
              | Some c =>
                  let '(g, still) := stillCopied c (h_path s) srcInfo now g h in
                  if still : bool then (g, h, (length, None)) else unsupported g (set_copied None h)
              | None =>
                  if negb (srcOffset =? 0) then unsupported g h
                  else
                    match fs_call (Vfs.Stat (h_path h) now) g with
                    | (g, inl i) => copy_whole (h_path s) srcInfo (VfsTypes.Size i) length now g h
                    | (g, inr e) =>
                        if Is_NotExist e then copy_whole (h_path s) srcInfo 0 length now g h
                        else (g, h, (0, Some (FromFs e)))
                    end
              end
        end
  end.

End SmbBackend.
End SmbBackend.
