(* ===== verification/SmbStreams.v ===== *)
(** * Named streams of SMB files ([internal/smb/streams.go])

    Streams are kept in a file's attributes.  An open stream is held in memory and
    saved when its handle closes.  Go panics on a slice that starts or ends below
    zero: such a result is [None]. *)
From S2P Require Import Prelude GoPath StagingTypes Disk StagingManager CosClient Attributes Paths ShareTable Runes FoldNames GoText SmbIdentity Config VfsTypes Vfs VfsOps VfsFile SmbBackend.
Import GoText VfsTypes Vfs VfsOps VfsFile SmbBackend.

Module SmbStreams.

Definition maxStreamNameLength : Z := 255.

Definition name_len (s : string) : Z := Z.of_nat (String.length s).

Definition streamLimit (b : Backend) : Z := if 0 <? maxStreamBytes b then maxStreamBytes b else Config.DefaultMaxStreamBytes.

(** The sums are over a Go map, whose order does not matter to them. *)
Definition streamsBytes (streams : gmap string bytes) : Z := map_sum (fun name data => name_len name + len data) streams.

Definition validStreamName (name : string) : bool :=
  negb (bool_decide (name = "")) && (len (Runes.runes name) <=? maxStreamNameLength)
  && negb (existsb (fun r => (r <? 32) || (r =? 92) || (r =? 47) || (r =? 58)) (Runes.runes name)).

Record streamHandle := mkStream {
  s_path : string;
  s_name : string;
  s_data : bytes;
  s_dirty : bool;
  s_reservation : option positive
}.

Definition with_data (d : bytes) (h : streamHandle) : streamHandle := mkStream (s_path h) (s_name h) d true (s_reservation h).

Section SmbStreams.
Context `{PathHash} {PO : PosixOps} {CF : FoldNames.CaseFolding} {CM : CaseMapping} {V : View} (b : Backend).

(** The order Go's runtime walks a map in. *)
Context (walked : gmap string bytes -> list string).

Fixpoint find_loop (names : list string) (name : string) : option string :=
  match names with
  | [] => None
  | stored :: names => if bool_decide (FoldNames.EqualFold stored name) then Some stored else find_loop names name
  end.

(** [findStream]: the name a stream is stored under, and whether it is stored. *)
Definition findStream (streams : gmap string bytes) (name : string) : string * bool :=
  if bool_decide (is_Some (streams !! name)) then (name, true)
  else match find_loop (walked streams) name with Some stored => (stored, true) | None => (name, false) end.

Definition fileStreams (p : string) (now : Time) (g : gateway) : gateway * (gmap string bytes + VfsTypes.error) :=
  match fs_call (Vfs.Stat p now) g with
  | (g, inr e) => (g, inr e)
  | (g, inl info) => (g, inl (Attributes.Streams_ (FileAttributes startup info)))
  end.

Definition streams_update (streams : gmap string bytes) : Attributes.AttributeUpdate :=
  Attributes.mkUpdate None None None None None None None (Some streams).

Definition save_streams (p : string) (streams : gmap string bytes) (now : Time) (g : gateway) : gateway * option smb_error :=
  let '(g, err) := fs_call (SetAttributes p (streams_update streams) now) g in (g, FromFs <$> err).

(** [updateStream]: [data] is [None] to remove the stream. *)
Definition updateStream (p name : string) (data : option bytes) (now : Time) (g : gateway) : gateway * option smb_error :=
  match fileStreams p now g with
  | (g, inr e) => (g, Some (FromFs e))
  | (g, inl streams) =>
      let '(stored, exists_) := findStream streams name in
      match data with
      | None => if (exists_ : bool) then save_streams p (delete stored streams) now g else (g, Some ErrNotExist)
      | Some data =>
          let streams := <[stored := data]> streams in
          if streamLimit b <? streamsBytes streams then (g, Some ENOSPC) else save_streams p streams now g
      end
  end.

(** [removeStream], and [Remove] of a file or a stream. *)
Definition removeStream (name : string) (now : Time) (g : gateway) : option (gateway * option smb_error) :=
  match Cut name (Ascii.ascii_of_nat 58) with
  | None => None
  | Some (base, stream) => Some (updateStream (sharePath base) stream None now g)
  end.

Definition Remove (name : string) (now : Time) (g : gateway) : gateway * option smb_error :=
  match removeStream name now g with
  | Some r => r
  | None => let '(g, err) := fs_call (VfsOps.Remove (sharePath name) now) g in (g, FromFs <$> err)
  end.

(** ** Opening *)

(** The streams of the file; a missing file is made when the disposition makes one. *)
Definition streams_for_open (p : string) (creates : bool) (now : Time) (g : gateway) : gateway * (gmap string bytes + smb_error) :=
  match fileStreams p now g with
  | (g, inl streams) => (g, inl streams)
  | (g, inr e) =>
      if Is_NotExist e && creates then
        match fs_call (OpenFile p rw_create_trunc 420 now) g with
        | (g, inr e) => (g, inr (FromFs e))
        | (g, inl f) =>
            let '(fs, _, err) := VfsFile.Close now (files g) f in
            (set_files fs g, match err with Some e => inr (FromFs e) | None => inl ∅ end)
        end
      else (g, inr (FromFs e))
  end.

(** What the disposition makes of the stream: whether its data are replaced. *)
Definition stream_disposition (disposition : Z) (exists_ : bool) : bool + smb_error :=
  if disposition =? DispositionOpen then if exists_ then inl false else inr ErrNotExist
  else if disposition =? DispositionCreate then if exists_ then inr ErrExist else inl false
  else if disposition =? DispositionOverwrite then if exists_ then inl true else inr ErrNotExist
  else if (disposition =? DispositionOverwriteIf) || (disposition =? DispositionSupersede) then inl true
  else if disposition =? DispositionOpenIf then inl false
  else inr ErrInvalid.

Definition OpenStream (opts : OpenOptions) (stream : string) (now : Time) (g : gateway) : gateway * (streamHandle + smb_error) :=
  if negb (validStreamName stream) then (g, inr ErrInvalid)
  else
    let p := sharePath (o_Path opts) in
    let creates := negb (Disposition opts =? DispositionOpen) && negb (Disposition opts =? DispositionOverwrite) in
    match streams_for_open p creates now g with
    | (g, inr e) => (g, inr e)
    | (g, inl streams) =>
        let '(name, exists_) := findStream streams stream in
        match stream_disposition (Disposition opts) exists_ with
        | inr e => (g, inr e)
        | inl replaced =>
            let stored := default [] (streams !! name) in
            match reserve b (p +:+ ":" +:+ strings_ToLower name) opts g with
            | (g, inr e) => (g, inr e)
            | (g, inl a) =>
                let h := mkStream p name (if (replaced : bool) then [] else stored) false (Some a) in
                if negb exists_ || (replaced && (0 <? len stored)) then
                  match updateStream p name (Some []) now g with
                  | (g, Some e) => (release (Some a) g, inr e)
                  | (g, None) => (g, inl h)
                  end
                else (g, inl h)
            end
        end
    end.

(** ** Open streams *)

Definition s_Read (offset n : Z) (h : streamHandle) : option (bytes * option smb_error) :=
  if len (s_data h) <=? offset then Some ([], Some ErrEOF)
  else if offset <? 0 then None
  else Some (Disk.pread (s_data h) offset n, None).

(** [checkSize]. *)
Definition checkSize (size : Z) (now : Time) (g : gateway) (h : streamHandle) : gateway * option smb_error :=
  if size <=? len (s_data h) then (g, None)
  else if streamLimit b <? size then (g, Some ENOSPC)
  else
    match fileStreams (s_path h) now g with
    | (g, inr e) => (g, Some (FromFs e))
    | (g, inl streams) =>
        let others := map_sum (fun name data => if bool_decide (name = s_name h) then 0 else name_len name + len data) streams in
        (g, if streamLimit b <? others + name_len (s_name h) + size then Some ENOSPC else None)
    end.

Definition s_Write (offset : Z) (p : bytes) (now : Time) (g : gateway) (h : streamHandle)
    : gateway * option (streamHandle * (Z * option smb_error)) :=
  let end_ := wrap64 (offset + len p) in
  match checkSize end_ now g h with
  | (g, Some e) => (g, Some (h, (0, Some e)))
  | (g, None) =>
      let d := if len (s_data h) <? end_ then s_data h ++ Disk.zeros (end_ - len (s_data h)) else s_data h in
      if (offset <? 0) || (len d <? offset) then (g, None)
      else
        let n := Z.to_nat offset in
        let room := drop n d in
        let d := take n d ++ take (length room) p ++ drop (length p) room in
        (g, Some (with_data d h, (len p, None)))
  end.

Definition s_SetInfo (req : SetInfoRequest) (now : Time) (g : gateway) (h : streamHandle)
    : gateway * option (streamHandle * option smb_error) :=
  match EndOfFile req with
  | None => (g, Some (h, None))
  | Some size =>
      match checkSize size now g h with
      | (g, Some e) => (g, Some (h, Some e))
      | (g, None) =>
          if size <? 0 then (g, None)
          else
            let d := if size <? len (s_data h) then take (Z.to_nat size) (s_data h)
                     else s_data h ++ Disk.zeros (size - len (s_data h)) in
            (g, Some (with_data d h, None))
      end
  end.

Definition s_Close (now : Time) (g : gateway) (h : streamHandle) : gateway * streamHandle * option smb_error :=
  let g := release (s_reservation h) g in
  let closed := mkStream (s_path h) (s_name h) (s_data h) false None in
  if negb (s_dirty h) then (g, closed, None)
  else let '(g, err) := updateStream (s_path h) (s_name h) (Some (s_data h)) now g in (g, closed, err).

Definition s_Stat (now : Time) (g : gateway) (h : streamHandle) : gateway * (FileInfo + smb_error) :=
  match fs_call (Vfs.Stat (s_path h) now) g with
  | (g, inr e) => (g, inr (FromFs e))
  | (g, inl e) =>
      let fi := fileInfo e in
      (g, inl (mkInfo (i_Name fi +:+ ":" +:+ s_name h) (len (s_data h)) false (i_Attributes fi) (i_CreationTime fi)
                 (i_LastAccess fi) (i_LastWrite fi) (i_ChangeTime fi) "" ""))
  end.

(** [Streams] of a file handle: the names in order, with their sizes. *)
Definition Streams (now : Time) (g : gateway) (h : handle) : gateway * (list (string * Z) + VfsTypes.error) :=
  match fileStreams (h_path h) now g with
  | (g, inr e) => (g, inr e)
  | (g, inl streams) =>
      (g, inl ((fun n => (n, len (default [] (streams !! n)))) <$> merge_sort Streams.Streams.string_le (walked streams)))
  end.

End SmbStreams.
End SmbStreams.
