(* ===== verification/SmbSafety.v ===== *)
(** * What SMB handles keep of the promises of the layers below

    The table of share modes holds exactly the opens of the handles that are open,
    and a handle opened on an existing file writes to that file's bytes. *)
From S2P Require Import Prelude GoPath StagingTypes Disk Session SessionSafety StagingManager CosClient Attributes Paths ShareTable FoldNames GoText SmbIdentity VfsTypes Vfs VfsOps VfsFile VfsFileSafety VfsOpenSafety SmbBackend SmbStreams.
Import GoText VfsTypes Vfs VfsOps VfsFile SmbBackend SmbStreams.

Module SmbSafety.

(** ** Live entries of the share table *)

Definition live (t : Share.ShareTable) (a : positive) : Prop :=
  exists hd, Share.heap t !! a = Some hd /\ Share.released hd = false.

Lemma live_Acquire t path access share t' a : Share.Acquire t path access share = (t', inl a) ->
  ~ live t a /\ forall x, live t' x <-> live t x \/ x = a.
Proof.
  intros (Ha & _ & _ & ->)%Share.Acquire_granted. pose proof (Share.fresh_heap t) as Hf. rewrite <-Ha in Hf.
  unfold live. simpl. split; [naive_solver|]. intros x. rewrite lookup_insert. case_decide; naive_solver.
Qed.

Lemma live_Release t a x : live (Share.Release t a) x <-> live t x /\ x <> a.
Proof.
  unfold live, Share.Release. destruct (Share.heap t !! a) as [hd|] eqn:Ha; [destruct (Share.released hd) eqn:Hr|].
  - split; [|by intros [? _]]. intros Hx. split; [done|]. intros ->. destruct Hx as (d & Hd & ?). congruence.
  - simpl. rewrite lookup_insert. case_decide as Hx; [subst|naive_solver]. split; [by intros (d & [= <-] & ?)|by intros [_ []]].
  - split; [|by intros [? _]]. intros Hx. split; [done|]. intros ->. destruct Hx as (d & Hd & ?). congruence.
Qed.

Lemma live_Rename t old new x : Share.wf t -> live (Share.Rename t old new) x <-> live t x.
Proof.
  intros Hwf. destruct (Share.Rename_cases t old new) as [->|(moved & Hne & Hm)]; [done|].
  unfold live. rewrite (Share.heap_Rename t old new moved) by done. case_decide; [|done].
  destruct (Share.heap t !! x); naive_solver.
Qed.

(** ** What the operations do to the table *)

Section Effects.
Context `{PathHash} {PO : PosixOps} {CF : FoldNames.CaseFolding} {CM : CaseMapping} {V : View} (b : Backend).

Lemma fs_call_opens {A} (f : Filesystem -> Filesystem * A) g g' r : fs_call f g = (g', r) -> opens g' = opens g.
Proof. unfold fs_call. destruct (f (files g)). by intros [= <- _]. Qed.

Lemma setOwner_opens p user now g : opens (setOwner b p user now g) = opens g.
Proof.
  unfold setOwner. destruct (SmbIdentity.owner _ _) as [[uid gid]|]; [|done].
  destruct (fs_call _ g) as [g' r] eqn:E. by apply fs_call_opens in E.
Qed.

Lemma close_file_opens f now g g' f' e : close_file f now g = (g', f', e) -> opens g' = opens g.
Proof. unfold close_file. destruct f; [|by intros [= <- _ _]]. repeat case_match. by intros [= <- _ _]. Qed.

(** A new handle of a file, not reserved yet. *)
Definition unreserved (d : bool) (h : handle) : Prop := dir h = d /\ reservation h = None.

Lemma open_disposition_opens p disposition e now g g' r :
  open_disposition p disposition e now g = (g', r) ->
  opens g' = opens g /\ (forall h, r = inl h -> unreserved false h).
Proof.
  assert (Hw : forall fl, openWritable p fl now g = (g', r) -> opens g' = opens g /\ (forall h, r = inl h -> unreserved false h)).
  { intros fl. unfold openWritable. destruct (fs_call _ g) as [g1 [f|e1]] eqn:E; apply fs_call_opens in E;
      intros [= <- <-]; (split; [done|]); intros h Hh; simplify_eq; done. }
  unfold open_disposition, unreserved in *. intros Ho. repeat case_match; eauto; simplify_eq; split; try done; intros; by simplify_eq.
Qed.

Lemma opened_opens p opts info now h g g' r : unreserved false h -> opened b p opts info now h g = (g', r) ->
  opens g' = opens g /\ (forall h', r = inl h' -> unreserved false h').
Proof.
  intros Hh. unfold opened. destruct info as [info|].
  - destruct (_ && _); [|by intros [= <- <-]; split; [|intros ? [= <-]]].
    destruct (fs_call _ g) as [g1 [e|]] eqn:E; apply fs_call_opens in E.
    + unfold Close. destruct Hh as [_ Hr]. rewrite Hr. cbn [release]. cbn [file set_reservation].
      destruct (file h); repeat case_match; intros; simplify_eq; by split.
    + intros [= <- <-]. split; [done|]. by intros ? [= <-].
  - intros [= <- <-]. split; [apply setOwner_opens|]. by intros ? [= <-].
Qed.

Lemma open_file_opens p opts info now g g' r : open_file b p opts info now g = (g', r) ->
  opens g' = opens g /\ (forall h, r = inl h -> unreserved false h).
Proof.
  unfold open_file. destruct (open_disposition _ _ _ _ _) as [g1 [h|e]] eqn:E; apply open_disposition_opens in E as [Ho Hh].
  - intros [E1 E2]%opened_opens; [|by apply Hh]. by rewrite E1.
  - by intros [= <- <-].
Qed.

(** The table after an open: as it was, apart from entries that are not live, or
    with one entry more, which the handle holds. *)
Definition reserves (t t' : Share.ShareTable) (r : option positive) : Prop :=
  match r with
  | None => forall x, live t' x <-> live t x
  | Some a => ~ live t a /\ forall x, live t' x <-> live t x \/ x = a
  end.

Lemma reserve_reserves path opts g g' r : reserve b path opts g = (g', r) ->
  (Share.wf (opens g) -> Share.wf (opens g')) /\
  reserves (opens g) (opens g') (match r with inl a => Some a | inr _ => None end).
Proof.
  unfold reserve. destruct (Share.Acquire _ _ _ _) as [t [a|e]] eqn:E.
  - intros [= <- <-]. split; [|by apply live_Acquire in E]. intros Hwf.
    apply (Share.Acquire_wf _ (tableKey b path) (requestedAccess (DesiredAccess opts) (DeleteOnClose opts))
             (permittedAccess (ShareAccess opts))) in Hwf. by rewrite E in Hwf.
  - apply Share.Acquire_refused in E as ->. destruct e; intros [= <- <-]; done.
Qed.

Lemma release_undoes t t' a : reserves t t' (Some a) -> reserves t (Share.Release t' a) None.
Proof. intros [Hn Hl] x. rewrite live_Release, Hl. split; [naive_solver|]. intros Hx. split; [by left|]. by intros ->. Qed.

Lemma open_directory_opens p opts info now g g' r : open_directory b p opts info now g = (g', r) ->
  opens g' = opens g /\ (forall h, r = inl h -> unreserved true h).
Proof.
  unfold open_directory. intros Ho. destruct info as [i|].
  - case_match; simplify_eq; (split; [done|]); intros; by simplify_eq.
  - case_match; simplify_eq; [by split|]. destruct (fs_call _ g) as [g1 [e|]] eqn:E; apply fs_call_opens in E; simplify_eq.
    + by split.
    + split; [by rewrite setOwner_opens|]. intros; by simplify_eq.
Qed.

(** What an open leaves: a table that is well formed, and the open's entry in it
    exactly if it succeeded; a handle of a file has an entry. *)
Definition accounts (t t' : Share.ShareTable) (r : option (bool * option positive)) : Prop :=
  Share.wf t' /\
  match r with
  | Some (d, a) => reserves t t' a /\ (d = false -> is_Some a)
  | None => reserves t t' None
  end.
Definition of_handle (r : handle + smb_error) : option (bool * option positive) :=
  match r with inl h => Some (dir h, reservation h) | inr _ => None end.
Definition of_stream (r : streamHandle + smb_error) : option (bool * option positive) :=
  match r with inl h => Some (false, s_reservation h) | inr _ => None end.

Lemma accounts_directory t t' r : Share.wf t -> t' = t -> (forall h, r = inl h -> unreserved true h) -> accounts t t' (of_handle r).
Proof.
  intros Hwf -> Hu. split; [done|]. destruct r as [h|e]; [|done]. destruct (Hu h eq_refl) as [Hd Hr]. cbn. rewrite Hr, Hd. by split.
Qed.

Lemma open_at_accounts p opts info now g g' r : Share.wf (opens g) -> open_at b p opts info now g = (g', r) ->
  accounts (opens g) (opens g') (of_handle r).
Proof.
  intros Hwf. unfold open_at. destruct (CreateDir opts).
  { intros [Ho Hu]%open_directory_opens. by apply accounts_directory. }
  destruct (match info with Some i => VfsTypes.IsDir i | None => false end).
  { destruct (_ || _); intros [= <- <-]; apply accounts_directory; try done. by intros ? [= <-]. }
  destruct (reserve b p opts g) as [g1 [a|e]] eqn:Er; apply reserve_reserves in Er as [Hw1 Hr1]; specialize (Hw1 Hwf).
  - destruct (open_file b p opts info now g1) as [g2 [h|e]] eqn:Eo; apply open_file_opens in Eo as [Ho Hu];
      intros [= <- <-]; unfold accounts; simpl; rewrite ?Ho.
    + split; [done|]. split; [done|]. intros _. by eexists.
    + split; [by apply Share.Release_wf|]. by apply release_undoes.
  - intros [= <- <-]. done.
Qed.

Lemma Open_accounts opts now g g' r : Share.wf (opens g) -> Open b opts now g = (g', r) ->
  accounts (opens g) (opens g') (of_handle r).
Proof.
  unfold Open. intros Hwf. destruct (fs_call _ g) as [g1 [i|e]] eqn:E; apply fs_call_opens in E; rewrite <-E in *.
  - by apply open_at_accounts.
  - destruct (Is_NotExist e); [by apply open_at_accounts|]. intros [= <- <-]. by split.
Qed.

(** Streams. *)
Context (walked : gmap string bytes -> list string).

Lemma fileStreams_opens p now g g' r : fileStreams p now g = (g', r) -> opens g' = opens g.
Proof. unfold fileStreams. destruct (fs_call _ g) as [g1 [i|e]] eqn:E; apply fs_call_opens in E; by intros [= <- _]. Qed.

Lemma save_streams_opens p m now g g' e : save_streams p m now g = (g', e) -> opens g' = opens g.
Proof. unfold save_streams. destruct (fs_call _ g) as [g1 e1] eqn:E. apply fs_call_opens in E. by intros [= <- _]. Qed.

Lemma updateStream_opens p name d now g g' e : updateStream b walked p name d now g = (g', e) -> opens g' = opens g.
Proof.
  unfold updateStream. destruct (fileStreams p now g) as [g1 [m|e1]] eqn:E; apply fileStreams_opens in E; [|by intros [= <- _]].
  intros Hu. rewrite <-E. repeat case_match; simplify_eq; try done; by eapply save_streams_opens.
Qed.

Lemma streams_for_open_opens p creates now g g' r : streams_for_open p creates now g = (g', r) -> opens g' = opens g.
Proof.
  unfold streams_for_open. destruct (fileStreams p now g) as [g1 [m|e1]] eqn:E; apply fileStreams_opens in E; [by intros [= <- _]|].
  destruct (_ && _); [|by intros [= <- _]]. destruct (fs_call _ g1) as [g2 [f|e2]] eqn:E2; apply fs_call_opens in E2; rewrite <-E, <-E2.
  - destruct (VfsFile.Close now (files g2) f) as [[fs f'] e]. by intros [= <- _].
  - by intros [= <- _].
Qed.

Lemma OpenStream_accounts opts stream now g g' r : Share.wf (opens g) -> OpenStream b walked opts stream now g = (g', r) ->
  accounts (opens g) (opens g') (of_stream r).
Proof.
  intros Hwf. unfold OpenStream. assert (Hno : forall e, accounts (opens g) (opens g) (of_stream (inr e))) by by split.
  destruct (negb (validStreamName stream)); [intros [= <- <-]; apply Hno|].
  destruct (streams_for_open _ _ now g) as [g1 [m|e]] eqn:E; apply streams_for_open_opens in E; rewrite <-E in *;
    [|intros [= <- <-]; apply Hno].
  destruct (findStream walked m stream) as [name ex]. destruct (stream_disposition _ _) as [replaced|e]; [|intros [= <- <-]; apply Hno].
  destruct (reserve b _ opts g1) as [g2 [a|e]] eqn:Er; apply reserve_reserves in Er as [Hw2 Hr2]; specialize (Hw2 Hwf);
    [|intros [= <- <-]; by split].
  destruct (negb ex || _).
  - destruct (updateStream b walked _ name (Some []) now g2) as [g3 [e|]] eqn:Eu; apply updateStream_opens in Eu; intros [= <- <-];
      unfold accounts; simpl; rewrite Eu.
    + split; [by apply Share.Release_wf|]. by apply release_undoes.
    + split; [done|]. split; [done|]. intros _. by eexists.
  - intros [= <- <-]. split; [done|]. split; [done|]. intros _. by eexists.
Qed.

(** The other operations leave the table and the reservation alone. *)
Definition keeps (g : gateway) (h : handle) (g' : gateway) (h' : handle) : Prop :=
  opens g' = opens g /\ dir h' = dir h /\ reservation h' = reservation h.

Lemma fileFor_keeps write now g h g' h' r : fileFor write now g h = (g', h', r) -> keeps g h g' h'.
Proof.
  unfold fileFor, keeps. destruct (dir h) eqn:Hd; [intros [= <- <- _]; done|].
  set (h1 := if write then set_copied None h else h).
  assert (dir h1 = false /\ reservation h1 = reservation h) as [Hd1 Hr1] by (unfold h1; destruct write; done).
  assert (Hre : (match fs_call (OpenFile (h_path h1) (if write then O_RDWR else O_RDONLY) 0 now) g with
      | (g, inr e) => (g, h1, inr (FromFs e))
      | (g, inl f) => let '(g, _, _) := close_file (file h1) now g in (g, set_writable write (set_file (Some f) h1), inl f)
      end) = (g', h', r) -> opens g' = opens g /\ dir h' = false /\ reservation h' = reservation h).
  { destruct (fs_call _ g) as [g1 [f|e]] eqn:E; apply fs_call_opens in E.
    - destruct (close_file (file h1) now g1) as [[g2 f2] e2] eqn:E2. apply close_file_opens in E2. intros [= <- <- _].
      split; [congruence|]. by split.
    - intros [= <- <- _]. by split. }
  destruct (file h1) as [f|]; [|done]. destruct (h_writable h1 || negb write); [intros [= <- <- _]; by split|done].
Qed.

Lemma Read_keeps offset n now g h g' h' r : SmbBackend.Read offset n now g h = (g', h', r) -> keeps g h g' h'.
Proof.
  unfold SmbBackend.Read. destruct (fileFor false now g h) as [[g1 h1] [f|e]] eqn:E; apply fileFor_keeps in E.
  - destruct (ReadAt n offset now (files g1) f) as [[fs f'] [got err]]. by intros [= <- <- _].
  - by intros [= <- <- _].
Qed.

Lemma Write_keeps offset p now g h g' h' r : SmbBackend.Write offset p now g h = (g', h', r) -> keeps g h g' h'.
Proof.
  unfold SmbBackend.Write. destruct (fileFor true now g h) as [[g1 h1] [f|e]] eqn:E; apply fileFor_keeps in E.
  - destruct (WriteAt p offset now (files g1) f) as [[fs f'] [got err]]. by intros [= <- <- _].
  - by intros [= <- <- _].
Qed.

Lemma set_attributes_keeps req now g h g' h' e : set_attributes req now g h = (g', h', e) -> keeps g h g' h'.
Proof.
  unfold set_attributes. case_match; [|by intros [= <- <- _]].
  destruct (fs_call _ g) as [g1 e1] eqn:E. apply fs_call_opens in E. by intros [= <- <- _].
Qed.

Lemma keeps_trans g h g1 h1 g' h' : keeps g h g1 h1 -> keeps g1 h1 g' h' -> keeps g h g' h'.
Proof. unfold keeps. intros (? & ? & ?) (? & ? & ?). split_and!; congruence. Qed.

Lemma SetInfo_keeps req now g h g' h' e : SetInfo req now g h = (g', h', e) -> keeps g h g' h'.
Proof.
  unfold SetInfo. destruct (EndOfFile req) as [n|]; [|apply set_attributes_keeps].
  destruct (fileFor true now g h) as [[g1 h1] [f|e1]] eqn:E; apply fileFor_keeps in E; [|by intros [= <- <- _]].
  destruct (Truncate n now (files g1) f) as [[fs f'] [err|]]; [by intros [= <- <- _]|].
  intros Hs%set_attributes_keeps. by eapply keeps_trans.
Qed.

Lemma copyFileLocked_keeps srcPath u now g h g' h' e : copyFileLocked srcPath u now g h = (g', h', e) -> keeps g h g' h'.
Proof.
  unfold copyFileLocked. destruct (close_file (file h) now g) as [[g1 f] [e1|]] eqn:E; apply close_file_opens in E;
    [intros [= <- <- _]; done|].
  destruct (fs_call _ g1) as [g2 e2] eqn:E2. apply fs_call_opens in E2. intros [= <- <- _]. unfold keeps. rewrite E2, E.
  by destruct f.
Qed.

Lemma copy_whole_keeps srcPath i d n now g h g' h' r : copy_whole srcPath i d n now g h = (g', h', r) -> keeps g h g' h'.
Proof.
  unfold copy_whole. destruct (_ || _); [|by intros [= <- <- _]].
  destruct (copyFileLocked _ _ now g h) as [[g1 h1] [e|]] eqn:E; apply copyFileLocked_keeps in E; [by intros [= <- <- _]|].
  unfold note_copy. destruct (fs_call _ g1) as [g2 [i2|e2]] eqn:E2; apply fs_call_opens in E2; intros [= <- <- _];
    destruct E as (E & ? & ?); (split; [congruence|by split]).
Qed.

Lemma stillCopied_opens c p i now g h g' r : stillCopied c p i now g h = (g', r) -> opens g' = opens g.
Proof.
  unfold stillCopied. case_match; [by intros [= <- _]|].
  destruct (fs_call _ g) as [g1 [|]] eqn:E1; apply fs_call_opens in E1; [by intros [= <- _]|].
  destruct (fs_call _ g1) as [g2 [|]] eqn:E2; apply fs_call_opens in E2; [intros [= <- _]; congruence|].
  destruct (fs_call _ g2) as [g3 [|]] eqn:E3; apply fs_call_opens in E3; intros [= <- _]; congruence.
Qed.

Lemma CopyChunk_keeps s o1 o2 n now g h g' h' r : CopyChunk s o1 o2 n now g h = (g', h', r) -> keeps g h g' h'.
Proof.
  assert (Hid : keeps g h g h) by done. unfold CopyChunk. destruct s as [s|]; [|by intros [= <- <- _]].
  destruct (dir h || dir s); [by intros [= <- <- _]|]. destruct (negb (o1 =? o2)); [by intros [= <- <- _]|].
  destruct (fs_call _ g) as [g1 [i|e]] eqn:E; apply fs_call_opens in E; [|by intros [= <- <- _]].
  assert (H1 : keeps g h g1 h) by done. destruct (_ <? _); [by intros [= <- <- _]|]. destruct (copied h) as [c|].
  - destruct (stillCopied _ _ _ _ _ _) as [g2 still] eqn:E2. apply stillCopied_opens in E2.
    destruct still; intros [= <- <- _]; (split; [congruence|done]).
  - destruct (negb (o1 =? 0)); [by intros [= <- <- _]|].
    destruct (fs_call _ g1) as [g2 [i2|e2]] eqn:E2; apply fs_call_opens in E2; assert (H2 : keeps g h g2 h) by (split; [congruence|done]).
    + intros Hc%copy_whole_keeps. by eapply keeps_trans.
    + destruct (Is_NotExist e2); [|by intros [= <- <- _]]. intros Hc%copy_whole_keeps. by eapply keeps_trans.
Qed.

(** A rename moves entries; the handle keeps its own. *)
Lemma Rename_live p replace now g h g' h' e : Share.wf (opens g) -> SmbBackend.Rename b p replace now g h = (g', h', e) ->
  Share.wf (opens g') /\ (forall x, live (opens g') x <-> live (opens g) x) /\ dir h' = dir h /\ reservation h' = reservation h.
Proof.
  intros Hwf.
  assert (Hr : forall t g1, opens g1 = opens g -> rename_closed b t now g1 h = (g', h', e) ->
    Share.wf (opens g') /\ (forall x, live (opens g') x <-> live (opens g) x) /\ dir h' = dir h /\ reservation h' = reservation h).
  { intros t g1 E1. unfold rename_closed. destruct (close_file (file h) now g1) as [[g2 f] [e2|]] eqn:E2; apply close_file_opens in E2.
    { intros [= <- <- _]. rewrite E2, E1. done. }
    destruct (fs_call _ g2) as [g3 [e3|]] eqn:E3; apply fs_call_opens in E3; intros [= <- <- _]; simpl; rewrite E3, E2, E1; [done|].
    split; [by apply Share.Rename_wf|]. split; [|done]. intros x. by apply live_Rename. }
  unfold SmbBackend.Rename. destruct (_ && _); [|by apply Hr].
  destruct (fs_call _ g) as [g1 [i|e1]] eqn:E; apply fs_call_opens in E; [|by apply Hr]. intros [= <- <- _]. by rewrite E.
Qed.

Lemma release_live r g : Share.wf (opens g) ->
  Share.wf (opens (release r g)) /\ forall x, live (opens (release r g)) x <-> live (opens g) x /\ r <> Some x.
Proof.
  intros Hwf. destruct r as [a|]; simpl; [|split; [done|naive_solver]]. split; [by apply Share.Release_wf|].
  intros x. rewrite live_Release. naive_solver.
Qed.

Lemma Close_live now g h g' h' e : Share.wf (opens g) -> SmbBackend.Close now g h = (g', h', e) ->
  Share.wf (opens g') /\ forall x, live (opens g') x <-> live (opens g) x /\ reservation h <> Some x.
Proof.
  intros Hwf. unfold SmbBackend.Close. pose proof (release_live (reservation h) g Hwf) as Hl.
  destruct (file (set_reservation None h)) as [f|]; [|by intros [= <- _ _]].
  destruct (VfsFile.Close now _ f) as [[fs f'] err]. by intros [= <- _ _].
Qed.

Lemma s_Close_live now g h g' h' e : Share.wf (opens g) -> s_Close b walked now g h = (g', h', e) ->
  Share.wf (opens g') /\ forall x, live (opens g') x <-> live (opens g) x /\ s_reservation h <> Some x.
Proof.
  intros Hwf. unfold s_Close. pose proof (release_live (s_reservation h) g Hwf) as Hl.
  destruct (negb (s_dirty h)); [by intros [= <- _ _]|].
  destruct (updateStream _ _ _ _ _ _ _) as [g2 e2] eqn:E. apply updateStream_opens in E. intros [= <- _ _]. by rewrite E.
Qed.

Lemma checkSize_opens n now g h g' e : checkSize b n now g h = (g', e) -> opens g' = opens g.
Proof.
  unfold checkSize. destruct (_ <=? _); [by intros [= <- _]|]. destruct (_ <? _); [by intros [= <- _]|].
  destruct (fileStreams _ now g) as [g1 [m|e1]] eqn:E; apply fileStreams_opens in E; by intros [= <- _].
Qed.

Lemma s_Write_opens offset p now g h g' h' r : s_Write b offset p now g h = (g', Some (h', r)) ->
  opens g' = opens g /\ s_reservation h' = s_reservation h.
Proof.
  unfold s_Write. destruct (checkSize _ _ now g h) as [g1 [e|]] eqn:E; apply checkSize_opens in E; [by intros [= <- <- _]|].
  cbv zeta. destruct (_ || _); [done|]. by intros [= <- <- _].
Qed.

Lemma s_SetInfo_opens req now g h g' h' r : s_SetInfo b req now g h = (g', Some (h', r)) ->
  opens g' = opens g /\ s_reservation h' = s_reservation h.
Proof.
  unfold s_SetInfo. destruct (EndOfFile req) as [n|]; [|by intros [= <- <- _]].
  destruct (checkSize _ _ now g h) as [g1 [e|]] eqn:E; apply checkSize_opens in E; [by intros [= <- <- _]|].
  destruct (n <? 0); [done|]. by intros [= <- <- _].
Qed.

End Effects.

(** ** The table holds the opens of the open handles *)

Section Accounting.
Context `{PathHash} {PO : PosixOps} {CF : FoldNames.CaseFolding} {CM : CaseMapping}.

Inductive opening := OfFile (h : handle) | OfStream (h : streamHandle).
Definition held (o : opening) : option positive :=
  match o with OfFile h => reservation h | OfStream h => s_reservation h end.
Definition reserved_kind (o : opening) : bool := match o with OfFile h => negb (dir h) | OfStream _ => true end.

Record server := mkServer { gate : gateway; handles : gmap Z opening }.

(** What clients do with any shares of the gateway; what else happens to the file
    system, through NFS or by the gateway itself, is [step_files].  An open is one
    step: the source reserves its entry of the share table under the table's lock
    before it opens the file and gives it back if that fails. *)
Inductive step (s : server) : server -> Prop :=
  | step_open V b opts now id g h :
      handles s !! id = None -> Open (V := V) b opts now (gate s) = (g, inl h) -> step s (mkServer g (<[id := OfFile h]> (handles s)))
  | step_refused V b opts now g e :
      Open (V := V) b opts now (gate s) = (g, inr e) -> step s (mkServer g (handles s))
  | step_open_stream V b walked opts stream now id g h :
      handles s !! id = None -> OpenStream (V := V) b walked opts stream now (gate s) = (g, inl h) ->
      step s (mkServer g (<[id := OfStream h]> (handles s)))
  | step_refused_stream V b walked opts stream now g e :
      OpenStream (V := V) b walked opts stream now (gate s) = (g, inr e) -> step s (mkServer g (handles s))
  | step_read V offset n now id h g h' r :
      handles s !! id = Some (OfFile h) -> SmbBackend.Read (V := V) offset n now (gate s) h = (g, h', r) ->
      step s (mkServer g (<[id := OfFile h']> (handles s)))
  | step_write V offset p now id h g h' r :
      handles s !! id = Some (OfFile h) -> SmbBackend.Write (V := V) offset p now (gate s) h = (g, h', r) ->
      step s (mkServer g (<[id := OfFile h']> (handles s)))
  | step_set_info V req now id h g h' r :
      handles s !! id = Some (OfFile h) -> SetInfo (V := V) req now (gate s) h = (g, h', r) ->
      step s (mkServer g (<[id := OfFile h']> (handles s)))
  | step_copy V source o1 o2 n now id h g h' r :
      handles s !! id = Some (OfFile h) -> CopyChunk (V := V) source o1 o2 n now (gate s) h = (g, h', r) ->
      step s (mkServer g (<[id := OfFile h']> (handles s)))
  | step_rename V b p replace now id h g h' r :
      handles s !! id = Some (OfFile h) -> SmbBackend.Rename (V := V) b p replace now (gate s) h = (g, h', r) ->
      step s (mkServer g (<[id := OfFile h']> (handles s)))
  | step_close V now id h g h' r :
      handles s !! id = Some (OfFile h) -> SmbBackend.Close (V := V) now (gate s) h = (g, h', r) ->
      step s (mkServer g (delete id (handles s)))
  | step_write_stream V b offset p now id h g h' r :
      handles s !! id = Some (OfStream h) -> s_Write (V := V) b offset p now (gate s) h = (g, Some (h', r)) ->
      step s (mkServer g (<[id := OfStream h']> (handles s)))
  | step_set_info_stream V b req now id h g h' r :
      handles s !! id = Some (OfStream h) -> s_SetInfo (V := V) b req now (gate s) h = (g, Some (h', r)) ->
      step s (mkServer g (<[id := OfStream h']> (handles s)))
  | step_close_stream V b walked now id h g h' r :
      handles s !! id = Some (OfStream h) -> s_Close (V := V) b walked now (gate s) h = (g, h', r) ->
      step s (mkServer g (delete id (handles s)))
  | step_files fs : step s (mkServer (set_files fs (gate s)) (handles s)).

Record accounted (s : server) : Prop := mkAccounted {
  ac_wf : Share.wf (opens (gate s));
  ac_live a : live (opens (gate s)) a <-> exists id o, handles s !! id = Some o /\ held o = Some a;
  ac_once i j x y a : handles s !! i = Some x -> handles s !! j = Some y -> held x = Some a -> held y = Some a -> i = j;
  ac_held i o : handles s !! i = Some o -> reserved_kind o = true -> is_Some (held o)
}.

Lemma accounted_open s g id o : accounted s -> handles s !! id = None ->
  accounts (opens (gate s)) (opens g) (Some (negb (reserved_kind o), held o)) ->
  accounted (mkServer g (<[id := o]> (handles s))).
Proof.
  intros [Hwf Hl Ho Hh] Hid [Hw [Hr Hk]]. split; cbn [gate handles].
  - done.
  - intros a. transitivity (live (opens (gate s)) a \/ held o = Some a).
    + destruct (held o) as [x|] eqn:E; simpl in Hr; [destruct Hr as [_ Hr]|]; rewrite Hr; naive_solver.
    + rewrite Hl. split.
      * intros [(i & x & Hi & Hx)|Hx]; [exists i, x; rewrite lookup_insert_ne by congruence; done|exists id, o; by rewrite lookup_insert_eq].
      * intros (i & x & Hi & Hx). apply lookup_insert_Some in Hi as [[<- <-]|[_ Hi]]; [by right|left; eauto].
  - assert (Hnew : forall i x a, handles s !! i = Some x -> held x = Some a -> held o = Some a -> False).
    { intros i x a Hi Hx Ho'. rewrite Ho' in Hr. destruct Hr as [Hn _]. apply Hn, Hl. eauto. }
    intros i j x y a [[<- <-]|[Hi Hi']]%lookup_insert_Some [[<- <-]|[Hj Hj']]%lookup_insert_Some Hx Hy; eauto; exfalso; eauto.
  - intros i x [[<- <-]|[_ Hi]]%lookup_insert_Some Hx; [|eauto]. apply Hk. by rewrite Hx.
Qed.

Lemma accounted_same s g : accounted s -> Share.wf (opens g) -> (forall x, live (opens g) x <-> live (opens (gate s)) x) ->
  accounted (mkServer g (handles s)).
Proof. intros [] Hw Hl. split; [done| |done|done]. intros a. cbn [gate handles]. by rewrite Hl. Qed.

Lemma accounted_refused s g : accounted s -> accounts (opens (gate s)) (opens g) None -> accounted (mkServer g (handles s)).
Proof. intros Hs [Hw Hr]. by apply accounted_same. Qed.

(** A handle that keeps its reservation. *)
Lemma accounted_update s id o o' : accounted s -> handles s !! id = Some o -> held o' = held o -> reserved_kind o' = reserved_kind o ->
  accounted (mkServer (gate s) (<[id := o']> (handles s))).
Proof.
  intros [Hwf Hl Ho Hh] Hid He Hk. split; cbn [gate handles].
  - done.
  - intros a. rewrite Hl. split; intros (i & x & Hi & Hx).
    + destruct (decide (i = id)) as [->|Hne].
      * exists id, o'. rewrite lookup_insert_eq. split; [done|]. congruence.
      * exists i, x. by rewrite lookup_insert_ne.
    + apply lookup_insert_Some in Hi as [[<- <-]|[_ Hi]]; [|eauto]. exists id, o. split; [done|]. congruence.
  - intros i j x y a [[<- <-]|[Hi Hi']]%lookup_insert_Some [[<- <-]|[Hj Hj']]%lookup_insert_Some; rewrite ?He; eauto.
  - intros i x [[<- <-]|[_ Hi]]%lookup_insert_Some; [|eauto]. rewrite He, Hk. eauto.
Qed.

Lemma accounted_kept s id h g h' : accounted s -> handles s !! id = Some (OfFile h) -> keeps (gate s) h g h' ->
  accounted (mkServer g (<[id := OfFile h']> (handles s))).
Proof.
  intros Hs Hid (Ho & Hd & Hr). apply (accounted_update (mkServer g (handles s)) id (OfFile h)); simpl; try congruence.
  apply accounted_same; rewrite ?Ho; [done|apply Hs|done].
Qed.

Lemma accounted_stream s id h g h' : accounted s -> handles s !! id = Some (OfStream h) ->
  opens g = opens (gate s) /\ s_reservation h' = s_reservation h -> accounted (mkServer g (<[id := OfStream h']> (handles s))).
Proof.
  intros Hs Hid [Ho Hr]. apply (accounted_update (mkServer g (handles s)) id (OfStream h)); simpl; try congruence.
  apply accounted_same; rewrite ?Ho; [done|apply Hs|done].
Qed.

Lemma accounted_close s id o g : accounted s -> handles s !! id = Some o ->
  Share.wf (opens g) /\ (forall x, live (opens g) x <-> live (opens (gate s)) x /\ held o <> Some x) ->
  accounted (mkServer g (delete id (handles s))).
Proof.
  intros [Hwf Hl Ho Hh] Hid [Hw Hr]. split; cbn [gate handles].
  - done.
  - intros a. rewrite Hr, Hl. split.
    + intros [(i & x & Hi & Hx) Hn]. exists i, x. rewrite lookup_delete_ne by (intros ->; congruence). done.
    + intros (i & x & [Hne Hi]%lookup_delete_Some & Hx). split; [eauto|]. intros Hx'. by apply Hne, (Ho id i o x a).
  - intros i j x y a [_ Hi]%lookup_delete_Some [_ Hj]%lookup_delete_Some. eauto.
  - intros i x [_ Hi]%lookup_delete_Some. eauto.
Qed.

Lemma step_accounted s s' : accounted s -> step s s' -> accounted s'.
Proof.
  intros Hs Hst. pose proof (ac_wf _ Hs) as Hwf. destruct Hst.
  - apply accounted_open; [done..|]. apply Open_accounts in H1; [|done]. simpl in *. by rewrite negb_involutive.
  - apply accounted_refused; [done|]. by apply Open_accounts in H0.
  - apply accounted_open; [done..|]. by apply OpenStream_accounts in H1.
  - apply accounted_refused; [done|]. by apply OpenStream_accounts in H0.
  - eapply accounted_kept; [done..|]. by eapply Read_keeps.
  - eapply accounted_kept; [done..|]. by eapply Write_keeps.
  - eapply accounted_kept; [done..|]. by eapply SetInfo_keeps.
  - eapply accounted_kept; [done..|]. by eapply CopyChunk_keeps.
  - apply Rename_live in H1 as (Hw & Hl & Hd & Hr); [|done].
    apply (accounted_update (mkServer g (handles s)) id (OfFile h)); simpl; try congruence. by apply accounted_same.
  - eapply accounted_close; [done..|]. by eapply Close_live.
  - eapply accounted_stream; [done..|]. by eapply s_Write_opens.
  - eapply accounted_stream; [done..|]. by eapply s_SetInfo_opens.
  - eapply accounted_close; [done..|]. by eapply s_Close_live.
  - by apply accounted_same.
Qed.

(** C33. The table of share modes is exactly the handles that are open.  Whatever
    clients open, read, write, rename, copy and close, on any shares and whatever
    fails, an entry of the table is held by one open handle, every open file and
    stream holds an entry, and no entry outlives its handle: an open that failed
    half way leaves nothing behind that would keep other clients out. *)
Theorem share_table_is_open_handles (fs : Filesystem) (maxOpens : Z) (s : server)
    (Hr : rtc step (mkServer (mkGateway fs (Share.NewShareTable maxOpens)) ∅) s) :
  Share.wf (opens (gate s)) /\
  (forall a, live (opens (gate s)) a <-> exists id o, handles s !! id = Some o /\ held o = Some a) /\
  (forall i j x y a, handles s !! i = Some x -> handles s !! j = Some y -> held x = Some a -> held y = Some a -> i = j) /\
  (forall i o, handles s !! i = Some o -> reserved_kind o = true -> is_Some (held o)).
Proof.
  assert (accounted s) as []; [|done].
  assert (Hi : accounted (mkServer (mkGateway fs (Share.NewShareTable maxOpens)) ∅)).
  { split; cbn [gate handles opens].
    - split; [|intros; apply NoDup_nil; done|done]. intros p a. unfold Share.opens_of. simpl. rewrite lookup_empty. simpl.
      rewrite elem_of_nil. split; [done|]. intros (hd & Hd & _). by rewrite lookup_empty in Hd.
    - intros a. split; [intros (hd & Hd & _)|intros (i & o & Hi & _)]; [cbn in Hd; by rewrite lookup_empty in Hd|by rewrite lookup_empty in Hi].
    - intros i j x y a Hi. by rewrite lookup_empty in Hi.
    - intros i o Hi. by rewrite lookup_empty in Hi. }
  revert Hi. induction Hr as [|? ? ? Hst _ IH]; [done|]. intros Hi. apply IH. by eapply step_accounted.
Qed.

End Accounting.

End SmbSafety.
