(* ===== verification/SmbHandleSafety.v ===== *)
(** * What SMB handles read and write

    A handle of an existing file is opened for writing by its first write; from
    then on it is a plain file that starts with the bytes the file had.  An open
    stream is a plain file too, as long as it fits. *)
From S2P Require Import Prelude GoPath StagingTypes Disk DirtyIndex PathState Session SessionSafety StagingManager CosClient Attributes Paths ShareTable Runes FoldNames GoText GoMatch SmbIdentity Changes VfsTypes Vfs VfsOps VfsFile VfsMemory VfsSafety VfsFileSafety VfsOpenSafety SmbBackend SmbStreams.
Import GoText VfsTypes Vfs VfsOps VfsFile VfsFileSafety VfsOpenSafety SmbBackend SmbStreams.
Import SessionSafety(staged, sized).

Module SmbHandleSafety.

(** ** Requests *)

Inductive file_request := FRead (off n : Z) | FWrite (off : Z) (p : bytes) | FSetEnd (n : Z).

Definition plain_file (r : file_request) (b : bytes) : bytes * answer :=
  match r with
  | FRead off n => (b, read_plain b n off)
  | FWrite off p => (Disk.pwrite b off p, Count (len p))
  | FSetEnd n => (Disk.ftruncate b n, Done)
  end.

Fixpoint plain_answers (rs : list (file_request * Time)) (b : bytes) : bytes * list answer :=
  match rs with
  | [] => (b, [])
  | (r, _) :: rs => let '(b, y) := plain_file r b in let '(b, ys) := plain_answers rs b in (b, y :: ys)
  end.

Definition sensible_request (r : file_request) : Prop :=
  match r with FRead off n => 0 < n /\ 0 <= off | FWrite _ p => p <> [] | FSetEnd _ => True end.

Definition set_end (n : Z) : SetInfoRequest := mkSetInfo None None None None (Some n).

Section Handle.
Context `{PathHash} {PO : PosixOps} {CF : FoldNames.CaseFolding} {V : View}.

(** The request on a handle; an error other than the end of the file is [inr]. *)
Definition smb_step (r : file_request) (now : Time) (g : gateway) (h : handle) : gateway * handle * (answer + smb_error) :=
  match r with
  | FRead off n =>
      let '(g, h, (got, err)) := SmbBackend.Read off n now g h in
      (g, h, match err with
             | None => inl (Got got)
             | Some (FromFs EOF) => inl (match got with [] => AtEnd | _ => Got got end)
             | Some e => inr e
             end)
  | FWrite off p =>
      let '(g, h, (n, err)) := SmbBackend.Write off p now g h in
      (g, h, match err with None => inl (Count n) | Some e => inr e end)
  | FSetEnd n =>
      let '(g, h, err) := SetInfo (set_end n) now g h in
      (g, h, match err with None => inl Done | Some e => inr e end)
  end.

Fixpoint smb_run (rs : list (file_request * Time)) (g : gateway) (h : handle) : option (gateway * handle * list answer) :=
  match rs with
  | [] => Some (g, h, [])
  | (r, now) :: rs =>
      match smb_step r now g h with
      | (_, _, inr _) => None
      | (g, h, inl x) => '(g, h, xs) ← smb_run rs g h; Some (g, h, x :: xs)
      end
  end.

(** A handle whose file is open for writing on the session [a]. *)
Definition attached (a : positive) (h : handle) : Prop :=
  dir h = false /\ h_writable h = true /\ exists f, file h = Some f /\ on_staged a f.

Lemma attached_fileFor a h write now g : attached a h ->
  exists f h1, file h = Some f /\ on_staged a f /\ fileFor write now g h = (g, h1, inl f) /\
    forall f', on_staged a f' -> attached a (set_file (Some f') h1).
Proof.
  intros (Hd & Hw & f & Hf & Ho). exists f, (if write then set_copied None h else h). split; [done|]. split; [done|].
  unfold fileFor. rewrite Hd. destruct write; cbn; rewrite Hf, Hw; (split; [done|]); intros f' Hf'; (split; [done|]; split; [done|]; by exists f').
Qed.

Lemma attached_step a r now g h b g' h' x : stagingEnabled = true -> serves a (files g) b -> attached a h -> sensible_request r ->
  smb_step r now g h = (g', h', inl x) ->
  x = (plain_file r b).2 /\ serves a (files g') (plain_file r b).1 /\ attached a h'.
Proof.
  intros Hen Hs Ha Hr Hst.
  assert (Hagree : forall q fs' f' x, sensible q -> forall f, on_staged a f -> handle_step q now (files g) f = (fs', f', inl x) ->
    let '(s', y) := plain_step 0 q (mkPlain b (<[0 := offset f]> ∅)) in x = y /\ serves a fs' (contents s') /\ on_staged a f').
  { intros q fs' f' x0 Hq f Hf Hh. pose proof (handle_step_agrees Hen a 0 ∅ q now (files g) f b fs' f' x0 Hs Hf Hq Hh) as Hag.
    unfold agrees in Hag. destruct (plain_step _ _ _) as [s' y]. naive_solver. }
  destruct r as [off n|off p|n]; cbn [smb_step] in Hst.
  - unfold SmbBackend.Read in Hst. destruct (attached_fileFor a h false now g Ha) as (f & h1 & Hf & Ho & Hff & Hk). rewrite Hff in Hst.
    destruct (ReadAt n off now (files g) f) as [[fs' f'] [got err]] eqn:E.
    assert (Hh : handle_step (ReadAtReq n off) now (files g) f = (fs', f', inl x)).
    { cbn [handle_step]. rewrite E. destruct err as [[]|]; simpl in Hst; simplify_eq; done. }
    specialize (Hagree (ReadAtReq n off) fs' f' x Hr f Ho Hh). destruct Hagree as (-> & ? & ?).
    assert (g' = set_files fs' g /\ h' = set_file (Some f') h1) as [-> ->] by (by simplify_eq). split_and!; [done|done|]. by apply Hk.
  - unfold SmbBackend.Write in Hst. destruct (attached_fileFor a h true now g Ha) as (f & h1 & Hf & Ho & Hff & Hk). rewrite Hff in Hst.
    destruct (WriteAt p off now (files g) f) as [[fs' f'] [m err]] eqn:E.
    assert (Hh : handle_step (WriteAtReq p off) now (files g) f = (fs', f', inl x)).
    { cbn [handle_step]. rewrite E. destruct err as [e|]; simpl in Hst; by simplify_eq. }
    specialize (Hagree (WriteAtReq p off) fs' f' x Hr f Ho Hh). destruct Hagree as (-> & ? & ?).
    assert (g' = set_files fs' g /\ h' = set_file (Some f') h1) as [-> ->] by (by simplify_eq). split_and!; [done|done|]. by apply Hk.
  - unfold SetInfo, set_end in Hst. cbn [EndOfFile] in Hst. destruct (attached_fileFor a h true now g Ha) as (f & h1 & Hf & Ho & Hff & Hk).
    rewrite Hff in Hst.
    destruct (Truncate n now (files g) f) as [[fs' f'] err] eqn:E.
    assert (Hh : handle_step (TruncateReq n) now (files g) f = (fs', f', inl x)).
    { cbn [handle_step]. rewrite E. destruct err as [e|]; cbn in Hst; by simplify_eq. }
    specialize (Hagree (TruncateReq n) fs' f' x I f Ho Hh). destruct Hagree as (-> & ? & ?).
    destruct err as [e|]; [by cbn in Hst|]. cbn in Hst. injection Hst as <- <-. split_and!; [done|done|]. by apply Hk.
Qed.

Lemma attached_run a rs g h b g' h' xs : stagingEnabled = true -> serves a (files g) b -> attached a h ->
  Forall (fun r => sensible_request r.1) rs -> smb_run rs g h = Some (g', h', xs) ->
  xs = (plain_answers rs b).2 /\ serves a (files g') (plain_answers rs b).1.
Proof.
  intros Hen Hs Ha Hr. revert g h b xs Hs Ha. induction Hr as [|[r now] rs Hr _ IH]; intros g h b xs Hs Ha Hrun; cbn [smb_run] in Hrun.
  { by simplify_eq. }
  destruct (smb_step r now g h) as [[g1 h1] [x|e]] eqn:E; [|done].
  destruct (attached_step a r now g h b g1 h1 x Hen Hs Ha Hr E) as (-> & Hs1 & Ha1).
  destruct (smb_run rs g1 h1) as [[[g2 h2] ys]|] eqn:Er; [|done]. cbn in Hrun. simplify_eq.
  destruct (IH g1 h1 _ ys Hs1 Ha1 Er) as [-> ?]. cbn [plain_answers]. destruct (plain_file r b) as [b1 y].
  cbn in *. by destruct (plain_answers rs b1).
Qed.

(** ** The first write *)

(** A file opened only to read. *)
Definition reader (f : File) : Prop := flag f = O_RDONLY /\ writeSession f = None.

Lemma serves_release a fs b path : serves a fs b -> serves a (staged_do (fun m => Staging.ReleaseSession m path) fs) b.
Proof.
  intros [Hd (w & Hw & Hsz & Hst)]. unfold staged_do, Staging.ReleaseSession. cbn [staging set_staging].
  destruct (Staging.sessions (staging fs) !! path) as [a'|]; [|split; [done|by exists w]].
  split; [done|]. destruct (decide (a' = a)) as [->|Hne].
  - exists (Session.DecrementRefCount w). split.
    + unfold Staging.deref, Staging.update in *. cbn. by rewrite lookup_alter_eq, Hw.
    + unfold Session.DecrementRefCount. by destruct (_ <=? 0).
  - exists w. split; [|done]. unfold Staging.deref, Staging.update in *. cbn. by rewrite lookup_alter_ne.
Qed.

Lemma close_reader a f now g g' f' e b : stagingEnabled = true -> (forall x, f = Some x -> reader x) ->
  close_file f now g = (g', f', e) -> serves a (files g) b -> serves a (files g') b.
Proof.
  intros Hen Hf. unfold close_file. destruct f as [f|]; [|by intros [= <- _ _]].
  destruct (Hf f eq_refl) as [Hfl Hws]. unfold VfsFile.Close. destruct (closed f); [by intros [= <- _ _]|].
  rewrite Hen. intros Hc Hs. destruct (stagingSession f) as [a'|].
  - destruct (wrote (set_closed (wrote f) true f)); injection Hc as <- _ _; [apply serves_changed|]; by apply serves_release.
  - rewrite Hws in Hc. cbn [data stagingSession flag set_closed] in Hc. rewrite Hfl in Hc.
    change (has O_RDONLY (Z.lor O_WRONLY O_RDWR)) with false in Hc.
    assert (Hx : serves a (if wrote f then changed Changes.ChangeModified (path f) "" false Changes.ChangeData now (files g) else files g) b)
      by (destruct (wrote f); [by apply serves_changed|done]).
    destruct (data f) as [[|x d]|], (stagingSession f); exact (eq_ind _ (fun x => serves a x b) Hx _ (f_equal (fun r => files r.1.1) Hc)).
Qed.

Context {PL : PosixLaws}.

Lemma smb_first_write off p now g h g' h' x :
  stagingEnabled = true -> dir h = false -> h_writable h = false -> (forall f, file h = Some f -> reader f) ->
  Disk.outcomes (Staging.disk (staging (files g))) = [] -> (forall path, well_staged (staging (files g)) path) ->
  p <> [] -> smb_step (FWrite off p) now g h = (g', h', inl x) ->
  exists fs1 full a b, keyPath (h_path h) now (files g) = (fs1, full) /\ starts_from full O_RDWR now (files g) fs1 a b /\
    x = Count (len p) /\ serves a (files g') (Disk.pwrite b off p) /\ attached a h'.
Proof.
  intros Hen Hd Hw Hf Hr Hws Hp Hst. cbn [smb_step] in Hst. unfold SmbBackend.Write, fileFor in Hst. rewrite Hd in Hst. cbn [file set_copied h_writable] in Hst.
  set (h0 := set_copied None h) in *.
  destruct (fs_call (OpenFile (h_path h0) O_RDWR 0 now) g) as [g1 [f|e]] eqn:Eo;
    [|rewrite Hw in Hst; destruct (file h); done].
  unfold fs_call in Eo. destruct (OpenFile (h_path h0) O_RDWR 0 now (files g)) as [fs1 r] eqn:Eof. injection Eo as <- ->.
  destruct (open_starts_from (h_path h0) O_RDWR 0 now (files g) fs1 f Hen eq_refl eq_refl Hr Hws Eof) as (fs2 & a & b & Hk & Hon & Hs & Hfrom).
  exists fs2, (path f), a, b. split; [exact Hk|]. split; [exact Hfrom|].
  destruct (close_file (file h) now (set_files fs1 g)) as [[g2 f2] e2] eqn:Ec.
  pose proof (close_reader a _ _ _ _ _ _ b Hen Hf Ec Hs) as Hs2.
  assert (Ha : attached a (set_writable true (set_file (Some f) h0))) by (split; [done|]; split; [done|]; by exists f).
  assert (Hst' : smb_step (FWrite off p) now g2 (set_writable true (set_file (Some f) h0)) = (g', h', inl x)).
  { cbn [smb_step]. unfold SmbBackend.Write, fileFor. change (dir (set_writable true (set_file (Some f) h0))) with (dir h). rewrite Hd. cbn.
    rewrite Hw in Hst. destruct (file h); exact Hst. }
  destruct (attached_step a (FWrite off p) _ _ _ b _ _ _ Hen Hs2 Ha Hp Hst') as (-> & ? & ?). done.
Qed.

(** C34. An SMB handle that has at most read opens its file for writing at its
    first write, on a disk that answers every call and where every session stages
    a file of its size under its name and no path without a session has a staged
    file. From then on, as long as every request is answered without an error and
    with nothing else done to the gateway in between, its reads of at least a
    byte, non-empty writes and new lengths are answered as a plain file answers
    them that started with the bytes the file had under the handle's path: what
    was staged for it, or the whole object, or nothing where there is none; and
    the staged bytes are that file's. *)
Theorem smb_handle_is_plain_file (off : Z) (p : bytes) (now : Time) (rs : list (file_request * Time)) (g g' : gateway) (h h' : handle)
    (xs : list answer) (Hen : stagingEnabled = true) (Hd : dir h = false) (Hw : h_writable h = false)
    (Hf : forall f, file h = Some f -> reader f)
    (Hr : Disk.outcomes (Staging.disk (staging (files g))) = []) (Hws : forall path, well_staged (staging (files g)) path)
    (Hp : p <> []) (Hrs : Forall (fun r => sensible_request r.1) rs)
    (Hrun : smb_run ((FWrite off p, now) :: rs) g h = Some (g', h', xs)) :
  exists fs1 full a b, keyPath (h_path h) now (files g) = (fs1, full) /\ starts_from full O_RDWR now (files g) fs1 a b /\
    xs = (plain_answers ((FWrite off p, now) :: rs) b).2 /\
    serves a (files g') (plain_answers ((FWrite off p, now) :: rs) b).1.
Proof.
  cbn [smb_run] in Hrun. destruct (smb_step (FWrite off p) now g h) as [[g1 h1] [x|e]] eqn:E; [|done].
  destruct (smb_first_write off p now g h g1 h1 x Hen Hd Hw Hf Hr Hws Hp E) as (fs1 & full & a & b & Hk & Hfrom & -> & Hs & Ha).
  destruct (smb_run rs g1 h1) as [[[g2 h2] ys]|] eqn:Er; [|done]. cbn in Hrun. injection Hrun as <- <- <-.
  destruct (attached_run a rs g1 h1 _ g2 h2 ys Hen Hs Ha Hrs Er) as [-> Hs2].
  exists fs1, full, a, b. cbn [plain_answers plain_file]. by destruct (plain_answers rs (Disk.pwrite b off p)).
Qed.
End Handle.

(** ** Open streams *)

Section Stream.
Context `{PathHash} {PO : PosixOps} {CF : FoldNames.CaseFolding} {CM : CaseMapping} {V : View}.
Context (b : Backend) (walked : gmap string bytes -> list string).

(** The request on an open stream; a panic or an error is [None]. *)
Definition stream_step (r : file_request) (now : Time) (g : gateway) (h : streamHandle) : option (gateway * streamHandle * answer) :=
  match r with
  | FRead off n =>
      match s_Read off n h with
      | Some (got, None) => Some (g, h, Got got)
      | Some (_, Some ErrEOF) => Some (g, h, AtEnd)
      | _ => None
      end
  | FWrite off p =>
      match s_Write b off p now g h with
      | (g, Some (h, (n, None))) => Some (g, h, Count n)
      | _ => None
      end
  | FSetEnd n =>
      match s_SetInfo b (set_end n) now g h with
      | (g, Some (h, None)) => Some (g, h, Done)
      | _ => None
      end
  end.

Fixpoint stream_run (rs : list (file_request * Time)) (g : gateway) (h : streamHandle) : option (gateway * streamHandle * list answer) :=
  match rs with
  | [] => Some (g, h, [])
  | (r, now) :: rs => '(g, h, x) ← stream_step r now g h; '(g, h, xs) ← stream_run rs g h; Some (g, h, x :: xs)
  end.

(** Where a request is: from 0 on, and its end is an [int64]. *)
Definition in_range (r : file_request) : Prop :=
  match r with FRead off n => 0 < n /\ 0 <= off | FWrite off p => p <> [] /\ 0 <= off /\ off + len p <= MaxInt64 | FSetEnd n => 0 <= n end.

Definition same_stream (h h' : streamHandle) : Prop :=
  s_path h' = s_path h /\ s_name h' = s_name h /\ s_reservation h' = s_reservation h.

(** [copy] into a buffer long enough is [pwrite]. *)
Lemma copied_bytes d off p : p <> [] -> 0 <= off ->
  let e := off + len p in
  let d1 := if len d <? e then d ++ Disk.zeros (e - len d) else d in
  (len d1 <? off) = false /\
  take (Z.to_nat off) d1 ++ take (length (drop (Z.to_nat off) d1)) p ++ drop (length p) (drop (Z.to_nat off) d1) = Disk.pwrite d off p.
Proof.
  intros Hp Ho e d1. assert (0 < len p) by (destruct p; [done|simpl; lia]).
  assert (Hd1 : len d1 = Z.max (len d) e).
  { unfold d1, Disk.zeros. destruct (Z.ltb_spec (len d) e); [rewrite length_app, length_replicate|]; lia. }
  split; [apply Z.ltb_ge; unfold e in *; lia|].
  unfold Disk.pwrite. rewrite decide_False by done.
  rewrite (take_ge p) by (rewrite length_drop; unfold e in *; lia). rewrite drop_drop.
  replace (Z.to_nat (off + len p)) with (Z.to_nat off + length p)%nat by lia.
  unfold d1. destruct (Z.ltb_spec (len d) e) as [Hlt|Hge].
  - rewrite (drop_ge (d ++ _)), (drop_ge d) by (rewrite ?length_app; unfold Disk.zeros; rewrite ?length_replicate; unfold e in *; lia).
    rewrite take_app. rewrite <-(app_assoc (take _ d)). f_equal. f_equal.
    unfold Disk.zeros. rewrite take_replicate. f_equal. unfold e in *. lia.
  - assert (Disk.zeros (off - len d) = []) as ->; [|done]. unfold Disk.zeros. replace (Z.to_nat (off - len d)) with 0%nat by (unfold e in *; lia). done.
Qed.

Lemma stream_step_plain r now g h g' h' x : in_range r -> stream_step r now g h = Some (g', h', x) ->
  plain_file r (s_data h) = (s_data h', x) /\ same_stream h h' /\
  (s_data h' = s_data h /\ s_dirty h' = s_dirty h \/ s_dirty h' = true).
Proof.
  destruct r as [off n|off p|n]; cbn [stream_step plain_file in_range].
  - intros [Hn Ho]. unfold s_Read, read_plain. destruct (len (s_data h) <=? off); [intros [= <- <- <-]; split; [done|]; split; [done|]; by left|].
    rewrite (proj2 (Z.ltb_ge off 0) Ho). intros [= <- <- <-]. split; [done|]. split; [done|]. by left.
  - intros (Hp & Ho & He). unfold s_Write. rewrite wrap64_small by (unfold MinInt64; lia).
    destruct (checkSize b _ now g h) as [g1 [e|]]; [done|]. cbv zeta.
    destruct (copied_bytes (s_data h) off p Hp Ho) as [Hlt Hc]. rewrite Hlt, (proj2 (Z.ltb_ge off 0) Ho). cbn [orb].
    intros [= <- <- <-]. cbn [s_data with_data]. rewrite Hc. split; [done|]. split; [done|]. by right.
  - intros Hn. unfold s_SetInfo, set_end. cbn [EndOfFile]. destruct (checkSize b n now g h) as [g1 [e|]]; [done|].
    rewrite (proj2 (Z.ltb_ge n 0) Hn). intros [= <- <- <-]. cbn [s_data with_data]. split; [|split; [done|by right]].
    unfold Disk.ftruncate. f_equal.
    destruct (Z.ltb_spec n (len (s_data h))).
    + unfold Disk.zeros. replace (Z.to_nat (n - len (s_data h))) with 0%nat by lia. cbn. by rewrite ?app_nil_r.
    + by rewrite take_ge by lia.
Qed.

Lemma stream_run_plain rs g h g' h' xs : Forall (fun r => in_range r.1) rs -> stream_run rs g h = Some (g', h', xs) ->
  plain_answers rs (s_data h) = (s_data h', xs) /\ same_stream h h' /\
  (s_data h' = s_data h /\ s_dirty h' = s_dirty h \/ s_dirty h' = true).
Proof.
  intros Hr. revert g h xs. induction Hr as [|[r now] rs Hr _ IH]; intros g h xs Hrun; cbn [stream_run plain_answers] in *.
  { simplify_eq. split; [done|]. split; [done|]. by left. }
  destruct (stream_step r now g h) as [[[g1 h1] x]|] eqn:E; [|done]. cbn in Hrun.
  destruct (stream_run rs g1 h1) as [[[g2 h2] ys]|] eqn:Er; [|done]. cbn in Hrun. simplify_eq.
  apply stream_step_plain in E as (Hp & Hsame & Hd); [|done]. destruct (IH _ _ _ Er) as (Hps & Hsame' & Hd').
  rewrite Hp, Hps. split; [done|]. unfold same_stream in *. destruct Hsame as (? & ? & ?), Hsame' as (? & ? & ?).
  split; [split_and!; congruence|]. destruct Hd' as [[? ?]|?]; [|by right]. destruct Hd as [[? ?]|?]; [left|right]; [split; congruence|congruence].
Qed.

(** C35. For reads of at least a byte from 0 on, non-empty writes whose end is an
    int64 and lengths from 0 on (the code panics outside that range), the answers
    an open named stream gives without an error are those of a plain file that
    started with the stored bytes. A close without an error after that has handed
    exactly the bytes of that file, if anything was written, under the stream's
    name and beside the streams the file had at that moment, to an update of the
    file's streams that reported no error, and they are within the cap on their
    size. *)
Theorem stream_is_plain_file (rs : list (file_request * Time)) (now : Time) (g g1 g2 : gateway) (h h1 h2 : streamHandle) (xs : list answer)
    (Hr : Forall (fun r => in_range r.1) rs) (Hrun : stream_run rs g h = Some (g1, h1, xs))
    (Hc : s_Close b walked now g1 h1 = (g2, h2, None)) :
  plain_answers rs (s_data h) = (s_data h1, xs) /\ s_path h1 = s_path h /\ s_name h1 = s_name h /\
  (if s_dirty h1 then
     exists g3 m, fileStreams (s_path h) now (release (s_reservation h) g1) = (g3, inl m) /\
       let saved := <[(findStream walked m (s_name h)).1 := (plain_answers rs (s_data h)).1]> m in
       save_streams (s_path h) saved now g3 = (g2, None) /\ streamsBytes saved <= streamLimit b
   else g2 = release (s_reservation h) g1 /\ s_data h1 = s_data h).
Proof.
  destruct (stream_run_plain rs g h g1 h1 xs Hr Hrun) as (Hp & (Hpath & Hname & Hres) & Hd).
  rewrite Hp. split; [done|]. split; [done|]. split; [done|]. unfold s_Close in Hc. rewrite Hpath, Hname, Hres in Hc.
  destruct (s_dirty h1); cbn [negb] in Hc; [|injection Hc as <- _; split; [done|]; by destruct Hd as [[? _]|?]].
  unfold updateStream in Hc. destruct (fileStreams (s_path h) now _) as [g3 [m|e]]; [|done]. exists g3, m. split; [done|].
  destruct (findStream walked m (s_name h)) as [stored ex]. cbn [fst snd].
  destruct (Z.ltb_spec (streamLimit b) (streamsBytes (<[stored := s_data h1]> m))); [done|]. split; [|done].
  destruct (save_streams (s_path h) _ now g3) as [g4 e4]. by injection Hc as <- _ ->.
Qed.

(** An offset is read from the wire as a [uint64] and converted to [int64]; with
    the top bit set the slice of the stream's bytes starts below zero, and the
    gateway stops: nothing recovers the panic. *)
Lemma stream_offset_panics (h : streamHandle) (n : Z) : s_Read (wrap64 (2 ^ 63)) n h = None.
Proof.
  assert (wrap64 (2 ^ 63) = - 2 ^ 63) as -> by reflexivity. unfold s_Read.
  rewrite (proj2 (Z.leb_gt _ _)) by lia. by rewrite (proj2 (Z.ltb_lt _ _)) by lia.
Qed.

Lemma stream_length_panics (g : gateway) (h : streamHandle) (now : Time) : s_SetInfo b (set_end (-1)) now g h = (g, None).
Proof.
  unfold s_SetInfo, set_end. cbn [EndOfFile]. unfold checkSize. by rewrite (proj2 (Z.leb_le _ _)) by lia.
Qed.
End Stream.

End SmbHandleSafety.
