(* ===== verification/SmbFindings.v ===== *)
(** * Runs of an SMB share

    The witnesses of the theorems about SMB, and what the share does that it should
    not, on a bucket in memory ([VfsMemory]) seen with Windows names. *)
From S2P Require Import Prelude GoPath StagingTypes Disk DirtyIndex Session SessionSafety StagingManager CosClient Attributes Paths ShareTable Runes WindowsNames FoldNames GoText GoMatch SmbIdentity Changes VfsTypes Vfs VfsOps VfsFile VfsMemory VfsFileSafety VfsOpenSafety VfsFindings SmbBackend SmbStreams SmbSafety SmbHandleSafety.
Import VfsTypes Vfs VfsOps VfsFile VfsFileSafety VfsOpenSafety SmbBackend SmbStreams SmbHandleSafety.

Module SmbFindings.
Import VfsFindings(text, start).

#[local] Instance folding : FoldNames.CaseFolding := FoldNames.ascii_folding.
#[local] Instance mapping : GoText.CaseMapping := GoText.ascii_case.
#[local] Instance view : View := ForProtocol (WithWindowsNames (VfsMemory.nfs_view true)) "smb".

Definition share : Backend := mkBackend "/" None 0.
Definition gateway_of (s : string) : gateway := mkGateway (start s) (Share.NewShareTable 0).
Definition in_order (m : gmap string bytes) : list string := (map_to_list m).*1.

(** An open with a disposition, an access mask and what it shares. *)
Definition asking (p : string) (disposition access sharing : Z) : OpenOptions := mkOptions p disposition false access sharing false None.
Definition all_access : Z := any_of [accessReadData; accessWriteData; accessDelete].
Definition share_all : Z := any_of [shareAccessRead; shareAccessWrite; shareAccessDelete].

Definition opening {A} (o : OpenOptions) (g : gateway) (k : gateway -> handle -> A) (dflt : A) : A :=
  match Open share o 10 g with (g, inl h) => k g h | _ => dflt end.

(** ** Witnesses *)

(** An open that shares nothing, and a second one that is refused. *)
Definition exclusive : OpenOptions := asking "b" DispositionOpen all_access 0.
Definition one_open : gateway * (handle + smb_error) := Open share exclusive 10 (gateway_of "abc").
Definition after_open (h : handle) : SmbSafety.server := SmbSafety.mkServer one_open.1 (<[1 := SmbSafety.OfFile h]> ∅).
Definition second_open (h : handle) : gateway * (handle + smb_error) := Open share exclusive 11 one_open.1.

Lemma share_table_is_open_handles_witness :
  exists h, one_open.2 = inl h /\ (second_open h).2 = inr ErrSharingViolation /\
    SmbSafety.live (opens (second_open h).1) 1 /\
    (forall a, SmbSafety.live (opens (second_open h).1) a -> a = 1%positive).
Proof.
  assert (He : exists h, one_open.2 = inl h /\ reservation h = Some 1%positive /\ (second_open h).2 = inr ErrSharingViolation).
  { destruct one_open.2 as [h|e] eqn:E; [|exfalso; vm_compute in E; discriminate E].
    assert (match one_open.2 with inl h => reservation h | inr _ => None end = Some 1%positive) as Hr by (vm_compute; reflexivity).
    rewrite E in Hr. exists h. split; [reflexivity|]. split; [exact Hr|]. vm_compute. reflexivity. }
  destruct He as (h & Ho & Hres & Hs). exists h. split; [exact Ho|]. split; [exact Hs|].
  destruct (SmbSafety.share_table_is_open_handles (start "abc") 0
              (SmbSafety.mkServer (second_open h).1 (<[1 := SmbSafety.OfFile h]> ∅))) as (_ & Hl & _ & _).
  - apply rtc_l with (after_open h).
    + apply (SmbSafety.step_open (SmbSafety.mkServer (gateway_of "abc") ∅) view share exclusive 10 1 one_open.1 h); [reflexivity|].
      change (one_open = (one_open.1, inl h)). rewrite <-Ho. apply surjective_pairing.
    + apply rtc_once, (SmbSafety.step_refused (after_open h) view share exclusive 11 (second_open h).1 ErrSharingViolation).
      change (second_open h = ((second_open h).1, inr ErrSharingViolation)). rewrite <-Hs. apply surjective_pairing.
  - cbn [SmbSafety.gate SmbSafety.handles] in Hl. split.
    + apply Hl. exists 1, (SmbSafety.OfFile h). split; [apply lookup_insert_eq|exact Hres].
    + intros a Ha. apply Hl in Ha. destruct Ha as (i & o & Hi & Ho').
      apply lookup_insert_Some in Hi. destruct Hi as [[_ <-]|[_ Hi]]; [|rewrite lookup_empty in Hi; discriminate Hi]. cbn [SmbSafety.held] in Ho'. congruence.
Defined.

(** A handle that has read the object writes to its middle. *)
Definition requests : list (file_request * Time) := [(FRead 0 10, 21); (FSetEnd 2, 22); (FRead 0 10, 23)].
Definition reading : gateway * handle :=
  opening (asking "b" DispositionOpen all_access share_all) (gateway_of "abc")
    (fun g h => let '(g, h, _) := SmbBackend.Read 0 10 15 g h in (g, h)) (gateway_of "", newHandle "" true).

Lemma smb_handle_is_plain_file_witness :
  exists g h xs, smb_run ((FWrite 1 (text "X"), 20) :: requests) reading.1 reading.2 = Some (g, h, xs) /\
    xs = [Count 1; Got (text "aXc"); Done; Got (text "aX")] /\ exists a, serves a (files g) (text "aX").
Proof.
  assert (Hn : is_given (smb_run ((FWrite 1 (text "X"), 20) :: requests) reading.1 reading.2) = true) by (vm_compute; reflexivity).
  destruct (smb_run ((FWrite 1 (text "X"), 20) :: requests) reading.1 reading.2) as [[[g h] xs]|] eqn:E; [|discriminate Hn].
  exists g, h, xs. split; [reflexivity|].
  destruct (smb_handle_is_plain_file 1 (text "X") 20 requests reading.1 g reading.2 h xs) as (fs1 & full & a & b & Hk & Hfrom & Hx & Hs).
  - reflexivity.
  - vm_compute. reflexivity.
  - vm_compute. reflexivity.
  - intros f Hf. vm_compute in Hf. injection Hf as <-. split; reflexivity.
  - vm_compute. reflexivity.
  - intros path. unfold well_staged.
    assert (Staging.sessions (staging (files reading.1)) = ∅) as Hse by (vm_compute; reflexivity).
    assert (Disk.data (Staging.disk (staging (files reading.1))) = ∅) as Hda by (vm_compute; reflexivity).
    rewrite Hse, lookup_empty, Hda. reflexivity.
  - discriminate.
  - repeat constructor; reflexivity || discriminate.
  - exact E.
  - assert (full = "/b") as ->.
    { transitivity (keyPath (h_path reading.2) 20 (files reading.1)).2; [rewrite Hk; reflexivity|vm_compute; reflexivity]. }
    assert (fs1 = (keyPath (h_path reading.2) 20 (files reading.1)).1) as -> by (rewrite Hk; reflexivity).
    assert (b = text "abc") as ->.
    { destruct Hfrom as [(w & Hw & _)|Hb].
      - exfalso. assert (Staging.sessions (staging (files reading.1)) = ∅) as Hse by (vm_compute; reflexivity).
        rewrite Hse, lookup_empty in Hw. discriminate Hw.
      - assert (forall r, (let '(fs2, found) := Stat_object "/b" 20 (acquire "/b" O_RDWR 20 (keyPath (h_path reading.2) 20 (files reading.1)).1).1 in
           match found with
           | inl _ => if pending (keyPath (h_path reading.2) 20 (files reading.1)).1 "/b" then r = [] else (op_Download (posix fs2) "/b").2 = inl (r, true)
           | inr e => r = [] /\ (pending (keyPath (h_path reading.2) 20 (files reading.1)).1 "/b" = true \/ CosClient.Is_NotExist e = true)
           end) -> r = text "abc") as Hr; [|exact (Hr b Hb)].
        intros r Hr. vm_compute in Hr. injection Hr as <-. reflexivity. }
    split; [exact Hx|]. exists a. exact Hs.
Defined.

(** A stream is made, written in two pieces, cut and closed. *)
Definition stream_opened : gateway * streamHandle :=
  match OpenStream share in_order (asking "b" DispositionOpenIf all_access share_all) "note" 10 (gateway_of "abc") with
  | (g, inl h) => (g, h)
  | (g, inr _) => (g, mkStream "" "" [] false None)
  end.
Definition stream_requests : list (file_request * Time) := [(FWrite 2 (text "cd"), 11); (FWrite 0 (text "ab"), 12); (FSetEnd 3, 13); (FRead 0 9, 14)].

Lemma stream_is_plain_file_witness :
  exists g h xs, stream_run share stream_requests stream_opened.1 stream_opened.2 = Some (g, h, xs) /\
    xs = [Count 2; Count 2; Done; Got (text "abc")] /\ s_data h = text "abc" /\
    (s_Close share in_order 15 g h).2 = None.
Proof.
  assert (Hn : is_given (stream_run share stream_requests stream_opened.1 stream_opened.2) = true) by (vm_compute; reflexivity).
  destruct (stream_run share stream_requests stream_opened.1 stream_opened.2) as [[[g h] xs]|] eqn:E; [|discriminate Hn].
  exists g, h, xs. split; [reflexivity|].
  assert (Hc : (s_Close share in_order 15 g h).2 = None).
  { assert (from_option (fun r => (s_Close share in_order 15 r.1.1 r.1.2).2) (Some ErrInvalid)
      (stream_run share stream_requests stream_opened.1 stream_opened.2) = None) as Hc by (vm_compute; reflexivity).
    rewrite E in Hc. exact Hc. }
  destruct (s_Close share in_order 15 g h) as [[g2 h2] e2] eqn:Ec. cbn [snd] in Hc. subst e2.
  destruct (stream_is_plain_file share in_order stream_requests 15 stream_opened.1 g g2 stream_opened.2 h h2 xs) as (Hp & _).
  - repeat constructor; reflexivity || discriminate.
  - exact E.
  - exact Ec.
  - vm_compute in Hp. injection Hp as Hd Hx. split; [symmetry; exact Hx|]. split; [symmetry; exact Hd|reflexivity].
Defined.

(** ** Findings *)

(** Share modes are kept under the name the client sent: two spellings of one file
    have two entries, and both get the file exclusively. *)
Example share_modes_miss_case_variants :
  opening exclusive (gateway_of "abc")
    (fun g _ => (keyPath "/b" 11 (files g)).2 = (keyPath "/B" 11 (files g)).2 /\
       is_given (match (Open share (asking "B" DispositionOpen all_access 0) 11 g).2 with inl h => Some h | inr _ => None end) = true /\
       (Open share exclusive 11 g).2 = inr ErrSharingViolation) False.
Proof. vm_compute. auto. Qed.

(** A rename through one handle leaves the other handles of the file with the old
    name, under which there is nothing. *)
Example rename_strands_other_handles :
  opening (asking "b" DispositionOpen all_access share_all) (gateway_of "abc") (fun g h1 =>
    opening (asking "b" DispositionOpen all_access share_all) g (fun g h2 =>
      let '(g, h1, err) := SmbBackend.Rename share "c" false 12 g h1 in
      err = None /\ (SmbBackend.Read 0 10 13 g h1).2 = (text "abc", Some (FromFs EOF)) /\
      (SmbBackend.Read 0 10 13 g h2).2 = ([], Some (FromFs (FromPosix CosClient.ErrNotExist)))) False) False.
Proof. vm_compute. auto. Qed.

(** A name with brackets, which Windows allows, is a class to [filepath.Match]: the
    search a client makes to look the name up does not find it. *)
Example bracket_name_not_found : matchPattern "report[1].txt" "report[1].txt" = Some false /\ matchPattern "a[b" "a[b" = None.
Proof. vm_compute. auto. Qed.

(** [*.*] stands for every name on Windows. *)
Example star_dot_star_misses : matchPattern "*.*" "README" = Some false.
Proof. by vm_compute. Qed.

(** The file a read has taken from its handle is closed by the first write of the
    same handle, which opens it again; the read then fails. *)
Example read_loses_its_file :
  let '(g, h) := reading in
  match fileFor false 20 g h with
  | (g, h, inl f) =>
      match fileFor true 21 g h with
      | (g, _, inl f') =>
          let '(_, closed, _) := close_file (Some f) 21 g in
          from_option (fun f => (ReadAt 10 0 22 (files g) f).2) ([], None) closed = ([], Some Closed)
      | _ => False
      end
  | _ => False
  end.
Proof. by vm_compute. Qed.

End SmbFindings.
