(* ===== verification/NfsCache.v ===== *)
(** * The directory listing cache of the NFS export ([internal/nfs/cached_filesystem.go])

    Listings are kept by cleaned path with the time they were taken, and every
    change made through the wrapper drops the listings it affects after the change.
    A reader notes the number of changes before it lists and does not keep a listing
    when the number moved.  The file system below is an interface: what a directory
    lists as, and what a change makes of it.  Readers and changes run in
    any interleaving of their steps, which are: the look at the cache, the listing,
    the check and the store of a reader; the call below and the deferred calls of a
    change.  The number of changes does not wrap, which would take 2^64 of them. *)
From S2P Require Import Prelude GoPath Paths VfsFile.
Import Paths.

Module NfsCache.

(** ** Keys *)

(** [cacheKey]. *)
Definition cacheKey (path : string) : string := TrimRightSlash (TrimLeftSlash (Clean ("/" +:+ path))).

(** The names of a path, read from the root. *)
Definition root_names (path : string) : list string := clean_elems true (SplitSlash path).

Lemma Clean_root path : Clean ("/" +:+ path) = path_of (root_names path).
Proof.
  unfold Clean, root_names, path_of. rewrite HasPrefix_app.
  change (SplitSlash ("/" +:+ path)) with (SplitSlash ("" +:+ String slash path)).
  by rewrite SplitSlash_app by apply not_elem_of_nil.
Qed.

Lemma root_names_ok path : names (root_names path).
Proof. apply clean_elems_rooted_names, SplitSlash_no_slash. Qed.

Lemma cacheKey_names path : cacheKey path = JoinSlash (root_names path).
Proof.
  unfold cacheKey. rewrite Clean_root. pose proof (root_names_ok path) as Hn.
  change (TrimLeftSlash (path_of (root_names path))) with (TrimLeftSlash (JoinSlash (root_names path))).
  rewrite TrimLeftSlash_no by (by apply JoinSlash_not_rooted). by apply TrimRightSlash_no, JoinSlash_no_trailing.
Qed.

(** A pass over relative elements keeps the rooted pass's names above some [..]. *)
Lemma clean_pass es :
  Forall no_slash es ->
  exists ns k, names ns /\ foldl (clean_step true) [] es = ns /\ foldl (clean_step false) [] es = ns ++ replicate k "..".
Proof.
  induction es as [|e es IH] using rev_ind; [by exists [], 0%nat|].
  intros [Hes [He _]%Forall_cons]%Forall_app. destruct (IH Hes) as (ns & k & Hns & Ht & Hf).
  rewrite !foldl_app, Ht, Hf. cbn [foldl]. unfold clean_step.
  case_decide as H1; [by exists ns, k|]. case_decide as H2.
  - destruct ns as [|n ns].
    + exists [], (S k). split; [done|]. split; [done|]. by destruct k.
    + apply Forall_cons in Hns as [Hn Hns]. assert (n <> "..") by (by destruct Hn as (_ & _ & ? & _)).
      exists ns, k. simpl. by rewrite !decide_False.
  - exists (e :: ns), k. split; [|done]. constructor; [|done]. split_and!; [intros ->; by apply H1; left|intros ->; by apply H1; right|done|exact He].
Qed.

Lemma foldl_dots k es : foldl (clean_step true) [] (replicate k ".." ++ es) = foldl (clean_step true) [] es.
Proof. induction k as [|k IH]; [done|exact IH]. Qed.

Lemma dots_no_slash k : Forall no_slash (replicate k "..").
Proof. apply Forall_replicate. unfold no_slash. simpl. rewrite !not_elem_of_cons. split_and!; [done..|apply not_elem_of_nil]. Qed.

Lemma root_names_path_of es : names es -> root_names (path_of es) = es.
Proof.
  intros Hes. destruct es as [|n l]; [done|]. unfold root_names. rewrite SplitSlash_path_of by done.
  change (clean_elems true (n :: l) = n :: l). by apply clean_elems_names.
Qed.

(** Cleaning a path does not change what it names from the root. *)
Lemma root_names_Clean path : root_names (Clean path) = root_names path.
Proof.
  destruct (clean_pass (SplitSlash path) (SplitSlash_no_slash _)) as (ns & k & Hns & Ht & Hf).
  unfold Clean. destruct (HasPrefix path "/").
  - apply root_names_path_of, root_names_ok.
  - unfold root_names, clean_elems in *. rewrite Hf, Ht. clear Ht Hf. rewrite reverse_app, reverse_replicate.
    pose proof (proj2 (Forall_reverse _ _) Hns) as Hr. destruct (replicate k ".." ++ reverse ns) as [|d l] eqn:E.
    { apply app_eq_nil in E as [_ E]. rewrite <-(reverse_involutive ns), E. done. }
    rewrite <-E, SplitSlash_JoinSlash, foldl_dots, foldl_clean_names by
      (first [by rewrite E|apply Forall_app; split; [apply dots_no_slash|by apply names_no_slash]|done]).
    by rewrite app_nil_r, reverse_involutive.
Qed.

(** The directory of a key is the key of the parent's names. *)
Lemma cacheKey_Dir es e : names (es ++ [e]) -> cacheKey (path_Dir (JoinSlash (es ++ [e]))) = JoinSlash es.
Proof.
  intros Hn. rewrite cacheKey_names. f_equal. unfold path_Dir. rewrite root_names_Clean. unfold path_Split.
  rewrite SplitSlash_JoinSlash by first [by apply names_no_slash|by destruct es].
  rewrite removelast_last. cbn [fst]. apply Forall_app in Hn as [Hes _]. destruct es as [|n l]; [done|].
  unfold root_names. rewrite SplitSlash_snoc, SplitSlash_JoinSlash by (try apply names_no_slash; done).
  unfold clean_elems. rewrite foldl_app, (foldl_clean_names true (n :: l)), app_nil_r by done. apply reverse_involutive.
Qed.

Lemma root_names_key es : names es -> root_names (JoinSlash es) = es.
Proof.
  intros Hes. destruct es as [|n l]; [done|]. unfold root_names.
  rewrite SplitSlash_JoinSlash by (try apply names_no_slash; done). by apply clean_elems_names.
Qed.

Lemma cacheKey_key es : names es -> cacheKey (JoinSlash es) = JoinSlash es.
Proof. intros Hes. by rewrite cacheKey_names, root_names_key. Qed.


(** ** The cache *)

Record cachedDir (Info : Type) := mkDir { entries : list Info; timestamp : Z }.
Arguments mkDir {_} _ _.
Arguments entries {_} _.
Arguments timestamp {_} _.

(** [CachedFilesystem] without the file system it wraps; [lastSweep] and the
    timestamps are in nanoseconds. *)
Record CachedFilesystem (Info : Type) := mkCache {
  cache : gmap string (cachedDir Info);
  cacheTTL : Z;
  generation : Z;
  lastSweep : Z
}.
Arguments mkCache {_} _ _ _ _.
Arguments cache {_} _.
Arguments cacheTTL {_} _.
Arguments generation {_} _.
Arguments lastSweep {_} _.

(** A change made through the wrapper. *)
Inductive change :=
  | Create (filename : string)
  | OpenFile (filename : string) (flag : Z)
  | TempFile (dir pre : string)
  | Rename (oldpath newpath : string)
  | Remove (filename : string)
  | MkdirAll (filename : string)
  | Symlink (target link : string)
  | Chmod (name : string)
  | Lchown (name : string)
  | Chown (name : string)
  | Chtimes (name : string).

Section Operations.
Context {Info : Type}.
Abbreviation CFS := (CachedFilesystem Info).
Implicit Types c : CFS.

Definition NewCachedFilesystem (ttl : Z) : CFS := mkCache ∅ ttl 0 0.

Definition bump c : CFS := mkCache (cache c) (cacheTTL c) (generation c + 1) (lastSweep c).
Definition with_cache (m : gmap string (cachedDir Info)) c : CFS := mkCache m (cacheTTL c) (generation c) (lastSweep c).

(** [ReadDir] up to the read of the wrapped file system: the cached listing, or
    the generation noted before it. *)
Definition ReadDir_begin c (path : string) (now : Z) : list Info + Z :=
  match cache c !! cacheKey path with
  | Some dir => if now - timestamp dir <? cacheTTL c then inl (entries dir) else inr (generation c)
  | None => inr (generation c)
  end.

(** Whether nothing changed while listing. *)
Definition ReadDir_check c (noted : Z) : bool := generation c =? noted.

Definition dropExpired c (now : Z) : CFS :=
  if now - lastSweep c <? cacheTTL c then c
  else
    mkCache (filter (fun kd => now - timestamp (snd kd) < cacheTTL c) (cache c)) (cacheTTL c) (generation c) now.

(** The end of [ReadDir]: keep the listing. *)
Definition ReadDir_store c (path : string) (es : list Info) (now : Z) : CFS :=
  dropExpired (with_cache (<[cacheKey path := mkDir es now]> (cache c)) c) now.

Definition InvalidateCache c (path : string) : CFS := let c := bump c in with_cache (delete (cacheKey path) (cache c)) c.

Definition ClearCache c : CFS := with_cache ∅ (bump c).

Definition changed c (path : string) : CFS :=
  let c := bump c in
  let key := cacheKey path in
  if decide (key = "") then c else with_cache (delete (cacheKey (path_Dir key)) (cache c)) c.

Definition changedTree c (path : string) : CFS :=
  let c := changed c path in
  let key := cacheKey path in
  with_cache (filter (fun kd => ~ (key = "" \/ fst kd = key \/ HasPrefix (fst kd) (key +:+ "/") = true)) (cache c)) c.

Fixpoint changedAncestors_loop (fuel : nat) c (key : string) : CFS :=
  match fuel with
  | O => c
  | S fuel => if decide (key = "") then c else changedAncestors_loop fuel (changed c key) (cacheKey (path_Dir key))
  end.

(** Every turn shortens the key. *)
Definition changedAncestors c (path : string) : CFS :=
  let key := cacheKey path in changedAncestors_loop (String.length key) c key.

(** What each operation defers to after the wrapped call, error or not. *)
Definition Create_deferred c (filename : string) : CFS := changed c filename.
Definition may_create_or_truncate (flag : Z) : bool := VfsFile.has flag (Z.lor VfsFile.O_CREATE VfsFile.O_TRUNC).
Definition OpenFile_deferred c (filename : string) (flag : Z) : CFS :=
  if may_create_or_truncate flag then changed c filename else c.
Definition TempFile_deferred c (dir prefix : string) : CFS := changed c (path_Join [dir; prefix]).
Definition Rename_deferred c (oldpath newpath : string) : CFS := changedTree (changedTree c newpath) oldpath.
Definition Remove_deferred c (filename : string) : CFS :=
  let c := changed c filename in with_cache (delete (cacheKey filename) (cache c)) c.
Definition MkdirAll_deferred c (filename : string) : CFS := changedAncestors c filename.
Definition Symlink_deferred c (target link : string) : CFS := changed c link.
(** The four operations of [billy.Change], which the wrapped file system may not have. *)
Definition Chmod_deferred (has_change : bool) c (name : string) : CFS := if has_change then changed c name else c.
Definition Lchown_deferred (has_change : bool) c (name : string) : CFS := if has_change then changed c name else c.
Definition Chown_deferred (has_change : bool) c (name : string) : CFS := if has_change then changed c name else c.
Definition Chtimes_deferred (has_change : bool) c (name : string) : CFS := if has_change then changed c name else c.

Definition deferred (has_change : bool) c (op : change) : CFS :=
  match op with
  | Create f => Create_deferred c f
  | OpenFile f flag => OpenFile_deferred c f flag
  | TempFile d p => TempFile_deferred c d p
  | Rename o n => Rename_deferred c o n
  | Remove f => Remove_deferred c f
  | MkdirAll f => MkdirAll_deferred c f
  | Symlink t l => Symlink_deferred c t l
  | Chmod n => Chmod_deferred has_change c n
  | Lchown n => Lchown_deferred has_change c n
  | Chown n => Chown_deferred has_change c n
  | Chtimes n => Chtimes_deferred has_change c n
  end.

(** ** What the operations drop *)

(** [c'] keeps only listings of [c] and counts at least its changes. *)
Definition shrinks c c' : Prop := cache c' ⊆ cache c /\ generation c <= generation c'.

Lemma shrinks_refl c : shrinks c c.
Proof. split; [done|lia]. Qed.

Lemma shrinks_trans c1 c2 c3 : shrinks c1 c2 -> shrinks c2 c3 -> shrinks c1 c3.
Proof. intros [? ?] [? ?]. split; [by etrans|lia]. Qed.

Lemma shrinks_cache c m : m ⊆ cache c -> shrinks c (with_cache m c).
Proof. split; [done|simpl; lia]. Qed.

Lemma changed_shrinks c p : shrinks c (changed c p) /\ generation (changed c p) = generation c + 1.
Proof.
  unfold changed. case_decide; (split; [|done]); split; simpl; try lia; [done|apply delete_subseteq].
Qed.

Lemma changedTree_shrinks c p : shrinks c (changedTree c p) /\ generation (changedTree c p) = generation c + 1.
Proof.
  destruct (changed_shrinks c p) as [Hs Hg]. unfold changedTree. split; [|done].
  eapply shrinks_trans; [done|]. apply shrinks_cache, map_filter_subseteq.
Qed.

Lemma changedAncestors_loop_shrinks fuel c key : shrinks c (changedAncestors_loop fuel c key).
Proof.
  revert c key. induction fuel as [|fuel IH]; intros c key; simpl; [apply shrinks_refl|].
  case_decide; [apply shrinks_refl|]. eapply shrinks_trans; [apply changed_shrinks|apply IH].
Qed.

Lemma deferred_shrinks b c op : shrinks c (deferred b c op).
Proof.
  destruct op; cbn [deferred]; try apply changed_shrinks.
  - unfold OpenFile_deferred. case_match; [apply changed_shrinks|apply shrinks_refl].
  - eapply shrinks_trans; apply changedTree_shrinks.
  - eapply shrinks_trans; [apply changed_shrinks|]. apply shrinks_cache, delete_subseteq.
  - apply changedAncestors_loop_shrinks.
  - destruct b; [apply changed_shrinks|apply shrinks_refl].
  - destruct b; [apply changed_shrinks|apply shrinks_refl].
  - destruct b; [apply changed_shrinks|apply shrinks_refl].
  - destruct b; [apply changed_shrinks|apply shrinks_refl].
Qed.

(** ** The directories a change can touch *)

Definition parent_of (path : string) (es : list string) : Prop := exists e, root_names path = es ++ [e].
Definition within (path : string) (es : list string) : Prop := exists gs, es = root_names path ++ gs.

(** The directories, by their names, whose listing a change can make another one:
    those that gain, lose or show the changed name, and those moved or removed. *)
Definition touches (op : change) (es : list string) : Prop :=
  match op with
  | Create f | Symlink _ f | Chmod f | Lchown f | Chown f | Chtimes f => parent_of f es
  | OpenFile f flag => may_create_or_truncate flag = true /\ parent_of f es
  | TempFile dir _ => root_names dir = es
  | Rename o n => parent_of o es \/ within o es \/ parent_of n es \/ within n es
  | Remove f => parent_of f es \/ root_names f = es
  | MkdirAll f => exists e gs, root_names f = es ++ e :: gs
  end.

(** A temporary file's prefix that is a name. *)
Definition prefix_is_name (op : change) : Prop := match op with TempFile _ p => is_name p | _ => True end.

(** The operations of [billy.Change]. *)
Definition needs_change (op : change) : bool :=
  match op with Chmod _ | Lchown _ | Chown _ | Chtimes _ => true | _ => false end.

Lemma changed_drops c f es : parent_of f es -> cache (changed c f) !! JoinSlash es = None.
Proof.
  intros [e He]. pose proof (root_names_ok f) as Hn. rewrite He in Hn. unfold changed.
  rewrite cacheKey_names, He. rewrite decide_False by (apply JoinSlash_nonempty; [done|by destruct es]).
  rewrite cacheKey_Dir by done. apply lookup_delete_eq.
Qed.

Lemma changedTree_drops c f es :
  names es -> parent_of f es \/ within f es -> cache (changedTree c f) !! JoinSlash es = None.
Proof.
  intros Hes H. unfold changedTree. cbn [cache with_cache]. apply map_lookup_filter_None. destruct H as [H|[gs ->]].
  { left. by apply changed_drops. }
  right. intros d _ Hk. apply Hk. cbn [fst]. rewrite cacheKey_names. destruct (root_names f) as [|n l] eqn:E; [by left|].
  right. destruct gs as [|g gs]; [left; by rewrite app_nil_r|right].
  pose proof (root_names_ok f) as Hn. rewrite E in Hn. apply below_spec; [done..|]. by exists g, gs.
Qed.

Lemma names_length es : names es -> (length es <= String.length (JoinSlash es))%nat.
Proof.
  induction es as [|e es IH]; [simpl; lia|]. intros [He Hes]%Forall_cons. specialize (IH Hes).
  assert (1 <= String.length e)%nat by (destruct e; [by destruct He|simpl; lia]).
  destruct es as [|e' es]; [simpl in *; lia|]. rewrite JoinSlash_cons by done.
  rewrite !string_length_app. cbn [length String.length] in *. lia.
Qed.

Lemma changedAncestors_loop_drops fuel c fs es :
  names fs -> (length fs <= fuel)%nat -> (exists e gs, fs = es ++ e :: gs) ->
  cache (changedAncestors_loop fuel c (JoinSlash fs)) !! JoinSlash es = None.
Proof.
  revert c fs. induction fuel as [|fuel IH]; intros c fs Hfs Hl (e & gs & ->);
    rewrite length_app in Hl; cbn [length] in Hl; [lia|].
  cbn [changedAncestors_loop]. rewrite decide_False by (apply JoinSlash_nonempty; [done|by destruct es]).
  destruct gs as [|g gs _] using rev_ind.
  - assert (cache (changed c (JoinSlash (es ++ [e]))) !! JoinSlash es = None) as Hd.
    { apply changed_drops. exists e. by apply root_names_key. }
    apply lookup_weaken_None with (cache (changed c (JoinSlash (es ++ [e])))); [done|].
    apply changedAncestors_loop_shrinks.
  - rewrite app_comm_cons, app_assoc in Hfs |- *. rewrite cacheKey_Dir by done. apply IH.
    + by apply Forall_app in Hfs as [? _].
    + repeat (rewrite !length_app in * || cbn [length] in *). lia.
    + eauto.
Qed.

Lemma root_names_Join dir p : is_name p -> root_names (path_Join [dir; p]) = root_names dir ++ [p].
Proof.
  intros Hp. pose proof (is_name_no_slash _ Hp) as Hs. pose proof (is_name_nonempty _ Hp) as Hne. unfold path_Join.
  destruct (decide (dir = "")) as [->|Hd].
  - rewrite filter_cons_False, filter_cons_True by (try tauto; done). rewrite filter_nil, root_names_Clean.
    cbn [JoinSlash]. apply (root_names_key [p]). by constructor.
  - rewrite !filter_cons_True by done. rewrite filter_nil, root_names_Clean. cbn [JoinSlash].
    change (dir +:+ "/" +:+ p) with (dir +:+ "/" +:+ JoinSlash [p]). unfold root_names at 1.
    rewrite <-(JoinSlash_SplitSlash dir) at 1.
    rewrite SplitSlash_prefix by (try apply SplitSlash_nonempty; apply SplitSlash_no_slash).
    cbn [JoinSlash]. rewrite (SplitSlash_no_slash_single p) by done. unfold clean_elems. rewrite foldl_app. cbn [foldl].
    rewrite clean_step_name, reverse_cons by done. done.
Qed.

(** Whatever a change can touch, it drops. *)
Lemma deferred_drops b c op es :
  names es -> prefix_is_name op -> touches op es -> (needs_change op = true -> b = true) ->
  cache (deferred b c op) !! JoinSlash es = None /\ generation c < generation (deferred b c op).
Proof.
  intros Hes Hp Ht Hb. assert (forall f, generation c < generation (changed c f)) as Hgen.
  { intros f. rewrite (proj2 (changed_shrinks c f)). lia. }
  destruct op; cbn [deferred touches prefix_is_name needs_change] in *;
    unfold Create_deferred, Symlink_deferred, Chmod_deferred, Lchown_deferred, Chown_deferred, Chtimes_deferred;
    try (rewrite Hb by done); try (split; [by apply changed_drops|done]).
  - destruct Ht as [Hf Ht]. unfold OpenFile_deferred. rewrite Hf. split; [by apply changed_drops|done].
  - split; [|apply Hgen]. apply changed_drops. exists pre. rewrite root_names_Join by done. by f_equal.
  - unfold Rename_deferred. destruct (changedTree_shrinks c newpath) as [[_ _] H1].
    destruct (changedTree_shrinks (changedTree c newpath) oldpath) as [[H2 _] H3]. split; [|lia].
    destruct Ht as [Ht|[Ht|Ht]]; [apply changedTree_drops; tauto..|].
    eapply lookup_weaken_None; [by apply changedTree_drops|exact H2].
  - unfold Remove_deferred. cbn [cache generation with_cache]. split; [|apply Hgen]. destruct Ht as [Ht|Ht].
    + apply lookup_delete_None. right. by apply changed_drops.
    + rewrite cacheKey_names, Ht. apply lookup_delete_eq.
  - unfold MkdirAll_deferred, changedAncestors. rewrite cacheKey_names. pose proof (root_names_ok filename) as Hn. split.
    + apply changedAncestors_loop_drops; [done|by apply names_length|done].
    + destruct Ht as (e & gs & Ht). assert (root_names filename <> []) as Hne by (rewrite Ht; by destruct es).
      pose proof (JoinSlash_nonempty _ Hn Hne) as Hk. destruct (JoinSlash (root_names filename)) as [|a k]; [done|].
      cbn [String.length changedAncestors_loop]. rewrite decide_False by done.
      pose proof (Hgen (String a k)) as Hg.
      destruct (changedAncestors_loop_shrinks (String.length k) (changed c (String a k)) (cacheKey (path_Dir (String a k)))) as [_ Hl]. lia.
Qed.

End Operations.

(** ** The wrapped file system *)

(** A directory's listing ([None] is an error), which depends on the cleaned path,
    and the effect of a change. *)
Class Backing (Info FS : Type) := {
  ilist : FS -> string -> option (list Info);
  iapply : FS -> change -> FS;
  has_change : bool;
  ilist_path fs p q : root_names p = root_names q -> ilist fs p = ilist fs q
}.

Section Running.
Context {Info FS : Type} `{Backing Info FS}.
Abbreviation CFS := (CachedFilesystem Info).

(** [ReadDir] with nothing running beside it. *)
Definition ReadDir (c : CFS) (fs : FS) (path : string) (now : Z) : CFS * option (list Info) :=
  match ReadDir_begin c path now with
  | inl l => (c, Some l)
  | inr noted =>
      match ilist fs path with
      | None => (c, None)
      | Some l => if ReadDir_check c noted then (ReadDir_store c path l now, Some l) else (c, Some l)
      end
  end.

(** *** Readers and changes interleaved *)

Inductive reader :=
  | Noted (path : string) (noted : Z)
  | Listed (path : string) (noted : Z) (l : list Info)
  | Checked (path : string) (l : list Info).

(** The wrapped file system, the cache, the calls of [ReadDir] past a miss, and the
    changes made whose deferred calls have not run. *)
Record world := mkWorld { below_fs : FS; cached : CFS; readers : gmap Z reader; pending : gmap Z change }.

Definition start (ttl : Z) (fs : FS) : world := mkWorld fs (NewCachedFilesystem ttl) ∅ ∅.

Inductive event :=
  | Begin (id : Z) (path : string) (now : Z)
  | List (id : Z)
  | ListFails (id : Z)
  | CheckGeneration (id : Z)
  | Store (id : Z) (now : Z)
  | Change (id : Z) (op : change)
  | Deferred (id : Z)
  | Invalidate (path : string)
  | Clear.

Definition set_reader (id : Z) (r : option reader) (w : world) : world :=
  mkWorld (below_fs w) (cached w) (match r with Some r => <[id := r]> (readers w) | None => delete id (readers w) end) (pending w).
Definition set_cached (c : CFS) (w : world) : world := mkWorld (below_fs w) c (readers w) (pending w).

(** An operation of [billy.Change] is made only on a file system that has them. *)
Definition made (fs : FS) (op : change) : FS := if needs_change op && negb has_change then fs else iapply fs op.

Definition step (w : world) (ev : event) : world :=
  match ev with
  | Begin id path now =>
      match readers w !! id, ReadDir_begin (cached w) path now with
      | None, inr noted => set_reader id (Some (Noted path noted)) w
      | _, _ => w
      end
  | List id =>
      match readers w !! id with
      | Some (Noted path noted) =>
          match ilist (below_fs w) path with
          | Some l => set_reader id (Some (Listed path noted l)) w
          | None => set_reader id None w
          end
      | _ => w
      end
  | ListFails id => match readers w !! id with Some (Noted _ _) => set_reader id None w | _ => w end
  | CheckGeneration id =>
      match readers w !! id with
      | Some (Listed path noted l) =>
          if ReadDir_check (cached w) noted then set_reader id (Some (Checked path l)) w else set_reader id None w
      | _ => w
      end
  | Store id now =>
      match readers w !! id with
      | Some (Checked path l) => set_cached (ReadDir_store (cached w) path l now) (set_reader id None w)
      | _ => w
      end
  | Change id op =>
      match pending w !! id with
      | None => mkWorld (made (below_fs w) op) (cached w) (readers w) (<[id := op]> (pending w))
      | Some _ => w
      end
  | Deferred id =>
      match pending w !! id with
      | Some op => mkWorld (below_fs w) (deferred has_change (cached w) op) (readers w) (delete id (pending w))
      | None => w
      end
  | Invalidate path => set_cached (InvalidateCache (cached w) path) w
  | Clear => set_cached (ClearCache (cached w)) w
  end.

Definition run (w : world) (evs : list event) : world := foldl step w evs.

(** What of an entry is compared: the file system below shows the time of a
    subdirectory in a listing ([withDirTime] of [internal/vfs/filesystem.go]), and
    a change in the subdirectory, which drops only its own listing, moves it. *)
Context {View : Type} (iview : Info -> View).

Definition compared (l : list Info) : list View := iview <$> l.

Definition same_listing (l : list Info) (o : option (list Info)) : Prop :=
  exists l', o = Some l' /\ compared l' = compared l.

(** A change leaves alone the listings of the directories it cannot touch. *)
Definition framed (fs : FS) (op : change) : Prop :=
  forall p l, ilist fs p = Some l -> touches op (root_names p) \/ same_listing l (ilist (iapply fs op) p).

(** No deferred call runs between a reader's check and its store; a temporary
    file's prefix is a name; and changes touch what they can. *)
Definition calm_event (w : world) (ev : event) : Prop :=
  match ev with
  | Deferred _ => forall id path l, readers w !! id <> Some (Checked path l)
  | Change _ op => prefix_is_name op /\ framed (below_fs w) op
  | _ => True
  end.

Fixpoint calm (w : world) (evs : list event) : Prop :=
  match evs with [] => True | ev :: evs => calm_event w ev /\ calm (step w ev) evs end.

(** *** The invariant *)

(** A listing of [path] taken earlier is right, or a change under way touches it. *)
Definition holds (w : world) (path : string) (l : list Info) : Prop :=
  same_listing l (ilist (below_fs w) path) \/ exists id op, pending w !! id = Some op /\ touches op (root_names path)
    /\ (needs_change op = true -> has_change = true).

Definition reader_ok (w : world) (r : reader) : Prop :=
  match r with
  | Noted _ noted => noted <= generation (cached w)
  | Listed path noted l => noted <= generation (cached w) /\ (noted = generation (cached w) -> holds w path l)
  | Checked path l => holds w path l
  end.

Record valid (w : world) : Prop := {
  v_cache k d : cache (cached w) !! k = Some d -> exists es, names es /\ k = JoinSlash es /\ holds w k (entries d);
  v_readers id r : readers w !! id = Some r -> reader_ok w r;
  v_pending id op : pending w !! id = Some op -> prefix_is_name op
}.

Lemma root_names_cacheKey path : root_names (cacheKey path) = root_names path.
Proof. rewrite cacheKey_names. apply root_names_key, root_names_ok. Qed.

Lemma holds_path w p q l : root_names p = root_names q -> holds w p l -> holds w q l.
Proof.
  intros E [Hl|Hp]; [left|right].
  - by rewrite <-(ilist_path _ p q).
  - by rewrite <-E.
Qed.

Lemma valid_start ttl fs : valid (start ttl fs).
Proof. split; simpl; [intros k d|intros id r|intros id op]; rewrite lookup_empty; done. Qed.

(** A reader moves on or leaves. *)
Lemma valid_set_reader w id r : valid w -> from_option (reader_ok w) True r -> valid (set_reader id r w).
Proof.
  intros [Hc Hr Hp] Hok. split; [exact Hc| |exact Hp]. intros id' r'. destruct r as [r|]; cbn [set_reader readers].
  - intros [[-> <-]|[? Hl]]%lookup_insert_Some; [exact Hok|exact (Hr _ _ Hl)].
  - intros [? Hl]%lookup_delete_Some. exact (Hr _ _ Hl).
Qed.

(** Listings are dropped. *)
Lemma valid_shrinks w c : valid w -> shrinks (cached w) c -> valid (set_cached c w).
Proof.
  intros [Hc Hr Hp] [Hs Hg]. split; [|intros id r Hl; specialize (Hr _ _ Hl)|exact Hp].
  - intros k d Hk. exact (Hc k d (lookup_weaken _ _ _ _ Hk Hs)).
  - destruct r as [p n|p n l|p l]; cbn [reader_ok cached set_cached] in *; [lia| |exact Hr].
    destruct Hr as [Hn Hh]. split; [lia|]. intros ->. apply Hh. lia.
Qed.

Lemma dropExpired_shrinks (c : CFS) now : shrinks c (dropExpired c now).
Proof. unfold dropExpired. case_match; [apply shrinks_refl|]. split; [apply map_filter_subseteq|simpl; lia]. Qed.

(** A listing is kept. *)
Lemma valid_store w path l now : valid w -> holds w path l -> valid (set_cached (ReadDir_store (cached w) path l now) w).
Proof.
  intros Hv Hl. unfold ReadDir_store.
  set (c := with_cache (<[cacheKey path := mkDir l now]> (cache (cached w))) (cached w)).
  assert (valid (set_cached c w)) as Hc.
  { destruct Hv as [Hc Hr Hp]. split; [|exact Hr|exact Hp]. intros k d. cbn [cached set_cached c cache with_cache].
    intros [[<- <-]|[_ Hk]]%lookup_insert_Some; [|exact (Hc _ _ Hk)].
    exists (root_names path). split; [apply root_names_ok|]. split; [apply cacheKey_names|].
    eapply holds_path; [|exact Hl]. symmetry. apply root_names_cacheKey. }
  exact (valid_shrinks _ _ Hc (dropExpired_shrinks c now)).
Qed.

(** A change is made below, before its deferred call. *)
Lemma holds_change w id op path l :
  framed (below_fs w) op -> pending w !! id = None -> holds w path l ->
  holds (mkWorld (made (below_fs w) op) (cached w) (readers w) (<[id := op]> (pending w))) path l.
Proof.
  intros Hn Hid [Hl|(i & o & Hi & Ho)].
  - unfold holds, made. cbn [below_fs pending]. destruct (needs_change op && negb has_change) eqn:E; [by left|].
    destruct Hl as (l' & Hl & El). destruct (Hn path l' Hl) as [Ht|(l'' & Hl'' & El'')]; [right|left; exists l''; split; congruence].
    exists id, op. rewrite lookup_insert_eq. split_and!; [done..|]. intros Hneed. rewrite Hneed in E. by destruct has_change.
  - right. exists i, o. cbn [pending]. rewrite lookup_insert_ne by congruence. done.
Qed.

Lemma valid_change w id op : valid w -> prefix_is_name op -> framed (below_fs w) op -> valid (step w (Change id op)).
Proof.
  intros Hv Hn Hframe. cbn [step]. destruct (pending w !! id) eqn:Hid; [done|]. destruct Hv as [Hc Hr Hp].
  assert (forall path l, holds w path l -> holds (mkWorld (made (below_fs w) op) (cached w) (readers w) (<[id := op]> (pending w))) path l) as Hh.
  { intros path l. by apply holds_change. }
  split; cbn [cached readers pending].
  - intros k d Hk. destruct (Hc k d Hk) as (es & ? & ? & ?). eauto.
  - intros i r Hi. specialize (Hr _ _ Hi). destruct r; cbn [reader_ok cached] in *; [done| |auto].
    destruct Hr; split; [done|auto].
  - intros i o [[-> <-]|[_ Hi]]%lookup_insert_Some; [done|eauto].
Qed.

(** The deferred call of a change runs: what the change touched is gone, or the
    generation moved. *)
Lemma holds_deferred w id op path l :
  pending w !! id = Some op -> holds w path l ->
  (touches op (root_names path) /\ (needs_change op = true -> has_change = true))
  \/ holds (mkWorld (below_fs w) (deferred has_change (cached w) op) (readers w) (delete id (pending w))) path l.
Proof.
  intros Hid [Hl|(i & o & Hi & Ht & Hc)]; [right; by left|].
  destruct (decide (i = id)) as [->|Hne]; [left; rewrite Hid in Hi; by injection Hi as ->|].
  right. right. exists i, o. cbn [pending]. rewrite lookup_delete_ne by congruence. done.
Qed.

Lemma valid_deferred w id : valid w -> calm_event w (Deferred id) -> valid (step w (Deferred id)).
Proof.
  intros [Hc Hr Hp] Hcalm. cbn [step]. destruct (pending w !! id) as [op|] eqn:Hid; [|done].
  pose proof (Hp _ _ Hid) as Hn. destruct (deferred_shrinks has_change (cached w) op) as [Hs Hg].
  split; cbn [cached readers pending].
  - intros k d Hk. destruct (Hc k d (lookup_weaken _ _ _ _ Hk Hs)) as (es & Hes & -> & Hh).
    exists es. split_and!; [done..|]. destruct (holds_deferred w id op _ _ Hid Hh) as [[Ht Hb]|]; [exfalso|done].
    rewrite root_names_key in Ht by done.
    destruct (deferred_drops has_change (cached w) op es Hes Hn Ht Hb) as [Hd _]. congruence.
  - intros i r Hi. specialize (Hr _ _ Hi). destruct r as [p n|p n l|p l]; cbn [reader_ok cached] in *; [lia| |].
    + destruct Hr as [Hle Hh]. split; [lia|]. intros ->.
      assert (generation (deferred has_change (cached w) op) = generation (cached w)) as E by lia.
      destruct (holds_deferred w id op _ _ Hid (Hh E)) as [[Ht Hb]|]; [exfalso|done].
      destruct (deferred_drops has_change (cached w) op _ (root_names_ok p) Hn Ht Hb) as [_ Hlt]. lia.
    + by destruct (Hcalm i p l).
  - intros i o [_ Hi]%lookup_delete_Some. eauto.
Qed.

Lemma step_valid w ev : valid w -> calm_event w ev -> valid (step w ev).
Proof.
  intros Hv Hcalm. pose proof (v_readers w Hv) as Hr.
  destruct ev as [id path now|id|id|id|id now|id op|id|path|]; cbn [calm_event] in Hcalm;
    [..|by apply valid_change; destruct Hcalm|by apply valid_deferred| |]; cbn [step].
  - unfold ReadDir_begin. repeat case_match; simplify_eq; try done; apply valid_set_reader; simpl; (done || lia).
  - destruct (readers w !! id) as [[p n|p n l|p l]|] eqn:E; try done. pose proof (Hr _ _ E) as Hn.
    destruct (ilist _ p) as [l|] eqn:El; apply valid_set_reader; [done|..]; simpl; [|done|done].
    split; [exact Hn|]. intros _. left. by exists l.
  - destruct (readers w !! id) as [[p n|p n l|p l]|] eqn:E; try done. by apply valid_set_reader.
  - destruct (readers w !! id) as [[p n|p n l|p l]|] eqn:E; try done. destruct (Hr _ _ E) as [_ Hh]. unfold ReadDir_check.
    destruct (Z.eqb_spec (generation (cached w)) n) as [<-|]; apply valid_set_reader; [done|..]; simpl; [auto|done|done].
  - destruct (readers w !! id) as [[p n|p n l|p l]|] eqn:E; try done. pose proof (Hr _ _ E) as Hh.
    exact (valid_store (set_reader id None w) p l now (valid_set_reader w id None Hv I) Hh).
  - apply valid_shrinks; [done|]. split; [apply delete_subseteq|simpl; lia].
  - apply valid_shrinks; [done|]. split; [apply map_empty_subseteq|simpl; lia].
Qed.

Lemma run_valid w evs : valid w -> calm w evs -> valid (run w evs).
Proof.
  revert w. induction evs as [|ev evs IH]; intros w Hv Hcalm; [done|]. destruct Hcalm.
  apply IH; [by apply step_valid|done].
Qed.


End Running.

(** ** A file system in memory *)

(** Directories by their names, each with the names in it and a time: how often a
    name was linked into or out of it. *)
Abbreviation Mem := (gmap (list string) (gset string * Z)).

Definition link (es : list string) (m : Mem) : Mem :=
  match last es with Some e => alter (fun d => ({[e]} ∪ d.1, d.2 + 1)) (removelast es) m | None => m end.
Definition unlink (es : list string) (m : Mem) : Mem :=
  match last es with Some e => alter (fun d => (d.1 ∖ {[e]}, d.2 + 1)) (removelast es) m | None => m end.

Fixpoint mkdirs (here rest : list string) (m : Mem) : Mem :=
  let m := match m !! here with Some _ => m | None => <[here := (∅, 0)]> m end in
  match rest with
  | [] => m
  | e :: rest => mkdirs (here ++ [e]) rest (alter (fun d => ({[e]} ∪ d.1, d.2 + 1)) here m)
  end.

Definition rmdir (es : list string) (m : Mem) : Mem :=
  match m !! es with
  | Some d => if decide (d.1 = ∅) then delete es (unlink es m) else m
  | None => unlink es m
  end.

Definition moved (o n : list string) (m : Mem) : Mem :=
  list_to_map ((fun kv => (n ++ drop (length o) kv.1, kv.2)) <$> map_to_list (filter (fun kv => o `prefix_of` kv.1) m)).
Definition move (o n : list string) (m : Mem) : Mem :=
  if decide (o `prefix_of` n) then m
  else link n (unlink o (moved o n m ∪ filter (fun kv => ~ o `prefix_of` kv.1 /\ ~ n `prefix_of` kv.1) m)).

(** An entry: a name, and the time of the directory it names, if it does. *)
Definition mem_list (m : Mem) (path : string) : option (list (string * option Z)) :=
  (fun d => (fun e => (e, snd <$> m !! (root_names path ++ [e]))) <$> elements d.1) <$> (m !! root_names path).
Definition mem_apply (m : Mem) (op : change) : Mem :=
  match op with
  | Create f | Symlink _ f => link (root_names f) m
  | OpenFile f flag => if may_create_or_truncate flag then link (root_names f) m else m
  | TempFile dir p => link (root_names dir ++ [p +:+ "42"]) m
  | Rename o n => move (root_names o) (root_names n) m
  | Remove f => rmdir (root_names f) m
  | MkdirAll f => mkdirs [] (root_names f) m
  | _ => m
  end.

Lemma link_frame es m k s : m !! k = Some s -> (exists e, es = k ++ [e]) \/ link es m !! k = Some s.
Proof.
  intros Hk. unfold link. destruct es as [|e es _] using rev_ind; [by right|]. rewrite last_snoc, removelast_last.
  destruct (decide (es = k)) as [->|]; [left; eauto|right]. by rewrite lookup_alter_ne.
Qed.

Lemma unlink_frame es m k s : m !! k = Some s -> (exists e, es = k ++ [e]) \/ unlink es m !! k = Some s.
Proof.
  intros Hk. unfold unlink. destruct es as [|e es _] using rev_ind; [by right|]. rewrite last_snoc, removelast_last.
  destruct (decide (es = k)) as [->|]; [left; eauto|right]. by rewrite lookup_alter_ne.
Qed.

Lemma mkdirs_frame rest here m k s :
  m !! k = Some s -> (exists e gs, here ++ rest = k ++ e :: gs) \/ mkdirs here rest m !! k = Some s.
Proof.
  revert here m. induction rest as [|e rest IH]; intros here m Hk; cbn [mkdirs].
  - right. destruct (m !! here) eqn:E; [done|]. by rewrite lookup_insert_ne by congruence.
  - destruct (decide (here = k)) as [->|Hne]; [left; eauto|].
    rewrite (cons_middle e here rest), app_assoc. destruct (m !! here) eqn:E; apply IH; rewrite lookup_alter_ne by done.
    + done.
    + by rewrite lookup_insert_ne by congruence.
Qed.

Lemma rmdir_frame es m k s : m !! k = Some s -> ((exists e, es = k ++ [e]) \/ es = k) \/ rmdir es m !! k = Some s.
Proof.
  intros Hk. unfold rmdir. destruct (unlink_frame es m k s Hk) as [?|Hu]; [by left; left|].
  destruct (m !! es); [|by right]. case_decide; [|by right].
  destruct (decide (es = k)); [by left; right|right]. by rewrite lookup_delete_ne.
Qed.

Lemma moved_outside o n m k : ~ n `prefix_of` k -> moved o n m !! k = None.
Proof.
  intros Hk. unfold moved. apply not_elem_of_list_to_map_1. rewrite <-list_fmap_compose.
  intros (kv & -> & _)%list_elem_of_fmap. apply Hk. by eexists.
Qed.

Lemma move_frame o n m k s :
  m !! k = Some s ->
  ((exists e, o = k ++ [e]) \/ o `prefix_of` k \/ (exists e, n = k ++ [e]) \/ n `prefix_of` k) \/ move o n m !! k = Some s.
Proof.
  intros Hk. unfold move. case_decide; [by right|].
  destruct (decide (o `prefix_of` k)); [tauto|]. destruct (decide (n `prefix_of` k)); [tauto|].
  set (m' := moved o n m ∪ _). assert (m' !! k = Some s) as Hm.
  { unfold m'. rewrite lookup_union_r by (by apply moved_outside). by apply map_lookup_filter_Some. }
  destruct (unlink_frame o m' k s Hm) as [?|Hu]; [tauto|]. destruct (link_frame n _ k s Hu); tauto.
Qed.

#[export] Program Instance mem_backing : Backing (string * option Z) Mem := {
  ilist := mem_list; iapply := mem_apply; has_change := true }.
Next Obligation. intros m p q E. unfold mem_list. by rewrite E. Qed.

Lemma apply_frame m op k d :
  m !! k = Some d -> touches op k \/ mem_apply m op !! k = Some d.
Proof.
  intros E. destruct op; cbn [mem_apply touches]; try (by right).
  - by apply link_frame.
  - case_match; [|by right]. destruct (link_frame (root_names filename) m k d E); auto.
  - destruct (link_frame (root_names dir ++ [pre +:+ "42"]) m k d E) as [[e He%app_inj_tail]|]; [left; tauto|by right].
  - destruct (move_frame (root_names oldpath) (root_names newpath) m k d E) as [|]; [left|by right].
    unfold parent_of, within. unfold prefix in *. tauto.
  - by apply rmdir_frame.
  - by apply (mkdirs_frame (root_names filename) []).
  - by apply link_frame.
Qed.

(** Every change is framed, comparing names. *)
Lemma mem_framed m op : framed (Info := string * option Z) fst m op.
Proof.
  intros p l Hl. unfold same_listing. simpl in *. unfold mem_list in *.
  destruct (m !! root_names p) as [d|] eqn:E; [|done]. injection Hl as <-.
  destruct (apply_frame m op _ d E) as [|E']; [by left|right]. rewrite E'. eexists. split; [done|].
  unfold compared. rewrite <-!list_fmap_compose. by apply list_fmap_ext.
Qed.

(** ** The theorem at work, and the window it leaves *)

Definition empty_mem : Mem := {[ [] := (∅, 0) ]}.

(** A directory is made and listed, then a file is created in it. *)
Definition orderly : list event :=
  [Change 1 (MkdirAll "a"); Deferred 1; Begin 2 "/a" 5; List 2; CheckGeneration 2; Store 2 6;
   Change 3 (Create "a/f"); Deferred 3; Begin 4 "a" 7; List 4; CheckGeneration 4; Store 4 8].


(** The time of a subdirectory in a listing is not kept current: a file created in
    [a/b] leaves the listing of [a], which shows the time of [b]. *)
Theorem directory_time_is_stale :
  let w := run (start 30 empty_mem)
    [Change 1 (MkdirAll "a/b"); Deferred 1; Begin 2 "a" 5; List 2; CheckGeneration 2; Store 2 6;
     Change 3 (Create "a/b/f"); Deferred 3] in
  pending w = ∅ /\ (ReadDir (cached w) (below_fs w) "a" 7).2 = Some [("b", Some 0)] /\
  ilist (below_fs w) "a" = Some [("b", Some 1)].
Proof. vm_compute. auto. Qed.

(** The check and the store are two steps: a file created between them is missing
    from the listing that is then kept, after its creation has returned. *)
Theorem stale_listing_is_kept :
  let w := run (start 30 empty_mem)
    [Change 1 (MkdirAll "a"); Deferred 1; Begin 2 "a" 5; List 2; CheckGeneration 2;
     Change 3 (Create "a/f"); Deferred 3; Store 2 6] in
  pending w = ∅ /\ ilist (below_fs w) "a" = Some [("f", None)] /\ (ReadDir (cached w) (below_fs w) "a" 7).2 = Some [].
Proof. vm_compute. auto. Qed.

(** A temporary file with no prefix drops the listing of the directory above. *)
Theorem temp_file_drops_parent :
  let w := run (start 30 empty_mem)
    [Change 1 (MkdirAll "a"); Deferred 1; Begin 2 "a" 5; List 2; CheckGeneration 2; Store 2 6;
     Change 3 (TempFile "a" ""); Deferred 3] in
  pending w = ∅ /\ (ReadDir (cached w) (below_fs w) "a" 7).2 = Some [] /\ ilist (below_fs w) "a" = Some [("42", None)].
Proof. vm_compute. auto. Qed.

End NfsCache.
