(* ===== verification/Lockers.v ===== *)
(** * Byte-range locks of both protocols ([internal/smb/locker.go],
      [internal/nfs/locker.go])

    Both servers lock in the gateway's one table, under the key of the file.  An
    SMB name is resolved as an open resolves it, whatever its case: component by
    component, among the names of the directory. *)
From S2P Require Import Prelude GoPath StagingManager Paths LockTable LockSpec Runes WindowsNames FoldNames VfsTypes Vfs VfsMemory SmbBackend NfsCache.
Import Lock LockSpec.

Module Lockers.

(** What the protocol libraries hand over. *)
Record LockOwner := mkLockOwner { o_Client : string; o_ID : string }.
Record LockRange := mkLockRange { r_Start : Z; r_End : Z; r_Exclusive : bool }.
Record LockConflict := mkConflict { c_Range : LockRange; c_Owner : LockOwner }.

(** [lockOwner], [lockRange], [lockMode] and [smbConflict], [nfsConflict], which
    are the same in both files. *)
Definition lockOwner (o : LockOwner) : Owner := mkOwner (o_Client o) (o_ID o).
Definition lockRange (r : LockRange) : Range := mkRange (r_Start r) (r_End r).
Definition lockMode (r : LockRange) : Mode := if r_Exclusive r then Exclusive else Shared.
Definition as_conflict (c : LockInfo) : LockConflict :=
  mkConflict (mkLockRange (Start (LRange c)) (End_ (LRange c)) (LMode c =? Exclusive))
    (mkLockOwner (Client (LOwner c)) (ID (LOwner c))).

(** ** NFS.  A reached cap has an error of its own in the NFS library. *)
Inductive nfs_error := ErrLockLimit | FromTable (e : error).

Definition nfs_Lock (owner : LockOwner) (path : string) (r : LockRange) (m : Manager)
    : Manager * (option LockConflict * option nfs_error) :=
  match Lock m (lockOwner owner) (Key path) (lockRange r) (lockMode r) with
  | (m, (_, Some ErrLimit)) => (m, (None, Some ErrLockLimit))
  | (m, (_, Some e)) => (m, (None, Some (FromTable e)))
  | (m, (c, None)) => (m, (as_conflict <$> c, None))
  end.

Definition nfs_Unlock (owner : LockOwner) (path : string) (r : LockRange) (m : Manager) : Manager * option error :=
  Unlock m (lockOwner owner) (Key path) (lockRange r).

Definition nfs_Test (owner : LockOwner) (path : string) (r : LockRange) (m : Manager) : option LockConflict * option error :=
  match Test m (lockOwner owner) (Key path) (lockRange r) (lockMode r) with
  | (_, Some e) => (None, Some e)
  | (c, None) => (as_conflict <$> c, None)
  end.

Definition nfs_ReleaseOwner (owner : LockOwner) (m : Manager) : Manager := ReleaseOwner m (lockOwner owner).
Definition nfs_ReleaseClient (client : string) (m : Manager) : Manager := ReleaseClient m client.

(** ** SMB *)
Section Smb.
Context `{PathHash} {PO : VfsTypes.PosixOps} {CF : FoldNames.CaseFolding} {V : Vfs.View}.

(** [key]; [NewLocker] gives a locker without a file system, which takes names as
    keys. *)
Definition key (name : string) (now : Time) (fs : option Vfs.Filesystem) : option Vfs.Filesystem * string :=
  let p := SmbBackend.sharePath name in
  match fs with
  | Some fs => let '(fs, p) := Vfs.keyPath p now fs in (Some fs, Key p)
  | None => (None, Key p)
  end.

Definition smb_Lock (owner : LockOwner) (path : string) (r : LockRange) (now : Time) (fs : option Vfs.Filesystem) (m : Manager)
    : option Vfs.Filesystem * Manager * (option LockConflict * option error) :=
  let '(fs, k) := key path now fs in
  match Lock m (lockOwner owner) k (lockRange r) (lockMode r) with
  | (m, (_, Some e)) => (fs, m, (None, Some e))
  | (m, (c, None)) => (fs, m, (as_conflict <$> c, None))
  end.

Definition smb_Unlock (owner : LockOwner) (path : string) (r : LockRange) (now : Time) (fs : option Vfs.Filesystem) (m : Manager)
    : option Vfs.Filesystem * Manager * option error :=
  let '(fs, k) := key path now fs in
  let '(m, err) := Unlock m (lockOwner owner) k (lockRange r) in (fs, m, err).

Definition smb_ReleaseOwner (owner : LockOwner) (m : Manager) : Manager := ReleaseOwner m (lockOwner owner).
Definition smb_ReleaseClient (client : string) (m : Manager) : Manager := ReleaseClient m client.

(** ** The file an SMB name stands for *)

(** The names a component is looked for among; [None]: a file of exactly that
    name was found without listing. *)
Definition looked_among (dir k : string) (now : Time) (fs : Vfs.Filesystem) : option (list string) :=
  let '(o, cached) := VfsTypes.op_CachedChildNames (Vfs.posix fs) dir now in
  let fs := Vfs.set_posix o fs in
  match cached with
  | Some names => Some (names ++ Vfs.stagedChildNames dir fs)
  | None =>
      match Vfs.statPath (Vfs.Join [dir; k]) now fs with
      | (_, inl _) => None
      | (fs, inr _) => Some (Vfs.foldCandidates dir k now fs).2
      end
  end.

(** The directory has the name as it is written, or has not, and [child] is the
    first in byte order of those that differ from it in case only. *)
Definition stands_for (names : list string) (k child : string) : Prop :=
  ("" ∉ names) /\ (child ∈ names) /\
  (child = k \/ (k ∉ names) /\ FoldNames.EqualFold child k /\
    forall n, n ∈ names -> FoldNames.EqualFold n k -> string_ltb n child = false).

(** The components [cs] of an SMB path stand for the names [es] below [dir]. *)
Fixpoint spells (dir : string) (cs es : list string) (now : Time) (fs : Vfs.Filesystem) : Prop :=
  match cs, es with
  | [], [] => True
  | c :: cs, e :: es =>
      let k := WindowsNames.keyName c in
      match looked_among dir k now fs with Some names => stands_for names k e | None => e = k end /\
      spells (Vfs.Join [dir; e]) cs es now (Vfs.matchChild dir k now fs).1
  | _, _ => False
  end.

Definition smb_names (name : string) : list string :=
  filter (fun c => c <> "") (SplitSlash (Clean ("/" +:+ SmbBackend.sharePath name))).

Lemma match_stands_for names k child : stands_for names k child -> FoldNames.match_loop names k "" = child.
Proof.
  intros (Hne & Hin & Hc). pose proof (FoldNames.match_loop_picks names k "" Hne) as Hp. unfold FoldNames.picks in Hp.
  destruct Hc as [->|(Hk & Hf & Hleast)]; [by rewrite decide_True in Hp by done|].
  rewrite decide_False in Hp by done. destruct Hp as [(_ & _ & Hno)|(Hr & [?|[Hri Hrf]] & _ & Hl)]; [by destruct (Hno child)|done|].
  apply string_ltb_total; [by apply Hleast|by apply Hl].
Qed.

Lemma matchChild_spells dir k e now fs :
  match looked_among dir k now fs with Some names => stands_for names k e | None => e = k end ->
  (Vfs.matchChild dir k now fs).2 = e.
Proof.
  unfold looked_among, Vfs.matchChild. destruct (VfsTypes.op_CachedChildNames _ dir now) as [o [names|]]; [by apply match_stands_for|].
  destruct (Vfs.statPath _ now _) as [fs1 [?|?]]; [done|]. destruct (Vfs.foldCandidates dir k now fs1) as [fs2 names].
  by apply match_stands_for.
Qed.

Lemma resolve_spells cs : forall dir es now fs,
  Forall (fun c => c <> "") cs -> spells dir cs es now fs ->
  (Vfs.resolve dir cs now fs).2 = foldl (fun d e => Vfs.Join [d; e]) dir es.
Proof.
  induction cs as [|c cs IH]; intros dir [|e es] now fs Hcs Hs; try done. apply Forall_cons in Hcs as [Hc Hcs].
  destruct Hs as [H1 H2]. cbn [Vfs.resolve]. rewrite bool_decide_false by done. apply matchChild_spells in H1.
  destruct (Vfs.matchChild dir _ now fs) as [fs1 child]. simpl in *. subst child. by apply IH.
Qed.

Lemma resolve_filter cs : forall dir now fs,
  Vfs.resolve dir cs now fs = Vfs.resolve dir (filter (fun c => c <> "") cs) now fs.
Proof.
  induction cs as [|c cs IH]; intros dir now fs; [done|]. cbn [Vfs.resolve]. destruct (decide (c = "")) as [->|Hc].
  - rewrite bool_decide_true, filter_cons_False by tauto. apply IH.
  - rewrite bool_decide_false, filter_cons_True by done. cbn [Vfs.resolve]. rewrite bool_decide_false by done.
    destruct (Vfs.matchChild _ _ _ _). apply IH.
Qed.

Lemma Key_names p : Key p = JoinSlash (NfsCache.root_names p).
Proof.
  unfold Key. rewrite NfsCache.Clean_root. unfold Paths.path_of. apply TrimPrefix_app.
Qed.

Lemma root_names_joins es : forall d, Forall is_name es ->
  NfsCache.root_names (foldl (fun d e => Vfs.Join [d; e]) d es) = NfsCache.root_names d ++ es.
Proof.
  induction es as [|e es IH]; intros d Hes; [by rewrite app_nil_r|]. apply Forall_cons in Hes as [He Hes]. simpl.
  rewrite IH by done. unfold Vfs.Join. rewrite NfsCache.root_names_Join by done. by rewrite <-app_assoc.
Qed.

Lemma root_names_root : NfsCache.root_names (Vfs.Join [Vfs.root]) = NfsCache.root_names Vfs.root.
Proof.
  unfold Vfs.Join, Paths.path_Join. destruct (decide (Vfs.root = "")) as [E|E]; [rewrite E; by vm_compute|].
  rewrite filter_cons_True, filter_nil by done. apply NfsCache.root_names_Clean.
Qed.

(** The key of an SMB name is that of the path of the file it stands for. *)
Lemma key_spells name now fs es path :
  Vfs.windowsNames = true -> spells (Vfs.Join [Vfs.root]) (smb_names name) es now fs -> Forall is_name es ->
  NfsCache.root_names path = NfsCache.root_names Vfs.root ++ es -> (key name now (Some fs)).2 = Key path.
Proof.
  intros Hw Hs Hes Hp. unfold key, Vfs.keyPath. rewrite Hw. cbn [negb]. rewrite resolve_filter. fold (smb_names name).
  apply resolve_spells in Hs; [|apply Forall_forall; by intros c [? _]%list_elem_of_filter].
  destruct (Vfs.resolve _ _ now fs) as [fs1 full]. simpl in *. subst full. rewrite !Key_names. f_equal.
  by rewrite root_names_joins, root_names_root, Hp.
Qed.

(** ** A lock of one protocol holds against the other *)

Definition valid_range (r : LockRange) : Prop := r_Start r < r_End r.

Lemma granted_conflicts (m m1 : Manager) (o1 o2 : Owner) (k : string) (r1 r2 : LockRange) (b : Z) :
  wf m -> Lock m o1 k (lockRange r1) (lockMode r1) = (m1, (None, None)) -> o1 <> o2 -> valid_range r2 ->
  r_Start r1 <= b < r_End r1 -> r_Start r2 <= b < r_End r2 -> r_Exclusive r1 || r_Exclusive r2 = true ->
  exists c, Lock m1 o2 k (lockRange r2) (lockMode r2) = (m1, (Some c, None)).
Proof.
  intros Hwf Hl Hne Hv Hb1 Hb2 Hx.
  assert (Hblocked : blocked m1 o2 k (lockRange r2) (lockMode r2)).
  { exists o1, b, (lockMode r1). split; [done|]. split; [unfold in_range; simpl; apply andb_true_iff; rewrite Z.leb_le, Z.ltb_lt; lia|].
    rewrite (Lock_granted_holds _ _ _ _ _ _ _ _ _ Hwf Hl), decide_True by done.
    assert (in_range (lockRange r1) b = true) as -> by (unfold in_range; simpl; apply andb_true_iff; rewrite Z.leb_le, Z.ltb_lt; lia).
    split; [done|]. unfold lockMode. destruct (r_Exclusive r1), (r_Exclusive r2); by intros [? ?]. }
  unfold Lock. assert (validate (lockRange r2) (lockMode r2) = None) as ->.
  { unfold validate, lockMode. simpl. rewrite (proj2 (Z.leb_gt _ _)) by exact Hv. by destruct (r_Exclusive r2). }
  destruct (conflictLocked m1 o2 k (lockRange r2) (lockMode r2)) as [c|] eqn:Ec; [by exists c|].
  apply conflictLocked_None in Ec; [done|by eapply Lock_granted_wf|done].
Qed.

(** C37. Where the components of an SMB name stand for the names on an NFS path,
    each written as the directory has it or, when the directory has no such name,
    in another case (the first in byte order if several would do), a byte range
    locked on the path over NFS refuses a conflicting lock of another owner on the
    name over SMB, and one locked over SMB refuses a conflicting one over NFS: the
    answer is a conflict, and nothing is recorded. *)
Theorem locks_hold_across_protocols (m : Manager) (fs : Vfs.Filesystem) (now : Time) (o1 o2 : LockOwner) (path name : string)
    (es : list string) (r1 r2 : LockRange) (b : Z) (Hwf : wf m) (Hwin : Vfs.windowsNames = true)
    (Hname : spells (Vfs.Join [Vfs.root]) (smb_names name) es now fs) (Hes : Forall is_name es)
    (Hpath : NfsCache.root_names path = NfsCache.root_names Vfs.root ++ es) (Ho : o1 <> o2)
    (Hv : valid_range r2) (Hb1 : r_Start r1 <= b < r_End r1) (Hb2 : r_Start r2 <= b < r_End r2)
    (Hx : r_Exclusive r1 || r_Exclusive r2 = true) :
  (forall m1, nfs_Lock o1 path r1 m = (m1, (None, None)) ->
     exists fs' c, smb_Lock o2 name r2 now (Some fs) m1 = (fs', m1, (Some c, None))) /\
  (forall m1 fs1, smb_Lock o1 name r1 now (Some fs) m = (fs1, m1, (None, None)) ->
     exists c, nfs_Lock o2 path r2 m1 = (m1, (Some c, None))).
Proof.
  assert (lockOwner o1 <> lockOwner o2) as Ho' by (destruct o1, o2; intros [= -> ->]; done).
  pose proof (key_spells name now fs es path Hwin Hname Hes Hpath) as Hk.
  unfold nfs_Lock, smb_Lock. destruct (key name now (Some fs)) as [fs' k]. cbn [fst snd] in *. subst k. split.
  - intros m1 Hl. destruct (Lock m _ (Key path) _ _) as [m' [c [[]|]]] eqn:E; [done..|]. destruct c; [done|]. simpl in Hl. simplify_eq.
    destruct (granted_conflicts m m1 _ (lockOwner o2) (Key path) r1 r2 b Hwf E Ho' Hv Hb1 Hb2 Hx) as [c ->]. by do 2 eexists.
  - intros m1 fs1 Hl. destruct (Lock m _ (Key path) _ _) as [m' [c [e|]]] eqn:E; [done|]. destruct c; [done|]. simpl in Hl. simplify_eq.
    destruct (granted_conflicts m m1 _ (lockOwner o2) (Key path) r1 r2 b Hwf E Ho' Hv Hb1 Hb2 Hx) as [c ->]. by eexists.
Qed.
End Smb.

(** ** A witness: [/b], locked over NFS, and [B] over SMB *)

Section Witness.
#[local] Instance folding : FoldNames.CaseFolding := FoldNames.ascii_folding.
#[local] Instance view : Vfs.View := Vfs.ForProtocol (Vfs.WithWindowsNames (VfsMemory.nfs_view true)) "smb".

Definition with_b : Vfs.Filesystem := Vfs.NewFilesystem (VfsMemory.mkBucket {["/b" := []]} false false) VfsMemory.empty_area.
Definition no_locks : Manager := NewManager (mkOptions 0 0).
Definition alice : LockOwner := mkLockOwner "10.0.0.1" "1".
Definition bob : LockOwner := mkLockOwner "10.0.0.2" "7".
Definition range : LockRange := mkLockRange 0 10 true.

Lemma locks_hold_across_protocols_witness :
  exists m1 c, nfs_Lock alice "b" range no_locks = (m1, (None, None)) /\
    (smb_Lock bob "B" (mkLockRange 5 6 false) 1 (Some with_b) m1).2 = (Some c, None).
Proof.
  destruct (nfs_Lock alice "b" range no_locks) as [m1 [c1 e1]] eqn:E.
  assert (c1 = None /\ e1 = None) as [-> ->].
  { assert ((nfs_Lock alice "b" range no_locks).2 = (None, None)) as Hr by (vm_compute; reflexivity).
    rewrite E in Hr. injection Hr as -> ->. split; reflexivity. }
  destruct (locks_hold_across_protocols no_locks with_b 1 alice bob "b" "B" ["b"] range (mkLockRange 5 6 false) 5) as [Hn _].
  - apply reachable_wf with (mkOptions 0 0). apply rtc_refl.
  - reflexivity.
  - assert (smb_names "B" = ["B"]) as -> by (vm_compute; reflexivity). split; [|exact I].
    assert (WindowsNames.keyName "B" = "B") as -> by (vm_compute; reflexivity).
    assert (looked_among (Vfs.Join [Vfs.root]) "B" 1 with_b = Some ["b"]) as -> by (vm_compute; reflexivity).
    split; [by intros [?|?%elem_of_nil]%elem_of_cons|]. split; [by left|]. right. split; [by intros [?|?%elem_of_nil]%elem_of_cons|].
    split; [apply (bool_decide_eq_true_1 (FoldNames.EqualFold "b" "B")); vm_compute; reflexivity|].
    intros n [->|?%elem_of_nil]%elem_of_cons; [|done]. reflexivity.
  - repeat constructor; vm_compute; intros; set_solver.
  - vm_compute. reflexivity.
  - discriminate.
  - reflexivity.
  - cbn. lia.
  - cbn. lia.
  - reflexivity.
  - destruct (Hn m1 E) as (fs' & c & Hc). exists m1, c. split; [reflexivity|]. rewrite Hc. reflexivity.
Defined.
End Witness.

End Lockers.
