(* ===== verification/SmbServer.v ===== *)
(** * The SMB server around the shares ([internal/smb/server.go], [notify.go])

    Which connections are let in and how they are counted, the accounts NTLM looks
    up, how a server is put together, its life, and what of a change of the file system
    its clients are told.  The SMB library and the listener's socket are
    outside: a connection is known by its number and the address it came from. *)
From Stdlib Require Import Ascii.
From S2P Require Import Prelude GoPath Paths Runes WindowsNames GoText ClientRules Changes.
Import GoText.

Module SmbServer.

(** ** Connections *)

Record trackedConn := mkConn { client : string; gone : bool }.

(** [connListener]; [conns] are the connections accepted and not closed, and
    [made] is every [*trackedConn] there is. *)
Record connListener := mkListener {
  allowed : list ClientRules.IPNet;
  maxConns : Z;
  maxConnsPerClient : Z;
  closed : bool;
  conns : gset Z;
  perClient : gmap string Z;
  made : gmap Z trackedConn
}.

Definition newConnListener (allowed : list ClientRules.IPNet) (maxConns maxConnsPerClient : Z) : connListener :=
  mkListener allowed maxConns maxConnsPerClient false ∅ ∅ ∅.

Definition set_state (c : bool) (s : gset Z) (p : gmap string Z) (m : gmap Z trackedConn) (l : connListener) : connListener :=
  mkListener (allowed l) (maxConns l) (maxConnsPerClient l) c s p m.

(** [allowedAddr]: [None] is an address that is not TCP's, or has no IP. *)
Definition allowedAddr (l : connListener) (addr : option ClientRules.IP) : bool :=
  match allowed l with
  | [] => true
  | nets => match addr with None => false | Some ip => existsb (fun n => ClientRules.Contains n ip) nets end
  end.

Definition count (l : connListener) (c : string) : Z := default 0 (perClient l !! c).

(** [overLimitLocked]: the limit a new connection would pass, or none. *)
Definition overLimitLocked (l : connListener) (c : string) : option string :=
  if (0 <? maxConns l) && (maxConns l <=? Z.of_nat (size (conns l))) then Some "max_connections"
  else if (0 <? maxConnsPerClient l) && (maxConnsPerClient l <=? count l c) then Some "max_connections_per_client"
  else None.

(** A turn of the loop of [Accept] on a connection [id] of the client [c] (its
    [clientKey]): it is served, dropped, or ends the loop because the listener was
    closed. *)
Inductive turn := Served | Dropped | ErrClosed.

Definition accept (l : connListener) (id : Z) (c : string) (addr : option ClientRules.IP) : connListener * turn :=
  if negb (allowedAddr l addr) then (l, Dropped)
  else if closed l then (l, ErrClosed)
  else
    match overLimitLocked l c with
    | Some _ => (l, Dropped)
    | None =>
        (set_state false ({[id]} ∪ conns l) (<[c := count l c + 1]> (perClient l)) (<[id := mkConn c false]> (made l)) l, Served)
    end.

(** [Close] of a tracked connection, which counts once. *)
Definition close_conn (l : connListener) (id : Z) : connListener :=
  match made l !! id with
  | None => l
  | Some t =>
      if gone t then l
      else
        let n := count l (client t) - 1 in
        set_state (closed l) (conns l ∖ {[id]})
          (if 0 <? n then <[client t := n]> (perClient l) else delete (client t) (perClient l))
          (<[id := mkConn (client t) true]> (made l)) l
  end.

(** [closeConns]: no more are accepted, and each open one is closed in turn. *)
Definition shut (l : connListener) : connListener := set_state true (conns l) (perClient l) (made l) l.
Definition closeConns (l : connListener) : connListener := foldl close_conn (shut l) (elements (conns l)).

(** ** Limits hold *)

(** The tables say the same: a connection is listed until it is closed, and a
    client's count is the number of its listed connections. *)
Definition of_client (l : connListener) (c : string) : gset Z :=
  filter (fun id => client <$> made l !! id = Some c) (conns l).

Record wf (l : connListener) : Prop := mkWf {
  wf_listed id : id ∈ conns l <-> exists t, made l !! id = Some t /\ gone t = false;
  wf_count c : count l c = Z.of_nat (size (of_client l c));
  wf_positive c n : perClient l !! c = Some n -> 0 < n
}.

Inductive step (l : connListener) : connListener -> Prop :=
  | step_accept id c addr : made l !! id = None -> step l (accept l id c addr).1
  | step_close id : step l (close_conn l id)
  | step_shut : step l (shut l).

Lemma count_set l s p m c b : count (set_state b s p m l) c = default 0 (p !! c).
Proof. done. Qed.

Lemma accept_wf l id c addr : made l !! id = None -> wf l -> wf (accept l id c addr).1.
Proof.
  intros Hid [Hl Hc Hp]. unfold accept. destruct (negb _); [done|]. destruct (closed l); [done|].
  destruct (overLimitLocked l c); [done|]. cbn [fst]. assert (id ∉ conns l) as Hn by (rewrite Hl; naive_solver).
  split; cbn [conns made perClient set_state].
  - intros i. rewrite elem_of_union, elem_of_singleton, Hl, lookup_insert. case_decide; naive_solver.
  - intros d. rewrite count_set.
    match goal with |- _ = Z.of_nat (size ?X) => assert (X = if decide (c = d) then {[id]} ∪ of_client l d else of_client l d) as -> end.
    { apply set_eq. intros i. unfold of_client at 1. cbn [conns made set_state].
      rewrite elem_of_filter, elem_of_union, elem_of_singleton, lookup_insert. unfold of_client.
      destruct (decide (c = d)), (decide (id = i)); rewrite ?elem_of_union, ?elem_of_singleton, ?elem_of_filter; naive_solver. }
    case_decide as Hcd.
    + subst d. rewrite lookup_insert_eq. cbn. rewrite size_union, size_singleton by (unfold of_client; set_solver).
      rewrite Hc. lia.
    + rewrite lookup_insert_ne by done. apply Hc.
  - intros d n. rewrite lookup_insert. case_decide; [|apply Hp]. intros [= <-]. rewrite Hc. lia.
Qed.

Lemma close_wf l id : wf l -> wf (close_conn l id).
Proof.
  intros [Hl Hc Hp]. unfold close_conn. destruct (made l !! id) as [t|] eqn:Ht; [|done]. destruct (gone t) eqn:Hg; [done|].
  assert (id ∈ conns l) as Hin by (apply Hl; by exists t).
  assert (Hof : forall d, of_client (set_state (closed l) (conns l ∖ {[id]})
     (if 0 <? count l (client t) - 1 then <[client t := count l (client t) - 1]> (perClient l) else delete (client t) (perClient l))
     (<[id := mkConn (client t) true]> (made l)) l) d = of_client l d ∖ {[id]}).
  { intros d. apply set_eq. intros i. unfold of_client. cbn [conns made set_state].
    rewrite elem_of_difference, !elem_of_filter, elem_of_difference, elem_of_singleton, lookup_insert. case_decide; naive_solver. }
  split; cbn [conns made perClient set_state].
  - intros i. rewrite elem_of_difference, elem_of_singleton, Hl, lookup_insert. case_decide; naive_solver.
  - intros d. rewrite Hof, count_set. destruct (decide (d = client t)) as [->|Hd].
    + assert (id ∈ of_client l (client t)) as Hid by (unfold of_client; rewrite elem_of_filter, Ht; done).
      rewrite size_difference by set_solver. rewrite size_singleton. pose proof (Hc (client t)) as Hct.
      assert (size (of_client l (client t)) <> 0%nat) by (intros E; apply size_empty_inv in E; set_solver).
      destruct (Z.ltb_spec 0 (count l (client t) - 1)); [rewrite lookup_insert_eq|rewrite lookup_delete_eq]; cbn; lia.
    + assert (of_client l d ∖ {[id]} = of_client l d) as ->.
      { apply set_eq. intros i. unfold of_client. rewrite elem_of_difference, elem_of_filter, elem_of_singleton.
        split; [naive_solver|]. intros [Hi ?]. split; [done|]. intros ->. rewrite Ht in Hi. naive_solver. }
      rewrite <-Hc. unfold count. destruct (0 <? _); [by rewrite lookup_insert_ne|by rewrite lookup_delete_ne].
  - intros d n. destruct (Z.ltb_spec 0 (count l (client t) - 1)).
    + rewrite lookup_insert. case_decide; [intros [= <-]; lia|apply Hp].
    + intros [_ Hd]%lookup_delete_Some. by eapply Hp.
Qed.

Definition within (l : connListener) : Prop :=
  (0 < maxConns l -> Z.of_nat (size (conns l)) <= maxConns l) /\
  (0 < maxConnsPerClient l -> forall c, Z.of_nat (size (of_client l c)) <= maxConnsPerClient l).

Lemma overLimit_None l c : overLimitLocked l c = None <->
  (0 < maxConns l -> Z.of_nat (size (conns l)) < maxConns l) /\ (0 < maxConnsPerClient l -> count l c < maxConnsPerClient l).
Proof.
  unfold overLimitLocked.
  destruct (Z.ltb_spec 0 (maxConns l)), (Z.leb_spec (maxConns l) (Z.of_nat (size (conns l)))),
    (Z.ltb_spec 0 (maxConnsPerClient l)), (Z.leb_spec (maxConnsPerClient l) (count l c)); cbn; split; intros Hx; try done; lia || (split; intros; lia).
Qed.

Lemma accept_within l id c addr : made l !! id = None -> wf l -> within l -> within (accept l id c addr).1.
Proof.
  intros Hid Hwf [H1 H2]. pose proof (accept_wf l id c addr Hid Hwf) as Hwf'. unfold accept in *.
  destruct (negb _); [done|]. destruct (closed l); [done|]. destruct (overLimitLocked l c) eqn:Eo; [done|].
  apply overLimit_None in Eo as [E1 E2]. cbn [fst] in *. split; cbn [maxConns maxConnsPerClient conns set_state].
  - intros Hm. specialize (E1 Hm). assert (id ∉ conns l) by (rewrite (wf_listed _ Hwf); naive_solver).
    rewrite size_union, size_singleton by set_solver. lia.
  - intros Hm d. specialize (E2 Hm). rewrite <-(wf_count _ Hwf'), count_set, lookup_insert. case_decide as Hd; [cbn; lia|].
    specialize (H2 Hm d). rewrite <-(wf_count _ Hwf) in H2. exact H2.
Qed.

Lemma close_within l id : wf l -> within l -> within (close_conn l id).
Proof.
  intros Hwf [H1 H2]. unfold close_conn. destruct (made l !! id) as [t|]; [|done]. destruct (gone t); [done|].
  split; cbn [maxConns maxConnsPerClient conns set_state].
  - intros Hm. specialize (H1 Hm). assert (size (conns l ∖ {[id]}) <= size (conns l))%nat by (apply subseteq_size; set_solver). lia.
  - intros Hm d. specialize (H2 Hm d).
    match goal with |- Z.of_nat (size ?X) <= _ => assert (size X <= size (of_client l d))%nat; [|lia] end.
    apply subseteq_size. unfold of_client. cbn [conns made set_state]. intros i. rewrite !elem_of_filter, lookup_insert, elem_of_difference.
    case_decide; set_solver.
Qed.

Lemma step_keeps l l' : wf l /\ within l -> step l l' -> wf l' /\ within l' /\ maxConns l' = maxConns l /\
  maxConnsPerClient l' = maxConnsPerClient l /\ allowed l' = allowed l.
Proof.
  intros [Hwf Hw] [id c addr Hid|id|]; (split; [|split]).
  - by apply accept_wf.
  - by apply accept_within.
  - unfold accept. by repeat case_match.
  - by apply close_wf.
  - by apply close_within.
  - unfold close_conn. by repeat case_match.
  - by destruct Hwf.
  - done.
  - done.
Qed.

(** Closing them all leaves none. *)
Lemma close_conns l id : wf l -> conns (close_conn l id) = conns l ∖ {[id]}.
Proof.
  intros Hwf. unfold close_conn. destruct (made l !! id) as [t|] eqn:E; [destruct (gone t) eqn:G|]; [..|].
  - assert (id ∉ conns l) by (rewrite (wf_listed _ Hwf); intros (t' & ? & ?); congruence). set_solver.
  - done.
  - assert (id ∉ conns l) by (rewrite (wf_listed _ Hwf); intros (t' & ? & ?); congruence). set_solver.
Qed.

Lemma closeConns_empty l : wf l -> conns (closeConns l) = ∅ /\ closed (closeConns l) = true.
Proof.
  intros Hwf. unfold closeConns.
  assert (Hg : forall ids l, wf l -> closed l = true ->
    conns (foldl close_conn l ids) = conns l ∖ list_to_set ids /\ closed (foldl close_conn l ids) = true).
  { induction ids as [|i ids IH]; intros k Hk Hc; cbn [foldl]; [split; [set_solver|done]|].
    destruct (IH (close_conn k i)) as [E1 E2]; [by apply close_wf| |].
    - unfold close_conn. by repeat case_match.
    - split; [|done]. rewrite E1, close_conns by done. set_solver. }
  destruct (Hg (elements (conns l)) (shut l)) as [E1 E2]; [by destruct Hwf|done|]. split; [|done].
  rewrite E1. cbn [conns shut set_state]. rewrite list_to_set_elements_L. set_solver.
Qed.

Lemma of_client_new nets n k c : of_client (newConnListener nets n k) c = ∅.
Proof. apply set_eq. intros i. unfold of_client. rewrite elem_of_filter. set_solver. Qed.

(** C38. The limits on connections hold and cost nothing else.  However clients
    connect and connections close, once or twice, no more than the configured
    number is open at a time, over all and for each client; a connection is served
    exactly when its address is allowed, the server is not stopping and both limits
    leave room, counting the connections that are open; and a stop closes them all. *)
Theorem connection_limits_hold (nets : list ClientRules.IPNet) (n k : Z) (l : connListener)
    (Hr : rtc step (newConnListener nets n k) l) :
  (0 < n -> Z.of_nat (size (conns l)) <= n) /\
  (0 < k -> forall c, Z.of_nat (size (of_client l c)) <= k) /\
  (forall id c addr, (accept l id c addr).2 = Served <->
     allowedAddr l addr = true /\ closed l = false /\
     (0 < n -> Z.of_nat (size (conns l)) < n) /\ (0 < k -> Z.of_nat (size (of_client l c)) < k)) /\
  conns (closeConns l) = ∅ /\ closed (closeConns l) = true.
Proof.
  assert (Hi : wf l /\ within l /\ maxConns l = n /\ maxConnsPerClient l = k).
  { assert (H0 : wf (newConnListener nets n k) /\ within (newConnListener nets n k)).
    { split; [split|split]; cbn.
      - intros id. rewrite lookup_empty. set_solver.
      - intros c. rewrite of_client_new, size_empty. unfold count. cbn. by rewrite lookup_empty.
      - intros c m. by rewrite lookup_empty.
      - intros. rewrite size_empty. lia.
      - intros ? c. rewrite of_client_new, size_empty. lia. }
    remember (newConnListener nets n k) as l0 eqn:E0. assert (maxConns l0 = n /\ maxConnsPerClient l0 = k) as Hm by by subst l0.
    clear E0. induction Hr as [l|l l1 l2 Hst _ IH]; [naive_solver|].
    destruct (step_keeps l l1 H0 Hst) as (? & ? & E1 & E2 & _). apply IH; [done|]. by rewrite E1, E2. }
  destruct Hi as (Hwf & [H1 H2] & <- & <-). split; [done|]. split; [done|]. split; [|by apply closeConns_empty].
  intros id c addr. rewrite <-(wf_count _ Hwf). unfold accept.
  destruct (allowedAddr l addr); [|cbn; split; [done|by intros (? & _)]]. cbn [negb].
  destruct (closed l); [cbn; split; [done|by intros (_ & ? & _)]|].
  pose proof (overLimit_None l c) as Ho. destruct (overLimitLocked l c); cbn [snd].
  - split; [done|]. intros (_ & _ & Hx). by apply Ho in Hx.
  - split; [|done]. intros _. split; [done|]. split; [done|]. by apply Ho.
Qed.

Definition two_clients : connListener :=
  (accept (accept (accept (newConnListener [] 3 1) 1 "10.0.0.1" None).1 2 "10.0.0.2" None).1 3 "10.0.0.1" None).1.

Lemma connection_limits_hold_witness :
  size (conns two_clients) = 2%nat /\ (accept two_clients 4 "10.0.0.2" None).2 <> Served /\
  (accept (close_conn two_clients 2) 4 "10.0.0.2" None).2 = Served.
Proof.
  assert (Hr : rtc step (newConnListener [] 3 1) two_clients).
  { eapply rtc_l; [apply (step_accept _ 1 "10.0.0.1" None); reflexivity|].
    eapply rtc_l; [apply (step_accept _ 2 "10.0.0.2" None); reflexivity|].
    apply rtc_once. apply (step_accept _ 3 "10.0.0.1" None). reflexivity. }
  destruct (connection_limits_hold [] 3 1 two_clients Hr) as (_ & _ & Ha & _).
  destruct (connection_limits_hold [] 3 1 (close_conn two_clients 2) (rtc_r _ _ _ Hr (step_close _ 2))) as (_ & _ & Hb & _).
  split; [vm_compute; reflexivity|]. split.
  - intros Hs. apply Ha in Hs. destruct Hs as (_ & _ & _ & Hk). specialize (Hk ltac:(lia)). vm_compute in Hk. discriminate Hk.
  - apply Hb. split; [reflexivity|]. split; [reflexivity|]. split; intros _; vm_compute; reflexivity.
Defined.

(** ** Accounts *)

Record User := mkUser { u_Name : string; u_Password : string; NTLMHash : list Z; u_UID : Z; u_GID : Z; u_Groups : list string }.

Section Accounts.
(** [ntlmssp.NTHash] and [ntlmssp.NTOWFv2FromHash] of the SMB library. *)
Context `{CaseMapping} (NTHash : string -> list Z) (NTOWFv2FromHash : list Z -> string -> string -> list Z).

Definition user_hash (u : User) : list Z := match NTLMHash u with [] => NTHash (u_Password u) | h => h end.

Definition newCredentials (users : list User) : gmap string (list Z) :=
  foldl (fun m u => <[strings_ToLower (u_Name u) := user_hash u]> m) ∅ users.

(** [LookupNTOWFv2]; [None] is [ErrUnknownUser]. *)
Definition LookupNTOWFv2 (c : gmap string (list Z)) (domain user : string) : option (list Z) :=
  (fun hash => NTOWFv2FromHash hash user domain) <$> c !! strings_ToLower user.

Lemma credentials_loop (m : gmap string (list Z)) users key : foldl (fun m u => <[strings_ToLower (u_Name u) := user_hash u]> m) m users !! key =
  match last (filter (fun u => strings_ToLower (u_Name u) = key) users) with Some u => Some (user_hash u) | None => m !! key end.
Proof.
  revert m. induction users as [|u users IH] using rev_ind; intros m; [done|].
  rewrite foldl_app. cbn [foldl]. rewrite lookup_insert, filter_app, filter_cons, filter_nil. case_decide as Hk.
  - by rewrite last_snoc.
  - rewrite app_nil_r. apply IH.
Qed.

(** Only a configured account, in whatever case its name is sent, has a key, and it
    is derived from that account's hash; the last of two accounts of one name wins. *)
Lemma credentials_configured users domain user key : LookupNTOWFv2 (newCredentials users) domain user = Some key ->
  exists u, u ∈ users /\ strings_ToLower (u_Name u) = strings_ToLower user /\ key = NTOWFv2FromHash (user_hash u) user domain.
Proof.
  unfold LookupNTOWFv2, newCredentials. rewrite credentials_loop, lookup_empty.
  destruct (last _) as [u|] eqn:E; [|done]. intros [= <-]. apply last_Some_elem_of, list_elem_of_filter in E as [? ?]. by exists u.
Qed.
End Accounts.

(** ** What a server is made of *)

(** [Limits] and the options of [ServerOptions] that decide what is served; the
    tables it shares with the other protocols are modelled with the shares. *)
Record Limits := mkLimits {
  Connections : Z; ConnectionsPerClient : Z; SessionsPerConnection : Z; TreesPerSession : Z; OpensPerSession : Z
}.

Record ShareOptions := mkShare { sh_Name : string; sh_Path : string }.

Record ServerOptions := mkServerOptions {
  o_ShareName : string;
  o_Shares : list ShareOptions;
  o_KerberosKeytab : string;
  o_KerberosMaxClockSkew : Duration;
  o_Users : list User;
  o_AllowedClients : list string;
  o_EncryptionRequired : bool;
  o_ConcurrentRequests : Z;
  o_Limits : Limits;
  o_DrainTimeout : Duration;
  o_Leases : bool;
  o_DurableHandles : bool;
  o_MaxDialect : string
}.

(** How clients sign in: NTLM alone, or a negotiation among the mechanisms offered. *)
Inductive mechanism := OIDMSKRB5 | OIDKRB5 | OIDNTLM.
Inductive auth_options := WithNTLM | Negotiated (skew : Duration) (ntlm : bool) (mechs : list mechanism).

Record server_setup := mkSetup {
  b_auth : auth_options;
  b_shares : list ShareOptions;
  b_limits : Limits;
  b_encryption : bool;
  b_dialect302 : bool;
  b_leases : bool;
  b_durable : bool;
  b_concurrent : option Z;
  b_drain : Duration;
  b_listener : connListener
}.

Definition DefaultDrainTimeout : Duration := 30 * Second.

Section Setup.
(** [kerberos.LoadKeytab], whether the library takes the options, and whether the
    address can be bound: the error each gives, if any. *)
Context (LoadKeytab : string -> option string) (server_New : option string) (listen : option string).

Definition authOptions (opts : ServerOptions) : auth_options + string :=
  let ntlm := bool_decide (o_Users opts <> []) in
  if decide (o_KerberosKeytab opts = "") then inl WithNTLM
  else
    match LoadKeytab (o_KerberosKeytab opts) with
    | Some err => inr ("smb: " +:+ err)
    | None =>
        let skew := if o_KerberosMaxClockSkew opts <=? 0 then 5 * (60 * Second) else o_KerberosMaxClockSkew opts in
        inl (Negotiated skew ntlm ([OIDMSKRB5; OIDKRB5] ++ if ntlm then [OIDNTLM] else []))
    end.

Definition NewServer (opts : ServerOptions) : server_setup + string :=
  if bool_decide (o_Users opts = []) && bool_decide (o_KerberosKeytab opts = "") then
    inr "smb: at least one user, or a Kerberos keytab, is required"
  else
    match (match o_AllowedClients opts with [] => Some [] | rules => ClientRules.ParseClientRules rules end) with
    | None => inr "invalid allowed_clients"
    | Some allowed =>
        match authOptions opts with
        | inr err => inr err
        | inl auth =>
            match server_New with
            | Some err => inr ("smb: " +:+ err)
            | None =>
                match listen with
                | Some err => inr ("failed to create listener: " +:+ err)
                | None =>
                    let limits := o_Limits opts in
                    inl (mkSetup auth
                      (match o_Shares opts with [] => [mkShare (o_ShareName opts) ""] | shares => shares end)
                      limits (o_EncryptionRequired opts) (bool_decide (o_MaxDialect opts = "3.0.2")) (o_Leases opts)
                      (o_Leases opts && o_DurableHandles opts)
                      (if 0 <? o_ConcurrentRequests opts then Some (o_ConcurrentRequests opts) else None)
                      (if o_DrainTimeout opts <=? 0 then DefaultDrainTimeout else o_DrainTimeout opts)
                      (newConnListener allowed (Connections limits) (ConnectionsPerClient limits)))
                end
            end
        end
    end.

(** Whether clients may sign in with NTLM, that is, with a configured account. *)
Definition offers_ntlm (auth : auth_options) : bool := match auth with WithNTLM => true | Negotiated _ ntlm _ => ntlm end.

Lemma authOptions_offers opts auth :
  authOptions opts = inl auth -> o_Users opts <> [] \/ o_KerberosKeytab opts <> "" ->
  offers_ntlm auth = bool_decide (o_Users opts <> []) /\
  (o_KerberosKeytab opts <> "" -> exists skew ntlm mechs, auth = Negotiated skew ntlm mechs /\ OIDKRB5 ∈ mechs /\ 0 < skew).
Proof.
  unfold authOptions. intros Ha Hsome. destruct (decide (o_KerberosKeytab opts = "")) as [Hk|Hk].
  - injection Ha as <-. split; [|done]. symmetry. apply bool_decide_true. tauto.
  - destruct (LoadKeytab _); [done|]. injection Ha as <-. split; [done|]. intros _. do 3 eexists. split; [done|].
    split; [set_solver|]. destruct (Z.leb_spec (o_KerberosMaxClockSkew opts) 0); [reflexivity|lia].
Qed.

(** A server that is made can be signed in to: NTLM is offered exactly when there
    are accounts, and Kerberos when there is a keytab, one of which there is; it has
    a share, a time to drain, and keeps handles through a dropped connection only
    with leases. *)
Lemma new_server_setup opts b : NewServer opts = inl b ->
  (o_Users opts <> [] \/ o_KerberosKeytab opts <> "") /\
  offers_ntlm (b_auth b) = bool_decide (o_Users opts <> []) /\
  (o_KerberosKeytab opts <> "" -> exists skew ntlm mechs, b_auth b = Negotiated skew ntlm mechs /\ OIDKRB5 ∈ mechs /\ 0 < skew) /\
  b_shares b <> [] /\ 0 < b_drain b /\ (b_durable b = true -> b_leases b = true).
Proof.
  unfold NewServer. destruct (_ && _) eqn:E; [done|].
  assert (o_Users opts <> [] \/ o_KerberosKeytab opts <> "") as Hsome.
  { apply andb_false_iff in E as [E|E]; apply bool_decide_eq_false in E; tauto. }
  destruct (match o_AllowedClients opts with [] => _ | _ => _ end); [|done].
  destruct (authOptions opts) as [auth|] eqn:Ea; [|done]. destruct server_New, listen; try done. intros [= <-].
  destruct (authOptions_offers opts auth Ea Hsome) as [H1 H2]. cbn [b_auth b_shares b_drain b_durable b_leases].
  split_and!; [done..|by destruct (o_Shares opts)| |by intros [? _]%andb_prop].
  destruct (Z.leb_spec (o_DrainTimeout opts) 0); [reflexivity|lia].
Qed.
End Setup.

(** ** The server's life *)

Record Server := mkServer { started : bool; done : bool; stopped : bool }.

Definition new_server : Server := mkServer false false false.

(** [Start]: [None] is an error, a server starts once. *)
Definition Start (s : Server) : option Server := if started s then None else Some (mkServer true (done s) (stopped s)).
(** The accept loop returns. *)
Definition serve_ends (s : Server) : Server := mkServer (started s) (started s || done s) (stopped s).
(** [stop], whatever the drain: once, and a server that was started is waited for. *)
Definition stop (s : Server) : Server := if stopped s then s else mkServer (started s) (started s || done s) true.
Definition Running (s : Server) : bool := started s && negb (done s).

Lemma stopped_not_running s : stopped s = false -> Running (stop s) = false.
Proof. unfold stop, Running. intros ->. cbn. by destruct (started s). Qed.

End SmbServer.

(** ** Change notifications *)

Module SmbNotify.
Import Changes.

Definition notifyAttributes : Z := 0x4.
Definition notifySize : Z := 0x8.
Definition notifyLastWrite : Z := 0x10.
Definition notifyLastAccess : Z := 0x20.
Definition notifyCreation : Z := 0x40.
Definition notifyStreamName : Z := 0x200.
Definition notifyStreamSize : Z := 0x400.
Definition notifyStreamWrite : Z := 0x800.

(** What a watching client is told ([smbvfs.Change]). *)
Inductive action := Added | Removed | Renamed (old : string) | Modified (filter : Z).
Record notification := mkNotification { n_Path : string; n_IsDir : bool; n_External : bool; n_Action : action }.

Definition notifyFilter (kind : Z) : Z :=
  let when bit mask filter := if Z.land kind bit =? 0 then filter else Z.lor filter mask in
  when ChangeStreams (Z.lor notifyStreamName (Z.lor notifyStreamSize notifyStreamWrite))
    (when ChangeTimes (Z.lor notifyLastWrite (Z.lor notifyLastAccess notifyCreation))
       (when ChangeAttributes notifyAttributes
          (when ChangeData (Z.lor notifySize notifyLastWrite) 0))).

Definition toSMBPath (p : string) : string := ReplaceAll p "/"%char "\"%char.

Definition ProtocolSMB : string := "smb".

Section Notify.
(** The view of the share. *)
Context (root : string) (windowsNames : bool).

(** [NotifyChanges]: what its subscription tells the server of a change. *)
Definition notify (c : Change) : option notification :=
  match ClientPath root windowsNames (Path c) with
  | None => None
  | Some path =>
      if bool_decide (path = "") then None
      else
        let told a := Some (mkNotification (toSMBPath path) (IsDir c) (negb (bool_decide (Protocol c = ProtocolSMB))) a) in
        match Action c with
        | ChangeAdded => told Added
        | ChangeRemoved => told Removed
        | ChangeRenamed =>
            match ClientPath root windowsNames (OldPath c) with
            | Some old => told (Renamed (toSMBPath old))
            | None => told Added
            end
        | ChangeModified => told (Modified (notifyFilter (Kind c)))
        end
  end.

(** Nothing is said of what is outside the share or reserved, and the share's own
    directory has no name to be told by. *)
Lemma notify_inside c n : notify c = Some n ->
  isReservedPath (Path c) = false /\ exists p, ClientPath root windowsNames (Path c) = Some p /\ p <> "" /\ n_Path n = toSMBPath p.
Proof.
  unfold notify. destruct (ClientPath root windowsNames (Path c)) as [p|] eqn:E; [|done]. case_bool_decide; [done|].
  intros Hn. split.
  - unfold ClientPath in E. by destruct (isReservedPath (Path c)).
  - exists p. split_and!; [done|done|]. destruct (Action c), (ClientPath root windowsNames (OldPath c)); by simplify_eq.
Qed.
End Notify.

(** A file moved out of the share is gone from it, and clients that watch its
    directory are not told: the change is filed under the name it has now, which is
    outside. *)
Example move_out_not_notified :
  notify "/share" true (mkChange ChangeRenamed "/other/f" "/share/d/f" false 0 "nfs") = None /\
  notify "/share" true (mkChange ChangeRemoved "/share/d/f" "" false 0 "nfs") = Some (mkNotification "d\f" false true Removed).
Proof. vm_compute. auto. Qed.

End SmbNotify.
