(* ===== verification/NfsServer.v ===== *)
(** * The NFS server's start and stop, its portmapper calls and the health checks
      ([internal/nfs/server.go], [portmap.go], [fsstat.go], [stable_verifier_handler.go],
      [internal/health/checker.go])

    The portmapper is another program, reached by messages: [Portmapper] has what a
    message makes of it and the behaviour RFC 1833 gives [SET] and [UNSET].  The NFS
    library and the sockets are outside. *)
From S2P Require Import Prelude GoText ClientRules VfsTypes Vfs VfsOps.

Module Portmap.

Definition rpcProgPortmap : Z := 100000.
Definition rpcProgNFS : Z := 100003.
Definition rpcProgMount : Z := 100005.
Definition pmapProcSet : Z := 1.
Definition pmapProcUnset : Z := 2.
Definition ipProtoTCP : Z := 6.

Definition portmapPrograms : list (Z * Z) := [(rpcProgNFS, 3); (rpcProgMount, 3); (rpcProgMount, 1)].

(** [binary.BigEndian.PutUint32] and [Uint32], on bytes as numbers. *)
Definition PutUint32 (v : Z) : list Z := [v / 2 ^ 24 mod 256; v / 2 ^ 16 mod 256; v / 2 ^ 8 mod 256; v mod 256].
Definition Uint32 (b : list Z) : Z :=
  match b with b0 :: b1 :: b2 :: b3 :: _ => b0 * 2 ^ 24 + b1 * 2 ^ 16 + b2 * 2 ^ 8 + b3 | _ => 0 end.

(** The words of a call and its bytes. *)
Definition call_words (xid proc prog vers port : Z) : list Z :=
  [xid; 0; 2; rpcProgPortmap; 2; proc; 0; 0; 0; 0; prog; vers; ipProtoTCP; port].
Definition call_message (xid proc prog vers port : Z) : list Z := call_words xid proc prog vers port ≫= PutUint32.

Inductive call_error := NoAnswer | Rejected.

(** What [portmapCall] makes of a reply; the buffer is 64 bytes, zero after the
    [n] bytes read. *)
Definition read_reply (xid : Z) (reply : list Z) : bool + call_error :=
  let reply := take 64 reply in
  let n := Z.of_nat (length reply) in
  let buf := reply ++ replicate (64 - length reply) 0 in
  if (n <? 28) || negb (Uint32 buf =? xid) || negb (Uint32 (drop 8 buf) =? 0) || negb (Uint32 (drop 20 buf) =? 0)
  then inr Rejected
  else inl (Uint32 (drop 24 buf) =? 1).

Definition is_word (v : Z) : Prop := 0 <= v < 2 ^ 32.

(** An accepted reply as RFC 1831 lays it out. *)
Definition accepted (xid answer : Z) : list Z := [xid; 1; 0; 0; 0; 0; answer] ≫= PutUint32.

Class Portmapper := {
  pm : Type;
  mapped : pm -> Z * Z -> option Z;
  exchange : pm -> list Z -> pm * option (list Z)
}.

Section Calls.
Context `{Portmapper}.

(** The clock's low bits when a call is made; each call takes the next. *)
Context (xid_of : nat -> Z).

(** [portmapCall]. *)
Definition portmapCall (s : pm) (xid proc prog vers port : Z) : pm * (bool + call_error) :=
  match exchange s (call_message xid proc prog vers port) with
  | (s, None) => (s, inr NoAnswer)
  | (s, Some reply) => (s, read_reply xid reply)
  end.

(** [registerPortmap]: the calls made so far number the next one. *)
Fixpoint register_loop (i : nat) (s : pm) (programs : list (Z * Z)) (port : Z) : pm * bool :=
  match programs with
  | [] => (s, true)
  | (prog, vers) :: rest =>
      let '(s, _) := portmapCall s (xid_of i) pmapProcUnset prog vers 0 in
      match portmapCall s (xid_of (S i)) pmapProcSet prog vers port with
      | (s, inl true) => register_loop (S (S i)) s rest port
      | (s, _) => (s, false)
      end
  end.
Definition registerPortmap (i : nat) (s : pm) (port : Z) : pm * bool := register_loop i s portmapPrograms port.

Fixpoint unregister_loop (i : nat) (s : pm) (programs : list (Z * Z)) : pm :=
  match programs with
  | [] => s
  | (prog, vers) :: rest => unregister_loop (S i) (portmapCall s (xid_of i) pmapProcUnset prog vers 0).1 rest
  end.
Definition unregisterPortmap (i : nat) (s : pm) : pm := unregister_loop i s portmapPrograms.

(** ** The server *)

Record Server := mkServer { want_portmap : bool; portmapRegistered : bool; accepting : bool; cancelled : bool }.

(** [NewServer]: the rules must parse and the address must be free. *)
Definition NewServer (allowed : list string) (listens : bool) (register : bool) : (Server * ClientRules.ClientFilter) + string :=
  match ClientRules.NewClientFilter allowed with
  | None => inr "invalid allowed_clients"
  | Some filter => if listens then inl (mkServer register false true false, filter) else inr "failed to create listener"
  end.

(** [Start]: a portmapper that does not answer is reported and not fatal. *)
Definition Start (i : nat) (s : pm) (srv : Server) (port : Z) : pm * Server :=
  if want_portmap srv then
    let '(s, ok) := registerPortmap i s port in
    (s, mkServer true (if ok then true else portmapRegistered srv) (accepting srv) (cancelled srv))
  else (s, srv).

Definition Stop (i : nat) (s : pm) (srv : Server) : pm * Server :=
  ((if portmapRegistered srv then unregisterPortmap i s else s),
   mkServer (want_portmap srv) (portmapRegistered srv) false true).

End Calls.

(** A portmapper that answers as RFC 1833 says: [SET] on a pair that is not mapped
    maps it, [UNSET] removes the mapping, and each leaves the other pairs alone. *)
Class PortmapLaws `{Portmapper} := {
  set_answers s xid prog vers port : Forall is_word [xid; prog; vers; port] -> mapped s (prog, vers) = None ->
    exists s', exchange s (call_message xid pmapProcSet prog vers port) = (s', Some (accepted xid 1)) /\
      (forall k, mapped s' k = if decide (k = (prog, vers)) then Some port else mapped s k);
  unset_answers s xid prog vers : Forall is_word [xid; prog; vers] ->
    exists s' reply, exchange s (call_message xid pmapProcUnset prog vers 0) = (s', reply) /\
      (forall k, mapped s' k = if decide (k = (prog, vers)) then None else mapped s k)
}.

(** A word survives its four bytes. *)
Lemma Uint32_PutUint32 v rest : is_word v -> Uint32 (PutUint32 v ++ rest) = v.
Proof.
  intros [H0 H1]. cbn [PutUint32 app Uint32]. change (2 ^ 32) with 4294967296 in H1.
  change (2 ^ 24) with 16777216. change (2 ^ 16) with 65536. change (2 ^ 8) with 256. Z.to_euclidean_division_equations. lia.
Qed.

(** The reply to a call is read as the portmapper meant it. *)
Lemma read_accepted xid : is_word xid -> read_reply xid (accepted xid 1) = inl true.
Proof.
  intros Hx. unfold read_reply, accepted.
  change ([xid; 1; 0; 0; 0; 0; 1] ≫= PutUint32) with (PutUint32 xid ++ ([1; 0; 0; 0; 0; 1] ≫= PutUint32)).
  change (take 64 (PutUint32 xid ++ ([1; 0; 0; 0; 0; 1] ≫= PutUint32))) with (PutUint32 xid ++ ([1; 0; 0; 0; 0; 1] ≫= PutUint32)).
  rewrite <-app_assoc, Uint32_PutUint32, Z.eqb_refl by done. reflexivity.
Qed.

Section Registered.
Context `{PortmapLaws} (xid_of : nat -> Z) (Hxid : forall i, is_word (xid_of i)).

Abbreviation words_ok k := (is_word (fst k) /\ is_word (snd k)).

Lemma unset_call s i prog vers : words_ok (prog, vers) ->
  forall k, mapped (portmapCall s (xid_of i) pmapProcUnset prog vers 0).1 k =
    if decide (k = (prog, vers)) then None else mapped s k.
Proof.
  intros [Hg Hv] k. unfold portmapCall.
  destruct (unset_answers s (xid_of i) prog vers) as (s' & r & -> & Hs'); [by rewrite !Forall_cons; auto 6|].
  destruct r; apply Hs'.
Qed.

Lemma set_call s i prog vers port :
  words_ok (prog, vers) -> is_word port -> mapped s (prog, vers) = None ->
  exists s', portmapCall s (xid_of i) pmapProcSet prog vers port = (s', inl true) /\
    forall k, mapped s' k = if decide (k = (prog, vers)) then Some port else mapped s k.
Proof.
  intros [Hg Hv] Hp Hn.
  destruct (set_answers s (xid_of i) prog vers port) as (s' & E & Hs'); [by rewrite !Forall_cons; auto 6|done|].
  exists s'. split; [|exact Hs']. unfold portmapCall. by rewrite E, read_accepted.
Qed.

Lemma register_loop_maps programs port : is_word port -> Forall (fun k => words_ok k) programs -> forall i s, exists s',
  register_loop xid_of i s programs port = (s', true) /\
  forall k, mapped s' k = if decide (k ∈ programs) then Some port else mapped s k.
Proof.
  intros Hp Hok. induction Hok as [|[prog vers] programs Hk _ IH]; intros i s; cbn [register_loop].
  - exists s. split; [done|]. intros k. by rewrite decide_False by apply not_elem_of_nil.
  - pose proof (unset_call s i prog vers Hk) as Hu.
    destruct (portmapCall s (xid_of i) pmapProcUnset prog vers 0) as [s1 r]. cbn [fst] in Hu.
    destruct (set_call s1 (S i) prog vers port Hk Hp) as (s2 & -> & H2); [by rewrite Hu, decide_True|].
    destruct (IH (S (S i)) s2) as (s3 & -> & H3). exists s3. split; [done|]. intros k. rewrite H3, H2, Hu.
    destruct (decide (k = (prog, vers))) as [->|Hne].
    + rewrite (decide_True (P := (prog, vers) ∈ (prog, vers) :: programs)) by left. by case_decide.
    + apply decide_ext. rewrite elem_of_cons. tauto.
Qed.

Lemma unregister_loop_unmaps programs : Forall (fun k => words_ok k) programs -> forall i s k,
  mapped (unregister_loop xid_of i s programs) k = if decide (k ∈ programs) then None else mapped s k.
Proof.
  induction 1 as [|[prog vers] programs Hok _ IH]; intros i s k; cbn [unregister_loop].
  - by rewrite decide_False by apply not_elem_of_nil.
  - rewrite IH, unset_call by done. destruct (decide (k = (prog, vers))) as [->|Hk].
    + rewrite (decide_True (P := (prog, vers) ∈ (prog, vers) :: programs)) by left. by case_decide.
    + apply decide_ext. rewrite elem_of_cons. tauto.
Qed.

Lemma programs_ok : Forall (fun k => words_ok k) portmapPrograms.
Proof. unfold portmapPrograms. rewrite !Forall_cons. split_and!; try done; apply Forall_nil_2. Qed.

(** A server that registers is found at its port under the three program versions
    while it runs, whatever was mapped before, and under none of them once it has
    stopped; no other mapping changes. *)
Theorem portmap_follows_server s srv port i j :
  want_portmap srv = true -> is_word port ->
  let '(s1, srv1) := Start xid_of i s srv port in
  let '(s2, srv2) := Stop xid_of j s1 srv1 in
  (forall k, mapped s1 k = if decide (k ∈ portmapPrograms) then Some port else mapped s k) /\
  (forall k, mapped s2 k = if decide (k ∈ portmapPrograms) then None else mapped s k) /\ accepting srv2 = false.
Proof.
  intros Hw Hp. unfold Start, registerPortmap. rewrite Hw.
  destruct (register_loop_maps portmapPrograms port Hp programs_ok i s) as (s1 & -> & H1). cbn [Stop portmapRegistered want_portmap accepting].
  split_and!; [exact H1| |done]. intros k. unfold unregisterPortmap. rewrite unregister_loop_unmaps, H1 by apply programs_ok. by case_decide.
Qed.

End Registered.

(** ** A portmapper in memory *)

(** It keeps the mappings and the programs it lets nobody change. *)
Record Memory := mkMemory { table : gmap (Z * Z) Z; kept : gset (Z * Z) }.

Definition memory_exchange (s : Memory) (msg : list Z) : Memory * option (list Z) :=
  let word i := Uint32 (drop (4 * i) msg) in
  let xid := word 0%nat in
  let k := (word 10%nat, word 11%nat) in
  if decide (k ∈ kept s) then (s, Some (accepted xid 0))
  else if word 5%nat =? pmapProcSet then
    match table s !! k with
    | Some _ => (s, Some (accepted xid 0))
    | None => (mkMemory (<[k := word 13%nat]> (table s)) (kept s), Some (accepted xid 1))
    end
  else (mkMemory (delete k (table s)) (kept s), Some (accepted xid 1)).

Lemma word_of_message i ws v :
  Forall is_word ws -> ws !! i = Some v -> Uint32 (drop (4 * i) (ws ≫= PutUint32)) = v.
Proof.
  intros Hws. revert i. induction Hws as [|w ws Hw _ IH]; intros [|i] Hi; simplify_eq/=.
  - exact (Uint32_PutUint32 v (ws ≫= PutUint32) Hw).
  - replace (i + S (i + S (i + S (i + 0))))%nat with (3 + 4 * i)%nat by lia. by apply IH.
Qed.

(** One that lets everybody change every mapping has the laws. *)
#[local] Instance open_portmapper : Portmapper :=
  {| pm := gmap (Z * Z) Z; mapped s k := s !! k;
     exchange s msg := let '(s', r) := memory_exchange (mkMemory s ∅) msg in (table s', r) |}.

#[local] Instance open_portmapper_laws : @PortmapLaws open_portmapper.
Proof.
  assert (forall xid proc prog vers port, Forall is_word [xid; proc; prog; vers; port] ->
    Forall is_word (call_words xid proc prog vers port)) as Hw.
  { intros xid proc prog vers port H. rewrite !Forall_cons in H. unfold call_words. rewrite !Forall_cons.
    assert (is_word 0 /\ is_word 2 /\ is_word rpcProgPortmap /\ is_word ipProtoTCP) by (repeat split; done). tauto. }
  split.
  - intros s xid prog vers port Hok Hn. cbn [exchange mapped open_portmapper] in *. repeat (apply Forall_cons in Hok as [? Hok]).
    assert (Forall is_word (call_words xid pmapProcSet prog vers port)) as Hc.
    { apply Hw. rewrite !Forall_cons. split_and!; try done; by repeat split. }
    unfold memory_exchange, call_message. cbv zeta.
    rewrite (word_of_message 0 _ xid Hc eq_refl), (word_of_message 5 _ pmapProcSet Hc eq_refl), (word_of_message 10 _ prog Hc eq_refl),
      (word_of_message 11 _ vers Hc eq_refl), (word_of_message 13 _ port Hc eq_refl), decide_False by apply not_elem_of_empty.
    cbn [table kept]. rewrite Hn. eexists. split; [done|]. intros k. cbn [table]. case_decide as Hk; [subst; apply lookup_insert_eq|].
    by apply lookup_insert_ne.
  - intros s xid prog vers Hok. cbn [exchange mapped open_portmapper] in *. repeat (apply Forall_cons in Hok as [? Hok]).
    assert (Forall is_word (call_words xid pmapProcUnset prog vers 0)) as Hc.
    { apply Hw. rewrite !Forall_cons. split_and!; try done; by repeat split. }
    unfold memory_exchange, call_message. cbv zeta.
    rewrite (word_of_message 0 _ xid Hc eq_refl), (word_of_message 5 _ pmapProcUnset Hc eq_refl), (word_of_message 10 _ prog Hc eq_refl),
      (word_of_message 11 _ vers Hc eq_refl), (word_of_message 13 _ 0 Hc eq_refl), decide_False by apply not_elem_of_empty.
    eexists _, _. split; [done|]. intros k. cbn [table]. case_decide as Hk; [subst; apply lookup_delete_eq|].
    by apply lookup_delete_ne.
Qed.

#[local] Instance memory_portmapper : Portmapper :=
  {| pm := Memory; mapped s k := table s !! k; exchange := memory_exchange |}.

Definition clock (i : nat) : Z := 7000 + Z.of_nat i.
Definition registering : Server := mkServer true false true false.

(** Registering replaces the mapping of an earlier run and stopping withdraws it. *)
Example portmap_run :
  let s0 := mkMemory {[ (100003, 3) := 111; (100024, 1) := 875 ]} ∅ in
  let '(s1, srv1) := Start clock 0 s0 registering 2049 in
  let '(s2, _) := Stop clock 6 s1 srv1 in
  (mapped s1 <$> portmapPrograms) = [Some 2049; Some 2049; Some 2049] /\
  (mapped s2 <$> portmapPrograms) = [None; None; None] /\ mapped s2 (100024, 1) = Some 875.
Proof. vm_compute. auto. Qed.

(** When the portmapper refuses a program, those registered before it stay mapped
    after the server has stopped. *)
Theorem partial_registration_stays :
  let s0 := mkMemory ∅ {[ (100005, 3) ]} in
  let '(s1, srv1) := Start clock 0 s0 registering 2049 in
  let '(s2, srv2) := Stop clock 6 s1 srv1 in
  portmapRegistered srv2 = false /\ accepting srv2 = false /\ mapped s2 (100003, 3) = Some 2049.
Proof. vm_compute. auto. Qed.

End Portmap.

(** ** The handler's wrappers *)

Module NfsHandler.

(** [stableVerifier]: the first eight bytes of the path's digest, big-endian. *)
Definition stableVerifier (Sum256 : string -> list Z) (path : string) : Z :=
  foldl (fun acc b => acc * 256 + b) 0 (take 8 (Sum256 path)).

(** [VerifierFor] does not look at the contents. *)
Definition VerifierFor {Info} (Sum256 : string -> list Z) (path : string) (contents : list Info) : Z := stableVerifier Sum256 path.

(** [DataForVerifier]; [wrapped] is that of a handler with a cache, if it has one. *)
Definition DataForVerifier {Info} (Sum256 : string -> list Z) (wrapped : option (string -> Z -> option (list Info)))
    (path : string) (verifier : Z) : option (list Info) :=
  if negb (stableVerifier Sum256 path =? verifier) then None
  else match wrapped with None => None | Some data => data path verifier end.

(** A page asked for with the verifier of an earlier page is looked up, whatever the
    directory held in between. *)
Lemma verifier_survives_changes {Info} Sum256 (data : string -> Z -> option (list Info)) path (before : list Info) :
  DataForVerifier Sum256 (Some data) path (VerifierFor Sum256 path before) = data path (VerifierFor Sum256 path before).
Proof. unfold DataForVerifier, VerifierFor. by rewrite Z.eqb_refl. Qed.

Record FSStat := mkFSStat {
  TotalSize : Z; FreeSize : Z; AvailableSize : Z; TotalFiles : Z; FreeFiles : Z; AvailableFiles : Z; CacheHint : Time
}.

(** What a wrapped file system offers: an answer of its own, a capacity, or nothing. *)
Inductive provider := Answers (answer : FSStat -> FSStat * option string) | HasCapacity (c : VfsOps.Capacity) | HasNothing.

Definition fsStatFrom (inner : provider) (stat : FSStat) : FSStat * option string :=
  match inner with
  | Answers answer => answer stat
  | HasCapacity c =>
      (mkFSStat (VfsOps.TotalBytes c) (VfsOps.AvailableBytes c) (VfsOps.AvailableBytes c) (VfsOps.TotalFiles c)
         (VfsOps.AvailableFiles c) (VfsOps.AvailableFiles c) Second, None)
  | HasNothing => (stat, None)
  end.

(** [FSStat] of the listing cache and of the tracing wrapper. *)
Definition wrapper (inner : provider) : provider := Answers (fsStatFrom inner).

(** Any number of wrappers report the capacity of the file system below. *)
Lemma wrapped_capacity n c stat : fsStatFrom (Nat.iter n wrapper (HasCapacity c)) stat = fsStatFrom (HasCapacity c) stat.
Proof. by induction n. Qed.

End NfsHandler.

(** ** Health checks

    The checks the gateway registers, how their results make one status whatever
    order the map of checks is walked in, and the codes the probes answer.  A check is
    the detail it gives when it is asked; JSON and HTTP are outside. *)

Module Health.

Definition StatusHealthy : string := "healthy".
Definition StatusUnhealthy : string := "unhealthy".
Definition StatusDegraded : string := "degraded".

Record CheckDetail := mkDetail { d_Status : string; d_Message : string; d_Error : string }.
Record CheckResult := mkResult { r_Status : string; r_Timestamp : Time; r_Checks : gmap string CheckDetail }.

Definition Checker := gmap string CheckDetail.
Definition NewChecker : Checker := ∅.
Definition RegisterCheck (c : Checker) (name : string) (check : CheckDetail) : Checker := <[name := check]> c.

(** A turn of the loop of [Check]. *)
Definition check_turn (r : CheckResult) (check : string * CheckDetail) : CheckResult :=
  let '(name, detail) := check in
  let status :=
    if decide (d_Status detail = StatusUnhealthy) then StatusUnhealthy
    else if decide (d_Status detail = StatusDegraded /\ r_Status r = StatusHealthy) then StatusDegraded
    else r_Status r in
  mkResult status (r_Timestamp r) (<[name := detail]> (r_Checks r)).

(** [Check] over the checks in the order the map gives them. *)
Definition Check (order : Checker -> list (string * CheckDetail)) (c : Checker) (now : Time) : CheckResult :=
  foldl check_turn (mkResult StatusHealthy now ∅) (order c).

(** The codes of [/health/ready], [/health/startup] and [/health]. *)
Definition ready_code (r : CheckResult) : Z :=
  if decide (r_Status r = StatusHealthy) then 200 else if decide (r_Status r = StatusDegraded) then 200 else 503.
Definition startup_code (r : CheckResult) : Z :=
  if decide (r_Status r = StatusHealthy \/ r_Status r = StatusDegraded) then 200 else 503.
Definition detail_code (r : CheckResult) : Z := 200.

(** The checks the gateway has; [ping] is the error of the object store, if any. *)
Definition COSHealthCheck (ping : option string) : CheckDetail :=
  match ping with
  | Some err => mkDetail StatusUnhealthy "COS connectivity check failed" err
  | None => mkDetail StatusHealthy "COS is accessible" ""
  end.

Definition CacheHealthCheck (isEnabled : bool) : CheckDetail :=
  if isEnabled then mkDetail StatusHealthy "Cache is operational" "" else mkDetail StatusHealthy "Cache is disabled" "".

Record SMBStats := mkStats { Running : bool; Connections : Z; Sessions : Z; OpenFiles : Z }.

(** [message] prints the counts. *)
Definition SMBHealthCheck (message : SMBStats -> string) (stats : option SMBStats) : CheckDetail :=
  match stats with
  | None => mkDetail StatusHealthy "SMB server is disabled" ""
  | Some current =>
      if Running current then mkDetail StatusHealthy (message current) ""
      else mkDetail StatusUnhealthy "SMB server is not serving" ""
  end.

Definition DiskSpaceHealthCheck : CheckDetail := mkDetail StatusHealthy "Disk space is sufficient" "".

(** ** The status of all checks *)

Definition any (s : string) (l : list (string * CheckDetail)) : bool := existsb (fun p => bool_decide (d_Status p.2 = s)) l.

(** The worst status among [l], at least [s]. *)
Definition worst (s : string) (l : list (string * CheckDetail)) : string :=
  if any StatusUnhealthy l then StatusUnhealthy
  else if bool_decide (s = StatusHealthy) && any StatusDegraded l then StatusDegraded else s.

Lemma foldl_status l r : r_Status (foldl check_turn r l) = worst (r_Status r) l.
Proof.
  revert r. induction l as [|[n d] l IH]; intros r; cbn [foldl].
  - unfold worst. cbn [any existsb]. by rewrite andb_false_r.
  - rewrite IH. unfold worst, check_turn. cbn [r_Status any existsb snd].
    fold (any StatusUnhealthy l). fold (any StatusDegraded l).
    destruct (decide (d_Status d = StatusUnhealthy)) as [->|Hu].
    { rewrite (bool_decide_eq_true_2 (StatusUnhealthy = StatusUnhealthy)) by done. cbn [orb]. by destruct (any StatusUnhealthy l). }
    rewrite (bool_decide_eq_false_2 (d_Status d = StatusUnhealthy)) by done. cbn [orb].
    destruct (any StatusUnhealthy l); [done|].
    destruct (decide (d_Status d = StatusDegraded /\ r_Status r = StatusHealthy)) as [[-> ->]|Hd].
    + rewrite (bool_decide_eq_true_2 (StatusDegraded = StatusDegraded)) by done. done.
    + destruct (bool_decide_reflect (r_Status r = StatusHealthy)); [|done].
      rewrite (bool_decide_eq_false_2 (d_Status d = StatusDegraded)) by tauto. done.
Qed.

Lemma foldl_checks l r : NoDup l.*1 -> r_Checks (foldl check_turn r l) = list_to_map l ∪ r_Checks r.
Proof.
  revert r. induction l as [|[n d] l IH]; intros r Hd; cbn [foldl].
  - symmetry. apply (left_id_L ∅ (∪)).
  - apply NoDup_cons in Hd as [Hn Hd]. rewrite IH by done. cbn [check_turn r_Checks list_to_map foldr uncurry].
    rewrite <-insert_union_l. symmetry. apply insert_union_r. by apply not_elem_of_list_to_map_1.
Qed.

(** Whatever order the checks are walked in, the result has every check's detail,
    is unhealthy when one is, degraded when one is and none is unhealthy, and the
    readiness probe refuses traffic exactly when a check is unhealthy. *)
Theorem health_is_worst_check order (c : Checker) now :
  (forall m, order m ≡ₚ map_to_list m) ->
  let r := Check order c now in
  r_Checks r = c /\
  r_Status r = worst StatusHealthy (map_to_list c) /\
  ready_code r = startup_code r /\
  (ready_code r = 503 <-> exists name d, c !! name = Some d /\ d_Status d = StatusUnhealthy).
Proof.
  intros Hord r. assert (forall s, any s (order c) = any s (map_to_list c)) as Hany.
  { intros s. unfold any. apply eq_bool_prop_intro. rewrite !existb_True, !Exists_exists.
    by setoid_rewrite (Hord c). }
  assert (r_Status r = worst StatusHealthy (map_to_list c)) as Hs.
  { unfold r, Check. rewrite foldl_status. unfold worst. cbn [r_Status]. by rewrite !Hany. }
  split_and!; [|done| |].
  - unfold r, Check. rewrite foldl_checks by (rewrite (Hord c); apply NoDup_fst_map_to_list).
    cbn [r_Checks]. rewrite (right_id_L ∅ (∪)). rewrite (list_to_map_proper _ (map_to_list c)); [apply list_to_map_to_list| |apply Hord].
    rewrite (Hord c). apply NoDup_fst_map_to_list.
  - unfold ready_code, startup_code. repeat case_decide; tauto.
  - unfold ready_code. rewrite Hs. unfold worst. destruct (any StatusUnhealthy (map_to_list c)) eqn:E.
    + split; [intros _|done]. apply existsb_exists in E as ([n d] & Hin & Hd).
      apply bool_decide_eq_true in Hd. exists n, d. split; [|done]. apply elem_of_map_to_list. by apply list_elem_of_In.
    + split; [by destruct (any StatusDegraded _)|]. intros (n & d & Hl & Hd). exfalso.
      apply not_true_iff_false in E. apply E. apply existsb_exists. exists (n, d).
      split; [apply list_elem_of_In; by apply elem_of_map_to_list|by apply bool_decide_eq_true].
Qed.

End Health.
