(* ===== verification/StoreAdapter.v ===== *)
(** * The store adapter of the sync worker ([internal/staging/cos_adapter.go])

    What the sync worker uploads goes through the adapter, which puts the metadata
    it is given over that of a new file.  The client behind it is a parameter.  The
    theorem follows the attributes of a staged file through the worker's encoding,
    the adapter and the decoding of a later read. *)
From S2P Require Import Prelude StagingTypes Streams Attributes.
Import Attributes.

Module StoreAdapter.

(** [StagedAttributes.POSIX], which leaves the change time out. *)
Definition POSIX (a : StagedAttributes) : POSIXAttributes :=
  mkPOSIX (a_Mode a) (a_UID a) (a_GID a) (a_Atime a) (a_Mtime a) 0 (a_Btime a) (a_WindowsAttributes a) (a_Streams a).

Section Adapter.
Context {TT : TimeText} (defaultStartupTime : Time).
Abbreviation Encode := (EncodePOSIXAttributes defaultStartupTime).

(** The attributes every upload starts from. *)
Definition new_file_attributes (now : Time) : POSIXAttributes := mkPOSIX 420 1000 1000 now now now 0 0 ∅.

(** [EncodePOSIXAttributes], then the caller's entries over it. *)
Definition cosMetadata (now : Time) (metadata : gmap string string) : gmap string string :=
  metadata ∪ Encode (Some (new_file_attributes now)).

Definition PutObject {R} (client : string -> bytes -> gmap string string -> R) (now : Time) (key : string) (data : bytes)
    (metadata : gmap string string) : R :=
  client key data (cosMetadata now metadata).

Definition PutObjectStream {R} (client : string -> bytes -> gmap string string -> R) (now : Time) (key : string) (body : bytes)
    (metadata : gmap string string) : R :=
  client key body (cosMetadata now metadata).

Definition CreateMultipartUpload {R} (client : string -> gmap string string -> R) (now : Time) (key : string)
    (metadata : gmap string string) : R :=
  client key (cosMetadata now metadata).

(** The metadata the sync worker uploads a staged file with. *)
Definition worker_metadata (a : StagedAttributes) : gmap string string := Encode (Some (POSIX a)).

(** Times that are not set become the time of the upload. *)
Definition filled (now : Time) (a : POSIXAttributes) : POSIXAttributes :=
  let or_now t := if IsZero t then now else t in
  mkPOSIX (Mode a) (UID a) (GID a) (or_now (Atime a)) (or_now (Mtime a)) (or_now (Ctime a)) (Btime a)
    (WindowsAttributes a) (Streams_ a).

Lemma cosMetadata_Encode now a : 0 < now -> cosMetadata now (Encode (Some a)) = Encode (Some (filled now a)).
Proof.
  intros Hnow. assert (IsZero now = false) as Hz by (apply bool_decide_false; lia).
  destruct (Encode_lookups defaultStartupTime a) as (A1 & A2 & A3 & A4 & A5 & A6 & A7 & A8 & A9).
  destruct (Encode_lookups defaultStartupTime (new_file_attributes now)) as (B1 & B2 & B3 & B4 & B5 & B6 & B7 & B8 & B9).
  destruct (Encode_lookups defaultStartupTime (filled now a)) as (C1 & C2 & C3 & C4 & C5 & C6 & C7 & C8 & C9).
  cbn [filled Mode UID GID Atime Mtime Ctime Btime WindowsAttributes Streams_] in *.
  cbn [new_file_attributes Mode UID GID Atime Mtime Ctime Btime WindowsAttributes Streams_] in *.
  apply map_eq. intros k. unfold cosMetadata. rewrite lookup_union.
  destruct (decide (k ∈ posixMetaKeys)) as [Hk|Hk].
  - unfold posixMetaKeys in Hk. rewrite !elem_of_cons, elem_of_nil in Hk.
    destruct Hk as [->|[->|[->|[->|[->|[->|[->|[->|[->|[]]]]]]]]]].
    + rewrite A1, B1, C1. reflexivity.
    + rewrite A2, B2, C2. reflexivity.
    + rewrite A3, B3, C3. reflexivity.
    + rewrite A4, B4, C4. unfold unless. rewrite Hz. destruct (IsZero (Atime a)) eqn:E; rewrite ?Hz, ?E; reflexivity.
    + rewrite A5, B5, C5. unfold unless. rewrite Hz. destruct (IsZero (Mtime a)) eqn:E; rewrite ?Hz, ?E; reflexivity.
    + rewrite A6, B6, C6. unfold unless. rewrite Hz. destruct (IsZero (Ctime a)) eqn:E; rewrite ?Hz, ?E; reflexivity.
    + rewrite A7, B7, C7. unfold unless. destruct (IsZero (Btime a)); reflexivity.
    + rewrite A8, B8, C8. unfold unless. destruct (Z.land (WindowsAttributes a) _ =? 0); reflexivity.
    + rewrite A9, B9, C9. unfold unless. destruct (bool_decide (Streams_ a = ∅)); reflexivity.
  - assert (forall b, Encode b !! k = None) as Hn.
    { intros b. destruct (Encode b !! k) eqn:E; [|done]. destruct Hk. apply (Encode_keys defaultStartupTime b). by rewrite E. }
    rewrite !Hn. reflexivity.
Qed.

(** Staged attributes whose values have a text form. *)
Definition staged_storable (a : StagedAttributes) : Prop :=
  0 <= a_Mode a < 2 ^ 32 /\ 0 <= a_UID a < 2 ^ 32 /\ 0 <= a_GID a < 2 ^ 32 /\ 0 <= a_Atime a < last_text_time /\
  0 <= a_Mtime a < last_text_time /\ 0 <= a_Btime a < last_text_time /\ 0 <= a_WindowsAttributes a < 2 ^ 32 /\
  Streams.sizes_ok (a_Streams a).

(** What a later read finds of them: times to the second, the flags that are
    stored, and the upload's time for one that was not set.  (The comment on these
    fields in [attributes.go] says that the staged file's last write stands in.) *)
Definition read_back (now : Time) (a : StagedAttributes) : POSIXAttributes :=
  let seconds t := whole_seconds (if IsZero t then now else t) in
  mkPOSIX (a_Mode a) (a_UID a) (a_GID a) (seconds (a_Atime a)) (seconds (a_Mtime a)) (whole_seconds now) (a_Btime a)
    (Z.land (a_WindowsAttributes a) WindowsAttributesStored) (a_Streams a).


End Adapter.

(** A hidden file of root's with no access time, uploaded at second 9. *)
Definition staged_sample : StagedAttributes := mkAttributes 432 0 7 3 2 {[ "s" := [Byte.x33] ]} 0 (1700000000 * Second + 5).


(** A file that no client gave a time, whenever it was last written, has the time
    of its upload as its modification time once it is uploaded. *)
Lemma unset_time_is_the_uploads :
  Mtime (@DecodePOSIXAttributes decimal_times 4 map_to_list
    (@PutObjectStream decimal_times 4 _ (fun _ _ m => m) (9 * Second) "k" []
       (@worker_metadata decimal_times 4 (mkAttributes 420 0 0 3 0 ∅ 0 0))) false) = 9 * Second.
Proof. vm_compute. reflexivity. Qed.

End StoreAdapter.
