(* ===== verification/ObjectLocks.v ===== *)
(** * One sync of a path at a time ([internal/staging/sync_worker.go])

    The sync workers and the callers that sync at once take a lock per path from a
    table that holds an entry only while somebody needs it.  The entry is deleted and
    made anew while others come and go, so locks have identities and the steps of
    [lockObject] and of the function it returns interleave.  Beside them the turn of a
    worker and the upload that callers make directly. *)
From S2P Require Import Prelude StagingTypes Disk DirtyIndex Session StagingManager ObjectStore SyncWorker.

Module ObjectLocks.

(** [objectLock]; [mu] is whether its mutex is held. *)
Record objectLock := mkLock { mu : bool; users : Z }.

(** Where a caller is: waiting for the mutex, holding it, or past its release with
    its use still counted. *)
Inductive phase := Waiting | Holding | Leaving.
Record caller := mkCaller { c_path : string; c_lock : Z; c_phase : phase }.

#[export] Instance phase_eq_dec : EqDecision phase.
Proof. solve_decision. Defined.

(** [objectLocks] by path, the locks there have ever been, and the callers inside. *)
Record table := mkTable { objectLocks : gmap string Z; locks : gmap Z objectLock; callers : gmap Z caller }.

Definition empty : table := mkTable ∅ ∅ ∅.

(** The first section of [lockObject]: find or make the entry, count the use. *)
Definition lock_enter (t : table) (who : Z) (path : string) (new : Z) : table :=
  let '(id, l, m) :=
    match objectLocks t !! path with
    | Some id => (id, default (mkLock false 0) (locks t !! id), objectLocks t)
    | None => (new, mkLock false 0, <[path := new]> (objectLocks t))
    end in
  mkTable m (<[id := mkLock (mu l) (users l + 1)]> (locks t)) (<[who := mkCaller path id Waiting]> (callers t)).

(** [lock.mu.Lock] returns. *)
Definition lock_grab (t : table) (who : Z) (c : caller) (l : objectLock) : table :=
  mkTable (objectLocks t) (<[c_lock c := mkLock true (users l)]> (locks t)) (<[who := mkCaller (c_path c) (c_lock c) Holding]> (callers t)).

(** [lock.mu.Unlock] of the returned function. *)
Definition lock_release (t : table) (who : Z) (c : caller) (l : objectLock) : table :=
  mkTable (objectLocks t) (<[c_lock c := mkLock false (users l)]> (locks t)) (<[who := mkCaller (c_path c) (c_lock c) Leaving]> (callers t)).

(** The section after it: the use ends, and the entry with the last use. *)
Definition lock_leave (t : table) (who : Z) (c : caller) (l : objectLock) : table :=
  let users := users l - 1 in
  mkTable (if users =? 0 then delete (c_path c) (objectLocks t) else objectLocks t)
    (<[c_lock c := mkLock (mu l) users]> (locks t)) (delete who (callers t)).

(** A caller is one goroutine, and [new] an address nothing else has. *)
Inductive step (t : table) : table -> Prop :=
  | step_enter who path new : callers t !! who = None -> locks t !! new = None -> step t (lock_enter t who path new)
  | step_grab who c l : callers t !! who = Some c -> c_phase c = Waiting -> locks t !! c_lock c = Some l -> mu l = false ->
      step t (lock_grab t who c l)
  | step_release who c l : callers t !! who = Some c -> c_phase c = Holding -> locks t !! c_lock c = Some l ->
      step t (lock_release t who c l)
  | step_leave who c l : callers t !! who = Some c -> c_phase c = Leaving -> locks t !! c_lock c = Some l ->
      step t (lock_leave t who c l).

(** ** The invariant *)

(** The callers inside for a path. *)
Definition inside (m : gmap Z caller) (path : string) : gmap Z caller := filter (fun p => c_path p.2 = path) m.

Lemma inside_insert m who c path :
  inside (<[who := c]> m) path = if decide (c_path c = path) then <[who := c]> (inside m path) else inside (delete who m) path.
Proof.
  unfold inside. rewrite map_filter_insert. cbn. case_decide; done.
Qed.

Lemma inside_change m who c c' path : m !! who = Some c -> c_path c' = c_path c -> size (inside (<[who := c']> m) path) = size (inside m path).
Proof.
  intros Hc Hp. rewrite inside_insert. case_decide as E.
  - apply map_size_insert_Some. exists c. unfold inside. apply map_lookup_filter_Some. cbn. split; [done|congruence].
  - unfold inside. rewrite map_filter_delete_not; [done|]. intros ? Hl. cbn. congruence.
Qed.

Record valid (t : table) : Prop := {
  v_inside who c : callers t !! who = Some c -> objectLocks t !! c_path c = Some (c_lock c);
  v_entry path id : objectLocks t !! path = Some id ->
    exists l, locks t !! id = Some l /\ users l = Z.of_nat (size (inside (callers t) path)) /\ 0 < users l;
  v_apart p q id : objectLocks t !! p = Some id -> objectLocks t !! q = Some id -> p = q;
  v_mutex who c l : callers t !! who = Some c -> locks t !! c_lock c = Some l -> c_phase c = Holding -> mu l = true;
  v_one who who' c c' : callers t !! who = Some c -> callers t !! who' = Some c' -> c_lock c = c_lock c' ->
    c_phase c = Holding -> c_phase c' = Holding -> who = who'
}.

Lemma valid_empty : valid empty.
Proof. by split; cbn; intros *; rewrite ?lookup_empty. Qed.

Lemma inside_lookup m path who c : inside m path !! who = Some c <-> m !! who = Some c /\ c_path c = path.
Proof. apply map_lookup_filter_Some. Qed.

(** A caller that is not inside is counted when it comes. *)
Lemma inside_new m who c path : m !! who = None ->
  size (inside (<[who := c]> m) path) = (size (inside m path) + if decide (c_path c = path) then 1 else 0)%nat.
Proof.
  intros Hw. rewrite inside_insert. case_decide.
  - rewrite map_size_insert_None; [lia|]. apply eq_None_not_Some. intros [c' [? _]%inside_lookup]. congruence.
  - rewrite delete_id by done. lia.
Qed.

(** And no longer when it goes. *)
Lemma inside_gone m who c path : m !! who = Some c ->
  size (inside m path) = (size (inside (delete who m) path) + if decide (c_path c = path) then 1 else 0)%nat.
Proof.
  intros Hw. rewrite <-(insert_id m who c Hw) at 1. rewrite <-insert_delete_eq. apply inside_new. apply lookup_delete_eq.
Qed.

(** The lock of a caller is its path's. *)
Lemma caller_lock t who c : valid t -> callers t !! who = Some c ->
  exists l, locks t !! c_lock c = Some l /\ users l = Z.of_nat (size (inside (callers t) (c_path c))) /\ 0 < users l.
Proof. intros Hv Hc. apply (v_entry _ Hv). by apply (v_inside _ Hv who). Qed.

Lemma enter_valid t who path new : valid t -> callers t !! who = None -> locks t !! new = None -> valid (lock_enter t who path new).
Proof.
  intros Hv Hw Hn. pose proof Hv as [Hi He Ha Hm Ho]. unfold lock_enter.
  destruct (objectLocks t !! path) as [id|] eqn:E.
  - destruct (He _ _ E) as (l & Hl & Hu & Hp). rewrite Hl. change (default (mkLock false 0) (Some l)) with l. split; cbn [objectLocks locks callers].
    + intros w c [[-> <-]|[_ Hc]]%lookup_insert_Some; [done|eauto].
    + intros p i Hpi. rewrite inside_new by done. cbn [c_path]. destruct (decide (path = p)) as [<-|Hne].
      * assert (i = id) as -> by congruence. rewrite lookup_insert_eq. eexists. split; [done|]. cbn [users]. lia.
      * rewrite lookup_insert_ne by (intros ->; by destruct Hne; eapply Ha). destruct (He _ _ Hpi) as (l' & ? & ? & ?).
        exists l'. split_and!; [done|lia|done].
    + exact Ha.
    + intros w c k [[-> <-]|[_ Hc]]%lookup_insert_Some; [done|].
      intros [[Hid <-]|[_ Hk]]%lookup_insert_Some Hh; [|eauto]. cbn. apply (Hm w c l); congruence.
    + intros w w' c c' [[-> <-]|[_ Hc]]%lookup_insert_Some; [done|].
      intros [[-> <-]|[_ Hc']]%lookup_insert_Some; [done|eauto].
  - assert (forall w c, callers t !! w = Some c -> c_path c <> path /\ c_lock c <> new) as Hold.
    { intros w c Hc. pose proof (Hi _ _ Hc) as Hp. split; [congruence|]. destruct (caller_lock t w c Hv Hc) as (l & ? & _). congruence. }
    split; cbn [objectLocks locks callers].
    + intros w c [[-> <-]|[_ Hc]]%lookup_insert_Some; cbn [c_path c_lock]; [apply lookup_insert_eq|].
      rewrite lookup_insert_ne; [eauto|]. destruct (Hold _ _ Hc). congruence.
    + intros p i. rewrite inside_new by done. cbn [c_path]. intros [[<- <-]|[Hne Hpi]]%lookup_insert_Some.
      * rewrite lookup_insert_eq, decide_True by done. eexists. split; [done|]. cbn [users].
        assert (inside (callers t) path = ∅) as ->; [|rewrite map_size_empty; lia].
        apply map_empty. intros w. apply eq_None_not_Some. intros [c [Hc Hcp]%inside_lookup]. by destruct (Hold _ _ Hc).
      * rewrite decide_False by done. destruct (He _ _ Hpi) as (l & Hl & ? & ?). exists l.
        rewrite lookup_insert_ne by congruence. split_and!; [done|lia|done].
    + intros p q i [[<- <-]|[Hp Hpi]]%lookup_insert_Some [[<- E2]|[Hq Hqi]]%lookup_insert_Some; [done|..].
      * destruct (He _ _ Hqi) as (l & ? & _). congruence.
      * subst i. destruct (He _ _ Hpi) as (l & ? & _). congruence.
      * eauto.
    + intros w c k [[-> <-]|[_ Hc]]%lookup_insert_Some; [done|]. destruct (Hold _ _ Hc) as [_ Hne].
      rewrite lookup_insert_ne by congruence. eauto.
    + intros w w' c c' [[-> <-]|[_ Hc]]%lookup_insert_Some; [done|].
      intros [[-> <-]|[_ Hc']]%lookup_insert_Some; [done|eauto].
Qed.

(** A caller inside changes its phase and the mutex of its lock. *)
Lemma phase_valid t who c l b ph : valid t -> callers t !! who = Some c -> locks t !! c_lock c = Some l ->
  (ph = Holding -> b = true /\ mu l = false) -> (b = false -> c_phase c = Holding /\ ph <> Holding) ->
  valid (mkTable (objectLocks t) (<[c_lock c := mkLock b (users l)]> (locks t)) (<[who := mkCaller (c_path c) (c_lock c) ph]> (callers t))).
Proof.
  intros [Hi He Ha Hm Ho] Hc Hl Hgrab Hrel. split; cbn [objectLocks locks callers].
  - intros w d [[-> <-]|[_ Hd]]%lookup_insert_Some; cbn; eauto.
  - intros p i Hpi. rewrite (inside_change _ _ c) by done. destruct (He _ _ Hpi) as (k & Hk & Hu & Hpos).
    destruct (decide (i = c_lock c)) as [->|]; [rewrite lookup_insert_eq|rewrite lookup_insert_ne by congruence; eauto].
    eexists. split; [done|]. cbn. assert (k = l) as -> by congruence. done.
  - exact Ha.
  - intros w d k [[-> <-]|[Hne Hd]]%lookup_insert_Some; cbn [c_lock c_phase].
    + rewrite lookup_insert_eq. intros [= <-] Hh. by destruct (Hgrab Hh).
    + intros [[Hid <-]|[_ Hk]]%lookup_insert_Some Hh; [|eauto]. cbn. destruct b; [done|]. destruct (Hrel eq_refl) as [Hch _].
      destruct Hne. eapply (Ho who w c d); congruence.
  - intros w w' d d' [[-> <-]|[Hne Hd]]%lookup_insert_Some [[<- <-]|[Hne' Hd']]%lookup_insert_Some; cbn [c_lock c_phase]; intros Hid Hh Hh'.
    + done.
    + destruct (Hgrab Hh) as [_ Hfree]. rewrite (Hm w' d' l Hd') in Hfree; [done|congruence|done].
    + destruct (Hgrab Hh') as [_ Hfree]. rewrite (Hm w d l Hd) in Hfree; [done|congruence|done].
    + eapply (Ho w w' d d'); done.
Qed.

Lemma leave_valid t who c l : valid t -> callers t !! who = Some c -> c_phase c = Leaving -> locks t !! c_lock c = Some l ->
  valid (lock_leave t who c l).
Proof.
  intros Hv Hc Hph Hl. pose proof Hv as [Hi He Ha Hm Ho]. unfold lock_leave.
  destruct (He _ _ (Hi _ _ Hc)) as (l' & Hl' & Hu & _). assert (l' = l) as -> by congruence.
  pose proof (fun p => inside_gone (callers t) who c p Hc) as Hsz. pose proof (Hsz (c_path c)) as Hown. rewrite decide_True in Hown by done.
  assert (forall w d, delete who (callers t) !! w = Some d -> c_path d = c_path c -> users l - 1 <> 0) as Hstay.
  { intros w d Hd Hp E. assert (size (inside (delete who (callers t)) (c_path c)) = 0%nat) as E0%map_size_empty_inv by lia.
    assert (inside (delete who (callers t)) (c_path c) !! w = Some d) as Hin by (by apply inside_lookup). by rewrite E0 in Hin. }
  assert (forall p i, (if users l - 1 =? 0 then delete (c_path c) (objectLocks t) else objectLocks t) !! p = Some i <->
    objectLocks t !! p = Some i /\ (p = c_path c -> users l - 1 <> 0)) as Hobj.
  { intros p i. destruct (Z.eqb_spec (users l - 1) 0) as [E|E]; [rewrite lookup_delete_Some|]; split.
    - intros [? ?]. split; [done|congruence].
    - intros [? Hp]. split; [intros <-; by apply Hp|done].
    - auto.
    - tauto. }
  split; cbn [objectLocks locks callers].
  - intros w d Hd. apply Hobj. split; [|by eauto]. apply lookup_delete_Some in Hd as [_ Hd]. eauto.
  - intros p i [Hpi Hp]%Hobj. destruct (He _ _ Hpi) as (k & Hk & Hku & Hkp). specialize (Hsz p).
    destruct (decide (p = c_path c)) as [->|Hne].
    + assert (i = c_lock c) as -> by (pose proof (Hi _ _ Hc); congruence). rewrite lookup_insert_eq. eexists. split; [done|]. cbn [users].
      specialize (Hp eq_refl). assert (k = l) as -> by congruence. lia.
    + rewrite decide_False in Hsz by congruence. rewrite lookup_insert_ne; [exists k; split_and!; [done|lia|done]|].
      intros Hid. apply Hne. eapply Ha; [exact Hpi|]. rewrite <-Hid. by eapply Hi.
  - intros p q i [? _]%Hobj [? _]%Hobj. eauto.
  - intros w d k [_ Hd]%lookup_delete_Some. intros [[Hid <-]|[_ Hk]]%lookup_insert_Some Hh; [|eauto].
    cbn. eapply (Hm w d l); congruence.
  - intros w w' d d' [_ Hd]%lookup_delete_Some [_ Hd']%lookup_delete_Some. eauto.
Qed.

Lemma lock_step_valid t t' : valid t -> step t t' -> valid t'.
Proof.
  intros Hv [who path new Hw Hn|who c l Hc Hp Hl Hm|who c l Hc Hp Hl|who c l Hc Hp Hl].
  - by apply enter_valid.
  - by apply phase_valid.
  - by apply phase_valid.
  - by apply leave_valid.
Qed.

(** C40. However callers of [lockObject] interleave, at most one of them is past the
    lock of a path at a time, though entries of the table come and go; and the table
    has an entry for exactly the paths somebody syncs or waits to sync, so it does
    not grow. *)
Theorem one_sync_per_path t (Hr : rtc step empty t) :
  (forall who who' c c', callers t !! who = Some c -> callers t !! who' = Some c' ->
     c_path c = c_path c' -> c_phase c = Holding -> c_phase c' = Holding -> who = who') /\
  (forall path, is_Some (objectLocks t !! path) <-> exists who c, callers t !! who = Some c /\ c_path c = path).
Proof.
  assert (valid t) as Hv.
  { remember empty as t0 eqn:E. assert (valid t0) as H0 by (subst; apply valid_empty). clear E.
    induction Hr; eauto using lock_step_valid. }
  split.
  - intros who who' c c' Hc Hc' Hp. apply (v_one _ Hv who who' c c' Hc Hc').
    pose proof (v_inside _ Hv _ _ Hc) as E. pose proof (v_inside _ Hv _ _ Hc') as E'. congruence.
  - intros path. split.
    + intros [id Hid]. destruct (v_entry _ Hv _ _ Hid) as (l & _ & Hu & Hp).
      destruct (decide (inside (callers t) path = ∅)) as [E|Hne]; [rewrite E, map_size_empty in Hu; lia|].
      apply map_choose in Hne as (who & c & [Hc Hcp]%inside_lookup). eauto.
    + intros (who & c & Hc & <-). rewrite (v_inside _ Hv _ _ Hc). eauto.
Qed.

(** Two callers of one path, the second after the first has left and its entry with
    it. *)
Lemma one_sync_per_path_witness :
  exists t, rtc step empty t /\ c_phase <$> callers t !! 2 = Some Holding /\ is_Some (objectLocks t !! "a") /\ locks t !! 7 = Some (mkLock false 0).
Proof.
  set (t1 := lock_enter empty 1 "a" 7). set (c1 := mkCaller "a" 7 Waiting).
  set (t2 := lock_grab t1 1 c1 (mkLock false 1)). set (t3 := lock_release t2 1 (mkCaller "a" 7 Holding) (mkLock true 1)).
  set (t4 := lock_leave t3 1 (mkCaller "a" 7 Leaving) (mkLock false 1)). set (t5 := lock_enter t4 2 "a" 8).
  set (t6 := lock_grab t5 2 (mkCaller "a" 8 Waiting) (mkLock false 1)).
  assert (rtc step empty t6) as Hr.
  { eapply rtc_l; [by apply (step_enter empty 1 "a" 7)|]. eapply rtc_l; [by apply (step_grab t1 1 c1 (mkLock false 1))|].
    eapply rtc_l; [by apply (step_release t2 1 (mkCaller "a" 7 Holding) (mkLock true 1))|].
    eapply rtc_l; [by apply (step_leave t3 1 (mkCaller "a" 7 Leaving) (mkLock false 1))|].
    eapply rtc_l; [by apply (step_enter t4 2 "a" 8)|]. eapply rtc_l; [by apply (step_grab t5 2 (mkCaller "a" 8 Waiting) (mkLock false 1))|].
    apply rtc_refl. }
  exists t6. split; [exact Hr|]. split; [vm_compute; reflexivity|]. split; [|vm_compute; reflexivity].
  destruct (one_sync_per_path t6 Hr) as [_ H]. apply H. exists 2, (mkCaller "a" 8 Holding). split; vm_compute; reflexivity.
Defined.

End ObjectLocks.

(** ** A worker's turn and direct uploads *)

Module SyncHelpers.

(** A tick of [workerLoop]: deletes first, so that a file removed and written again
    is deleted before it is uploaded. *)
Definition worker_tick `{PathHash} `{ObjectStore} (m : Staging.Manager) (st : store) (now : Time) (stopped current : Z -> bool)
    : Staging.Manager * store :=
  let '(m, st) := Sync.processPendingDeletes m st in
  Sync.processDirtyFiles m st now stopped current.

(** [strings.Contains]. *)
Fixpoint Contains (s sub : string) : bool :=
  HasPrefix s sub || match s with EmptyString => false | String _ s => Contains s sub end.

Definition isNoSuchUpload (err : option string) : bool :=
  match err with None => false | Some message => Contains message "NoSuchUpload" || Contains message "Invalid uploadId" end.

Section Upload.
Context {S E : Type} (PutObject : S -> string -> bytes -> gmap string string -> S * option E).

(** [stopped] is whether the worker stops during the wait before an attempt. *)
Inductive upload_error := Stopped | Failed (attempts : Z) (last : option E).

Fixpoint put_attempts (left : nat) (attempt : Z) (s : S) (path : string) (data : bytes) (metadata : gmap string string)
    (stopped : Z -> bool) (MaxSyncRetries : Z) (lastErr : option E) : S * option upload_error :=
  match left with
  | O => (s, Some (Failed MaxSyncRetries lastErr))
  | Datatypes.S rest =>
      if (0 <? attempt) && stopped attempt then (s, Some Stopped)
      else match PutObject s path data metadata with
           | (s, None) => (s, None)
           | (s, Some e) => put_attempts rest (attempt + 1) s path data metadata stopped MaxSyncRetries (Some e)
           end
  end.

Definition uploadWithRetry (MaxSyncRetries : Z) (s : S) (path : string) (data : bytes) (metadata : gmap string string) (stopped : Z -> bool)
    : S * option upload_error :=
  put_attempts (Z.to_nat MaxSyncRetries) 0 s path data metadata stopped MaxSyncRetries None.

(** [UploadToCOS]; [synced] are the paths the callback was told. *)
Definition UploadToCOS (MaxSyncRetries : Z) (s : S) (synced : list string) (path : string) (data : bytes) (metadata : gmap string string)
    (stopped : Z -> bool) : S * list string * option upload_error :=
  match uploadWithRetry MaxSyncRetries s path data metadata stopped with
  | (s, Some e) => (s, synced, Some e)
  | (s, None) => (s, path :: synced, None)
  end.

(** An upload that reports success put the object: the last call to the store
    succeeded, with the bytes and metadata given. *)
Lemma upload_put left attempt s path data metadata stopped max e s' :
  put_attempts left attempt s path data metadata stopped max e = (s', None) ->
  exists s0, PutObject s0 path data metadata = (s', None).
Proof.
  revert attempt s e. induction left as [|left IH]; intros attempt s e; cbn [put_attempts]; [done|].
  destruct (_ && _); [done|]. destruct (PutObject s path data metadata) as [s1 [e1|]] eqn:E1; [apply IH|].
  intros [= <-]. by exists s.
Qed.

(** The callback hears of exactly the uploads that succeeded. *)
Lemma synced_means_put max s synced path data metadata stopped s' synced' r :
  UploadToCOS max s synced path data metadata stopped = (s', synced', r) ->
  (r = None /\ synced' = path :: synced /\ exists s0, PutObject s0 path data metadata = (s', None)) \/
  (r <> None /\ synced' = synced).
Proof.
  unfold UploadToCOS, uploadWithRetry. destruct (put_attempts _ _ _ _ _ _ _ _) as [s1 [e|]] eqn:Ep; intros [= <- <- <-]; [by right|].
  left. split_and!; [done..|]. by eapply upload_put.
Qed.

End Upload.

End SyncHelpers.
