(* ===== verification/CosWrites.v ===== *)
(** * The writes of the object store client and its set-up ([internal/cos/client.go])

    Each operation is the request it makes of the SDK and what it makes of the
    answer.  The SDK is a parameter.  A write notes whether the bucket had room;
    reads, deletes and the ends of multipart uploads do not. *)
From S2P Require Import Prelude StagingTypes Breaker GoText Config.

Module CosWrites.
Import Quota.

(** The requests of the SDK the client makes, with the fields it fills in. *)
Inductive request :=
  | PutObjectInput (Bucket Key : string) (Body : bytes) (Metadata : gmap string string)
  | GetObjectInput (Bucket Key : string)
  | DeleteObjectInput (Bucket Key : string)
  | CopyObjectInput (Bucket CopySource Key : string) (Metadata : option (gmap string string))
  | CreateMultipartUploadInput (Bucket Key : string) (Metadata : gmap string string)
  | UploadPartInput (Bucket Key UploadId : string) (PartNumber : Z) (Body : bytes)
  | CompleteMultipartUploadInput (Bucket Key UploadId : string) (Parts : list (Z * string))
  | AbortMultipartUploadInput (Bucket Key UploadId : string)
  | HeadBucketInput (Bucket : string).

(** An error as it is returned: a message around what was noted, or the SDK's. *)
Inductive client_error := Wrapped (msg : string) (e : write_error) | Plain (msg : string) (e : sdk_error) | Unwrapped (e : sdk_error).

Record Client := mkClient { bucket : string; fullUntil : Z }.

Definition set_fullUntil (u : Z) (c : Client) : Client := mkClient (bucket c) u.

Section Calls.
(** The SDK's answer to a request: a text (an upload's id, a tag, a body) or an error. *)
Context (sdk : request -> string + sdk_error) (now : Time).

Definition failed (r : request) : option sdk_error := match sdk r with inl _ => None | inr e => Some e end.

(** A request whose outcome is noted. *)
Definition noted (c : Client) (r : request) (msg : string) : Client * option client_error :=
  let '(u, e) := noteWrite (fullUntil c) (failed r) now in (set_fullUntil u c, Wrapped msg <$> e).

(** One whose outcome is not. *)
Definition unnoted (r : request) (msg : string) : option client_error := Plain msg <$> failed r.

Definition PutObject (c : Client) (key : string) (data : bytes) (metadata : gmap string string) : Client * option client_error :=
  noted c (PutObjectInput (bucket c) key data metadata) "failed to put object".

Definition PutObjectStream (c : Client) (key : string) (body : bytes) (metadata : gmap string string) : Client * option client_error :=
  noted c (PutObjectInput (bucket c) key body metadata) "failed to put object stream".

Definition GetObjectStream (c : Client) (key : string) : string + client_error :=
  match sdk (GetObjectInput (bucket c) key) with inl body => inl body | inr e => inr (Unwrapped e) end.

Definition DeleteObject (c : Client) (key : string) : option client_error :=
  unnoted (DeleteObjectInput (bucket c) key) "failed to delete object".

(** [copyObject] as a request; what it makes of the answer is [CosClient.copyObject]. *)
Definition copy_request (c : Client) (sourceKey destKey : string) (metadata : option (gmap string string)) : request :=
  CopyObjectInput (bucket c) (bucket c +:+ "/" +:+ sourceKey) destKey metadata.

Definition CopyObject (c : Client) (sourceKey destKey : string) : request := copy_request c sourceKey destKey None.

(** A nil map is an empty one. *)
Definition CopyObjectWithMetadata (c : Client) (sourceKey destKey : string) (metadata : option (gmap string string)) : request :=
  copy_request c sourceKey destKey (Some (default ∅ metadata)).

Definition UpdateObjectMetadata (c : Client) (key : string) (metadata : gmap string string) : Client * option client_error :=
  noted c (copy_request c key key (Some metadata)) "failed to update object metadata".

Definition CreateMultipartUpload (c : Client) (key : string) (metadata : gmap string string) : string + client_error :=
  match sdk (CreateMultipartUploadInput (bucket c) key metadata) with
  | inl id => inl id
  | inr e => inr (Plain "failed to initiate multipart upload" e)
  end.

Definition UploadPart (c : Client) (key uploadID : string) (partNumber : Z) (body : bytes) : Client * (string + client_error) :=
  let r := UploadPartInput (bucket c) key uploadID partNumber body in
  let '(c, e) := noted c r "failed to upload part" in
  (c, match e with Some e => inr e | None => match sdk r with inl etag => inl etag | inr e => inr (Unwrapped e) end end).

Definition CompleteMultipartUpload (c : Client) (key uploadID : string) (completedParts : list (Z * string)) : Client * option client_error :=
  noted c (CompleteMultipartUploadInput (bucket c) key uploadID completedParts) "failed to complete multipart upload".

Definition AbortMultipartUpload (c : Client) (key uploadID : string) : option client_error :=
  unnoted (AbortMultipartUploadInput (bucket c) key uploadID) "failed to abort multipart upload".

Definition ping (c : Client) : option client_error := unnoted (HeadBucketInput (bucket c)) "bucket not accessible".

(** ** Set-up *)

(** What the client is made with: its credentials, the time a request may take and
    whether the circuit breaker is in front. *)
Inductive credentials := IAM (apiKey serviceID : string) | HMAC (accessKey secretKey : string).
Record connection := mkConnection { creds : credentials; timeout : Duration; breaker : bool }.

(** [NewClient]; [session] is the error of the SDK's session, if any.  A bucket that
    does not answer [ping] does not stop it. *)
Definition NewClient (cfg : option Config.COSConfig) (session : option string) : (Client * connection) + string :=
  match cfg with
  | None => inr "config cannot be nil"
  | Some cfg =>
      match Config.GetTimeout cfg with
      | None => inr "invalid timeout"
      | Some t =>
          let t := if t <? 5 * Minute then 5 * Minute else t in
          let breaker := default true (Config.CircuitBreakerEnabled cfg) in
          let made creds :=
            match session with
            | Some err => inr ("failed to create session: " +:+ err)
            | None => inl (mkClient (Config.Bucket cfg) 0, mkConnection creds t breaker)
            end in
          if decide (Config.AuthType cfg = "iam") then
            if decide (Config.APIKey cfg = "") then inr "api_key is required for IAM authentication"
            else made (IAM (Config.APIKey cfg) (Config.ServiceID cfg))
          else if decide (Config.AuthType cfg = "hmac") then
            if decide (Config.AccessKey cfg = "" \/ Config.SecretKey cfg = "") then
              inr "access_key and secret_key are required for HMAC authentication"
            else made (HMAC (Config.AccessKey cfg) (Config.SecretKey cfg))
          else inr ("invalid auth_type: " +:+ Config.AuthType cfg)
      end
  end.

(** A client that is made has credentials that are not empty and gives a request at
    least five minutes. *)
Lemma new_client_usable cfg session c conn :
  NewClient cfg session = inl (c, conn) ->
  5 * Minute <= timeout conn /\ fullUntil c = 0 /\
  match creds conn with IAM k _ => k <> "" | HMAC a s => a <> "" /\ s <> "" end.
Proof.
  unfold NewClient. destruct cfg as [cfg|]; [|done]. destruct (Config.GetTimeout cfg) as [t|]; [|done].
  assert (5 * Minute <= (if t <? 5 * Minute then 5 * Minute else t)) as Ht by (destruct (Z.ltb_spec t (5 * Minute)); lia).
  repeat case_decide; try done; destruct session; try done; intros [= <- <-]; split_and!; try done; cbn; tauto.
Qed.

(** ** What a write says about the bucket *)

(** The write that carries the bytes or the metadata of an object, and nothing else,
    moves the time until which the bucket counts as full. *)
Lemma write_notes_quota c r msg :
  let '(c', err) := noted c r msg in
  (failed r = None -> err = None /\ BucketFull (fullUntil c') now = false) /\
  (forall e, failed r = Some e -> isQuotaExceeded e = true -> 0 < now -> err = Some (Wrapped msg (QuotaError e)) /\
     BucketFull (fullUntil c') now = true) /\
  (forall e, failed r = Some e -> isQuotaExceeded e = false -> err = Some (Wrapped msg (Other e)) /\ c' = c).
Proof.
  unfold noted, noteWrite. destruct (failed r) as [e|]; [destruct (isQuotaExceeded e) eqn:E|]; cbn [fullUntil set_fullUntil].
  - split_and!; [done| |intros ? [= <-]; congruence]. intros ? [= <-] _ Hnow. split; [done|].
    unfold BucketFull, setBucketFull. assert (0 < bucketFullFor) by reflexivity.
    apply andb_true_intro. split; [apply negb_true_iff, Z.eqb_neq; lia|apply Z.ltb_lt; lia].
  - split_and!; [done|intros ? [= <-]; congruence|]. intros ? [= <-] _. split; [done|]. by destruct c.
  - split_and!; [done|done|done].
Qed.

End Calls.

End CosWrites.
